(* ===== verification/_CoqProject ===== *)
-Q . S2P
Prelude.v
Ordered.v
Text.v
External.v
Kleene.v
Json.v
GroupModel.v
GroupRule.v
GroupEvaluation.v
GroupSpec.v
GroupProperties.v
Scope.v
ScopeProperties.v
Compliance.v
ComplianceProperties.v
Release.v
ReleaseTransition.v
ReleaseSpec.v
ReleaseProperties.v
PolicySchedule.v
PolicyScheduleProperties.v
SelfService.v
PolicyAssignment.v
PolicyAssignmentProperties.v
PolicyLifecycle.v
PolicyLifecycleProperties.v
QueryParser.v
QuerySpec.v
QueryPrint.v
QueryCursor.v
QueryDirectory.v
QueryProperties.v
InventoryValue.v
InventorySource.v
InventoryField.v
InventoryResolve.v
InventoryProgress.v
InventorySpec.v
InventoryResolveSpec.v
InventoryProperties.v
InventoryProgressProperties.v
AccessModel.v
AccessEvaluate.v
AccessSpec.v
AccessProperties.v
Xml.v
Declared.v
DeclaredSpec.v
SyncmlModel.v
SyncmlCodec.v
SyncmlCorrelation.v
XmlTotal.v
SyncmlTotal.v
SyncmlExpected.v
SyncmlCorrelate.v
SyncmlFragment.v
XmlTree.v
XmlWrite.v
SyncmlWire.v
SyncmlRead.v
SyncmlReadCommands.v
SyncmlRoundtrip.v
XmlExample.v
SyncmlProperties.v
TrustWire.v
Certificates.v
DeviceTrust.v
DeviceTrustSpec.v
DeviceVerify.v
DeviceIssuance.v
DeviceTrustExample.v
DeviceTrustProperties.v
AgentWire.v
AgentWireProperties.v
NativeProtection.v
LargeObject.v
LargeObjectProperties.v
ManagementSession.v
ManagementProperties.v
Resource.v
