(* ===== verification/Prelude.v ===== *)
(** * RSS MDM: verification library (root file)

    RSS MDM is a device-management server written in Rust.  Its decisions are made by pure
    "domain" crates, free of I/O; services load rows from PostgreSQL, call a domain crate and
    persist what it returns.  This library models those domain crates and proves what the
    services rely on.

    ** The program and the library

    - [crates/group]: dynamic device groups.  A rule is a bounded criteria tree; a page of
      a frozen device universe is evaluated to matched / not matched / unknown per device.
      [GroupModel] (limits, [Budget], [Value], [Fact], [Page]), [GroupRule] (the tree, its
      builders, [Rule_new]), [GroupEvaluation] ([evaluate_node], [evaluate_page]), [GroupSpec]
      (lemmas), [GroupProperties].
    - [crates/scope]: the audience of a policy.  [Scope] models [Definition] and
      [resolve_device], which turns source memberships (static and dynamic groups, users,
      locations) into a verdict with its explanation; [ScopeProperties].
    - [crates/compliance]: the status of a rule on a device, its aggregate and its assessment
      record.  [Compliance], [ComplianceProperties].
    - [crates/software-release]: immutable release content, canonical fingerprints and the
      publication state machine.  [Release] (identities, content, encodings),
      [ReleaseTransition] ([Publication_new], [restore], [transition]), [ReleaseSpec] (codecs,
      frame and simulation lemmas), [ReleaseProperties].
    - [crates/policy]: policies.  [PolicySchedule] (triggers, jitter, windows),
      [SelfService], [PolicyAssignment] (actions, rollout, complete definitions),
      [PolicyLifecycle] (the aggregate, [Policy_apply]) and their [...Properties].
    - [crates/query]: read-side queries.  [QueryParser] (the filter language),
      [QuerySpec] and [QueryPrint] (a printer and the parser's contract), [QueryCursor]
      (parameters and authenticated continuations), [QueryDirectory] (checked directories and
      pages), [QueryProperties].
    - [crates/inventory]: collected device facts.  [InventoryValue] (scalars, value types,
      validation, extension), [InventorySource] (namespaces, scopes, provider documents),
      [InventoryField] (keys, definitions, catalogues, paths), [InventoryResolve] (several
      sources and endpoints to one state, for values and arrays), [InventoryProgress]
      (resumable collection, native capture, bodies, batches).  [InventorySpec] and
      [InventoryResolveSpec] hold the lemmas and a concrete catalogue,
      [InventoryProperties] and [InventoryProgressProperties] the theorems.
    - [crates/authorization-service]: who may do what.  [AccessModel] (permissions, grants,
      rules, groups, keys, the installation's tenants), [AccessEvaluate] (live proofs, matching
      of subjects, [require], [devices_for], frozen evidence), [AccessSpec] (what a decision
      means), [AccessProperties].
    - [crates/windows-mdm]: the device-management protocol of Windows.  [Xml] ([xml.rs]: the
      budgeted reader [read_loop] and writer over quick-xml's events), [Declared]
      ([native/declared.rs]: desired documents, results, summaries), [SyncmlModel] (messages,
      [flattened], [validate]), [SyncmlCodec] ([encode], [decode]), [SyncmlCorrelation]
      ([encode_outbound], [record_sent], [correlate], [admit], [fragment]).  Their lemmas:
      [XmlTotal] and [SyncmlTotal] (nothing panics; what flattening computes), [SyncmlExpected],
      [SyncmlCorrelate] (with the receipts of an admitted message), [SyncmlFragment],
      [DeclaredSpec]; for the round trip [XmlTree] (documents as trees, and reading a known stream),
      [XmlWrite] and [SyncmlWire] (the writer emits a tree), [SyncmlRead],
      [SyncmlReadCommands], [SyncmlRoundtrip].  [XmlExample] is a small XML reader for closed
      examples; [SyncmlProperties] has the theorems.
    - [crates/certificate], [crates/device-trust], [agent-wire]'s [pki.rs]: device certificates.
      [TrustWire] (the distributed document), [Certificates] (parsed certificates, subjects,
      profiles, lifetimes, signed requests), [DeviceTrust] ([lib.rs]:
      [snapshot], [update], [verify], [verify_history]; [qualification.rs]:
      [certificate_window]), [DeviceIssuance] ([agent.rs], [windows.rs], [apple.rs]).  Lemmas:
      [DeviceTrustSpec] (acceptance without the clock), [DeviceVerify] (the deciding issuer,
      the interval, replacement).  [DeviceTrustExample] is a small certification authority;
      [DeviceTrustProperties] has the theorems.
    - [crates/native-protection]: [NativeProtection], the key ring that seals, opens, rewraps and
      fingerprints stored content.
    - [crates/windows-channel], and of [execution-service] [manage_on] and what it calls
      ([receive_on], [send_on], [continue_on]): management sessions.
      [LargeObject] ([large_object.rs]: values that arrive in pieces), [ManagementSession]
      ([transcript.rs], [management.rs], [management/session.rs]: the stored transcript, both
      authentications, the decision on a message, its preparation, the reply and the saved rows;
      [manage] is one request) and [LargeObjectProperties], [ManagementProperties].
    - [crates/agent-wire]: [AgentWire] ([chunks.rs], [task_trust.rs], and results and diagnostics
      of [tasks.rs]), [AgentWireProperties].
    - [crates/resource]: [Resource], the catalogue of deployable content ([lib.rs]: identities,
      versions with their canonical encoding, the aggregate with its lifecycle and snapshots;
      [applicability.rs], [collection_scope.rs]).  What a version asks of a software, script,
      collection or telemetry definition is the interface [Definitions].  Its theorems are in
      the same file.
    - Shared: [Prelude] (Rust's [Result] with an explicit panic, loops, limits), [Ordered]
      ([Ord], [BTreeMap], [BTreeSet], [sort_by]), [Text] ([str] as scalar values with their
      UTF-8 length), [Json] ([serde_json::Value]), [Kleene] (three-valued logic, the
      specification of group, scope and compliance), [External].

    The components interact through values: a group page result is the membership a scope
    source reports; a scope verdict is the audience of a policy definition; a policy definition
    binds a software release or an action; inventory resolution produces the facts group rules
    read; a management session calls the SyncML codec and correlation, the assembly and the key
    ring.  Each crate validates what it receives, so each file states its own input predicate.

    ** Modelling conventions

    A type is a record or an inductive with the source's constructors; [BTreeMap] and
    [BTreeSet] are the sorted association lists of [Ordered], because iteration order decides
    the first error and the bytes of an encoding.  A fallible function returns [res E A]:
    [Ok], [Err] with the source's error, or [Panic] where Rust would abort (index, [expect],
    [unreachable!], overflow of plain arithmetic).  Integers are [Z] with their width
    written out ([checked_add], [saturating_*], range tests) where the code depends on it.
    Mutation through [&mut self] is explicit state passing, and a method that fails after a
    partial write returns the state it left.  Private fields are an invariant: a value exists
    only through the constructors, so theorems assume the constructor's success.

    Code that is not in the repository is a parameter: one class per crate ([UuidCrate],
    SHA-256, [jiff]'s civil time, [serde_json]'s numbers, base64url, HMAC, ...), whose
    laws are documented behaviour.  Witnesses instantiate the classes by concrete functions.

    ** What the theorems show

    - Group: the evaluator refines strong Kleene logic, never panics, stays in its work
      budget, is monotone in the evidence, and explains every decision completely.
    - Scope: the verdict is three-valued set algebra; the accepted inputs are characterised;
      more evidence never changes a definite verdict; explanations are exact.
    - Compliance: an assessment records its input, and its status and reason follow from it in
      three-valued logic, sound for every completion of the evidence; the aggregate is the worst
      current status.
    - Release: the state machine keeps its invariant and refines an abstract lifecycle;
      publishing again requires proof that nothing was applied; replays are idempotent;
      fingerprints and content digests identify what they encode.
    - Policy: over a history of accepted changes the revision counts the documents and the
      number counts the changes of what is executed; compare-and-set; occurrences of a schedule are sound and arithmetic is safe.
    - Query: printing then parsing is the identity; parsing terminates within its budgets; only
      authentic continuations are accepted, and following pages visits every row once.
    - Inventory: resolution is independent of the order of sources and follows the priority
      specification; schema extension preserves valid values; an interrupted collection is
      resumed without ever mixing rounds.
    - Access: an admitted operation is authorized at instants the evaluation itself observed;
      while a proof is steady decisions are exact and listings agree with them in business
      tenants; tenants, keys and initialization have explicit lists of what they may do; frozen evidence names real rules.
    - SyncML: decoding inverts encoding; the codec ends on every input without a panic;
      flattening is a preorder traversal; a session's expectations describe what was sent; a
      correlated response accounts for every requested value once and reports on sent commands
      only; the answers to an admitted message fit its limits; the fragments of an object
      advance, fit and add up to it; a converged result reports every desired resource.
    - Device trust: a verified certificate has an approved, current issuer and is on no list;
      the qualification window is exactly the time in which it passes; trust moves forward; an
      accepted document loads again; an issued certificate is recovered while its issuer stays
      approved, exactly when it has the form that the recovery asks for.
    - Protection: content stays readable through a rotation of keys, and only with the key and
      coordinates it was sealed with.
    - Sessions: reading the encrypted messages again gives the state the last one left, except
      that the object is fed what was not authenticated; replies repeat until the session expires;
      nothing of a message is heard before both sides are authenticated, whatever the receivers
      and senders would do; a delivered value is what the device sent, in consecutive pieces, and
      such pieces get through; an unfinished package goes on with the next piece or a request for
      more, or it is aborted.
    - Resources: a version is identified by its digest; over any history its content is frozen,
      at most one version is active, and archiving needs evidence of no references; what is
      stored is what is restored; prerequisites are met by evidence only.
    - Agents: chunked output comes back whole in any order; signing keys only go forward.

    ** Fuel and bounds

    - [logical_fuel] is 51 in [QueryParser]: three calls per nesting level and at most 17
      levels, the depth limit of 16 being checked by the code before it recurses; [filter_bounded]
      shows that fuel is never what fails.
    - Loops over a string or a list use the length of the input as fuel.
    - The window and weekly scans of [PolicySchedule] run the code's own 15 and 16 days.
    - [climb_fuel] in [AccessEvaluate] is the number of departments plus one: a longer climb has
      met a department twice and never ends in the code either.  Instants are read from a
      stream [nat -> Z], so no theorem assumes that time stands still unless it says so.
    - Scalar budgets of [InventoryValue] (depth 6, 200000 nodes, 16 MiB) are the code's own.
    - XML and SyncML readers use [event_fuel], one more than the budget of events a reader may
      consume, [read_commands] the 34 levels that the depth check of 32 leaves, and
      [flatten_fuel] the limit on commands; running out is a panic of the model, and
      [codec_total] shows that none happens.  A round trip assumes that quick-xml reports what
      the writer wrote ([reads_written]) and excludes the two alerts of [readable].

    ** Not modelled

    Services and repositories ([*-service] other than the decisions of [authorization-service] and
    [manage_on], [*-postgres], [apps/server]): SQL, transactions, HTTP and timers around the
    domain calls.  [windows-mdm/src/native/generated.rs] and [apple-mdm/src/native/generated.rs]:
    generated tables; [inventory/src/builtin.rs]: seed data.  Wire codecs of third-party formats
    ([apple-mdm], the SOAP and provisioning parts of [windows-mdm], the signed envelopes and
    native collections of [agent-wire]).  Query fingerprints and bindings: hashes of generated
    serialization.  Of sessions: the rows of other sessions and their supersession, audit facts,
    unenrollment and what the tables of commands, collections and materials answer (the functions
    of [Effects]; when they are asked is modelled).  [winget-source], [brew-source]: manifests over third-party parsers.  Of
    [resource]: the definitions of the kinds with their validation and generated serialization,
    blueprints and directories.
    Of [device-trust]: the linked enrollment and CMS renewal proofs, the signing of Apple
    profiles, TLS signatures and the gateway's certificate header.  The web console and the
    tests. *)
From Stdlib Require Export ZArith Lia.
From stdpp Require Export prelude.

#[global] Open Scope Z_scope.

(** ** Rust [Result] with an explicit panic outcome

    [Ok]/[Err] are Rust's; [Panic] stands for an aborted computation (index out
    of range, [expect] on [None], [unreachable!], arithmetic overflow). *)
Inductive res (E A : Type) : Type :=
| Ok (value : A)
| Err (error : E)
| Panic.
Arguments Ok {E A} _.
Arguments Err {E A} _.
Arguments Panic {E A}.

#[export] Instance res_ret {E} : MRet (res E) := fun A a => Ok a.
#[export] Instance res_bind {E} : MBind (res E) :=
  fun A B k m => match m with Ok a => k a | Err e => Err e | Panic => Panic end.
#[export] Instance res_eq_dec {E A} `{EqDecision E, EqDecision A} : EqDecision (res E A).
Proof. solve_decision. Defined.

(** [?] after a boolean test: [if bad { return Err(e) }] is [reject bad e]. *)
Definition reject {E} (bad : bool) (e : E) : res E () := if bad then Err e else Ok ().
(** [Option::ok_or]. *)
Definition ok_or {E A} (o : option A) (e : E) : res E A :=
  match o with Some a => Ok a | None => Err e end.
(** [Option::is_some]. *)
Definition given {A} (o : option A) : bool := match o with Some _ => true | None => false end.
(** [Option::expect], indexing and [unreachable!] guards. *)
Definition or_panic {E A} (o : option A) : res E A :=
  match o with Some a => Ok a | None => Panic end.
(** A [for] loop whose body may return early through [?]. *)
Fixpoint res_for {E S A} (body : S -> A -> res E S) (l : list A) (s : S) : res E S :=
  match l with
  | [] => Ok s
  | a :: l => s' ← body s a; res_for body l s'
  end.
(** [iter.map(f).collect::<Result<Vec<_>, _>>()]. *)
Fixpoint res_map {E A B} (f : A -> res E B) (l : list A) : res E (list B) :=
  match l with
  | [] => Ok []
  | a :: l => b ← f a; bs ← res_map f l; Ok (b :: bs)
  end.
Definition is_ok {E A} (r : res E A) : bool :=
  match r with Ok _ => true | _ => false end.
Definition get {E A} (d : A) (r : res E A) : A := match r with Ok a => a | _ => d end.
Definition no_panic {E A} (r : res E A) : Prop := r <> Panic.

Section ResLemmas.
Context {E A B : Type}.
Implicit Types (m : res E A) (k : A -> res E B).

Lemma bind_ok m k b : m ≫= k = Ok b <-> exists a, m = Ok a /\ k a = Ok b.
Proof. destruct m; simpl; naive_solver. Qed.
Lemma bind_err m k e :
  m ≫= k = Err e <-> m = Err e \/ exists a, m = Ok a /\ k a = Err e.
Proof. destruct m; simpl; naive_solver. Qed.
Lemma bind_no_panic m k :
  no_panic m -> (forall a, m = Ok a -> no_panic (k a)) -> no_panic (m ≫= k).
Proof. unfold no_panic. destruct m; simpl; naive_solver. Qed.
Lemma reject_ok b (e : E) u : reject b e = Ok u <-> b = false.
Proof. destruct b, u; simpl; naive_solver. Qed.
Lemma reject_no_panic b (e : E) : no_panic (reject b e).
Proof. by destruct b. Qed.
Lemma ok_or_ok (o : option A) (e : E) a : ok_or o e = Ok a <-> o = Some a.
Proof. destruct o; simpl; naive_solver. Qed.
Lemma ok_or_no_panic (o : option A) (e : E) : no_panic (ok_or o e).
Proof. by destruct o. Qed.
Lemma is_ok_get m d : is_ok m = true -> m = Ok (get d m).
Proof. by destruct m. Qed.
Lemma or_panic_ok (o : option A) a : or_panic (E:=E) o = Ok a <-> o = Some a.
Proof. destruct o; simpl; naive_solver. Qed.
End ResLemmas.

Create HintDb rust.
Create HintDb total.
Create Rewrite HintDb rust_simpl.
#[export] Hint Resolve reject_no_panic ok_or_no_panic : rust.

(** Decompose every hypothesis that says a fallible computation succeeded. *)
Ltac inv_ok :=
  repeat match goal with
  | H : Ok _ = Ok _ |- _ => injection H as H; try subst
  | H : Err _ = Ok _ |- _ => discriminate H
  | H : Panic = Ok _ |- _ => discriminate H
  | H : mret _ = Ok _ |- _ => unfold mret, res_ret in H
  | H : _ ≫= _ = Ok _ |- _ =>
      apply bind_ok in H; let a := fresh "a" in let E := fresh "E" in
      destruct H as (a & E & H)
  | H : reject _ _ = Ok ?u |- _ => apply reject_ok in H; try clear u
  | H : ok_or _ _ = Ok _ |- _ => apply ok_or_ok in H
  | H : or_panic _ = Ok _ |- _ => apply or_panic_ok in H
  end.

(** Turn boolean tests in the context into arithmetic and propositions. *)
Ltac bool_hyps :=
  repeat match goal with
  | H : _ || _ = false |- _ => apply orb_false_iff in H; destruct H
  | H : _ && _ = true |- _ => apply andb_true_iff in H; destruct H
  | H : negb _ = false |- _ => apply negb_false_iff in H
  | H : negb _ = true |- _ => apply negb_true_iff in H
  | H : bool_decide _ = true |- _ => apply bool_decide_eq_true in H
  | H : bool_decide _ = false |- _ => apply bool_decide_eq_false in H
  | H : (_ <=? _) = true |- _ => apply Z.leb_le in H
  | H : (_ <=? _) = false |- _ => apply Z.leb_gt in H
  | H : (_ <? _) = true |- _ => apply Z.ltb_lt in H
  | H : (_ <? _) = false |- _ => apply Z.ltb_ge in H
  | H : (_ =? _) = true |- _ => apply Z.eqb_eq in H
  | H : (_ =? _) = false |- _ => apply Z.eqb_neq in H
  end.

Section LoopLemmas.
Context {E S A : Type} (body : S -> A -> res E S).

Lemma res_for_app l1 l2 s :
  res_for body (l1 ++ l2) s = s' ← res_for body l1 s; res_for body l2 s'.
Proof.
  revert s. induction l1 as [|a l1 IH]; intros s; simpl; [done|].
  destruct (body s a); simpl; [apply IH|done|done].
Qed.
(** Loop invariants: the rule every loop proof of the development uses. *)
Lemma res_for_inv (I : S -> Prop) l s s' :
  (forall s a s', a ∈ l -> I s -> body s a = Ok s' -> I s') ->
  I s -> res_for body l s = Ok s' -> I s'.
Proof.
  revert s. induction l as [|a l IH]; intros s Hstep HI H; simpl in H; inv_ok; [done|].
  eapply IH; [|eapply Hstep; [|exact HI|eassumption]|eassumption].
  - intros; eapply Hstep; [by right|done..].
  - by left.
Qed.
Lemma res_for_no_panic (I : S -> Prop) l s :
  (forall s a, a ∈ l -> I s -> no_panic (body s a)) ->
  (forall s a s', a ∈ l -> I s -> body s a = Ok s' -> I s') ->
  I s -> no_panic (res_for body l s).
Proof.
  revert s. induction l as [|a l IH]; intros s Hnp Hstep HI; simpl; [done|].
  apply bind_no_panic; [apply Hnp; [by left|done]|].
  intros s' Hs'. apply IH.
  - intros; apply Hnp; [by right|done].
  - intros; eapply Hstep; [by right|done..].
  - eapply Hstep; [by left|done..].
Qed.
End LoopLemmas.
Lemma loop_no_panic {E S A} (body : S -> A -> res E S) xs s :
  (forall s a, no_panic (body s a)) -> no_panic (res_for body xs s).
Proof. intros Hb. by apply (res_for_no_panic body (fun _ => True)). Qed.
(** Sequences and case distinctions of results that cannot panic. *)
Ltac no_panic_walk :=
  intros; cbv zeta;
  repeat match goal with
  | |- no_panic (_ ≫= _) => apply bind_no_panic; [|intros ? _]
  | |- no_panic _ => solve [eauto 10 with total rust]
  | |- no_panic (match ?x with _ => _ end) => destruct x
  | |- no_panic (res_for _ _ _) => apply loop_no_panic; intros
  | |- no_panic (Ok _) => discriminate
  | |- no_panic (Err _) => discriminate
  end.

Section MapLemmas.
Context {E A B : Type} (f : A -> res E B).

Lemma res_map_ok l l' :
  res_map f l = Ok l' <-> Forall2 (fun a b => f a = Ok b) l l'.
Proof.
  revert l'. induction l as [|a l IH]; intros l'; simpl.
  - split; [intros [= <-]; constructor|by intros H; inversion H].
  - split.
    + intros H. inv_ok. constructor; [done|by apply IH].
    + intros H. inversion_clear H as [|? ? ? l2 Ha Hl].
      rewrite Ha. simpl. by rewrite (proj2 (IH l2) Hl).
Qed.
Lemma res_map_length l l' : res_map f l = Ok l' -> length l' = length l.
Proof. rewrite res_map_ok. intros H. symmetry. by eapply Forall2_length. Qed.
Lemma res_map_ext_eq (g : A -> res E B) l : (forall a, f a = g a) -> res_map f l = res_map g l.
Proof. intros Hfg. induction l as [|a l IH]; simpl; [done|]. by rewrite Hfg, IH. Qed.
Lemma res_map_no_panic l :
  (forall a, a ∈ l -> no_panic (f a)) -> no_panic (res_map f l).
Proof.
  induction l as [|a l IH]; intros H; simpl; [done|].
  apply bind_no_panic; [apply H; by left|intros b _].
  apply bind_no_panic; [|done]. apply IH. intros; apply H; by right.
Qed.
End MapLemmas.

(** ** Machine integers

    A [w]-bit integer is a [Z] within its bounds; [usize] is 64 bits wide on
    every supported target. *)
Definition u64_max : Z := 2 ^ 64 - 1.
Definition usize_max : Z := u64_max.
Definition i64_max : Z := 2 ^ 63 - 1.
Definition i64_min : Z := - 2 ^ 63.
Definition is_u64 (z : Z) : bool := (0 <=? z) && (z <=? u64_max).
Definition is_i64 (z : Z) : bool := (i64_min <=? z) && (z <=? i64_max).
Definition in_u64 (z : Z) : Prop := 0 <= z <= u64_max.
Definition in_i64 (z : Z) : Prop := i64_min <= z <= i64_max.

Definition checked_u64 (z : Z) : option Z := if is_u64 z then Some z else None.
Definition checked_i64 (z : Z) : option Z := if is_i64 z then Some z else None.
(** [i64::saturating_sub]. *)
Definition saturating_i64 (z : Z) : Z := Z.max i64_min (Z.min i64_max z).
(** [usize::saturating_add]. *)
Definition saturating_usize (z : Z) : Z := Z.max 0 (Z.min usize_max z).
(** [as u64] of an [i64] and [as i64] of a [u64]. *)
Definition i64_as_u64 (z : Z) : Z := z mod 2 ^ 64.
Definition u64_as_i64 (z : Z) : Z := if z <=? i64_max then z else z - 2 ^ 64.

Lemma is_u64_spec z : is_u64 z = true <-> in_u64 z.
Proof. unfold is_u64, in_u64. rewrite andb_true_iff, !Z.leb_le. done. Qed.
Lemma is_i64_spec z : is_i64 z = true <-> in_i64 z.
Proof. unfold is_i64, in_i64. rewrite andb_true_iff, !Z.leb_le. done. Qed.
Lemma checked_u64_some z z' : checked_u64 z = Some z' <-> z' = z /\ in_u64 z.
Proof.
  unfold checked_u64. rewrite <-is_u64_spec. destruct (is_u64 z); naive_solver.
Qed.
Lemma checked_i64_some z z' : checked_i64 z = Some z' <-> z' = z /\ in_i64 z.
Proof.
  unfold checked_i64. rewrite <-is_i64_spec. destruct (is_i64 z); naive_solver.
Qed.
Lemma i64_as_u64_inj a b : in_i64 a -> in_i64 b -> i64_as_u64 a = i64_as_u64 b -> a = b.
Proof.
  unfold in_i64, i64_as_u64, i64_min, i64_max. intros Ha Hb H.
  assert (a = b + 2 ^ 64 * (a / 2 ^ 64 - b / 2 ^ 64)) as Heq by
    (pose proof (Z.div_mod a (2 ^ 64)); pose proof (Z.div_mod b (2 ^ 64)); lia).
  assert (a / 2 ^ 64 - b / 2 ^ 64 = 0) by lia. lia.
Qed.

(** Big-endian bytes: [to_be_bytes] of an [n]-byte integer. *)
Fixpoint be_bytes (n : nat) (z : Z) : list Z :=
  match n with
  | O => []
  | S n => (z / 256 ^ Z.of_nat n) mod 256 :: be_bytes n z
  end.
Fixpoint of_be_bytes (l : list Z) : Z :=
  match l with
  | [] => 0
  | b :: l => b * 256 ^ Z.of_nat (length l) + of_be_bytes l
  end.
Lemma length_be_bytes n z : length (be_bytes n z) = n.
Proof. induction n; simpl; congruence. Qed.
Lemma of_be_bytes_be n z : of_be_bytes (be_bytes n z) = z mod 256 ^ Z.of_nat n.
Proof.
  induction n as [|n IH]; [by rewrite Z.mod_1_r|].
  cbn [be_bytes of_be_bytes]. rewrite IH, length_be_bytes, Nat2Z.inj_succ, Z.pow_succ_r by lia.
  rewrite (Z.mul_comm 256). rewrite Z.rem_mul_r by lia. lia.
Qed.
Lemma be_bytes_inj n a b :
  0 <= a < 256 ^ Z.of_nat n -> 0 <= b < 256 ^ Z.of_nat n ->
  be_bytes n a = be_bytes n b -> a = b.
Proof.
  intros Ha Hb H. rewrite <-(Z.mod_small a _ Ha), <-(Z.mod_small b _ Hb).
  by rewrite <-!of_be_bytes_be, H.
Qed.

#[global] Arguments be_bytes : simpl never.

(** ** Lists *)
Definition zlen {A} (l : list A) : Z := Z.of_nat (length l).
(** [slice.windows(2).any(..)]. *)
Fixpoint adjacent {A} (p : A -> A -> bool) (l : list A) : bool :=
  match l with
  | a :: (b :: _) as t => p a b || adjacent p t
  | _ => false
  end.
Lemma zlen_nonneg {A} (l : list A) : 0 <= zlen l.
Proof. unfold zlen. lia. Qed.
Lemma zlen_cons {A} (a : A) l : zlen (a :: l) = 1 + zlen l.
Proof. unfold zlen. simpl. lia. Qed.
Lemma zlen_perm {A} (l l' : list A) : l ≡ₚ l' -> zlen l = zlen l'.
Proof. intros Hp. unfold zlen. by rewrite Hp. Qed.
Lemma zlen_app {A} (l l' : list A) : zlen (l ++ l') = zlen l + zlen l'.
Proof. unfold zlen. rewrite length_app. lia. Qed.
Lemma app_inj_length {A} (a b c d : list A) :
  length a = length c -> a ++ b = c ++ d -> a = c /\ b = d.
Proof. intros. by apply app_inj_1. Qed.
Lemma existsb_false_iff {A} (p : A -> bool) l :
  existsb p l = false <-> forall a, a ∈ l -> p a = false.
Proof.
  induction l as [|a l IH]; simpl; [split; [set_solver|done]|].
  rewrite orb_false_iff, IH. set_solver.
Qed.
Lemma existsb_true_iff {A} (p : A -> bool) l :
  existsb p l = true <-> exists a, a ∈ l /\ p a = true.
Proof. rewrite existsb_exists. by setoid_rewrite list_elem_of_In. Qed.
Lemma forallb_true_iff {A} (p : A -> bool) l :
  forallb p l = true <-> forall a, a ∈ l -> p a = true.
Proof. rewrite forallb_forall. by setoid_rewrite list_elem_of_In. Qed.
#[export] Hint Rewrite @existsb_false_iff @existsb_true_iff @forallb_true_iff : rust_simpl.
Lemma elem_of_map {A B} (f : A -> B) l y : y ∈ map f l <-> exists x, f x = y /\ x ∈ l.
Proof. rewrite list_elem_of_In, in_map_iff. by setoid_rewrite list_elem_of_In. Qed.
Lemma elem_of_concat {A} (ls : list (list A)) x : x ∈ concat ls <-> exists l, l ∈ ls /\ x ∈ l.
Proof. rewrite list_elem_of_In, in_concat. by setoid_rewrite list_elem_of_In. Qed.
