(* ===== verification/Ordered.v ===== *)
(** * Rust's [Ord], [BTreeSet], [BTreeMap] and [sort_by]

    Ordered collections are the canonical form of most of the program's data:
    iteration order decides which error is reported and what is encoded.  A
    [BTreeSet] is its strictly increasing element list, a [BTreeMap] its list of
    entries with strictly increasing keys. *)
From Stdlib Require Import Sorted.
From S2P Require Import Prelude.

(** ** Total orders *)
Class Ord (A : Type) : Type := cmp : A -> A -> comparison.

Class OrdLaws (A : Type) `{Ord A} : Prop := {
  cmp_eq : forall x y : A, cmp x y = Eq <-> x = y;
  cmp_opp : forall x y : A, cmp y x = CompOpp (cmp x y);
  cmp_trans : forall x y z : A, cmp x y = Lt -> cmp y z = Lt -> cmp x z = Lt
}.

Definition ltb {A} `{Ord A} (x y : A) : bool := match cmp x y with Lt => true | _ => false end.
Definition leb {A} `{Ord A} (x y : A) : bool := match cmp x y with Gt => false | _ => true end.
Definition eqb {A} `{Ord A} (x y : A) : bool := match cmp x y with Eq => true | _ => false end.
Definition lt {A} `{Ord A} (x y : A) : Prop := cmp x y = Lt.

Section OrdFacts.
Context {A} `{OrdLaws A}.
Implicit Types x y z : A.

Lemma cmp_refl x : cmp x x = Eq.
Proof. by apply cmp_eq. Qed.
Lemma cmp_gt x y : cmp x y = Gt <-> cmp y x = Lt.
Proof. rewrite (cmp_opp x y). destruct (cmp x y); simpl; naive_solver. Qed.
Lemma lt_irrefl x : ~ lt x x.
Proof. unfold lt. by rewrite cmp_refl. Qed.
Lemma lt_trans x y z : lt x y -> lt y z -> lt x z.
Proof. apply cmp_trans. Qed.
Lemma lt_asym x y : lt x y -> ~ lt y x.
Proof. unfold lt. intros Hxy. rewrite (cmp_opp x y), Hxy. done. Qed.
Lemma ltb_lt x y : ltb x y = true <-> lt x y.
Proof. unfold ltb, lt. destruct (cmp x y); naive_solver. Qed.
Lemma ltb_ge x y : ltb x y = false <-> ~ lt x y.
Proof. rewrite <-ltb_lt. by destruct (ltb x y). Qed.
Lemma eqb_eq x y : eqb x y = true <-> x = y.
Proof. unfold eqb. rewrite <-cmp_eq. destruct (cmp x y); naive_solver. Qed.
Lemma eqb_neq x y : eqb x y = false <-> x <> y.
Proof. rewrite <-eqb_eq. by destruct (eqb x y). Qed.
Lemma eqb_true x y : eqb x y = true -> x = y.
Proof. apply eqb_eq. Qed.
Lemma eqb_false x y : eqb x y = false -> x <> y.
Proof. apply eqb_neq. Qed.
Lemma eqb_refl x : eqb x x = true.
Proof. by apply eqb_eq. Qed.
Lemma leb_le x y : leb x y = true <-> lt x y \/ x = y.
Proof. unfold leb, lt. rewrite <-cmp_eq. destruct (cmp x y); naive_solver. Qed.
Lemma leb_gt x y : leb x y = false <-> lt y x.
Proof. unfold leb, lt. rewrite <-cmp_gt. destruct (cmp x y); naive_solver. Qed.
Lemma leb_trans x y z : leb x y = true -> leb y z = true -> leb x z = true.
Proof. rewrite !leb_le. intros [?| ->] [?| ->]; eauto using lt_trans. Qed.
Lemma leb_total x y : leb x y = true \/ leb y x = true.
Proof. destruct (leb x y) eqn:E; [by left|]. apply leb_gt in E. right. apply leb_le. by left. Qed.
Lemma leb_antisym x y : leb x y = true -> leb y x = true -> x = y.
Proof. rewrite !leb_le. intros [?|?] [?|?]; try done. by destruct (lt_asym x y). Qed.
#[export] Instance ord_eq_dec : EqDecision A | 100.
Proof.
  intros x y. destruct (cmp x y) eqn:E.
  - left. by apply cmp_eq.
  - right. intros ->. by rewrite cmp_refl in E.
  - right. intros ->. by rewrite cmp_refl in E.
Defined.
End OrdFacts.

(** ** Instances *)
#[export] Instance Z_ord : Ord Z := Z.compare.
#[export] Instance Z_ord_laws : OrdLaws Z.
Proof.
  split; unfold cmp, Z_ord.
  - apply Z.compare_eq_iff.
  - intros. apply Z.compare_antisym.
  - intros x y z. rewrite !Z.compare_lt_iff. lia.
Qed.
#[export] Instance nat_ord : Ord nat := Nat.compare.
#[export] Instance nat_ord_laws : OrdLaws nat.
Proof.
  split; unfold cmp, nat_ord.
  - apply Nat.compare_eq_iff.
  - intros. apply Nat.compare_antisym.
  - intros x y z. rewrite !Nat.compare_lt_iff. lia.
Qed.
#[export] Instance bool_ord : Ord bool := fun a b =>
  match a, b with false, true => Lt | true, false => Gt | _, _ => Eq end.
#[export] Instance bool_ord_laws : OrdLaws bool.
Proof. split; [by intros [] []|by intros [] []|by intros [] [] []]. Qed.

(** Lexicographic pairs and lists, and [None] below every [Some]. *)
Definition then_cmp (c d : comparison) : comparison := match c with Eq => d | _ => c end.

Section Lexicographic.
Context {A B} `{OrdLaws A, OrdLaws B}.

#[export] Instance prod_ord : Ord (A * B) := fun p q =>
  then_cmp (cmp p.1 q.1) (cmp p.2 q.2).
#[export] Instance prod_ord_laws : OrdLaws (A * B).
Proof.
  split; unfold cmp, prod_ord.
  - intros [a b] [a' b']; simpl. destruct (cmp a a') eqn:E; simpl.
    + apply cmp_eq in E as ->. rewrite cmp_eq. naive_solver.
    + split; [done|]. intros [= -> ->]. by rewrite cmp_refl in E.
    + split; [done|]. intros [= -> ->]. by rewrite cmp_refl in E.
  - intros [a b] [a' b']; simpl. rewrite (cmp_opp a a'), (cmp_opp b b').
    by destruct (cmp a a').
  - intros [a b] [a' b'] [a'' b'']; simpl.
    destruct (cmp a a') eqn:E1; simpl; [|intros _|done].
    + apply cmp_eq in E1 as ->. destruct (cmp a' a''); simpl; eauto using cmp_trans.
    + destruct (cmp a' a'') eqn:E2; simpl; [|intros _|done].
      * apply cmp_eq in E2 as ->. by rewrite E1.
      * by rewrite (cmp_trans _ _ _ E1 E2).
Qed.
#[export] Instance option_ord : Ord (option A) := fun p q =>
  match p, q with
  | None, None => Eq | None, Some _ => Lt | Some _, None => Gt
  | Some a, Some b => cmp a b
  end.
#[export] Instance option_ord_laws : OrdLaws (option A).
Proof.
  split; unfold cmp, option_ord.
  - intros [a|] [b|]; try done. rewrite cmp_eq. naive_solver.
  - intros [a|] [b|]; try done. apply cmp_opp.
  - intros [a|] [b|] [c|]; try done. apply cmp_trans.
Qed.
Fixpoint list_cmp (l l' : list A) : comparison :=
  match l, l' with
  | [], [] => Eq | [], _ :: _ => Lt | _ :: _, [] => Gt
  | a :: l, b :: l' => then_cmp (cmp a b) (list_cmp l l')
  end.
#[export] Instance list_ord : Ord (list A) := list_cmp.
#[export] Instance list_ord_laws : OrdLaws (list A).
Proof.
  split; unfold cmp, list_ord.
  - induction x as [|a l IH]; intros [|b l']; simpl; try done.
    destruct (cmp a b) eqn:E; simpl.
    + apply cmp_eq in E as ->. rewrite IH. naive_solver.
    + split; [done|]. intros [= -> ->]. by rewrite cmp_refl in E.
    + split; [done|]. intros [= -> ->]. by rewrite cmp_refl in E.
  - induction x as [|a l IH]; intros [|b l']; simpl; try done.
    rewrite (cmp_opp a b), (IH l'). by destruct (cmp a b).
  - induction x as [|a l IH]; intros [|b l'] [|c l'']; simpl; try done.
    destruct (cmp a b) eqn:E1; simpl; [|intros _|done].
    + apply cmp_eq in E1 as ->. destruct (cmp b c); simpl; eauto.
    + destruct (cmp b c) eqn:E2; simpl; [|intros _|done].
      * apply cmp_eq in E2 as ->. by rewrite E1.
      * by rewrite (cmp_trans _ _ _ E1 E2).
Qed.
End Lexicographic.

(** Lexicographic comparison by a function that is only known to be an order on the
    elements of one list: what a recursive comparison of trees needs. *)
Definition list_cmp_by {A} (f : A -> A -> comparison) : list A -> list A -> comparison :=
  fix go l l' := match l, l' with
  | [], [] => Eq | [], _ :: _ => Lt | _ :: _, [] => Gt
  | a :: l, b :: l' => then_cmp (f a b) (go l l')
  end.

Section ListCmpBy.
Context {A : Type} (f : A -> A -> comparison).

Lemma list_cmp_by_eq l l' :
  (forall a b, a ∈ l -> f a b = Eq <-> a = b) -> list_cmp_by f l l' = Eq <-> l = l'.
Proof.
  revert l'. induction l as [|a l IH]; intros [|b l'] Hf; simpl; try done.
  assert (forall a b, a ∈ l -> f a b = Eq <-> a = b) as Hl by (intros; apply Hf; by right).
  specialize (IH l' Hl). specialize (Hf a b ltac:(left)).
  destruct (f a b) eqn:E; simpl; [rewrite IH|..]; naive_solver.
Qed.
Lemma list_cmp_by_opp l l' :
  (forall a b, a ∈ l -> f b a = CompOpp (f a b)) ->
  list_cmp_by f l' l = CompOpp (list_cmp_by f l l').
Proof.
  revert l'. induction l as [|a l IH]; intros [|b l'] Hf; simpl; try done.
  rewrite (Hf a b) by left. rewrite IH by (intros; apply Hf; by right). by destruct (f a b).
Qed.
Lemma list_cmp_by_trans l l' l'' :
  (forall a b, f a b = Eq <-> a = b) ->
  (forall a b c, a ∈ l -> f a b = Lt -> f b c = Lt -> f a c = Lt) ->
  list_cmp_by f l l' = Lt -> list_cmp_by f l' l'' = Lt -> list_cmp_by f l l'' = Lt.
Proof.
  intros Heq. revert l' l''.
  induction l as [|a l IH]; intros [|b l'] [|c l''] Hf; simpl; try done.
  destruct (f a b) eqn:E1; simpl; [|intros _|done].
  - apply Heq in E1 as ->. destruct (f b c); simpl; try done.
    apply IH. intros; eapply Hf; [by right|done..].
  - destruct (f b c) eqn:E2; simpl; [|intros _|done].
    + apply Heq in E2 as ->. by rewrite E1.
    + by rewrite (Hf a b c ltac:(left) E1 E2).
Qed.
End ListCmpBy.
#[global] Arguments list_cmp_by : simpl never.

(** The order pulled back along an injection: derived [Ord] of an enum or record. *)
Definition cmp_on {A B} `{Ord B} (f : A -> B) : Ord A := fun x y => cmp (f x) (f y).
Lemma cmp_on_laws {A B} `{OrdLaws B} (f : A -> B) :
  Inj (=) (=) f -> @OrdLaws A (cmp_on f).
Proof.
  intros Hf. split; unfold cmp, cmp_on.
  - intros x y. rewrite cmp_eq. split; [apply Hf|congruence].
  - intros. apply cmp_opp.
  - intros x y z. apply cmp_trans.
Qed.

(** ** Strictly sorted lists *)
Section SortedLists.
Context {A} `{OrdLaws A}.
Implicit Types (s t : list A) (x y : A).

Definition sorted s : Prop := StronglySorted lt s.

Lemma sorted_nodup s : sorted s -> NoDup s.
Proof.
  induction 1 as [|x s _ IH Hx]; constructor; [|done].
  intros Hin. rewrite Forall_forall in Hx. by destruct (lt_irrefl x (Hx x Hin)).
Qed.
(** A sorted list is determined by its elements. *)
Lemma sorted_ext s t : sorted s -> sorted t -> (forall x, x ∈ s <-> x ∈ t) -> s = t.
Proof.
  intros Hs. revert t. induction Hs as [|x s Hs IH Hx]; intros t Ht Hst.
  - destruct t as [|y t]; [done|]. exfalso.
    assert (y ∈ @nil A) as Hy by (apply Hst; left). inversion Hy.
  - destruct Ht as [|y t Ht Hy].
    { exfalso. assert (x ∈ @nil A) as Hin by (apply Hst; left). inversion Hin. }
    rewrite Forall_forall in Hx, Hy.
    assert (x = y) as ->.
    { destruct (proj1 (elem_of_cons _ _ _) (proj1 (Hst x) ltac:(left))) as [|Hxt]; [done|].
      destruct (proj1 (elem_of_cons _ _ _) (proj2 (Hst y) ltac:(left))) as [|Hys]; [done|].
      by destruct (lt_asym x y (Hx _ Hys)); apply Hy. }
    f_equal. apply IH; [done|]. intros z. split; intros Hz.
    + destruct (proj1 (elem_of_cons _ _ _) (proj1 (Hst z) ltac:(by right))) as [->|]; [|done].
      by destruct (lt_irrefl _ (Hx _ Hz)).
    + destruct (proj1 (elem_of_cons _ _ _) (proj2 (Hst z) ltac:(by right))) as [->|]; [|done].
      by destruct (lt_irrefl _ (Hy _ Hz)).
Qed.
Lemma sorted_adjacent s : adjacent (fun a b => negb (ltb a b)) s = false <-> sorted s.
Proof.
  induction s as [|x s IH]; [split; [constructor|done]|].
  destruct s as [|y s]; simpl in *.
  - split; [intros _; repeat constructor|done].
  - rewrite orb_false_iff, negb_false_iff, ltb_lt, IH. split.
    + intros [Hxy Hs]. constructor; [done|]. constructor; [done|].
      inversion Hs as [|? ? _ Hall]; subst.
      eapply Forall_impl; [exact Hall|]. intros z. by apply lt_trans.
    + inversion_clear 1 as [|? ? Hs Hall]. by inversion Hall.
Qed.
End SortedLists.
#[global] Typeclasses Opaque sorted.

(** ** [BTreeSet] *)
Section BTreeSet.
Context {A} `{OrdLaws A}.
Implicit Types (s t : list A) (x y : A).

Fixpoint bs_insert x s : list A :=
  match s with
  | [] => [x]
  | y :: s' => match cmp x y with
               | Lt => x :: s
               | Eq => s
               | Gt => y :: bs_insert x s'
               end
  end.
Definition bs_mem x s : bool := existsb (eqb x) s.
Definition bs_of_list (l : list A) : list A := foldl (fun s x => bs_insert x s) [] l.
Definition bs_subset s t : bool := forallb (fun x => bs_mem x t) s.
Definition bs_disjoint s t : bool := forallb (fun x => negb (bs_mem x t)) s.

Lemma elem_of_bs_insert x y s : x ∈ bs_insert y s <-> x = y \/ x ∈ s.
Proof.
  induction s as [|z s IH]; simpl; [set_solver|].
  destruct (cmp y z) eqn:E; [apply cmp_eq in E as ->|..]; set_solver.
Qed.
Lemma bs_insert_sorted x s : sorted s -> sorted (bs_insert x s).
Proof.
  unfold sorted. induction 1 as [|y s Hs IH Hy]; simpl; [by repeat constructor|].
  destruct (cmp x y) eqn:E.
  - by constructor.
  - constructor; [by constructor|]. constructor; [done|].
    eapply Forall_impl; [exact Hy|]. intros z. by apply lt_trans.
  - constructor; [done|]. apply Forall_forall. intros z Hz.
    apply elem_of_bs_insert in Hz as [->|Hz]; [by apply cmp_gt|].
    rewrite Forall_forall in Hy. by apply Hy.
Qed.
Lemma bs_mem_iff x s : bs_mem x s = true <-> x ∈ s.
Proof.
  unfold bs_mem. rewrite existsb_true_iff. setoid_rewrite eqb_eq. naive_solver.
Qed.
Lemma bs_of_list_spec l s0 :
  sorted s0 -> sorted (foldl (fun s x => bs_insert x s) s0 l) /\
  forall x, x ∈ foldl (fun s x => bs_insert x s) s0 l <-> x ∈ s0 \/ x ∈ l.
Proof.
  revert s0. induction l as [|y l IH]; intros s0 Hs; simpl; [set_solver|].
  destruct (IH _ (bs_insert_sorted y _ Hs)) as [Hsort Hin]. split; [done|].
  intros x. rewrite Hin, elem_of_bs_insert. set_solver.
Qed.
Lemma bs_of_list_sorted l : sorted (bs_of_list l).
Proof. apply bs_of_list_spec. constructor. Qed.
Lemma elem_of_bs_of_list x l : x ∈ bs_of_list l <-> x ∈ l.
Proof. unfold bs_of_list. rewrite (proj2 (bs_of_list_spec l [] ltac:(constructor))). set_solver. Qed.
(** Collecting into a set forgets order and multiplicity. *)
Lemma bs_of_list_ext l l' : (forall x, x ∈ l <-> x ∈ l') -> bs_of_list l = bs_of_list l'.
Proof.
  intros Hl. apply sorted_ext; [apply bs_of_list_sorted..|].
  intros x. by rewrite !elem_of_bs_of_list.
Qed.
Lemma bs_of_list_id s : sorted s -> bs_of_list s = s.
Proof.
  intros. apply sorted_ext; [apply bs_of_list_sorted|done|].
  intros x. by rewrite elem_of_bs_of_list.
Qed.
Lemma bs_subset_iff s t : bs_subset s t = true <-> forall x, x ∈ s -> x ∈ t.
Proof. unfold bs_subset. rewrite forallb_true_iff. by setoid_rewrite bs_mem_iff. Qed.
Lemma length_bs_of_list_nodup l : length (bs_of_list l) = length l <-> NoDup l.
Proof.
  assert (forall s0 l, sorted s0 ->
    (length (foldl (fun s x => bs_insert x s) s0 l) <= length s0 + length l)%nat /\
    (length (foldl (fun s x => bs_insert x s) s0 l) = (length s0 + length l)%nat <->
     NoDup l /\ forall x, x ∈ l -> x ∉ s0)) as Hgen.
  { assert (forall x s, sorted s ->
      length (bs_insert x s) = if bs_mem x s then length s else S (length s)) as Hlen.
    { intros x s. induction 1 as [|y s Hs IH Hy]; simpl; [done|]. unfold eqb.
      destruct (cmp x y) eqn:E; simpl; [done| |].
      - destruct (bs_mem x s) eqn:Em; unfold bs_mem in Em; rewrite ?Em; [|done].
        apply bs_mem_iff in Em. rewrite Forall_forall in Hy.
        by destruct (lt_asym _ _ E (Hy _ Em)).
      - rewrite IH. unfold bs_mem. by destruct (existsb _ s). }
    intros s0 l0. revert s0. induction l0 as [|y l0 IH]; intros s0 Hs; simpl.
    { split; [lia|]. split; [|lia]. intros _. split; [constructor|set_solver]. }
    destruct (IH _ (bs_insert_sorted y _ Hs)) as [Hle Heq].
    rewrite Hlen in Hle, Heq by done.
    destruct (bs_mem y s0) eqn:Em.
    - apply bs_mem_iff in Em. split; [lia|]. split; [lia|]. set_solver.
    - assert (y ∉ s0) as Hy by (intros ?%bs_mem_iff; congruence).
      split; [lia|]. rewrite NoDup_cons.
      replace (S (length s0) + length l0)%nat with (length s0 + S (length l0))%nat in Heq by lia.
      rewrite Heq. setoid_rewrite elem_of_bs_insert. set_solver. }
  destruct (Hgen [] l ltac:(constructor)) as [_ Heq]. unfold bs_of_list. simpl in Heq.
  rewrite Heq. set_solver.
Qed.
End BTreeSet.

(** ** [BTreeMap] *)
Section BTreeMap.
Context {K V : Type} `{OrdLaws K}.
Implicit Types (m : list (K * V)) (k : K) (v : V).

Fixpoint bm_get k m : option V :=
  match m with
  | [] => None
  | (k', v) :: m => if eqb k k' then Some v else bm_get k m
  end.
Fixpoint bm_insert k v m : list (K * V) :=
  match m with
  | [] => [(k, v)]
  | (k', v') :: m' => match cmp k k' with
                      | Lt => (k, v) :: m
                      | Eq => (k, v) :: m'
                      | Gt => (k', v') :: bm_insert k v m'
                      end
  end.
Definition bm_remove k m : list (K * V) := List.filter (fun e => negb (eqb k e.1)) m.
Definition bm_contains k m : bool := match bm_get k m with Some _ => true | None => false end.
Definition bm_keys m : list K := map fst m.
Definition bm_values m : list V := map snd m.
Definition bm_wf m : Prop := sorted (bm_keys m).

Lemma bm_get_insert k k' v m :
  bm_get k (bm_insert k' v m) = if eqb k k' then Some v else bm_get k m.
Proof.
  induction m as [|[k1 v1] m IH]; simpl; [done|].
  destruct (cmp k' k1) eqn:E; simpl.
  - apply cmp_eq in E as ->. by destruct (eqb k k1).
  - done.
  - rewrite IH. destruct (eqb k k1) eqn:E1; [|done].
    destruct (eqb k k') eqn:E2; [|done].
    apply eqb_true in E1, E2. subst. by rewrite cmp_refl in E.
Qed.
Lemma elem_of_bm_keys_insert x k v m : x ∈ bm_keys (bm_insert k v m) <-> x = k \/ x ∈ bm_keys m.
Proof.
  induction m as [|[k1 v1] m IH]; simpl; [set_solver|].
  destruct (cmp k k1) eqn:E; [apply cmp_eq in E as ->|..]; set_solver.
Qed.
Lemma bm_keys_insert k v m : bm_keys (bm_insert k v m) = bs_insert k (bm_keys m).
Proof.
  induction m as [|[k1 v1] m IH]; simpl; [done|].
  destruct (cmp k k1) eqn:E; simpl; [by apply cmp_eq in E as ->|done|by rewrite IH].
Qed.
Lemma bm_insert_wf k v m : bm_wf m -> bm_wf (bm_insert k v m).
Proof. unfold bm_wf. rewrite bm_keys_insert. apply bs_insert_sorted. Qed.
Lemma bm_get_keys k m : is_Some (bm_get k m) <-> k ∈ bm_keys m.
Proof.
  induction m as [|[k1 v1] m IH]; simpl.
  - split; [by intros [? [=]]|intros Hin; inversion Hin].
  - destruct (eqb k k1) eqn:E.
    + apply eqb_true in E as ->. split; [intros _; left|eauto].
    + apply eqb_false in E. rewrite IH, elem_of_cons. naive_solver.
Qed.
Lemma bm_get_elem k v m : bm_get k m = Some v -> (k, v) ∈ m.
Proof.
  induction m as [|[k1 v1] m IH]; simpl; [done|].
  destruct (eqb k k1) eqn:E; [apply eqb_true in E as ->; intros [= ->]; left|right; auto].
Qed.
Lemma bm_elem_get k v m : bm_wf m -> (k, v) ∈ m -> bm_get k m = Some v.
Proof.
  unfold bm_wf, bm_keys. induction m as [|[k1 v1] m IH]; simpl; [set_solver|].
  intros Hwf Hin. apply sorted_nodup in Hwf as Hnd. inversion Hwf; subst.
  apply elem_of_cons in Hin as [[= -> ->]|Hin].
  - by rewrite eqb_refl.
  - destruct (eqb k k1) eqn:E; [|by apply IH].
    apply eqb_true in E as ->. apply NoDup_cons in Hnd as [Hnin _].
    destruct Hnin. apply list_elem_of_fmap. by exists (k1, v).
Qed.
Lemma bm_get_none k m : bm_get k m = None <-> k ∉ bm_keys m.
Proof. rewrite <-bm_get_keys. destruct (bm_get k m); [|split; [by intros _ [? [=]]|done]]. naive_solver. Qed.
End BTreeMap.

(** ** [sort_by] (stable) on a key *)
Section SortBy.
Context {A K : Type} `{OrdLaws K} (key : A -> K).

Fixpoint sort_insert (x : A) (l : list A) : list A :=
  match l with
  | [] => [x]
  | y :: l' => if leb (key x) (key y) then x :: l else y :: sort_insert x l'
  end.
Definition sort_by (l : list A) : list A := foldr sort_insert [] l.
Definition sorted_le (l : list A) : Prop :=
  StronglySorted (fun a b => leb (key a) (key b) = true) l.

Lemma sort_insert_perm x l : sort_insert x l ≡ₚ x :: l.
Proof.
  induction l as [|y l IH]; simpl; [done|].
  destruct (leb (key x) (key y)); [done|]. rewrite IH. constructor.
Qed.
Lemma sort_by_perm l : sort_by l ≡ₚ l.
Proof. induction l; simpl; [done|]. rewrite sort_insert_perm. by constructor. Qed.
Lemma sort_insert_sorted x l : sorted_le l -> sorted_le (sort_insert x l).
Proof.
  unfold sorted_le. induction 1 as [|y l Hl IH Hy]; simpl; [by repeat constructor|].
  destruct (leb (key x) (key y)) eqn:E.
  - constructor; [by constructor|]. constructor; [done|].
    eapply Forall_impl; [exact Hy|]. simpl. intros z. by apply leb_trans.
  - constructor; [done|]. rewrite sort_insert_perm.
    constructor; [|done]. apply leb_le. left. by apply leb_gt.
Qed.
Lemma sort_by_sorted l : sorted_le (sort_by l).
Proof. induction l; simpl; [constructor|by apply sort_insert_sorted]. Qed.

Lemma sort_by_id l : sorted_le l -> sort_by l = l.
Proof.
  induction 1 as [|x l Hl IH Hx]; [done|]. simpl. rewrite IH. destruct l as [|y l]; [done|]. simpl.
  apply Forall_cons in Hx as [-> _]. done.
Qed.

(** The duplicate test the code runs after sorting: [windows(2).any(equal keys)]. *)
Lemma sorted_le_strict l :
  sorted_le l -> adjacent (fun a b => eqb (key a) (key b)) l = false -> sorted (map key l).
Proof.
  unfold sorted. induction 1 as [|x l Hl IH Hx]; simpl; [constructor|].
  destruct l as [|y l]; [by repeat constructor|].
  rewrite orb_false_iff. intros [Hxy Hadj]. specialize (IH Hadj).
  constructor; [done|]. inversion_clear IH as [|? ? _ Hyl].
  inversion_clear Hx as [|? ? Hle _]. apply leb_le in Hle as [Hlt|Heq].
  - simpl. constructor; [done|]. eapply Forall_impl; [exact Hyl|]. intros z. by apply lt_trans.
  - apply eqb_false in Hxy. done.
Qed.
Lemma sorted_strict_adjacent l :
  sorted (map key l) -> adjacent (fun a b => eqb (key a) (key b)) l = false.
Proof.
  unfold sorted. induction l as [|x [|y l] IH]; simpl; [done|done|].
  intros Hs. inversion_clear Hs as [|? ? Hs' Hall]. inversion_clear Hall as [|? ? Hlt _].
  rewrite orb_false_iff. split; [|by apply IH].
  apply eqb_neq. intros Heq. rewrite Heq in Hlt. by apply lt_irrefl in Hlt.
Qed.
(** After sorting, the window test fails exactly when two elements share a key. *)
Lemma sort_by_adjacent l :
  adjacent (fun a b => eqb (key a) (key b)) (sort_by l) = false <-> NoDup (map key l).
Proof.
  rewrite <-(sort_by_perm l) at 2. split.
  - intros Hadj. apply sorted_nodup, sorted_le_strict; [apply sort_by_sorted|done].
  - intros Hnd. apply sorted_strict_adjacent. revert Hnd.
    generalize (sort_by_sorted l). generalize (sort_by l) as s. intros s Hs.
    induction Hs as [|x s Hs IH Hx]; simpl; [constructor|].
    rewrite NoDup_cons. intros [Hnin Hnd]. constructor; [by apply IH|].
    apply Forall_forall. intros k Hk. apply list_elem_of_fmap in Hk as (y & -> & Hy).
    rewrite Forall_forall in Hx. destruct (proj1 (leb_le _ _) (Hx _ Hy)) as [|Heq]; [done|].
    destruct Hnin. rewrite Heq. apply list_elem_of_fmap. by exists y.
Qed.
(** With distinct keys the sorted form is independent of the input order. *)
Lemma sort_by_canonical l l' :
  l ≡ₚ l' -> NoDup (map key l) -> sort_by l = sort_by l'.
Proof.
  intros Hp Hnd.
  assert (NoDup (map key l')) as Hnd' by (by rewrite <-Hp).
  pose proof (sort_by_sorted l) as H1. pose proof (sort_by_sorted l') as H2.
  assert (sort_by l ≡ₚ sort_by l') as Hs by (by rewrite !sort_by_perm).
  rewrite <-(sort_by_perm l) in Hnd. clear Hp Hnd'.
  revert H1 H2 Hs Hnd. generalize (sort_by l) as a, (sort_by l') as b.
  intros a b Ha. revert b. induction Ha as [|x a Ha IH Hx]; intros b Hb Hab Hnd.
  { by apply Permutation_nil in Hab as ->. }
  destruct b as [|y b]; [by symmetry in Hab; apply Permutation_nil in Hab|].
  inversion_clear Hb as [|? ? Hb' Hy]. simpl in Hnd. apply NoDup_cons in Hnd as [Hnin Hnd].
  rewrite Forall_forall in Hx, Hy.
  assert (x = y) as ->.
  { assert (x ∈ y :: b) as Hxb by (rewrite <-Hab; left).
    assert (y ∈ x :: a) as Hya by (rewrite Hab; left).
    apply elem_of_cons in Hxb as [|Hxb]; [done|].
    apply elem_of_cons in Hya as [|Hya]; [done|].
    destruct Hnin. apply list_elem_of_fmap. exists y. split; [|done].
    apply leb_antisym; [by apply Hx|by apply Hy]. }
  f_equal. apply IH; [done| |done]. by apply Permutation_cons_inv in Hab.
Qed.
End SortBy.
