(* ===== verification/Text.v ===== *)
(** * Rust strings

    A [str] is the list of its Unicode scalar values ([chars()]); its bytes are
    their UTF-8 encoding.  [len()] counts bytes.  The predicates are those of the
    Rust standard library. *)
From Stdlib Require Import String Ascii.
Export Stdlib.Strings.String.StringSyntax.
From S2P Require Import Prelude Ordered.

Notation rstr := (list Z) (only parsing).
Notation bytes := (list Z) (only parsing).

(** ** UTF-8 *)
Definition is_scalar (c : Z) : bool :=
  (0 <=? c) && (c <? 55296) || (57344 <=? c) && (c <=? 1114111).
Definition is_byte (b : Z) : bool := (0 <=? b) && (b <? 256).

Definition utf8_char (c : Z) : bytes :=
  if c <? 128 then [c]
  else if c <? 2048 then [192 + c / 64; 128 + c mod 64]
  else if c <? 65536 then [224 + c / 4096; 128 + (c / 64) mod 64; 128 + c mod 64]
  else [240 + c / 262144; 128 + (c / 4096) mod 64; 128 + (c / 64) mod 64; 128 + c mod 64].

Definition str_bytes (s : rstr) : bytes := s ≫= utf8_char.
(** [str::len]. *)
Definition str_len (s : rstr) : Z := zlen (str_bytes s).
Definition len_utf8 (c : Z) : Z := zlen (utf8_char c).
Definition valid_str (s : rstr) : bool := forallb is_scalar s.

Definition is_cont (b : Z) : bool := (128 <=? b) && (b <? 192).

(** [String::from_utf8]: overlong forms and surrogates are rejected. *)
Fixpoint from_utf8 (l : bytes) : option rstr :=
  match l with
  | [] => Some []
  | b0 :: l1 =>
    if (0 <=? b0) && (b0 <? 128) then (b0 ::.) <$> from_utf8 l1
    else match l1 with
    | [] => None
    | b1 :: l2 =>
      if (194 <=? b0) && (b0 <? 224) then
        if is_cont b1 then ((b0 - 192) * 64 + (b1 - 128) ::.) <$> from_utf8 l2 else None
      else match l2 with
      | [] => None
      | b2 :: l3 =>
        if (224 <=? b0) && (b0 <? 240) then
          let c := (b0 - 224) * 4096 + (b1 - 128) * 64 + (b2 - 128) in
          if is_cont b1 && is_cont b2 && (2048 <=? c) && is_scalar c
          then (c ::.) <$> from_utf8 l3 else None
        else match l3 with
        | [] => None
        | b3 :: l4 =>
          if (240 <=? b0) && (b0 <? 245) then
            let c := (b0 - 240) * 262144 + (b1 - 128) * 4096 + (b2 - 128) * 64 + (b3 - 128) in
            if is_cont b1 && is_cont b2 && is_cont b3 && (65536 <=? c) && is_scalar c
            then (c ::.) <$> from_utf8 l4 else None
          else None
        end
      end
    end
  end.

(** ** Character classes *)
Definition is_control (c : Z) : bool :=
  (0 <=? c) && (c <? 32) || (127 <=? c) && (c <=? 159).
Definition is_whitespace (c : Z) : bool :=
  (9 <=? c) && (c <=? 13) || (c =? 32) || (c =? 133) || (c =? 160) || (c =? 5760)
  || (8192 <=? c) && (c <=? 8202) || (c =? 8232) || (c =? 8233) || (c =? 8239)
  || (c =? 8287) || (c =? 12288).
Definition is_ascii_digit (b : Z) : bool := (48 <=? b) && (b <=? 57).
Definition is_ascii_lowercase (b : Z) : bool := (97 <=? b) && (b <=? 122).
Definition is_ascii_uppercase (b : Z) : bool := (65 <=? b) && (b <=? 90).
Definition is_ascii_alphanumeric (b : Z) : bool :=
  is_ascii_digit b || is_ascii_lowercase b || is_ascii_uppercase b.
Definition is_ascii_hexdigit (b : Z) : bool :=
  is_ascii_digit b || (97 <=? b) && (b <=? 102) || (65 <=? b) && (b <=? 70).
(** [char::to_digit(16)]. *)
Definition hex_digit (b : Z) : option Z :=
  if is_ascii_digit b then Some (b - 48)
  else if (97 <=? b) && (b <=? 102) then Some (b - 87)
  else if (65 <=? b) && (b <=? 70) then Some (b - 55)
  else None.

(** ** String operations *)
Fixpoint trim_start (s : rstr) : rstr :=
  match s with
  | c :: s' => if is_whitespace c then trim_start s' else s
  | [] => []
  end.
Definition trim (s : rstr) : rstr := rev (trim_start (rev (trim_start s))).
Definition is_empty {A} (l : list A) : bool := match l with [] => true | _ => false end.
Definition has_control (s : rstr) : bool := existsb is_control s.
(** [s.split(sep)]: always at least one piece. *)
Fixpoint split (sep : Z) (s : rstr) : list rstr :=
  match s with
  | [] => [[]]
  | c :: s => if c =? sep then [] :: split sep s
              else match split sep s with
                   | p :: ps => (c :: p) :: ps
                   | [] => [[c]]
                   end
  end.
Fixpoint strip_prefix (p s : rstr) : option rstr :=
  match p, s with
  | [], _ => Some s
  | a :: p, b :: s => if a =? b then strip_prefix p s else None
  | _ :: _, [] => None
  end.
Definition starts_with (p s : rstr) : bool :=
  match strip_prefix p s with Some _ => true | None => false end.
(** [s.contains(p)] for a literal substring. *)
Fixpoint str_contains (s p : rstr) : bool :=
  starts_with p s || match s with [] => false | _ :: s => str_contains s p end.

(** [str::parse::<u64>] and its kin: an optional [+], then digits within [max]. *)
Fixpoint digits_value (acc : Z) (s : rstr) : option Z :=
  match s with
  | [] => Some acc
  | c :: s => if is_ascii_digit c then digits_value (acc * 10 + (c - 48)) s else None
  end.
Definition parse_digits (s : rstr) : option Z := if is_empty s then None else digits_value 0 s.
Definition strip_plus (s : rstr) : rstr :=
  match s with c :: s' => if c =? 43 then s' else s | [] => s end.
Definition parse_unsigned (max : Z) (s : rstr) : option Z :=
  match parse_digits (strip_plus s) with
  | Some n => if n <=? max then Some n else None
  | None => None
  end.
Definition parse_i64 (s : rstr) : option Z :=
  match s with
  | c :: s' => if c =? 45
               then match parse_digits s' with Some n => checked_i64 (- n) | None => None end
               else parse_unsigned i64_max s
  | [] => None
  end.
(** [to_string] of an integer of at most 64 bits: at most 20 digits. *)
Fixpoint dec_digits (fuel : nat) (z : Z) (acc : rstr) : rstr :=
  match fuel with
  | O => acc
  | S fuel => let acc := 48 + z mod 10 :: acc in
              if z <? 10 then acc else dec_digits fuel (z / 10) acc
  end.
Definition int_to_string (z : Z) : rstr :=
  if z <? 0 then 45 :: dec_digits 20 (- z) [] else dec_digits 20 z [].

(** [str::split_once]. *)
Fixpoint split_once (sep : Z) (s : rstr) : option (rstr * rstr) :=
  match s with
  | [] => None
  | c :: s => if c =? sep then Some ([], s) else '(a, b) ← split_once sep s; Some (c :: a, b)
  end.
(** [format!({:x}, bytes)]: lower-case hexadecimal. *)
Definition hex_char (h : Z) : Z := if h <? 10 then 48 + h else 87 + h.
Definition hex (d : bytes) : rstr := d ≫= fun b => [hex_char (b / 16); hex_char (b mod 16)].

(** ASCII literals of the source. *)
Definition lit (s : string) : rstr := map (fun a => Z.of_N (N_of_ascii a)) (list_ascii_of_string s).
Arguments lit _%_string.

(** ** Facts *)
Lemma zlen_pos {A} (l : list A) : is_empty l = false -> 1 <= zlen l.
Proof. destruct l as [|a l]; [done|]. intros _. rewrite zlen_cons. pose proof (zlen_nonneg l). lia. Qed.
Lemma is_scalar_spec c :
  is_scalar c = true <-> 0 <= c < 55296 \/ 57344 <= c <= 1114111.
Proof. unfold is_scalar. rewrite orb_true_iff, !andb_true_iff, !Z.leb_le, !Z.ltb_lt. lia. Qed.
Lemma valid_str_cons c s : valid_str (c :: s) = true <-> is_scalar c = true /\ valid_str s = true.
Proof. unfold valid_str. simpl. apply andb_true_iff. Qed.
Lemma str_bytes_cons c s : str_bytes (c :: s) = utf8_char c ++ str_bytes s.
Proof. done. Qed.
Lemma str_bytes_app s t : str_bytes (s ++ t) = str_bytes s ++ str_bytes t.
Proof. apply bind_app. Qed.
Lemma str_len_app s t : str_len (s ++ t) = str_len s + str_len t.
Proof. unfold str_len. by rewrite str_bytes_app, zlen_app. Qed.
Lemma str_len_cons c s : str_len (c :: s) = len_utf8 c + str_len s.
Proof. unfold str_len, len_utf8. by rewrite str_bytes_cons, zlen_app. Qed.
Lemma str_len_nonneg s : 0 <= str_len s.
Proof. apply zlen_nonneg. Qed.
Lemma len_utf8_pos c : 1 <= len_utf8 c <= 4.
Proof.
  unfold len_utf8, utf8_char. destruct (c <? 128), (c <? 2048), (c <? 65536); unfold zlen; simpl; lia.
Qed.
Lemma str_len_zero s : str_len s = 0 <-> s = [].
Proof.
  split; [|by intros ->]. destruct s as [|c s]; [done|]. rewrite str_len_cons.
  pose proof (len_utf8_pos c). pose proof (str_len_nonneg s). lia.
Qed.
Lemma length_le_str_len s : zlen s <= str_len s.
Proof.
  induction s as [|c s IH]; [done|]. rewrite zlen_cons, str_len_cons.
  pose proof (len_utf8_pos c). lia.
Qed.

Ltac split_tests :=
  repeat match goal with
  | |- context [if (?a <? ?b) then _ else _] => destruct (Z.ltb_spec a b)
  | |- context [if (?a <=? ?b) then _ else _] => destruct (Z.leb_spec a b)
  end.
Ltac div_facts c :=
  pose proof (Z.div_mod c 64 ltac:(lia)); pose proof (Z.mod_pos_bound c 64 ltac:(lia));
  pose proof (Z.div_mod (c / 64) 64 ltac:(lia)); pose proof (Z.mod_pos_bound (c / 64) 64 ltac:(lia));
  pose proof (Z.div_mod (c / 4096) 64 ltac:(lia)); pose proof (Z.mod_pos_bound (c / 4096) 64 ltac:(lia));
  assert (c / 4096 = c / 64 / 64) by (rewrite Z.div_div by lia; done);
  assert (c / 262144 = c / 4096 / 64) by (rewrite Z.div_div by lia; done).

(** Decoding inverts encoding on every well-formed string. *)
Lemma from_utf8_char c l :
  is_scalar c = true -> from_utf8 (utf8_char c ++ l) = (c ::.) <$> from_utf8 l.
Proof.
  intros Hc. pose proof Hc as Hr. apply is_scalar_spec in Hr. unfold utf8_char.
  destruct (Z.ltb_spec c 128) as [H1|H1]; [|destruct (Z.ltb_spec c 2048) as [H2|H2];
    [|destruct (Z.ltb_spec c 65536) as [H3|H3]]]; div_facts c; cbn [app from_utf8].
  - rewrite (proj2 (Z.leb_le 0 c)), (proj2 (Z.ltb_lt c 128)) by lia. done.
  - rewrite (proj2 (Z.ltb_ge (192 + c / 64) 128)), andb_false_r by lia.
    rewrite (proj2 (Z.leb_le 194 (192 + c / 64))), (proj2 (Z.ltb_lt (192 + c / 64) 224)) by lia.
    unfold is_cont.
    rewrite (proj2 (Z.leb_le 128 (128 + c mod 64))), (proj2 (Z.ltb_lt (128 + c mod 64) 192)) by lia.
    cbn [andb]. by replace ((192 + c / 64 - 192) * 64 + (128 + c mod 64 - 128)) with c by lia.
  - rewrite (proj2 (Z.ltb_ge (224 + c / 4096) 128)), andb_false_r by lia.
    rewrite (proj2 (Z.ltb_ge (224 + c / 4096) 224)), andb_false_r by lia.
    rewrite (proj2 (Z.leb_le 224 (224 + c / 4096))), (proj2 (Z.ltb_lt (224 + c / 4096) 240)) by lia.
    cbn [andb]. cbv zeta.
    replace ((224 + c / 4096 - 224) * 4096 + (128 + (c / 64) mod 64 - 128) * 64
      + (128 + c mod 64 - 128)) with c by lia.
    unfold is_cont.
    rewrite (proj2 (Z.leb_le 128 (128 + c mod 64))), (proj2 (Z.ltb_lt (128 + c mod 64) 192)),
      (proj2 (Z.leb_le 128 (128 + (c / 64) mod 64))), (proj2 (Z.ltb_lt (128 + (c / 64) mod 64) 192)),
      (proj2 (Z.leb_le 2048 c)), Hc by lia. done.
  - rewrite (proj2 (Z.ltb_ge (240 + c / 262144) 128)), andb_false_r by lia.
    rewrite (proj2 (Z.ltb_ge (240 + c / 262144) 224)), andb_false_r by lia.
    rewrite (proj2 (Z.ltb_ge (240 + c / 262144) 240)), andb_false_r by lia.
    rewrite (proj2 (Z.leb_le 240 (240 + c / 262144))), (proj2 (Z.ltb_lt (240 + c / 262144) 245)) by lia.
    cbn [andb]. cbv zeta.
    replace ((240 + c / 262144 - 240) * 262144 + (128 + (c / 4096) mod 64 - 128) * 4096
      + (128 + (c / 64) mod 64 - 128) * 64 + (128 + c mod 64 - 128)) with c by lia.
    unfold is_cont.
    rewrite (proj2 (Z.leb_le 128 (128 + c mod 64))), (proj2 (Z.ltb_lt (128 + c mod 64) 192)),
      (proj2 (Z.leb_le 128 (128 + (c / 64) mod 64))), (proj2 (Z.ltb_lt (128 + (c / 64) mod 64) 192)),
      (proj2 (Z.leb_le 128 (128 + (c / 4096) mod 64))), (proj2 (Z.ltb_lt (128 + (c / 4096) mod 64) 192)),
      (proj2 (Z.leb_le 65536 c)), Hc by lia. done.
Qed.
Lemma from_utf8_str_bytes s : valid_str s = true -> from_utf8 (str_bytes s) = Some s.
Proof.
  induction s as [|c s IH]; [done|]. rewrite valid_str_cons. intros [Hc Hs].
  rewrite str_bytes_cons, from_utf8_char, IH by done. done.
Qed.
Lemma str_bytes_inj s t :
  valid_str s = true -> valid_str t = true -> str_bytes s = str_bytes t -> s = t.
Proof.
  intros Hs Ht H. apply (inj Some). rewrite <-!from_utf8_str_bytes by done. by rewrite H.
Qed.

(** Byte order is scalar order, which is why [Ord for str] may compare scalars. *)
Lemma cmp_cons {A} `{Ord A} (a b : A) l l' : cmp (a :: l) (b :: l') = then_cmp (cmp a b) (cmp l l').
Proof. done. Qed.
Lemma Z_cmp_add k a b : cmp (k + a) (k + b) = cmp a b.
Proof. unfold cmp, Z_ord. destruct (Z.compare_spec a b); [apply Z.compare_eq_iff|apply Z.compare_lt_iff|apply Z.compare_gt_iff]; lia. Qed.
Lemma then_cmp_assoc a b c : then_cmp (then_cmp a b) c = then_cmp a (then_cmp b c).
Proof. by destruct a. Qed.
Lemma cmp_div_mod c d : cmp c d = then_cmp (cmp (c / 64) (d / 64)) (cmp (c mod 64) (d mod 64)).
Proof.
  div_facts c. div_facts d. unfold cmp, Z_ord.
  destruct (Z.compare_spec (c / 64) (d / 64)); simpl.
  - destruct (Z.compare_spec (c mod 64) (d mod 64));
      [apply Z.compare_eq_iff|apply Z.compare_lt_iff|apply Z.compare_gt_iff]; lia.
  - apply Z.compare_lt_iff. lia.
  - apply Z.compare_gt_iff. lia.
Qed.
Lemma utf8_char_cmp c d x y :
  is_scalar c = true -> is_scalar d = true ->
  cmp (utf8_char c ++ x) (utf8_char d ++ y) = then_cmp (cmp c d) (cmp x y).
Proof.
  rewrite !is_scalar_spec. intros Hc Hd.
  assert (forall a, 0 <= a -> 0 <= a / 64 /\ 0 <= a / 4096 /\ 0 <= a / 262144) as Hpos
    by (intros; repeat split; apply Z.div_pos; lia).
  pose proof (Hpos c ltac:(lia)). pose proof (Hpos d ltac:(lia)). clear Hpos.
  assert (forall (a b : Z) l l', a < b -> cmp (a :: l) (b :: l') = Lt) as HLt
    by (intros; rewrite cmp_cons; unfold cmp at 1, Z_ord; by rewrite (proj2 (Z.compare_lt_iff _ _))).
  assert (forall (a b : Z) l l', b < a -> cmp (a :: l) (b :: l') = Gt) as HGt
    by (intros; rewrite cmp_cons; unfold cmp at 1, Z_ord; by rewrite (proj2 (Z.compare_gt_iff _ _))).
  assert (c < d -> cmp c d = Lt) as HcLt by (intros; by apply Z.compare_lt_iff).
  assert (d < c -> cmp c d = Gt) as HcGt by (intros; by apply Z.compare_gt_iff).
  assert (c / 4096 = c / 64 / 64 /\ c / 262144 = c / 4096 / 64 /\
          d / 4096 = d / 64 / 64 /\ d / 262144 = d / 4096 / 64) as (Hc1 & Hc2 & Hd1 & Hd2)
    by (rewrite !Z.div_div by lia; done).
  unfold utf8_char.
  destruct (Z.ltb_spec c 128), (Z.ltb_spec c 2048), (Z.ltb_spec c 65536);
    try lia; destruct (Z.ltb_spec d 128), (Z.ltb_spec d 2048), (Z.ltb_spec d 65536); try lia;
    cbn [app]; try (rewrite HLt, HcLt by (div_facts c; div_facts d; lia); done);
    try (rewrite HGt, HcGt by (div_facts c; div_facts d; lia); done).
  - done.
  - rewrite !cmp_cons, !Z_cmp_add, (cmp_div_mod c d). by rewrite then_cmp_assoc.
  - rewrite !cmp_cons, !Z_cmp_add, (cmp_div_mod c d), (cmp_div_mod (c / 64)), <-Hc1, <-Hd1.
    by rewrite !then_cmp_assoc.
  - rewrite !cmp_cons, !Z_cmp_add, (cmp_div_mod c d), (cmp_div_mod (c / 64)), <-Hc1, <-Hd1,
      (cmp_div_mod (c / 4096)), <-Hc2, <-Hd2. by rewrite !then_cmp_assoc.
Qed.
Lemma str_bytes_cmp s t :
  valid_str s = true -> valid_str t = true -> cmp (str_bytes s) (str_bytes t) = cmp s t.
Proof.
  revert t. induction s as [|c s IH]; intros [|d t]; [done|..].
  - intros _ _. rewrite str_bytes_cons. destruct (utf8_char d) eqn:E; [|done].
    pose proof (len_utf8_pos d) as Hl. unfold len_utf8 in Hl. rewrite E in Hl. by unfold zlen in Hl; simpl in Hl; lia.
  - intros _ _. rewrite str_bytes_cons. destruct (utf8_char c) eqn:E; [|done].
    pose proof (len_utf8_pos c) as Hl. unfold len_utf8 in Hl. rewrite E in Hl. by unfold zlen in Hl; simpl in Hl; lia.
  - rewrite !valid_str_cons. intros [Hc Hs] [Hd Ht].
    rewrite !str_bytes_cons, utf8_char_cmp, IH by done. done.
Qed.

(** A test that only ASCII bytes pass may be run on scalars instead of bytes. *)
Lemma ascii_bytes_chars (p : Z -> bool) s :
  (forall b, p b = true -> 0 <= b < 128) -> valid_str s = true ->
  forallb p (str_bytes s) = forallb p s.
Proof.
  intros Hp. induction s as [|c s IH]; [done|]. rewrite valid_str_cons. intros [Hc Hs].
  rewrite str_bytes_cons, forallb_app, (IH Hs). simpl. f_equal.
  apply is_scalar_spec in Hc. unfold utf8_char.
  destruct (Z.ltb_spec c 128) as [|Hge]; [apply andb_true_r|].
  assert (p c = false) as -> by (destruct (p c) eqn:E; [specialize (Hp c E); lia|done]).
  assert (forall b l, 128 <= b -> forallb p (b :: l) = false) as Hbig.
  { intros b l Hb. simpl. destruct (p b) eqn:E; [specialize (Hp b E); lia|done]. }
  assert (0 <= c / 64 /\ 0 <= c / 4096 /\ 0 <= c / 262144) by (repeat split; apply Z.div_pos; lia).
  destruct (c <? 2048), (c <? 65536); apply Hbig; lia.
Qed.

(** Printing a 64-bit integer and reading it back. *)
Lemma dec_digits_value fuel z acc n :
  0 <= z < 10 ^ Z.of_nat fuel -> (0 < fuel)%nat ->
  digits_value n (dec_digits fuel z acc) = digits_value (n * 10 ^ zlen (dec_digits fuel z []) + z) acc /\
  1 <= zlen (dec_digits fuel z []).
Proof.
  revert z acc n. induction fuel as [|fuel IH]; intros z acc n Hz Hf; [lia|].
  rewrite Nat2Z.inj_succ, Z.pow_succ_r in Hz by lia.
  pose proof (Z.mod_pos_bound z 10 ltac:(lia)) as Hm. pose proof (Z.div_mod z 10 ltac:(lia)) as Hd.
  assert (forall n acc, digits_value n (48 + z mod 10 :: acc) = digits_value (n * 10 + z mod 10) acc) as Hdig.
  { intros m a. cbn [digits_value].
    assert (is_ascii_digit (48 + z mod 10) = true) as ->.
    { unfold is_ascii_digit. apply andb_true_iff. rewrite !Z.leb_le. lia. }
    f_equal. lia. }
  cbn [dec_digits]. cbv zeta. destruct (Z.ltb_spec z 10) as [Hlt|Hge].
  - rewrite Hdig, Z.mod_small by lia. unfold zlen. simpl. split; [f_equal; lia|lia].
  - assert (0 < fuel)%nat as Hf' by
      (destruct fuel; [change (10 ^ Z.of_nat 0) with 1 in Hz|]; lia).
    assert (0 <= z / 10 < 10 ^ Z.of_nat fuel) as Hz' by
      (split; [apply Z.div_pos; lia|apply Z.div_lt_upper_bound; lia]).
    assert (dec_digits fuel (z / 10) [48 + z mod 10] = dec_digits fuel (z / 10) [] ++ [48 + z mod 10]) as Happ.
    { clear. generalize (z / 10) as y, (48 + z mod 10) as d. intros y d.
      assert (forall f y a b, dec_digits f y (a ++ b) = dec_digits f y a ++ b) as H.
      { induction f as [|f IH]; intros x a b; [done|]. cbn [dec_digits]. cbv zeta.
        destruct (x <? 10); [done|]. by rewrite <-IH. }
      apply (H fuel y [] [d]). }
    destruct (IH (z / 10) (48 + z mod 10 :: acc) n Hz' Hf') as [H1 H2].
    assert (zlen [48 + z mod 10] = 1) as Hone by done.
    rewrite H1, Hdig, Happ, zlen_app, Hone. split; [|lia].
    f_equal. rewrite Z.pow_add_r by lia.
    generalize (10 ^ zlen (dec_digits fuel (z / 10) [])). intros. rewrite Z.pow_1_r. lia.
Qed.
Lemma parse_int_to_string max z : 0 <= z <= max -> max <= u64_max ->
  parse_unsigned max (int_to_string z) = Some z.
Proof.
  intros Hz Hmax. unfold int_to_string, parse_unsigned. rewrite (proj2 (Z.ltb_ge z 0)) by lia.
  assert (0 <= z < 10 ^ Z.of_nat 20) as Hb by (unfold u64_max in Hmax; lia).
  destruct (dec_digits_value 20 z [] 0 Hb ltac:(lia)) as [Hv Hl].
  assert (strip_plus (dec_digits 20 z []) = dec_digits 20 z []) as ->.
  { destruct (dec_digits 20 z []) as [|c s] eqn:E; [done|]. simpl.
    destruct (Z.eqb_spec c 43) as [->|]; [done|done]. }
  unfold parse_digits. destruct (is_empty (dec_digits 20 z [])) eqn:E.
  - destruct (dec_digits 20 z []); [|done]. unfold zlen in Hl. simpl in Hl. lia.
  - rewrite Hv. cbn [digits_value]. rewrite Z.mul_0_l. simpl. by rewrite (proj2 (Z.leb_le _ _)) by lia.
Qed.

Lemma hex_cons b d : hex (b :: d) = hex_char (b / 16) :: hex_char (b mod 16) :: hex d.
Proof. done. Qed.
Lemma hex_shape d : forallb is_byte d = true ->
  length (hex d) = (2 * length d)%nat /\ forallb is_ascii_hexdigit (hex d) = true.
Proof.
  induction d as [|b d IH]; [done|]. cbn [forallb]. rewrite andb_true_iff. intros [Hb Hd].
  destruct (IH Hd) as [Hl Hh]. rewrite hex_cons. cbn [length forallb]. rewrite Hl, Hh. split; [lia|].
  unfold is_byte in Hb. apply andb_true_iff in Hb. rewrite Z.leb_le, Z.ltb_lt in Hb.
  assert (forall h, 0 <= h < 16 -> is_ascii_hexdigit (hex_char h) = true) as Hdig.
  { intros h Hh'. unfold hex_char, is_ascii_hexdigit, is_ascii_digit.
    destruct (Z.ltb_spec h 10); rewrite !orb_true_iff, !andb_true_iff, !Z.leb_le; lia. }
  rewrite !Hdig; [done| |].
  - apply Z.mod_pos_bound. lia.
  - split; [apply Z.div_pos; lia|apply Z.div_lt_upper_bound; lia].
Qed.
(** Text of ASCII scalars is its own bytes. *)
Lemma str_bytes_ascii s : forallb (fun c => (0 <=? c) && (c <? 128)) s = true -> str_bytes s = s.
Proof.
  induction s as [|c s IH]; [done|]. cbn [forallb]. rewrite andb_true_iff. intros [Hc Hs].
  rewrite str_bytes_cons, (IH Hs). unfold utf8_char. bool_hyps. rewrite (proj2 (Z.ltb_lt c 128)) by lia. done.
Qed.
