(* ===== verification/External.v ===== *)
(** * Code outside the repository

    The types and functions of third-party crates are parameters: one class per
    crate, with the documented behaviour the program relies on as its laws.  Each
    class has a concrete instance (module [Reference]) on which the development's
    examples run; no theorem depends on an instance. *)
From S2P Require Import Prelude Ordered Text.

(** [rss_request_context]: tenants are compared by value and ordered by octets. *)
Class RequestContext : Type := {
  TenantId : Type;
  tenant_eq_dec :: EqDecision TenantId;
  tenant_octets : TenantId -> bytes;
  tenant_octets_inj :: Inj (=) (=) tenant_octets;
  tenant_octets_length : forall t, length (tenant_octets t) = 16%nat
}.

(** [rss_contract::Timepoint]: a totally ordered UTC instant at one-second
    resolution, obtained from its Unix seconds. *)
Class Contract : Type := {
  Timepoint : Type;
  timepoint_ord :: Ord Timepoint;
  timepoint_ord_laws :: OrdLaws Timepoint;
  unix_seconds : Timepoint -> Z;
  unix_seconds_i64 : forall t, in_i64 (unix_seconds t);
  unix_seconds_inj :: Inj (=) (=) unix_seconds
}.

(** [uuid::Uuid]: ordered identities with a distinguished nil. *)
Class UuidCrate : Type := {
  Uuid : Type;
  uuid_ord :: Ord Uuid;
  uuid_ord_laws :: OrdLaws Uuid;
  is_nil : Uuid -> bool
}.

(** [ordered_float::NotNan<f64>], up to numeric equality. *)
Class OrderedFloat : Type := {
  NotNan : Type;
  notnan_ord :: Ord NotNan;
  notnan_ord_laws :: OrdLaws NotNan;
  is_finite : NotNan -> bool
}.

(** [sha2::Sha256::digest]: 32 bytes.  Nothing else is assumed of it; theorems
    about identity are stated on the bytes that are hashed. *)
Class Sha2 : Type := {
  sha256 : bytes -> bytes;
  sha256_length : forall l, length (sha256 l) = 32%nat;
  sha256_bytes : forall l, forallb is_byte (sha256 l) = true
}.

(** [jiff]: the IANA time zone database and the civil calendar.  A local wall time is in a
    gap, or it is the earlier of its instants, which may be outside the timestamp range. *)
Inductive Ambiguous : Type := Gap | Earlier (second : option Z).
Class Jiff : Type := {
  TimeZone : Type;
  Date : Type;
  tz_get : list Z -> option TimeZone;
  from_second : Z -> bool;
  tz_date : TimeZone -> Z -> Date;
  to_ambiguous : TimeZone -> Date -> Z -> Z -> Ambiguous;
  add_day : Date -> option Date;
  sub_day : Date -> option Date;
  monday_one : Date -> Z;
  monday_one_range : forall d, 1 <= monday_one d <= 7;
  from_second_range : forall s, from_second s = true -> -377705023201 <= s <= 253402207200
}.

(** [Timepoint::try_from(i64)]: whether Unix seconds are in the canonical UTC range. *)
Class TimepointRange : Type := { timepoint_try_from : Z -> bool }.

(** The texts of identities ([Uuid::parse_str], [to_string]) and their 128-bit value. *)
Class UuidText `{UC : UuidCrate} : Type := {
  uuid_parse_str : rstr -> option Uuid; uuid_to_string : Uuid -> rstr
}.
Class UuidBits `{UC : UuidCrate} : Type := { uuid_as_u128 : Uuid -> Z }.
Arguments UuidText {UC}.
Arguments UuidBits {UC}.

(** [str::to_uppercase] follows the Unicode character database. *)
Class Unicode : Type := { to_uppercase : rstr -> rstr }.

(** [base64]: the URL-safe alphabet without padding, and the decoder of the standard alphabet. *)
Class Base64 : Type := {
  b64_encode : bytes -> rstr;
  b64_decode : rstr -> option bytes;
  b64_decode_nil : b64_decode [] = Some [];
  b64_decode_encode : forall l, forallb is_byte l = true -> b64_decode (b64_encode l) = Some l
}.
Class Base64Standard : Type := { standard_decode : rstr -> option bytes }.

(** [ring::hmac] with SHA-256: verification accepts exactly the signature. *)
Class Hmac : Type := {
  HmacKey : Type;
  hmac_key : bytes -> HmacKey;
  hmac_sign : HmacKey -> bytes -> bytes;
  hmac_verify : HmacKey -> bytes -> bytes -> bool;
  hmac_sign_length : forall k l, length (hmac_sign k l) = 32%nat;
  hmac_sign_bytes : forall k l, forallb is_byte (hmac_sign k l) = true;
  hmac_verify_iff : forall k l tag, hmac_verify k l tag = true <-> tag = hmac_sign k l
}.

(** [url]: the parsed parts of a URL that the program reads. *)
Class UrlCrate : Type := {
  Url : Type; url_parse : rstr -> option Url; url_scheme : Url -> rstr; url_host_str : Url -> option rstr;
  url_username : Url -> rstr; url_password : Url -> option rstr; url_query : Url -> option rstr;
  url_fragment : Url -> option rstr
}.
(** [Url::origin().ascii_serialization()]. *)
Class UrlOrigin `{UR : UrlCrate} : Type := { url_origin_ascii : Url -> rstr }.
Arguments UrlOrigin {UR}.

#[export] Instance timepoint_eq_dec `{Contract} : EqDecision Timepoint := ord_eq_dec.
#[export] Instance uuid_eq_dec `{UuidCrate} : EqDecision Uuid := ord_eq_dec.
#[export] Instance notnan_eq_dec `{OrderedFloat} : EqDecision NotNan := ord_eq_dec.

(** Concrete instances for closed examples. *)
Module Reference.
Definition octets (t : Z) : bytes := be_bytes 16 t.
(** Tenants as 128-bit numbers. *)
Record tenant := Tenant { tenant_bits : Z; tenant_ok : (0 <=? tenant_bits) && (tenant_bits <? 2 ^ 128) = true }.
Lemma tenant_ext a b : tenant_bits a = tenant_bits b -> a = b.
Proof.
  destruct a as [a Ha], b as [b Hb]; simpl. intros ->. f_equal. apply eq_pi. exact _.
Qed.
Instance tenant_dec : EqDecision tenant.
Proof.
  intros a b. destruct (decide (tenant_bits a = tenant_bits b)) as [H|H].
  - left. by apply tenant_ext.
  - right. by intros ->.
Defined.
#[export] Program Instance request_context : RequestContext := {|
  TenantId := tenant; tenant_octets t := octets (tenant_bits t)
|}.
Next Obligation.
  intros [a Ha] [b Hb] H. apply tenant_ext. simpl in *. apply andb_true_iff in Ha, Hb.
  rewrite Z.leb_le, Z.ltb_lt in Ha, Hb.
  apply (be_bytes_inj 16); [change (256 ^ Z.of_nat 16) with (2 ^ 128); lia..|done].
Qed.
Next Obligation. intros t. apply length_be_bytes. Qed.
Definition tenant_a : tenant := Tenant 1 eq_refl.
Definition tenant_b : tenant := Tenant 2 eq_refl.

(** Timepoints as 64-bit Unix seconds. *)
Record time := Time { seconds : Z; time_ok : is_i64 seconds = true }.
Instance time_ord : Ord time := cmp_on seconds.
Lemma time_ext a b : seconds a = seconds b -> a = b.
Proof. destruct a as [a Ha], b as [b Hb]; simpl. intros ->. f_equal. apply eq_pi. exact _. Qed.
Instance time_ord_laws : OrdLaws time.
Proof. apply cmp_on_laws. intros a b. apply time_ext. Qed.
#[export] Program Instance contract : Contract := {|
  Timepoint := time; unix_seconds := seconds
|}.
Next Obligation. intros [t Ht]. by apply is_i64_spec. Qed.
Next Obligation. intros a b. apply time_ext. Qed.

#[export] Instance uuid_crate : UuidCrate := {| Uuid := Z; is_nil z := z =? 0 |}.
#[export] Instance ordered_float : OrderedFloat := {| NotNan := Z; is_finite _ := true |}.

(** The UTC calendar, with days counted from 1970-01-01, a Thursday. *)
#[export] Program Instance jiff : Jiff := {|
  TimeZone := unit; Date := Z;
  tz_get name := if bool_decide (name = lit "UTC") then Some () else None;
  from_second s := (-377705023201 <=? s) && (s <=? 253402207200);
  tz_date _ s := s / 86400;
  to_ambiguous _ d h m := Earlier (Some (d * 86400 + h * 3600 + m * 60));
  add_day d := Some (d + 1); sub_day d := Some (d - 1);
  monday_one d := (d + 3) mod 7 + 1
|}.
Next Obligation. intros d. simpl. pose proof (Z.mod_pos_bound (d + 3) 7). lia. Qed.
Next Obligation. intros s H. simpl in H. apply andb_true_iff in H. rewrite !Z.leb_le in H. done. Qed.

(** Any second is in range; decimal identities; ASCII upper case. *)
#[export] Instance timepoint_range : TimepointRange := {| timepoint_try_from := is_i64 |}.
#[export] Instance uuid_text : UuidText (UC:=uuid_crate) := {|
  uuid_parse_str s := parse_unsigned u64_max s; uuid_to_string := int_to_string
|}.
#[export] Instance uuid_bits : UuidBits (UC:=uuid_crate) := {|
  uuid_as_u128 := fun z : Uuid (UuidCrate:=uuid_crate) => (z : Z)
|}.
#[export] Instance unicode : Unicode := {|
  to_uppercase := map (fun c => if is_ascii_lowercase c then c - 32 else c)
|}.

(** URLs with a scheme and a host, nothing else. *)
#[export] Instance url_crate : UrlCrate := {|
  Url := rstr; url_parse s := strip_prefix (lit "https://") s; url_scheme _ := lit "https";
  url_host_str := Some; url_username _ := []; url_password _ := None; url_query _ := None; url_fragment _ := None
|}.

(** A checksum standing in for the hash on closed examples. *)
Definition checksum (l : bytes) : Z :=
  foldl (fun acc b => (acc * 257 + b + 1) mod 2 ^ 255) 7 l.
Lemma be_bytes_are_bytes n z : forallb is_byte (be_bytes n z) = true.
Proof.
  induction n as [|n IH]; [done|]. change (forallb is_byte ((z / 256 ^ Z.of_nat n) mod 256 :: be_bytes n z) = true). cbn [forallb]. rewrite IH, andb_true_r.
  unfold is_byte. pose proof (Z.mod_pos_bound (z / 256 ^ Z.of_nat n) 256 ltac:(lia)).
  apply andb_true_iff. rewrite Z.leb_le, Z.ltb_lt. lia.
Qed.
#[export] Program Instance sha2 : Sha2 := {| sha256 l := be_bytes 32 (checksum l) |}.
Next Obligation. intros l. apply length_be_bytes. Qed.
Next Obligation. intros l. apply be_bytes_are_bytes. Qed.
#[export] Instance hmac : Hmac.
Proof.
  refine {| HmacKey := bytes; hmac_key k := k; hmac_sign k l := be_bytes 32 (checksum (k ++ l));
    hmac_verify k l tag := bool_decide (tag = be_bytes 32 (checksum (k ++ l))) |}.
  - intros. apply length_be_bytes.
  - intros. apply be_bytes_are_bytes.
  - intros. apply bool_decide_eq_true.
Defined.
End Reference.
