(* ===== verification/Kleene.v ===== *)
(** * Three-valued logic

    The specification language of every component that decides under incomplete
    evidence (group rules, compliance, scope membership): strong Kleene logic and
    its information order.  A component's decision type implements the [ThreeValued]
    interface, and its combinators are proved equal to the connectives below. *)
From S2P Require Import Prelude.

Inductive k3 : Type := KTrue | KUnknown | KFalse.
#[export] Instance k3_eq_dec : EqDecision k3.
Proof. solve_decision. Defined.

Definition k_and (a b : k3) : k3 :=
  match a, b with
  | KFalse, _ | _, KFalse => KFalse
  | KUnknown, _ | _, KUnknown => KUnknown
  | _, _ => KTrue
  end.
Definition k_or (a b : k3) : k3 :=
  match a, b with
  | KTrue, _ | _, KTrue => KTrue
  | KUnknown, _ | _, KUnknown => KUnknown
  | _, _ => KFalse
  end.
Definition k_not (a : k3) : k3 :=
  match a with KTrue => KFalse | KFalse => KTrue | KUnknown => KUnknown end.
Definition k_of_bool (b : bool) : k3 := if b then KTrue else KFalse.
Definition k_all (l : list k3) : k3 := foldr k_and KTrue l.
Definition k_any (l : list k3) : k3 := foldr k_or KFalse l.

(** More evidence: an unknown may become anything, a known value stays. *)
Definition k_le (a b : k3) : Prop := a = KUnknown \/ a = b.
Infix "⊑k" := k_le (at level 70).

Ltac k3_cases := repeat intros []; cbv; try done; auto.

Lemma k_and_comm a b : k_and a b = k_and b a. Proof. by destruct a, b. Qed.
Lemma k_or_comm a b : k_or a b = k_or b a. Proof. by destruct a, b. Qed.
Lemma k_and_assoc a b c : k_and a (k_and b c) = k_and (k_and a b) c. Proof. by destruct a, b, c. Qed.
Lemma k_or_assoc a b c : k_or a (k_or b c) = k_or (k_or a b) c. Proof. by destruct a, b, c. Qed.
Lemma k_and_true_l a : k_and KTrue a = a. Proof. by destruct a. Qed.
Lemma k_or_false_l a : k_or KFalse a = a. Proof. by destruct a. Qed.
Lemma k_de_morgan a b : k_not (k_and a b) = k_or (k_not a) (k_not b). Proof. by destruct a, b. Qed.
Lemma k_not_all l : k_not (k_all l) = k_any (map k_not l).
Proof. induction l as [|a l IH]; simpl; [done|]. by rewrite k_de_morgan, IH. Qed.

Lemma k_all_true l : k_all l = KTrue <-> forall a, a ∈ l -> a = KTrue.
Proof.
  induction l as [|a l IH]; simpl; [split; [set_solver|done]|].
  split.
  - intros H x Hx. assert (a = KTrue /\ k_all l = KTrue) as [-> Hl] by by destruct a, (k_all l).
    apply elem_of_cons in Hx as [->|Hx]; [done|]. by apply IH.
  - intros H. rewrite (H a) by left. rewrite (proj2 IH); [done|]. intros; apply H; by right.
Qed.
Lemma k_all_false l : k_all l = KFalse <-> KFalse ∈ l.
Proof.
  induction l as [|a l IH]; simpl; [split; [done|intros H; inversion H]|].
  rewrite elem_of_cons, <-IH. destruct a, (k_all l); simpl; naive_solver.
Qed.
Lemma k_any_true l : k_any l = KTrue <-> KTrue ∈ l.
Proof.
  induction l as [|a l IH]; simpl; [split; [done|intros H; inversion H]|].
  rewrite elem_of_cons, <-IH. destruct a, (k_any l); simpl; naive_solver.
Qed.
Lemma k_any_false l : k_any l = KFalse <-> forall a, a ∈ l -> a = KFalse.
Proof.
  induction l as [|a l IH]; simpl; [split; [set_solver|done]|].
  split.
  - intros H x Hx. assert (a = KFalse /\ k_any l = KFalse) as [-> Hl] by by destruct a, (k_any l).
    apply elem_of_cons in Hx as [->|Hx]; [done|]. by apply IH.
  - intros H. rewrite (H a) by left. rewrite (proj2 IH); [done|]. intros; apply H; by right.
Qed.

#[export] Instance k_le_preorder : PreOrder k_le.
Proof. split; [intros []; by right|intros [] [] []; unfold k_le; naive_solver]. Qed.
#[export] Instance k_and_mono : Proper (k_le ==> k_le ==> k_le) k_and.
Proof. intros [] [] H1 [] [] H2; unfold k_le in *; naive_solver. Qed.
#[export] Instance k_or_mono : Proper (k_le ==> k_le ==> k_le) k_or.
Proof. intros [] [] H1 [] [] H2; unfold k_le in *; naive_solver. Qed.
#[export] Instance k_not_mono : Proper (k_le ==> k_le) k_not.
Proof. intros [] [] H; unfold k_le in *; naive_solver. Qed.
Lemma k_all_mono l l' : Forall2 k_le l l' -> k_all l ⊑k k_all l'.
Proof. induction 1; simpl; [reflexivity|]. by apply k_and_mono. Qed.
Lemma k_any_mono l l' : Forall2 k_le l l' -> k_any l ⊑k k_any l'.
Proof. induction 1; simpl; [reflexivity|]. by apply k_or_mono. Qed.

(** ** The interface a decision type implements *)
Class ThreeValued (D : Type) : Type := {
  to_k3 : D -> k3;
  of_k3 : k3 -> D;
  to_of_k3 : forall a, to_k3 (of_k3 a) = a;
  of_to_k3 : forall d, of_k3 (to_k3 d) = d
}.
#[export] Instance to_k3_inj `{ThreeValued D} : Inj (=) (=) to_k3.
Proof. intros a b Hab. by rewrite <-(of_to_k3 a), <-(of_to_k3 b), Hab. Qed.
#[global] Arguments to_k3 : simpl never.
#[global] Arguments of_k3 : simpl never.
