(* ===== verification/Json.v ===== *)
(** * JSON values and bounded presentation metadata ([crates/policy/src/presentation.rs])

    [serde_json::Value] with its numbers and its serializer as parameters, and the check
    that bounds descriptive metadata.  [crates/compliance/src/presentation.rs] has the
    same text. *)
From S2P Require Import Prelude Ordered Text.

Inductive Json (Number : Type) : Type :=
| JNull
| JBool (b : bool)
| JNumber (n : Number)
| JString (s : rstr)
| JArray (values : list (Json Number))
| JObject (members : list (rstr * Json Number)).
Arguments JNull {Number}.
Arguments JBool {Number} _.
Arguments JNumber {Number} _.
Arguments JString {Number} _.
Arguments JArray {Number} _.
Arguments JObject {Number} _.

(** [serde_json]: its number type and [to_vec] on an object. *)
Class SerdeJson : Type := {
  Number : Type;
  number_eq_dec :: EqDecision Number;
  number_as_i64 : Number -> option Z;
  to_vec : list (rstr * Json Number) -> option bytes
}.

Section Induction.
Context {N : Type} (P : Json N -> Prop).
Hypothesis Hleaf : forall v, (forall l, v <> JArray l) -> (forall m, v <> JObject m) -> P v.
Hypothesis Harray : forall l, (forall v, v ∈ l -> P v) -> P (JArray l).
Hypothesis Hobject : forall m, (forall k v, (k, v) ∈ m -> P v) -> P (JObject m).
Fixpoint Json_tree_ind (v : Json N) : P v.
Proof.
  destruct v as [|b|n|s|l|m]; [by apply Hleaf..| |].
  - apply Harray. apply Forall_forall. revert l. fix IHl 1.
    intros [|v l]; constructor; [apply Json_tree_ind|apply IHl].
  - apply Hobject. assert (Forall (fun e => P e.2) m) as Hm.
    { revert m. fix IHm 1. intros [|[k v] m]; constructor; [apply Json_tree_ind|apply IHm]. }
    rewrite Forall_forall in Hm. intros k v Hin. apply (Hm _ Hin).
Qed.
End Induction.

Section Presentation.
Context `{SJ : SerdeJson}.
Implicit Types v : Json Number.

Fixpoint json_eqb v w : bool :=
  match v, w with
  | JNull, JNull => true
  | JBool a, JBool b => Bool.eqb a b
  | JNumber a, JNumber b => bool_decide (a = b)
  | JString a, JString b => bool_decide (a = b)
  | JArray l, JArray l' =>
      (fix go l l' := match l, l' with
       | [], [] => true
       | v :: l, w :: l' => json_eqb v w && go l l'
       | _, _ => false
       end) l l'
  | JObject m, JObject m' =>
      (fix go m m' := match m, m' with
       | [], [] => true
       | (k, v) :: m, (k', w) :: m' => bool_decide (k = k') && json_eqb v w && go m m'
       | _, _ => false
       end) m m'
  | _, _ => false
  end.

(** [iter.all(..)] over a check that counts nodes: stops at the first failure. *)
Fixpoint all_counting {A} (check : A -> Z -> bool * Z) (l : list A) (nodes : Z) : bool * Z :=
  match l with
  | [] => (true, nodes)
  | a :: l => let '(ok, nodes) := check a nodes in
              if ok then all_counting check l nodes else (false, nodes)
  end.
Definition key_ok (key : rstr) : bool :=
  negb (is_empty key) && (str_len key <=? 256) && negb (has_control key).
Fixpoint visit v (depth nodes : Z) : bool * Z :=
  let nodes := nodes + 1 in
  if (16 <? depth) || (4096 <? nodes) then (false, nodes) else
  match v with
  | JObject values =>
      all_counting (fun '(key, child) nodes =>
        if key_ok key then visit child (depth + 1) nodes else (false, nodes)) values nodes
  | JArray values => all_counting (fun child nodes => visit child (depth + 1) nodes) values nodes
  | JString text => (negb (bool_decide (0 ∈ text)), nodes)
  | _ => (true, nodes)
  end.
Definition presentation_valid (value : list (rstr * Json Number)) (limit : Z) : bool :=
  (all_counting (fun '(key, child) nodes =>
     if key_ok key then visit child 1 nodes else (false, nodes)) value 0).1
  && match to_vec value with Some bytes => zlen bytes <=? limit | None => false end.

(** ** What is bounded *)
Fixpoint json_size v : Z :=
  match v with
  | JArray l => 1 + foldr Z.add 0 (map json_size l)
  | JObject m => 1 + foldr Z.add 0 (map (fun e => json_size e.2) m)
  | _ => 1
  end.
Fixpoint json_depth v : Z :=
  match v with
  | JArray l => 1 + foldr Z.max 0 (map json_depth l)
  | JObject m => 1 + foldr Z.max 0 (map (fun e => json_depth e.2) m)
  | _ => 1
  end.
Fixpoint json_texts_ok v : Prop :=
  match v with
  | JArray l => foldr and True (map json_texts_ok l)
  | JObject m => foldr and True (map (fun e => key_ok e.1 = true /\ json_texts_ok e.2) m)
  | JString s => 0 ∉ s
  | _ => True
  end.
Definition members_size (m : list (rstr * Json Number)) : Z :=
  foldr Z.add 0 (map (fun e => json_size e.2) m).
Definition members_depth (m : list (rstr * Json Number)) : Z :=
  foldr Z.max 0 (map (fun e => json_depth e.2) m).
Definition members_ok (m : list (rstr * Json Number)) : Prop :=
  foldr and True (map (fun e => key_ok e.1 = true /\ json_texts_ok e.2) m).

Lemma json_eqb_eq v w : json_eqb v w = true <-> v = w.
Proof.
  revert w. induction v as [v Hl Hm|l IH|m IH] using Json_tree_ind; intros w.
  - destruct v, w; simpl; try (split; congruence); rewrite ?bool_decide_eq_true, ?eqb_true_iff;
      try (split; congruence); by exfalso; (eapply Hl || eapply Hm).
  - destruct w as [| | | |l'|]; simpl; try (split; congruence). revert l'.
    induction l as [|v l IHl]; intros [|w l']; simpl; try (split; congruence).
    rewrite andb_true_iff, (IH v) by left. specialize (IHl (fun v Hv => IH v (list_elem_of_further _ _ _ Hv)) l').
    rewrite IHl. naive_solver congruence.
  - destruct w as [| | | | |m']; simpl; try (split; congruence). revert m'.
    induction m as [|[k v] m IHm]; intros [|[k' w] m']; simpl; try (split; congruence).
    rewrite !andb_true_iff, (IH k v) by left.
    specialize (IHm (fun k v Hv => IH k v (list_elem_of_further _ _ _ Hv)) m').
    rewrite IHm, bool_decide_eq_true. naive_solver congruence.
Qed.
#[export] Instance json_eq_dec : EqDecision (Json Number).
Proof.
  intros v w. destruct (json_eqb v w) eqn:E.
  - left. by apply json_eqb_eq.
  - right. intros Heq. apply json_eqb_eq in Heq. congruence.
Defined.
End Presentation.

Section PresentationLaws.
Context `{SJ : SerdeJson}.
Implicit Types v : Json Number.

Lemma json_size_pos v : 1 <= json_size v.
Proof.
  induction v as [v Hl Hm|l IH|m IH] using Json_tree_ind.
  - destruct v; simpl; try lia; [by destruct (Hl values)|by destruct (Hm members)].
  - simpl. assert (0 <= foldr Z.add 0 (map json_size l)); [|lia].
    induction l as [|v l IHl]; simpl; [lia|]. pose proof (IH v ltac:(left)).
    assert (forall v, v ∈ l -> 1 <= json_size v) as Hl by (intros; apply IH; by right).
    specialize (IHl Hl). lia.
  - simpl. assert (0 <= foldr Z.add 0 (map (fun e => json_size e.2) m)); [|lia].
    induction m as [|[k v] m IHm]; simpl; [lia|]. pose proof (IH k v ltac:(left)).
    assert (forall k v, (k, v) ∈ m -> 1 <= json_size v) as Hl by (intros; eapply IH; by right).
    specialize (IHm Hl). lia.
Qed.
(** A counting check that accepts exactly within a budget. *)
Definition counts {A} (check : A -> Z -> bool * Z) (size depth : A -> Z) (ok : A -> Prop) (d : Z)
    (a : A) : Prop :=
  forall n, n <= 4096 ->
    (n + size a <= 4096 /\ d + depth a <= 17 /\ ok a -> check a n = (true, n + size a)) /\
    ((check a n).1 = true -> n + size a <= 4096 /\ d + depth a <= 17 /\ ok a).
Lemma all_counting_spec {A} (check : A -> Z -> bool * Z) size depth ok d (l : list A) n :
  (forall a, a ∈ l -> counts check size depth ok d a) -> (forall a, 0 <= size a) ->
  d <= 17 -> n <= 4096 ->
  let size' := foldr Z.add 0 (map size l) in
  let depth' := foldr Z.max 0 (map depth l) in
  (n + size' <= 4096 /\ d + depth' <= 17 /\ foldr and True (map ok l) ->
     all_counting check l n = (true, n + size')) /\
  ((all_counting check l n).1 = true ->
     n + size' <= 4096 /\ d + depth' <= 17 /\ foldr and True (map ok l)).
Proof.
  intros Hc Hpos Hd. revert n. induction l as [|a l IH]; intros n Hn; simpl.
  { rewrite Z.add_0_r. split; [done|]. intros _. split_and!; [done|lia|done]. }
  destruct (Hc a ltac:(left) n Hn) as [Ha1 Ha2].
  assert (forall a, a ∈ l -> counts check size depth ok d a) as Hl by (intros; apply Hc; by right).
  pose proof (Hpos a).
  assert (0 <= foldr Z.add 0 (map size l)).
  { clear -Hpos. induction l as [|a l IH]; simpl; [lia|]. pose proof (Hpos a). lia. }
  split.
  - intros (Hs & Hdep & Hok & Hoks). rewrite Ha1 by (split_and!; [lia|lia|done]).
    destruct (IH Hl (n + size a) ltac:(lia)) as [IH1 _]. rewrite IH1 by (split_and!; [lia|lia|done]).
    f_equal. lia.
  - destruct (check a n) as [b n'] eqn:Hcheck. destruct b; [|done]. intros Hall.
    destruct (Ha2 eq_refl) as (Hs & Hdep & Hok).
    pose proof (Ha1 (conj Hs (conj Hdep Hok))) as Heq. injection Heq as ->.
    destruct (IH Hl (n + size a) ltac:(lia)) as [_ IH2]. destruct (IH2 Hall) as (? & ? & ?).
    split_and!; [lia|lia|done|done].
Qed.
Lemma visit_counts v d :
  1 <= d -> counts (fun v n => visit v d n) json_size json_depth json_texts_ok d v.
Proof.
  revert d. induction v as [v Hl Hm|l IH|m IH] using Json_tree_ind; intros d Hd n Hn.
  - assert (json_size v = 1 /\ json_depth v = 1) as [-> ->].
    { destruct v; try done; [by destruct (Hl values)|by destruct (Hm members)]. }
    assert (visit v d n = if (16 <? d) || (4096 <? n + 1) then (false, n + 1) else
              (match v with JString t => negb (bool_decide (0 ∈ t)) | _ => true end, n + 1)) as ->.
    { destruct v; simpl; try done; [by destruct (Hl values)|by destruct (Hm members)]. }
    assert (match v with JString t => negb (bool_decide (0 ∈ t)) | _ => true end = true <->
            json_texts_ok v) as Ht.
    { destruct v; try done; simpl; [|by destruct (Hl values)|by destruct (Hm members)].
      by rewrite negb_true_iff, bool_decide_eq_false. }
    destruct (Z.ltb_spec 16 d), (Z.ltb_spec 4096 (n + 1)); simpl; (split; [|]); try lia;
      try (intros ?; lia); try done.
    + intros (_ & _ & Hok). by rewrite (proj2 Ht Hok).
    + intros ?%Ht. lia || (split_and!; [lia|lia|done]).
  - simpl. destruct (Z.ltb_spec 16 d), (Z.ltb_spec 4096 (n + 1)); simpl;
      try (split; [intros (? & ? & ?); exfalso|done];
           pose proof (json_size_pos (JArray l)); simpl in *;
           assert (0 <= foldr Z.max 0 (map json_depth l)) by (clear; induction l; simpl; lia); lia).
    destruct (all_counting_spec (fun child n => visit child (d + 1) n) json_size json_depth
                json_texts_ok (d + 1) l (n + 1)) as [H1 H2]; [|..|lia|lia|].
    { intros a Ha. apply IH; [done|lia]. }
    { intros a. pose proof (json_size_pos a). lia. }
    split.
    + intros (? & ? & ?). rewrite H1 by (split_and!; [lia|lia|done]). f_equal. lia.
    + intros Hv. destruct (H2 Hv) as (? & ? & ?). split_and!; [lia|lia|done].
  - simpl. destruct (Z.ltb_spec 16 d), (Z.ltb_spec 4096 (n + 1)); simpl;
      try (split; [intros (? & ? & ?); exfalso|done];
           pose proof (json_size_pos (JObject m)); simpl in *;
           assert (0 <= foldr Z.max 0 (map (fun e => json_depth e.2) m)) by (clear; induction m; simpl; lia); lia).
    destruct (all_counting_spec (fun '(key, child) n =>
        if key_ok key then visit child (d + 1) n else (false, n))
        (fun e => json_size e.2) (fun e => json_depth e.2)
        (fun e => key_ok e.1 = true /\ json_texts_ok e.2) (d + 1) m (n + 1)) as [H1 H2]; [|..|lia|lia|].
    { intros [k a] Ha n' Hn'. simpl. destruct (IH k a Ha (d + 1) ltac:(lia) n' Hn').
      destruct (key_ok k); [naive_solver|]. split; [naive_solver|done]. }
    { intros [k a]. pose proof (json_size_pos a). simpl. lia. }
    split.
    + intros (? & ? & ?). rewrite H1 by (split_and!; [lia|lia|done]). f_equal. lia.
    + intros Hv. destruct (H2 Hv) as (? & ? & ?). split_and!; [lia|lia|done].
Qed.
Lemma presentation_valid_iff value limit :
  presentation_valid value limit = true <->
  members_size value <= 4096 /\ members_depth value <= 16 /\ members_ok value /\
  exists bytes, to_vec value = Some bytes /\ zlen bytes <= limit.
Proof.
  unfold presentation_valid, members_size, members_depth, members_ok.
  destruct (all_counting_spec (fun '(key, child) n =>
        if key_ok key then visit child 1 n else (false, n))
        (fun e => json_size e.2) (fun e => json_depth e.2)
        (fun e => key_ok e.1 = true /\ json_texts_ok e.2) 1 value 0) as [H1 H2]; [|..|lia|lia|].
  { intros [k a] Ha n' Hn'. simpl. destruct (visit_counts a 1 ltac:(lia) n' Hn').
    destruct (key_ok k); [naive_solver|]. split; [naive_solver|done]. }
  { intros [k a]. pose proof (json_size_pos a). simpl. lia. }
  rewrite andb_true_iff. split.
  - intros [Hv Hb]. destruct (H2 Hv) as (? & ? & ?). split_and!; [lia|lia|done|].
    destruct (to_vec value) as [bytes|]; [|done]. exists bytes. split; [done|lia].
  - intros (? & ? & ? & bytes & -> & ?). split; [|lia].
    by rewrite H1 by (split_and!; [lia|lia|done]).
Qed.
End PresentationLaws.

(** A concrete serializer: numbers in unary, no escapes.  Only its length is used. *)
Module ReferenceJson.
Fixpoint text (v : Json Z) : bytes :=
  match v with
  | JNull => lit "null"
  | JBool b => if b then lit "true" else lit "false"
  | JNumber n => repeat 49 (Z.to_nat n)
  | JString s => [34] ++ str_bytes s ++ [34]
  | JArray l => [91] ++ concat (map (fun v => text v ++ [44]) l) ++ [93]
  | JObject m => [123] ++ concat (map (fun e => [34] ++ str_bytes e.1 ++ [34; 58] ++ text e.2 ++ [44]) m) ++ [125]
  end.
#[export] Instance serde_json : SerdeJson := {|
  Number := Z; number_as_i64 := checked_i64; to_vec m := Some (text (JObject m))
|}.
End ReferenceJson.
