(* ===== verification/GroupModel.v ===== *)
(** * Group rules: limits, budgets and data ([crates/group/src/{lib,model}.rs])

    The closed error and limit vocabulary, the budget every validation charges, and
    the typed values, predicates, facts and page inputs of the rule engine. *)
From S2P Require Import Prelude Ordered Text External.

(** ** Limits *)
Inductive LimitKind : Type :=
| Depth | Nodes | Fields | SetItems | FactSetItems | FactStringBytes | StringBytes
| InputVersionBytes | RuleBytes | Objects | BatchBytes | Items | Visits | Explanations.
#[export] Instance LimitKind_eq_dec : EqDecision LimitKind.
Proof. solve_decision. Defined.

Inductive GroupError : Type :=
| InvalidIdentity | InvalidStructure | UnknownField | InvalidType | InvalidUnit
| InvalidOperation | PermissionDenied | TenantMismatch | IncompleteSnapshot
| VersionMismatch | ConflictingObject
| LimitExceeded (kind : LimitKind).
#[export] Instance GroupError_eq_dec : EqDecision GroupError.
Proof. solve_decision. Defined.

Notation gres A := (res GroupError A) (only parsing).

Module limits.
Definition DEPTH := 16.
Definition NODES := 256.
Definition FIELDS := 128.
Definition SET_ITEMS := 256.
Definition FACT_SET_ITEMS := 100000.
Definition FACT_STRING_BYTES := 65536.
Definition STRING_BYTES := 4096.
Definition INPUT_VERSION_BYTES := 100000.
Definition RULE_BYTES := 64 * 1024.
Definition OBJECTS := 1000.
Definition BATCH_BYTES := 16 * 1024 * 1024.
Definition ITEMS := 1000000.
Definition VISITS := 1000000.
Definition EXPLANATIONS := 65536.
End limits.

Definition LimitKind_maximum (k : LimitKind) : Z :=
  match k with
  | Depth => limits.DEPTH
  | Nodes => limits.NODES
  | Fields => limits.FIELDS
  | SetItems => limits.SET_ITEMS
  | FactSetItems => limits.FACT_SET_ITEMS
  | FactStringBytes => limits.FACT_STRING_BYTES
  | StringBytes => limits.STRING_BYTES
  | InputVersionBytes => limits.INPUT_VERSION_BYTES
  | RuleBytes => limits.RULE_BYTES
  | Objects => limits.OBJECTS
  | BatchBytes => limits.BATCH_BYTES
  | Items => limits.ITEMS
  | Visits => limits.VISITS
  | Explanations => limits.EXPLANATIONS
  end.
Definition LimitKind_check (k : LimitKind) (n : Z) : gres () :=
  if LimitKind_maximum k <? n then Err (LimitExceeded k) else Ok ().
(** [add(&mut total, n)]: the new total, or an error that leaves it unchanged. *)
Definition LimitKind_add (k : LimitKind) (total n : Z) : gres Z :=
  next ← ok_or (checked_u64 (total + n)) (LimitExceeded k);
  LimitKind_check k next ≫= fun _ => Ok next.
Definition LimitKind_product (k : LimitKind) (a b : Z) : gres () :=
  n ← ok_or (checked_u64 (a * b)) (LimitExceeded k);
  LimitKind_check k n.

(** ** Budgets *)
Record Budget : Type := mk_Budget { bud_bytes : Z; byte_kind : LimitKind; bud_items : Z }.

Definition Budget_new (byte_kind : LimitKind) : Budget := mk_Budget 0 byte_kind 0.
Definition Budget_items (b : Budget) (n : Z) : gres Budget :=
  items ← LimitKind_add Items (bud_items b) n;
  Ok (mk_Budget (bud_bytes b) (byte_kind b) items).
Definition Budget_add_bytes (b : Budget) (n : Z) : gres Budget :=
  bytes ← LimitKind_add (byte_kind b) (bud_bytes b) n;
  Ok (mk_Budget bytes (byte_kind b) (bud_items b)).
Definition Budget_set (b : Budget) (n : Z) : gres () :=
  if bool_decide (byte_kind b = RuleBytes)
  then LimitKind_check SetItems n else LimitKind_check FactSetItems n.
Definition Budget_scalar_text (b : Budget) (s : rstr) : gres Budget :=
  (if bool_decide (byte_kind b = RuleBytes)
   then LimitKind_check StringBytes (str_len s)
   else LimitKind_check FactStringBytes (str_len s)) ≫= fun _ =>
  Budget_add_bytes b (str_len s).
Definition Budget_text (b : Budget) (s : rstr) : gres Budget :=
  LimitKind_check StringBytes (str_len s) ≫= fun _ =>
  Budget_add_bytes b (str_len s).
Definition Budget_input_version (b : Budget) (s : rstr) : gres Budget :=
  LimitKind_check InputVersionBytes (str_len s) ≫= fun _ =>
  b ← Budget_add_bytes b (str_len s);
  if is_empty (trim s) || has_control s then Err InvalidIdentity else Ok b.
Definition Budget_identity (b : Budget) (s : rstr) : gres Budget :=
  b ← Budget_text b s;
  if is_empty (trim s) || has_control s then Err InvalidIdentity else Ok b.

(** ** Values *)
Inductive ScalarType : Type := TString | TBoolean | TInteger | TNumber | TTime.
Inductive FieldType : Type := FScalar (t : ScalarType) | FSet (t : ScalarType).
#[export] Instance ScalarType_eq_dec : EqDecision ScalarType.
Proof. solve_decision. Defined.
#[export] Instance FieldType_eq_dec : EqDecision FieldType.
Proof. solve_decision. Defined.

Inductive Op : Type :=
| OpEq | OpNe | OpIn | OpNotIn | OpLt | OpLe | OpGt | OpGe | OpContains | OpNotContains
| OpContainsAny | OpContainsAll | OpIsNull | OpIsNotNull.
#[export] Instance Op_eq_dec : EqDecision Op.
Proof. solve_decision. Defined.

Section Model.
Context `{RC : RequestContext} `{CT : Contract} `{OF : OrderedFloat}.

Record ObjectKey : Type := mk_ObjectKey { key_tenant : TenantId; key_id : rstr }.
#[export] Instance ObjectKey_eq_dec : EqDecision ObjectKey.
Proof. solve_decision. Defined.
Definition ObjectKey_new (tenant : TenantId) (id : rstr) : gres ObjectKey :=
  _ ← Budget_identity (Budget_new BatchBytes) id;
  Ok (mk_ObjectKey tenant id).
#[export] Instance ObjectKey_ord : Ord ObjectKey :=
  cmp_on (fun k => (tenant_octets (key_tenant k), key_id k)).
#[export] Instance ObjectKey_ord_laws : OrdLaws ObjectKey.
Proof.
  apply cmp_on_laws. intros [t1 i1] [t2 i2]. simpl.
  intros [= Ht ->]. by apply tenant_octets_inj in Ht as ->.
Qed.

Inductive Scalar : Type :=
| SString (s : rstr)
| SBoolean (b : bool)
| SInteger (i : Z)
| SNumber (n : NotNan)
| STime (t : Timepoint).
#[export] Instance Scalar_eq_dec : EqDecision Scalar.
Proof. solve_decision. Defined.
Definition Scalar_kind (s : Scalar) : ScalarType :=
  match s with
  | SString _ => TString | SBoolean _ => TBoolean | SInteger _ => TInteger
  | SNumber _ => TNumber | STime _ => TTime
  end.
(** The derived order: by variant, then by payload. *)
Definition Scalar_index (s : Scalar) : Z :=
  match s with
  | SString _ => 0 | SBoolean _ => 1 | SInteger _ => 2 | SNumber _ => 3 | STime _ => 4
  end.
#[export] Instance Scalar_ord : Ord Scalar := fun a b =>
  match a, b with
  | SString a, SString b => cmp a b
  | SBoolean a, SBoolean b => cmp a b
  | SInteger a, SInteger b => cmp a b
  | SNumber a, SNumber b => cmp a b
  | STime a, STime b => cmp a b
  | _, _ => cmp (Scalar_index a) (Scalar_index b)
  end.
#[export] Instance Scalar_ord_laws : OrdLaws Scalar.
Proof.
  split.
  - intros [] []; unfold cmp, Scalar_ord; simpl; try done;
      (split; [intros ->%cmp_eq; done|intros [= ->]; apply cmp_refl]).
  - intros [] []; unfold cmp, Scalar_ord; simpl; try done; apply cmp_opp.
  - intros [] [] []; unfold cmp, Scalar_ord; simpl; try done; apply cmp_trans.
Qed.
Definition Scalar_validate (b : Budget) (s : Scalar) : gres Budget :=
  match s with
  | SNumber n => if is_finite n then Ok b else Err InvalidType
  | SString s => Budget_scalar_text b s
  | _ => Ok b
  end.

Inductive Value : Type :=
| VScalar (v : Scalar)
| VSet (element : ScalarType) (values : list Scalar).
#[export] Instance Value_eq_dec : EqDecision Value.
Proof. solve_decision. Defined.
Definition Value_kind (v : Value) : FieldType :=
  match v with
  | VScalar v => FScalar (Scalar_kind v)
  | VSet element _ => FSet element
  end.
Definition Value_validate (b : Budget) (v : Value) : gres Budget :=
  match v with
  | VScalar v => b ← Budget_items b 1; Scalar_validate b v
  | VSet element values =>
      _ ← Budget_set b (zlen values);
      b ← Budget_items b (zlen values);
      res_for (fun b v =>
        _ ← reject (negb (bool_decide (Scalar_kind v = element))) InvalidType;
        Scalar_validate b v) values b
  end.

(** ** Dictionary, predicates and facts *)
Record Field : Type := mk_Field {
  f_key : rstr; f_kind : FieldType; f_unit : option rstr; f_operations : list Op;
  f_nullable : bool
}.
Record Operand : Type := mk_Operand { operand_value : Value; operand_unit : option rstr }.
Record Predicate : Type := mk_Predicate {
  p_field : rstr; p_op : Op; p_operand : option Operand
}.
#[export] Instance Operand_eq_dec : EqDecision Operand.
Proof. solve_decision. Defined.
#[export] Instance Predicate_eq_dec : EqDecision Predicate.
Proof. solve_decision. Defined.

Inductive FactState : Type :=
| Known (v : Value) | Null | Deleted | Conflict | Missing | Unsupported | Denied.
Record Fact : Type := mk_Fact {
  fact_state : FactState; fact_source : rstr; fact_snapshot_id : rstr;
  fact_observed_at : Timepoint
}.

Inductive Quantifier : Type := QOne | QAny | QAll.
#[export] Instance Quantifier_eq_dec : EqDecision Quantifier.
Proof. solve_decision. Defined.
End Model.

(** ** Budget laws *)
Lemma LimitKind_check_ok k n u : LimitKind_check k n = Ok u <-> n <= LimitKind_maximum k.
Proof. unfold LimitKind_check. destruct u, (Z.ltb_spec (LimitKind_maximum k) n); naive_solver lia. Qed.
Lemma LimitKind_maximum_bound k : 0 < LimitKind_maximum k <= 16777216.
Proof. destruct k; cbv; split; congruence. Qed.
Lemma LimitKind_add_ok k total n total' :
  LimitKind_add k total n = Ok total' <->
  total' = total + n /\ 0 <= total + n <= LimitKind_maximum k.
Proof.
  unfold LimitKind_add. rewrite bind_ok. setoid_rewrite ok_or_ok. setoid_rewrite checked_u64_some.
  pose proof (LimitKind_maximum_bound k) as Hm. split.
  - intros (a & [-> Hr] & H). inv_ok. apply LimitKind_check_ok in E. unfold in_u64 in Hr. lia.
  - intros [-> Hr]. exists (total + n). split; [unfold in_u64, u64_max; lia|].
    rewrite (proj2 (LimitKind_check_ok k (total + n) ())) by lia. done.
Qed.
Lemma LimitKind_product_ok k a b u :
  LimitKind_product k a b = Ok u <-> 0 <= a * b <= LimitKind_maximum k.
Proof.
  unfold LimitKind_product. rewrite bind_ok. setoid_rewrite ok_or_ok.
  setoid_rewrite checked_u64_some. setoid_rewrite LimitKind_check_ok.
  pose proof (LimitKind_maximum_bound k) as Hm. unfold in_u64, u64_max. naive_solver lia.
Qed.

(** A budget within its limits; [charged b b'] says what a successful validation
    may have done to it. *)
Definition Budget_wf (b : Budget) : Prop :=
  0 <= bud_bytes b <= LimitKind_maximum (byte_kind b) /\ 0 <= bud_items b <= limits.ITEMS.
Definition charged (b b' : Budget) : Prop :=
  byte_kind b' = byte_kind b /\ bud_bytes b <= bud_bytes b' /\ bud_items b <= bud_items b' /\
  (Budget_wf b -> Budget_wf b').
#[export] Instance charged_preorder : PreOrder charged.
Proof. split; [intros b; unfold charged; auto with lia|intros a b c; unfold charged; intuition (congruence || lia)]. Qed.

Section BudgetLaws.
Implicit Types b : Budget.

Lemma Budget_new_wf k : Budget_wf (Budget_new k).
Proof. unfold Budget_wf. simpl. pose proof (LimitKind_maximum_bound k). cbv [limits.ITEMS]. lia. Qed.
Lemma Budget_items_ok b n b' :
  0 <= n -> Budget_items b n = Ok b' -> charged b b' /\ bud_items b' = bud_items b + n.
Proof.
  unfold Budget_items. intros Hn H. inv_ok. apply LimitKind_add_ok in E as [-> ?].
  unfold charged, Budget_wf. simpl in *. unfold limits.ITEMS in *. repeat split; auto; lia.
Qed.
Lemma Budget_add_bytes_ok b n b' :
  0 <= n -> Budget_add_bytes b n = Ok b' -> charged b b' /\ bud_bytes b' = bud_bytes b + n.
Proof.
  unfold Budget_add_bytes. intros Hn H. inv_ok. apply LimitKind_add_ok in E as [-> ?].
  unfold charged, Budget_wf. simpl in *. repeat split; auto; lia.
Qed.
Lemma Budget_text_ok b s b' :
  Budget_text b s = Ok b' ->
  charged b b' /\ str_len s <= limits.STRING_BYTES /\ bud_bytes b' = bud_bytes b + str_len s.
Proof.
  unfold Budget_text. intros H. inv_ok. apply LimitKind_check_ok in E.
  apply Budget_add_bytes_ok in H as [? ?]; [done|apply str_len_nonneg].
Qed.
Lemma Budget_identity_ok b s b' :
  Budget_identity b s = Ok b' ->
  charged b b' /\ str_len s <= limits.STRING_BYTES /\ is_empty (trim s) = false /\
  has_control s = false.
Proof.
  unfold Budget_identity. intros H. inv_ok. apply Budget_text_ok in E as (? & ? & _).
  destruct (_ || _) eqn:Hb; [done|]. inv_ok. bool_hyps. done.
Qed.
Lemma Budget_input_version_ok b s b' :
  Budget_input_version b s = Ok b' ->
  charged b b' /\ str_len s <= limits.INPUT_VERSION_BYTES.
Proof.
  unfold Budget_input_version. intros H. inv_ok. apply LimitKind_check_ok in E.
  destruct (_ || _); [done|]. inv_ok.
  by apply Budget_add_bytes_ok in E0 as [? _]; [|apply str_len_nonneg].
Qed.
Lemma LimitKind_check_no_panic k n : no_panic (LimitKind_check k n).
Proof. unfold LimitKind_check. by destruct (_ <? _). Qed.
Lemma Budget_add_bytes_no_panic b n : no_panic (Budget_add_bytes b n).
Proof.
  unfold Budget_add_bytes, LimitKind_add.
  repeat (apply bind_no_panic; [|intros]); auto using ok_or_no_panic, LimitKind_check_no_panic; done.
Qed.
Lemma Budget_items_no_panic b n : no_panic (Budget_items b n).
Proof.
  unfold Budget_items, LimitKind_add.
  repeat (apply bind_no_panic; [|intros]); auto using ok_or_no_panic, LimitKind_check_no_panic; done.
Qed.
Lemma Budget_text_no_panic b s : no_panic (Budget_text b s).
Proof. apply bind_no_panic; auto using LimitKind_check_no_panic, Budget_add_bytes_no_panic. Qed.
Lemma Budget_identity_no_panic b s : no_panic (Budget_identity b s).
Proof. apply bind_no_panic; [apply Budget_text_no_panic|]. intros. by destruct (_ || _). Qed.
Lemma Budget_input_version_no_panic b s : no_panic (Budget_input_version b s).
Proof.
  unfold Budget_input_version. apply bind_no_panic; [apply LimitKind_check_no_panic|intros _ _].
  apply bind_no_panic; [apply Budget_add_bytes_no_panic|intros b' _]. by destruct (_ || _).
Qed.
End BudgetLaws.
#[export] Hint Resolve LimitKind_check_no_panic Budget_add_bytes_no_panic Budget_items_no_panic
  Budget_text_no_panic Budget_identity_no_panic Budget_input_version_no_panic : rust.

Section ValueLaws.
Context `{RC : RequestContext} `{CT : Contract} `{OF : OrderedFloat}.

Lemma Scalar_validate_ok b (s : Scalar) b' : Scalar_validate b s = Ok b' -> charged b b'.
Proof.
  destruct s; simpl; intros H; inv_ok; try reflexivity.
  - unfold Budget_scalar_text in H. inv_ok.
    by apply Budget_add_bytes_ok in H as [? _]; [|apply str_len_nonneg].
  - destruct (is_finite n); [|done]. inv_ok. reflexivity.
Qed.
Lemma Scalar_validate_no_panic b (s : Scalar) : no_panic (Scalar_validate b s).
Proof.
  destruct s; simpl; try done.
  - unfold Budget_scalar_text. apply bind_no_panic; [|auto with rust].
    destruct (bool_decide _); auto with rust.
  - by destruct (is_finite n).
Qed.
(** What a validated value guarantees: a homogeneous set. *)
Definition Value_wf (v : Value) : Prop :=
  match v with
  | VScalar _ => True
  | VSet element values => forall s, s ∈ values -> Scalar_kind s = element
  end.
Lemma Value_validate_set_ok element values b b' :
  res_for (fun b v =>
    _ ← reject (negb (bool_decide (Scalar_kind v = element))) InvalidType;
    Scalar_validate b v) values b = Ok b' ->
  charged b b' /\ forall s, s ∈ values -> Scalar_kind s = element.
Proof.
  revert b. induction values as [|v values IH]; intros b H; simpl in H; inv_ok.
  - split; [reflexivity|set_solver].
  - bool_hyps. apply IH in H as [Hc Hk]. split.
    + etrans; [by eapply Scalar_validate_ok|done].
    + intros s [->|?]%elem_of_cons; auto.
Qed.
Lemma Value_validate_ok b v b' : Value_validate b v = Ok b' -> charged b b' /\ Value_wf v.
Proof.
  destruct v as [v|element values]; simpl; intros H; inv_ok.
  - apply Budget_items_ok in E as [? _]; [|lia]. split; [|done].
    etrans; [done|]. by eapply Scalar_validate_ok.
  - apply Budget_items_ok in E0 as [? _]; [|apply zlen_nonneg].
    apply Value_validate_set_ok in H as [? ?]. split; [by etrans|done].
Qed.
Lemma Value_validate_no_panic b v : no_panic (Value_validate b v).
Proof.
  destruct v as [v|element values]; simpl.
  - apply bind_no_panic; eauto using Scalar_validate_no_panic with rust.
  - unfold Budget_set. apply bind_no_panic; [destruct (bool_decide _); auto with rust|intros _ _].
    apply bind_no_panic; [auto with rust|]. intros b' _.
    apply (res_for_no_panic _ (fun _ => True)); [|done..].
    intros b0 a _ _. apply bind_no_panic; eauto using Scalar_validate_no_panic with rust.
Qed.
End ValueLaws.
#[export] Hint Resolve Value_validate_no_panic Scalar_validate_no_panic : rust.
