(* ===== verification/GroupRule.v ===== *)
(** * Group rules: the criteria tree and rule construction ([crates/group/src/rule.rs])

    The bounded tree, its builders, and [Rule::new], which type checks a tree against
    a dictionary.  Rust's private fields are the predicate [Built]: a tree exists only
    if the builders returned it. *)
From S2P Require Import Prelude Ordered Text External GroupModel.

Section Rule.
Context `{RC : RequestContext} `{CT : Contract} `{OF : OrderedFloat}.

(** ** The tree *)
Inductive Criteria : Type :=
| mk_Criteria (node : Node) (count depth : Z)
with Node : Type :=
| NPredicate (p : Predicate)
| NMembership (group : rstr) (negated : bool)
| NAnd (children : list Criteria)
| NOr (children : list Criteria).

Definition c_node (c : Criteria) : Node := let 'mk_Criteria n _ _ := c in n.
Definition c_count (c : Criteria) : Z := let 'mk_Criteria _ n _ := c in n.
Definition c_depth (c : Criteria) : Z := let 'mk_Criteria _ _ d := c in d.
Definition node_children (n : Node) : list Criteria :=
  match n with NAnd cs | NOr cs => cs | _ => [] end.

Section Induction.
Variables (P : Criteria -> Prop).
Hypothesis Hleaf : forall n k d, node_children n = [] -> P (mk_Criteria n k d).
Hypothesis Hand : forall cs k d, (forall c, c ∈ cs -> P c) -> P (mk_Criteria (NAnd cs) k d).
Hypothesis Hor : forall cs k d, (forall c, c ∈ cs -> P c) -> P (mk_Criteria (NOr cs) k d).
Fixpoint Criteria_tree_ind (c : Criteria) : P c.
Proof.
  assert (forall cs, (forall c, c ∈ cs -> P c) <-> Forall P cs) as Hall
    by (intros; symmetry; apply Forall_forall).
  destruct c as [[p|g ng|cs|cs] k d].
  - by apply Hleaf.
  - by apply Hleaf.
  - apply Hand, Hall. clear -Criteria_tree_ind.
    revert cs. fix IHcs 1. intros [|c cs]; constructor; [apply Criteria_tree_ind|apply IHcs].
  - apply Hor, Hall. clear -Criteria_tree_ind.
    revert cs. fix IHcs 1. intros [|c cs]; constructor; [apply Criteria_tree_ind|apply IHcs].
Qed.
End Induction.

(** ** Builders *)
Definition Criteria_membership (group : rstr) (negated : bool) : gres Criteria :=
  _ ← Budget_identity (Budget_new RuleBytes) group;
  Ok (mk_Criteria (NMembership group negated) 1 1).
Definition Criteria_predicate (predicate : Predicate) : gres Criteria :=
  budget ← Budget_identity (Budget_new RuleBytes) (p_field predicate);
  _ ← match p_operand predicate with
      | Some operand =>
          budget ← Value_validate budget (operand_value operand);
          match operand_unit operand with
          | Some unit => Budget_identity budget unit
          | None => Ok budget
          end
      | None => Ok budget
      end;
  Ok (mk_Criteria (NPredicate predicate) 1 1).
Definition Criteria_group (children : list Criteria) (and : bool) : gres Criteria :=
  _ ← reject (is_empty children) InvalidStructure;
  _ ← LimitKind_check Nodes (zlen children);
  count ← res_for (fun count child => LimitKind_add Nodes count (c_count child)) children 1;
  let depth := 1 + foldr Z.max 0 (map c_depth children) in
  _ ← LimitKind_check Depth depth;
  Ok (mk_Criteria (if and then NAnd children else NOr children) count depth).
Definition Criteria_and (children : list Criteria) : gres Criteria := Criteria_group children true.
Definition Criteria_or (children : list Criteria) : gres Criteria := Criteria_group children false.

(** Every tree the public interface can produce. *)
Inductive Built : Criteria -> Prop :=
| built_membership group negated c : Criteria_membership group negated = Ok c -> Built c
| built_predicate p c : Criteria_predicate p = Ok c -> Built c
| built_and children c :
    (forall c', c' ∈ children -> Built c') -> Criteria_and children = Ok c -> Built c
| built_or children c :
    (forall c', c' ∈ children -> Built c') -> Criteria_or children = Ok c -> Built c.

(** ** Rules *)
Record Rule : Type := mk_Rule {
  rule_tenant : TenantId; rule_version : rstr; rule_dictionary_version : rstr;
  rule_fields : list (rstr * Field); rule_criteria : Criteria; rule_required : list rstr
}.

Fixpoint node_at (c : Criteria) (path : list nat) : option Criteria :=
  match path with
  | [] => Some c
  | index :: path =>
      match c_node c with
      | NAnd children | NOr children =>
          match children !! index with Some child => node_at child path | None => None end
      | NPredicate _ | NMembership _ _ => None
      end
  end.
Definition Rule_predicate_at (r : Rule) (path : list nat) : option Predicate :=
  match node_at (rule_criteria r) path with
  | Some c => match c_node c with NPredicate p => Some p | _ => None end
  | None => None
  end.

Fixpoint collect_groups (c : Criteria) (out : list rstr) : list rstr :=
  match c with
  | mk_Criteria (NMembership group _) _ _ => bs_insert group out
  | mk_Criteria (NAnd cs) _ _ | mk_Criteria (NOr cs) _ _ =>
      foldl (fun out c => collect_groups c out) out cs
  | mk_Criteria (NPredicate _) _ _ => out
  end.
Definition Rule_groups (r : Rule) : list rstr := collect_groups (rule_criteria r) [].

Definition allows (field : Field) (op : Op) : bool :=
  match op with
  | OpIsNull | OpIsNotNull => f_nullable field
  | OpEq | OpNe | OpIn | OpNotIn => match f_kind field with FScalar _ => true | _ => false end
  | OpLt | OpLe | OpGt | OpGe =>
      match f_kind field with FScalar (TInteger | TNumber | TTime) => true | _ => false end
  | OpContains | OpNotContains => bool_decide (f_kind field = FScalar TString)
  | OpContainsAny | OpContainsAll => match f_kind field with FSet _ => true | _ => false end
  end.

Definition is_null_test (op : Op) : bool :=
  match op with OpIsNull | OpIsNotNull => true | _ => false end.
Definition expected_operand (op : Op) (kind : FieldType) : FieldType :=
  match op, kind with (OpIn | OpNotIn), FScalar t => FSet t | _, _ => kind end.

Definition validate_predicate (p : Predicate) (fields : list (rstr * Field))
    (required : list rstr) (budget : Budget) : gres (list rstr * Budget) :=
  budget ← Budget_identity budget (p_field p);
  field ← ok_or (bm_get (p_field p) fields) UnknownField;
  let required := bs_insert (p_field p) required in
  _ ← reject (negb (bool_decide (p_op p ∈ f_operations field))) InvalidOperation;
  if is_null_test (p_op p) then
    match p_operand p with
    | Some _ => Err InvalidOperation
    | None => Ok (required, budget)
    end
  else
    operand ← ok_or (p_operand p) InvalidOperation;
    budget ← Value_validate budget (operand_value operand);
    budget ← match operand_unit operand with
             | Some unit => Budget_identity budget unit
             | None => Ok budget
             end;
    _ ← reject (negb (bool_decide (operand_unit operand = f_unit field))) InvalidUnit;
    _ ← reject (negb (bool_decide (Value_kind (operand_value operand)
                                   = expected_operand (p_op p) (f_kind field)))) InvalidType;
    Ok (required, budget).
Fixpoint validate (c : Criteria) (fields : list (rstr * Field)) (required : list rstr)
    (budget : Budget) : gres (list rstr * Budget) :=
  match c with
  | mk_Criteria (NMembership group _) _ _ =>
      budget ← Budget_identity budget group; Ok (required, budget)
  | mk_Criteria (NAnd children) _ _ | mk_Criteria (NOr children) _ _ =>
      res_for (fun '(required, budget) c => validate c fields required budget)
        children (required, budget)
  | mk_Criteria (NPredicate p) _ _ => validate_predicate p fields required budget
  end.

Definition add_field (s : Budget * list (rstr * Field)) (field : Field)
    : gres (Budget * list (rstr * Field)) :=
  let '(budget, dictionary) := s in
  budget ← Budget_identity budget (f_key field);
  budget ← match f_unit field with
           | Some unit => Budget_identity budget unit
           | None => Ok budget
           end;
  _ ← reject (is_empty (f_operations field)
              || existsb (fun op => negb (allows field op)) (f_operations field)) InvalidOperation;
  _ ← reject (bm_contains (f_key field) dictionary) InvalidStructure;
  Ok (budget, bm_insert (f_key field) field dictionary).
Definition Rule_new (tenant : TenantId) (version dictionary_version : rstr)
    (fields : list Field) (criteria : Criteria) : gres Rule :=
  budget ← Budget_identity (Budget_new RuleBytes) version;
  budget ← Budget_identity budget dictionary_version;
  _ ← LimitKind_check Fields (zlen fields);
  '(budget, dictionary) ← res_for add_field fields (budget, []);
  '(required, _) ← validate criteria dictionary [] budget;
  Ok (mk_Rule tenant version dictionary_version dictionary criteria required).

(** ** Reference definitions on trees *)
Fixpoint node_count (c : Criteria) : Z :=
  match c with
  | mk_Criteria (NAnd cs) _ _ | mk_Criteria (NOr cs) _ _ => 1 + foldr Z.add 0 (map node_count cs)
  | _ => 1
  end.
Fixpoint node_depth (c : Criteria) : Z :=
  match c with
  | mk_Criteria (NAnd cs) _ _ | mk_Criteria (NOr cs) _ _ => 1 + foldr Z.max 0 (map node_depth cs)
  | _ => 1
  end.
Fixpoint leaf_nodes (c : Criteria) : list Node :=
  match c with
  | mk_Criteria (NAnd cs) _ _ | mk_Criteria (NOr cs) _ _ => concat (map leaf_nodes cs)
  | mk_Criteria n _ _ => [n]
  end.

(** What the builders guarantee of a leaf and of a whole tree. *)
Definition leaf_ok (n : Node) : Prop :=
  match n with
  | NPredicate p => forall o, p_operand p = Some o -> Value_wf (operand_value o)
  | _ => True
  end.
Inductive Criteria_wf : Criteria -> Prop :=
| wf_leaf n k d : node_children n = [] -> (forall cs, n <> NAnd cs /\ n <> NOr cs) -> leaf_ok n ->
    k = 1 -> d = 1 -> Criteria_wf (mk_Criteria n k d)
| wf_branch n k d cs :
    n = NAnd cs \/ n = NOr cs -> cs <> [] -> (forall c, c ∈ cs -> Criteria_wf c) ->
    k = node_count (mk_Criteria n k d) -> d = node_depth (mk_Criteria n k d) ->
    k <= limits.NODES -> d <= limits.DEPTH -> Criteria_wf (mk_Criteria n k d).

Definition predicate_typed (fields : list (rstr * Field)) (p : Predicate) : Prop :=
  exists field, bm_get (p_field p) fields = Some field /\ p_op p ∈ f_operations field /\
    if is_null_test (p_op p) then p_operand p = None
    else exists o, p_operand p = Some o /\ operand_unit o = f_unit field /\
      Value_kind (operand_value o) = expected_operand (p_op p) (f_kind field) /\
      Value_wf (operand_value o).
Definition leaf_typed (fields : list (rstr * Field)) (n : Node) : Prop :=
  match n with NPredicate p => predicate_typed fields p | _ => True end.
Definition predicate_fields (c : Criteria) : list rstr :=
  omap (fun n => match n with NPredicate p => Some (p_field p) | _ => None end) (leaf_nodes c).
Definition membership_groups (c : Criteria) : list rstr :=
  omap (fun n => match n with NMembership g _ => Some g | _ => None end) (leaf_nodes c).
Definition field_ok (field : Field) : Prop :=
  f_operations field <> [] /\ forall op, op ∈ f_operations field -> allows field op = true.
Record Rule_wf (r : Rule) : Prop := {
  rule_fields_wf : bm_wf (rule_fields r);
  rule_fields_ok : forall k f, bm_get k (rule_fields r) = Some f -> f_key f = k /\ field_ok f;
  rule_fields_bound : zlen (rule_fields r) <= limits.FIELDS;
  rule_typed : forall n, n ∈ leaf_nodes (rule_criteria r) ->
    leaf_typed (rule_fields r) n;
  rule_required_eq : rule_required r = bs_of_list (predicate_fields (rule_criteria r))
}.
End Rule.

Section RuleLaws.
Context `{RC : RequestContext} `{CT : Contract} `{OF : OrderedFloat}.

Lemma count_loop_ok (cs : list Criteria) n n' :
  res_for (fun count child => LimitKind_add Nodes count (c_count child)) cs n = Ok n' ->
  n' = n + foldr Z.add 0 (map c_count cs) /\ (cs <> [] -> n' <= limits.NODES).
Proof.
  revert n. induction cs as [|c cs IH]; intros n H; simpl in *; inv_ok; [split; [lia|done]|].
  apply LimitKind_add_ok in E as [-> Hb]. apply IH in H as [-> Hn]. split; [lia|intros _].
  destruct cs; [simpl in *; lia|by apply Hn].
Qed.
Lemma map_ext_in {A B} (f g : A -> B) l : (forall a, a ∈ l -> f a = g a) -> map f l = map g l.
Proof. intros H. apply List.map_ext_in. intros a Ha. apply H. by apply list_elem_of_In. Qed.
Lemma Criteria_wf_cached c : Criteria_wf c -> c_count c = node_count c /\ c_depth c = node_depth c.
Proof.
  intros H. destruct H as [n k d Hn Hb _ -> ->|n k d cs Hcs _ _ Hk Hd _ _].
  - destruct n as [p|g ng|cs|cs]; [done|done|by destruct (Hb cs)|by destruct (Hb cs)].
  - done.
Qed.
Lemma Criteria_group_wf (cs : list Criteria) (and : bool) c :
  (forall c', c' ∈ cs -> Criteria_wf c') -> Criteria_group cs and = Ok c -> Criteria_wf c.
Proof.
  intros Hcs H. unfold Criteria_group in H. inv_ok.
  assert (cs <> []) as Hne by by destruct cs.
  apply count_loop_ok in E1 as [-> Hn]. apply LimitKind_check_ok in E2.
  rewrite (map_ext_in c_count node_count), (map_ext_in c_depth node_depth) in *
    by (intros; by apply Criteria_wf_cached, Hcs).
  specialize (Hn Hne). destruct and; eapply wf_branch; eauto.
Qed.
Lemma Built_wf c : Built c -> Criteria_wf c.
Proof.
  induction 1 as [g ng c H|p c H|cs c _ IH H|cs c _ IH H].
  - unfold Criteria_membership in H. inv_ok. by constructor.
  - unfold Criteria_predicate in H. inv_ok. constructor; try done. simpl. intros o Ho.
    rewrite Ho in E0. inv_ok. by eapply Value_validate_ok.
  - by eapply Criteria_group_wf.
  - by eapply Criteria_group_wf.
Qed.

Lemma validate_predicate_ok p fields required budget required' budget' :
  validate_predicate p fields required budget = Ok (required', budget') ->
  charged budget budget' /\ required' = bs_insert (p_field p) required /\ predicate_typed fields p.
Proof.
  unfold validate_predicate, predicate_typed. intros H. inv_ok. bool_hyps.
  apply Budget_identity_ok in E as [Hb1 _].
  destruct (is_null_test (p_op p)).
  - destruct (p_operand p) eqn:Ho; [done|]. inv_ok. split_and!; eauto 6.
  - inv_ok. bool_hyps. apply Value_validate_ok in E2 as [Hb2 Hwf].
    assert (charged a2 budget') as Hb3.
    { destruct (operand_unit a1); [by apply Budget_identity_ok in E3 as [? _]|inv_ok; reflexivity]. }
    split_and!; [by do 2 (etrans; [done|])|done|]. eauto 10.
Qed.
Lemma validate_ok fields c required budget required' budget' :
  validate c fields required budget = Ok (required', budget') ->
  charged budget budget' /\
  required' = foldl (fun s x => bs_insert x s) required (predicate_fields c) /\
  (forall n, n ∈ leaf_nodes c -> leaf_typed fields n).
Proof.
  revert c required budget required' budget'.
  assert (forall cs, (forall c, c ∈ cs -> forall required budget required' budget',
      validate c fields required budget = Ok (required', budget') ->
      charged budget budget' /\
      required' = foldl (fun s x => bs_insert x s) required (predicate_fields c) /\
      (forall n, n ∈ leaf_nodes c -> leaf_typed fields n)) ->
    forall required budget required' budget',
      res_for (fun '(required, budget) c => validate c fields required budget) cs
        (required, budget) = Ok (required', budget') ->
      charged budget budget' /\
      required' = foldl (fun s x => bs_insert x s) required
        (omap (fun n => match n with NPredicate p => Some (p_field p) | _ => None end)
           (concat (map leaf_nodes cs))) /\
      (forall n, n ∈ concat (map leaf_nodes cs) -> leaf_typed fields n)) as Hloop.
  { induction cs as [|c cs IHcs]; intros IH required budget required' budget' H; simpl in H.
    - inv_ok. split_and!; [reflexivity|done|simpl; set_solver].
    - inv_ok. destruct a as [required1 budget1].
      apply IH in E as (Hc1 & -> & Ht1); [|by left].
      apply IHcs in H as (Hc2 & -> & Ht2); [|intros; eapply IH; [by right|done]].
      split_and!; [by etrans| |].
      + simpl. rewrite omap_app, foldl_app. done.
      + simpl. intros n [Hn|Hn]%elem_of_app; auto. }
  intros c. induction c as [n k d Hn|cs k d IH|cs k d IH] using Criteria_tree_ind;
    intros required budget required' budget' H.
  - destruct n as [p|g ng|[]|[]]; simpl in *; try done.
    + apply validate_predicate_ok in H as (? & -> & ?).
      split_and!; [done|done|]. by intros n ->%list_elem_of_singleton.
    + inv_ok. apply Budget_identity_ok in E as [? _].
      split_and!; [done|done|]. by intros n ->%list_elem_of_singleton.
    + inv_ok. split_and!; [reflexivity|done|set_solver].
    + inv_ok. split_and!; [reflexivity|done|set_solver].
  - by apply (Hloop cs IH).
  - by apply (Hloop cs IH).
Qed.
Lemma add_field_ok b d field b' d' :
  add_field (b, d) field = Ok (b', d') ->
  charged b b' /\ d' = bm_insert (f_key field) field d /\ bm_get (f_key field) d = None /\
  field_ok field.
Proof.
  unfold add_field. intros H. inv_ok. bool_hyps.
  apply Budget_identity_ok in E as [Hb1 _].
  assert (charged a b') as Hb2.
  { destruct (f_unit field); [by apply Budget_identity_ok in E0 as [? _]|inv_ok; reflexivity]. }
  split_and!; [by etrans|done| |split].
  - unfold bm_contains in *. by destruct (bm_get _ d).
  - by destruct (f_operations field).
  - intros op Hop. rewrite existsb_false_iff in *. apply negb_false_iff. auto.
Qed.
Lemma length_bm_insert_le {V} (k : rstr) (v : V) d : (length (bm_insert k v d) <= S (length d))%nat.
Proof. induction d as [|[k' v'] d IH]; simpl; [lia|]. destruct (cmp k k'); simpl; lia. Qed.
Lemma add_fields_ok fields b d b' d' :
  bm_wf d -> (forall k f, bm_get k d = Some f -> f_key f = k /\ field_ok f) ->
  res_for add_field fields (b, d) = Ok (b', d') ->
  charged b b' /\ bm_wf d' /\ (forall k f, bm_get k d' = Some f -> f_key f = k /\ field_ok f) /\
  (length d' <= length d + length fields)%nat.
Proof.
  revert b d. induction fields as [|field fields IH]; intros b d Hwf Hok H; cbn [res_for] in H; inv_ok.
  - split_and!; [reflexivity|done..|simpl; lia].
  - destruct a as [b1 d1]. apply add_field_ok in E as (Hb & -> & Hnone & Hf).
    apply IH in H as (Hb' & Hwf' & Hok' & Hlen).
    + split_and!; [by etrans|done|done|].
      pose proof (length_bm_insert_le (f_key field) field d). simpl. lia.
    + by apply bm_insert_wf.
    + intros k f. rewrite bm_get_insert. destruct (eqb k (f_key field)) eqn:Ek; [|apply Hok].
      apply eqb_true in Ek as ->. by intros [= <-].
Qed.
Lemma Rule_new_wf tenant version dv fields c r :
  Rule_new tenant version dv fields c = Ok r -> Rule_wf r /\ rule_criteria r = c.
Proof.
  unfold Rule_new. intros H. inv_ok. destruct a2 as [b d]. inv_ok. destruct a2 as [required b'].
  inv_ok. apply add_fields_ok in E2 as (_ & Hwf & Hok & Hlen); [|constructor|done].
  apply validate_ok in E3 as (_ & -> & Ht). apply LimitKind_check_ok in E1.
  split; [|done]. split; simpl; try done. unfold zlen in *. simpl in *. lia.
Qed.

(** The groups a rule names, as the set of its membership leaves. *)
Lemma collect_groups_ok c out :
  collect_groups c out = foldl (fun s x => bs_insert x s) out (membership_groups c).
Proof.
  revert c out. unfold membership_groups.
  assert (forall cs, (forall c, c ∈ cs -> forall out, collect_groups c out =
      foldl (fun s x => bs_insert x s) out
        (omap (fun n => match n with NMembership g _ => Some g | _ => None end) (leaf_nodes c))) ->
    forall out, foldl (fun out c => collect_groups c out) out cs =
      foldl (fun s x => bs_insert x s) out
        (omap (fun n => match n with NMembership g _ => Some g | _ => None end)
           (concat (map leaf_nodes cs)))) as Hloop.
  { induction cs as [|c cs IHcs]; intros IH out; [done|]. simpl.
    rewrite omap_app, foldl_app, IH by left. apply IHcs. intros; apply IH; by right. }
  intros c. induction c as [n k d Hn|cs k d IH|cs k d IH] using Criteria_tree_ind; intros out.
  - destruct n as [p|g ng|[]|[]]; done.
  - by apply Hloop.
  - by apply Hloop.
Qed.
Lemma Rule_groups_eq r : Rule_groups r = bs_of_list (membership_groups (rule_criteria r)).
Proof. unfold Rule_groups, bs_of_list. apply collect_groups_ok. Qed.
End RuleLaws.
