(* ===== verification/GroupEvaluation.v ===== *)
(** * Group rules: page evaluation ([crates/group/src/evaluation.rs])

    The three-valued evaluator over one bounded page of a frozen universe.  An
    indexing or [unreachable!] that Rust would abort on is [Panic]. *)
From S2P Require Import Prelude Ordered Text External Kleene GroupModel GroupRule.

(** ** Outcomes *)
Inductive Decision : Type := Match | NoMatch | Unknown.
Inductive UnknownReason : Type := UNull | UMissing | UDeleted | UUnsupported | UConflict.
Inductive Outcome : Type := OMatch | ONoMatch | OUnknown (reason : UnknownReason).
#[export] Instance Decision_eq_dec : EqDecision Decision.
Proof. solve_decision. Defined.
#[export] Instance UnknownReason_eq_dec : EqDecision UnknownReason.
Proof. solve_decision. Defined.
#[export] Instance Outcome_eq_dec : EqDecision Outcome.
Proof. solve_decision. Defined.

Definition Outcome_decision (o : Outcome) : Decision :=
  match o with OMatch => Match | ONoMatch => NoMatch | OUnknown _ => Unknown end.
Definition Outcome_from_bool (value : bool) : Outcome := if value then OMatch else ONoMatch.

#[export] Program Instance Decision_three_valued : ThreeValued Decision := {|
  to_k3 d := match d with Match => KTrue | NoMatch => KFalse | Unknown => KUnknown end;
  of_k3 a := match a with KTrue => Match | KFalse => NoMatch | KUnknown => Unknown end
|}.
Next Obligation. by intros []. Qed.
Next Obligation. by intros []. Qed.

Record Explanation : Type := mk_Explanation { exp_path : list nat; exp_outcome : Outcome }.

Section Evaluation.
Context `{RC : RequestContext} `{CT : Contract} `{OF : OrderedFloat}.

Record Provenance : Type := mk_Provenance {
  prov_source : rstr; prov_snapshot_id : rstr; prov_observed_at : Timepoint
}.
Record ContextEvaluation : Type := mk_ContextEvaluation {
  ctx_decision : Decision; ctx_explanations : list Explanation;
  ctx_provenance : list (rstr * Provenance)
}.
Record ObjectEvaluation : Type := mk_ObjectEvaluation {
  obj_key : ObjectKey; obj_decision : Decision; obj_contexts : list (rstr * ContextEvaluation)
}.
Record PageEvaluation : Type := mk_PageEvaluation {
  page_coverage : list rstr; page_tenant : TenantId; page_rule_version : rstr;
  page_dictionary_version : rstr; page_snapshot_id : rstr; page_snapshot_version : rstr;
  page_as_of : Timepoint; page_objects : list ObjectEvaluation
}.
Record ObjectSnapshot : Type := mk_ObjectSnapshot {
  snap_key : ObjectKey; snap_memberships : list (rstr * Outcome);
  snap_quantifier : Quantifier; snap_complete : bool;
  snap_contexts : list (rstr * list (rstr * Fact))
}.
Definition ObjectSnapshot_single (key : ObjectKey) (facts : list (rstr * Fact)) : ObjectSnapshot :=
  mk_ObjectSnapshot key [] QOne true [(lit "default", facts)].
Record PageInput : Type := mk_PageInput {
  in_tenant : TenantId; in_id : rstr; in_version : rstr; in_dictionary_version : rstr;
  in_coverage : list rstr; in_objects : list ObjectSnapshot; in_after : option ObjectKey
}.

(** ** Predicates *)
Definition compare_values (value operand : Value) (op : Op) : gres bool :=
  match value, operand, op with
  | VScalar a, VScalar b, OpEq => Ok (bool_decide (a = b))
  | VScalar a, VScalar b, OpNe => Ok (negb (bool_decide (a = b)))
  | VScalar a, VScalar b, OpLt => Ok (ltb a b)
  | VScalar a, VScalar b, OpLe => Ok (leb a b)
  | VScalar a, VScalar b, OpGt => Ok (ltb b a)
  | VScalar a, VScalar b, OpGe => Ok (leb b a)
  | VScalar a, VSet _ values, (OpIn | OpNotIn) =>
      Ok (Bool.eqb (bs_mem a values) (bool_decide (op = OpIn)))
  | VScalar (SString a), VScalar (SString b), (OpContains | OpNotContains) =>
      Ok (Bool.eqb (str_contains a b) (bool_decide (op = OpContains)))
  | VSet _ a, VSet _ b, OpContainsAny => Ok (negb (bs_disjoint a b))
  | VSet _ a, VSet _ b, OpContainsAll => Ok (bs_subset b a)
  | _, _, _ => Panic
  end.
Definition predicate (fact : option Fact) (op : Op) (operand : option Value)
    (_now : Timepoint) : gres Outcome :=
  match fact with
  | None => Ok (OUnknown UMissing)
  | Some fact =>
    match fact_state fact with
    | Missing => Ok (OUnknown UMissing)
    | Deleted => Ok (OUnknown UDeleted)
    | Conflict => Ok (OUnknown UConflict)
    | Unsupported => Ok (OUnknown UUnsupported)
    | Denied => Panic
    | state =>
      let null := match state with Null => true | _ => false end in
      if bool_decide (op = OpIsNull) then Ok (Outcome_from_bool null)
      else if bool_decide (op = OpIsNotNull) then Ok (Outcome_from_bool (negb null))
      else match state with
           | Known value =>
               operand ← or_panic operand;
               result ← compare_values value operand op;
               Ok (Outcome_from_bool result)
           | _ => Ok (OUnknown UNull)
           end
    end
  end.

Fixpoint leaf_count (c : Criteria) : Z :=
  match c with
  | mk_Criteria (NAnd children) _ _ | mk_Criteria (NOr children) _ _ =>
      foldr Z.add 0 (map leaf_count children)
  | _ => 1
  end.

(** ** Trees *)
Definition negate_membership (o : Outcome) (negated : bool) : Outcome :=
  match o, negated with
  | OMatch, true => ONoMatch
  | ONoMatch, true => OMatch
  | value, _ => value
  end.
Definition decisive (and : bool) : Decision := if and then NoMatch else Match.
Definition combine (and : bool) (result value : Decision) : Decision :=
  if bool_decide (value = decisive and)
     || bool_decide (value = Unknown) && negb (bool_decide (result = decisive and))
  then value else result.
(** The loop over the children of one branch, with [enumerate]'s index. *)
Fixpoint evaluate_children
    (evaluate : Criteria -> list nat -> list Explanation -> gres (Decision * list Explanation))
    (and : bool) (path : list nat) (i : nat) (children : list Criteria)
    (result : Decision) (out : list Explanation) : gres (Decision * list Explanation) :=
  match children with
  | [] => Ok (result, out)
  | child :: children =>
      '(value, out) ← evaluate child (path ++ [i]) out;
      evaluate_children evaluate and path (S i) children (combine and result value) out
  end.
Fixpoint evaluate_node (c : Criteria) (facts : list (rstr * Fact))
    (memberships : list (rstr * Outcome)) (now : Timepoint) (path : list nat)
    (out : list Explanation) : gres (Decision * list Explanation) :=
  match c with
  | mk_Criteria (NMembership group negated) _ _ =>
      member ← or_panic (bm_get group memberships);
      let outcome := negate_membership member negated in
      Ok (Outcome_decision outcome, out ++ [mk_Explanation path outcome])
  | mk_Criteria (NPredicate p) _ _ =>
      outcome ← predicate (bm_get (p_field p) facts) (p_op p)
                  (operand_value <$> p_operand p) now;
      Ok (Outcome_decision outcome, out ++ [mk_Explanation path outcome])
  | mk_Criteria (NAnd children) _ _ =>
      evaluate_children (fun c path out => evaluate_node c facts memberships now path out)
        true path 0 children Match out
  | mk_Criteria (NOr children) _ _ =>
      evaluate_children (fun c path out => evaluate_node c facts memberships now path out)
        false path 0 children NoMatch out
  end.

(** ** Pages *)
Definition check_fact (r : Rule) (coverage : list rstr) (budget : Budget)
    (entry : rstr * Fact) : gres Budget :=
  let '(key, fact) := entry in
  budget ← Budget_identity budget key;
  field ← ok_or (bm_get key (rule_fields r)) UnknownField;
  _ ← reject (negb (bs_mem key coverage)) InvalidStructure;
  budget ← Budget_identity budget (fact_source fact);
  budget ← Budget_identity budget (fact_snapshot_id fact);
  match fact_state fact with
  | Known value =>
      budget ← Value_validate budget value;
      _ ← reject (negb (bool_decide (Value_kind value = f_kind field))) InvalidType;
      Ok budget
  | Null => if f_nullable field then Ok budget else Err InvalidType
  | Denied => Err PermissionDenied
  | _ => Ok budget
  end.
Definition provenance_of (r : Rule) (facts : list (rstr * Fact)) : list (rstr * Provenance) :=
  foldl (fun m key =>
    match bm_get key facts with
    | Some f => bm_insert key (mk_Provenance (fact_source f) (fact_snapshot_id f)
                                 (fact_observed_at f)) m
    | None => m
    end) [] (rule_required r).
Definition evaluate_context (r : Rule) (coverage : list rstr)
    (memberships : list (rstr * Outcome)) (as_of : Timepoint)
    (s : Budget * list (rstr * ContextEvaluation)) (context : rstr * list (rstr * Fact))
    : gres (Budget * list (rstr * ContextEvaluation)) :=
  let '(budget, contexts) := s in
  let '(id, facts) := context in
  budget ← Budget_identity budget id;
  _ ← LimitKind_check Fields (zlen facts);
  budget ← res_for (check_fact r coverage) facts budget;
  _ ← reject (negb (forallb (fun key => bm_contains key facts) coverage)) IncompleteSnapshot;
  '(decision, explanations) ← evaluate_node (rule_criteria r) facts memberships as_of [] [];
  Ok (budget, bm_insert id (mk_ContextEvaluation decision explanations
                              (provenance_of r facts)) contexts).
Definition quantify (q : Quantifier) (complete : bool)
    (contexts : list (rstr * ContextEvaluation)) : gres Decision :=
  let decisions := map ctx_decision (bm_values contexts) in
  let any := existsb (fun d => bool_decide (d = Match)) decisions in
  let no := existsb (fun d => bool_decide (d = NoMatch)) decisions in
  let unknown := negb complete || is_empty contexts
                 || existsb (fun d => bool_decide (d = Unknown)) decisions in
  match q with
  | QOne => ok_or (head decisions) InvalidStructure
  | QAny => if any then Ok Match else if unknown then Ok Unknown else Ok NoMatch
  | QAll => if no then Ok NoMatch else if unknown then Ok Unknown else Ok Match
  end.
Definition evaluate_object (r : Rule) (s : PageInput) (as_of : Timepoint)
    (st : Budget * Z * list ObjectEvaluation) (object : ObjectSnapshot)
    : gres (Budget * Z * list ObjectEvaluation) :=
  let '(budget, context_count, objects) := st in
  let leaves := leaf_count (rule_criteria r) in
  _ ← reject (negb (bool_decide (key_tenant (snap_key object) = in_tenant s))) TenantMismatch;
  budget ← Budget_text budget (key_id (snap_key object));
  _ ← reject (negb (bool_decide (bs_of_list (bm_keys (snap_memberships object))
                                 = Rule_groups r))) IncompleteSnapshot;
  budget ← res_for Budget_identity (bm_keys (snap_memberships object)) budget;
  _ ← reject (bool_decide (snap_quantifier object = QOne)
              && (negb (zlen (snap_contexts object) =? 1) || negb (snap_complete object)))
        InvalidStructure;
  context_count ← ok_or (checked_u64 (context_count + zlen (snap_contexts object)))
                    (LimitExceeded Visits);
  _ ← LimitKind_product Visits context_count (c_count (rule_criteria r));
  _ ← LimitKind_product Explanations context_count leaves;
  '(budget, contexts) ←
    res_for (evaluate_context r (in_coverage s) (snap_memberships object) as_of)
      (snap_contexts object) (budget, []);
  decision ← quantify (snap_quantifier object) (snap_complete object) contexts;
  Ok (budget, context_count,
      objects ++ [mk_ObjectEvaluation (snap_key object) decision contexts]).
Definition check_coverage (r : Rule) (budget : Budget) (key : rstr) : gres Budget :=
  budget ← Budget_identity budget key;
  _ ← reject (negb (bm_contains key (rule_fields r))) UnknownField;
  Ok budget.
Definition evaluate_input (r : Rule) (s : PageInput) (as_of : Timepoint) (budget : Budget)
    : gres PageEvaluation :=
  _ ← reject (negb (bool_decide (rule_tenant r = in_tenant s))) TenantMismatch;
  budget ← Budget_identity budget (in_id s);
  budget ← Budget_input_version budget (in_version s);
  budget ← Budget_identity budget (in_dictionary_version s);
  _ ← reject (negb (bool_decide (in_dictionary_version s = rule_dictionary_version r)))
        VersionMismatch;
  _ ← LimitKind_check Fields (zlen (in_coverage s));
  budget ← res_for (check_coverage r) (in_coverage s) budget;
  _ ← LimitKind_check Objects (zlen (in_objects s));
  '(_, _, objects) ← res_for (evaluate_object r s as_of) (in_objects s) (budget, 0, []);
  Ok (mk_PageEvaluation (in_coverage s) (in_tenant s) (rule_version r)
        (rule_dictionary_version r) (in_id s) (in_version s) as_of objects).
Definition check_order (previous : option ObjectKey) (object : ObjectSnapshot)
    : gres (option ObjectKey) :=
  _ ← reject (match previous with
              | Some key => leb (snap_key object) key
              | None => false
              end) InvalidStructure;
  Ok (Some (snap_key object)).
Definition evaluate_page (r : Rule) (snapshot : PageInput) (as_of : Timepoint)
    : gres PageEvaluation :=
  _ ← LimitKind_check Objects (zlen (in_objects snapshot));
  _ ← reject (negb (bs_subset (rule_required r) (in_coverage snapshot))) IncompleteSnapshot;
  _ ← reject (match in_after snapshot with
              | Some key => negb (bool_decide (key_tenant key = rule_tenant r))
              | None => false
              end) TenantMismatch;
  _ ← res_for check_order (in_objects snapshot) (in_after snapshot);
  evaluate_input r snapshot as_of (Budget_new BatchBytes).
End Evaluation.
