(* ===== verification/GroupSpec.v ===== *)
(** * Group rules: specification and correctness

    The evaluator against strong Kleene logic: decisions, explanations, absence of
    panics, monotonicity in the evidence, quantifiers and page order. *)
From S2P Require Import Prelude Ordered Text External Kleene GroupModel GroupRule GroupEvaluation.

(** ** Reference semantics *)
Section Spec.
Context `{RC : RequestContext} `{CT : Contract} `{OF : OrderedFloat}.

Definition leaf_outcome (facts : list (rstr * Fact)) (memberships : list (rstr * Outcome))
    (now : Timepoint) (n : Node) : gres Outcome :=
  match n with
  | NMembership group negated =>
      member ← or_panic (bm_get group memberships); Ok (negate_membership member negated)
  | NPredicate p =>
      predicate (bm_get (p_field p) facts) (p_op p) (operand_value <$> p_operand p) now
  | _ => Panic
  end.
Definition outcome_or_unknown (o : gres Outcome) : Outcome :=
  match o with Ok o => o | _ => OUnknown UMissing end.
Definition outcome_k3 (o : Outcome) : k3 := to_k3 (Outcome_decision o).

(** The value of a tree in strong Kleene logic. *)
Fixpoint tree_k3 (v : Node -> k3) (c : Criteria) : k3 :=
  match c with
  | mk_Criteria (NAnd cs) _ _ => k_all (map (tree_k3 v) cs)
  | mk_Criteria (NOr cs) _ _ => k_any (map (tree_k3 v) cs)
  | mk_Criteria n _ _ => v n
  end.
(** The leaves with their child-index paths, in evaluation order. *)
Fixpoint branch_paths (i : nat) (ls : list (list (list nat * Node))) : list (list nat * Node) :=
  match ls with
  | [] => []
  | l :: ls => map (fun e => (i :: e.1, e.2)) l ++ branch_paths (S i) ls
  end.
Fixpoint leaf_paths (c : Criteria) : list (list nat * Node) :=
  match c with
  | mk_Criteria (NAnd cs) _ _ | mk_Criteria (NOr cs) _ _ => branch_paths 0 (map leaf_paths cs)
  | mk_Criteria n _ _ => [([], n)]
  end.
Definition explain (v : Node -> Outcome) (path : list nat) (e : list nat * Node) : Explanation :=
  mk_Explanation (path ++ e.1) (v e.2).

Definition fact_ok (r : Rule) (coverage : list rstr) (key : rstr) (fact : Fact) : Prop :=
  key ∈ coverage /\ exists field, bm_get key (rule_fields r) = Some field /\
    match fact_state fact with
    | Known value => Value_kind value = f_kind field /\ Value_wf value
    | Null => f_nullable field = true
    | Denied => False
    | _ => True
    end.
Definition facts_ok (r : Rule) (coverage : list rstr) (facts : list (rstr * Fact)) : Prop :=
  forall key fact, (key, fact) ∈ facts -> fact_ok r coverage key fact.
Definition memberships_ok (r : Rule) (memberships : list (rstr * Outcome)) : Prop :=
  forall group, group ∈ Rule_groups r -> is_Some (bm_get group memberships).

(** The quantifier over contexts: an incomplete or empty enumeration counts as one
    more undecided context. *)
Definition quantified (q : Quantifier) (complete : bool) (ds : list Decision) : k3 :=
  let missing := if complete && negb (is_empty ds) then [] else [KUnknown] in
  match q with
  | QOne => match ds with d :: _ => to_k3 d | [] => KUnknown end
  | QAny => k_any (map to_k3 ds ++ missing)
  | QAll => k_all (map to_k3 ds ++ missing)
  end.
End Spec.

Section TreeLaws.
Context `{RC : RequestContext} `{CT : Contract} `{OF : OrderedFloat}.

Lemma combine_k3 and result value :
  to_k3 (combine and result value) =
  (if and then k_and else k_or) (to_k3 result) (to_k3 value).
Proof. by destruct and, result, value. Qed.

(** ** Paths *)
Lemma branch_paths_nodes (cs : list Criteria) i :
  (forall c, c ∈ cs -> map snd (leaf_paths c) = leaf_nodes c) ->
  map snd (branch_paths i (map leaf_paths cs)) = concat (map leaf_nodes cs).
Proof.
  revert i. induction cs as [|c cs IH]; intros i H; simpl; [done|].
  rewrite map_app, map_map, IH by (intros; apply H; by right). f_equal.
  rewrite <-(H c) by left. by apply map_ext.
Qed.
Lemma leaf_paths_nodes (c : Criteria) : map snd (leaf_paths c) = leaf_nodes c.
Proof.
  induction c as [n k d Hn|cs k d IH|cs k d IH] using Criteria_tree_ind;
    [by destruct n as [| |[]|[]]|by apply branch_paths_nodes..].
Qed.
Lemma elem_of_branch_paths i ls p (n : Node) :
  (p, n) ∈ branch_paths i ls <->
  exists j q l, p = (i + j)%nat :: q /\ ls !! j = Some l /\ (q, n) ∈ l.
Proof.
  revert i. induction ls as [|l ls IH]; intros i; simpl.
  { split; [intros H; inversion H|naive_solver]. }
  rewrite elem_of_app, IH, elem_of_map. split.
  - intros [([q m] & [= <- <-] & Hin)|(j & q & l' & -> & Hj & Hin)].
    + exists 0%nat, q, l. by rewrite Nat.add_0_r.
    + exists (S j), q, l'. rewrite Nat.add_succ_r. done.
  - intros ([|j] & q & l' & -> & Hj & Hin); simpl in Hj.
    + injection Hj as ->. left. exists (q, n). by rewrite Nat.add_0_r.
    + right. exists j, q, l'. rewrite Nat.add_succ_r. done.
Qed.
Lemma leaf_paths_resolve (c : Criteria) p n :
  (p, n) ∈ leaf_paths c -> exists c', node_at c p = Some c' /\ c_node c' = n.
Proof.
  revert p. induction c as [n' k d Hn|cs k d IH|cs k d IH] using Criteria_tree_ind; intros p Hp.
  - destruct n' as [| |[]|[]]; simpl in *; try done;
      try (apply list_elem_of_singleton in Hp as [= -> ->]; by eexists);
      inversion Hp.
  - apply elem_of_branch_paths in Hp as (j & q & l & -> & Hj & Hin).
    rewrite list_lookup_fmap in Hj. destruct (cs !! j) as [c|] eqn:Hc; [|done].
    injection Hj as <-. cbn [node_at c_node]. simpl. rewrite Hc.
    eapply IH; [by eapply list_elem_of_lookup_2|done].
  - apply elem_of_branch_paths in Hp as (j & q & l & -> & Hj & Hin).
    rewrite list_lookup_fmap in Hj. destruct (cs !! j) as [c|] eqn:Hc; [|done].
    injection Hj as <-. cbn [node_at c_node]. simpl. rewrite Hc.
    eapply IH; [by eapply list_elem_of_lookup_2|done].
Qed.
Lemma node_at_leaf (c c' : Criteria) p path :
  node_at c path = Some c' -> c_node c' = NPredicate p -> NPredicate p ∈ leaf_nodes c.
Proof.
  revert path. induction c as [n k d Hn|cs k d IH|cs k d IH] using Criteria_tree_ind;
    intros [|j path] H Hp; cbn [node_at c_node] in H; try (injection H as <-; simpl in Hp; subst n; left);
    try (by injection H as <-).
  - by destruct n as [| |[]|[]].
  - simpl. destruct (cs !! j) as [c|] eqn:Hj; [|done]. apply list_elem_of_lookup_2 in Hj.
    apply elem_of_concat. exists (leaf_nodes c). rewrite elem_of_map. eauto.
  - simpl. destruct (cs !! j) as [c|] eqn:Hj; [|done]. apply list_elem_of_lookup_2 in Hj.
    apply elem_of_concat. exists (leaf_nodes c). rewrite elem_of_map. eauto.
Qed.
Lemma branch_paths_nodup (ls : list (list (list nat * Node))) i :
  (forall l, l ∈ ls -> NoDup (map fst l)) -> NoDup (map fst (branch_paths i ls)).
Proof.
  revert i. induction ls as [|l ls IH]; intros i H; simpl; [constructor|].
  rewrite map_app, map_map. simpl. apply NoDup_app. split_and!.
  - rewrite <-(map_map fst (fun p => i :: p)). apply NoDup_fmap_2; [by intros ?? [= ->]|].
    apply H. left.
  - intros p Hp Hp'. apply elem_of_map in Hp as (e & <- & _).
    apply elem_of_map in Hp' as ([q n] & Hq & Hin). simpl in Hq. subst q.
    apply elem_of_branch_paths in Hin as (j & q & l' & [= Hj _] & _). lia.
  - apply IH. intros; apply H; by right.
Qed.
Lemma leaf_paths_nodup (c : Criteria) : NoDup (map fst (leaf_paths c)).
Proof.
  induction c as [n k d Hn|cs k d IH|cs k d IH] using Criteria_tree_ind.
  - destruct n as [| |[]|[]]; simpl; try done; try apply NoDup_singleton; constructor.
  - apply branch_paths_nodup. intros l (c & <- & Hc)%elem_of_map. by apply IH.
  - apply branch_paths_nodup. intros l (c & <- & Hc)%elem_of_map. by apply IH.
Qed.
Lemma leaf_count_paths (c : Criteria) : leaf_count c = zlen (leaf_paths c).
Proof.
  assert (zlen (leaf_paths c) = zlen (leaf_nodes c)) as ->
    by (unfold zlen; by rewrite <-leaf_paths_nodes, length_map).
  assert (forall cs : list Criteria, (forall c, c ∈ cs -> leaf_count c = zlen (leaf_nodes c)) ->
    foldr Z.add 0 (map leaf_count cs) = zlen (concat (map leaf_nodes cs))) as Hsum.
  { induction cs as [|c' cs IH]; intros H; [done|]. simpl.
    rewrite zlen_app, IH, (H c') by set_solver. done. }
  induction c as [n k d Hn|cs k d IH|cs k d IH] using Criteria_tree_ind;
    [by destruct n as [| |[]|[]]|by apply Hsum..].
Qed.

(** ** Total correctness of the evaluator on a tree whose leaves evaluate *)
Section Evaluate.
Context (facts : list (rstr * Fact)) (memberships : list (rstr * Outcome)) (now : Timepoint).
Let value n := outcome_or_unknown (leaf_outcome facts memberships now n).
Let eval := fun (c : Criteria) path out => evaluate_node c facts memberships now path out.
Let correct c := forall path out,
  (forall n, n ∈ leaf_nodes c -> exists o, leaf_outcome facts memberships now n = Ok o) ->
  eval c path out =
    Ok (of_k3 (tree_k3 (fun n => outcome_k3 (value n)) c),
        out ++ map (explain value path) (leaf_paths c)).

Lemma evaluate_children_ok (and : bool) cs path i result out :
  (forall c, c ∈ cs -> correct c) ->
  (forall n, n ∈ concat (map leaf_nodes cs) -> exists o, leaf_outcome facts memberships now n = Ok o) ->
  evaluate_children eval and path i cs result out =
    Ok (of_k3 (foldl (if and then k_and else k_or) (to_k3 result)
                 (map (tree_k3 (fun n => outcome_k3 (value n))) cs)),
        out ++ map (explain value path) (branch_paths i (map leaf_paths cs))).
Proof.
  revert i result out. induction cs as [|c cs IH]; intros i result out Hc Hleaf; simpl.
  - by rewrite of_to_k3, app_nil_r.
  - rewrite (Hc c) by (left || intros; apply Hleaf; set_solver). simpl.
    rewrite IH by (intros; (apply Hc; by right) || (apply Hleaf; set_solver)).
    rewrite combine_k3, to_of_k3. f_equal. f_equal.
    rewrite map_app, map_map, app_assoc. f_equal. f_equal.
    apply map_ext. intros [p n]. unfold explain. simpl. by rewrite <-app_assoc.
Qed.
Lemma foldl_k_and l a : foldl k_and a l = k_and a (k_all l).
Proof.
  revert a. induction l as [|b l IH]; intros a; simpl; [by destruct a|]. by rewrite IH, k_and_assoc.
Qed.
Lemma foldl_k_or l a : foldl k_or a l = k_or a (k_any l).
Proof.
  revert a. induction l as [|b l IH]; intros a; simpl; [by destruct a|]. by rewrite IH, k_or_assoc.
Qed.
Lemma evaluate_node_ok c : correct c.
Proof.
  induction c as [n k d Hn|cs k d IH|cs k d IH] using Criteria_tree_ind; intros path out Hleaf.
  - destruct n as [p|g ng|[]|[]]; try done.
    + destruct (Hleaf (NPredicate p)) as [o Ho]; [left|].
      unfold eval. cbn [evaluate_node]. unfold value. simpl. unfold explain.
      simpl in *. rewrite Ho. simpl. unfold outcome_k3. by rewrite of_to_k3, app_nil_r.
    + destruct (Hleaf (NMembership g ng)) as [o Ho]; [left|].
      unfold eval. cbn [evaluate_node]. unfold value. simpl. unfold explain.
      simpl in *. destruct (bm_get g memberships); simpl in *; [|done]. injection Ho as ->.
      unfold outcome_k3. by rewrite of_to_k3, app_nil_r.
    + unfold eval. simpl. by rewrite app_nil_r.
    + unfold eval. simpl. by rewrite app_nil_r.
  - unfold eval. cbn [evaluate_node]. rewrite evaluate_children_ok by done.
    rewrite foldl_k_and. change (to_k3 Match) with KTrue. cbn [tree_k3]. by rewrite k_and_true_l.
  - unfold eval. cbn [evaluate_node]. rewrite evaluate_children_ok by done.
    rewrite foldl_k_or. change (to_k3 NoMatch) with KFalse. cbn [tree_k3]. by rewrite k_or_false_l.
Qed.
End Evaluate.

(** ** Typed leaves evaluate *)
Lemma compare_values_typed field op (v o : Value) :
  allows field op = true -> is_null_test op = false ->
  Value_kind v = f_kind field -> Value_kind o = expected_operand op (f_kind field) ->
  exists b, compare_values v o op = Ok b.
Proof.
  intros Hall Hnull Hv Ho. destruct op; simpl in *; try done;
    destruct (f_kind field) as [t|t]; try done;
    destruct v as [v|? ?], o as [o|? ?]; simpl in *; try done; try (by eexists).
  all: repeat match goal with x : Scalar |- _ => destruct x end; simpl in *;
    try (by eexists); bool_hyps; simplify_eq; by eexists.
Qed.
Lemma predicate_typed_ok r coverage facts p now :
  Rule_wf r -> facts_ok r coverage facts -> predicate_typed (rule_fields r) p ->
  exists o, predicate (bm_get (p_field p) facts) (p_op p) (operand_value <$> p_operand p) now = Ok o.
Proof.
  intros Hr Hf (field & Hfield & Hop & Hshape).
  unfold predicate. destruct (bm_get (p_field p) facts) as [fact|] eqn:Hfact; [|by eexists].
  apply bm_get_elem in Hfact. apply Hf in Hfact as (_ & field' & Hfield' & Hstate).
  rewrite Hfield in Hfield'. injection Hfield' as <-.
  destruct (rule_fields_ok _ Hr _ _ Hfield) as (_ & _ & Hallow). specialize (Hallow _ Hop).
  destruct (fact_state fact) as [v| | | | | |]; try done; try (by eexists).
  - destruct (bool_decide (p_op p = OpIsNull)) eqn:E1; [by eexists|].
    destruct (bool_decide (p_op p = OpIsNotNull)) eqn:E2; [by eexists|]. bool_hyps.
    assert (is_null_test (p_op p) = false) as Hn by by destruct (p_op p).
    rewrite Hn in Hshape. destruct Hshape as (o & -> & _ & Hk & _). destruct Hstate as [Hv _].
    simpl. destruct (compare_values_typed field (p_op p) v (operand_value o)) as [b ->]; try done.
    by eexists.
  - destruct (bool_decide (p_op p = OpIsNull)); [by eexists|].
    destruct (bool_decide (p_op p = OpIsNotNull)); by eexists.
Qed.
Lemma typed_leaves_ok r coverage facts memberships now n :
  Rule_wf r -> facts_ok r coverage facts -> memberships_ok r memberships ->
  n ∈ leaf_nodes (rule_criteria r) -> exists o, leaf_outcome facts memberships now n = Ok o.
Proof.
  intros Hr Hf Hm Hn. pose proof (rule_typed _ Hr _ Hn) as Ht.
  destruct n as [p|g ng|cs|cs]; simpl in *.
  - by eapply predicate_typed_ok.
  - destruct (Hm g) as [o Ho].
    { rewrite Rule_groups_eq. apply elem_of_bs_of_list. unfold membership_groups.
      apply list_elem_of_omap. by exists (NMembership g ng). }
    rewrite Ho. simpl. by eexists.
  - exfalso. assert (forall c, NAnd cs ∉ leaf_nodes c) as Hno; [|by eapply Hno].
    clear. intros c. induction c as [n k d Hn|cs' k d IH|cs' k d IH] using Criteria_tree_ind.
    + destruct n as [| |[]|[]]; simpl; set_solver.
    + simpl. intros (l & (c & <- & Hc)%elem_of_map & H)%elem_of_concat. by eapply IH.
    + simpl. intros (l & (c & <- & Hc)%elem_of_map & H)%elem_of_concat. by eapply IH.
  - exfalso. assert (forall c, NOr cs ∉ leaf_nodes c) as Hno; [|by eapply Hno].
    clear. intros c. induction c as [n k d Hn|cs' k d IH|cs' k d IH] using Criteria_tree_ind.
    + destruct n as [| |[]|[]]; simpl; set_solver.
    + simpl. intros (l & (c & <- & Hc)%elem_of_map & H)%elem_of_concat. by eapply IH.
    + simpl. intros (l & (c & <- & Hc)%elem_of_map & H)%elem_of_concat. by eapply IH.
Qed.
End TreeLaws.

(** ** Reference page: what a successful evaluation must return *)
Section Reference.
Context `{RC : RequestContext} `{CT : Contract} `{OF : OrderedFloat}.

Definition reference_value (facts : list (rstr * Fact)) (memberships : list (rstr * Outcome))
    (now : Timepoint) (n : Node) : Outcome :=
  outcome_or_unknown (leaf_outcome facts memberships now n).
Definition reference_context (r : Rule) (memberships : list (rstr * Outcome)) (now : Timepoint)
    (facts : list (rstr * Fact)) : ContextEvaluation :=
  let value := reference_value facts memberships now in
  mk_ContextEvaluation (of_k3 (tree_k3 (fun n => outcome_k3 (value n)) (rule_criteria r)))
    (map (explain value []) (leaf_paths (rule_criteria r))) (provenance_of r facts).
Definition reference_contexts (r : Rule) (now : Timepoint) (o : ObjectSnapshot)
    : list (rstr * ContextEvaluation) :=
  foldl (fun m e => bm_insert e.1 (reference_context r (snap_memberships o) now e.2) m)
    [] (snap_contexts o).
Definition reference_object (r : Rule) (now : Timepoint) (o : ObjectSnapshot) : ObjectEvaluation :=
  let contexts := reference_contexts r now o in
  mk_ObjectEvaluation (snap_key o)
    (of_k3 (quantified (snap_quantifier o) (snap_complete o)
              (map ctx_decision (bm_values contexts)))) contexts.
Definition reference_page (r : Rule) (s : PageInput) (now : Timepoint) : PageEvaluation :=
  mk_PageEvaluation (in_coverage s) (rule_tenant r) (rule_version r) (rule_dictionary_version r)
    (in_id s) (in_version s) now (map (reference_object r now) (in_objects s)).

Lemma check_fact_ok r coverage b key fact b' :
  check_fact r coverage b (key, fact) = Ok b' ->
  charged b b' /\ fact_ok r coverage key fact.
Proof.
  unfold check_fact, fact_ok. intros H. inv_ok. bool_hyps.
  apply Budget_identity_ok in E as [Hb1 _], E2 as [Hb2 _], E3 as [Hb3 _].
  rewrite bs_mem_iff in *. rewrite E0.
  assert (forall b'', charged a3 b'' -> charged b b'') as Hb
    by (intros b'' Hb3'; by rewrite Hb1, Hb2, Hb3).
  destruct (fact_state fact) as [v| | | | | |]; inv_ok; bool_hyps; try (split; [by apply Hb|by eauto]).
  - apply Value_validate_ok in E as [Hb4 Hwf]. split; [by apply Hb|]. by eauto.
  - destruct (f_nullable a0) eqn:Hn; [|done]. inv_ok. split; [by apply Hb|by eauto].
Qed.
Lemma check_facts_ok r coverage facts b b' :
  res_for (check_fact r coverage) facts b = Ok b' ->
  charged b b' /\ facts_ok r coverage facts.
Proof.
  revert b. induction facts as [|[key fact] facts IH]; intros b H; cbn [res_for] in H; inv_ok.
  - split; [reflexivity|]. intros k f Hin. inversion Hin.
  - apply check_fact_ok in E as [Hb1 Hf]. apply IH in H as [Hb2 Hfs].
    split; [by etrans|]. intros k f [[= -> ->]|Hin]%elem_of_cons; auto.
Qed.
Lemma check_facts_no_panic r coverage facts b : no_panic (res_for (check_fact r coverage) facts b).
Proof.
  apply (res_for_no_panic _ (fun _ => True)); [|done..]. intros b0 [key fact] _ _.
  unfold check_fact. repeat (apply bind_no_panic; [auto with rust|intros]).
  destruct (fact_state fact); try done; [|by destruct (f_nullable _)].
  repeat (apply bind_no_panic; [auto with rust|intros]). done.
Qed.

Lemma evaluate_typed r coverage facts memberships now :
  Rule_wf r -> facts_ok r coverage facts -> memberships_ok r memberships ->
  evaluate_node (rule_criteria r) facts memberships now [] [] =
    Ok (ctx_decision (reference_context r memberships now facts),
        ctx_explanations (reference_context r memberships now facts)).
Proof.
  intros Hr Hf Hm. rewrite evaluate_node_ok; [done|]. intros n Hn. by eapply typed_leaves_ok.
Qed.
Lemma evaluate_context_ok r coverage memberships now b m id facts b' m' :
  Rule_wf r -> memberships_ok r memberships ->
  evaluate_context r coverage memberships now (b, m) (id, facts) = Ok (b', m') ->
  m' = bm_insert id (reference_context r memberships now facts) m.
Proof.
  intros Hr Hm H. unfold evaluate_context in H. inv_ok.
  apply check_facts_ok in E1 as [_ Hf].
  rewrite (evaluate_typed r coverage) in E3 by done. inv_ok. done.
Qed.
Lemma evaluate_context_no_panic r coverage memberships now s c :
  Rule_wf r -> memberships_ok r memberships ->
  no_panic (evaluate_context r coverage memberships now s c).
Proof.
  intros Hr Hm. destruct s as [b m], c as [id facts]. unfold evaluate_context.
  apply bind_no_panic; [auto with rust|intros b1 _].
  apply bind_no_panic; [auto with rust|intros _ _].
  apply bind_no_panic; [apply check_facts_no_panic|intros b2 Hf].
  apply check_facts_ok in Hf as [_ Hf].
  apply bind_no_panic; [auto with rust|intros _ _].
  by rewrite (evaluate_typed r coverage) by done.
Qed.
Lemma evaluate_contexts_ok r coverage memberships now cs b m b' m' :
  Rule_wf r -> memberships_ok r memberships ->
  res_for (evaluate_context r coverage memberships now) cs (b, m) = Ok (b', m') ->
  m' = foldl (fun m e => bm_insert e.1 (reference_context r memberships now e.2) m) m cs.
Proof.
  intros Hr Hm. revert b m. induction cs as [|[id facts] cs IH]; intros b m H;
    cbn [res_for] in H; inv_ok; [done|].
  destruct a as [b1 m1]. apply evaluate_context_ok in E as ->; [|done..]. by apply IH in H.
Qed.

Lemma quantify_spec q complete (m : list (rstr * ContextEvaluation)) d :
  quantify q complete m = Ok d -> d = of_k3 (quantified q complete (map ctx_decision (bm_values m))).
Proof.
  unfold quantify, quantified, bm_values. intros H.
  assert (is_empty (map ctx_decision (map snd m)) = is_empty m) as -> by by destruct m.
  revert H. generalize (map ctx_decision (map snd m)) as ds. intros ds.
  assert (forall v, existsb (fun d => bool_decide (d = v)) ds = true <-> v ∈ ds) as Hex.
  { intros v. rewrite existsb_true_iff. setoid_rewrite bool_decide_eq_true. naive_solver. }
  assert (forall v, to_k3 v ∈ map to_k3 ds <-> v ∈ ds) as Hin.
  { intros v. rewrite elem_of_map. split; [intros (? & Heq & ?)|eauto]. by apply (inj to_k3) in Heq as ->. }
  set (missing := if complete && negb (is_empty m) then [] else [KUnknown]).
  assert (KUnknown ∈ missing <-> negb complete || is_empty m = true) as Hmiss.
  { unfold missing. destruct complete, (is_empty m); simpl; set_solver. }
  assert (forall v, v ∈ missing -> v = KUnknown) as Hmiss'.
  { unfold missing. destruct (_ && _); set_solver. }
  assert (forall k l, (k_any l = KTrue <-> KTrue ∈ l) /\ k = k_any l -> True) as _ by done.
  destruct q.
  - destruct ds; simpl; [done|]. intros [= ->]. by rewrite of_to_k3.
  - intros H. apply (inj to_k3). rewrite to_of_k3.
    destruct (existsb (fun d => bool_decide (d = Match)) ds) eqn:Ha.
    { inv_ok. apply Hex, Hin in Ha. symmetry. apply k_any_true. set_solver. }
    assert (k_any (map to_k3 ds ++ missing) <> KTrue) as Hnt.
    { rewrite k_any_true, elem_of_app. intros [Hm|Hm]; [|by apply Hmiss' in Hm].
      apply (Hin Match), Hex in Hm. congruence. }
    destruct (negb complete || is_empty m || existsb (fun d => bool_decide (d = Unknown)) ds) eqn:Hu;
      inv_ok.
    + destruct (k_any (map to_k3 ds ++ missing)) eqn:Hk; [done|done|].
      rewrite k_any_false in Hk. apply orb_true_iff in Hu as [Hu|Hu].
      * apply Hmiss in Hu. discriminate (Hk KUnknown ltac:(set_solver)).
      * apply Hex, Hin in Hu. discriminate (Hk KUnknown ltac:(set_solver)).
    + apply orb_false_iff in Hu as [Hu1 Hu2]. symmetry. apply k_any_false.
      intros v [Hv|Hv]%elem_of_app.
      * apply elem_of_map in Hv as ([] & <- & Hv); [|done|]; apply Hex in Hv; congruence.
      * pose proof (Hmiss' _ Hv) as ->. apply Hmiss in Hv. congruence.
  - intros H. apply (inj to_k3). rewrite to_of_k3.
    destruct (existsb (fun d => bool_decide (d = NoMatch)) ds) eqn:Ha.
    { inv_ok. apply Hex, Hin in Ha. symmetry. apply k_all_false. set_solver. }
    assert (k_all (map to_k3 ds ++ missing) <> KFalse) as Hnt.
    { rewrite k_all_false, elem_of_app. intros [Hm|Hm]; [|by apply Hmiss' in Hm].
      apply (Hin NoMatch), Hex in Hm. congruence. }
    destruct (negb complete || is_empty m || existsb (fun d => bool_decide (d = Unknown)) ds) eqn:Hu;
      inv_ok.
    + destruct (k_all (map to_k3 ds ++ missing)) eqn:Hk; [|done|done].
      rewrite k_all_true in Hk. apply orb_true_iff in Hu as [Hu|Hu].
      * apply Hmiss in Hu. discriminate (Hk KUnknown ltac:(set_solver)).
      * apply Hex, Hin in Hu. discriminate (Hk KUnknown ltac:(set_solver)).
    + apply orb_false_iff in Hu as [Hu1 Hu2]. symmetry. apply k_all_true.
      intros v [Hv|Hv]%elem_of_app.
      * apply elem_of_map in Hv as ([] & <- & Hv); [done| |]; apply Hex in Hv; congruence.
      * pose proof (Hmiss' _ Hv) as ->. apply Hmiss in Hv. congruence.
Qed.

Lemma memberships_checked r (memberships : list (rstr * Outcome)) :
  bs_of_list (bm_keys memberships) = Rule_groups r -> memberships_ok r memberships.
Proof. intros Heq g Hg. rewrite <-Heq, elem_of_bs_of_list in Hg. by apply bm_get_keys. Qed.
Lemma evaluate_object_ok r s now b n objs o b' n' objs' :
  Rule_wf r -> evaluate_object r s now (b, n, objs) o = Ok (b', n', objs') ->
  objs' = objs ++ [reference_object r now o] /\
  key_tenant (snap_key o) = in_tenant s /\
  n' = n + zlen (snap_contexts o) /\ 0 <= n' * leaf_count (rule_criteria r) <= limits.EXPLANATIONS /\
  0 <= n' * c_count (rule_criteria r) <= limits.VISITS.
Proof.
  intros Hr H. unfold evaluate_object in H. inv_ok. bool_hyps.
  destruct a7 as [b1 contexts]. inv_ok. simplify_eq.
  apply checked_u64_some in E4 as [-> _].
  apply LimitKind_product_ok in E5, E6. apply memberships_checked in E1.
  apply evaluate_contexts_ok in E7 as ->; [|done..]. apply quantify_spec in E8 as ->.
  done.
Qed.
Lemma evaluate_object_no_panic r s now st o :
  Rule_wf r -> no_panic (evaluate_object r s now st o).
Proof.
  intros Hr. destruct st as [[b n] objs]. unfold evaluate_object.
  apply bind_no_panic; [auto with rust|intros _ _].
  apply bind_no_panic; [auto with rust|intros b1 _].
  apply bind_no_panic; [auto with rust|intros u Hm]. apply reject_ok, negb_false_iff in Hm.
  apply bool_decide_eq_true, memberships_checked in Hm.
  apply bind_no_panic; [apply (res_for_no_panic _ (fun _ => True)); auto with rust|intros b2 _].
  apply bind_no_panic; [auto with rust|intros _ _].
  apply bind_no_panic; [auto with rust|intros n1 _].
  assert (forall k a c, no_panic (LimitKind_product k a c)) as Hp.
  { intros. unfold LimitKind_product. apply bind_no_panic; auto with rust. }
  apply bind_no_panic; [done|intros _ _]. apply bind_no_panic; [done|intros _ _].
  apply bind_no_panic; [|intros [b3 contexts] _].
  - apply (res_for_no_panic _ (fun _ => True)); [|done..]. intros st c _ _.
    by apply evaluate_context_no_panic.
  - apply bind_no_panic; [|done]. unfold quantify. destruct (snap_quantifier o); [auto with rust|..];
      repeat case_match; done.
Qed.
Lemma evaluate_objects_ok r s now os b n objs b' n' objs' :
  Rule_wf r -> res_for (evaluate_object r s now) os (b, n, objs) = Ok (b', n', objs') ->
  objs' = objs ++ map (reference_object r now) os /\
  (forall o, o ∈ os -> key_tenant (snap_key o) = in_tenant s) /\
  n' = n + foldr Z.add 0 (map (fun o => zlen (snap_contexts o)) os) /\
  (os <> [] -> 0 <= n' * leaf_count (rule_criteria r) <= limits.EXPLANATIONS /\
               0 <= n' * c_count (rule_criteria r) <= limits.VISITS).
Proof.
  intros Hr. revert b n objs. induction os as [|o os IH]; intros b n objs H;
    cbn [res_for] in H; inv_ok.
  - simplify_eq. rewrite app_nil_r. split_and!; [done|set_solver|simpl; lia|done].
  - destruct a as [[b1 n1] objs1].
    apply evaluate_object_ok in E as (-> & Ht & -> & He & Hv); [|done].
    apply IH in H as (-> & Hts & -> & Hbound). simpl. rewrite <-app_assoc.
    split_and!; [done|set_solver|lia|]. intros _. destruct os; [|by apply Hbound].
    simpl. rewrite Z.add_0_r. done.
Qed.

(** ** Page order and the whole page *)
Lemma check_order_ok os prev prev' :
  res_for check_order os prev = Ok prev' ->
  sorted (option_list prev ++ map snap_key os).
Proof.
  revert prev. induction os as [|o os IH]; intros prev H; cbn [res_for] in H; inv_ok.
  - destruct prev'; simpl; repeat constructor.
  - unfold check_order in E. inv_ok. apply IH in H. simpl in H.
    destruct prev as [key|]; [|done]. simpl. apply leb_gt in E0.
    constructor; [done|]. inversion_clear H as [|? ? _ Hall].
    constructor; [done|]. eapply Forall_impl; [exact Hall|]. intros k. by apply lt_trans.
Qed.
Lemma check_order_no_panic os prev : no_panic (res_for check_order os prev).
Proof.
  apply (res_for_no_panic _ (fun _ => True)); [|done..]. intros k o _ _.
  unfold check_order. apply bind_no_panic; [auto with rust|done].
Qed.
Lemma check_coverage_no_panic r b keys : no_panic (res_for (check_coverage r) keys b).
Proof.
  apply (res_for_no_panic _ (fun _ => True)); [|done..]. intros b' k _ _. unfold check_coverage.
  apply bind_no_panic; [auto with rust|intros]. apply bind_no_panic; [auto with rust|done].
Qed.
Lemma evaluate_page_ok r s now p :
  Rule_wf r -> evaluate_page r s now = Ok p ->
  p = reference_page r s now /\
  rule_tenant r = in_tenant s /\
  (forall o, o ∈ in_objects s -> key_tenant (snap_key o) = in_tenant s) /\
  sorted (option_list (in_after s) ++ map snap_key (in_objects s)) /\
  zlen (in_objects s) <= limits.OBJECTS /\
  (forall f, f ∈ rule_required r -> f ∈ in_coverage s) /\
  let contexts := foldr Z.add 0 (map (fun o => zlen (snap_contexts o)) (in_objects s)) in
  (in_objects s <> [] -> 0 <= contexts * leaf_count (rule_criteria r) <= limits.EXPLANATIONS /\
                         0 <= contexts * c_count (rule_criteria r) <= limits.VISITS).
Proof.
  intros Hr H. unfold evaluate_page in H. inv_ok. bool_hyps.
  rewrite bs_subset_iff in *. apply LimitKind_check_ok in E. apply check_order_ok in E2.
  unfold evaluate_input in H. inv_ok. bool_hyps.
  match goal with x : (Budget * Z * list ObjectEvaluation)%type |- _ =>
    destruct x as [[b' n'] objs] end.
  inv_ok. match goal with H : res_for (evaluate_object _ _ _) _ _ = Ok _ |- _ =>
    apply evaluate_objects_ok in H as (-> & Ht & -> & Hb); [|done] end.
  split_and!; try done. unfold reference_page. simpl. congruence.
Qed.
Lemma evaluate_page_no_panic r s now : Rule_wf r -> no_panic (evaluate_page r s now).
Proof.
  intros Hr. unfold evaluate_page.
  do 3 (apply bind_no_panic; [auto with rust|intros _ _]).
  apply bind_no_panic; [apply check_order_no_panic|intros _ _].
  unfold evaluate_input.
  apply bind_no_panic; [auto with rust|intros _ _].
  do 3 (apply bind_no_panic; [auto with rust|intros ? _]).
  do 2 (apply bind_no_panic; [auto with rust|intros _ _]).
  apply bind_no_panic; [apply check_coverage_no_panic|intros b _].
  apply bind_no_panic; [auto with rust|intros _ _].
  apply bind_no_panic; [|by intros [[? ?] ?] _].
  apply (res_for_no_panic _ (fun _ => True)); [|done..]. intros st o _ _.
  by apply evaluate_object_no_panic.
Qed.
End Reference.
