(* ===== verification/GroupProperties.v ===== *)
(** * Group rules: properties

    The correctness theorems of the rule engine, from the shared lemmas of
    [GroupSpec], and the closed examples they are applied to. *)
From S2P Require Import Prelude Ordered Text External Kleene GroupModel GroupRule.
From S2P Require Import GroupEvaluation GroupSpec.

(** ** More evidence *)
Section Evidence.
Context `{RC : RequestContext} `{CT : Contract} `{OF : OrderedFloat}.

Definition undecided_state (s : FactState) : bool :=
  match s with Missing | Deleted | Conflict | Unsupported => true | _ => false end.
(** An absent or undecided fact may become anything; any other keeps its state. *)
Definition fact_le (a b : option Fact) : Prop :=
  match a with
  | None => True
  | Some f => undecided_state (fact_state f) = true \/
              exists f', b = Some f' /\ fact_state f' = fact_state f
  end.
Definition facts_le (facts facts' : list (rstr * Fact)) : Prop :=
  forall key, fact_le (bm_get key facts) (bm_get key facts').
Definition memberships_le (m m' : list (rstr * Outcome)) : Prop :=
  forall g o o', bm_get g m = Some o -> bm_get g m' = Some o' ->
    outcome_k3 o ⊑k outcome_k3 o'.

Lemma predicate_mono a b op operand now now' x y :
  fact_le a b -> predicate a op operand now = Ok x -> predicate b op operand now' = Ok y ->
  outcome_k3 x ⊑k outcome_k3 y.
Proof.
  intros Hle Hx Hy. destruct a as [fa|]; [|injection Hx as <-; by left].
  destruct Hle as [Hu|(fb & -> & Hs)].
  - unfold predicate in Hx. destruct (fact_state fa); try done; injection Hx as <-; by left.
  - unfold predicate in Hx, Hy. rewrite Hs, Hx in Hy. injection Hy as <-. reflexivity.
Qed.
Lemma leaf_outcome_mono facts facts' m m' now now' n x y :
  facts_le facts facts' -> memberships_le m m' ->
  leaf_outcome facts m now n = Ok x -> leaf_outcome facts' m' now' n = Ok y ->
  outcome_k3 x ⊑k outcome_k3 y.
Proof.
  intros Hf Hm Hx Hy. destruct n as [p|g ng|cs|cs]; simpl in *; try done.
  - by eapply predicate_mono.
  - inv_ok. eapply Hm in E; [|done].
    destruct a0, a, ng; simpl; unfold k_le, outcome_k3 in *; simpl in *;
      cbv in *; naive_solver.
Qed.
Lemma tree_k3_mono (v v' : Node -> k3) c :
  (forall n, n ∈ leaf_nodes c -> v n ⊑k v' n) -> tree_k3 v c ⊑k tree_k3 v' c.
Proof.
  induction c as [n k d Hn|cs k d IH|cs k d IH] using Criteria_tree_ind; intros H.
  - destruct n as [| |[]|[]]; simpl in *; try done; try (apply H; left); reflexivity.
  - apply k_all_mono. apply Forall2_fmap_2, Forall_Forall2_diag, Forall_forall. intros c Hc.
    apply IH; [done|]. intros n Hn. apply H. simpl. apply elem_of_concat.
    exists (leaf_nodes c). split; [|done]. apply elem_of_map. eauto.
  - apply k_any_mono. apply Forall2_fmap_2, Forall_Forall2_diag, Forall_forall. intros c Hc.
    apply IH; [done|]. intros n Hn. apply H. simpl. apply elem_of_concat.
    exists (leaf_nodes c). split; [|done]. apply elem_of_map. eauto.
Qed.

(** A completed evaluation visited every leaf: nothing is short-circuited. *)
Lemma evaluate_children_leaves facts m now and path i cs result out r :
  (forall c, c ∈ cs -> forall path out r, evaluate_node c facts m now path out = Ok r ->
     forall n, n ∈ leaf_nodes c -> exists o, leaf_outcome facts m now n = Ok o) ->
  evaluate_children (fun c path out => evaluate_node c facts m now path out)
    and path i cs result out = Ok r ->
  forall n, n ∈ concat (map leaf_nodes cs) -> exists o, leaf_outcome facts m now n = Ok o.
Proof.
  revert i result out. induction cs as [|c cs IH]; intros i result out Hc H n Hn;
    [inversion Hn|].
  cbn [evaluate_children] in H. apply bind_ok in H as ([v out'] & E & H).
  simpl in Hn. apply elem_of_app in Hn as [Hn|Hn].
  - eapply (Hc c); [left|exact E|done].
  - eapply IH; [|exact H|done]. intros c' Hc'. apply Hc. by right.
Qed.
Lemma evaluate_node_leaves facts m now c path out r :
  evaluate_node c facts m now path out = Ok r ->
  forall n, n ∈ leaf_nodes c -> exists o, leaf_outcome facts m now n = Ok o.
Proof.
  revert path out r.
  induction c as [n' k d Hn'|cs k d IH|cs k d IH] using Criteria_tree_ind; intros path out r H n Hn.
  - destruct n' as [p|g ng|[]|[]]; simpl in Hn; try done; try (by inversion Hn);
      apply list_elem_of_singleton in Hn as ->; cbn [evaluate_node leaf_outcome] in *; inv_ok.
    + by eexists.
    + rewrite E. by eexists.
  - by eapply evaluate_children_leaves.
  - by eapply evaluate_children_leaves.
Qed.
End Evidence.

(** ** Closed examples *)
Module Examples.
Import Reference.
Definition noon : Timepoint := Time 43200 eq_refl.
Definition os_field : Field := mk_Field (lit "os") (FScalar TString) None [OpEq; OpContains; OpIsNull] true.
Definition cpu_field : Field := mk_Field (lit "cpu") (FScalar TInteger) (Some (lit "cores")) [OpGe; OpIn] false.
Definition os_is : Predicate := mk_Predicate (lit "os") OpEq (Some (mk_Operand (VScalar (SString (lit "linux"))) None)).
Definition cpu_is : Predicate := mk_Predicate (lit "cpu") OpGe (Some (mk_Operand (VScalar (SInteger 4)) (Some (lit "cores")))).
Definition leaf (p : Predicate) : Criteria := mk_Criteria (NPredicate p) 1 1.
Definition tree : Criteria :=
  get (leaf os_is) (Criteria_and [leaf os_is;
    get (leaf os_is) (Criteria_or [leaf cpu_is; mk_Criteria (NMembership (lit "vip") true) 1 1])]).
Definition rule : Rule :=
  get (mk_Rule tenant_a [] [] [] tree [])
    (Rule_new tenant_a (lit "r1") (lit "d1") [os_field; cpu_field] tree).
Definition fact (s : FactState) : Fact := mk_Fact s (lit "inventory") (lit "cut-1") noon.
Definition known_facts : list (rstr * Fact) :=
  [(lit "cpu", fact (Known (VScalar (SInteger 8)))); (lit "os", fact (Known (VScalar (SString (lit "linux")))))].
Definition missing_facts : list (rstr * Fact) :=
  [(lit "cpu", fact Missing); (lit "os", fact (Known (VScalar (SString (lit "linux")))))].
Definition object (id : rstr) (facts : list (rstr * Fact)) : ObjectSnapshot :=
  mk_ObjectSnapshot (mk_ObjectKey tenant_a id) [(lit "vip", OMatch)] QAny true
    [(lit "user", facts)].
Definition page : PageInput :=
  mk_PageInput tenant_a (lit "cut-1") (lit "v1") (lit "d1") [lit "cpu"; lit "os"]
    [object (lit "pc-1") known_facts; object (lit "pc-2") missing_facts] (Some (mk_ObjectKey tenant_a (lit "pc-0"))).
Definition page_result : PageEvaluation :=
  get (reference_page rule (mk_PageInput tenant_a [] [] [] [] [] None) noon)
    (evaluate_page rule page noon).
Example tree_cached : (c_count tree, c_depth tree) = (5, 3).
Proof. reflexivity. Qed.
Example page_decisions :
  map obj_decision (page_objects page_result) = [Match; Unknown].
Proof. vm_compute. reflexivity. Qed.
Lemma rule_new : Rule_new tenant_a (lit "r1") (lit "d1") [os_field; cpu_field] tree = Ok rule.
Proof. apply is_ok_get. vm_compute. reflexivity. Qed.
Lemma page_ok : evaluate_page rule page noon = Ok page_result.
Proof. apply is_ok_get. vm_compute. reflexivity. Qed.
Lemma tree_built : Built tree.
Proof.
  apply (built_and [leaf os_is;
    get (leaf os_is) (Criteria_or [leaf cpu_is; mk_Criteria (NMembership (lit "vip") true) 1 1])]);
    [|reflexivity].
  intros c [->|[->|Hc]%elem_of_cons]%elem_of_cons; [..|inversion Hc].
  - apply (built_predicate os_is). reflexivity.
  - apply (built_or [leaf cpu_is; mk_Criteria (NMembership (lit "vip") true) 1 1]);
      [|reflexivity].
    intros c [->|[->|Hc]%elem_of_cons]%elem_of_cons; [..|inversion Hc].
    + apply (built_predicate cpu_is). reflexivity.
    + apply (built_membership (lit "vip") true). reflexivity.
Qed.
End Examples.

(** ** Properties *)
Section Properties.
Context `{RC : RequestContext} `{CT : Contract} `{OF : OrderedFloat}.

(** C1: a page evaluated with a rule that [Rule::new] returned is the reference page:
    every object is decided by its quantifier over contexts, every context by the
    strong Kleene value of the criteria tree over the facts and memberships, with one
    explanation per leaf, and the page carries the identities of its inputs. *)
Theorem evaluate_page_refines tenant version dv fields c r s now p :
  Rule_new tenant version dv fields c = Ok r -> evaluate_page r s now = Ok p ->
  p = reference_page r s now.
Proof. intros [Hr _]%Rule_new_wf H. by apply evaluate_page_ok in H as [-> _]. Qed.

(** C34: evaluating a page with a rule that [Rule::new] returned never reaches the
    code's [unreachable!], [expect] or indexing, whatever the page holds. *)
Theorem evaluate_page_never_panics tenant version dv fields c r s now :
  Rule_new tenant version dv fields c = Ok r -> no_panic (evaluate_page r s now).
Proof. intros [Hr _]%Rule_new_wf. by apply evaluate_page_no_panic. Qed.

(** A page that is evaluated belongs to the rule's tenant, its objects are of that
    tenant, at most 1000, in strictly increasing order above the cursor, every field the
    rule requires is covered, and the visits and explanations are within their limits. *)
Theorem evaluate_page_safe tenant version dv fields c r s now p :
  Rule_new tenant version dv fields c = Ok r -> evaluate_page r s now = Ok p ->
  rule_tenant r = in_tenant s /\
  (forall o, o ∈ in_objects s -> key_tenant (snap_key o) = rule_tenant r) /\
  sorted (option_list (in_after s) ++ map obj_key (page_objects p)) /\
  zlen (page_objects p) <= limits.OBJECTS /\
  (forall f, f ∈ predicate_fields c -> f ∈ in_coverage s) /\
  let contexts := foldr Z.add 0 (map (fun o => zlen (snap_contexts o)) (in_objects s)) in
  (in_objects s <> [] -> contexts * leaf_count c <= limits.EXPLANATIONS /\
                         contexts * c_count c <= limits.VISITS).
Proof.
  intros [Hr <-]%Rule_new_wf H.
  apply evaluate_page_ok in H as (-> & Ht & Hts & Hs & Hn & Hc & Hb); [|done]. simpl.
  rewrite map_map. simpl. unfold zlen in *. rewrite length_map. split_and!; try done.
  - intros o Ho. rewrite Ht. by apply Hts.
  - intros f Hf. apply Hc. rewrite (rule_required_eq _ Hr). by apply elem_of_bs_of_list.
  - intros Hne. destruct (Hb Hne). lia.
Qed.

(** The explanations of a context are complete: exactly one per leaf, no path
    twice, and each path resolves, through the rule's own lookup, to the leaf whose
    outcome it reports. *)
Theorem explanations_complete c facts memberships now d ex :
  evaluate_node c facts memberships now [] [] = Ok (d, ex) ->
  zlen ex = leaf_count c /\ NoDup (map exp_path ex) /\
  forall e, e ∈ ex -> exists leaf, node_at c (exp_path e) = Some leaf /\
    leaf_outcome facts memberships now (c_node leaf) = Ok (exp_outcome e).
Proof.
  intros H. pose proof (evaluate_node_leaves _ _ _ _ _ _ _ H) as Hl.
  rewrite evaluate_node_ok in H by done. injection H as <- <-. simpl. split_and!.
  - by rewrite leaf_count_paths; unfold zlen; rewrite length_map.
  - rewrite map_map. simpl. apply leaf_paths_nodup.
  - intros e ([p n] & <- & Hin)%elem_of_map. simpl.
    destruct (leaf_paths_resolve c p n Hin) as (leaf & Hat & <-). exists leaf. split; [done|].
    destruct (Hl (c_node leaf)) as [o Ho].
    { rewrite <-leaf_paths_nodes. apply elem_of_map. by exists (p, c_node leaf). }
    by rewrite Ho.
Qed.

(** Evaluation is monotone in the evidence: when undecided facts or memberships
    become known, a decision that was known keeps its value. *)
Theorem evaluate_node_monotone c facts facts' m m' now now' d d' ex ex' :
  facts_le facts facts' -> memberships_le m m' ->
  evaluate_node c facts m now [] [] = Ok (d, ex) ->
  evaluate_node c facts' m' now' [] [] = Ok (d', ex') ->
  d <> Unknown -> d' = d.
Proof.
  intros Hf Hm H H' Hd.
  pose proof (evaluate_node_leaves _ _ _ _ _ _ _ H) as Hl.
  pose proof (evaluate_node_leaves _ _ _ _ _ _ _ H') as Hl'.
  rewrite evaluate_node_ok in H by done. rewrite evaluate_node_ok in H' by done.
  injection H as <- _. injection H' as <- _. f_equal.
  assert (forall a b, a ⊑k b -> of_k3 a <> Unknown -> b = a) as Hle.
  { intros a b [H0|H0] ?; subst; [done|done]. }
  apply Hle; [|done]. apply tree_k3_mono. intros n Hn.
  destruct (Hl n Hn) as [x Hx], (Hl' n Hn) as [y Hy]. rewrite Hx, Hy. simpl.
  by eapply leaf_outcome_mono.
Qed.

(** Every tree the builders can produce has at most 256 nodes and depth at most 16,
    and its cached count and depth are the real ones. *)
Theorem built_criteria_bounded c :
  Built c -> c_count c = node_count c /\ c_depth c = node_depth c /\
             node_count c <= limits.NODES /\ node_depth c <= limits.DEPTH.
Proof.
  intros H%Built_wf. pose proof (Criteria_wf_cached c H) as [Hk Hd].
  split_and!; [done..| |]; rewrite <-?Hk, <-?Hd; destruct H; subst; simpl; done || lia.
Qed.

(** A rule that [Rule::new] returns is well typed: every predicate names a declared
    field, uses an operation that the field declares and its type allows, with an
    operand of the expected type and unit, and the required fields are exactly the
    predicates' fields. *)
Theorem rule_new_well_typed tenant version dv fields c r :
  Rule_new tenant version dv fields c = Ok r ->
  rule_criteria r = c /\ Rule_wf r /\
  (forall f, f ∈ rule_required r <-> f ∈ predicate_fields c) /\
  (forall p path, Rule_predicate_at r path = Some p -> predicate_typed (rule_fields r) p).
Proof.
  intros [Hr Hc]%Rule_new_wf. split_and!; [done|done|..].
  - intros f. by rewrite (rule_required_eq _ Hr), elem_of_bs_of_list, Hc.
  - intros p path H. unfold Rule_predicate_at in H.
    destruct (node_at (rule_criteria r) path) as [c'|] eqn:Hat; [|done].
    destruct (c_node c') as [p'| | |] eqn:Hn; try done. injection H as ->.
    apply (rule_typed _ Hr (NPredicate p)). by eapply node_at_leaf.
Qed.
End Properties.

(** ** The properties on the closed examples *)
Module Witnesses.
Import Reference Examples.
Lemma evaluate_page_refines_witness :
  evaluate_page rule page noon = Ok page_result /\ page_result = reference_page rule page noon.
Proof. split; [exact page_ok|]. exact (evaluate_page_refines _ _ _ _ _ _ _ _ _ rule_new page_ok). Defined.
Lemma evaluate_page_never_panics_witness : no_panic (evaluate_page rule page noon).
Proof. exact (evaluate_page_never_panics _ _ _ _ _ _ page noon rule_new). Defined.
Lemma evaluate_page_safe_witness : rule_tenant rule = in_tenant page.
Proof. exact (proj1 (evaluate_page_safe _ _ _ _ _ _ _ _ _ rule_new page_ok)). Defined.
Definition evaluation facts : Decision * list Explanation :=
  get (Unknown, []) (evaluate_node tree facts [(lit "vip", OMatch)] noon [] []).
Lemma evaluated facts : is_ok (evaluate_node tree facts [(lit "vip", OMatch)] noon [] []) = true ->
  evaluate_node tree facts [(lit "vip", OMatch)] noon [] [] = Ok ((evaluation facts).1, (evaluation facts).2).
Proof. unfold evaluation. by destruct (evaluate_node _ _ _ _ _ _) as [[]| |]. Qed.
Lemma explanations_complete_witness : zlen (evaluation known_facts).2 = 3.
Proof.
  exact (proj1 (explanations_complete tree known_facts [(lit "vip", OMatch)] noon _ _
                  (evaluated known_facts eq_refl))).
Defined.
Definition windows (cpu : FactState) : list (rstr * Fact) :=
  [(lit "cpu", fact cpu); (lit "os", fact (Known (VScalar (SString (lit "windows")))))].
Lemma evaluate_node_monotone_witness :
  (evaluation (windows (Known (VScalar (SInteger 8))))).1 = (evaluation (windows Missing)).1.
Proof.
  eapply (evaluate_node_monotone tree (windows Missing) (windows (Known (VScalar (SInteger 8))))
            [(lit "vip", OMatch)] [(lit "vip", OMatch)] noon noon).
  - intros key. cbn [windows bm_get].
    destruct (eqb key (lit "cpu")); [left; reflexivity|].
    destruct (eqb key (lit "os")); [right; eexists; split; reflexivity|exact I].
  - intros g o o' Ho Ho'. right. congruence.
  - exact (evaluated (windows Missing) eq_refl).
  - exact (evaluated (windows (Known (VScalar (SInteger 8)))) eq_refl).
  - intros H. vm_compute in H. discriminate H.
Defined.
Lemma built_criteria_bounded_witness : node_count tree <= 256.
Proof. exact (proj1 (proj2 (proj2 (built_criteria_bounded tree tree_built)))). Defined.
Lemma rule_new_well_typed_witness : rule_criteria rule = tree.
Proof. exact (proj1 (rule_new_well_typed _ _ _ _ _ _ rule_new)). Defined.
End Witnesses.
