(* ===== verification/Scope.v ===== *)
(** * Scope: authored selections and per-device resolution ([crates/scope/src])

    Identities, source references, the authored definition, and [resolve_device]: the
    union of targets, cut by an optional limitation and by exclusions, over confirmed,
    unknown and failed source memberships. *)
From S2P Require Import Prelude Ordered Text External.

(** ** Authored definitions ([definition.rs]) *)
Section Definitions.
Context `{UC : UuidCrate}.

Inductive Reference : Type := RefDevice (id : rstr) | RefGroup (id : Uuid).
(** The derived order: by variant, then by payload. *)
#[export] Instance Reference_ord : Ord Reference := fun a b =>
  match a, b with
  | RefDevice a, RefDevice b => cmp a b
  | RefDevice _, RefGroup _ => Lt
  | RefGroup _, RefDevice _ => Gt
  | RefGroup a, RefGroup b => cmp a b
  end.
#[export] Instance Reference_ord_laws : OrdLaws Reference.
Proof.
  split; unfold cmp, Reference_ord.
  - intros [] []; try done; rewrite cmp_eq; naive_solver.
  - intros [] []; try done; apply cmp_opp.
  - intros [] [] []; try done; apply cmp_trans.
Qed.
Record ScopeDefinition : Type := mk_ScopeDefinition {
  sd_targets : list Reference; sd_limitations : option (list Reference);
  sd_exclusions : list Reference
}.
Definition ScopeDefinition_references (d : ScopeDefinition) : list Reference :=
  bs_of_list (sd_targets d ++ default [] (sd_limitations d) ++ sd_exclusions d).
End Definitions.

Section Scope.
Context `{RC : RequestContext} `{CT : Contract}.

(** ** Identities ([identity.rs]) *)
Record Key : Type := mk_Key { k_tenant : TenantId; k_value : rstr }.
#[export] Instance Key_eq_dec : EqDecision Key.
Proof. solve_decision. Defined.
#[export] Instance Key_ord : Ord Key := cmp_on (fun k => (tenant_octets (k_tenant k), k_value k)).
#[export] Instance Key_ord_laws : OrdLaws Key.
Proof.
  apply cmp_on_laws. intros [t1 v1] [t2 v2]. simpl.
  intros [= Ht ->]. by apply tenant_octets_inj in Ht as ->.
Qed.

Inductive SourceId : Type := Direct (device : Key) | Group (group : Key).
#[export] Instance SourceId_eq_dec : EqDecision SourceId.
Proof. solve_decision. Defined.
#[export] Instance SourceId_ord : Ord SourceId := fun a b =>
  match a, b with
  | Direct a, Direct b => cmp a b
  | Direct _, Group _ => Lt
  | Group _, Direct _ => Gt
  | Group a, Group b => cmp a b
  end.
#[export] Instance SourceId_ord_laws : OrdLaws SourceId.
Proof.
  split; unfold cmp, SourceId_ord.
  - intros [] []; try done; rewrite cmp_eq; naive_solver.
  - intros [] []; try done; apply cmp_opp.
  - intros [] [] []; try done; apply cmp_trans.
Qed.
Definition SourceId_tenant (id : SourceId) : TenantId :=
  match id with Direct k | Group k => k_tenant k end.

(** ** Source references and results ([model.rs]) *)
Record SourceRef : Type := mk_SourceRef {
  src_id : SourceId; src_version : Z; src_resolved_at : Timepoint
}.
#[export] Instance SourceRef_ord : Ord SourceRef :=
  cmp_on (fun r => (src_id r, (src_version r, src_resolved_at r))).
#[export] Instance SourceRef_ord_laws : OrdLaws SourceRef.
Proof. apply cmp_on_laws. by intros [] [] [= -> -> ->]. Qed.

Inductive ScopeError : Type :=
| SourceLimit | InvalidKey | InvalidVersion
| SourceTenantMismatch (source_ref : SourceRef) (expected : TenantId)
| IncompleteSource (source : SourceRef) | SourceFailed (source : SourceRef)
| ConflictingSource (source : SourceRef) | InvalidDirectSource (source : SourceRef).

Definition key_byte (b : Z) : bool :=
  is_ascii_alphanumeric b || bool_decide (b ∈ lit "._-").
Definition Key_new (tenant : TenantId) (value : rstr) : res ScopeError Key :=
  _ ← reject (is_empty value || (128 <? str_len value)
              || negb (forallb key_byte (str_bytes value))) InvalidKey;
  Ok (mk_Key tenant value).
Definition DeviceId_new (tenant : TenantId) (value : rstr) : res ScopeError Key :=
  _ ← reject (is_empty value || (256 <? str_len value) || has_control value) InvalidKey;
  Ok (mk_Key tenant value).
Definition SourceRef_new (id : SourceId) (version : Z) (resolved_at : Timepoint)
    : res ScopeError SourceRef :=
  version ← ok_or (if version =? 0 then None else Some version) InvalidVersion;
  Ok (mk_SourceRef id version resolved_at).

Inductive ExclusionReason : Type :=
| MissingLimitationMatch | ExplicitExclusion | UnknownTarget | UnknownLimitation | UnknownExclusion.
#[export] Instance ExclusionReason_eq_dec : EqDecision ExclusionReason.
Proof. solve_decision. Defined.
Record MemberExplanation : Type := mk_MemberExplanation {
  me_object : Key; me_targets : list SourceRef; me_limitations : list SourceRef;
  me_exclusions : list SourceRef; me_reasons : list ExclusionReason
}.

(** ** One device ([device.rs]) *)
Inductive Membership : Type := Known (value : bool) | Unknown | Incomplete | Failed.
#[export] Instance Membership_eq_dec : EqDecision Membership.
Proof. solve_decision. Defined.
Record SourceMembership : Type := mk_SourceMembership {
  sm_source : SourceRef; sm_contains : Membership
}.
Record DeviceInput : Type := mk_DeviceInput {
  di_device : Key; di_targets : list SourceMembership;
  di_limitations : option (list SourceMembership); di_exclusions : list SourceMembership
}.

Definition explanation (object : Key) (targets limitations exclusions : list SourceRef)
    (restricted : bool) : MemberExplanation :=
  let reasons := if restricted && is_empty limitations then [MissingLimitationMatch] else [] in
  let reasons := if negb (is_empty exclusions) then reasons ++ [ExplicitExclusion] else reasons in
  mk_MemberExplanation object targets limitations exclusions reasons.
(** What has been seen of each source snapshot: confirmed, or not decided. *)
Definition Seen : Type := list ((SourceId * Z) * option bool).
Definition check_source (device : Key) (seen : Seen) (m : SourceMembership) : res ScopeError Seen :=
  let source := sm_source m in
  _ ← reject (negb (bool_decide (SourceId_tenant (src_id source) = k_tenant device)))
        (SourceTenantMismatch source (k_tenant device));
  contains ← match sm_contains m with
             | Known value => Ok (Some value)
             | Unknown => Ok None
             | Incomplete => Err (IncompleteSource source)
             | Failed => Err (SourceFailed source)
             end;
  _ ← reject (match src_id source with
              | Direct id => negb (bool_decide (contains = Some (bool_decide (id = device))))
              | Group _ => false
              end) (InvalidDirectSource source);
  _ ← reject (match bm_get (src_id source, src_version source) seen with
              | Some old => negb (bool_decide (old = contains))
              | None => false
              end) (ConflictingSource source);
  Ok (bm_insert (src_id source, src_version source) contains seen).
Definition matching (sources : list SourceMembership) : list SourceRef :=
  bs_of_list (map sm_source (List.filter (fun s => bool_decide (sm_contains s = Known true)) sources)).
Definition unknown (sources : list SourceMembership) : bool :=
  existsb (fun s => bool_decide (sm_contains s = Unknown)) sources.
(** The reasons once no exclusion confirms membership. *)
Definition refine_reasons (result : MemberExplanation) (limits exclusions : list SourceMembership)
    : list ExclusionReason :=
  let reasons := me_reasons result in
  let reasons := if is_empty (me_targets result) then reasons ++ [UnknownTarget] else reasons in
  let reasons :=
    if bool_decide (MissingLimitationMatch ∈ reasons) && unknown limits
    then List.filter (fun r => negb (bool_decide (r = MissingLimitationMatch))) reasons
           ++ [UnknownLimitation]
    else reasons in
  if is_empty (me_exclusions result) && unknown exclusions
  then reasons ++ [UnknownExclusion] else reasons.
Definition resolve_device (input : DeviceInput) : res ScopeError (option MemberExplanation) :=
  let limits := default [] (di_limitations input) in
  _ ← reject (3000 <? saturating_usize (saturating_usize (zlen (di_targets input) + zlen limits)
                                        + zlen (di_exclusions input))) SourceLimit;
  seen ← res_for (check_source (di_device input))
           (di_targets input ++ limits ++ di_exclusions input) [];
  _ ← reject (1000 <? zlen seen) SourceLimit;
  let targets := matching (di_targets input) in
  if is_empty targets && negb (unknown (di_targets input)) then Ok None else
  let result := explanation (di_device input) targets (matching limits)
                  (matching (di_exclusions input))
                  (match di_limitations input with Some _ => true | None => false end) in
  if negb (is_empty (me_exclusions result)) then Ok (Some result) else
  Ok (Some (mk_MemberExplanation (me_object result) (me_targets result) (me_limitations result)
              (me_exclusions result) (refine_reasons result limits (di_exclusions input)))).
End Scope.
