(* ===== verification/ScopeProperties.v ===== *)
(** * Scope: specification and properties

    Resolution against three-valued set algebra, the exact set of accepted inputs, and
    independence of the order and multiplicity in which sources are listed. *)
From S2P Require Import Prelude Ordered Text External Kleene Scope.

Section Spec.
Context `{RC : RequestContext} `{CT : Contract}.

(** ** Membership in the algebra: union, intersection with the limitation, difference *)
Definition contains_k3 (m : Membership) : k3 :=
  match m with Known b => k_of_bool b | _ => KUnknown end.
Definition union (sources : list SourceMembership) : k3 :=
  k_any (map (fun s => contains_k3 (sm_contains s)) sources).
Definition scope_membership (input : DeviceInput) : k3 :=
  k_and (union (di_targets input))
    (k_and (match di_limitations input with Some l => union l | None => KTrue end)
           (k_not (union (di_exclusions input)))).
(** What an explanation says: retained, removed for certain, or not known. *)
Definition verdict (r : option MemberExplanation) : k3 :=
  match r with
  | None => KFalse
  | Some e =>
      if is_empty (me_reasons e) then KTrue
      else if bool_decide (MissingLimitationMatch ∈ me_reasons e)
              || bool_decide (ExplicitExclusion ∈ me_reasons e) then KFalse
      else KUnknown
  end.

(** ** Accepted inputs *)
Definition sources (input : DeviceInput) : list SourceMembership :=
  di_targets input ++ default [] (di_limitations input) ++ di_exclusions input.
Definition source_key (m : SourceMembership) : SourceId * Z :=
  (src_id (sm_source m), src_version (sm_source m)).
Definition source_ok (device : Key) (m : SourceMembership) : Prop :=
  SourceId_tenant (src_id (sm_source m)) = k_tenant device /\
  sm_contains m <> Incomplete /\ sm_contains m <> Failed /\
  forall id, src_id (sm_source m) = Direct id -> sm_contains m = Known (bool_decide (id = device)).
Definition input_ok (input : DeviceInput) : Prop :=
  zlen (sources input) <= 3000 /\
  (forall m, m ∈ sources input -> source_ok (di_device input) m) /\
  (forall m m', m ∈ sources input -> m' ∈ sources input -> source_key m = source_key m' ->
     sm_contains m = sm_contains m') /\
  zlen (bs_of_list (map source_key (sources input))) <= 1000.
End Spec.

Section Laws.
Context `{RC : RequestContext} `{CT : Contract}.

Definition decided (m : Membership) : option bool :=
  match m with Known b => Some b | _ => None end.
Lemma check_source_ok device seen m seen' :
  check_source device seen m = Ok seen' <->
  source_ok device m /\
  (forall old, bm_get (source_key m) seen = Some old -> old = decided (sm_contains m)) /\
  seen' = bm_insert (source_key m) (decided (sm_contains m)) seen.
Proof.
  unfold check_source, source_ok, source_key. destruct m as [[id v t] c]. simpl.
  destruct (decide (SourceId_tenant id = k_tenant device)) as [Ht|Ht].
  2: { rewrite bool_decide_eq_false_2 by done. naive_solver. }
  rewrite bool_decide_eq_true_2 by done. simpl.
  assert (c = Incomplete \/ c = Failed \/ (c <> Incomplete /\ c <> Failed)) as [->|[->|[Hi Hf]]]
    by (destruct c; naive_solver); [naive_solver..|].
  assert (match c with Known value => Ok (Some value) | Unknown => Ok None
          | Incomplete => Err (IncompleteSource (mk_SourceRef id v t))
          | Failed => Err (SourceFailed (mk_SourceRef id v t)) end = Ok (decided c)) as -> by by destruct c.
  simpl. set (bad := match id with Direct _ => _ | Group _ => _ end).
  assert (bad = false <-> forall d, id = Direct d -> c = Known (bool_decide (d = device))) as Hbad.
  { unfold bad. destruct id as [d|g]; [|naive_solver]. rewrite negb_false_iff, bool_decide_eq_true.
    split; [intros Hc d' [= <-]; destruct c; naive_solver|]. intros Hc. by rewrite (Hc d). }
  destruct bad; simpl.
  { split; [done|]. intros ((_ & _ & _ & Hd) & _). by apply Hbad in Hd. }
  pose proof (proj1 Hbad eq_refl) as Hd.
  destruct (bm_get (id, v) seen) as [old|] eqn:Hold; simpl; [|naive_solver].
  destruct (decide (old = decided c)) as [->|Hne].
  - rewrite bool_decide_eq_true_2 by done. simpl. naive_solver.
  - rewrite bool_decide_eq_false_2 by done. simpl. naive_solver.
Qed.
Lemma check_sources_ok device ms seen seen' :
  bm_wf seen ->
  res_for (check_source device) ms seen = Ok seen' ->
  (forall m, m ∈ ms -> source_ok device m) /\
  (forall m old, m ∈ ms -> bm_get (source_key m) seen = Some old -> old = decided (sm_contains m)) /\
  (forall m m', m ∈ ms -> m' ∈ ms -> source_key m = source_key m' ->
     decided (sm_contains m) = decided (sm_contains m')) /\
  bm_keys seen' = foldl (fun s x => bs_insert x s) (bm_keys seen) (map source_key ms).
Proof.
  revert seen. induction ms as [|m ms IH]; intros seen Hwf H; cbn [res_for] in H; inv_ok.
  { split_and!; [intros m Hm|intros m old Hm|intros m m' Hm|done]; inversion Hm. }
  apply check_source_ok in E as (Hok & Hold & ->).
  apply IH in H as (Hoks & Holds & Hagree & Hkeys); [|by apply bm_insert_wf].
  assert (forall m', m' ∈ ms -> source_key m' = source_key m ->
    decided (sm_contains m) = decided (sm_contains m')) as Hhead.
  { intros m' Hm' Heq. apply (Holds m' _ Hm'). by rewrite bm_get_insert, Heq, eqb_refl. }
  split_and!.
  - intros m' [->|Hm']%elem_of_cons; auto.
  - intros m' old [->|Hm']%elem_of_cons Hget; [auto|].
    destruct (eqb (source_key m') (source_key m)) eqn:Ek.
    + apply eqb_true in Ek. rewrite <-(Hhead m') by done. apply Hold. by rewrite <-Ek.
    + apply (Holds m' old Hm'). by rewrite bm_get_insert, Ek.
  - intros m1 m2 [->|H1]%elem_of_cons [->|H2]%elem_of_cons Heq; auto. symmetry. auto.
  - rewrite Hkeys, bm_keys_insert. done.
Qed.
Lemma check_sources_complete device ms seen :
  (forall m, m ∈ ms -> source_ok device m) ->
  (forall m old, m ∈ ms -> bm_get (source_key m) seen = Some old -> old = decided (sm_contains m)) ->
  (forall m m', m ∈ ms -> m' ∈ ms -> source_key m = source_key m' ->
     sm_contains m = sm_contains m') ->
  exists seen', res_for (check_source device) ms seen = Ok seen'.
Proof.
  revert seen. induction ms as [|m ms IH]; intros seen Hok Hold Hag; [by eexists|].
  cbn [res_for].
  assert (check_source device seen m =
    Ok (bm_insert (source_key m) (decided (sm_contains m)) seen)) as ->.
  { apply check_source_ok. split_and!; [apply Hok; left| |done]. intros old. apply Hold. left. }
  apply IH.
  - intros; apply Hok; by right.
  - intros m' old Hm' Hget. rewrite bm_get_insert in Hget.
    destruct (eqb (source_key m') (source_key m)) eqn:Ek.
    + apply eqb_true in Ek. injection Hget as <-. f_equal. apply Hag; [by left|by right|done].
    + apply (Hold m'); [by right|done].
  - intros; apply Hag; try right; done.
Qed.
Lemma decided_inj m m' :
  m <> Incomplete -> m <> Failed -> m' <> Incomplete -> m' <> Failed ->
  decided m = decided m' -> m = m'.
Proof. destruct m, m'; naive_solver. Qed.
Lemma total_sources (input : DeviceInput) :
  (3000 <? saturating_usize (saturating_usize
     (zlen (di_targets input) + zlen (default [] (di_limitations input))) + zlen (di_exclusions input)))
  = (3000 <? zlen (sources input)).
Proof.
  unfold sources. rewrite !zlen_app. pose proof (zlen_nonneg (di_targets input)).
  pose proof (zlen_nonneg (default [] (di_limitations input))).
  pose proof (zlen_nonneg (di_exclusions input)).
  unfold saturating_usize, usize_max, u64_max.
  apply eq_true_iff_eq. rewrite !Z.ltb_lt. lia.
Qed.

(** The result of an accepted input, as a total function. *)
Definition resolved (input : DeviceInput) : option MemberExplanation :=
  let limits := default [] (di_limitations input) in
  let targets := matching (di_targets input) in
  let result := explanation (di_device input) targets (matching limits)
                  (matching (di_exclusions input))
                  (match di_limitations input with Some _ => true | None => false end) in
  if is_empty targets && negb (unknown (di_targets input)) then None
  else if negb (is_empty (me_exclusions result)) then Some result
  else Some (mk_MemberExplanation (me_object result) (me_targets result) (me_limitations result)
               (me_exclusions result) (refine_reasons result limits (di_exclusions input))).
Lemma resolve_device_ok input r :
  resolve_device input = Ok r <-> input_ok input /\ r = resolved input.
Proof.
  unfold resolve_device, input_ok, resolved. rewrite total_sources. fold (sources input). split.
  - intros H. inv_ok. bool_hyps.
    apply check_sources_ok in E0 as (Hok & _ & Hag & Hkeys); [|constructor].
    split; [split_and!; [done|done| |]|].
    + intros m m' Hm Hm' Heq. destruct (Hok m Hm) as (_ & ? & ? & _), (Hok m' Hm') as (_ & ? & ? & _).
      apply decided_inj; auto.
    + change (bm_keys a0 = bs_of_list (map source_key (sources input))) in Hkeys.
      rewrite <-Hkeys. unfold bm_keys, zlen in *. by rewrite length_map.
    + by repeat case_match; inv_ok.
  - intros ((Hlen & Hok & Hag & Hn) & ->).
    assert ((3000 <? zlen (sources input)) = false) as -> by (apply Z.ltb_ge; lia). simpl.
    destruct (check_sources_complete (di_device input) (sources input) []) as [seen Hs]; [done..|].
    fold (sources input). rewrite Hs. simpl.
    apply check_sources_ok in Hs as (_ & _ & _ & Hkeys); [|constructor].
    assert ((1000 <? zlen seen) = false) as ->.
    { change (bm_keys seen = bs_of_list (map source_key (sources input))) in Hkeys.
      apply Z.ltb_ge. rewrite <-Hkeys in Hn.
      unfold bm_keys, zlen in *. by rewrite length_map in Hn. }
    simpl. by repeat case_match.
Qed.

(** ** Unions *)
Lemma matching_elem s r :
  r ∈ matching s <-> exists m, m ∈ s /\ sm_contains m = Known true /\ sm_source m = r.
Proof.
  unfold matching. rewrite elem_of_bs_of_list, elem_of_map.
  setoid_rewrite list_elem_of_In. setoid_rewrite filter_In. setoid_rewrite <-list_elem_of_In.
  setoid_rewrite bool_decide_eq_true. naive_solver.
Qed.
Lemma union_spec s :
  (forall m, m ∈ s -> sm_contains m <> Incomplete /\ sm_contains m <> Failed) ->
  union s = if is_empty (matching s) then if unknown s then KUnknown else KFalse else KTrue.
Proof.
  intros Hok. unfold union. destruct (matching s) as [|r l] eqn:Hm.
  - assert (k_any (map (fun s => contains_k3 (sm_contains s)) s) <> KTrue) as Hn.
    { rewrite k_any_true, elem_of_map. intros (m & Hc & Hin).
      assert (sm_source m ∈ matching s) as Hr.
      { apply matching_elem. exists m. split_and!; [done| |done]. by destruct (sm_contains m) as [[]| | |]. }
      rewrite Hm in Hr. inversion Hr. }
    simpl. destruct (unknown s) eqn:Hu.
    + apply existsb_true_iff in Hu as (m & Hin & Hu). bool_hyps.
      destruct (k_any _) eqn:Hk; [done|done|]. rewrite k_any_false in Hk.
      discriminate (Hk KUnknown). apply elem_of_map. exists m. by rewrite Hu.
    + unfold unknown in Hu. rewrite existsb_false_iff in Hu. apply k_any_false.
      intros a (m & <- & Hin)%elem_of_map. specialize (Hu _ Hin). bool_hyps.
      destruct (Hok m Hin). destruct (sm_contains m) as [[]| | |] eqn:Hc; try done.
      destruct Hn. apply k_any_true, elem_of_map. exists m. by rewrite Hc.
  - assert (r ∈ matching s) as (m & Hin & Hc & _)%matching_elem by (rewrite Hm; left).
    apply k_any_true, elem_of_map. exists m. by rewrite Hc.
Qed.
Lemma resolved_verdict input : input_ok input -> verdict (resolved input) = scope_membership input.
Proof.
  intros (_ & Hok & _). unfold scope_membership, resolved, sources in *.
  assert (forall s, (forall m, m ∈ s -> m ∈ di_targets input ++ default [] (di_limitations input) ++ di_exclusions input) ->
    union s = if is_empty (matching s) then if unknown s then KUnknown else KFalse else KTrue) as Hu.
  { intros s Hs. apply union_spec. intros m Hm. by destruct (Hok m (Hs m Hm)) as (_ & ? & ? & _). }
  rewrite (Hu (di_targets input)), (Hu (di_exclusions input)) by set_solver.
  unfold refine_reasons, explanation.
  destruct (di_limitations input) as [limits|] eqn:Hl; simpl.
  - rewrite (Hu limits) by set_solver.
    destruct (matching (di_targets input)), (matching limits), (matching (di_exclusions input)),
      (unknown (di_targets input)), (unknown limits), (unknown (di_exclusions input)); reflexivity.
  - destruct (matching (di_targets input)), (matching (di_exclusions input)),
      (unknown (di_targets input)), (unknown (di_exclusions input)); reflexivity.
Qed.

(** ** Only the sets of sources matter *)
Lemma matching_ext s s' : (forall m, m ∈ s <-> m ∈ s') -> matching s = matching s'.
Proof.
  intros H. apply sorted_ext; [apply bs_of_list_sorted..|]. intros r. rewrite !matching_elem. naive_solver.
Qed.
Lemma unknown_ext s s' : (forall m, m ∈ s <-> m ∈ s') -> unknown s = unknown s'.
Proof.
  intros H. apply eq_true_iff_eq. unfold unknown. rewrite !existsb_true_iff. naive_solver.
Qed.
Record same_sources (i i' : DeviceInput) : Prop := {
  same_device : di_device i = di_device i';
  same_targets : forall m, m ∈ di_targets i <-> m ∈ di_targets i';
  same_restricted : is_Some (di_limitations i) <-> is_Some (di_limitations i');
  same_limitations : forall m, m ∈ default [] (di_limitations i) <-> m ∈ default [] (di_limitations i');
  same_exclusions : forall m, m ∈ di_exclusions i <-> m ∈ di_exclusions i'
}.
Lemma same_sources_ok i i' :
  same_sources i i' -> zlen (sources i') <= 3000 -> input_ok i -> input_ok i'.
Proof.
  intros [Hd Ht _ Hl He] Hlen (_ & Hok & Hag & Hn).
  assert (forall m, m ∈ sources i <-> m ∈ sources i') as Hs.
  { intros m. unfold sources. by rewrite !elem_of_app, Ht, Hl, He. }
  split_and!; [done|..].
  - intros m Hm. rewrite <-Hd. by apply Hok, Hs.
  - intros m m' Hm Hm'. apply Hag; by apply Hs.
  - erewrite bs_of_list_ext; [exact Hn|]. intros k. rewrite !elem_of_map. naive_solver.
Qed.
Lemma same_sources_resolved i i' : same_sources i i' -> resolved i = resolved i'.
Proof.
  intros [Hd Ht Hr Hl He]. unfold resolved, refine_reasons.
  rewrite Hd, (matching_ext _ _ Ht), (matching_ext _ _ He), (matching_ext _ _ Hl).
  rewrite (unknown_ext _ _ Ht), (unknown_ext _ _ He), (unknown_ext _ _ Hl).
  assert (match di_limitations i with Some _ => true | None => false end =
          match di_limitations i' with Some _ => true | None => false end) as ->; [|done].
  destruct (di_limitations i), (di_limitations i'); try done.
  - by destruct (proj1 Hr ltac:(by eexists)).
  - by destruct (proj2 Hr ltac:(by eexists)).
Qed.
End Laws.

(** ** More evidence *)
Section Evidence.
Context `{RC : RequestContext} `{CT : Contract}.

(** The same sources with at least as much evidence about each. *)
Definition evidence_le (s s' : list SourceMembership) : Prop :=
  Forall2 (fun m m' => contains_k3 (sm_contains m) ⊑k contains_k3 (sm_contains m')) s s'.
Definition input_le (i i' : DeviceInput) : Prop :=
  evidence_le (di_targets i) (di_targets i') /\
  match di_limitations i, di_limitations i' with
  | None, None => True
  | Some l, Some l' => evidence_le l l'
  | _, _ => False
  end /\ evidence_le (di_exclusions i) (di_exclusions i').
Lemma union_mono s s' : evidence_le s s' -> union s ⊑k union s'.
Proof. intros H. apply k_any_mono. by apply Forall2_fmap_2. Qed.
Lemma scope_membership_mono i i' : input_le i i' -> scope_membership i ⊑k scope_membership i'.
Proof.
  intros (Ht & Hl & He). unfold scope_membership.
  apply k_and_mono; [by apply union_mono|]. apply k_and_mono; [|by apply k_not_mono, union_mono].
  destruct (di_limitations i), (di_limitations i'); try done; by apply union_mono.
Qed.
End Evidence.

(** ** Properties *)
Section Properties.
Context `{RC : RequestContext} `{CT : Contract}.

(** C2: an accepted device is retained exactly when it is, in three-valued set algebra, a
    member of the union of the targets, of the limitation when there is one, and of no
    exclusion; it is removed for certain exactly when that value is false, and an undecided
    source never retains a device. *)
Theorem resolve_device_verdict input r :
  resolve_device input = Ok r -> verdict r = scope_membership input.
Proof. intros [Hok ->]%resolve_device_ok. by apply resolved_verdict. Qed.

(** The inputs that resolution accepts are exactly those within the limits whose sources
    all belong to the device's tenant, are complete, agree wherever they repeat a snapshot,
    and, for a direct source, contain exactly its device. *)
Theorem resolve_device_accepts input :
  is_ok (resolve_device input) = true <-> input_ok input.
Proof.
  split.
  - destruct (resolve_device input) as [r|e|] eqn:H; [|done|done]. intros _. apply resolve_device_ok in H. by destruct H.
  - intros Hok. by rewrite (proj2 (resolve_device_ok input _) (conj Hok eq_refl)).
Qed.

(** The explanation of a device lists, sorted and without repetition, exactly the
    sources of each role that confirm it, and it names an explicit exclusion exactly when
    an exclusion source confirms the device. *)
Theorem resolve_device_explains input e :
  resolve_device input = Ok (Some e) ->
  me_object e = di_device input /\
  me_targets e = matching (di_targets input) /\
  me_limitations e = matching (default [] (di_limitations input)) /\
  me_exclusions e = matching (di_exclusions input) /\
  sorted (me_targets e) /\ sorted (me_limitations e) /\ sorted (me_exclusions e) /\
  (forall r, r ∈ me_targets e <->
     exists m, m ∈ di_targets input /\ sm_contains m = Known true /\ sm_source m = r) /\
  (ExplicitExclusion ∈ me_reasons e <-> me_exclusions e <> []).
Proof.
  intros [_ H]%resolve_device_ok. unfold resolved in H.
  destruct (_ && _); [done|].
  assert (forall s, sorted (matching s)) as Hs by (intros; apply bs_of_list_sorted).
  destruct (negb _) eqn:He; injection H as ->; simpl in *.
  - split_and!; try done; [apply matching_elem|].
    destruct (matching (di_exclusions input)); simpl in *; [done|].
    split; [done|]. intros _. apply elem_of_app. right. left.
  - split_and!; try done; [apply matching_elem|].
    destruct (matching (di_exclusions input)); simpl in *; [|done].
    split; [|done]. unfold refine_reasons, explanation. simpl.
    destruct (di_limitations input) as [limits|], (matching (di_targets input)); simpl;
      try destruct (matching limits); simpl; try destruct (unknown limits); simpl;
      destruct (unknown (di_exclusions input)); simpl; set_solver.
Qed.

(** Resolution depends only on the set of sources in each role: reordering or repeating
    them, within the limit on their number, changes neither acceptance nor the result. *)
Theorem resolve_device_canonical i i' r :
  same_sources i i' -> zlen (sources i') <= 3000 ->
  resolve_device i = Ok r -> resolve_device i' = Ok r.
Proof.
  intros Hs Hlen [Hok ->]%resolve_device_ok. apply resolve_device_ok. split.
  - by eapply same_sources_ok.
  - by apply same_sources_resolved.
Qed.

(** Resolution is monotone in the evidence: once a device is retained or removed for
    certain, deciding further sources of the same input does not change that. *)
Theorem resolve_device_monotone i i' r r' :
  input_le i i' -> resolve_device i = Ok r -> resolve_device i' = Ok r' ->
  verdict r <> KUnknown -> verdict r' = verdict r.
Proof.
  intros Hle [Hok ->]%resolve_device_ok [Hok' ->]%resolve_device_ok.
  rewrite !resolved_verdict by done. intros Hk.
  by destruct (scope_membership_mono _ _ Hle) as [|].
Qed.
End Properties.

(** ** Closed examples *)
Module Witnesses.
Import Reference.
Definition noon : Timepoint := Time 43200 eq_refl.
Definition device : Key := mk_Key tenant_a (lit "pc-1").
Definition source (group : rstr) (m : Membership) : SourceMembership :=
  mk_SourceMembership (mk_SourceRef (Group (mk_Key tenant_a group)) 1 noon) m.
Definition direct : SourceMembership :=
  mk_SourceMembership (mk_SourceRef (Direct device) 1 noon) (Known true).
Definition input (m : Membership) : DeviceInput :=
  mk_DeviceInput device [source (lit "staff") Unknown; direct] (Some [source (lit "site") (Known true)])
    [source (lit "quarantine") m].
Definition shuffled : DeviceInput :=
  mk_DeviceInput device [direct; source (lit "staff") Unknown; direct]
    (Some [source (lit "site") (Known true)]) [source (lit "quarantine") Unknown].
Definition result (m : Membership) : option MemberExplanation := get None (resolve_device (input m)).
Lemma accepted_unknown : resolve_device (input Unknown) = Ok (result Unknown).
Proof. apply is_ok_get. vm_compute. reflexivity. Qed.
Lemma accepted_known : resolve_device (input (Known true)) = Ok (result (Known true)).
Proof. apply is_ok_get. vm_compute. reflexivity. Qed.
Lemma resolve_device_verdict_witness :
  scope_membership (input Unknown) = KUnknown /\ verdict (result Unknown) = KUnknown.
Proof.
  assert (scope_membership (input Unknown) = KUnknown) as H by reflexivity.
  split; [exact H|]. rewrite <-H. exact (resolve_device_verdict (input Unknown) _ accepted_unknown).
Defined.
Lemma resolve_device_explains_witness :
  match result (Known true) with
  | Some e => ExplicitExclusion ∈ me_reasons e <-> me_exclusions e <> []
  | None => False
  end.
Proof.
  pose proof accepted_known as H.
  assert (bool_decide (is_Some (result (Known true))) = true) as Hs by (vm_compute; reflexivity).
  destruct (result (Known true)) as [e|] eqn:He; [|discriminate Hs].
  apply (resolve_device_explains (input (Known true)) e H).
Defined.
Lemma resolve_device_canonical_witness : resolve_device shuffled = Ok (result Unknown).
Proof.
  apply (resolve_device_canonical (input Unknown)).
  - split; simpl; try done; set_solver.
  - by compute.
  - exact accepted_unknown.
Defined.
Lemma resolve_device_monotone_witness :
  verdict (get None (resolve_device (mk_DeviceInput device [source (lit "staff") (Known false); direct]
    (Some [source (lit "site") (Known true)]) [source (lit "quarantine") (Known true)])))
  = verdict (result (Known true)).
Proof.
  apply (resolve_device_monotone (input (Known true))
    (mk_DeviceInput device [source (lit "staff") (Known false); direct]
      (Some [source (lit "site") (Known true)]) [source (lit "quarantine") (Known true)])).
  - unfold input_le, evidence_le, k_le. simpl. split_and!; repeat (apply List.Forall2_nil || apply List.Forall2_cons); simpl; auto.
  - exact accepted_known.
  - apply is_ok_get. vm_compute. reflexivity.
  - intros H. vm_compute in H. discriminate H.
Defined.
End Witnesses.
