(* ===== verification/Compliance.v ===== *)
(** * Compliance: decisions, definitions and assessments ([crates/compliance/src])

    Status of one rule on one device, the aggregate over rules, and the assessment record
    whose status and reason must be the conclusion of its own evidence. *)
From S2P Require Import Prelude Ordered Text External Kleene Json.

(** ** Decisions ([lib.rs]) *)
Inductive Status : Type := Compliant | NonCompliant | SUnknown | NotApplicable.
Inductive Decision : Type := Match | NoMatch | Unknown.
#[export] Instance Status_eq_dec : EqDecision Status.
Proof. solve_decision. Defined.
#[export] Instance Decision_eq_dec : EqDecision Decision.
Proof. solve_decision. Defined.
#[export] Program Instance Decision_three_valued : ThreeValued Decision := {|
  to_k3 d := match d with Match => KTrue | NoMatch => KFalse | Unknown => KUnknown end;
  of_k3 a := match a with KTrue => Match | KFalse => NoMatch | KUnknown => Unknown end
|}.
Next Obligation. by intros []. Qed.
Next Obligation. by intros []. Qed.

Definition assess (applicable condition : Decision) : Status :=
  match applicable with
  | NoMatch => NotApplicable
  | Unknown => SUnknown
  | Match => match condition with
             | Match => Compliant
             | NoMatch => NonCompliant
             | Unknown => SUnknown
             end
  end.
Inductive Current : Type :=
| CCompliant | CNonCompliant | CUnknown | CNotApplicable | CPending.
#[export] Instance Current_eq_dec : EqDecision Current.
Proof. solve_decision. Defined.
Definition Current_from (s : Status) : Current :=
  match s with
  | Compliant => CCompliant
  | NonCompliant => CNonCompliant
  | SUnknown => CUnknown
  | NotApplicable => CNotApplicable
  end.
Definition rank (s : Current) : Z :=
  match s with
  | CNotApplicable => 0 | CCompliant => 1 | CPending => 2 | CUnknown => 3 | CNonCompliant => 4
  end.
Definition aggregate_step (best : option Current) (item : Current) : option Current :=
  match best with
  | None => Some item
  | Some old => if rank old <? rank item then Some item else best
  end.
Definition aggregate (items : list Current) : Current :=
  default CUnknown (foldl aggregate_step None items).

Definition union (a b : Decision) : Decision :=
  match a, b with
  | Match, _ | _, Match => Match
  | Unknown, _ | _, Unknown => Unknown
  | _, _ => NoMatch
  end.
Definition intersection (a b : Decision) : Decision :=
  match a, b with
  | NoMatch, _ | _, NoMatch => NoMatch
  | Unknown, _ | _, Unknown => Unknown
  | _, _ => Match
  end.

(** ** Definitions and evidence ([model.rs]) *)
Inductive Invalid : Type := InvDefinition | InvInput | InvAssessment | InvEvidence.
Inductive Severity : Type := Low | Medium | High | Critical.
Inductive Platform : Type := PAll | Windows | Macos.
#[export] Instance Platform_eq_dec : EqDecision Platform.
Proof. solve_decision. Defined.
Inductive Outcome : Type := OMatch | ONoMatch | ONull | OMissing | ODeleted | OUnsupported | OConflict.
Inductive Reason : Type :=
| PlatformNotApplicable | GroupNotApplicable | PlatformUnknown | GroupUnknown
| RuleSatisfied | RuleFailed | FactsUnknown.
#[export] Instance Reason_eq_dec : EqDecision Reason.
Proof. solve_decision. Defined.
Record FactReference : Type := mk_FactReference {
  fr_source : rstr; fr_dataset : option rstr; fr_registration : option rstr;
  fr_registration_generation : option Z; fr_epoch : option rstr; fr_snapshot_id : rstr;
  fr_observed_at : Z; fr_received_at : Z; fr_actor : option rstr
}.
Record SourceReference : Type := mk_SourceReference {
  sr_source : rstr; sr_registration : rstr; sr_generation : rstr; sr_epoch : rstr
}.
Record FieldEvidence : Type := mk_FieldEvidence {
  fe_context : rstr; fe_field : rstr; fe_sources : list FactReference
}.
Record Explanation : Type := mk_Explanation {
  ex_context : rstr; ex_path : list Z; ex_outcome : Outcome
}.
Definition text (v : rstr) (max : Z) : bool :=
  negb (is_empty (trim v)) && (zlen v <=? max) && negb (has_control v).
Definition platform_decision (platform : Platform) (sources : list SourceReference) : Decision :=
  if bool_decide (platform = PAll) then Match else
  let windows := existsb (fun s => bool_decide (sr_source s = lit "mdm.windows")) sources in
  let macos := existsb (fun s => bool_decide (sr_source s = lit "mdm.apple")) sources in
  match windows, macos with
  | true, false => if bool_decide (platform = Windows) then Match else NoMatch
  | false, true => if bool_decide (platform = Macos) then Match else NoMatch
  | _, _ => Unknown
  end.

Section Compliance.
Context `{UC : UuidCrate} `{SJ : SerdeJson}.

Inductive Target : Type := TAll | TGroups (ids : list Uuid).
(** [C] is the host's predicate type and [F] its asset cut; neither is inspected. *)
Record Definition_ (C : Type) : Type := mk_Definition {
  d_presentation : list (rstr * Json Number); d_severity : Severity; d_enabled : bool;
  d_platform : Platform; d_target : Target; d_criteria : C
}.
#[global] Arguments mk_Definition {C}.
#[global] Arguments d_presentation {C}.
#[global] Arguments d_severity {C}.
#[global] Arguments d_enabled {C}.
#[global] Arguments d_platform {C}.
#[global] Arguments d_target {C}.
#[global] Arguments d_criteria {C}.
Definition Definition_groups {C} (d : Definition_ C) : list Uuid :=
  match d_target d with TAll => [] | TGroups ids => ids end.
Definition Definition_validate {C} (d : Definition_ C) : res Invalid () :=
  _ ← reject (negb (presentation_valid (d_presentation d) 65536)
              || negb (match bm_get (lit "name") (d_presentation d) with
                       | Some (JString name) => text name 128
                       | _ => false
                       end)) InvDefinition;
  match d_target d with
  | TGroups ids =>
      reject (is_empty ids || (16 <? zlen ids) || existsb is_nil ids
              || negb (zlen (bs_of_list ids) =? zlen ids)) InvDefinition
  | TAll => Ok ()
  end.

Record GroupInput (F : Type) : Type := mk_GroupInput {
  gi_id : Uuid; gi_revision : Z; gi_member_set : option Uuid; gi_member_version : Z;
  gi_asset_cut : option F; gi_ready : bool
}.
#[global] Arguments mk_GroupInput {F}.
#[global] Arguments gi_id {F}.
#[global] Arguments gi_revision {F}.
#[global] Arguments gi_member_set {F}.
#[global] Arguments gi_member_version {F}.
#[global] Arguments gi_asset_cut {F}.
#[global] Arguments gi_ready {F}.
Record Input (C F : Type) : Type := mk_Input {
  in_rule : Uuid; in_revision : Z; in_definition : Definition_ C; in_asset_cut : F;
  in_evaluated_at : Z; in_groups : list (GroupInput F)
}.
#[global] Arguments mk_Input {C F}.
#[global] Arguments in_rule {C F}.
#[global] Arguments in_revision {C F}.
#[global] Arguments in_definition {C F}.
#[global] Arguments in_asset_cut {C F}.
#[global] Arguments in_evaluated_at {C F}.
#[global] Arguments in_groups {C F}.
Definition Input_validate {C F} (i : Input C F) : res Invalid () :=
  _ ← Definition_validate (in_definition i);
  _ ← reject (is_nil (in_rule i) || (in_revision i <? 1) || (in_evaluated_at i <? 0)) InvInput;
  let expected := bs_of_list (Definition_groups (in_definition i)) in
  _ ← reject (negb (zlen (in_groups i) =? zlen expected)
              || negb (bool_decide (bs_of_list (map gi_id (in_groups i)) = expected))) InvInput;
  reject (existsb (fun g => (gi_revision g <? 1) || (gi_member_version g <? 0)) (in_groups i)) InvInput.

Record GroupEvidence : Type := mk_GroupEvidence {
  ge_id : Uuid; ge_member_set : option Uuid; ge_decision : Decision
}.
Record Applicability : Type := mk_Applicability {
  ap_platform : Platform; ap_platform_decision : Decision; ap_sources : list SourceReference;
  ap_groups : list GroupEvidence
}.
Definition group_decision (a : Applicability) : Decision :=
  if is_empty (ap_groups a) then Match
  else foldl (fun old g => union old (ge_decision g)) NoMatch (ap_groups a).
Definition Applicability_decision (a : Applicability) : Decision :=
  intersection (ap_platform_decision a) (group_decision a).
Definition conclusion (a : Applicability) (condition : Decision) : Status * Reason :=
  let status := assess (Applicability_decision a) condition in
  let reason :=
    match status with
    | NotApplicable =>
        if bool_decide (ap_platform_decision a = NoMatch) then PlatformNotApplicable
        else GroupNotApplicable
    | SUnknown =>
        if bool_decide (ap_platform_decision a = Unknown) then PlatformUnknown
        else if bool_decide (group_decision a = Unknown) then GroupUnknown
        else FactsUnknown
    | Compliant => RuleSatisfied
    | NonCompliant => RuleFailed
    end in
  (status, reason).

Record Assessment (F : Type) : Type := mk_Assessment {
  a_rule_id : Uuid; a_rule_version : Z; a_dictionary_version : rstr; a_asset_cut : F;
  a_evaluated_at : Z; a_groups : list (GroupInput F); a_status : Status; a_reason : Reason;
  a_condition : Decision; a_applicability : Applicability; a_explanations : list Explanation;
  a_evidence : list FieldEvidence
}.
#[global] Arguments mk_Assessment {F}.
#[global] Arguments a_rule_id {F}.
#[global] Arguments a_rule_version {F}.
#[global] Arguments a_dictionary_version {F}.
#[global] Arguments a_asset_cut {F}.
#[global] Arguments a_evaluated_at {F}.
#[global] Arguments a_groups {F}.
#[global] Arguments a_status {F}.
#[global] Arguments a_reason {F}.
#[global] Arguments a_condition {F}.
#[global] Arguments a_applicability {F}.
#[global] Arguments a_explanations {F}.
#[global] Arguments a_evidence {F}.
(** The [for] loop over [zip]: stops at the shorter list. *)
Definition groups_match {F} (groups : list (GroupInput F)) (evidence : list GroupEvidence)
    : res Invalid () :=
  res_for (fun _ '(g, p) =>
    reject (negb (bool_decide (gi_id g = ge_id p))
            || negb (bool_decide (gi_member_set g = ge_member_set p))) InvAssessment)
    (combine groups evidence) ().
Definition evidence_invalid (e : FieldEvidence) : bool :=
  negb (text (fe_field e) 256) || (2 <? zlen (fe_sources e))
  || existsb (fun s => negb (text (fr_source s) 128) || negb (text (fr_snapshot_id s) 1024))
       (fe_sources e).
Definition Assessment_validate {F} (a : Assessment F) : res Invalid () :=
  _ ← reject (is_nil (a_rule_id a) || (a_rule_version a <? 1) || (a_evaluated_at a <? 0)
              || negb (text (a_dictionary_version a) 128)) InvAssessment;
  _ ← reject ((16 <? zlen (a_groups a)) || existsb (fun g => negb (gi_ready g)) (a_groups a)
              || negb (zlen (a_groups a) =? zlen (ap_groups (a_applicability a)))) InvAssessment;
  _ ← groups_match (a_groups a) (ap_groups (a_applicability a));
  _ ← reject ((1024 <? zlen (a_explanations a)) || (256 <? zlen (a_evidence a))) InvAssessment;
  _ ← reject (negb (bool_decide (ap_platform_decision (a_applicability a)
                = platform_decision (ap_platform (a_applicability a)) (ap_sources (a_applicability a))))
              || negb (bool_decide (conclusion (a_applicability a) (a_condition a)
                                    = (a_status a, a_reason a)))) InvAssessment;
  reject (existsb evidence_invalid (a_evidence a)) InvEvidence.
Definition Assessment_evaluate {C F} (input : Input C F) (dictionary : rstr) (condition : Decision)
    (applicability : Applicability) (explanations : list Explanation)
    (evidence : list FieldEvidence) : res Invalid (Assessment F) :=
  _ ← Input_validate input;
  let '(status, reason) := conclusion applicability condition in
  let result := mk_Assessment (in_rule input) (in_revision input) dictionary (in_asset_cut input)
    (in_evaluated_at input) (in_groups input) status reason condition applicability
    explanations evidence in
  _ ← Assessment_validate result;
  Ok result.
End Compliance.
