(* ===== verification/ComplianceProperties.v ===== *)
(** * Compliance: specification and properties

    Conclusions against three-valued logic, the aggregate as the worst current status, and
    what a validated definition or assessment guarantees. *)
From S2P Require Import Prelude Ordered Text External Kleene Json Compliance.

Section Laws.
Context `{UC : UuidCrate} `{SJ : SerdeJson}.

(** ** Decisions as three-valued connectives *)
Lemma union_k3 a b : to_k3 (union a b) = k_or (to_k3 a) (to_k3 b).
Proof. by destruct a, b. Qed.
Lemma intersection_k3 a b : to_k3 (intersection a b) = k_and (to_k3 a) (to_k3 b).
Proof. by destruct a, b. Qed.
Definition groups_k3 (a : Applicability) : k3 :=
  if is_empty (ap_groups a) then KTrue
  else k_any (map (fun g => to_k3 (ge_decision g)) (ap_groups a)).
Lemma group_decision_k3 a : to_k3 (group_decision a) = groups_k3 a.
Proof.
  unfold group_decision, groups_k3. destruct (is_empty _); [done|].
  assert (forall d, to_k3 (foldl (fun old g => union old (ge_decision g)) d (ap_groups a)) =
    k_or (to_k3 d) (k_any (map (fun g => to_k3 (ge_decision g)) (ap_groups a)))) as Hf.
  { induction (ap_groups a) as [|g l IH]; intros d; simpl; [by destruct d|].
    by rewrite IH, union_k3, k_or_assoc. }
  rewrite Hf. by destruct (k_any _).
Qed.
(** The status of a rule in three-valued logic. *)
Definition status_k3 (applicable condition : k3) : Status :=
  match applicable, condition with
  | KFalse, _ => NotApplicable
  | KUnknown, _ | KTrue, KUnknown => SUnknown
  | KTrue, KTrue => Compliant
  | KTrue, KFalse => NonCompliant
  end.
Lemma assess_k3 a c : assess a c = status_k3 (to_k3 a) (to_k3 c).
Proof. by destruct a, c. Qed.

(** ** Aggregation *)
Lemma rank_inj a b : rank a = rank b -> a = b.
Proof. by destruct a, b. Qed.
Lemma aggregate_fold items old :
  exists s, foldl aggregate_step (Some old) items = Some s /\ s ∈ old :: items /\
            forall x, x ∈ old :: items -> rank x <= rank s.
Proof.
  revert old. induction items as [|item items IH]; intros old; simpl.
  - exists old. split_and!; [done|left|]. intros x [->|Hx]%elem_of_cons; [lia|inversion Hx].
  - destruct (Z.ltb_spec (rank old) (rank item)).
    + destruct (IH item) as (s & -> & Hin & Hmax). exists s. split_and!; [done|by right|].
      pose proof (Hmax item ltac:(left)).
      intros x [->|Hx]%elem_of_cons; [lia|by apply Hmax].
    + destruct (IH old) as (s & -> & Hin & Hmax). exists s. split_and!; [done|set_solver|].
      pose proof (Hmax old ltac:(left)).
      intros x [->|[->|Hx]%elem_of_cons]%elem_of_cons; [lia|lia|]. apply Hmax. by right.
Qed.

(** ** What validation guarantees *)
Definition definition_ok {C} (d : Definition_ C) : Prop :=
  (members_size (d_presentation d) <= 4096 /\ members_depth (d_presentation d) <= 16 /\
   members_ok (d_presentation d) /\
   exists bytes, to_vec (d_presentation d) = Some bytes /\ zlen bytes <= 65536) /\
  (exists name, bm_get (lit "name") (d_presentation d) = Some (JString name) /\
                text name 128 = true) /\
  match d_target d with
  | TAll => True
  | TGroups ids => ids <> [] /\ zlen ids <= 16 /\ NoDup ids /\ forall id, id ∈ ids -> is_nil id = false
  end.
Lemma Definition_validate_ok {C} (d : Definition_ C) :
  Definition_validate d = Ok () <-> definition_ok d.
Proof.
  unfold Definition_validate, definition_ok. rewrite <-presentation_valid_iff, bind_ok.
  setoid_rewrite reject_ok. setoid_rewrite orb_false_iff. setoid_rewrite negb_false_iff.
  assert (match bm_get (lit "name") (d_presentation d) with
          | Some (JString name) => text name 128 | _ => false end = true <->
          exists name, bm_get (lit "name") (d_presentation d) = Some (JString name) /\
                       text name 128 = true) as Hname.
  { destruct (bm_get _ _) as [[]|]; naive_solver. }
  setoid_rewrite Hname.
  assert (match d_target d with
          | TAll => Ok ()
          | TGroups ids =>
              reject (is_empty ids || (16 <? zlen ids) || existsb is_nil ids
                      || negb (zlen (bs_of_list ids) =? zlen ids)) InvDefinition
          end = Ok () <->
          match d_target d with
          | TAll => True
          | TGroups ids => ids <> [] /\ zlen ids <= 16 /\ NoDup ids /\
                           forall id, id ∈ ids -> is_nil id = false
          end) as Htarget.
  { destruct (d_target d) as [|ids]; [done|].
    rewrite reject_ok, !orb_false_iff, negb_false_iff, existsb_false_iff, Z.ltb_ge, Z.eqb_eq.
    rewrite <-length_bs_of_list_nodup. unfold zlen. rewrite Nat2Z.inj_iff.
    destruct ids; naive_solver. }
  setoid_rewrite Htarget. split; [intros (u & ? & ?); tauto|]. intros ?. exists (). tauto.
Qed.
(** The groups that accompany an input are the definition's, each exactly once. *)
Lemma Input_validate_ok {C F} (i : Input C F) :
  Input_validate i = Ok () ->
  definition_ok (in_definition i) /\ is_nil (in_rule i) = false /\ 1 <= in_revision i /\
  0 <= in_evaluated_at i /\
  map gi_id (in_groups i) ≡ₚ Definition_groups (in_definition i).
Proof.
  intros H. unfold Input_validate in H. inv_ok. bool_hyps.
  destruct a. apply Definition_validate_ok in E. split_and!; try done.
  destruct E as (_ & _ & Ht). unfold Definition_groups in *.
  assert (NoDup (Definition_groups (in_definition i))) as Hnd.
  { unfold Definition_groups. destruct (d_target _); [constructor|]. by destruct Ht as (_ & _ & ? & _). }
  fold (Definition_groups (in_definition i)) in *.
  assert (forall x, x ∈ map gi_id (in_groups i) <-> x ∈ Definition_groups (in_definition i)) as Hel.
  { intros x. rewrite <-(elem_of_bs_of_list x (map gi_id (in_groups i))).
    by rewrite <-(elem_of_bs_of_list x (Definition_groups _)), H1. }
  apply NoDup_Permutation; [|done|done]. apply length_bs_of_list_nodup. rewrite H1.
  unfold zlen in *. rewrite length_map. apply Nat2Z.inj. lia.
Qed.
Lemma groups_match_ok {F} (gs : list (GroupInput F)) es u :
  zlen gs = zlen es -> groups_match gs es = Ok u <->
  map gi_id gs = map ge_id es /\ map gi_member_set gs = map ge_member_set es.
Proof.
  unfold groups_match. revert es. induction gs as [|g gs IH]; intros [|e es] Hlen;
    rewrite ?zlen_cons in Hlen; try (exfalso; unfold zlen in *; simpl in *; lia).
  { destruct u. done. }
  cbn [combine res_for map]. rewrite bind_ok. setoid_rewrite reject_ok. setoid_rewrite orb_false_iff.
  setoid_rewrite negb_false_iff. setoid_rewrite bool_decide_eq_true.
  assert (zlen gs = zlen es) as Hlen' by lia. specialize (IH es Hlen').
  split.
  - intros ([] & [H1 H2] & H). apply IH in H as [-> ->]. by rewrite H1, H2.
  - intros [[= H1 H1'] [= H2 H2']]. exists (). split; [done|]. by apply IH.
Qed.
Definition assessment_ok {F} (a : Assessment F) : Prop :=
  let ap := a_applicability a in
  (is_nil (a_rule_id a) = false /\ 1 <= a_rule_version a /\ 0 <= a_evaluated_at a /\
   text (a_dictionary_version a) 128 = true) /\
  (zlen (a_groups a) <= 16 /\ (forall g, g ∈ a_groups a -> gi_ready g = true) /\
   map gi_id (a_groups a) = map ge_id (ap_groups ap) /\
   map gi_member_set (a_groups a) = map ge_member_set (ap_groups ap)) /\
  zlen (a_explanations a) <= 1024 /\ zlen (a_evidence a) <= 256 /\
  ap_platform_decision ap = platform_decision (ap_platform ap) (ap_sources ap) /\
  (a_status a, a_reason a) = conclusion ap (a_condition a) /\
  (forall e, e ∈ a_evidence a -> evidence_invalid e = false).
Lemma Assessment_validate_ok {F} (a : Assessment F) :
  Assessment_validate a = Ok () <-> assessment_ok a.
Proof.
  unfold Assessment_validate, assessment_ok. split.
  - intros H. inv_ok. bool_hyps. apply groups_match_ok in E1 as [? ?]; [|done].
    match goal with H : existsb _ (a_groups a) = false |- _ => rename H into Hready end.
    match goal with H : existsb _ (a_evidence a) = false |- _ => rename H into Hev end.
    rewrite existsb_false_iff in Hready. rewrite existsb_false_iff in Hev. split_and!; try done; try lia.
    intros g Hg. apply negb_false_iff. by apply Hready.
  - intros ((Hr & Hv & He & Hd) & (Hn & Hg & Hid & Hms) & Hx & Hev & Hp & Hc & Hs).
    assert (zlen (a_groups a) = zlen (ap_groups (a_applicability a))) as Hlen.
    { unfold zlen. apply (f_equal length) in Hid. rewrite !length_map in Hid. lia. }
    rewrite Hr, Hd. rewrite (proj2 (Z.ltb_ge _ _) Hv), (proj2 (Z.ltb_ge _ _) He).
    rewrite (proj2 (Z.ltb_ge _ _) Hn), (proj2 (Z.eqb_eq _ _) Hlen). simpl.
    assert (existsb (fun g => negb (gi_ready g)) (a_groups a) = false) as ->
      by (apply existsb_false_iff; intros g ?; by rewrite Hg). simpl.
    rewrite (proj2 (groups_match_ok _ _ () Hlen)) by done. simpl.
    rewrite (proj2 (Z.ltb_ge _ _) Hx), (proj2 (Z.ltb_ge _ _) Hev). simpl.
    rewrite bool_decide_eq_true_2 by done. rewrite bool_decide_eq_true_2 by done. simpl.
    assert (existsb evidence_invalid (a_evidence a) = false) as -> by by apply existsb_false_iff.
    done.
Qed.
End Laws.

(** ** Properties *)
Section Properties.
Context `{UC : UuidCrate} `{SJ : SerdeJson}.

(** The conclusion of an assessment is strong three-valued logic: the status is that of
    the platform decision conjoined with the union of the group decisions, and the reason
    names the first undecided or failing cause, platform before groups before facts. *)
Theorem conclusion_spec a c s r :
  conclusion a c = (s, r) ->
  let p := to_k3 (ap_platform_decision a) in
  let g := groups_k3 a in
  s = status_k3 (k_and p g) (to_k3 c) /\
  (r = PlatformNotApplicable <-> p = KFalse) /\
  (r = GroupNotApplicable <-> p <> KFalse /\ g = KFalse) /\
  (r = PlatformUnknown <-> p = KUnknown /\ g <> KFalse) /\
  (r = GroupUnknown <-> p = KTrue /\ g = KUnknown) /\
  (r = FactsUnknown <-> p = KTrue /\ g = KTrue /\ c = Unknown) /\
  (r = RuleSatisfied <-> p = KTrue /\ g = KTrue /\ c = Match) /\
  (r = RuleFailed <-> p = KTrue /\ g = KTrue /\ c = NoMatch).
Proof.
  unfold conclusion. intros [= <- <-]. rewrite assess_k3. unfold Applicability_decision.
  rewrite intersection_k3, <-group_decision_k3.
  destruct (ap_platform_decision a), (group_decision a), c; cbv; naive_solver.
Qed.

(** The aggregate of current statuses is the worst of them, and an empty list is never
    compliant; it does not depend on order or repetition. *)
Theorem aggregate_worst items s :
  aggregate items = s <->
  (items = [] /\ s = CUnknown) \/ (s ∈ items /\ forall x, x ∈ items -> rank x <= rank s).
Proof.
  unfold aggregate. destruct items as [|item items]; simpl.
  - split; [by left|]. intros [[_ ->]|[Hs _]]; [done|inversion Hs].
  - destruct (aggregate_fold items item) as (s' & -> & Hin & Hmax). simpl. split.
    + intros <-. by right.
    + intros [[? _]|[Hs Hs']]; [done|]. apply rank_inj.
      pose proof (Hmax _ Hs). pose proof (Hs' _ Hin). lia.
Qed.

(** A definition is valid exactly when its presentation has at most 4096 nodes, depth at
    most 16, well-formed keys, no NUL and at most 65536 serialized bytes, it has a name, and
    its target is everything or 1 to 16 distinct groups with non-nil identities. *)
Theorem definition_valid_iff {C} (d : Definition_ C) :
  Definition_validate d = Ok () <-> definition_ok d.
Proof. apply Definition_validate_ok. Qed.

(** A device reports through the management service of its platform. *)
Definition reports (ap : Applicability) (source : rstr) : Prop := exists s, s ∈ ap_sources ap /\ sr_source s = source.
(** Exactly one service reports the device: that of Windows, that of macOS. *)
Definition only_windows (ap : Applicability) : Prop := reports ap (lit "mdm.windows") /\ ~ reports ap (lit "mdm.apple").
Definition only_macos (ap : Applicability) : Prop := reports ap (lit "mdm.apple") /\ ~ reports ap (lit "mdm.windows").
Lemma reports_iff ap source : existsb (fun s => bool_decide (sr_source s = source)) (ap_sources ap) = true <-> reports ap source.
Proof. rewrite existsb_true_iff. unfold reports. by setoid_rewrite bool_decide_eq_true. Qed.
Lemma reports_not ap source : existsb (fun s => bool_decide (sr_source s = source)) (ap_sources ap) = false <-> ~ reports ap source.
Proof. by rewrite <-reports_iff, not_true_iff_false. Qed.
Lemma platform_decision_spec ap : let d := platform_decision (ap_platform ap) (ap_sources ap) in
  (d = Match <-> ap_platform ap = PAll \/ ap_platform ap = Windows /\ only_windows ap \/ ap_platform ap = Macos /\ only_macos ap) /\
  (d = NoMatch <-> ap_platform ap = Windows /\ only_macos ap \/ ap_platform ap = Macos /\ only_windows ap).
Proof.
  unfold platform_decision, only_windows, only_macos. rewrite <-!reports_not, <-!reports_iff.
  destruct (existsb _ _), (existsb _ _), (ap_platform ap); simpl; naive_solver.
Qed.

(** C40: an assessment that [evaluate] returns is valid and records its inputs unchanged. Its groups are
    those of the definition in some order, all ready. A platform applies when it is every platform
    or the only one whose service reports the device, and does not when only the other reports it.
    The status is that of the platform and the groups in three-valued logic, and of the condition where
    they apply, and the reason names the first undecided or failing cause. *)
Theorem evaluate_sound {C F} (i : Input C F) dictionary condition ap ex ev a :
  Assessment_evaluate i dictionary condition ap ex ev = Ok a ->
  Assessment_validate a = Ok () /\
  a = mk_Assessment (in_rule i) (in_revision i) dictionary (in_asset_cut i) (in_evaluated_at i) (in_groups i) (a_status a) (a_reason a)
        condition ap ex ev /\
  map gi_id (in_groups i) ≡ₚ Definition_groups (in_definition i) /\ map gi_id (in_groups i) = map ge_id (ap_groups ap) /\
  (forall g, g ∈ in_groups i -> gi_ready g = true) /\
  let p := to_k3 (ap_platform_decision ap) in
  let g := groups_k3 ap in
  (p = KTrue <-> ap_platform ap = PAll \/ ap_platform ap = Windows /\ only_windows ap \/ ap_platform ap = Macos /\ only_macos ap) /\
  (p = KFalse <-> ap_platform ap = Windows /\ only_macos ap \/ ap_platform ap = Macos /\ only_windows ap) /\
  a_status a = status_k3 (k_and p g) (to_k3 condition) /\
  match a_reason a with
  | PlatformNotApplicable => p = KFalse
  | GroupNotApplicable => p <> KFalse /\ g = KFalse
  | PlatformUnknown => p = KUnknown /\ g <> KFalse
  | GroupUnknown => p = KTrue /\ g = KUnknown
  | FactsUnknown => p = KTrue /\ g = KTrue /\ condition = Unknown
  | RuleSatisfied => p = KTrue /\ g = KTrue /\ condition = Match
  | RuleFailed => p = KTrue /\ g = KTrue /\ condition = NoMatch
  end.
Proof.
  intros H. unfold Assessment_evaluate in H. apply bind_ok in H as ([] & Hi & H).
  apply Input_validate_ok in Hi as (_ & _ & _ & _ & Hperm).
  destruct (conclusion ap condition) as [status reason] eqn:Hc.
  apply bind_ok in H as ([] & Hv & H). injection H as <-.
  pose proof (proj1 (Assessment_validate_ok _) Hv) as (_ & (_ & Hr & Hid & _) & _ & _ & Hp & _ & _).
  pose proof (conclusion_spec _ _ _ _ Hc) as (Hs & H1 & H2 & H3 & H4 & H5 & H6 & H7).
  destruct (platform_decision_spec ap) as [Hm Hn]. simpl in Hp, Hid. rewrite <-Hp in Hm, Hn. cbv zeta. simpl.
  rewrite <-Hm, <-Hn. split_and!; [done|done|done|done|by apply Hr|by destruct (ap_platform_decision ap)|by destruct (ap_platform_decision ap)|done|].
  destruct reason; naive_solver.
Qed.

(** Validation accepts an assessment exactly when its identities and bounds hold, its
    group evidence matches its frozen groups position by position, its platform decision is
    the one its sources give, and its status and reason are recomputed from that evidence:
    a stored status cannot disagree with its evidence. *)
Theorem assessment_valid_iff {F} (a : Assessment F) :
  Assessment_validate a = Ok () <-> assessment_ok a.
Proof. apply Assessment_validate_ok. Qed.
End Properties.

(** ** Closed examples *)
Module Witnesses.
Import Reference ReferenceJson.
Definition definition : Definition_ unit :=
  mk_Definition [(lit "name", JString (lit "disk encryption"))] High true Windows (TGroups [7; 5]) ().
Definition group (id : Z) : GroupInput unit := mk_GroupInput id 1 (Some 9) 3 None true.
Definition input : Input unit unit := mk_Input 42 2 definition () 1000 [group 5; group 7].
Definition applicability : Applicability :=
  mk_Applicability Windows Match [mk_SourceReference (lit "mdm.windows") [] [] []]
    [mk_GroupEvidence 5 (Some 9) NoMatch; mk_GroupEvidence 7 (Some 9) Match].
Definition fallback : Assessment unit :=
  mk_Assessment 0 0 [] () 0 [] SUnknown FactsUnknown Unknown applicability [] [].
Definition evaluated : Assessment unit :=
  get fallback (Assessment_evaluate input (lit "d1") NoMatch applicability [] []).
Lemma conclusion_spec_witness :
  (a_status evaluated, a_reason evaluated) = (NonCompliant, RuleFailed) /\
  NonCompliant = status_k3 (k_and (to_k3 Match) (groups_k3 applicability)) (to_k3 NoMatch).
Proof.
  split; [vm_compute; reflexivity|].
  exact (proj1 (conclusion_spec applicability NoMatch NonCompliant RuleFailed eq_refl)).
Defined.
Lemma evaluate_sound_witness : Assessment_validate evaluated = Ok ().
Proof.
  assert (Assessment_evaluate input (lit "d1") NoMatch applicability [] [] = Ok evaluated) as H
    by (apply is_ok_get; vm_compute; reflexivity).
  exact (proj1 (evaluate_sound input (lit "d1") NoMatch applicability [] [] evaluated H)).
Defined.
Example aggregate_example : aggregate [CCompliant; CPending; CNotApplicable] = CPending.
Proof. reflexivity. Qed.
Example definition_example : is_ok (Definition_validate definition) = true.
Proof. vm_compute. reflexivity. Qed.
End Witnesses.
