(* ===== verification/Release.v ===== *)
(** * Software release: identities, content and canonical encodings

    Models [crates/software-release/src/{identity,model,fingerprint}.rs]: bounded names,
    SHA-256 digests and their parser, the length-prefixed canonical encoding, immutable
    release content, and the identities computed from them. *)
From S2P Require Import Prelude Ordered Text External.

(** ** Names and digests ([identity.rs]) *)
Inductive Error : Type :=
| InvalidIdentity | InvalidDigest | InvalidArtifacts | TenantMismatch | IdentityMismatch
| RevisionConflict (expected actual : Z)
| Overflow | RequestConflict | InvalidSnapshot | InvalidTime | InvalidTransition
| PublicationClosed | ReconciliationRequired | ResultConflict.

Definition name_byte (b : Z) : bool := is_ascii_alphanumeric b || bool_decide (b ∈ lit "._-/+@").
Definition validate_name (value : rstr) : res Error () :=
  reject (is_empty value || (128 <? str_len value) || negb (forallb name_byte (str_bytes value))
          || existsb (fun s => is_empty s || bool_decide (s = lit ".") || bool_decide (s = lit ".."))
               (split 47 value)) InvalidIdentity.
Definition checked_name (value : rstr) : res Error rstr :=
  _ ← validate_name value; Ok value.

(** [[u8; 32]]. *)
Definition Digest : Type := bytes.
Definition digest_wf (d : Digest) : Prop := length d = 32%nat /\ forallb is_byte d = true.
Definition zero_digest : Digest := repeat 0 32.
(** [u8::from_str_radix(s, 16)] on digits (a sign never reaches it). *)
Definition from_str_radix_16 (s : bytes) : option Z :=
  match s with
  | [] => None
  | _ => foldl (fun acc b =>
           a ← acc; d ← hex_digit b;
           let n := a * 16 + d in if n <? 256 then Some n else None) (Some 0) s
  end.
Definition Digest_parse (value : rstr) : res Error Digest :=
  _ ← reject (negb (str_len value =? 64) || negb (forallb is_ascii_hexdigit (str_bytes value)))
        InvalidDigest;
  res_map (fun i => ok_or (from_str_radix_16 (take 2 (drop (2 * i) (str_bytes value)))) InvalidDigest)
    (seq 0 32).

Section Release.
Context `{RC : RequestContext} `{CT : Contract} `{SH : Sha2}.

(** [PublicationKey], [TargetId], [RequestId] and [ActorId] are tenant-scoped names. *)
Record Identity : Type := mk_Identity { id_tenant : TenantId; id_value : rstr }.
#[export] Instance Identity_eq_dec : EqDecision Identity.
Proof. solve_decision. Defined.
Definition Identity_new (tenant : TenantId) (value : rstr) : res Error Identity :=
  value ← checked_name value; Ok (mk_Identity tenant value).
Definition ActorId_new (tenant : TenantId) (value : rstr) : res Error Identity :=
  _ ← reject (is_empty value || (2048 <? str_len value) || has_control value) InvalidIdentity;
  Ok (mk_Identity tenant value).
Definition Digest_of (content : bytes) : Digest := sha256 content.

(** ** Canonical encoding: the bytes given to the hash so far *)
Definition Encoding : Type := bytes.
Definition enc_number (e : Encoding) (n : Z) : Encoding := e ++ be_bytes 8 n.
Definition enc_bytes (e : Encoding) (b : bytes) : Encoding := enc_number e (zlen b) ++ b.
Definition Encoding_new (domain : bytes) : Encoding := enc_bytes [] domain.
Definition enc_object (e : Encoding) (tenant : TenantId) (value : rstr) : Encoding :=
  enc_bytes (e ++ tenant_octets tenant) (str_bytes value).
Definition enc_digest (e : Encoding) (d : Digest) : Encoding := e ++ d.
Definition Encoding_finish (e : Encoding) : Digest := sha256 e.

(** ** Content ([model.rs]) *)
Record SoftwareIdentity : Type := mk_SoftwareIdentity {
  si_source : rstr; si_package : rstr; si_version : rstr; si_platform : rstr
}.
Definition si_values (s : SoftwareIdentity) : list rstr :=
  [si_source s; si_package s; si_version s; si_platform s].
Definition SoftwareIdentity_new (fields : SoftwareIdentity) : res Error SoftwareIdentity :=
  _ ← res_for (fun _ value => validate_name value) (si_values fields) ();
  Ok fields.
Record Artifact : Type := mk_Artifact { art_key : rstr; art_digest : Digest }.
Definition Artifact_new (key : rstr) (digest : Digest) : res Error Artifact :=
  key ← checked_name key; Ok (mk_Artifact key digest).
Record VariantContent : Type := mk_VariantContent {
  vc_architecture : rstr; vc_variant : rstr; vc_artifacts : list Artifact
}.
Definition VariantContent_new (architecture variant : rstr) (artifacts : list Artifact)
    : res Error VariantContent :=
  architecture ← checked_name architecture;
  variant ← checked_name variant;
  _ ← reject (is_empty artifacts || (256 <? zlen artifacts)) InvalidArtifacts;
  let artifacts := sort_by art_key artifacts in
  _ ← reject (adjacent (fun a b => eqb (art_key a) (art_key b)) artifacts) InvalidArtifacts;
  Ok (mk_VariantContent architecture variant artifacts).
Definition vc_key (v : VariantContent) : rstr * rstr := (vc_architecture v, vc_variant v).
Record Content : Type := mk_Content {
  c_software : SoftwareIdentity; c_description : Digest; c_source_snapshot : Digest;
  c_manifest : Digest; c_variants : list VariantContent
}.
Definition share_artifact (seen : list (rstr * Digest)) (a : Artifact)
    : res Error (list (rstr * Digest)) :=
  _ ← reject (match bm_get (art_key a) seen with
              | Some old => negb (bool_decide (old = art_digest a))
              | None => false
              end) InvalidArtifacts;
  Ok (bm_insert (art_key a) (art_digest a) seen).
Definition Content_new (software : SoftwareIdentity) (description source_snapshot manifest : Digest)
    (variants : list VariantContent) : res Error Content :=
  _ ← reject (is_empty variants || (64 <? zlen variants)
              || (256 <? foldr Z.add 0 (map (fun v => zlen (vc_artifacts v)) variants)))
        InvalidArtifacts;
  let variants := sort_by vc_key variants in
  _ ← reject (adjacent (fun a b => eqb (vc_key a) (vc_key b)) variants) InvalidArtifacts;
  _ ← res_for share_artifact (concat (map vc_artifacts variants)) [];
  Ok (mk_Content software description source_snapshot manifest variants).

Definition enc_artifact (e : Encoding) (a : Artifact) : Encoding :=
  enc_digest (enc_bytes e (str_bytes (art_key a))) (art_digest a).
Definition enc_variant (e : Encoding) (v : VariantContent) : Encoding :=
  let e := enc_bytes e (str_bytes (vc_architecture v)) in
  let e := enc_bytes e (str_bytes (vc_variant v)) in
  foldl enc_artifact (enc_number e (zlen (vc_artifacts v))) (vc_artifacts v).
Definition content_encoding (c : Content) : Encoding :=
  let e := Encoding_new (lit "rss-mdm-software-release/content/v1") in
  let e := foldl (fun e part => enc_bytes e (str_bytes part)) e (si_values (c_software c)) in
  let e := enc_digest e (c_description c) in
  let e := enc_digest e (c_source_snapshot c) in
  let e := enc_digest e (c_manifest c) in
  foldl enc_variant (enc_number e (zlen (c_variants c))) (c_variants c).
Definition Content_digest (c : Content) : Digest := Encoding_finish (content_encoding c).

(** ** Publication data *)
Record Evidence : Type := mk_Evidence { ev_actor : Identity; ev_digest : Digest; ev_at : Timepoint }.
#[export] Instance Evidence_eq_dec : EqDecision Evidence.
Proof. solve_decision. Defined.
Record PublicationBinding : Type := mk_PublicationBinding {
  b_publication : Identity; b_content : Digest; b_target : Identity; b_target_digest : Digest;
  b_evidence : Evidence; b_lifecycle : Digest; b_actor : Identity; b_at : Timepoint
}.
Definition publication_encoding (b : PublicationBinding) : Encoding :=
  let e := Encoding_new (lit "rss-mdm-software-release/publication/v1") in
  let e := enc_object e (id_tenant (b_publication b)) (id_value (b_publication b)) in
  let e := enc_digest e (b_content b) in
  let e := enc_object e (id_tenant (b_target b)) (id_value (b_target b)) in
  enc_digest e (b_target_digest b).
Definition publication_id (b : PublicationBinding) : Digest :=
  Encoding_finish (publication_encoding b).
Inductive PublicationResult : Type :=
| Unknown (e : Evidence) | NotApplied (e : Evidence) | Applied (e : Evidence).
#[export] Instance PublicationResult_eq_dec : EqDecision PublicationResult.
Proof. solve_decision. Defined.
Definition result_evidence (r : PublicationResult) : Evidence :=
  match r with Unknown e | NotApplied e | Applied e => e end.
Inductive PublicationOutcome : Type := Pending | Reported (r : PublicationResult).
#[export] Instance PublicationOutcome_eq_dec : EqDecision PublicationOutcome.
Proof. solve_decision. Defined.
Record Attempt : Type := mk_Attempt {
  at_binding : PublicationBinding; at_attempt : Z; at_requested_at : Timepoint;
  at_outcome : PublicationOutcome
}.
Definition Attempt_id (a : Attempt) : Digest := publication_id (at_binding a).

Definition encode_time (e : Encoding) (t : Timepoint) : Encoding :=
  enc_number e (i64_as_u64 (unix_seconds t)).
Definition encode_evidence (e : Encoding) (ev : Evidence) : Encoding :=
  let e := enc_object e (id_tenant (ev_actor ev)) (id_value (ev_actor ev)) in
  let e := enc_digest e (ev_digest ev) in
  encode_time e (ev_at ev).

(** ** Requests and their fingerprint ([transition.rs], [fingerprint.rs]) *)
Inductive Operation : Type :=
| Retry (publication : Digest) (attempt : Z)
| Record_ (publication : Digest) (attempt : Z) (outcome : PublicationResult)
| Withdraw.
Record Request : Type := mk_Request {
  rq_id : Identity; rq_actor : Identity; rq_expected_revision : Z; rq_as_of : Timepoint;
  rq_operation : Operation
}.
Definition result_tag (r : PublicationResult) : Z :=
  match r with Unknown _ => 0 | NotApplied _ => 1 | Applied _ => 2 end.
Definition enc_operation (e : Encoding) (op : Operation) : Encoding :=
  match op with
  | Retry publication attempt =>
      enc_number (enc_digest (enc_number e 0) publication) attempt
  | Record_ publication attempt outcome =>
      let e := enc_number (enc_digest (enc_number e 1) publication) attempt in
      encode_evidence (enc_number e (result_tag outcome)) (result_evidence outcome)
  | Withdraw => enc_number e 2
  end.
Definition request_encoding (publication : Identity) (r : Request) : Encoding :=
  let e := Encoding_new (lit "rss-mdm-software-release/request/v1") in
  let e := enc_object e (id_tenant publication) (id_value publication) in
  let e := enc_object e (id_tenant (rq_id r)) (id_value (rq_id r)) in
  let e := enc_object e (id_tenant (rq_actor r)) (id_value (rq_actor r)) in
  let e := enc_number e (rq_expected_revision r) in
  let e := encode_time e (rq_as_of r) in
  enc_operation e (rq_operation r).
Definition request_fingerprint (publication : Identity) (r : Request) : Digest :=
  Encoding_finish (request_encoding publication r).
End Release.
