(* ===== verification/ReleaseTransition.v ===== *)
(** * Software release: the publication state machine ([crates/software-release/src/transition.rs])

    [Publication::new], [restore] and [transition]: compare-and-set on the revision,
    idempotent replay, and the lifecycle of the current attempt. *)
From S2P Require Import Prelude Ordered Text External Release.

Section Transition.
Context `{RC : RequestContext} `{CT : Contract} `{SH : Sha2}.

Record Receipt : Type := mk_Receipt {
  rc_publication : Identity; rc_request : Identity; rc_fingerprint : Digest;
  rc_before_revision : Z; rc_revision : Z; rc_at : Timepoint
}.
Inductive Decision : Type :=
| Updated
| Publish (a : Attempt)
| Reconcile (publication : Digest) (attempt : Z).
(** [Snapshot], and [Publication] which is a checked one. *)
Record Publication : Type := mk_Publication {
  s_id : Identity; s_revision : Z; s_at : Timepoint; s_content : Content; s_withdrawn : bool;
  s_attempt : Attempt
}.
Inductive Transition : Type :=
| TApplied (next : Publication) (receipt : Receipt) (decision : Decision)
| TReplayed (receipt : Receipt).

Definition outcome_evidence (o : PublicationOutcome) : option Evidence :=
  match o with Pending => None | Reported r => Some (result_evidence r) end.
Definition check_tenant (p : Publication) (tenant : TenantId) : res Error () :=
  reject (negb (bool_decide (tenant = id_tenant (s_id p)))) TenantMismatch.
Definition check_evidence (p : Publication) (e : Evidence) (at_ : Timepoint) : res Error () :=
  _ ← check_tenant p (id_tenant (ev_actor e));
  reject (ltb at_ (ev_at e)) InvalidTime.
Definition check_snapshot (s : Publication) : res Error () :=
  let p := s_attempt s in
  let b := at_binding p in
  _ ← check_tenant s (id_tenant (b_target b));
  _ ← check_tenant s (id_tenant (b_actor b));
  _ ← check_evidence s (b_evidence b) (b_at b);
  _ ← reject (negb (bool_decide (b_publication b = s_id s))
              || negb (bool_decide (id_value (b_target b) = si_source (c_software (s_content s))))
              || negb (bool_decide (b_target_digest b = c_source_snapshot (s_content s)))
              || negb (bool_decide (b_content b = Content_digest (s_content s)))
              || bool_decide (b_target_digest b = zero_digest)) IdentityMismatch;
  _ ← reject ((at_attempt p =? 0) || ltb (at_requested_at p) (b_at b)
              || ltb (s_at s) (at_requested_at p)) InvalidSnapshot;
  _ ← reject ((s_revision s =? 0)
              && (s_withdrawn s || negb (at_attempt p =? 1) || negb (bool_decide (s_at s = b_at b))
                  || negb (bool_decide (at_outcome p = Pending)))) InvalidSnapshot;
  match outcome_evidence (at_outcome p) with
  | Some e =>
      _ ← check_evidence s e (s_at s);
      reject (ltb (ev_at e) (at_requested_at p)) InvalidTime
  | None => Ok ()
  end.
Definition Publication_restore (s : Publication) : res Error Publication :=
  _ ← check_snapshot s; Ok s.
Definition Publication_new (content : Content) (binding : PublicationBinding) : res Error Publication :=
  Publication_restore (mk_Publication (b_publication binding) 0 (b_at binding) content false
                         (mk_Attempt binding 1 (b_at binding) Pending)).
(** [current(id, attempt)]: the current attempt, if it is the one named. *)
Definition current (s : Publication) (id : Digest) (attempt : Z) : res Error Attempt :=
  let p := s_attempt s in
  _ ← reject (negb (bool_decide (Attempt_id p = id)) || negb (at_attempt p =? attempt)) IdentityMismatch;
  Ok p.
Definition set_attempt (s : Publication) (p : Attempt) : Publication :=
  mk_Publication (s_id s) (s_revision s) (s_at s) (s_content s) (s_withdrawn s) p.
(** The [match] on the operation: the changed aggregate and the post-commit work. *)
Definition apply_operation (s : Publication) (as_of : Timepoint) (op : Operation)
    : res Error (Publication * Decision) :=
  match op with
  | Withdraw =>
      Ok (mk_Publication (s_id s) (s_revision s) (s_at s) (s_content s) true (s_attempt s), Updated)
  | Retry publication attempt =>
      _ ← reject (s_withdrawn s) PublicationClosed;
      p ← current s publication attempt;
      _ ← reject (match at_outcome p with Reported (NotApplied _) => false | _ => true end)
            ReconciliationRequired;
      next ← ok_or (checked_u64 (at_attempt p + 1)) Overflow;
      let p := mk_Attempt (at_binding p) next as_of Pending in
      Ok (set_attempt s p, Publish p)
  | Record_ publication attempt outcome =>
      _ ← check_evidence s (result_evidence outcome) as_of;
      p ← current s publication attempt;
      _ ← reject (ltb (ev_at (result_evidence outcome)) (at_requested_at p)
                  || match outcome_evidence (at_outcome p) with
                     | Some e => ltb (ev_at (result_evidence outcome)) (ev_at e)
                     | None => false
                     end) InvalidTime;
      p ← match at_outcome p with
          | Pending | Reported (Unknown _) =>
              Ok (mk_Attempt (at_binding p) (at_attempt p) (at_requested_at p) (Reported outcome))
          | Reported old => if bool_decide (old = outcome) then Ok p else Err ResultConflict
          end;
      Ok (set_attempt s p,
          match outcome with Unknown _ => Reconcile publication attempt | _ => Updated end)
  end.
Definition replay (s : Publication) (request : Request) (fingerprint : Digest) (receipt : Receipt)
    : res Error Transition :=
  _ ← reject (negb (bool_decide (rc_publication receipt = s_id s))
              || negb (bool_decide (rc_request receipt = rq_id request))
              || negb (bool_decide (rc_fingerprint receipt = fingerprint))) RequestConflict;
  _ ← reject (negb (rc_before_revision receipt =? rq_expected_revision request)
              || negb (bool_decide (checked_u64 (rc_before_revision receipt + 1)
                                    = Some (rc_revision receipt)))
              || (s_revision s <? rc_revision receipt)
              || negb (bool_decide (rc_at receipt = rq_as_of request))
              || ltb (s_at s) (rc_at receipt)) InvalidSnapshot;
  Ok (TReplayed receipt).
Definition Publication_transition (s : Publication) (request : Request) (previous : option Receipt)
    : res Error Transition :=
  _ ← check_tenant s (id_tenant (rq_id request));
  _ ← check_tenant s (id_tenant (rq_actor request));
  let fingerprint := request_fingerprint (s_id s) request in
  match previous with
  | Some receipt => replay s request fingerprint receipt
  | None =>
      _ ← reject (negb (rq_expected_revision request =? s_revision s))
            (RevisionConflict (rq_expected_revision request) (s_revision s));
      _ ← reject (ltb (rq_as_of request) (s_at s)) InvalidTime;
      '(next, decision) ← apply_operation s (rq_as_of request) (rq_operation request);
      revision ← ok_or (checked_u64 (s_revision next + 1)) Overflow;
      let next := mk_Publication (s_id next) revision (rq_as_of request) (s_content next)
                    (s_withdrawn next) (s_attempt next) in
      _ ← check_snapshot next;
      Ok (TApplied next
            (mk_Receipt (s_id s) (rq_id request) fingerprint (s_revision s) revision (rq_as_of request))
            decision)
  end.

(** ** Histories *)
(** One committed step: the state changes only through an applied transition. *)
Definition committed (s : Publication) (r : Request) (s' : Publication) (rc : Receipt) : Prop :=
  exists d, Publication_transition s r None = Ok (TApplied s' rc d).
Inductive history (s : Publication) : Publication -> Prop :=
| history_refl : history s s
| history_step s' s'' r rc : history s s' -> committed s' r s'' rc -> history s s''.

(** ** The abstract lifecycle of one publication

    Withdrawal is permanent; the current attempt is undecided until a terminal report,
    and only a definite non-application opens the next attempt. *)
Inductive Phase : Type := Undecided | Rejected | Confirmed.
Record Abstract : Type := mk_Abstract { ab_withdrawn : bool; ab_attempt : Z; ab_phase : Phase }.
Definition phase_of (o : PublicationOutcome) : Phase :=
  match o with
  | Pending | Reported (Unknown _) => Undecided
  | Reported (NotApplied _) => Rejected
  | Reported (Applied _) => Confirmed
  end.
Definition abstract (s : Publication) : Abstract :=
  mk_Abstract (s_withdrawn s) (at_attempt (s_attempt s)) (phase_of (at_outcome (s_attempt s))).
Inductive abstract_step : Abstract -> Abstract -> Prop :=
| step_withdraw w n p : abstract_step (mk_Abstract w n p) (mk_Abstract true n p)
| step_retry n : abstract_step (mk_Abstract false n Rejected) (mk_Abstract false (n + 1) Undecided)
| step_decide w n p : abstract_step (mk_Abstract w n Undecided) (mk_Abstract w n p)
| step_repeat w n p : abstract_step (mk_Abstract w n p) (mk_Abstract w n p).
End Transition.
