(* ===== verification/ReleaseSpec.v ===== *)
(** * Software release: encodings and the lifecycle

    Prefix-free codecs for the canonical encoding, the digest parser against hexadecimal
    text, canonical content, and the frame and simulation lemmas of the state machine. *)
From S2P Require Import Prelude Ordered Text External Release ReleaseTransition.

(** ** Prefix-free codecs *)
Definition prefix_free {A} (wf : A -> Prop) (enc : A -> bytes) : Prop :=
  forall a b t t', wf a -> wf b -> enc a ++ t = enc b ++ t' -> a = b /\ t = t'.
#[local] Opaque be_bytes.
Section Codecs.
Context `{RC : RequestContext} `{CT : Contract} `{SH : Sha2}.

Lemma fixed_prefix_free {A} (wf : A -> Prop) (enc : A -> bytes) n :
  (forall a, wf a -> length (enc a) = n) ->
  (forall a b, wf a -> wf b -> enc a = enc b -> a = b) -> prefix_free wf enc.
Proof.
  intros Hlen Hinj a b t t' Ha Hb H.
  apply app_inj_length in H as [H ->]; [|by rewrite !Hlen]. split; [by apply Hinj|done].
Qed.
Lemma number_codec : prefix_free in_u64 (be_bytes 8).
Proof.
  apply (fixed_prefix_free _ _ 8); [intros; apply length_be_bytes|].
  unfold in_u64, u64_max. intros a b Ha Hb. apply be_bytes_inj;
    change (256 ^ Z.of_nat 8) with (2 ^ 64); lia.
Qed.
Lemma digest_codec : prefix_free digest_wf (fun d : Digest => d).
Proof. apply (fixed_prefix_free _ _ 32); [by intros a [? _]|done]. Qed.
Lemma time_codec : prefix_free (fun _ => True) (fun t => be_bytes 8 (i64_as_u64 (unix_seconds t))).
Proof.
  apply (fixed_prefix_free _ _ 8); [intros; apply length_be_bytes|].
  intros a b _ _ H. apply (inj unix_seconds). apply i64_as_u64_inj; [apply unix_seconds_i64..|].
  unfold i64_as_u64 in *.
  apply (be_bytes_inj 8) in H; [done|change (256 ^ Z.of_nat 8) with (2 ^ 64); apply Z.mod_pos_bound; lia..].
Qed.
(** Strings of the program: Unicode text shorter than [usize::MAX] bytes. *)
Definition text_wf (s : rstr) : Prop := valid_str s = true /\ str_len s <= u64_max.
Definition put_bytes (b : bytes) : bytes := be_bytes 8 (zlen b) ++ b.
Lemma bytes_codec : prefix_free (fun b : bytes => zlen b <= u64_max) put_bytes.
Proof.
  intros a b t t' Ha Hb H. unfold put_bytes in H. rewrite <-!app_assoc in H.
  apply number_codec in H as [Hlen H]; [|split; [apply zlen_nonneg|done]..].
  apply app_inj_length in H as [-> ->]; [done|]. unfold zlen in Hlen. lia.
Qed.
Definition put_text (s : rstr) : bytes := put_bytes (str_bytes s).
Lemma text_codec : prefix_free text_wf put_text.
Proof.
  intros a b t t' [Ha Ha'] [Hb Hb'] H. apply bytes_codec in H as [H ->]; [|done..].
  split; [by apply str_bytes_inj|done].
Qed.
Definition identity_wf (i : Identity) : Prop := text_wf (id_value i).
Definition put_identity (i : Identity) : bytes := tenant_octets (id_tenant i) ++ put_text (id_value i).
Lemma identity_codec : prefix_free identity_wf put_identity.
Proof.
  intros [ta va] [tb vb] t t' Ha Hb H. unfold put_identity in H. simpl in H.
  rewrite <-!app_assoc in H.
  apply app_inj_length in H as [Ht H]; [|by rewrite !tenant_octets_length].
  apply (inj tenant_octets) in Ht as ->. by apply text_codec in H as [-> ->].
Qed.
(** A list of known length. *)
Lemma list_codec {A} (wf : A -> Prop) (enc : A -> bytes) :
  prefix_free wf enc -> forall l l' t t',
  (forall a, a ∈ l -> wf a) -> (forall a, a ∈ l' -> wf a) -> length l = length l' ->
  concat (map enc l) ++ t = concat (map enc l') ++ t' -> l = l' /\ t = t'.
Proof.
  intros Henc l. induction l as [|a l IH]; intros [|b l'] t t' Hl Hl' Hlen H; try done.
  simpl in H. rewrite <-!app_assoc in H. apply Henc in H as [-> H]; [|apply Hl; left|apply Hl'; left].
  apply IH in H as [-> ->]; [done|set_solver|set_solver|by injection Hlen].
Qed.

(** ** The encodings of the code as flat concatenations *)
Lemma foldl_enc {A} (f : Encoding -> A -> Encoding) (enc : A -> bytes) l e :
  (forall e a, f e a = e ++ enc a) -> foldl f e l = e ++ concat (map enc l).
Proof.
  intros Hf. revert e. induction l as [|a l IH]; intros e; simpl; [by rewrite app_nil_r|].
  by rewrite IH, Hf, <-app_assoc.
Qed.
Lemma enc_bytes_put e b : enc_bytes e b = e ++ put_bytes b.
Proof. unfold enc_bytes, enc_number, put_bytes. by rewrite app_assoc. Qed.
Lemma enc_object_put e t v : enc_object e t v = e ++ put_identity (mk_Identity t v).
Proof. unfold enc_object, put_identity, put_text. by rewrite enc_bytes_put, <-app_assoc. Qed.

Definition put_artifact (a : Artifact) : bytes := put_text (art_key a) ++ art_digest a.
Definition artifact_wf (a : Artifact) : Prop := text_wf (art_key a) /\ digest_wf (art_digest a).
Lemma artifact_codec : prefix_free artifact_wf put_artifact.
Proof.
  intros [ka da] [kb db] t t' [Hka Hda] [Hkb Hdb] H. unfold put_artifact in H. simpl in *.
  rewrite <-!app_assoc in H. apply text_codec in H as [-> H]; [|done..].
  by apply digest_codec in H as [-> ->].
Qed.
Definition put_variant (v : VariantContent) : bytes :=
  put_text (vc_architecture v) ++ put_text (vc_variant v)
  ++ be_bytes 8 (zlen (vc_artifacts v)) ++ concat (map put_artifact (vc_artifacts v)).
Definition variant_wf (v : VariantContent) : Prop :=
  text_wf (vc_architecture v) /\ text_wf (vc_variant v) /\ zlen (vc_artifacts v) <= u64_max /\
  forall a, a ∈ vc_artifacts v -> artifact_wf a.
Lemma variant_codec : prefix_free variant_wf put_variant.
Proof.
  intros [aa va la] [ab vb lb] t t' (Haa & Hva & Hna & Hla) (Hab & Hvb & Hnb & Hlb) H.
  unfold put_variant in H. simpl in *. rewrite <-!app_assoc in H.
  apply text_codec in H as [-> H]; [|done..]. apply text_codec in H as [-> H]; [|done..].
  apply number_codec in H as [Hlen H]; [|split; [apply zlen_nonneg|done]..].
  apply (list_codec artifact_wf) in H as [-> ->];
    [done|apply artifact_codec|done|done|unfold zlen in Hlen; lia].
Qed.
Definition software_wf (s : SoftwareIdentity) : Prop := forall v, v ∈ si_values s -> text_wf v.
Definition content_wf (c : Content) : Prop :=
  software_wf (c_software c) /\ digest_wf (c_description c) /\ digest_wf (c_source_snapshot c) /\
  digest_wf (c_manifest c) /\ zlen (c_variants c) <= u64_max /\
  forall v, v ∈ c_variants c -> variant_wf v.
Definition put_content (c : Content) : bytes :=
  put_bytes (lit "rss-mdm-software-release/content/v1")
  ++ concat (map put_text (si_values (c_software c)))
  ++ c_description c ++ c_source_snapshot c ++ c_manifest c
  ++ be_bytes 8 (zlen (c_variants c)) ++ concat (map put_variant (c_variants c)).
Lemma content_encoding_put c : content_encoding c = put_content c.
Proof.
  unfold content_encoding, put_content, Encoding_new, enc_digest, enc_number.
  rewrite (foldl_enc _ put_variant).
  2: { intros e v. unfold enc_variant, put_variant, put_text. rewrite (foldl_enc _ put_artifact).
       - unfold enc_number. by rewrite !enc_bytes_put, <-!app_assoc.
       - intros e' a. unfold enc_artifact, enc_digest, put_artifact, put_text.
         by rewrite enc_bytes_put, <-app_assoc. }
  rewrite (foldl_enc _ put_text) by (intros; apply enc_bytes_put).
  by rewrite enc_bytes_put, <-!app_assoc.
Qed.
Lemma content_codec c c' : content_wf c -> content_wf c' ->
  content_encoding c = content_encoding c' -> c = c'.
Proof.
  intros (Hs & Hd & Hss & Hm & Hn & Hv) (Hs' & Hd' & Hss' & Hm' & Hn' & Hv') H.
  rewrite !content_encoding_put in H. unfold put_content in H. apply app_inv_head in H.
  apply (list_codec text_wf) in H as [Hvals H]; [|apply text_codec|done|done|done].
  apply digest_codec in H as [Hd1 H]; [|done..]. apply digest_codec in H as [Hd2 H]; [|done..].
  apply digest_codec in H as [Hd3 H]; [|done..].
  apply number_codec in H as [Hlen H]; [|split; [apply zlen_nonneg|done]..].
  rewrite <-(app_nil_r (concat _)), <-(app_nil_r (concat (map put_variant (c_variants c')))) in H.
  apply (list_codec variant_wf) in H as [Hvs _];
    [|apply variant_codec|done|done|unfold zlen in Hlen; lia].
  destruct c as [[] ????], c' as [[] ????]; simpl in *. unfold si_values in Hvals. simpl in Hvals.
  by simplify_eq.
Qed.

(** ** Requests *)
Definition put_evidence (e : Evidence) : bytes :=
  put_identity (ev_actor e) ++ ev_digest e ++ be_bytes 8 (i64_as_u64 (unix_seconds (ev_at e))).
Definition evidence_wf (e : Evidence) : Prop := identity_wf (ev_actor e) /\ digest_wf (ev_digest e).
Lemma evidence_codec : prefix_free evidence_wf put_evidence.
Proof.
  intros [aa da ta] [ab db tb] t t' [Haa Hda] [Hab Hdb] H. unfold put_evidence in H. simpl in *.
  rewrite <-!app_assoc in H. apply identity_codec in H as [-> H]; [|done..].
  apply digest_codec in H as [-> H]; [|done..]. by apply time_codec in H as [-> ->].
Qed.
Definition put_operation (op : Operation) : bytes :=
  match op with
  | Retry p n => be_bytes 8 0 ++ p ++ be_bytes 8 n
  | Record_ p n r => be_bytes 8 1 ++ p ++ be_bytes 8 n ++ be_bytes 8 (result_tag r)
                     ++ put_evidence (result_evidence r)
  | Withdraw => be_bytes 8 2
  end.
Definition operation_wf (op : Operation) : Prop :=
  match op with
  | Retry p n => digest_wf p /\ in_u64 n
  | Record_ p n r => digest_wf p /\ in_u64 n /\ evidence_wf (result_evidence r)
  | Withdraw => True
  end.
Lemma result_eq r r' :
  result_tag r = result_tag r' -> result_evidence r = result_evidence r' -> r = r'.
Proof. destruct r, r'; simpl; intros; congruence || lia. Qed.
Lemma operation_codec : prefix_free operation_wf put_operation.
Proof.
  assert (forall a b, in_u64 a -> in_u64 b -> forall t t', be_bytes 8 a ++ t = be_bytes 8 b ++ t' -> a = b /\ t = t')
    as Hnum by (intros; by apply number_codec).
  assert (in_u64 0 /\ in_u64 1 /\ in_u64 2) as (H0 & H1 & H2) by (unfold in_u64, u64_max; lia).
  assert (forall r, in_u64 (result_tag r)) as Htag by (intros []; done).
  intros [p n|p n r|] [p' n'|p' n' r'|] t t' Ha Hb H; simpl in Ha, Hb;
    unfold put_operation in H; rewrite <-?app_assoc in H;
    (apply Hnum in H as [Heq H]; [|done..]); try lia; [| |done].
  - destruct Ha as [Hp Hn], Hb as [Hp' Hn']. apply digest_codec in H as [-> H]; [|done..].
    by apply Hnum in H as [-> ->].
  - destruct Ha as (Hp & Hn & He), Hb as (Hp' & Hn' & He').
    apply digest_codec in H as [-> H]; [|done..]. apply Hnum in H as [-> H]; [|done..].
    apply Hnum in H as [Ht H]; [|done..]. apply evidence_codec in H as [He'' ->]; [|done..].
    by rewrite (result_eq r r').
Qed.
Definition request_wf (r : Request) : Prop :=
  identity_wf (rq_id r) /\ identity_wf (rq_actor r) /\ in_u64 (rq_expected_revision r) /\
  operation_wf (rq_operation r).
Definition put_request (publication : Identity) (r : Request) : bytes :=
  put_bytes (lit "rss-mdm-software-release/request/v1")
  ++ put_identity publication ++ put_identity (rq_id r) ++ put_identity (rq_actor r)
  ++ be_bytes 8 (rq_expected_revision r) ++ be_bytes 8 (i64_as_u64 (unix_seconds (rq_as_of r)))
  ++ put_operation (rq_operation r).
Lemma request_encoding_put p r : request_encoding p r = put_request p r.
Proof.
  unfold request_encoding, put_request, Encoding_new, encode_time, enc_number.
  assert (forall e op, enc_operation e op = e ++ put_operation op) as ->.
  { intros e op. unfold enc_operation, put_operation, encode_evidence, encode_time, enc_digest, enc_number.
    destruct op as [? ?|? ? o|]; rewrite ?enc_object_put, <-?app_assoc; [done| |done].
    unfold put_evidence. by destruct (result_evidence o) as [[] ? ?]. }
  rewrite !enc_object_put, enc_bytes_put, <-!app_assoc.
  by destruct p, (rq_id r), (rq_actor r).
Qed.
Lemma request_codec p p' r r' :
  identity_wf p -> identity_wf p' -> request_wf r -> request_wf r' ->
  request_encoding p r = request_encoding p' r' -> p = p' /\ r = r'.
Proof.
  intros Hp Hp' (Hi & Ha & Hn & Ho) (Hi' & Ha' & Hn' & Ho') H.
  rewrite !request_encoding_put in H. unfold put_request in H. apply app_inv_head in H.
  apply identity_codec in H as [-> H]; [|done..]. apply identity_codec in H as [E1 H]; [|done..].
  apply identity_codec in H as [E2 H]; [|done..]. apply number_codec in H as [E3 H]; [|done..].
  apply time_codec in H as [E4 H]; [|done..].
  rewrite <-(app_nil_r (put_operation _)), <-(app_nil_r (put_operation (rq_operation r'))) in H.
  apply operation_codec in H as [E5 _]; [|done..]. destruct r, r'. by simplify_eq/=.
Qed.
End Codecs.

(** ** Hexadecimal digests *)
Definition ascii_lower (c : Z) : Z := if is_ascii_uppercase c then c + 32 else c.
Lemma hex_digit_iff c h :
  hex_digit c = Some h <-> 0 <= h < 16 /\ ascii_lower c = hex_char h.
Proof.
  unfold hex_digit, is_ascii_digit, ascii_lower, is_ascii_uppercase, hex_char.
  destruct (Z.leb_spec 48 c), (Z.leb_spec c 57), (Z.leb_spec 97 c), (Z.leb_spec c 102),
    (Z.leb_spec 65 c), (Z.leb_spec c 70), (Z.leb_spec c 90), (Z.ltb_spec h 10); simpl;
    (split; [intros [= <-] || intros [=]|intros [? ?]]); try (f_equal; lia); lia.
Qed.
Lemma hexdigit_class c : is_ascii_hexdigit c = true <-> exists h, hex_digit c = Some h.
Proof.
  unfold is_ascii_hexdigit, hex_digit. destruct (is_ascii_digit c); simpl; [naive_solver|].
  destruct ((97 <=? c) && (c <=? 102)); simpl; [naive_solver|].
  destruct ((65 <=? c) && (c <=? 70)); naive_solver.
Qed.
Lemma from_str_radix_pair a b ha hb :
  hex_digit a = Some ha -> hex_digit b = Some hb -> from_str_radix_16 [a; b] = Some (ha * 16 + hb).
Proof.
  intros Ha Hb. unfold from_str_radix_16. cbn [foldl].
  rewrite Ha, Hb. apply hex_digit_iff in Ha as [Ha _], Hb as [Hb _].
  cbn [mbind option_bind]. rewrite (proj2 (Z.ltb_lt _ _)) by lia. cbn [mbind option_bind].
  by rewrite (proj2 (Z.ltb_lt _ _)) by lia.
Qed.
Lemma res_map_map {E A B C} (f : B -> res E C) (g : A -> B) l :
  res_map f (map g l) = res_map (fun a => f (g a)) l.
Proof. induction l as [|a l IH]; simpl; [done|]. by rewrite IH. Qed.
(** Two characters at a time. *)
Lemma parse_pairs n (l : bytes) :
  length l = (2 * n)%nat -> forallb is_ascii_hexdigit l = true ->
  exists d, res_map (fun i => ok_or (from_str_radix_16 (take 2 (drop (2 * i) l))) InvalidDigest)
              (seq 0 n) = Ok d /\
    length d = n /\ forallb is_byte d = true /\ map ascii_lower l = hex d.
Proof.
  revert l. induction n as [|n IH]; intros l Hlen Hhex.
  { destruct l; [|done]. by exists []. }
  destruct l as [|a [|b l]]; [done|simpl in Hlen; lia|].
  cbn [forallb] in Hhex. bool_hyps.
  match goal with H : is_ascii_hexdigit a = true |- _ => apply hexdigit_class in H as [ha Ha] end.
  match goal with H : is_ascii_hexdigit b = true |- _ => apply hexdigit_class in H as [hb Hb] end.
  destruct (IH l) as (d & Hd & Hn & Hby & Hx); [simpl in Hlen; lia|done|].
  exists (ha * 16 + hb :: d).
  pose proof (proj1 (hex_digit_iff _ _) Ha) as [Ra La].
  pose proof (proj1 (hex_digit_iff _ _) Hb) as [Rb Lb].
  split_and!.
  - cbn [seq res_map]. change (take 2 (drop (2 * 0) (a :: b :: l))) with [a; b].
    rewrite (from_str_radix_pair a b ha hb) by done. cbn [ok_or mbind res_bind].
    rewrite <-seq_shift, res_map_map.
    assert (forall i, drop (2 * S i) (a :: b :: l) = drop (2 * i) l) as Hdrop.
    { intros i. by replace (2 * S i)%nat with (S (S (2 * i)))%nat by lia. }
    rewrite (res_map_ext_eq _ (fun i => ok_or (from_str_radix_16 (take 2 (drop (2 * i) l))) InvalidDigest)).
    + by rewrite Hd.
    + intros i. by rewrite Hdrop.
  - simpl. by rewrite Hn.
  - cbn [forallb]. rewrite Hby, andb_true_r. unfold is_byte. rewrite andb_true_iff, Z.leb_le, Z.ltb_lt. lia.
  - unfold hex in *. cbn [map mbind list_bind]. rewrite Hx, La, Lb. simpl.
    rewrite Z.div_add_l, (Z.div_small hb), Z.add_0_r by lia.
    by rewrite Z.add_comm, Z.mod_add, Z.mod_small by lia.
Qed.
Lemma hex_lower_digits (l : bytes) (d : Digest) :
  forallb is_byte d = true -> map ascii_lower l = hex d -> forallb is_ascii_hexdigit l = true.
Proof.
  intros Hd H. apply forallb_true_iff. intros c Hc. apply hexdigit_class.
  assert (ascii_lower c ∈ hex d) as Hin by (rewrite <-H; apply elem_of_map; eauto).
  unfold hex in Hin. apply list_elem_of_bind in Hin as (b & Hin & Hb).
  rewrite forallb_true_iff in Hd. specialize (Hd b Hb). unfold is_byte in Hd. bool_hyps.
  apply elem_of_cons in Hin as [Hin|Hin%list_elem_of_singleton]; eexists; apply hex_digit_iff;
    (split; [|exact Hin]).
  - split; [apply Z.div_pos; lia|apply Z.div_lt_upper_bound; lia].
  - apply Z.mod_pos_bound. lia.
Qed.
Lemma hex_length d : length (hex d) = (2 * length d)%nat.
Proof. unfold hex. induction d as [|b d IH]; [done|]. rewrite bind_cons, length_app, IH. simpl. lia. Qed.
Lemma hex_inj d d' : forallb is_byte d = true -> forallb is_byte d' = true -> hex d = hex d' -> d = d'.
Proof.
  revert d'. induction d as [|b d IH]; intros [|b' d'] Hd Hd' H; try done.
  unfold hex in H. simpl in H. injection H as H1 H2 H.
  cbn [forallb] in Hd, Hd'. bool_hyps. unfold is_byte in *. bool_hyps.
  assert (forall h h', 0 <= h < 16 -> 0 <= h' < 16 -> hex_char h = hex_char h' -> h = h') as Hinj.
  { unfold hex_char. intros h h' ? ?. destruct (Z.ltb_spec h 10), (Z.ltb_spec h' 10); lia. }
  assert (forall x, 0 <= x < 256 -> 0 <= x / 16 < 16) as Hdiv.
  { intros x ?. split; [apply Z.div_pos; lia|apply Z.div_lt_upper_bound; lia]. }
  apply Hinj in H1; [|apply Hdiv; lia..].
  apply Hinj in H2; [|apply Z.mod_pos_bound; lia..].
  assert (b = b') as -> by (pose proof (Z.div_mod b 16); pose proof (Z.div_mod b' 16); lia).
  f_equal. by apply IH.
Qed.
Lemma Digest_parse_ok value d :
  valid_str value = true ->
  Digest_parse value = Ok d <-> digest_wf d /\ map ascii_lower value = hex d.
Proof.
  intros Hv.
  assert (forall p : Z -> bool, (forall b, p b = true -> 0 <= b < 128) ->
    forallb p value = true -> str_bytes value = value) as Hascii.
  { intros p Hp. clear Hv. induction value as [|c s IH]; [done|]. cbn [forallb]. intros H. bool_hyps.
    rewrite str_bytes_cons, IH by done. unfold utf8_char.
    match goal with H : p c = true |- _ => apply Hp in H end.
    by rewrite (proj2 (Z.ltb_lt c 128)) by lia. }
  assert (forall b, is_ascii_hexdigit b = true -> 0 <= b < 128) as Hhex.
  { intros b. unfold is_ascii_hexdigit, is_ascii_digit. rewrite !orb_true_iff, !andb_true_iff, !Z.leb_le. lia. }
  unfold Digest_parse. rewrite bind_ok. setoid_rewrite reject_ok.
  setoid_rewrite orb_false_iff. setoid_rewrite negb_false_iff. setoid_rewrite Z.eqb_eq.
  rewrite (ascii_bytes_chars _ _ Hhex Hv).
  split.
  - intros (_ & [Hlen Hx] & H). unfold str_len in Hlen. rewrite (Hascii _ Hhex Hx) in *.
    destruct (parse_pairs 32 value) as (d' & Hd & Hn & Hby & Hl); [unfold zlen in Hlen; lia|done|].
    rewrite Hd in H. injection H as <-. done.
  - intros [[Hlen Hby] Hl].
    assert (forallb is_ascii_hexdigit value = true) as Hx by by eapply hex_lower_digits.
    unfold str_len. rewrite (Hascii _ Hhex Hx).
    assert (length value = 64%nat) as H64.
    { apply (f_equal length) in Hl. rewrite length_map, hex_length, Hlen in Hl. done. }
    exists (). split; [split; [unfold zlen; by rewrite H64|done]|].
    destruct (parse_pairs 32 value) as (d' & Hd & Hn & Hby' & Hl'); [by rewrite H64|done|].
    rewrite Hd. f_equal. apply hex_inj; [done..|]. congruence.
Qed.

(** ** Canonical content *)
Section ContentLaws.
Context `{RC : RequestContext} `{CT : Contract} `{SH : Sha2}.

Lemma foldr_add_perm {A} (f : A -> Z) l l' :
  l ≡ₚ l' -> foldr Z.add 0 (map f l) = foldr Z.add 0 (map f l').
Proof. induction 1; simpl; lia. Qed.
Lemma is_empty_perm {A} (l l' : list A) : l ≡ₚ l' -> is_empty l = is_empty l'.
Proof.
  intros H. destruct l, l'; try done.
  - by apply Permutation_nil_cons in H.
  - by symmetry in H; apply Permutation_nil_cons in H.
Qed.
Lemma VariantContent_new_perm arch var arts arts' v :
  arts ≡ₚ arts' -> VariantContent_new arch var arts = Ok v -> VariantContent_new arch var arts' = Ok v.
Proof.
  intros Hp H. unfold VariantContent_new in *. inv_ok.
  rewrite E, E0. simpl. rewrite <-(is_empty_perm _ _ Hp), <-(zlen_perm _ _ Hp), E1. simpl.
  rewrite <-(sort_by_canonical art_key arts arts'); [by rewrite E2|done|]. by apply sort_by_adjacent.
Qed.
Lemma VariantContent_new_ok arch var arts v :
  VariantContent_new arch var arts = Ok v ->
  vc_artifacts v ≡ₚ arts /\ sorted (map art_key (vc_artifacts v)) /\
  1 <= zlen (vc_artifacts v) <= 256.
Proof.
  intros H. unfold VariantContent_new in H. inv_ok. bool_hyps. simpl.
  pose proof (sort_by_perm art_key arts) as Hp. split_and!; [done|..].
  - apply sorted_le_strict; [apply sort_by_sorted|done].
  - rewrite (zlen_perm _ _ Hp). by apply zlen_pos.
  - by rewrite (zlen_perm _ _ Hp).
Qed.
Lemma Content_new_perm sw d ss m vs vs' c :
  vs ≡ₚ vs' -> Content_new sw d ss m vs = Ok c -> Content_new sw d ss m vs' = Ok c.
Proof.
  intros Hp H. unfold Content_new in *. inv_ok.
  rewrite <-(is_empty_perm _ _ Hp), <-(zlen_perm _ _ Hp), <-(foldr_add_perm _ _ _ Hp), E. simpl.
  rewrite <-(sort_by_canonical vc_key vs vs'); [|done|by apply sort_by_adjacent].
  rewrite E0. simpl. by rewrite E1.
Qed.
Lemma share_artifacts_ok arts seen seen' :
  res_for share_artifact arts seen = Ok seen' ->
  (forall a d, a ∈ arts -> bm_get (art_key a) seen = Some d -> d = art_digest a) /\
  (forall a a', a ∈ arts -> a' ∈ arts -> art_key a = art_key a' -> art_digest a = art_digest a').
Proof.
  revert seen. induction arts as [|a arts IH]; intros seen H; cbn [res_for] in H; inv_ok.
  { split; [intros a d Ha|intros a a' Ha]; inversion Ha. }
  unfold share_artifact in E. inv_ok. apply IH in H as [Hold Hag].
  assert (forall a', a' ∈ arts -> art_key a' = art_key a -> art_digest a = art_digest a') as Hhead.
  { intros a' Ha' Hk. apply (Hold a' (art_digest a)); [done|]. by rewrite bm_get_insert, Hk, eqb_refl. }
  split.
  - intros a' d [->|Ha']%elem_of_cons Hget.
    + rewrite Hget in E0. by bool_hyps.
    + destruct (eqb (art_key a') (art_key a)) eqn:Ek.
      * apply eqb_true in Ek. rewrite Ek in Hget. rewrite Hget in E0. bool_hyps. subst d. by apply Hhead.
      * apply (Hold a' d); [done|]. by rewrite bm_get_insert, Ek.
  - intros a1 a2 [->|H1]%elem_of_cons [->|H2]%elem_of_cons Hk; auto. symmetry. auto.
Qed.
Lemma Content_new_ok sw d ss m vs c :
  Content_new sw d ss m vs = Ok c ->
  c_variants c ≡ₚ vs /\ sorted (map vc_key (c_variants c)) /\ 1 <= zlen (c_variants c) <= 64 /\
  c_software c = sw /\ c_description c = d /\ c_source_snapshot c = ss /\ c_manifest c = m /\
  (forall v v' a a', v ∈ c_variants c -> v' ∈ c_variants c -> a ∈ vc_artifacts v ->
     a' ∈ vc_artifacts v' -> art_key a = art_key a' -> art_digest a = art_digest a').
Proof.
  intros H. unfold Content_new in H. inv_ok. bool_hyps. simpl.
  pose proof (sort_by_perm vc_key vs) as Hp. apply share_artifacts_ok in E1 as [_ Hag].
  split_and!; try done.
  - apply sorted_le_strict; [apply sort_by_sorted|done].
  - rewrite (zlen_perm _ _ Hp). by apply zlen_pos.
  - by rewrite (zlen_perm _ _ Hp).
  - intros v v' x x' Hv Hv' Hx Hx'.
    assert (forall v x, v ∈ sort_by vc_key vs -> x ∈ vc_artifacts v ->
      x ∈ concat (map vc_artifacts (sort_by vc_key vs))) as Hin.
    { intros w y Hw Hy. apply elem_of_concat. exists (vc_artifacts w). rewrite elem_of_map. eauto. }
    apply Hag; eauto.
Qed.
End ContentLaws.

(** ** The state machine *)
Section TransitionLaws.
Context `{RC : RequestContext} `{CT : Contract} `{SH : Sha2}.

(** What no transition changes. *)
Record same_authority (s s' : Publication) : Prop := {
  auth_id : s_id s' = s_id s;
  auth_content : s_content s' = s_content s;
  auth_binding : at_binding (s_attempt s') = at_binding (s_attempt s)
}.
#[export] Instance same_authority_preorder : PreOrder same_authority.
Proof. split; [by intros s|]. intros s s' s'' [] []. split; congruence. Qed.

Lemma current_ok s id n p :
  current s id n = Ok p -> p = s_attempt s /\ Attempt_id p = id /\ at_attempt p = n.
Proof. unfold current. intros H. inv_ok. bool_hyps. done. Qed.
Lemma apply_operation_ok s t op s' d :
  apply_operation s t op = Ok (s', d) ->
  same_authority s s' /\ s_revision s' = s_revision s /\
  abstract_step (abstract s) (abstract s') /\
  (s_withdrawn s = true -> s_withdrawn s' = true) /\
  at_attempt (s_attempt s) <= at_attempt (s_attempt s') /\
  (forall a, d = Publish a ->
     s_withdrawn s = false /\ (exists e, at_outcome (s_attempt s) = Reported (NotApplied e)) /\
     a = s_attempt s' /\ at_attempt a = at_attempt (s_attempt s) + 1) /\
  (forall r, at_outcome (s_attempt s) = Reported r -> (forall e, r <> Unknown e) ->
     at_attempt (s_attempt s') = at_attempt (s_attempt s) -> at_outcome (s_attempt s') = Reported r).
Proof.
  destruct op as [id n|id n r|]; simpl; intros H; inv_ok; simplify_eq.
  - apply current_ok in E0 as (-> & _ & _). apply checked_u64_some in E2 as [-> _].
    destruct (at_outcome (s_attempt s)) as [|[e|e|e]] eqn:Ho; try done.
    split_and!; simpl; try done; try lia; [|intros a [= <-]; simpl; eauto].
    unfold abstract. simpl. rewrite Ho, E. apply step_retry.
  - apply current_ok in E0 as (-> & _ & _).
    destruct (at_outcome (s_attempt s)) as [|[e|e|e]] eqn:Ho; inv_ok.
    all: try (case_bool_decide; [|done]; inv_ok).
    all: split_and!; simpl; rewrite ?Ho; try done; try lia;
      try (by destruct r); try (intros ? [= <-] Hn; by destruct (Hn e)).
    all: unfold abstract; simpl; rewrite Ho; apply step_decide || apply step_repeat.
  - split_and!; simpl; try done. apply step_withdraw.
Qed.
Lemma transition_ok s r s' rc d :
  Publication_transition s r None = Ok (TApplied s' rc d) ->
  id_tenant (rq_id r) = id_tenant (s_id s) /\ id_tenant (rq_actor r) = id_tenant (s_id s) /\
  rq_expected_revision r = s_revision s /\ leb (s_at s) (rq_as_of r) = true /\
  (exists next, apply_operation s (rq_as_of r) (rq_operation r) = Ok (next, d) /\
     s_withdrawn s' = s_withdrawn next /\ s_attempt s' = s_attempt next /\ abstract s' = abstract next) /\
  s_revision s' = s_revision s + 1 /\ in_u64 (s_revision s') /\ s_at s' = rq_as_of r /\
  same_authority s s' /\ check_snapshot s' = Ok () /\
  rc = mk_Receipt (s_id s) (rq_id r) (request_fingerprint (s_id s) r) (s_revision s)
         (s_revision s') (rq_as_of r).
Proof.
  unfold Publication_transition, check_tenant. intros H. inv_ok. bool_hyps.
  destruct a3 as [next d']. inv_ok. simplify_eq. apply checked_u64_some in E4 as [-> Hu].
  pose proof (apply_operation_ok _ _ _ _ _ E3) as (Hauth & Hrev & _).
  rewrite Hrev in *. split_and!; try done.
  - unfold ltb, leb in *. rewrite (cmp_opp (rq_as_of r) (s_at s)). by destruct (cmp _ _).
  - by exists next.
  - destruct Hauth. by split.
  - match goal with u : () |- _ => by destruct u end.
Qed.
Lemma transition_not_replayed s r rc : Publication_transition s r None <> Ok (TReplayed rc).
Proof. unfold Publication_transition. intros H. inv_ok. destruct a3. by inv_ok. Qed.

Lemma committed_ok s r s' rc :
  committed s r s' rc ->
  same_authority s s' /\ s_revision s' = s_revision s + 1 /\ leb (s_at s) (s_at s') = true /\
  check_snapshot s' = Ok () /\ abstract_step (abstract s) (abstract s') /\
  (s_withdrawn s = true -> s_withdrawn s' = true) /\
  at_attempt (s_attempt s) <= at_attempt (s_attempt s') /\
  (forall r, at_outcome (s_attempt s) = Reported r -> (forall e, r <> Unknown e) ->
     at_attempt (s_attempt s') = at_attempt (s_attempt s) -> at_outcome (s_attempt s') = Reported r).
Proof.
  intros (d & H). apply transition_ok in H as (_ & _ & _ & Hat & (next & Hop & Hw & Ha & Habs) &
    Hrev & _ & -> & Hauth & Hcheck & _).
  apply apply_operation_ok in Hop as (_ & _ & Hstep & Hwd & Hn & _ & Ht).
  rewrite Hw, Ha, Habs. done.
Qed.
Record advanced (s s' : Publication) : Prop := {
  adv_authority : same_authority s s';
  adv_revision : s_revision s <= s_revision s';
  adv_at : leb (s_at s) (s_at s') = true;
  adv_withdrawn : s_withdrawn s = true -> s_withdrawn s' = true;
  adv_attempt : at_attempt (s_attempt s) <= at_attempt (s_attempt s');
  adv_terminal : forall r, at_outcome (s_attempt s) = Reported r -> (forall e, r <> Unknown e) ->
    at_attempt (s_attempt s') = at_attempt (s_attempt s) -> at_outcome (s_attempt s') = Reported r
}.
Lemma history_advanced s s' : history s s' -> advanced s s'.
Proof.
  induction 1 as [|s' s'' r rc _ [Hauth Hrev Hat Hw Hn Ht] H].
  - split; try done. apply leb_le. by right.
  - apply committed_ok in H as (Hauth' & Hrev' & Hat' & _ & _ & Hw' & Hn' & Ht').
    split; [by etrans|lia|by eapply leb_trans|auto|lia|].
    intros x Hx Hne Heq. apply Ht'; [apply Ht; [done..|lia]|done|lia].
Qed.
Lemma history_checked s s' :
  history s s' -> check_snapshot s = Ok () -> check_snapshot s' = Ok ().
Proof. induction 1 as [|s' s'' r rc _ _ H]; [done|]. intros _. by apply committed_ok in H as (_ & _ & _ & H & _). Qed.
Inductive abstract_star : Abstract -> Abstract -> Prop :=
| abstract_refl a : abstract_star a a
| abstract_more a b c : abstract_star a b -> abstract_step b c -> abstract_star a c.
Lemma history_abstract s s' : history s s' -> abstract_star (abstract s) (abstract s').
Proof.
  induction 1 as [|s' s'' r rc _ IH H]; [constructor|].
  apply committed_ok in H as (_ & _ & _ & _ & H & _). by econstructor.
Qed.
(** The lifecycle of the abstract machine. *)
Lemma abstract_star_lifecycle a b :
  abstract_star a b ->
  (ab_withdrawn a = true -> ab_withdrawn b = true /\ ab_attempt b = ab_attempt a) /\
  (ab_phase a = Confirmed -> ab_phase b = Confirmed /\ ab_attempt b = ab_attempt a) /\
  ab_attempt a <= ab_attempt b.
Proof.
  induction 1 as [a|a b c _ (Hw & Hc & Hn) H]; [split_and!; (done || lia)|].
  destruct H; simpl in *; split_and!; try lia; intros Ha; try (destruct (Hw Ha) as [? ?]);
    try (destruct (Hc Ha) as [? ?]); naive_solver.
Qed.
End TransitionLaws.
