(* ===== verification/ReleaseProperties.v ===== *)
(** * Software release: properties

    The publication state machine refines its abstract lifecycle, replays are idempotent,
    fingerprints and content digests identify their inputs, and digests parse exactly. *)
From S2P Require Import Prelude Ordered Text External Release ReleaseTransition ReleaseSpec.

Section Properties.
Context `{RC : RequestContext} `{CT : Contract} `{SH : Sha2}.

(** C3: every state reached from a restored publication by committed transitions passes the
    snapshot check again, keeps its identity, content, binding and effect identity, and only
    advances: revision, time, attempt number and withdrawal never go back, and a terminal
    result of an attempt is never overwritten. *)
Theorem publication_invariant s0 s s' :
  Publication_restore s0 = Ok s -> history s s' ->
  Publication_restore s' = Ok s' /\ advanced s s' /\
  Attempt_id (s_attempt s') = Attempt_id (s_attempt s) /\
  b_publication (at_binding (s_attempt s')) = s_id s' /\
  b_content (at_binding (s_attempt s')) = Content_digest (s_content s').
Proof.
  intros H Hh. unfold Publication_restore in H. inv_ok. destruct a.
  pose proof (history_checked _ _ Hh E) as Hc. pose proof (history_advanced _ _ Hh) as Ha.
  unfold Publication_restore. rewrite Hc. split_and!; [done|done|..].
  - unfold Attempt_id. by rewrite (auth_binding _ _ (adv_authority _ _ Ha)).
  - unfold check_snapshot in Hc. inv_ok. by bool_hyps.
  - unfold check_snapshot in Hc. inv_ok. by bool_hyps.
Qed.

(** C38: histories refine the abstract lifecycle: withdrawal is permanent and forbids new
    attempts, a confirmed application is final, and only a definite non-application of an
    open publication opens the next attempt. *)
Theorem publication_refines_lifecycle s s' :
  history s s' ->
  abstract_star (abstract s) (abstract s') /\
  (s_withdrawn s = true ->
     s_withdrawn s' = true /\ at_attempt (s_attempt s') = at_attempt (s_attempt s)) /\
  (phase_of (at_outcome (s_attempt s)) = Confirmed ->
     at_outcome (s_attempt s') = at_outcome (s_attempt s) /\
     at_attempt (s_attempt s') = at_attempt (s_attempt s)).
Proof.
  intros H. pose proof (history_abstract _ _ H) as Hs.
  pose proof (abstract_star_lifecycle _ _ Hs) as (Hw & Hc & _).
  pose proof (history_advanced _ _ H) as [_ _ _ _ _ Ht].
  split_and!; [done|done|]. intros Hp. destruct (Hc Hp) as [_ Hn]. split; [|done].
  destruct (at_outcome (s_attempt s)) as [|[e|e|e]]; try done.
  by apply Ht.
Qed.

(** A new effect is requested only for an open publication whose current attempt is known
    not to have applied, under the next attempt number and the unchanged effect identity. *)
Theorem publish_only_after_not_applied s r s' rc a :
  Publication_transition s r None = Ok (TApplied s' rc (Publish a)) ->
  s_withdrawn s = false /\ (exists e, at_outcome (s_attempt s) = Reported (NotApplied e)) /\
  a = s_attempt s' /\ at_attempt a = at_attempt (s_attempt s) + 1 /\
  Attempt_id a = Attempt_id (s_attempt s) /\ at_outcome a = Pending.
Proof.
  intros H. apply transition_ok in H as (_ & _ & _ & _ & (next & Hop & _ & Ha & _) & _ & _ & _ & Hauth & _).
  pose proof (apply_operation_ok _ _ _ _ _ Hop) as (_ & _ & _ & _ & _ & Hp & _).
  destruct (Hp a eq_refl) as (Hw & He & -> & Hn). rewrite <-Ha in *. split_and!; try done.
  - unfold Attempt_id. by rewrite (auth_binding _ _ Hauth).
  - destruct (rq_operation r); simpl in Hop; inv_ok; simplify_eq; [by rewrite Ha|].
    destruct outcome; simplify_eq.
Qed.

(** Replaying a committed request with its receipt, after any later history, returns the
    original receipt and changes nothing; reusing the receipt for a request with another
    fingerprint is rejected. *)
Theorem replay_idempotent s r s' rc s'' :
  committed s r s' rc -> history s' s'' ->
  Publication_transition s'' r (Some rc) = Ok (TReplayed rc) /\
  forall r', request_fingerprint (s_id s) r' <> rc_fingerprint rc ->
    Publication_transition s'' r' (Some rc) = Err RequestConflict \/
    Publication_transition s'' r' (Some rc) = Err TenantMismatch.
Proof.
  intros [d H] Hh. apply transition_ok in H as (Ht1 & Ht2 & Hexp & _ & _ & Hrev & Hu & Hat & Hauth & _ & ->).
  apply history_advanced in Hh as [Hauth' Hrev' Hat' _ _ _].
  assert (s_id s'' = s_id s) as Hid by (destruct Hauth, Hauth'; congruence).
  unfold Publication_transition, check_tenant, replay. rewrite Hid. split.
  - assert (forall A (x : A) (dec : base.Decision (x = x)), @bool_decide (x = x) dec = true) as Hrefl
      by (intros; by apply bool_decide_eq_true_2).
    cbn [rc_publication rc_request rc_fingerprint rc_before_revision rc_revision rc_at].
    rewrite Ht1, Ht2, !Hrefl, Hexp, Z.eqb_refl. simpl.
    rewrite bool_decide_eq_true_2 by (apply checked_u64_some; by rewrite <-Hrev). simpl.
    rewrite (proj2 (Z.ltb_ge _ _)) by lia. simpl. rewrite <-Hat.
    assert (ltb (s_at s'') (s_at s') = false) as ->; [|done].
    apply ltb_ge. intros Hlt. apply leb_le in Hat' as [Hlt'|Heq].
    + by apply (lt_asym _ _ Hlt).
    + rewrite Heq in Hlt. by apply lt_irrefl in Hlt.
  - intros r' Hne. destruct (bool_decide (id_tenant (rq_id r') = _)); simpl; [|by right].
    destruct (bool_decide (id_tenant (rq_actor r') = _)); simpl; [left|by right].
    rewrite (bool_decide_eq_false_2 (_ = request_fingerprint _ _)) by (simpl in *; congruence).
    by rewrite !orb_true_r.
Qed.

(** A request fingerprint identifies the publication and every field of the request:
    two well-formed requests have the same fingerprint only if they are equal or their
    different encodings collide under SHA-256. *)
Theorem request_fingerprint_identifies p p' r r' :
  identity_wf p -> identity_wf p' -> request_wf r -> request_wf r' ->
  request_fingerprint p r = request_fingerprint p' r' ->
  (p = p' /\ r = r') \/
  (request_encoding p r <> request_encoding p' r' /\
   sha256 (request_encoding p r) = sha256 (request_encoding p' r')).
Proof.
  intros Hp Hp' Hr Hr' H.
  destruct (decide (request_encoding p r = request_encoding p' r')) as [Heq|Hne]; [left|by right].
  by apply request_codec.
Qed.

(** Release content is canonical: listing the variants in another order builds the same
    content, variants are strictly ordered, shared artifact keys have one digest, and two
    contents with one digest are equal or exhibit a SHA-256 collision. *)
Theorem content_canonical sw d ss m vs vs' c :
  Content_new sw d ss m vs = Ok c -> vs ≡ₚ vs' ->
  Content_new sw d ss m vs' = Ok c /\ sorted (map vc_key (c_variants c)) /\ c_variants c ≡ₚ vs /\
  (forall v v' a a', v ∈ c_variants c -> v' ∈ c_variants c -> a ∈ vc_artifacts v ->
     a' ∈ vc_artifacts v' -> art_key a = art_key a' -> art_digest a = art_digest a') /\
  forall c', content_wf c -> content_wf c' -> Content_digest c = Content_digest c' ->
    c = c' \/ (content_encoding c <> content_encoding c' /\
               sha256 (content_encoding c) = sha256 (content_encoding c')).
Proof.
  intros H Hp. pose proof (Content_new_ok _ _ _ _ _ _ H) as (Hperm & Hs & _ & _ & _ & _ & _ & Ha).
  split_and!; [by eapply Content_new_perm|done|done|done|].
  intros c' Hc Hc' Hd.
  destruct (decide (content_encoding c = content_encoding c')) as [Heq|Hne]; [left|by right].
  by apply content_codec.
Qed.

(** The digest parser accepts exactly the 64-character hexadecimal texts, in either case,
    and returns the 32 bytes they spell; printing in lower case and parsing is the identity. *)
Theorem digest_parse_exact value d :
  valid_str value = true ->
  Digest_parse value = Ok d <-> digest_wf d /\ map ascii_lower value = hex d.
Proof. apply Digest_parse_ok. Qed.
End Properties.

(** ** Closed examples *)
Module Witnesses.
Import Reference.
Definition t (s : Z) : Timepoint :=
  match decide (is_i64 s = true) with left H => Time s H | right _ => Time 0 eq_refl end.
Definition key (s : rstr) : Identity := mk_Identity tenant_a s.
Definition digest (n : Z) : Digest := be_bytes 32 n.
Definition software : SoftwareIdentity :=
  mk_SoftwareIdentity (lit "repo") (lit "vim") (lit "9.1") (lit "windows").
Definition variants : list VariantContent :=
  [mk_VariantContent (lit "x64") (lit "msi") [mk_Artifact (lit "vim.msi") (digest 7)];
   mk_VariantContent (lit "arm64") (lit "msi") [mk_Artifact (lit "vim.msi") (digest 7)]].
Definition content : Content :=
  get (mk_Content software [] [] [] []) (Content_new software (digest 1) (digest 2) (digest 3) variants).
Definition evidence (n at_ : Z) : Evidence := mk_Evidence (key (lit "worker")) (digest n) (t at_).
Definition binding : PublicationBinding :=
  mk_PublicationBinding (key (lit "vim")) (Content_digest content) (key (lit "repo")) (digest 2)
    (evidence 9 90) (digest 10) (key (lit "admin")) (t 100).
Definition fresh : Publication :=
  mk_Publication (key (lit "vim")) 0 (t 100) content false (mk_Attempt binding 1 (t 100) Pending).
Definition request (n rev at_ : Z) (op : Operation) : Request :=
  mk_Request (key [48 + n]) (key (lit "admin")) rev (t at_) op.
Definition next (s : Publication) (r : Request) : Publication :=
  match Publication_transition s r None with Ok (TApplied s' _ _) => s' | _ => s end.
Definition receipt (s : Publication) (r : Request) : Receipt :=
  match Publication_transition s r None with
  | Ok (TApplied _ rc _) => rc
  | _ => mk_Receipt (s_id s) (rq_id r) [] 0 0 (s_at s)
  end.
Definition applies (s : Publication) (r : Request) : bool :=
  match Publication_transition s r None with Ok (TApplied _ _ _) => true | _ => false end.
Lemma applies_committed s r : applies s r = true -> committed s r (next s r) (receipt s r).
Proof.
  unfold applies, committed, next, receipt.
  destruct (Publication_transition s r None) as [[s' rc d|rc]| |]; try done. by exists d.
Qed.
Definition rejected : Request :=
  request 1 0 110 (Record_ (publication_id binding) 1 (NotApplied (evidence 11 105))).
Definition retry : Request := request 2 1 120 (Retry (publication_id binding) 1).
Definition confirm : Request :=
  request 3 2 130 (Record_ (publication_id binding) 2 (Applied (evidence 12 125))).
Definition withdraw : Request := request 4 3 140 Withdraw.
Definition p1 : Publication := next fresh rejected.
Definition p2 : Publication := next p1 retry.
Definition p3 : Publication := next p2 confirm.
Definition p4 : Publication := next p3 withdraw.
Lemma fresh_ok : Publication_restore fresh = Ok fresh.
Proof.
  assert (is_ok (check_snapshot fresh) = true) as H by (vm_compute; reflexivity).
  unfold Publication_restore. destruct (check_snapshot fresh); [reflexivity|discriminate H..].
Qed.
Lemma step1 : committed fresh rejected p1 (receipt fresh rejected).
Proof. apply applies_committed. vm_compute. reflexivity. Qed.
Lemma step2 : committed p1 retry p2 (receipt p1 retry).
Proof. apply applies_committed. vm_compute. reflexivity. Qed.
Lemma step3 : committed p2 confirm p3 (receipt p2 confirm).
Proof. apply applies_committed. vm_compute. reflexivity. Qed.
Lemma step4 : committed p3 withdraw p4 (receipt p3 withdraw).
Proof. apply applies_committed. vm_compute. reflexivity. Qed.
Lemma later : history p1 p4.
Proof.
  eapply history_step; [|exact step4]. eapply history_step; [|exact step3].
  eapply history_step; [|exact step2]. constructor.
Qed.
Lemma publication_invariant_witness : Publication_restore p1 = Ok p1.
Proof.
  exact (proj1 (publication_invariant fresh fresh p1 fresh_ok
                  (history_step _ _ _ _ _ (history_refl _) step1))).
Defined.
Lemma publication_refines_lifecycle_witness : abstract_star (abstract p1) (abstract p4).
Proof. exact (proj1 (publication_refines_lifecycle p1 p4 later)). Defined.
Lemma publish_only_after_not_applied_witness : s_withdrawn p1 = false.
Proof.
  pose proof step2 as [d Hd].
  assert (match Publication_transition p1 retry None with
          | Ok (TApplied _ _ (Publish _)) => true | _ => false end = true) as H
    by (vm_compute; reflexivity).
  rewrite Hd in H. destruct d as [|a|]; [discriminate H| |discriminate H].
  exact (proj1 (publish_only_after_not_applied p1 retry p2 _ a Hd)).
Defined.
Lemma replay_idempotent_witness :
  Publication_transition p4 rejected (Some (receipt fresh rejected)) = Ok (TReplayed (receipt fresh rejected)).
Proof. exact (proj1 (replay_idempotent fresh rejected p1 _ p4 step1 later)). Defined.
Definition request_wf_b (r : Request) : bool :=
  let text s := valid_str s && (str_len s <=? u64_max) in
  let dig (d : Digest) := (zlen d =? 32) && forallb is_byte d in
  text (id_value (rq_id r)) && text (id_value (rq_actor r)) && is_u64 (rq_expected_revision r)
  && match rq_operation r with
     | Retry p n => dig p && is_u64 n
     | Record_ p n o => dig p && is_u64 n && text (id_value (ev_actor (result_evidence o)))
                        && dig (ev_digest (result_evidence o))
     | Withdraw => true
     end.
Lemma request_wf_sound r : request_wf_b r = true -> request_wf r.
Proof.
  unfold request_wf_b, request_wf, identity_wf, text_wf, operation_wf, evidence_wf, digest_wf.
  intros H. bool_hyps. destruct (rq_operation r); bool_hyps;
    rewrite ?is_u64_spec in *; unfold zlen in *; unfold identity_wf, text_wf; split_and!; done || lia.
Qed.
Lemma request_fingerprint_identifies_witness :
  (key (lit "vim") = key (lit "vim") /\ rejected = rejected) \/
  (request_encoding (key (lit "vim")) rejected <> request_encoding (key (lit "vim")) rejected /\
   sha256 (request_encoding (key (lit "vim")) rejected) = sha256 (request_encoding (key (lit "vim")) rejected)).
Proof.
  apply (request_fingerprint_identifies (key (lit "vim")) (key (lit "vim")) rejected rejected).
  - split; [reflexivity|]. vm_compute. discriminate.
  - split; [reflexivity|]. vm_compute. discriminate.
  - apply request_wf_sound. vm_compute. reflexivity.
  - apply request_wf_sound. vm_compute. reflexivity.
  - reflexivity.
Defined.
Lemma content_new : Content_new software (digest 1) (digest 2) (digest 3) variants = Ok content.
Proof. apply is_ok_get. vm_compute. reflexivity. Qed.
Lemma content_canonical_witness :
  Content_new software (digest 1) (digest 2) (digest 3) (rev variants) = Ok content.
Proof.
  apply (content_canonical _ _ _ _ variants (rev variants) content content_new).
  apply Permutation_rev.
Defined.
Lemma digest_parse_exact_witness : Digest_parse (hex (digest 48879)) = Ok (digest 48879).
Proof.
  apply (digest_parse_exact (hex (digest 48879)) (digest 48879)); [vm_compute; reflexivity|].
  split; [split; vm_compute; reflexivity|vm_compute; reflexivity].
Defined.
End Witnesses.
