(* ===== verification/PolicySchedule.v ===== *)
(** * Policy schedules ([crates/policy/src/schedule.rs])

    Triggers, jitter and maintenance windows over an explicit clock.  Time zones and civil
    dates are [jiff]'s; plain [i64] arithmetic that Rust would overflow is [Panic]. *)
From S2P Require Import Prelude Ordered Text External.

(** The crate's error type ([lib.rs]). *)
Inductive Error : Type := Malformed | Conflict | NotFound.
#[export] Instance Error_eq_dec : EqDecision Error.
Proof. solve_decision. Defined.

Inductive Trigger : Type :=
| Manual
| Once (at_ : Z)
| Interval (anchor seconds : Z)
| Weekly (zone : rstr) (weekday minute : Z)
| Registration
| CheckIn (minimum_seconds : Z).
Inductive Misfire : Type := Skip (max_lateness_seconds : Z) | CoalesceOne.
Record Window : Type := mk_Window {
  w_zone : rstr; w_weekdays : list Z; w_start_minute : Z; w_end_minute : Z
}.
Record Schedule : Type := mk_Schedule {
  sc_trigger : Trigger; sc_misfire : Misfire; sc_not_before : Z; sc_until : option Z;
  sc_jitter_seconds : Z; sc_window : option Window
}.
Record Occurrence : Type := mk_Occurrence {
  oc_coordinate : Z; oc_available_at : Z; oc_window_end : option Z
}.
(** An [i64] operator: overflow aborts. *)
Definition i64_op (z : Z) : res Error Z := or_panic (checked_i64 z).
(** A [checked_] operation followed by [ok_or(Malformed)]. *)
Definition checked (z : Z) : res Error Z := ok_or (checked_i64 z) Malformed.

Section Schedule.
Context `{JF : Jiff} `{SH : Sha2}.

Definition zone (name : rstr) : res Error TimeZone :=
  _ ← reject (negb (bool_decide (name = lit "UTC"))
              && (negb (str_contains name (lit "/")) || (128 <? str_len name))) Malformed;
  ok_or (tz_get name) Malformed.
(** [minute as i8] parts of [date.at], which panics on an hour or minute out of range. *)
Definition as_i8 (z : Z) : Z := (z + 128) mod 256 - 128.
Definition local (tz : TimeZone) (date : Date) (minute : Z) : res Error (option Z) :=
  '(date, hour, minute) ←
    (if minute =? 1440 then date ← ok_or (add_day date) Malformed; Ok (date, 0, 0)
     else let hour := as_i8 (minute / 60) in
          let minute := as_i8 (minute mod 60) in
          if (0 <=? hour) && (hour <? 24) && (0 <=? minute) && (minute <? 60)
          then Ok (date, hour, minute) else Panic);
  match to_ambiguous tz date hour minute with
  | Gap => Ok None
  | Earlier second => second ← ok_or second Malformed; Ok (Some second)
  end.
Definition ends_at (s : Schedule) : Z := default i64_max (sc_until s).
Definition missed (s : Schedule) (available_at now : Z) : bool :=
  match sc_misfire s with
  | Skip max_lateness => max_lateness <? saturating_i64 (now - available_at)
  | CoalesceOne => false
  end.
Definition interval_range (seconds : Z) : bool := (60 <=? seconds) && (seconds <=? 31536000).
(** The first coordinate of an interval that is not before [not_before]. *)
Definition interval_first (anchor seconds not_before : Z) : res Error Z :=
  if not_before <=? anchor then Ok anchor else
  distance ← checked (not_before - anchor);
  last ← i64_op (seconds - 1);
  sum ← checked (distance + last);
  offset ← checked (sum / seconds * seconds);
  checked (anchor + offset).
Definition validate_trigger (s : Schedule) : res Error () :=
  match sc_trigger s with
  | Once at_ => reject ((at_ <? sc_not_before s) || (ends_at s <=? at_)) Malformed
  | Interval anchor seconds =>
      _ ← reject ((anchor <? 0) || negb (interval_range seconds)) Malformed;
      first ← interval_first anchor seconds (sc_not_before s);
      reject (ends_at s <=? first) Malformed
  | Weekly name weekday minute =>
      _ ← zone name;
      reject (negb ((1 <=? weekday) && (weekday <=? 7)) || (1440 <=? minute)) Malformed
  | CheckIn minimum_seconds => reject (negb (interval_range minimum_seconds)) Malformed
  | Manual | Registration => Ok ()
  end.
Definition validate_window (w : Window) : res Error () :=
  _ ← zone (w_zone w);
  reject (is_empty (w_weekdays w)
          || existsb (fun d => negb ((1 <=? d) && (d <=? 7))) (w_weekdays w)
          || (w_start_minute w =? w_end_minute w) || (1440 <=? w_start_minute w)
          || (1440 <? w_end_minute w)) Malformed.
Definition Schedule_validate (s : Schedule) : res Error () :=
  _ ← reject ((sc_not_before s <? 0) || (ends_at s <=? sc_not_before s)
              || (3600 <? sc_jitter_seconds s)) Malformed;
  _ ← reject (negb (from_second (sc_not_before s))) Malformed;
  _ ← reject (match sc_until s with Some until => negb (from_second until) | None => false end)
        Malformed;
  _ ← validate_trigger s;
  match sc_window s with Some w => validate_window w | None => Ok () end.

(** ** Windows *)
Fixpoint window_scan (w : Window) (tz : TimeZone) (at_ : Z) (n : nat) (date : Date)
    : res Error (option (Z * option Z)) :=
  match n with
  | O => Ok None
  | S n =>
      found ←
        (if bool_decide (monday_one date ∈ w_weekdays w) then
           start ← local tz date (w_start_minute w);
           end_date ← (if w_end_minute w <? w_start_minute w
                       then ok_or (add_day date) Malformed else Ok date);
           end_ ← local tz end_date (w_end_minute w);
           Ok (match start, end_ with
               | Some start, Some end_ =>
                   if (at_ <? end_) && (start <? end_) then Some (Z.max at_ start, Some end_) else None
               | _, _ => None
               end)
         else Ok None);
      match found with
      | Some r => Ok (Some r)
      | None => date ← ok_or (add_day date) Malformed; window_scan w tz at_ n date
      end
  end.
Definition Window_next (w : Window) (at_ : Z) : res Error (option (Z * option Z)) :=
  tz ← zone (w_zone w);
  _ ← reject (negb (from_second at_)) Malformed;
  date ← ok_or (sub_day (tz_date tz at_)) Malformed;
  window_scan w tz at_ 16 date.

(** ** Occurrences *)
Definition jitter (s : Schedule) (coordinate : Z) (identity : bytes) : Z :=
  of_be_bytes (take 8 (sha256 (identity ++ be_bytes 8 (i64_as_u64 coordinate))))
    mod (sc_jitter_seconds s + 1).
Definition occurrence (s : Schedule) (coordinate : Z) (identity : bytes)
    : res Error (option Occurrence) :=
  _ ← Schedule_validate s;
  if (coordinate <? sc_not_before s) || (ends_at s <=? coordinate) then Ok None else
  earliest ← checked (coordinate + u64_as_i64 (jitter s coordinate identity));
  available ← match sc_window s with
              | Some w => Window_next w earliest
              | None => Ok (Some (earliest, None))
              end;
  Ok (match available with
      | Some (available_at, window_end) =>
          if available_at <? ends_at s
          then Some (mk_Occurrence coordinate available_at window_end) else None
      | None => None
      end).
Fixpoint weekly_back (tz : TimeZone) (weekday minute now : Z) (n : nat) (date : Date)
    : res Error (option Z) :=
  match n with
  | O => Ok None
  | S n =>
      at_ ← (if monday_one date =? weekday then local tz date minute else Ok None);
      match at_ with
      | Some at_ =>
          if at_ <=? now then Ok (Some at_)
          else date ← ok_or (sub_day date) Malformed; weekly_back tz weekday minute now n date
      | None => date ← ok_or (sub_day date) Malformed; weekly_back tz weekday minute now n date
      end
  end.
Definition due_base (s : Schedule) (now : Z) : res Error (option Z) :=
  match sc_trigger s with
  | Once at_ => Ok (Some at_)
  | Interval anchor seconds =>
      if anchor <=? now then
        elapsed ← i64_op (now - anchor);
        offset ← i64_op (elapsed / seconds * seconds);
        base ← i64_op (anchor + offset);
        Ok (Some base)
      else Ok None
  | Weekly name weekday minute =>
      tz ← zone name;
      _ ← reject (negb (from_second now)) Malformed;
      weekly_back tz weekday minute now 15 (tz_date tz now)
  | _ => Ok None
  end.
Definition due (s : Schedule) (after now : Z) (identity : bytes) : res Error (option Occurrence) :=
  _ ← Schedule_validate s;
  if (now <? sc_not_before s) || (ends_at s <=? now) || (now <=? after) then Ok None else
  base ← due_base s now;
  match base with
  | Some base =>
      if (after <? base) && (sc_not_before s <=? base) && (base <=? now) then
        found ← occurrence s base identity;
        match found with
        | Some o => if missed s (oc_available_at o) now then Ok None else Ok (Some o)
        | None => Ok None
        end
      else Ok None
  | None => Ok None
  end.
Definition collection_due (s : Schedule) (last_started : option Z) (now : Z) (identity : bytes)
    : res Error (option Occurrence) :=
  match last_started, sc_trigger s with
  | Some last, Interval _ seconds =>
      next ← checked (last + seconds);
      if now <? next then Ok None else occurrence s now identity
  | _, _ => due s (-1) now identity
  end.
Fixpoint weekly_forward (tz : TimeZone) (weekday minute floor : Z) (n : nat) (date : Date)
    : res Error (option Z) :=
  match n with
  | O => Ok None
  | S n =>
      at_ ← (if monday_one date =? weekday then local tz date minute else Ok None);
      match at_ with
      | Some at_ =>
          if floor <=? at_ then Ok (Some at_)
          else date ← ok_or (add_day date) Malformed; weekly_forward tz weekday minute floor n date
      | None => date ← ok_or (add_day date) Malformed; weekly_forward tz weekday minute floor n date
      end
  end.
Definition next_coordinate (s : Schedule) (now floor : Z) : res Error (option Z) :=
  match sc_trigger s with
  | Once at_ => Ok (if floor <=? at_ then Some at_ else None)
  | Interval anchor step =>
      let delta := Z.max (saturating_i64 (floor - anchor)) 0 in
      last ← i64_op (step - 1);
      sum ← checked (delta + last);
      offset ← checked (sum / step * step);
      next ← checked (anchor + offset);
      Ok (Some next)
  | Weekly name weekday minute =>
      tz ← zone name;
      _ ← reject (negb (from_second floor)) Malformed;
      weekly_forward tz weekday minute floor 15 (tz_date tz floor)
  | _ => Ok (if now <? sc_not_before s then Some (sc_not_before s) else None)
  end.
Definition next_occurrence (s : Schedule) (now : Z) (identity : bytes)
    : res Error (option Occurrence) :=
  floor ← checked (now + 1);
  coordinate ← next_coordinate s now (Z.max floor (sc_not_before s));
  match coordinate with Some at_ => occurrence s at_ identity | None => Ok None end.
Definition next_after (s : Schedule) (now : Z) (identity : bytes) : res Error (option Occurrence) :=
  _ ← Schedule_validate s;
  if ends_at s <=? now then Ok None else
  current ← due s (-1) now identity;
  match current with
  | Some o => if now <? oc_available_at o then Ok (Some o) else next_occurrence s now identity
  | None => next_occurrence s now identity
  end.
End Schedule.
