(* ===== verification/PolicyScheduleProperties.v ===== *)
(** * Policy schedules: properties

    Arithmetic never overflows, occurrences are sound, unique per coordinate and bounded by
    jitter and window, and interval validation is exact. *)
From S2P Require Import Prelude Ordered Text External PolicySchedule.

Section Laws.
Context `{JF : Jiff} `{SH : Sha2}.

(** The machine types of a schedule's fields. *)
Definition trigger_typed (t : Trigger) : Prop :=
  match t with
  | Once at_ => in_i64 at_
  | Interval anchor seconds => in_i64 anchor /\ 0 <= seconds < 2 ^ 32
  | Weekly _ weekday minute => 0 <= weekday < 256 /\ 0 <= minute < 65536
  | CheckIn seconds => 0 <= seconds < 2 ^ 32
  | Manual | Registration => True
  end.
Definition window_typed (w : Window) : Prop :=
  0 <= w_start_minute w < 65536 /\ 0 <= w_end_minute w < 65536.
Definition schedule_typed (s : Schedule) : Prop :=
  in_i64 (sc_not_before s) /\ (forall u, sc_until s = Some u -> in_i64 u) /\
  0 <= sc_jitter_seconds s < 2 ^ 32 /\ trigger_typed (sc_trigger s) /\
  (forall w, sc_window s = Some w -> window_typed w).

Lemma i64_op_ok z : in_i64 z -> i64_op z = Ok z.
Proof. intros Hz. unfold i64_op. apply or_panic_ok, checked_i64_some. done. Qed.
Lemma checked_ok z z' : checked z = Ok z' <-> z' = z /\ in_i64 z.
Proof. unfold checked. by rewrite ok_or_ok, checked_i64_some. Qed.
Lemma checked_no_panic z : no_panic (checked z).
Proof. apply ok_or_no_panic. Qed.
Lemma zone_no_panic name : no_panic (zone name).
Proof. unfold zone. apply bind_no_panic; auto with rust. Qed.
Hint Resolve checked_no_panic zone_no_panic : rust.
Lemma as_i8_small z : -128 <= z < 128 -> as_i8 z = z.
Proof. intros Hz. unfold as_i8. rewrite Z.mod_small by lia. lia. Qed.
Lemma local_no_panic tz date minute : 0 <= minute <= 1440 -> no_panic (local tz date minute).
Proof.
  intros Hm. unfold local. apply bind_no_panic.
  - destruct (Z.eqb_spec minute 1440) as [|Hne].
    { apply bind_no_panic; [auto with rust|done]. }
    assert (0 <= minute / 60 < 24) by (split; [apply Z.div_pos|apply Z.div_lt_upper_bound]; lia).
    pose proof (Z.mod_pos_bound minute 60 ltac:(lia)).
    rewrite !as_i8_small by lia.
    rewrite (proj2 (Z.leb_le _ _)), (proj2 (Z.ltb_lt _ _)) by lia.
    rewrite (proj2 (Z.leb_le _ _)), (proj2 (Z.ltb_lt _ _)) by lia. done.
  - intros [[d h] m] _. destruct (to_ambiguous tz d h m); [done|].
    apply bind_no_panic; [auto with rust|done].
Qed.
Lemma ends_at_le s : schedule_typed s -> ends_at s <= i64_max.
Proof.
  intros (_ & Hu & _). unfold ends_at. destruct (sc_until s) as [u|]; simpl; [|lia].
  destruct (Hu u eq_refl). lia.
Qed.
Lemma validate_no_panic s : schedule_typed s -> no_panic (Schedule_validate s).
Proof.
  intros (_ & _ & _ & Ht & _). unfold Schedule_validate.
  do 3 (apply bind_no_panic; [auto with rust|intros _ _]).
  apply bind_no_panic; [|intros _ _].
  - unfold validate_trigger. destruct (sc_trigger s); auto with rust; try done.
    + apply bind_no_panic; [auto with rust|intros _ _]. apply bind_no_panic; [|auto with rust].
      unfold interval_first. destruct (_ <=? _); [done|].
      apply bind_no_panic; [auto with rust|intros d _]. simpl in Ht.
      rewrite i64_op_ok by (unfold in_i64, i64_min, i64_max in *; lia). simpl.
      apply bind_no_panic; [auto with rust|intros x _]. apply bind_no_panic; auto with rust.
    + apply bind_no_panic; auto with rust.
  - destruct (sc_window s) as [w|]; [|done]. unfold validate_window. apply bind_no_panic; auto with rust.
Qed.

(** ** What validation establishes *)
Record schedule_ok (s : Schedule) : Prop := {
  ok_span : 0 <= sc_not_before s < ends_at s;
  ok_jitter : sc_jitter_seconds s <= 3600;
  ok_not_before : from_second (sc_not_before s) = true;
  ok_until : forall u, sc_until s = Some u -> from_second u = true;
  ok_trigger : validate_trigger s = Ok ();
  ok_window : forall w, sc_window s = Some w -> validate_window w = Ok ()
}.
Lemma schedule_validate_ok s : Schedule_validate s = Ok () <-> schedule_ok s.
Proof.
  unfold Schedule_validate. split.
  - intros H. inv_ok. bool_hyps. match goal with u : () |- _ => destruct u end. split; try done; try lia.
    + intros u Hu. rewrite Hu in *. by bool_hyps.
    + intros w Hw. by rewrite Hw in H.
  - intros [Hs Hj Hn Hu Ht Hw].
    rewrite (proj2 (Z.ltb_ge _ _)), (proj2 (Z.leb_gt _ _)), (proj2 (Z.ltb_ge _ _)) by lia. simpl.
    rewrite Hn. simpl.
    assert (match sc_until s with Some until => negb (from_second until) | None => false end = false) as ->.
    { destruct (sc_until s); [|done]. by rewrite Hu. }
    simpl. rewrite Ht. simpl. destruct (sc_window s); [by apply Hw|done].
Qed.
Lemma interval_ok s anchor seconds :
  schedule_ok s -> sc_trigger s = Interval anchor seconds ->
  0 <= anchor /\ 60 <= seconds <= 31536000.
Proof.
  intros [_ _ _ _ Ht _] Htr. unfold validate_trigger in Ht. rewrite Htr in Ht.
  inv_ok. bool_hyps. unfold interval_range in *. bool_hyps. lia.
Qed.
Lemma weekly_ok s name weekday minute :
  schedule_ok s -> sc_trigger s = Weekly name weekday minute -> minute < 1440.
Proof.
  intros [_ _ _ _ Ht _] Htr. unfold validate_trigger in Ht. rewrite Htr in Ht. inv_ok. by bool_hyps.
Qed.
Lemma window_ok s w :
  schedule_ok s -> sc_window s = Some w -> w_start_minute w < 1440 /\ w_end_minute w <= 1440.
Proof. intros [_ _ _ _ _ Hw] Hs. apply Hw in Hs. unfold validate_window in Hs. inv_ok. by bool_hyps. Qed.

(** ** Windows and occurrences *)
Lemma window_scan_no_panic w tz at_ n date :
  0 <= w_start_minute w < 1440 -> 0 <= w_end_minute w <= 1440 ->
  no_panic (window_scan w tz at_ n date).
Proof.
  intros Hs He. revert date. induction n as [|n IH]; intros date; simpl; [done|].
  apply bind_no_panic.
  - destruct (bool_decide _); [|done].
    apply bind_no_panic; [apply local_no_panic; lia|intros start _].
    apply bind_no_panic; [destruct (_ <? _); auto with rust; done|intros d _].
    apply bind_no_panic; [apply local_no_panic; lia|done].
  - intros [r|] _; [done|]. apply bind_no_panic; [auto with rust|intros d _]. apply IH.
Qed.
Lemma window_scan_ok w tz at_ n date r e :
  window_scan w tz at_ n date = Ok (Some (r, e)) ->
  exists d start end_, monday_one d ∈ w_weekdays w /\ local tz d (w_start_minute w) = Ok (Some start) /\
    r = Z.max at_ start /\ e = Some end_ /\ at_ < end_ /\ start < end_.
Proof.
  revert date. induction n as [|n IH]; intros date H; [done|]. cbn [window_scan] in H.
  apply bind_ok in H as (found & E & H). destruct found as [[r' e']|].
  - injection H as -> ->. destruct (bool_decide _) eqn:Hd; [|done]. bool_hyps. inv_ok.
    destruct a as [start|], a1 as [end_|]; try done.
    destruct (_ && _) eqn:Hc; [|done]. injection E as <- <-. bool_hyps. eauto 10.
  - inv_ok. by eapply IH.
Qed.
Lemma jitter_range s c identity : 0 <= sc_jitter_seconds s -> 0 <= jitter s c identity <= sc_jitter_seconds s.
Proof. intros Hj. unfold jitter. pose proof (Z.mod_pos_bound (of_be_bytes (take 8 (sha256 (identity ++ be_bytes 8 (i64_as_u64 c))))) (sc_jitter_seconds s + 1)). lia. Qed.
Lemma jitter_i64 s c identity :
  0 <= sc_jitter_seconds s <= 3600 -> u64_as_i64 (jitter s c identity) = jitter s c identity.
Proof.
  intros Hj. pose proof (jitter_range s c identity). unfold u64_as_i64.
  rewrite (proj2 (Z.leb_le _ _)); [done|]. unfold i64_max. lia.
Qed.
Lemma occurrence_no_panic s c identity : schedule_typed s -> no_panic (occurrence s c identity).
Proof.
  intros Ht. unfold occurrence. apply bind_no_panic; [by apply validate_no_panic|intros [] Hv].
  apply schedule_validate_ok in Hv. destruct (_ || _); [done|].
  apply bind_no_panic; [auto with rust|intros earliest _]. apply bind_no_panic; [|done].
  destruct (sc_window s) as [w|] eqn:Hw; [|done]. unfold Window_next.
  apply bind_no_panic; [auto with rust|intros tz _]. apply bind_no_panic; [auto with rust|intros _ _].
  apply bind_no_panic; [auto with rust|intros d _].
  destruct Ht as (_ & _ & _ & _ & Ht). destruct (Ht w Hw). pose proof (window_ok s w Hv Hw).
  apply window_scan_no_panic; lia.
Qed.
Lemma occurrence_ok s c identity o :
  schedule_typed s -> occurrence s c identity = Ok (Some o) ->
  oc_coordinate o = c /\ sc_not_before s <= c < ends_at s /\ oc_available_at o < ends_at s /\
  let earliest := c + jitter s c identity in
  c <= earliest <= c + sc_jitter_seconds s /\
  match sc_window s with
  | None => oc_available_at o = earliest /\ oc_window_end o = None
  | Some w => exists tz d start end_,
      tz_get (w_zone w) = Some tz /\ monday_one d ∈ w_weekdays w /\
      local tz d (w_start_minute w) = Ok (Some start) /\
      oc_available_at o = Z.max earliest start /\ oc_window_end o = Some end_ /\
      oc_available_at o < end_
  end.
Proof.
  intros (_ & _ & Hj & _) H. unfold occurrence in H. apply bind_ok in H as ([] & Hv & H).
  apply schedule_validate_ok in Hv. destruct (_ || _) eqn:Hr; [done|]. bool_hyps. inv_ok.
  rewrite jitter_i64 in E by (destruct Hv; lia). apply checked_ok in E as [-> _].
  destruct a0 as [[at_ e]|]; [|done]. destruct (_ <? _) eqn:Hend; [|done]. injection H as <-.
  bool_hyps. simpl. pose proof (jitter_range s c identity ltac:(lia)).
  split_and!; [done|lia..|]. destruct (sc_window s) as [w|].
  - unfold Window_next in E0. inv_ok. unfold zone in E. inv_ok.
    apply window_scan_ok in E0 as (d & start & end_ & Hd & Hs & -> & -> & ? & ?).
    eexists _, d, start, end_. split_and!; try done. lia.
  - by injection E0 as -> ->.
Qed.

(** ** Due *)
Lemma due_base_no_panic s now :
  schedule_typed s -> schedule_ok s -> in_i64 now -> no_panic (due_base s now).
Proof.
  intros Ht Hok Hnow. unfold due_base. destruct (sc_trigger s) as [|at_|anchor seconds|name weekday minute| |] eqn:Htr;
    try done.
  - pose proof (interval_ok s anchor seconds Hok Htr) as [Ha Hs].
    destruct (Z.leb_spec anchor now) as [Hle|]; [|done].
    pose proof (Z.mul_div_le (now - anchor) seconds ltac:(lia)).
    pose proof (Z.div_pos (now - anchor) seconds ltac:(lia) ltac:(lia)).
    assert (0 <= (now - anchor) / seconds * seconds <= now - anchor) by nia.
    unfold in_i64, i64_min, i64_max in *.
    rewrite i64_op_ok by (unfold in_i64, i64_min, i64_max; lia). cbn [mbind res_bind].
    rewrite i64_op_ok by (unfold in_i64, i64_min, i64_max; lia). cbn [mbind res_bind].
    by rewrite i64_op_ok by (unfold in_i64, i64_min, i64_max; lia).
  - apply bind_no_panic; [auto with rust|intros tz _]. apply bind_no_panic; [auto with rust|intros _ _].
    pose proof (weekly_ok _ _ _ _ Hok Htr). destruct Ht as (_ & _ & _ & Ht & _). rewrite Htr in Ht.
    simpl in Ht. generalize (tz_date tz now) as d. generalize 15%nat as n.
    induction n as [|n IH]; intros d; simpl; [done|].
    apply bind_no_panic; [destruct (_ =? _); [apply local_no_panic; lia|done]|].
    intros [x|] _; [destruct (_ <=? _); [done|]|]; (apply bind_no_panic; [auto with rust|intros d' _; apply IH]).
Qed.
Lemma due_no_panic s after now identity :
  schedule_typed s -> in_i64 now -> no_panic (due s after now identity).
Proof.
  intros Ht Hnow. unfold due. apply bind_no_panic; [by apply validate_no_panic|intros [] Hv].
  apply schedule_validate_ok in Hv. destruct (_ || _); [done|].
  apply bind_no_panic; [by apply due_base_no_panic|]. intros [b|] _; [|done].
  destruct (_ && _); [|done]. apply bind_no_panic; [by apply occurrence_no_panic|].
  intros [o|] _; [|done]. by destruct (missed _ _ _).
Qed.
Lemma weekly_back_ok tz weekday minute now n date at_ :
  weekly_back tz weekday minute now n date = Ok (Some at_) ->
  exists d, monday_one d = weekday /\ local tz d minute = Ok (Some at_).
Proof.
  revert date. induction n as [|n IH]; intros date H; [done|]. cbn [weekly_back] in H.
  apply bind_ok in H as (x & E & H). destruct (Z.eqb_spec (monday_one date) weekday).
  - destruct x as [x|]; [destruct (x <=? now)|]; inv_ok; eauto.
  - injection E as <-. inv_ok. eauto.
Qed.
Lemma weekly_forward_ok tz weekday minute floor n date at_ :
  weekly_forward tz weekday minute floor n date = Ok (Some at_) ->
  floor <= at_ /\ exists d, monday_one d = weekday /\ local tz d minute = Ok (Some at_).
Proof.
  revert date. induction n as [|n IH]; intros date H; [done|]. cbn [weekly_forward] in H.
  apply bind_ok in H as (x & E & H). destruct (Z.eqb_spec (monday_one date) weekday).
  - destruct x as [x|]; [destruct (Z.leb_spec floor x)|]; inv_ok; eauto.
  - injection E as <-. inv_ok. eauto.
Qed.
(** A coordinate the trigger itself names. *)
Definition on_trigger (s : Schedule) (c : Z) : Prop :=
  match sc_trigger s with
  | Once at_ => c = at_
  | Interval anchor seconds => exists k, 0 <= k /\ c = anchor + k * seconds
  | Weekly name weekday minute => exists tz d,
      tz_get name = Some tz /\ monday_one d = weekday /\ local tz d minute = Ok (Some c)
  | _ => False
  end.
Lemma due_base_ok s now b :
  schedule_ok s -> due_base s now = Ok (Some b) ->
  on_trigger s b /\
  forall anchor seconds, sc_trigger s = Interval anchor seconds -> b <= now < b + seconds.
Proof.
  intros Hok H. unfold due_base, on_trigger in *.
  destruct (sc_trigger s) as [|at_|anchor seconds|name weekday minute| |] eqn:Htr; try done.
  - by injection H as <-.
  - pose proof (interval_ok s anchor seconds Hok Htr) as [Ha Hs].
    destruct (Z.leb_spec anchor now); [|done]. unfold i64_op in H. inv_ok.
    rewrite checked_i64_some in *. destruct_and!. subst.
    pose proof (Z.div_pos (now - anchor) seconds ltac:(lia) ltac:(lia)).
    pose proof (Z.div_mod (now - anchor) seconds ltac:(lia)).
    pose proof (Z.mod_pos_bound (now - anchor) seconds ltac:(lia)).
    split; [eauto|]. intros ? ? [= <- <-]. nia.
  - inv_ok. unfold zone in E. inv_ok. apply weekly_back_ok in H as (d & ? & ?).
    split; [by eauto 8|done].
Qed.
Lemma due_ok s after now identity o :
  due s after now identity = Ok (Some o) ->
  schedule_ok s /\ sc_not_before s <= now < ends_at s /\
  exists b, due_base s now = Ok (Some b) /\ after < b <= now /\ sc_not_before s <= b /\
    occurrence s b identity = Ok (Some o) /\ missed s (oc_available_at o) now = false.
Proof.
  intros H. unfold due in H. apply bind_ok in H as ([] & Hv & H). apply schedule_validate_ok in Hv.
  destruct (_ || _) eqn:Hr; [done|]. bool_hyps. apply bind_ok in H as ([b|] & Hb & H); [|done].
  destruct (_ && _) eqn:Hc; [|done]. bool_hyps. apply bind_ok in H as ([o'|] & Ho & H); [|done].
  destruct (missed _ _ _) eqn:Hm; [done|]. injection H as ->. split_and!; try done.
  by exists b.
Qed.
(** The base depends on the clock only, so a consumed coordinate is not offered again. *)
Lemma due_consumed s after now identity o after' identity' :
  due s after now identity = Ok (Some o) -> schedule_typed s -> oc_coordinate o <= after' ->
  due s after' now identity' = Ok None.
Proof.
  intros H Ht Ha. apply due_ok in H as (Hok & Hn & b & Hb & Hab & Hnb & Ho & _).
  apply occurrence_ok in Ho as (Hc & _); [|done]. unfold due.
  rewrite (proj2 (schedule_validate_ok s) Hok). cbn [mbind res_bind].
  destruct (_ || _) eqn:Hr; [done|]. rewrite Hb. cbn [mbind res_bind].
  rewrite (proj2 (Z.ltb_ge after' b)) by lia. done.
Qed.

(** ** Next *)
Lemma next_coordinate_no_panic s now floor :
  schedule_typed s -> schedule_ok s -> no_panic (next_coordinate s now floor).
Proof.
  intros Ht Hok. unfold next_coordinate.
  destruct (sc_trigger s) as [|at_|anchor seconds|name weekday minute| |] eqn:Htr; try done.
  - pose proof (interval_ok s anchor seconds Hok Htr) as [Ha Hs].
    rewrite i64_op_ok by (unfold in_i64, i64_min, i64_max; lia). cbn [mbind res_bind].
    do 3 (apply bind_no_panic; [auto with rust|intros ? _]). done.
  - apply bind_no_panic; [auto with rust|intros tz _]. apply bind_no_panic; [auto with rust|intros _ _].
    pose proof (weekly_ok _ _ _ _ Hok Htr). destruct Ht as (_ & _ & _ & Ht & _). rewrite Htr in Ht.
    simpl in Ht. generalize (tz_date tz floor) as d. generalize 15%nat as n.
    induction n as [|n IH]; intros d; simpl; [done|].
    apply bind_no_panic; [destruct (_ =? _); [apply local_no_panic; lia|done]|].
    intros [x|] _; [destruct (_ <=? _); [done|]|]; (apply bind_no_panic; [auto with rust|intros d' _; apply IH]).
Qed.
Lemma next_after_no_panic s now identity :
  schedule_typed s -> in_i64 now -> no_panic (next_after s now identity).
Proof.
  intros Ht Hnow. unfold next_after. apply bind_no_panic; [by apply validate_no_panic|intros [] Hv].
  apply schedule_validate_ok in Hv. destruct (_ <=? _); [done|].
  assert (no_panic (next_occurrence s now identity)) as Hnext.
  { unfold next_occurrence. apply bind_no_panic; [auto with rust|intros floor _].
    apply bind_no_panic; [by apply next_coordinate_no_panic|].
    intros [c|] _; [by apply occurrence_no_panic|done]. }
  apply bind_no_panic; [by apply due_no_panic|]. intros [o|] _; [|done]. by destruct (_ <? _).
Qed.
(** The least coordinate of an interval at or after [floor]. *)
Definition least_from (anchor seconds floor c : Z) : Prop :=
  floor <= c /\ (exists k, 0 <= k /\ c = anchor + k * seconds) /\
  forall k, 0 <= k -> floor <= anchor + k * seconds -> c <= anchor + k * seconds.
Lemma ceil_least anchor seconds floor :
  0 < seconds ->
  least_from anchor seconds floor
    (anchor + (Z.max (floor - anchor) 0 + (seconds - 1)) / seconds * seconds).
Proof.
  intros Hs. set (d := Z.max (floor - anchor) 0).
  pose proof (Z.div_mod (d + (seconds - 1)) seconds ltac:(lia)).
  pose proof (Z.mod_pos_bound (d + (seconds - 1)) seconds ltac:(lia)).
  pose proof (Z.div_pos (d + (seconds - 1)) seconds ltac:(lia) ltac:(lia)).
  set (q := (d + (seconds - 1)) / seconds) in *. split_and!.
  - assert (floor - anchor <= d) by lia. nia.
  - by exists q.
  - intros k Hk Hf. assert (q <= k); [|nia].
    assert (d <= k * seconds) by (unfold d; nia). nia.
Qed.
Lemma next_coordinate_ok s now floor c :
  schedule_ok s -> floor <= i64_max -> next_coordinate s now floor = Ok (Some c) ->
  now < floor -> sc_not_before s <= floor ->
  now < c /\
  (forall anchor seconds, sc_trigger s = Interval anchor seconds -> least_from anchor seconds floor c).
Proof.
  intros Hok Hf H Hnow Hnb. unfold next_coordinate in H.
  destruct (sc_trigger s) as [|at_|anchor seconds|name weekday minute| |] eqn:Htr.
  - destruct (Z.ltb_spec now (sc_not_before s)); [|done]. by injection H as <-.
  - destruct (Z.leb_spec floor at_); [|done]. injection H as <-. split; [lia|done].
  - pose proof (interval_ok s anchor seconds Hok Htr) as [Ha Hs].
    rewrite i64_op_ok in H by (unfold in_i64, i64_min, i64_max; lia). cbn [mbind res_bind] in H.
    assert (Z.max (saturating_i64 (floor - anchor)) 0 = Z.max (floor - anchor) 0) as Hsat.
    { unfold saturating_i64, i64_min, i64_max in *. lia. }
    rewrite Hsat in H. inv_ok. rewrite checked_ok in *. destruct_and!. subst.
    pose proof (ceil_least anchor seconds floor ltac:(lia)) as Hl.
    split; [destruct Hl; lia|]. by intros ? ? [= <- <-].
  - inv_ok. apply weekly_forward_ok in H as [? _]. split; [lia|done].
  - destruct (Z.ltb_spec now (sc_not_before s)); [|done]. by injection H as <-.
  - destruct (Z.ltb_spec now (sc_not_before s)); [|done]. by injection H as <-.
Qed.
Lemma next_after_ok s now identity o :
  schedule_typed s -> next_after s now identity = Ok (Some o) ->
  now < oc_available_at o /\ occurrence s (oc_coordinate o) identity = Ok (Some o) /\
  (forall anchor seconds, sc_trigger s = Interval anchor seconds ->
     now < oc_coordinate o -> least_from anchor seconds (Z.max (now + 1) (sc_not_before s)) (oc_coordinate o)).
Proof.
  intros Ht H. unfold next_after in H. apply bind_ok in H as ([] & Hv & H). apply schedule_validate_ok in Hv.
  destruct (_ <=? _); [done|]. apply bind_ok in H as (cur & Hdue & H).
  assert (next_occurrence s now identity = Ok (Some o) ->
    now < oc_available_at o /\ occurrence s (oc_coordinate o) identity = Ok (Some o) /\
    (forall anchor seconds, sc_trigger s = Interval anchor seconds -> now < oc_coordinate o ->
       least_from anchor seconds (Z.max (now + 1) (sc_not_before s)) (oc_coordinate o))) as Hnext.
  { clear H. intros H. unfold next_occurrence in H. inv_ok. apply checked_ok in E as [-> Hi].
    destruct a0 as [c|]; [|done]. apply next_coordinate_ok in E0 as [Hc Hl]; [|done|..|lia|lia].
    - pose proof (occurrence_ok _ _ _ _ Ht H) as (Heq & _ & _ & He & Hw). rewrite Heq.
      split_and!; [|done|naive_solver].
      destruct (sc_window s) as [w|]; [destruct Hw as (? & ? & ? & ? & ? & ? & ? & -> & _)|destruct Hw as [-> _]]; lia.
    - destruct Ht as ([? ?] & _). unfold in_i64 in Hi. lia. }
  destruct cur as [o'|]; [|by apply Hnext]. destruct (Z.ltb_spec now (oc_available_at o')); [|by apply Hnext].
  injection H as ->. apply due_ok in Hdue as (_ & _ & b & Hb & Hab & _ & Ho & _).
  pose proof (occurrence_ok _ _ _ _ Ht Ho) as (-> & _). split_and!; [done|done|]. intros; lia.
Qed.

(** ** Interval validation *)
Lemma interval_first_ok s anchor seconds :
  schedule_typed s -> from_second (sc_not_before s) = true -> in_i64 anchor -> 0 <= anchor ->
  60 <= seconds <= 31536000 ->
  exists first, interval_first anchor seconds (sc_not_before s) = Ok first /\
    least_from anchor seconds (sc_not_before s) first.
Proof.
  intros Ht Hnb Hi Ha Hs. apply from_second_range in Hnb. unfold interval_first.
  pose proof (ceil_least anchor seconds (sc_not_before s) ltac:(lia)) as Hl.
  destruct (Z.leb_spec (sc_not_before s) anchor) as [Hle|Hgt].
  - exists anchor. split; [done|]. rewrite Z.max_r, Z.add_0_l, Z.div_small in Hl by lia.
    by rewrite Z.mul_0_l, Z.add_0_r in Hl.
  - rewrite Z.max_l in Hl by lia.
    pose proof (Z.div_mod (sc_not_before s - anchor + (seconds - 1)) seconds ltac:(lia)).
    pose proof (Z.mod_pos_bound (sc_not_before s - anchor + (seconds - 1)) seconds ltac:(lia)).
    set (q := (sc_not_before s - anchor + (seconds - 1)) / seconds) in *.
    assert (forall z, -10 ^ 18 <= z <= 10 ^ 18 -> checked z = Ok z) as Hck.
    { intros z Hz. apply checked_ok. split; [done|]. unfold in_i64, i64_min, i64_max. lia. }
    rewrite Hck by lia. cbn [mbind res_bind].
    rewrite i64_op_ok by (unfold in_i64, i64_min, i64_max; lia). cbn [mbind res_bind].
    rewrite Hck by lia. cbn [mbind res_bind]. fold q.
    rewrite Hck by nia. cbn [mbind res_bind]. rewrite Hck by nia. eauto.
Qed.
End Laws.
#[export] Hint Resolve checked_no_panic zone_no_panic : rust.

(** ** Properties *)
Section Properties.
Context `{JF : Jiff} `{SH : Sha2}.

(** With fields and clock in their machine ranges, none of the schedule operations
    overflows or panics: every plain [i64] addition, division and cast stays in range. *)
Theorem schedule_never_panics s after now last c identity :
  schedule_typed s -> in_i64 now ->
  no_panic (Schedule_validate s) /\ no_panic (due s after now identity) /\
  no_panic (next_after s now identity) /\ no_panic (occurrence s c identity) /\
  no_panic (collection_due s last now identity).
Proof.
  intros Ht Hn. split_and!; [by apply validate_no_panic|by apply due_no_panic|
    by apply next_after_no_panic|by apply occurrence_no_panic|].
  unfold collection_due. destruct last as [last|]; [|by apply due_no_panic].
  destruct (sc_trigger s); try (by apply due_no_panic).
  apply bind_no_panic; [auto with rust|intros next _].
  destruct (_ <? _); [done|by apply occurrence_no_panic].
Qed.

(** C15: a due occurrence lies after the scan cursor and not after the clock, inside the
    schedule's span, on the trigger's own coordinates, and for an interval it is the latest
    one; it is a function of its coordinate; and with the same clock it is never offered
    again once the cursor has reached it.  An occurrence the misfire rule calls missed is
    never offered. *)
Theorem due_sound s after now identity o :
  schedule_typed s -> due s after now identity = Ok (Some o) ->
  after < oc_coordinate o <= now /\ sc_not_before s <= oc_coordinate o < ends_at s /\
  on_trigger s (oc_coordinate o) /\
  (forall anchor seconds, sc_trigger s = Interval anchor seconds -> now < oc_coordinate o + seconds) /\
  occurrence s (oc_coordinate o) identity = Ok (Some o) /\
  missed s (oc_available_at o) now = false /\
  forall after' identity', oc_coordinate o <= after' -> due s after' now identity' = Ok None.
Proof.
  intros Ht H. pose proof (due_ok _ _ _ _ _ H) as (Hok & Hn & b & Hb & Hab & Hnb & Ho & Hm).
  pose proof (occurrence_ok _ _ _ _ Ht Ho) as (Hc & Hspan & _).
  pose proof (due_base_ok s now b Hok Hb) as [Htr Hlast]. rewrite Hc.
  split_and!; try done; try lia.
  - intros. by eapply Hlast.
  - intros. by eapply due_consumed; [..|rewrite Hc].
Qed.

(** The next observation is always strictly in the future, it is the deterministic
    occurrence of its coordinate, and for an interval whose coordinate is still to come it
    is the least one after the clock and not before the schedule starts. *)
Theorem next_after_sound s now identity o :
  schedule_typed s -> next_after s now identity = Ok (Some o) ->
  now < oc_available_at o /\ occurrence s (oc_coordinate o) identity = Ok (Some o) /\
  (forall anchor seconds, sc_trigger s = Interval anchor seconds -> now < oc_coordinate o ->
     least_from anchor seconds (Z.max (now + 1) (sc_not_before s)) (oc_coordinate o)).
Proof. apply next_after_ok. Qed.

(** An occurrence keeps its coordinate, becomes available at most the configured jitter
    later, or inside a maintenance window that starts on a permitted local day and has not
    ended, and always before the schedule ends. *)
Theorem occurrence_bounds s c identity o :
  schedule_typed s -> occurrence s c identity = Ok (Some o) ->
  oc_coordinate o = c /\ sc_not_before s <= c < ends_at s /\ oc_available_at o < ends_at s /\
  exists earliest, c <= earliest <= c + sc_jitter_seconds s /\
  match sc_window s with
  | None => oc_available_at o = earliest /\ oc_window_end o = None
  | Some w => exists tz d start end_,
      tz_get (w_zone w) = Some tz /\ monday_one d ∈ w_weekdays w /\
      local tz d (w_start_minute w) = Ok (Some start) /\
      oc_available_at o = Z.max earliest start /\ oc_window_end o = Some end_ /\
      oc_available_at o < end_
  end.
Proof. intros Ht H. apply occurrence_ok in H as (? & ? & ? & ? & ?); [|done]. eauto 10. Qed.

(** An interval schedule without a window is valid exactly when its span and bounds are,
    and some coordinate of the interval falls inside the span: validation neither rejects a
    schedule that would run nor accepts one that never can. *)
Theorem interval_validate_iff s anchor seconds :
  schedule_typed s -> sc_trigger s = Interval anchor seconds -> sc_window s = None ->
  Schedule_validate s = Ok () <->
  0 <= sc_not_before s < ends_at s /\ sc_jitter_seconds s <= 3600 /\
  from_second (sc_not_before s) = true /\
  (forall u, sc_until s = Some u -> from_second u = true) /\
  0 <= anchor /\ 60 <= seconds <= 31536000 /\
  exists k, 0 <= k /\ sc_not_before s <= anchor + k * seconds < ends_at s.
Proof.
  intros Ht Htr Hw. rewrite schedule_validate_ok.
  assert (in_i64 anchor) as Hi by (destruct Ht as (_ & _ & _ & Ht & _); rewrite Htr in Ht; by destruct Ht).
  assert (from_second (sc_not_before s) = true -> 0 <= anchor -> 60 <= seconds <= 31536000 ->
    validate_trigger s = Ok () <->
    exists k, 0 <= k /\ sc_not_before s <= anchor + k * seconds < ends_at s) as Hiff.
  { intros Hnb Ha Hs. destruct (interval_first_ok s anchor seconds) as (first & Hf & Hge & (k & Hk & Heq) & Hl);
      [done..|]. unfold validate_trigger. rewrite Htr, Hf. unfold interval_range.
    rewrite (proj2 (Z.ltb_ge _ _)) by lia. rewrite !(proj2 (Z.leb_le _ _)) by lia. simpl.
    rewrite reject_ok, Z.leb_gt. split.
    - intros Hlt. exists k. lia.
    - intros (k' & Hk' & Hn & He). specialize (Hl k' Hk' Hn). lia. }
  split.
  - intros Hok. pose proof (interval_ok s anchor seconds Hok Htr) as [Ha Hs].
    destruct Hok as [? ? ? ? Hv _]. apply Hiff in Hv; done.
  - intros (? & ? & ? & ? & ? & ? & Hk). split; try done; [by apply Hiff|]. intros w Hw'. congruence.
Qed.
End Properties.

(** ** Closed examples *)
Module Witnesses.
Import Reference.
Definition hourly : Schedule :=
  mk_Schedule (Interval 0 3600) CoalesceOne 100 (Some 1000000) 60 None.
Definition nightly : Schedule :=
  mk_Schedule (Weekly (lit "UTC") 4 90) (Skip 7200) 0 None 0
    (Some (mk_Window (lit "UTC") [4; 5] 120 1440)).
Lemma hourly_typed : schedule_typed hourly.
Proof.
  unfold schedule_typed, in_i64, i64_min, i64_max. simpl. split_and!; try lia; try done.
  all: intros u [= <-]; lia.
Qed.
Lemma nightly_typed : schedule_typed nightly.
Proof.
  unfold schedule_typed, in_i64, i64_min, i64_max. simpl. split_and!; try lia; try done.
  intros w [= <-]. split; simpl; lia.
Qed.
Definition get_o (r : res Error (option Occurrence)) : Occurrence :=
  default (mk_Occurrence 0 0 None) (get None r).
Definition found (r : res Error (option Occurrence)) : bool :=
  match r with Ok (Some _) => true | _ => false end.
Lemma found_eq r : found r = true -> r = Ok (Some (get_o r)).
Proof. by destruct r as [[]| |]. Qed.
Lemma due_found : due hourly 0 7300 (lit "pc") = Ok (Some (get_o (due hourly 0 7300 (lit "pc")))).
Proof. apply found_eq. vm_compute. reflexivity. Qed.
Lemma next_found : next_after hourly 7300 (lit "pc") = Ok (Some (get_o (next_after hourly 7300 (lit "pc")))).
Proof. apply found_eq. vm_compute. reflexivity. Qed.
Lemma window_found : occurrence nightly 5400 (lit "pc") = Ok (Some (get_o (occurrence nightly 5400 (lit "pc")))).
Proof. apply found_eq. vm_compute. reflexivity. Qed.
Example window_example : get_o (occurrence nightly 5400 (lit "pc")) = mk_Occurrence 5400 7200 (Some 86400).
Proof. vm_compute. reflexivity. Qed.
Lemma schedule_never_panics_witness : no_panic (due hourly 0 7300 (lit "pc")).
Proof.
  assert (in_i64 7300) as Hn by (unfold in_i64, i64_min, i64_max; lia).
  exact (proj1 (proj2 (schedule_never_panics hourly 0 7300 None 0 (lit "pc") hourly_typed Hn))).
Defined.
Lemma due_sound_witness :
  oc_coordinate (get_o (due hourly 0 7300 (lit "pc"))) = 7200 /\ due hourly 7200 7300 (lit "pc") = Ok None.
Proof.
  assert (oc_coordinate (get_o (due hourly 0 7300 (lit "pc"))) = 7200) as Hc by (vm_compute; reflexivity).
  split; [exact Hc|].
  apply (due_sound hourly 0 7300 (lit "pc") _ hourly_typed due_found). rewrite Hc. lia.
Defined.
Lemma next_after_sound_witness : 7300 < oc_available_at (get_o (next_after hourly 7300 (lit "pc"))).
Proof. exact (proj1 (next_after_sound hourly 7300 (lit "pc") _ hourly_typed next_found)). Defined.
Lemma occurrence_bounds_witness : oc_available_at (get_o (occurrence nightly 5400 (lit "pc"))) < i64_max.
Proof.
  exact (proj1 (proj2 (proj2 (occurrence_bounds nightly 5400 (lit "pc") _ nightly_typed window_found)))).
Defined.
Lemma interval_validate_iff_witness : Schedule_validate hourly = Ok ().
Proof.
  apply (interval_validate_iff hourly 0 3600 hourly_typed eq_refl eq_refl).
  simpl. unfold ends_at. simpl. split_and!; try lia; [by intros u [= <-]|exists 1; lia].
Defined.
End Witnesses.
