(* ===== verification/SelfService.v ===== *)
(** * Policy self-service ([crates/policy/src/self_service.rs])

    Parameter sources and their resolution against call input, script risk, and the
    validation and normalization of a self-service configuration. *)
From S2P Require Import Prelude Ordered Text External Json PolicySchedule.

(** ** Parameter sources *)
Section Parameters.
Context `{SJ : SerdeJson}.

Inductive ParameterSource : Type := Fixed (value : Json Number) | PInput.
(** [ParameterSources]: a [BTreeMap] from names. *)
Definition ParameterSources : Type := list (rstr * ParameterSource).
#[export] Instance ParameterSource_eq_dec : EqDecision ParameterSource.
Proof. solve_decision. Defined.
(** Generated serialization ([serde_json::to_vec] of the derived [Serialize]). *)
Class SourcesSerde : Type := { sources_to_vec : ParameterSources -> option bytes }.
Context `{SS : SourcesSerde}.

Definition is_input (p : ParameterSource) : bool := match p with PInput => true | _ => false end.
Definition has_input (sources : ParameterSources) : bool := existsb is_input (bm_values sources).
Definition is_string (v : Json Number) : bool := match v with JString _ => true | _ => false end.
Definition is_boolean (v : Json Number) : bool := match v with JBool _ => true | _ => false end.
Definition as_i64 (v : Json Number) : option Z :=
  match v with JNumber n => number_as_i64 n | _ => None end.
Definition as_str (v : Json Number) : option rstr :=
  match v with JString s => Some s | _ => None end.
Definition as_object (v : Json Number) : option (list (rstr * Json Number)) :=
  match v with JObject m => Some m | _ => None end.
Definition literal_ok (value : Json Number) : bool :=
  (is_string value || is_boolean value || match as_i64 value with Some _ => true | None => false end)
  && negb (match as_str value with Some s => bool_decide (0 ∈ s) | None => false end).
Definition name_ok (name : rstr) : bool :=
  negb (is_empty name) && (str_len name <=? 64)
  && forallb (fun b => is_ascii_alphanumeric b || (b =? 95)) (str_bytes name).
Definition validate_source (entry : rstr * ParameterSource) : res Error () :=
  _ ← reject (negb (name_ok entry.1)) Malformed;
  match entry.2 with
  | Fixed value => reject (negb (literal_ok value)) Malformed
  | PInput => Ok ()
  end.
Definition ParameterSources_validate (sources : ParameterSources) : res Error () :=
  _ ← (if 32 <? zlen sources then Err Malformed else
       bytes ← ok_or (sources_to_vec sources) Malformed;
       reject (65536 <? zlen bytes) Malformed);
  res_for (fun _ entry => validate_source entry) sources ().
Definition resolve_source (input : list (rstr * Json Number))
    (values : list (rstr * Json Number)) (entry : rstr * ParameterSource)
    : res Error (list (rstr * Json Number)) :=
  value ← match entry.2 with
          | Fixed value => Ok value
          | PInput => ok_or (bm_get entry.1 input) Malformed
          end;
  Ok (bm_insert entry.1 value values).
Definition ParameterSources_resolve (sources : ParameterSources) (input : Json Number)
    : res Error (Json Number) :=
  _ ← ParameterSources_validate sources;
  input ← ok_or (as_object input) Malformed;
  _ ← reject (negb (zlen input =? zlen (List.filter is_input (bm_values sources)))) Malformed;
  values ← res_for (resolve_source input) sources [];
  _ ← reject (existsb (fun name => negb (bool_decide (bm_get name sources = Some PInput)))
                (bm_keys input)) Malformed;
  Ok (JObject values).
Definition fixed_values (sources : ParameterSources) : Json Number :=
  JObject (foldl (fun m e => match e.2 with Fixed v => bm_insert e.1 v m | PInput => m end) [] sources).
End Parameters.

(** ** Access ([SelfServiceAccess], [SelfServiceSelector]) *)
Inductive DepartmentMatch : Type := Exact | Subtree.
#[export] Instance DepartmentMatch_eq_dec : EqDecision DepartmentMatch.
Proof. solve_decision. Defined.
(** [ScriptRisk]: the private [u8] is 1 or 2. *)
Definition ScriptRisk_DIRECT : Z := 1.
Definition ScriptRisk_CONFIRM : Z := 2.
Definition ScriptRisk_try_from (value : Z) : res Error Z :=
  if (value =? 1) || (value =? 2) then Ok value else Err Malformed.

Section Access.
Context `{UC : UuidCrate} `{SJ : SerdeJson}.

Record SelfServiceSource : Type := mk_SelfServiceSource {
  ss_provider_id : Uuid; ss_issuer : rstr; ss_configuration_version : Z
}.
#[export] Instance SelfServiceSource_eq_dec : EqDecision SelfServiceSource.
Proof. solve_decision. Defined.
Inductive SelfServiceSelector : Type :=
| SUser (instance_id tenant_id principal_id : Uuid)
| SIdpGroup (source : SelfServiceSource) (id : rstr)
| SDepartment (source : SelfServiceSource) (id : rstr) (matching : DepartmentMatch)
| SUserGroup (id : Uuid).
#[export] Instance SelfServiceSelector_eq_dec : EqDecision SelfServiceSelector.
Proof. solve_decision. Defined.
Inductive SelfServiceAccess : Type :=
| ADevice | AAuthenticatedUser | AUsers (selectors : list SelfServiceSelector).
Definition valid_id (id : rstr) : bool :=
  negb (is_empty id) && (str_len id <=? 256) && bool_decide (trim id = id) && negb (has_control id).
Definition source_invalid (source : SelfServiceSource) (id : rstr) : bool :=
  negb (valid_id id) || is_nil (ss_provider_id source) || (ss_configuration_version source <? 1)
  || is_empty (ss_issuer source) || (2048 <? str_len (ss_issuer source)) || has_control (ss_issuer source).
Definition selector_invalid (s : SelfServiceSelector) : bool :=
  match s with
  | SUser instance_id tenant_id principal_id =>
      is_nil instance_id || is_nil tenant_id || is_nil principal_id
  | SUserGroup id => is_nil id
  | SIdpGroup source id | SDepartment source id _ => source_invalid source id
  end.
(** The loop with [selectors[..index].contains(selector)]: [seen] is the prefix. *)
Definition check_selector (seen : list SelfServiceSelector) (s : SelfServiceSelector)
    : res Error (list SelfServiceSelector) :=
  _ ← reject (bool_decide (s ∈ seen)) Malformed;
  _ ← reject (selector_invalid s) Malformed;
  Ok (seen ++ [s]).
Definition SelfServiceAccess_validate (a : SelfServiceAccess) : res Error () :=
  match a with
  | AUsers selectors =>
      _ ← reject (is_empty selectors || (256 <? zlen selectors)) Malformed;
      _ ← res_for check_selector selectors [];
      Ok ()
  | _ => Ok ()
  end.

(** ** Configuration *)
Record SelfService : Type := mk_SelfService {
  sf_access : option SelfServiceAccess; sf_published : bool;
  sf_presentation : list (rstr * Json Number); sf_allow_ai : option bool; sf_risk_level : option Z
}.
Definition or_else {A} (a b : option A) : option A := match a with Some _ => a | None => b end.
Definition SelfService_normalize (s : SelfService) (old : option SelfService) : SelfService :=
  mk_SelfService (sf_access s) (sf_published s) (sf_presentation s)
    (Some (default true (or_else (sf_allow_ai s) (old ≫= sf_allow_ai))))
    (Some (default ScriptRisk_CONFIRM (or_else (sf_risk_level s) (old ≫= sf_risk_level)))).
Definition check_text (presentation : list (rstr * Json Number)) (row : rstr * Z * bool) : res Error () :=
  let '(key, bound, required) := row in
  value ← ok_or (bm_get key presentation ≫= as_str) Malformed;
  reject ((bound <? str_len value) || (required && is_empty (trim value))) Malformed.
Definition text_rows : list (rstr * Z * bool) :=
  [(lit "displayName", 256, true); (lit "description", 4096, false);
   (lit "prerequisites", 4096, false); (lit "sideEffects", 4096, false); (lit "category", 128, true)].
Definition keyword_invalid (v : Json Number) : bool :=
  match as_str v with
  | None => true
  | Some s => is_empty (trim s) || (128 <? str_len s) || has_control s
  end.
Definition SelfService_validate (s : SelfService) : res Error () :=
  _ ← reject (sf_published s && match sf_access s with None => true | Some _ => false end) Malformed;
  _ ← match sf_access s with Some access => SelfServiceAccess_validate access | None => Ok () end;
  _ ← reject (negb (presentation_valid (sf_presentation s) 65536)) Malformed;
  _ ← res_for (fun _ row => check_text (sf_presentation s) row) text_rows ();
  keywords ← ok_or (match bm_get (lit "keywords") (sf_presentation s) with
                    | Some (JArray l) => Some l
                    | _ => None
                    end) Malformed;
  reject ((32 <? zlen keywords) || existsb keyword_invalid keywords) Malformed.
End Access.
