(* ===== verification/PolicyAssignment.v ===== *)
(** * Policy definitions ([crates/policy/src/{assignment,behavior}.rs])

    The closed set of actions with their bindings, schedules and rollout, the validation of
    a complete definition, and the selection of an assignment driver. *)
From S2P Require Import Prelude Ordered Text External Json PolicySchedule SelfService.

(** ** Closed vocabulary *)
Inductive Platform : Type := Windows | Macos.
Inductive Architecture : Type := X86_64 | Aarch64.
#[export] Instance Architecture_eq_dec : EqDecision Architecture.
Proof. solve_decision. Defined.
Inductive SoftwareTarget : Type := WindowsX86_64 | WindowsAarch64 | MacosX86_64 | MacosAarch64.
Definition SoftwareTarget_new (platform : Platform) (architecture : Architecture) : SoftwareTarget :=
  match platform, architecture with
  | Windows, X86_64 => WindowsX86_64
  | Windows, Aarch64 => WindowsAarch64
  | Macos, X86_64 => MacosX86_64
  | Macos, Aarch64 => MacosAarch64
  end.
Definition SoftwareTarget_parts (t : SoftwareTarget) : Platform * Architecture :=
  match t with
  | WindowsX86_64 => (Windows, X86_64)
  | WindowsAarch64 => (Windows, Aarch64)
  | MacosX86_64 => (Macos, X86_64)
  | MacosAarch64 => (Macos, Aarch64)
  end.
Inductive Frequency : Type := OncePerVersion | OncePerEntry | EveryTrigger.
Inductive Exit : Type := Retain | Remove.
Inductive SoftwareDelivery : Type := DeliverDirect | DeliverNative (target : rstr).
Inductive AccessRole : Type := Standard | Administrator.
Inductive SoftwareIntent : Type := RequiredInstall | AvailableInstall | ExplicitUninstall.
Inductive SoftwareChannel : Type := ChannelAgent | ChannelMdm.
#[export] Instance SoftwareChannel_eq_dec : EqDecision SoftwareChannel.
Proof. solve_decision. Defined.
Inductive ActionKind : Type :=
| KDeviceAccess | KUnmanageDevice | KCredential | KExecution | KNativeCollection
| KAgentCollection | KTelemetryProfile | KConfiguration | KSoftware | KEnsureAgentInstalled
| KRequestMdmEnrollment.
#[export] Instance ActionKind_eq_dec : EqDecision ActionKind.
Proof. solve_decision. Defined.
Inductive AssignmentBehavior : Type :=
| BDeviceAccess | BDeviceLifecycle | BAgentCheckIn | BNativeCollectionRecovery | BNativeDesired
| BTelemetrySampling.
#[export] Instance AssignmentBehavior_eq_dec : EqDecision AssignmentBehavior.
Proof. solve_decision. Defined.

Definition ActionKind_ALL : list ActionKind :=
  [KDeviceAccess; KUnmanageDevice; KCredential; KExecution; KNativeCollection; KAgentCollection;
   KTelemetryProfile; KConfiguration; KSoftware; KEnsureAgentInstalled; KRequestMdmEnrollment].
Definition ActionKind_as_str (k : ActionKind) : rstr :=
  match k with
  | KDeviceAccess => lit "device_access"
  | KUnmanageDevice => lit "unmanage_device"
  | KCredential => lit "credential"
  | KExecution => lit "execution"
  | KNativeCollection => lit "native_collection"
  | KAgentCollection => lit "agent_collection"
  | KTelemetryProfile => lit "telemetry_profile"
  | KConfiguration => lit "configuration"
  | KSoftware => lit "software"
  | KEnsureAgentInstalled => lit "ensure_agent_installed"
  | KRequestMdmEnrollment => lit "request_mdm_enrollment"
  end.
Definition supports_rerun (k : ActionKind) : bool :=
  match k with
  | KUnmanageDevice | KCredential | KExecution | KRequestMdmEnrollment | KEnsureAgentInstalled => true
  | _ => false
  end.
Definition SoftwareChannel_as_str (c : SoftwareChannel) : rstr :=
  match c with ChannelAgent => lit "agent" | ChannelMdm => lit "mdm" end.
Definition AssignmentBehavior_kinds (b : AssignmentBehavior) : list rstr :=
  match b with
  | BDeviceAccess => [lit "device_access"]
  | BDeviceLifecycle => [lit "unmanage_device"]
  | BTelemetrySampling => [lit "telemetry_profile"]
  | BAgentCheckIn => [lit "credential"; lit "agent_collection"; lit "execution"; lit "request_mdm_enrollment"]
  | BNativeCollectionRecovery => [lit "native_collection"]
  | BNativeDesired => [lit "configuration"; lit "ensure_agent_installed"]
  end.

Record ExactResourceBinding : Type := mk_ExactResourceBinding {
  eb_id : rstr; eb_version : rstr; eb_platform : Platform; eb_architecture : Architecture;
  eb_variant : rstr
}.
Record SoftwareResourceBinding : Type := mk_SoftwareResourceBinding {
  sb_id : rstr; sb_version : rstr; sb_variants : list (SoftwareTarget * rstr)
}.
(** [ResourceIdentity]: borrowed coordinates. *)
Record ResourceIdentity : Type := mk_ResourceIdentity { ri_id : rstr; ri_version : rstr }.
Definition id_byte (b : Z) : bool := is_ascii_alphanumeric b || bool_decide (b ∈ lit "._-/").
Definition validate_id (id : rstr) : res Error () :=
  reject (is_empty id || (128 <? str_len id) || negb (forallb id_byte (str_bytes id))
          || existsb (fun part => is_empty part || bool_decide (part = lit ".")
                                  || bool_decide (part = lit "..")) (split 47 id)) Malformed.
Definition validate_ids (ids : list rstr) : res Error () :=
  res_for (fun _ id => validate_id id) ids ().
Definition ExactResourceBinding_validate (b : ExactResourceBinding) : res Error () :=
  validate_ids [eb_id b; eb_version b; eb_variant b].
Definition SoftwareResourceBinding_validate (b : SoftwareResourceBinding) : res Error () :=
  _ ← reject (is_empty (sb_variants b) || (4 <? zlen (sb_variants b))) Malformed;
  validate_ids ([sb_id b; sb_version b] ++ map snd (sb_variants b)).

(** ** Default schedules *)
Definition default_schedule : Schedule := mk_Schedule (CheckIn 60) CoalesceOne 0 None 0 None.
Definition default_collection_schedule : Schedule :=
  mk_Schedule (Interval 0 3600) CoalesceOne 0 None 0 None.
Definition default_unmanage_schedule : Schedule := mk_Schedule Manual CoalesceOne 0 None 0 None.
Definition collection_frequency : Frequency := EveryTrigger.

(** Types of the wire crate that a definition stores without inspecting them. *)
Class AgentWire : Type := { LoginConfiguration : Type; AccessWindowsConfiguration : Type }.

Section Assignment.
Context `{UC : UuidCrate} `{SJ : SerdeJson} `{SS : !SourcesSerde} `{JF : Jiff} `{SH : Sha2}
  `{AW : AgentWire}.

Inductive CredentialOperation : Type :=
| RotateRssLogin (binding : Uuid) (binding_generation : Z) (sid : rstr)
| VerifyRssLogin (binding : Uuid) (binding_generation : Z) (sid : rstr)
| CollectBitlocker
| VerifyBitlocker (volume : rstr) (protector : Uuid)
| RotateBitlocker (volume : rstr) (protector : Uuid)
| RotateLocalAdministrator (sid : rstr)
| VerifyLocalAdministrator (sid : rstr).
Definition bounded (s : rstr) : bool :=
  negb (is_empty s) && (str_len s <=? 256) && negb (has_control s).
Definition CredentialOperation_validate (op : CredentialOperation) : res Error () :=
  let valid :=
    match op with
    | RotateRssLogin binding generation sid | VerifyRssLogin binding generation sid =>
        negb (is_nil binding) && (0 <? generation) && bounded sid && starts_with (lit "S-1-5-21-") sid
    | CollectBitlocker => true
    | VerifyBitlocker volume protector | RotateBitlocker volume protector =>
        bounded volume && negb (is_nil protector)
    | RotateLocalAdministrator sid | VerifyLocalAdministrator sid =>
        bounded sid && starts_with (lit "S-1-5-") sid
        && forallb (fun v => negb (is_empty v) && forallb is_ascii_digit (str_bytes v))
             (drop 1 (split 45 sid))
    end in
  if valid then Ok () else Err Malformed.

Record SoftwareRolloutStage : Type := mk_SoftwareRolloutStage {
  rs_scope : Uuid; rs_opens_at : Z; rs_minimum_verified_percent : option Z
}.
(** [u128] products of [u64] counts cannot overflow. *)
Definition SoftwareRolloutStage_open (s : SoftwareRolloutStage) (now previous_total previous_verified : Z)
    : bool :=
  if (now <? rs_opens_at s) || (previous_total <? previous_verified) then false else
  match rs_minimum_verified_percent s with
  | None => true
  | Some minimum => (0 <? previous_total) && (previous_total * minimum <=? previous_verified * 100)
  end.

(** ** Actions *)
Inductive Action : Type :=
| DeviceAccess (mac : option LoginConfiguration) (windows : AccessWindowsConfiguration)
    (self_enrollment : bool) (role : option AccessRole)
| TelemetryProfile (resource : ExactResourceBinding)
| Credential (operation : CredentialOperation) (architecture : Architecture) (schedule : Schedule)
    (frequency : Frequency) (run_lifetime_seconds : Z)
| Execution (resource : ExactResourceBinding) (parameters : ParameterSources) (schedule : Schedule)
    (frequency : Frequency) (run_lifetime_seconds : Z)
| AgentCollection (resource : ExactResourceBinding) (schedule : Schedule) (frequency : Frequency)
    (run_lifetime_seconds : Z)
| NativeCollection (resource : ExactResourceBinding) (schedule : Schedule) (frequency : Frequency)
    (run_lifetime_seconds : Z)
| Configuration (resource : ExactResourceBinding) (exit : Exit)
| Software (channel : SoftwareChannel) (delivery : SoftwareDelivery)
    (software : SoftwareResourceBinding) (intent : SoftwareIntent) (schedule : Schedule)
    (run_lifetime_seconds : Z) (rollout : list SoftwareRolloutStage)
| UnmanageDevice (schedule : Schedule) (run_lifetime_seconds : Z)
| EnsureAgentInstalled (packages : list (SoftwareTarget * Uuid)) (schedule : Schedule)
    (run_lifetime_seconds : Z)
| RequestMdmEnrollment (organization : Uuid) (schedule : Schedule) (run_lifetime_seconds : Z).

Definition Action_kind (a : Action) : ActionKind :=
  match a with
  | DeviceAccess _ _ _ _ => KDeviceAccess
  | UnmanageDevice _ _ => KUnmanageDevice
  | Credential _ _ _ _ _ => KCredential
  | Execution _ _ _ _ _ => KExecution
  | NativeCollection _ _ _ _ => KNativeCollection
  | AgentCollection _ _ _ _ => KAgentCollection
  | TelemetryProfile _ => KTelemetryProfile
  | Configuration _ _ => KConfiguration
  | Software _ _ _ _ _ _ _ => KSoftware
  | EnsureAgentInstalled _ _ _ => KEnsureAgentInstalled
  | RequestMdmEnrollment _ _ _ => KRequestMdmEnrollment
  end.
Definition Action_resource (a : Action) : option ResourceIdentity :=
  match a with
  | TelemetryProfile r | AgentCollection r _ _ _ | NativeCollection r _ _ _ | Execution r _ _ _ _
  | Configuration r _ => Some (mk_ResourceIdentity (eb_id r) (eb_version r))
  | Software _ _ r _ _ _ _ => Some (mk_ResourceIdentity (sb_id r) (sb_version r))
  | _ => None
  end.
Definition target_channel (a : Action) : option SoftwareChannel :=
  match a with
  | UnmanageDevice _ _ => None
  | Software channel _ _ _ _ _ _ => Some channel
  | NativeCollection _ _ _ _ | Configuration _ _ | EnsureAgentInstalled _ _ _ => Some ChannelMdm
  | _ => Some ChannelAgent
  end.
Definition assignment_behavior (a : Action) : AssignmentBehavior :=
  match a with
  | DeviceAccess _ _ _ _ => BDeviceAccess
  | UnmanageDevice _ _ => BDeviceLifecycle
  | TelemetryProfile _ => BTelemetrySampling
  | NativeCollection _ _ _ _ => BNativeCollectionRecovery
  | _ => match target_channel a with Some ChannelMdm => BNativeDesired | _ => BAgentCheckIn end
  end.

Definition lifetime_ok (seconds : Z) : bool := (60 <=? seconds) && (seconds <=? 604800).
Definition periodic_collection (schedule : Schedule) (frequency : Frequency) : bool :=
  match sc_trigger schedule with Interval _ _ => true | _ => false end
  && match frequency with EveryTrigger => true | _ => false end
  && match sc_misfire schedule with CoalesceOne => true | _ => false end
  && match sc_until schedule with None => true | _ => false end
  && match sc_window schedule with None => true | _ => false end.
(** The checks in the order of the source: architecture, collection shape, resource. *)
Definition validate_shape (a : Action) : res Error () :=
  _ ← reject (match a with
              | Credential (RotateRssLogin _ _ _ | VerifyRssLogin _ _ _) architecture _ _ _ =>
                  negb (bool_decide (architecture = X86_64))
              | _ => false
              end) Malformed;
  reject (match a with
          | AgentCollection _ schedule frequency _ | NativeCollection _ schedule frequency _ =>
              negb (periodic_collection schedule frequency)
          | _ => false
          end) Malformed.
Definition validate_resource (a : Action) : res Error () :=
  match a with
  | TelemetryProfile r | Execution r _ _ _ _ | AgentCollection r _ _ _ | NativeCollection r _ _ _
  | Configuration r _ => ExactResourceBinding_validate r
  | Software _ _ r _ _ _ _ => SoftwareResourceBinding_validate r
  | EnsureAgentInstalled packages _ _ =>
      reject (is_empty packages || (4 <? zlen packages) || existsb (fun e => is_nil e.2) packages)
        Malformed
  | Credential operation _ _ _ _ => CredentialOperation_validate operation
  | DeviceAccess _ _ _ _ | RequestMdmEnrollment _ _ _ | UnmanageDevice _ _ => Ok ()
  end.
Definition validate_parameters (a : Action) : res Error () :=
  match a with
  | Execution _ parameters schedule _ _ =>
      _ ← ParameterSources_validate parameters;
      reject (has_input parameters && negb (match sc_trigger schedule with Manual => true | _ => false end))
        Malformed
  | _ => Ok ()
  end.
Definition check_stage (st : option Z * list Uuid) (stage : SoftwareRolloutStage)
    : res Error (option Z * list Uuid) :=
  let '(previous, scopes) := st in
  _ ← reject (is_nil (rs_scope stage) || (rs_opens_at stage <? 0)
              || match previous with Some v => rs_opens_at stage <=? v | None => false end
              || match rs_minimum_verified_percent stage with Some v => 100 <? v | None => false end
              || bs_mem (rs_scope stage) scopes) Malformed;
  Ok (Some (rs_opens_at stage), bs_insert (rs_scope stage) scopes).
Definition validate_rollout (stages : list SoftwareRolloutStage) : res Error () :=
  first ← or_panic (head stages);
  _ ← reject (match rs_minimum_verified_percent first with Some _ => true | None => false end) Malformed;
  _ ← res_for check_stage stages (None, []);
  Ok ().
Definition native_target_ok (target : rstr) : bool :=
  negb (is_empty target) && (str_len target <=? 128)
  && forallb (fun b => is_ascii_alphanumeric b || bool_decide (b ∈ lit "._-")) (str_bytes target).
Definition validate_run (a : Action) : res Error () :=
  match a with
  | Credential _ _ schedule _ lifetime | Execution _ _ schedule _ lifetime
  | AgentCollection _ schedule _ lifetime | NativeCollection _ schedule _ lifetime
  | EnsureAgentInstalled _ schedule lifetime =>
      _ ← Schedule_validate schedule;
      reject (negb (lifetime_ok lifetime)) Malformed
  | Software channel delivery _ intent schedule lifetime stages =>
      _ ← Schedule_validate schedule;
      _ ← reject (bool_decide (channel = ChannelMdm)
                  && (negb (match delivery with DeliverDirect => true | _ => false end)
                      || negb (match intent with RequiredInstall => true | _ => false end))) Malformed;
      _ ← reject (match delivery with
                  | DeliverNative target => negb (native_target_ok target)
                  | DeliverDirect => false
                  end) Malformed;
      _ ← reject (negb (lifetime_ok lifetime) || is_empty stages || (32 <? zlen stages)) Malformed;
      validate_rollout stages
  | DeviceAccess _ _ _ _ | Configuration _ _ | TelemetryProfile _ => Ok ()
  | UnmanageDevice schedule lifetime =>
      _ ← Schedule_validate schedule;
      reject (match sc_trigger schedule with Registration | CheckIn _ => true | _ => false end
              || negb (lifetime_ok lifetime)) Malformed
  | RequestMdmEnrollment organization schedule lifetime =>
      _ ← Schedule_validate schedule;
      reject (is_nil organization || negb (lifetime_ok lifetime)) Malformed
  end.
Definition Action_validate (a : Action) : res Error () :=
  _ ← validate_shape a;
  _ ← validate_resource a;
  _ ← validate_parameters a;
  validate_run a.

(** ** Definitions *)
Record Definition_ : Type := mk_Definition {
  d_custom_event : option rstr; d_alias : option rstr; d_scope : Uuid; d_action : Action;
  d_self_service : option SelfService
}.
(** Generated serialization of a definition and of an action's semantic content. *)
Class PolicySerde : Type := {
  definition_to_vec : Definition_ -> option bytes;
  action_to_vec : Action -> option bytes;
  software_to_vec : SoftwareResourceBinding -> SoftwareChannel -> SoftwareDelivery ->
    SoftwareIntent -> Schedule -> Z -> option bytes
}.
Context `{PS : PolicySerde}.

Definition self_service_allowed (a : Action) : bool :=
  match a with
  | Execution _ _ _ _ _ | RequestMdmEnrollment _ _ _ | Software _ _ _ AvailableInstall _ _ _ => true
  | _ => false
  end.
Definition Definition_validate (d : Definition_) : res Error () :=
  content ← ok_or (definition_to_vec d) Malformed;
  _ ← reject (4194304 <? zlen content) Malformed;
  _ ← reject (is_nil (d_scope d)) Malformed;
  _ ← Action_validate (d_action d);
  _ ← reject (match d_custom_event d, d_action d with
              | Some _, Execution _ parameters _ _ _ => has_input parameters
              | _, _ => false
              end) Malformed;
  _ ← reject (match d_action d, d_self_service d with
              | Software ChannelMdm _ _ _ _ _ _, Some _ => true
              | _, _ => false
              end) Malformed;
  match d_self_service d with
  | Some config =>
      _ ← reject (negb (self_service_allowed (d_action d))) Malformed;
      SelfService_validate config
  | None => Ok ()
  end.
End Assignment.
