(* ===== verification/PolicyAssignmentProperties.v ===== *)
(** * Theorems of the policy definition

    Driver selection agrees with the persisted discriminators, call-time parameters resolve
    exactly the declared inputs, and a software rollout is a strictly ordered list of stages. *)
From S2P Require Import Prelude Ordered Text External Json PolicySchedule SelfService PolicyAssignment.

(** ** Parameter resolution *)
Section Parameters.
Context `{SJ : SerdeJson} `{SS : !SourcesSerde}.
Implicit Types (sources : ParameterSources) (m values : list (rstr * Json Number)).

(** The value a source contributes, when it can. *)
Definition source_value m (k : rstr) (s : ParameterSource) : option (Json Number) :=
  match s with Fixed v => Some v | PInput => bm_get k m end.
Definition declared sources (k : rstr) : Prop := bm_get k sources = Some PInput.

Lemma resolve_source_ok m acc e acc' :
  resolve_source m acc e = Ok acc' <->
  exists v, source_value m e.1 e.2 = Some v /\ acc' = bm_insert e.1 v acc.
Proof.
  unfold resolve_source, source_value. destruct e as [k [v|]]; simpl; [naive_solver|].
  destruct (bm_get k m); simpl; naive_solver.
Qed.
(** The loop: the sources overwrite what was accumulated before them. *)
Lemma resolve_loop m sources acc out :
  bm_wf sources -> bm_wf acc -> res_for (resolve_source m) sources acc = Ok out ->
  bm_wf out /\ (forall k, bm_get k out =
    match bm_get k sources with Some s => source_value m k s | None => bm_get k acc end) /\
  forall e, e ∈ sources -> is_Some (source_value m e.1 e.2).
Proof.
  revert acc. induction sources as [|[k0 s0] sources IH]; intros acc Hwf Hacc H; simpl in H; inv_ok;
    [split_and!; [done|done|set_solver]|].
  apply resolve_source_ok in E as (v & Hv & ->). simpl in *.
  assert (bm_wf sources) as Hwf' by (by inversion Hwf).
  apply IH in H as (Hout & Hget & Hall); [|done|by apply bm_insert_wf].
  split_and!; [done| |intros e [->|He]%elem_of_cons; [simpl; eauto|by apply Hall]].
  intros k. rewrite Hget, bm_get_insert. simpl. destruct (eqb k k0) eqn:Ek; [|done].
  apply eqb_true in Ek as ->. destruct (bm_get k0 sources) eqn:E0; [|done].
  apply sorted_nodup in Hwf. apply NoDup_cons in Hwf as [Hnin _]. destruct Hnin.
  apply bm_get_keys. eauto.
Qed.
Lemma resolve_loop_total m sources acc :
  (forall e, e ∈ sources -> e.2 = PInput -> e.1 ∈ bm_keys m) ->
  exists out, res_for (resolve_source m) sources acc = Ok out.
Proof.
  revert acc. induction sources as [|[k s] sources IH]; intros acc H; simpl; [eauto|].
  assert (exists v, source_value m k s = Some v) as [v Hv].
  { destruct s as [v|]; simpl; [eauto|]. apply bm_get_keys. by apply (H (k, PInput)); [left|]. }
  assert (resolve_source m acc (k, s) = Ok (bm_insert k v acc)) as -> by
    (apply resolve_source_ok; eauto).
  simpl. apply IH. intros. apply H; [by right|done].
Qed.
(** The declared inputs, counted the way the source counts them. *)
Lemma inputs_count sources m :
  bm_wf sources -> bm_wf m -> (forall k, k ∈ bm_keys m <-> declared sources k) ->
  zlen m = zlen (List.filter is_input (bm_values sources)).
Proof.
  intros Hs Hm Hiff.
  assert (zlen (List.filter is_input (bm_values sources))
          = zlen (map fst (List.filter (fun e => is_input e.2) sources))) as ->.
  { unfold zlen. f_equal. rewrite length_map. unfold bm_values. clear.
    induction sources as [|[k s] l IH]; simpl; [done|]. destruct (is_input s); simpl; congruence. }
  transitivity (zlen (bm_keys m)); [unfold zlen, bm_keys; by rewrite length_map|].
  unfold zlen. f_equal. apply Permutation_length, NoDup_Permutation.
  - by apply sorted_nodup.
  - apply sorted_nodup in Hs. clear -Hs. unfold bm_keys in Hs.
    induction sources as [|[k s] l IH]; simpl in *; [constructor|].
    apply NoDup_cons in Hs as [Hnin Hs]. destruct (is_input s); simpl; [|by apply IH].
    apply NoDup_cons. split; [|by apply IH]. rewrite elem_of_map. intros ([k' s'] & <- & Hin).
    apply list_elem_of_In, filter_In in Hin as [Hin _]. apply Hnin, elem_of_map.
    exists (k', s'). by rewrite list_elem_of_In.
  - intros k. rewrite Hiff, elem_of_map. unfold declared. split.
    + intros Hk%bm_get_elem. exists (k, PInput). split; [done|].
      apply list_elem_of_In, filter_In. split; [by apply list_elem_of_In|done].
    + intros ([k' s] & <- & Hin). apply list_elem_of_In, filter_In in Hin as [Hin Hi].
      destruct s; [done|]. apply bm_elem_get; [done|by apply list_elem_of_In].
Qed.
End Parameters.

Section Properties.
Context `{UC : UuidCrate} `{SJ : SerdeJson} `{SS : !SourcesSerde} `{JF : Jiff} `{SH : Sha2}
  `{AW : AgentWire}.

(** Call-time input resolves exactly when it is an object whose keys are the declared
    inputs, no more and no fewer; the result then holds every source's value, the fixed
    ones unchanged by the caller. *)
Theorem parameters_resolve_exactly (sources : ParameterSources) (input : Json Number) :
  bm_wf sources -> (forall m, input = JObject m -> bm_wf m) ->
  ((exists v, ParameterSources_resolve sources input = Ok v) <->
   ParameterSources_validate sources = Ok () /\
   exists m, input = JObject m /\ forall k, k ∈ bm_keys m <-> declared sources k) /\
  (forall v, ParameterSources_resolve sources input = Ok v ->
   exists m values, input = JObject m /\ v = JObject values /\ bm_wf values /\
   forall k, bm_get k values = bm_get k sources ≫= source_value m k).
Proof.
  intros Hs Hm.
  assert (forall v, ParameterSources_resolve sources input = Ok v ->
    ParameterSources_validate sources = Ok () /\ exists m values,
    input = JObject m /\ v = JObject values /\ bm_wf values /\
    (forall k, bm_get k values = bm_get k sources ≫= source_value m k) /\
    (forall k, k ∈ bm_keys m <-> declared sources k)) as Hok.
  { intros v H. unfold ParameterSources_resolve in H. inv_ok.
    destruct input as [| | | | |m]; simpl in E0; try done. injection E0 as <-. destruct a.
    apply resolve_loop in E2 as (Hwf & Hget & Hall); [|done|constructor].
    split; [done|]. exists m, a2. split_and!; [done|done|done| |].
    - intros k. rewrite Hget. by destruct (bm_get k sources).
    - intros k. split.
      + intros Hk. rewrite existsb_false_iff in E3. specialize (E3 k Hk). by bool_hyps.
      + intros Hk%bm_get_elem. apply bm_get_keys. by apply (Hall (k, PInput)). }
  split; [split|].
  - intros [v Hv]. destruct (Hok v Hv) as (? & m & values & -> & _ & _ & _ & Hk). eauto.
  - intros (Hval & m & -> & Hk). specialize (Hm m eq_refl).
    destruct (resolve_loop_total m sources []) as [out Hout].
    { intros [k s] Hin Hp. simpl in *. subst s. apply Hk. by apply bm_elem_get. }
    exists (JObject out). unfold ParameterSources_resolve. rewrite Hval. simpl.
    rewrite (inputs_count sources m), Z.eqb_refl by done. simpl. rewrite Hout. simpl.
    replace (existsb _ _) with false; [done|]. symmetry. apply existsb_false_iff.
    intros k Hin%Hk. apply negb_false_iff. by apply bool_decide_eq_true.
  - intros v Hv. destruct (Hok v Hv) as (_ & m & values & ? & ? & ? & ? & _). exists m, values. done.
Qed.

(** The driver selection is total and the persisted kinds of a driver are exactly the
    fixed-channel actions it drives; software is driven by its authored channel alone. *)
Theorem driver_selection (a : Action) (b : AssignmentBehavior) :
  (ActionKind_as_str (Action_kind a) ∈ AssignmentBehavior_kinds b <->
   assignment_behavior a = b /\ Action_kind a <> KSoftware) /\
  (Action_kind a = KSoftware ->
   assignment_behavior a = if bool_decide (target_channel a = Some ChannelMdm)
                           then BNativeDesired else BAgentCheckIn).
Proof.
  split.
  - split.
    + intros H. destruct a, b; simpl in H; try (split; [reflexivity|discriminate]);
        exfalso; apply (bool_decide_eq_true_2 _) in H; vm_compute in H; discriminate H.
    + intros [<- Hk]. destruct a; simpl in *; try done;
        apply (bool_decide_eq_true_1 _); vm_compute; reflexivity.
  - destruct a as [| | | | | | |channel| | |]; try done. by destruct channel.
Qed.

(** ** Rollouts *)
Fixpoint strictly_after (floor : Z) (stages : list SoftwareRolloutStage) : Prop :=
  match stages with
  | [] => True
  | s :: stages => floor < rs_opens_at s /\ strictly_after (rs_opens_at s) stages
  end.
Definition stage_ok (s : SoftwareRolloutStage) : Prop :=
  is_nil (rs_scope s) = false /\ (forall v, rs_minimum_verified_percent s = Some v -> v <= 100).
Definition floor_of (previous : option Z) : Z := default (-1) previous.
Lemma check_stage_ok previous scopes s st :
  (forall v, previous = Some v -> 0 <= v) ->
  check_stage (previous, scopes) s = Ok st <->
  (stage_ok s /\ floor_of previous < rs_opens_at s /\ rs_scope s ∉ scopes) /\
  st = (Some (rs_opens_at s), bs_insert (rs_scope s) scopes).
Proof.
  intros Hp. unfold check_stage, stage_ok, floor_of. rewrite bind_ok. split.
  - intros (u & H & [= <-]). apply reject_ok in H. bool_hyps. split; [|done].
    assert (rs_scope s ∉ scopes) as Hn by (rewrite <-bs_mem_iff; congruence).
    destruct previous as [v|]; simpl in *; bool_hyps; split_and!; try done; try lia;
      intros w Hw; rewrite Hw in *; by bool_hyps.
  - intros [([Hn Hpc] & Hf & Hin) ->]. exists (). split; [|done]. apply reject_ok.
    rewrite <-bs_mem_iff in Hin. apply not_true_iff_false in Hin. rewrite Hn, Hin.
    rewrite !orb_false_iff. split_and!; try done.
    + apply Z.ltb_ge. destruct previous as [v|]; simpl in Hf; [specialize (Hp v eq_refl)|]; lia.
    + destruct previous as [v|]; simpl in Hf; [apply Z.leb_gt; lia|done].
    + destruct (rs_minimum_verified_percent s) as [v|]; [apply Z.ltb_ge; by apply Hpc|done].
Qed.
Lemma check_stages_iff stages previous scopes :
  (forall v, previous = Some v -> 0 <= v) ->
  (exists st, res_for check_stage stages (previous, scopes) = Ok st) <->
  Forall stage_ok stages /\ strictly_after (floor_of previous) stages /\
  NoDup (map rs_scope stages) /\ (forall s, s ∈ stages -> rs_scope s ∉ scopes).
Proof.
  revert previous scopes. induction stages as [|s stages IH]; intros previous scopes Hp.
  { split; [|eauto]. intros _. split_and!; [constructor|done|constructor|set_solver]. }
  cbn [res_for strictly_after map]. rewrite Forall_cons, NoDup_cons, elem_of_map.
  transitivity (check_stage (previous, scopes) s = Ok (Some (rs_opens_at s), bs_insert (rs_scope s) scopes) /\
    exists st, res_for check_stage stages (Some (rs_opens_at s), bs_insert (rs_scope s) scopes) = Ok st).
  { split; [|intros (H1 & st & H2); exists st; apply bind_ok; eauto].
    intros (st & (st1 & H1 & H2)%bind_ok). pose proof (proj1 (check_stage_ok _ _ _ _ Hp) H1) as [_ ->].
    split; [done|by exists st]. }
  rewrite check_stage_ok by done. split.
  - intros [[(Hs & Hf & Hn) _] Hst]. apply IH in Hst as (Hall & Hafter & Hnd & Hnin).
    + split_and!; try done.
      * intros (x & Hx & Hin). apply (Hnin x Hin), elem_of_bs_insert. by left.
      * intros x [->|Hin]%elem_of_cons; [done|]. intros Hx. apply (Hnin x Hin), elem_of_bs_insert. by right.
    + intros v [= <-]. unfold floor_of in Hf. destruct previous as [v|]; simpl in Hf; [specialize (Hp v eq_refl)|]; lia.
  - intros ([Hs Hall] & [Hf Hafter] & [Hx Hnd] & Hnin). split; [split; [|done]|].
    + split_and!; [done|done|]. apply Hnin. by left.
    + apply IH; [|split_and!; try done].
      * intros v [= <-]. unfold floor_of in Hf. destruct previous as [v|]; simpl in Hf; [specialize (Hp v eq_refl)|]; lia.
      * intros x Hin [Heq|Hin']%elem_of_bs_insert; [|apply (Hnin x); [by right|done]].
        apply Hx. by exists x.
Qed.

(** A rollout is accepted exactly when its stages open at strictly increasing,
    non-negative times over distinct non-nil scopes, every threshold is a percentage, and
    the first stage, which has no predecessor, has none. *)
Theorem rollout_valid_iff (stages : list SoftwareRolloutStage) :
  validate_rollout stages = Ok () <->
  (exists first, head stages = Some first /\ rs_minimum_verified_percent first = None) /\
  Forall stage_ok stages /\ strictly_after (-1) stages /\ NoDup (map rs_scope stages).
Proof.
  unfold validate_rollout. destruct stages as [|first stages]; [split; [done|by intros [(? & ? & _) _]]|].
  assert (forall v : Z, None = Some v -> 0 <= v) as Hp by done.
  pose proof (check_stages_iff (first :: stages) None [] Hp) as Hiff.
  cbn [head or_panic mbind res_bind].
  transitivity (rs_minimum_verified_percent first = None /\
    exists st, res_for check_stage (first :: stages) (None, []) = Ok st).
  { split.
    - intros H. apply bind_ok in H as ([] & Hr & H). apply bind_ok in H as (st & Hst & _).
      apply reject_ok in Hr. split; [by destruct (rs_minimum_verified_percent first)|eauto].
    - intros [H [st Hst]]. rewrite H, Hst. done. }
  rewrite Hiff. split.
  - intros (H1 & H2 & H3 & H4 & _). split; [by exists first|done].
  - intros ((f & [= <-] & H1) & H2 & H3 & H4). split_and!; try done. intros s _ Hin. by apply not_elem_of_nil in Hin.
Qed.
(** A stage that is open stays open as time passes and successes are verified for the
    same devices, and a threshold opens it exactly at its share of verified devices. *)
Theorem stage_open_monotone (s : SoftwareRolloutStage) now total verified now' verified' :
  now <= now' -> verified <= verified' <= total ->
  SoftwareRolloutStage_open s now total verified = true ->
  SoftwareRolloutStage_open s now' total verified' = true.
Proof.
  unfold SoftwareRolloutStage_open. intros Hn Hv H.
  destruct ((now <? _) || _) eqn:E; [done|]. bool_hyps.
  rewrite (proj2 (Z.ltb_ge now' _)), (proj2 (Z.ltb_ge total verified')) by lia. simpl.
  destruct (rs_minimum_verified_percent s); [|done]. bool_hyps.
  apply andb_true_iff. rewrite Z.ltb_lt, Z.leb_le. lia.
Qed.
End Properties.

(** ** Closed examples *)
Module Witnesses.
Import Reference ReferenceJson.
#[local] Instance sources_serde : SourcesSerde := {| sources_to_vec _ := Some [] |}.
Definition uid (z : Z) : Uuid (UuidCrate:=uuid_crate) := z.
Definition script : ParameterSources :=
  [(lit "ring", Fixed (JString (lit "beta"))); (lit "user", PInput)].
Definition call : list (rstr * Json Number) := [(lit "user", JString (lit "ann"))].
Lemma script_wf : bm_wf script.
Proof. apply sorted_adjacent. vm_compute. reflexivity. Qed.
Lemma call_wf m : JObject call = JObject m -> bm_wf m.
Proof. intros H. injection H as <-. apply sorted_adjacent. vm_compute. reflexivity. Qed.
Lemma parameters_resolve_exactly_witness :
  exists v, ParameterSources_resolve script (JObject call) = Ok v.
Proof.
  apply (proj1 (parameters_resolve_exactly script (JObject call) script_wf call_wf)).
  split; [vm_compute; reflexivity|]. exists call. split; [reflexivity|]. intros k. split.
  - intros H. apply list_elem_of_singleton in H. simpl in H. subst k.
    unfold declared, script. cbn [bm_get].
    replace (eqb (lit "user") (lit "ring")) with false by (vm_compute; reflexivity).
    by rewrite eqb_refl.
  - unfold declared, script. cbn [bm_get]. destruct (eqb k (lit "ring")); [discriminate|].
    destruct (eqb k (lit "user")) eqn:E; [|discriminate]. intros _. apply eqb_true in E as ->. left.
Defined.
Definition stages : list SoftwareRolloutStage :=
  [mk_SoftwareRolloutStage (uid 1) 100 None; mk_SoftwareRolloutStage (uid 2) 200 (Some 90)].
Lemma rollout_accepted : validate_rollout stages = Ok ().
Proof. vm_compute. reflexivity. Qed.
Definition gated : SoftwareRolloutStage := mk_SoftwareRolloutStage (uid 2) 200 (Some 90).
Lemma stage_open_monotone_witness : SoftwareRolloutStage_open gated 300 10 10 = true.
Proof.
  apply (stage_open_monotone gated 200 10 9 300 10); [lia|lia|vm_compute; reflexivity].
Defined.
End Witnesses.
