(* ===== verification/PolicyLifecycle.v ===== *)
(** * The policy aggregate ([crates/policy/src/model.rs])

    The closed configuration changes, the digest of a definition's execution content, and
    [Policy::apply], the compare-and-set that produces the next aggregate. *)
From S2P Require Import Prelude Ordered Text External Json PolicySchedule SelfService PolicyAssignment.

(** The one policy lifecycle. *)
Inductive State : Type := Enabled | Disabled | Archived.
#[export] Instance State_eq_dec : EqDecision State.
Proof. solve_decision. Defined.
Definition is_enabled (s : State) : bool := match s with Enabled => true | _ => false end.
Definition State_as_str (s : State) : rstr :=
  match s with
  | Enabled => lit "enabled"
  | Disabled => lit "disabled"
  | Archived => lit "archived"
  end.

(** [agent_wire::runtime]'s validated names are stored without inspection; [definition_input]
    adds the request default of a software action's channel to the raw JSON document. *)
Section DefinitionInput.
Context `{SJ : SerdeJson}.
Definition json_get (key : rstr) (v : Json Number) : option (Json Number) :=
  match v with JObject m => bm_get key m | _ => None end.
Definition channel_default (action : list (rstr * Json Number)) : list (rstr * Json Number) :=
  if bm_contains (lit "channel") action then action
  else bm_insert (lit "channel") (JString (lit "agent")) action.
(** The document handed to [serde_json::from_value]. *)
Definition definition_input (value : Json Number) : Json Number :=
  match value with
  | JObject m =>
      match bm_get (lit "action") m with
      | Some (JObject action) =>
          if bool_decide (bm_get (lit "kind") action ≫= as_str = Some (lit "software"))
          then JObject (bm_insert (lit "action") (JObject (channel_default action)) m)
          else value
      | _ => value
      end
  | _ => value
  end.
End DefinitionInput.

Section Lifecycle.
Context `{UC : UuidCrate} `{SJ : SerdeJson} `{SS : !SourcesSerde} `{JF : Jiff} `{SH : Sha2}
  `{AW : AgentWire} `{PS : !PolicySerde}.

Inductive Change : Type :=
| Put (definition : Definition_) (enabled : bool)
| Enable | Disable | Archive.

(** [execution_binding] is [Option<[u8; 32]>]. *)
Record Policy : Type := mk_Policy {
  p_id : Uuid; p_revision : Z; p_version : Uuid; p_number : Z; p_state : State;
  p_definition : Definition_; p_execution_binding : option bytes
}.
Record Changed : Type := mk_Changed {
  ch_policy : Policy; ch_semantic_changed : bool; ch_semantic : bytes
}.

(** ** Execution semantics: the rollout, scope, names and self service are not part of it *)
Definition semantic_bytes (a : Action) : res Error bytes :=
  ok_or (match a with
         | Software channel delivery resource intent schedule run_lifetime_seconds _ =>
             software_to_vec resource channel delivery intent schedule run_lifetime_seconds
         | _ => action_to_vec a
         end) Malformed.
Definition semantic (d : Definition_) : res Error bytes :=
  content ← semantic_bytes (d_action d); Ok (sha256 content).
Definition bound_semantic (d : Definition_) (binding : option bytes) : res Error bytes :=
  semantic ← semantic d;
  match binding with
  | None => Ok semantic
  | Some binding => Ok (sha256 (lit "software-policy-lifecycle/v1" ++ semantic ++ binding))
  end.

(** ** [Policy::apply] *)
Definition is_ensure_agent_installed (a : Action) : bool :=
  match a with EnsureAgentInstalled _ _ _ => true | _ => false end.
(** The stored aggregate is rechecked before it is trusted. *)
Definition check_old (old : option Policy) : res Error () :=
  match old with
  | Some p =>
      _ ← reject (is_nil (p_id p) || is_nil (p_version p) || (p_revision p <? 1) || (p_number p <? 1)
                  || (p_revision p <? p_number p)) Malformed;
      Definition_validate (p_definition p)
  | None => Ok ()
  end.
Definition cas_conflict (id : Uuid) (old : option Policy) (expected : Z) : bool :=
  match old with Some p => negb (bool_decide (p_id p = id)) | None => false end
  || negb (match old with Some p => i64_as_u64 (p_revision p) | None => 0 end =? expected).
Definition is_archived (old : option Policy) : bool :=
  match old with Some p => bool_decide (p_state p = Archived) | None => false end.
(** [checked_add(1).filter(|v| *v <= i64::MAX as u64)]. *)
Definition next_revision (expected : Z) : res Error Z :=
  next ← ok_or (match checked_u64 (expected + 1) with
                | Some v => if v <=? i64_max then Some v else None
                | None => None
                end) Conflict;
  Ok (u64_as_i64 next).
Definition change_target (old : option Policy) (input : Change) : res Error (Definition_ * State) :=
  match input with
  | Put definition enabled => Ok (definition, if enabled then Enabled else Disabled)
  | Enable => p ← ok_or old NotFound; Ok (p_definition p, Enabled)
  | Disable => p ← ok_or old NotFound; Ok (p_definition p, Disabled)
  | Archive =>
      p ← ok_or old NotFound;
      _ ← reject (negb (bool_decide (p_state p = Disabled))) Conflict;
      Ok (p_definition p, Archived)
  end.
Definition normalize_definition (d : Definition_) (old : option Policy) : Definition_ :=
  mk_Definition (d_custom_event d) (d_alias d) (d_scope d) (d_action d)
    (match d_self_service d with
     | Some config =>
         Some (SelfService_normalize config (old ≫= fun p => d_self_service (p_definition p)))
     | None => None
     end).
Definition change_binding (old : option Policy) (input : Change) (binding : option bytes) : option bytes :=
  match input with Put _ _ => binding | _ => old ≫= p_execution_binding end.
(** The digest of the stored aggregate, when there is one. *)
Definition old_semantic (old : option Policy) : res Error (option bytes) :=
  match old with
  | Some p => s ← bound_semantic (p_definition p) (p_execution_binding p); Ok (Some s)
  | None => Ok None
  end.
Definition Policy_apply (id : Uuid) (old : option Policy) (expected : Z) (input : Change)
    (next_version : Uuid) (execution_binding : option bytes) : res Error Changed :=
  _ ← reject (is_nil id || is_nil next_version) Malformed;
  _ ← check_old old;
  _ ← reject (cas_conflict id old expected) Conflict;
  _ ← reject (is_archived old) Conflict;
  revision ← next_revision expected;
  target ← change_target old input;
  let definition := normalize_definition target.1 old in
  let state := target.2 in
  _ ← Definition_validate definition;
  let execution_binding := change_binding old input execution_binding in
  _ ← reject (negb (Bool.eqb (is_ensure_agent_installed (d_action definition))
                (match execution_binding with Some _ => true | None => false end))) Malformed;
  semantic ← bound_semantic definition execution_binding;
  previous ← old_semantic old;
  let changed := negb (bool_decide (previous = Some semantic)) in
  _ ← reject (changed && match old with
                         | Some p => bool_decide (p_version p = next_version)
                         | None => false
                         end) Malformed;
  number ← (if changed
            then ok_or (match old with
                        | Some p => checked_i64 (p_number p + 1)
                        | None => Some 1
                        end) Conflict
            else p ← ok_or old NotFound; Ok (p_number p));
  version ← (if changed then Ok next_version else p ← ok_or old NotFound; Ok (p_version p));
  Ok (mk_Changed (mk_Policy id revision version number state definition execution_binding)
        changed semantic).

(** ** The public projection *)
Record View : Type := mk_View {
  v_id : Uuid; v_revision : Z; v_version : Z; v_version_id : Uuid; v_state : State;
  v_definition : Definition_
}.
Definition View_from (p : Policy) : View :=
  mk_View (p_id p) (p_revision p) (p_number p) (p_version p) (p_state p) (p_definition p).
End Lifecycle.
