(* ===== verification/PolicyLifecycleProperties.v ===== *)
(** * Theorems of the policy aggregate

    Histories of accepted changes: revisions count changes, numbers count changes of the
    execution content, archived policies are closed, and a stale expectation never wins. *)
From S2P Require Import Prelude Ordered Text External Json PolicySchedule PolicyScheduleProperties.
From S2P Require Import SelfService PolicyAssignment PolicyLifecycle.

#[local] Hint Extern 1 (no_panic (Ok _)) => discriminate : rust.

Section Laws.
Context `{UC : UuidCrate} `{SJ : SerdeJson} `{SS : !SourcesSerde} `{JF : Jiff} `{SH : Sha2}
  `{AW : AgentWire} `{PS : !PolicySerde}.
Implicit Types (p : Policy) (old : option Policy) (c : Changed) (d : Definition_).

(** ** What an accepted change satisfies *)
Definition target_definition old (input : Change) : option Definition_ :=
  match input with Put d _ => Some d | _ => p_definition <$> old end.
Definition old_revision old : Z := match old with Some p => p_revision p | None => 0 end.
Definition old_number old : Z := match old with Some p => p_number p | None => 0 end.
Definition bound_iff_agent d (binding : option bytes) : Prop :=
  is_ensure_agent_installed (d_action d) = true <-> is_Some binding.
(** [p_revision] is an [i64]. *)
Definition stored old : Prop := forall p, old = Some p -> in_i64 (p_revision p) /\ in_i64 (p_number p).

(** The lifecycle as a relation between the previous state, if any, and the next. *)
Inductive transition : option State -> Change -> State -> Prop :=
| T_put previous d (enabled : bool) :
    previous <> Some Archived -> transition previous (Put d enabled) (if enabled then Enabled else Disabled)
| T_enable s : s <> Archived -> transition (Some s) Enable Enabled
| T_disable s : s <> Archived -> transition (Some s) Disable Disabled
| T_archive : transition (Some Disabled) Archive Archived.

(** Facts of an accepted change, one field per part of the new aggregate. *)
Record accepted (id : Uuid) old (expected : Z) (input : Change) (next : Uuid)
    (binding : option bytes) c : Prop := {
  acc_ids : is_nil id = false /\ is_nil next = false;
  acc_old : check_old old = Ok () /\ cas_conflict id old expected = false;
  acc_id : p_id (ch_policy c) = id;
  acc_revision : p_revision (ch_policy c) = expected + 1 /\ expected + 1 <= i64_max;
  acc_state : transition (p_state <$> old) input (p_state (ch_policy c));
  acc_definition : exists d, target_definition old input = Some d /\
    p_definition (ch_policy c) = normalize_definition d old;
  acc_valid : Definition_validate (p_definition (ch_policy c)) = Ok ();
  acc_binding : p_execution_binding (ch_policy c) = change_binding old input binding;
  acc_bound : bound_iff_agent (p_definition (ch_policy c)) (p_execution_binding (ch_policy c));
  acc_semantic : bound_semantic (p_definition (ch_policy c)) (p_execution_binding (ch_policy c))
    = Ok (ch_semantic c);
  acc_previous : exists previous, old_semantic old = Ok previous /\
    (ch_semantic_changed c = true <-> previous <> Some (ch_semantic c));
  acc_changed : ch_semantic_changed c = true ->
    p_number (ch_policy c) = old_number old + 1 /\ p_version (ch_policy c) = next /\
    (forall p, old = Some p -> p_version p <> next);
  acc_unchanged : ch_semantic_changed c = false -> exists p, old = Some p /\
    p_number (ch_policy c) = p_number p /\ p_version (ch_policy c) = p_version p
}.

Lemma next_revision_ok expected r :
  0 <= expected -> next_revision expected = Ok r -> r = expected + 1 /\ expected + 1 <= i64_max.
Proof.
  unfold next_revision, checked_u64, is_u64, u64_max, i64_max, u64_as_i64. intros H0 H.
  destruct (0 <=? expected + 1) eqn:E1, (expected + 1 <=? 2 ^ 64 - 1) eqn:E2; simpl in H; try done.
  fold i64_max in H. destruct (expected + 1 <=? i64_max) eqn:E3; simpl in H; [|done].
  rewrite E3 in H. injection H as <-. unfold i64_max in E3. bool_hyps. lia.
Qed.
Lemma change_target_ok old input t :
  is_archived old = false -> change_target old input = Ok t ->
  target_definition old input = Some t.1 /\ transition (p_state <$> old) input t.2.
Proof.
  intros Ha H.
  assert (forall p, old = Some p -> p_state p <> Archived) as Hna.
  { intros p ->. simpl in Ha. by apply bool_decide_eq_false in Ha. }
  destruct old as [p|], input as [d enabled| | |]; simpl in H; inv_ok; simpl; try discriminate;
    try specialize (Hna p eq_refl).
  - split; [done|]. constructor. congruence.
  - split; [done|]. by constructor.
  - split; [done|]. by constructor.
  - split; [done|]. bool_hyps. match goal with H : p_state _ = Disabled |- _ => rewrite H end. constructor.
  - split; [done|]. by constructor.
Qed.
Lemma apply_accepted id old expected input next binding c :
  0 <= expected -> Policy_apply id old expected input next binding = Ok c ->
  accepted id old expected input next binding c.
Proof.
  intros H0 H. unfold Policy_apply in H. inv_ok.
  apply orb_false_iff in E. destruct E as [Hid Hnext].
  apply next_revision_ok in E3 as [-> Hmax]; [|done]. destruct a0, a5.
  apply change_target_ok in E4 as [Ht Hs]; [|done].
  apply negb_false_iff, Bool.eqb_prop in E6.
  constructor; simpl; try done.
  - eauto.
  - unfold bound_iff_agent. rewrite E6. destruct (change_binding _ _ _).
    + split; [eauto|done].
    + split; [done|]. by intros [].
  - eexists. split; [done|]. by rewrite negb_true_iff, bool_decide_eq_false.
  - intros Hc. rewrite Hc in E9, E10, E11. simpl in E9. inv_ok. split_and!; [|done|].
    + destruct old as [p|]; inv_ok; simpl; [|by simplify_eq]. by apply checked_i64_some in E10 as [-> _].
    + intros p ->. by apply bool_decide_eq_false in E9.
  - intros Hc. rewrite Hc in E10, E11. inv_ok. naive_solver.
Qed.

(** ** Histories: the accepted changes of one policy, newest first *)
Inductive History (id : Uuid) : option Policy -> list Changed -> Prop :=
| History_nil : History id None []
| History_cons old l expected input next binding c :
    History id old l -> in_u64 expected ->
    Policy_apply id old expected input next binding = Ok c ->
    History id (Some (ch_policy c)) (c :: l).
Definition semantic_changes (l : list Changed) : Z :=
  zlen (List.filter ch_semantic_changed l).
(** Self-service defaults are materialised. *)
Definition normalized d : Prop :=
  forall config, d_self_service d = Some config ->
    is_Some (sf_allow_ai config) /\ is_Some (sf_risk_level config).
Record sound_policy (id : Uuid) p : Prop := {
  sp_id : p_id p = id /\ is_nil id = false;
  sp_version : is_nil (p_version p) = false;
  sp_number : 1 <= p_number p <= p_revision p /\ p_revision p <= i64_max;
  sp_valid : Definition_validate (p_definition p) = Ok ();
  sp_normalized : normalized (p_definition p);
  sp_bound : bound_iff_agent (p_definition p) (p_execution_binding p)
}.
Lemma i64_as_u64_small z : 0 <= z <= i64_max -> i64_as_u64 z = z.
Proof. unfold i64_as_u64, i64_max. intros. by rewrite Z.mod_small by lia. Qed.
Lemma normalize_normalized d old : normalized (normalize_definition d old).
Proof. intros config H. simpl in H. destruct (d_self_service d); [|done]. injection H as <-. simpl. eauto. Qed.
Lemma sound_check_old id p : sound_policy id p -> check_old (Some p) = Ok ().
Proof.
  intros [[Hid Hn] Hv [Hnum Hmax] Hd _ _]. simpl. rewrite Hid, Hn, Hv. simpl.
  rewrite !(proj2 (Z.ltb_ge _ _)) by lia. done.
Qed.
(** The expectation of an accepted change is the stored revision. *)
Lemma accepted_expected id old expected input next binding c :
  (forall p, old = Some p -> sound_policy id p) -> accepted id old expected input next binding c ->
  expected = old_revision old.
Proof.
  intros Hs [_ [_ Hc] _ _ _ _ _ _ _ _ _ _ _]. unfold cas_conflict in Hc. bool_hyps.
  destruct old as [p|]; simpl in *; [|done]. destruct (Hs p eq_refl) as [_ _ [? ?] _ _ _].
  rewrite i64_as_u64_small in *; lia.
Qed.
Lemma accepted_sound id old expected input next binding c :
  (forall p, old = Some p -> sound_policy id p) -> accepted id old expected input next binding c ->
  sound_policy id (ch_policy c).
Proof.
  intros Hs Ha. pose proof (accepted_expected _ _ _ _ _ _ _ Hs Ha) as He.
  destruct Ha as [[? ?] _ Hi [Hr Hm] _ (d & _ & Hd) Hv _ Hb _ _ Hch Hun].
  assert (0 <= old_number old <= old_revision old) as Hold.
  { destruct old as [p|]; simpl; [|lia]. destruct (Hs p eq_refl) as [_ _ [? ?] _ _ _]. lia. }
  constructor; try done.
  - destruct (ch_semantic_changed c).
    + destruct Hch as (_ & -> & _); done.
    + destruct Hun as (p & -> & _ & ->); [done|]. by destruct (Hs p eq_refl).
  - rewrite Hr. split; [|lia]. destruct (ch_semantic_changed c).
    + destruct Hch as (-> & _); [done|]. lia.
    + destruct Hun as (p & -> & -> & _); [done|]. destruct (Hs p eq_refl) as [_ _ [? ?] _ _ _].
      simpl in *. lia.
  - rewrite Hd. apply normalize_normalized.
Qed.
Lemma history_sound id old l :
  History id old l -> (forall p, old = Some p -> sound_policy id p) /\
  old_revision old = zlen l /\ old_number old = semantic_changes l.
Proof.
  intros H. induction H as [|old l expected input next binding c _ (IHs & IHr & IHn) He Hap].
  - done.
  - apply apply_accepted in Hap; [|destruct He; lia].
    pose proof (accepted_expected _ _ _ _ _ _ _ IHs Hap) as Hexp.
    pose proof (accepted_sound _ _ _ _ _ _ _ IHs Hap) as Hsound.
    split_and!.
    + by intros p [= <-].
    + destruct Hap as [_ _ _ [Hr _] _ _ _ _ _ _ _ _ _]. simpl. rewrite zlen_cons. lia.
    + unfold semantic_changes. simpl. destruct (ch_semantic_changed c) eqn:Ec.
      * rewrite zlen_cons. fold (semantic_changes l).
        destruct (acc_changed _ _ _ _ _ _ _ Hap Ec) as (-> & _). lia.
      * destruct (acc_unchanged _ _ _ _ _ _ _ Hap Ec) as (p & -> & -> & _). exact IHn.
Qed.

(** ** What a version is of *)
(** The execution content of a policy: its action, a software rollout apart, and the bound lifecycle. *)
Definition unrolled (a : Action) : Action :=
  match a with
  | Software channel delivery software intent schedule lifetime _ => Software channel delivery software intent schedule lifetime []
  | _ => a
  end.
Definition content p : Action * option bytes := (unrolled (d_action (p_definition p)), p_execution_binding p).
(** The 32 bytes by which content is compared. *)
Definition content_hash (c : Action * option bytes) : option bytes :=
  x ← match c.1 with
      | Software channel delivery software intent schedule lifetime _ => software_to_vec software channel delivery intent schedule lifetime
      | a => action_to_vec a
      end;
  Some match c.2 with
       | Some lifecycle => sha256 (lit "software-policy-lifecycle/v1" ++ sha256 x ++ lifecycle)
       | None => sha256 x
       end.
Definition indistinct (c c' : Action * option bytes) : Prop := exists h, content_hash c = Some h /\ content_hash c' = Some h.
(** The number and identity of the version that a sequence of policies, newest first, ends with: one more,
    and another one, exactly when the content differs from that before. *)
Inductive versions : list Policy -> Z -> Uuid -> Prop :=
| versions_first p v : versions [p] 1 v
| versions_kept q p l n v : content q = content p \/ indistinct (content q) (content p) -> versions (p :: l) n v -> versions (q :: p :: l) n v
| versions_next q p l n v w : content q <> content p -> w <> v -> versions (p :: l) n v -> versions (q :: p :: l) (n + 1) w.
Lemma bound_semantic_fingerprint p h :
  bound_semantic (p_definition p) (p_execution_binding p) = Ok h <-> content_hash (content p) = Some h.
Proof.
  unfold bound_semantic, semantic, semantic_bytes, content_hash, content. simpl.
  destruct (d_action (p_definition p)); simpl; (match goal with |- context [ok_or ?o _] => destruct o as [x|] end; simpl; [|done]);
    destruct (p_execution_binding p); simpl; split; congruence.
Qed.
Lemma history_versions id old l : History id old l -> forall p, old = Some p -> exists c l', l = c :: l' /\ ch_policy c = p /\
  versions (map ch_policy l) (p_number p) (p_version p).
Proof.
  induction 1 as [|old l expected input next binding c H IH He Hap]; [done|]. intros p [= <-]. exists c, l. split_and!; [done..|].
  apply apply_accepted in Hap as [_ _ _ _ _ _ _ _ _ Hsem (previous & Hp & Hiff) Hch Hun]; [|destruct He; lia].
  apply bound_semantic_fingerprint in Hsem. destruct old as [p|].
  - destruct (IH p eq_refl) as (c0 & l0 & -> & <- & Hv). simpl in *. apply bind_ok in Hp as (h & Hh & [= <-]). apply bound_semantic_fingerprint in Hh.
    destruct (ch_semantic_changed c).
    + destruct Hch as (-> & -> & Hne); [done|]. apply (versions_next _ _ _ _ (p_version (ch_policy c0))); [|by intros E; apply (Hne _ eq_refl)|done].
      intros Heq. rewrite Heq, Hh in Hsem. injection Hsem as Hsem. apply Hiff; [done|congruence].
    + destruct Hun as (q & [= <-] & -> & ->); [done|]. apply versions_kept; [|done]. right. exists h. split; [|done]. rewrite Hsem.
      f_equal. destruct (decide (Some h = Some (ch_semantic c))) as [[= ->]|Hn]; [done|]. apply Hiff in Hn. done.
  - injection Hp as <-. assert (ch_semantic_changed c = true) as Hc by by apply Hiff. destruct (Hch Hc) as (-> & _).
    inversion H; subst. apply versions_first.
Qed.

(** ** What the number and the version identify *)
Definition number c : Z := p_number (ch_policy c).
Definition version c : Uuid := p_version (ch_policy c).
Definition same_content c c' : Prop := version c = version c' /\ ch_semantic c = ch_semantic c'.
Definition new_content c c' : Prop := version c <> version c' /\ ch_semantic c <> ch_semantic c'.
(** The relation of every earlier change to the newest one. *)
Record before (c0 c : Changed) : Prop := {
  before_le : number c <= number c0;
  before_same : number c = number c0 -> same_content c c0;
  before_new : number c + 1 = number c0 -> new_content c c0
}.
Lemma before_refl c : before c c.
Proof. split; [lia|done|lia]. Qed.
Lemma before_step id c0 expected input next binding c c1 :
  bound_semantic (p_definition (ch_policy c0)) (p_execution_binding (ch_policy c0)) = Ok (ch_semantic c0) ->
  accepted id (Some (ch_policy c0)) expected input next binding c1 -> before c0 c -> before c1 c.
Proof.
  intros Hsem [_ _ _ _ _ _ _ _ _ _ (previous & Hp & Hiff) Hch Hun] [Hle Hsame Hnew].
  simpl in Hp. rewrite Hsem in Hp. injection Hp as <-.
  unfold same_content, new_content, number, version in *. destruct (ch_semantic_changed c1).
  - destruct Hch as (Hn & Hv & Hne); [done|]. specialize (Hne _ eq_refl). simpl in Hn.
    assert (ch_semantic c0 <> ch_semantic c1) as Hdiff by (intros He; apply Hiff; [done|congruence]).
    split; unfold same_content, new_content, number, version; [lia|lia|].
    intros Heq. destruct Hsame as [-> ->]; [lia|]. by rewrite Hv.
  - destruct Hun as (p & [= <-] & Hn & Hv); [done|].
    assert (ch_semantic c0 = ch_semantic c1) as Heq by
      (apply dec_stable; intros He; assert (false = true) by (apply Hiff; congruence); done).
    by split; unfold same_content, new_content, number, version; rewrite Hn, ?Hv, <-?Heq.
Qed.
Lemma history_before id old l c0 l' :
  History id old l -> l = c0 :: l' -> old = Some (ch_policy c0) /\
  bound_semantic (p_definition (ch_policy c0)) (p_execution_binding (ch_policy c0)) = Ok (ch_semantic c0) /\
  forall c, c ∈ l -> before c0 c.
Proof.
  intros H. revert c0 l'. induction H as [|old l expected input next binding c H IH He Hap]; [done|].
  intros c0 l' [= <- <-]. apply apply_accepted in Hap; [|destruct He; lia].
  split_and!; [done|by destruct Hap|]. intros c' [->|Hc']%elem_of_cons; [apply before_refl|].
  destruct l as [|c1 l]; [by apply not_elem_of_nil in Hc'|].
  destruct (IH c1 l eq_refl) as (-> & Hsem & Hall). eapply before_step; eauto.
Qed.
(** Every suffix of a history is a history. *)
Lemma history_pairs id old l c1 c2 :
  History id old l -> c1 ∈ l -> c2 ∈ l -> before c1 c2 \/ before c2 c1.
Proof.
  intros H. induction H as [|old l expected input next binding c H IH He Hap];
    [by intros ?%not_elem_of_nil|].
  pose proof (history_before _ _ _ c l (History_cons _ _ _ _ _ _ _ _ H He Hap) eq_refl) as (_ & _ & Hall).
  intros [->|H1]%elem_of_cons [->|H2]%elem_of_cons.
  - left. apply before_refl.
  - left. apply Hall. by right.
  - right. apply Hall. by right.
  - by apply IH.
Qed.

(** ** Panics *)
Definition action_schedule (a : Action) : option Schedule :=
  match a with
  | Credential _ _ s _ _ | Execution _ _ s _ _ | AgentCollection _ s _ _ | NativeCollection _ s _ _
  | Software _ _ _ _ s _ _ | UnmanageDevice s _ | EnsureAgentInstalled _ s _
  | RequestMdmEnrollment _ s _ => Some s
  | _ => None
  end.
Definition definition_typed d : Prop :=
  forall s, action_schedule (d_action d) = Some s -> schedule_typed s.
Lemma validate_source_no_panic e : no_panic (validate_source e).
Proof. unfold validate_source. apply bind_no_panic; [auto with rust|]. intros. destruct e.2; auto with rust. Qed.
Lemma validate_ids_no_panic ids : no_panic (validate_ids ids).
Proof. apply (res_for_no_panic _ (fun _ => True)); auto. intros. apply reject_no_panic. Qed.
Lemma sources_no_panic s : no_panic (ParameterSources_validate s).
Proof.
  unfold ParameterSources_validate. apply bind_no_panic.
  - destruct (_ <? _); [done|]. apply bind_no_panic; auto with rust.
  - intros. apply (res_for_no_panic _ (fun _ => True)); auto. intros. apply validate_source_no_panic.
Qed.
Lemma rollout_no_panic stages : is_empty stages = false -> no_panic (validate_rollout stages).
Proof.
  intros He. unfold validate_rollout. apply bind_no_panic; [by destruct stages|intros s _].
  apply bind_no_panic; [auto with rust|intros _ _].
  apply bind_no_panic; [|done]. apply (res_for_no_panic _ (fun _ => True)); auto.
  intros [previous scopes] a _ _. unfold check_stage. apply bind_no_panic; auto with rust.
Qed.
Lemma access_no_panic a : no_panic (SelfServiceAccess_validate a).
Proof.
  destruct a; simpl; try done. apply bind_no_panic; [auto with rust|intros _ _].
  apply bind_no_panic; [|done]. apply (res_for_no_panic _ (fun _ => True)); auto.
  intros s x _ _. unfold check_selector. repeat (apply bind_no_panic; [auto with rust|intros _ _]). done.
Qed.
Lemma self_service_no_panic s : no_panic (SelfService_validate s).
Proof.
  unfold SelfService_validate. apply bind_no_panic; [auto with rust|intros _ _].
  apply bind_no_panic; [destruct (sf_access s); [apply access_no_panic|done]|intros _ _].
  apply bind_no_panic; [auto with rust|intros _ _].
  apply bind_no_panic.
  - apply (res_for_no_panic _ (fun _ => True)); auto. intros [] [[key b] r] _ _. unfold check_text.
    apply bind_no_panic; auto with rust.
  - intros _ _. apply bind_no_panic; auto with rust.
Qed.

Lemma credential_no_panic op : no_panic (CredentialOperation_validate op).
Proof. unfold CredentialOperation_validate. by destruct op; simpl; repeat case_match. Qed.
Lemma validate_resource_no_panic a : no_panic (validate_resource a).
Proof.
  destruct a; simpl; try done; auto with rust; try apply validate_ids_no_panic.
  - apply credential_no_panic.
  - apply bind_no_panic; [auto with rust|intros; apply validate_ids_no_panic].
Qed.
Lemma validate_run_no_panic a :
  (forall s, action_schedule a = Some s -> schedule_typed s) -> no_panic (validate_run a).
Proof.
  intros Hs. destruct a; simpl in *; try done;
    (apply bind_no_panic; [apply validate_no_panic; by apply Hs|intros _ _]; auto with rust).
  do 2 (apply bind_no_panic; [auto with rust|intros _ _]).
  apply bind_no_panic; [auto with rust|intros u Hr]. apply rollout_no_panic. inv_ok. by bool_hyps.
Qed.
Lemma definition_validate_no_panic d : definition_typed d -> no_panic (Definition_validate d).
Proof.
  intros Ht. unfold Definition_validate.
  apply bind_no_panic; [auto with rust|intros content _].
  do 2 (apply bind_no_panic; [auto with rust|intros _ _]).
  apply bind_no_panic; [|intros _ _].
  - unfold Action_validate, validate_shape, validate_parameters.
    apply bind_no_panic; [apply bind_no_panic; auto with rust|intros _ _].
    apply bind_no_panic; [apply validate_resource_no_panic|intros _ _].
    apply bind_no_panic; [|intros _ _; by apply validate_run_no_panic].
    destruct (d_action d); try done. apply bind_no_panic; [apply sources_no_panic|auto with rust].
  - do 2 (apply bind_no_panic; [auto with rust|intros _ _]).
    destruct (d_self_service d); [|done].
    apply bind_no_panic; [auto with rust|intros; apply self_service_no_panic].
Qed.
Lemma bound_semantic_no_panic d binding : no_panic (bound_semantic d binding).
Proof.
  unfold bound_semantic, semantic, semantic_bytes.
  apply bind_no_panic; [apply bind_no_panic; auto with rust; done|]. by destruct binding.
Qed.
End Laws.

Section Properties.
Context `{UC : UuidCrate} `{SJ : SerdeJson} `{SS : !SourcesSerde} `{JF : Jiff} `{SH : Sha2}
  `{AW : AgentWire} `{PS : !PolicySerde}.
Implicit Types (p : Policy) (old : option Policy) (c : Changed) (d : Definition_).

(** C4: along any history of accepted changes the aggregate is sound (its definition is valid with its
    self-service defaults materialised, exactly an Agent installation is bound to a resolved lifecycle)
    and its revision counts the changes. Its version number starts at one and grows by one, with a new
    version identity, exactly when the execution content (the action without its rollout, and
    the bound lifecycle) is not what it was, unless two contents have one SHA-256 fingerprint. *)
Theorem policy_history id p l :
  History id (Some p) l ->
  sound_policy id p /\ p_revision p = zlen l /\ versions (map ch_policy l) (p_number p) (p_version p).
Proof.
  intros H. destruct (history_versions _ _ _ H p eq_refl) as (c & l' & _ & _ & Hv). apply history_sound in H as (Hs & Hr & _). auto.
Qed.

(** Within a history the version number identifies the immutable content: equal
    numbers carry the same version and the same content digest, and the next number
    carries another version and another digest. *)
Theorem version_identifies_content id old l c1 c2 :
  History id old l -> c1 ∈ l -> c2 ∈ l ->
  (number c1 = number c2 -> same_content c1 c2) /\
  (number c1 + 1 = number c2 -> new_content c1 c2).
Proof.
  intros H H1 H2. unfold same_content, new_content.
  destruct (history_pairs _ _ _ _ _ H H1 H2) as [[Hle Hsame Hnew]|[Hle Hsame Hnew]].
  - split; [|lia]. intros He. by destruct (Hsame (eq_sym He)) as [-> ->].
  - split; [intros He; by apply Hsame|apply Hnew].
Qed.

(** An accepted change follows the lifecycle (an archived policy has no successor and
    only a disabled one is archived), and a change of an archived policy is a conflict. *)
Theorem lifecycle_transitions id old expected input next binding :
  0 <= expected ->
  (forall c, Policy_apply id old expected input next binding = Ok c ->
     transition (p_state <$> old) input (p_state (ch_policy c))) /\
  (forall p, old = Some p -> sound_policy id p -> is_nil next = false -> p_state p = Archived ->
     Policy_apply id old expected input next binding = Err Conflict).
Proof.
  intros H0. split.
  - intros c H. by apply apply_accepted in H as [].
  - intros p -> Hs Hn Ha. unfold Policy_apply. rewrite (sound_check_old id), Hn; [|done].
    destruct Hs as [[_ ->] _ _ _ _ _]. cbn [orb reject mbind res_bind].
    destruct (cas_conflict _ _ _); [done|]. unfold is_archived. by rewrite Ha.
Qed.

(** C39: the configuration CAS: an accepted change was made against the stored revision, and
    every further change against that same expectation is a conflict that changes nothing. *)
Theorem compare_and_set id old expected input next binding c :
  0 <= expected -> (forall p, old = Some p -> sound_policy id p) ->
  Policy_apply id old expected input next binding = Ok c ->
  expected = old_revision old /\ p_revision (ch_policy c) = expected + 1 /\
  forall input' next' binding', is_nil next' = false ->
    Policy_apply id (Some (ch_policy c)) expected input' next' binding' = Err Conflict.
Proof.
  intros H0 Hs Hap. apply apply_accepted in Hap; [|done].
  pose proof (accepted_expected _ _ _ _ _ _ _ Hs Hap) as He.
  pose proof (accepted_sound _ _ _ _ _ _ _ Hs Hap) as Hc.
  assert (p_revision (ch_policy c) = expected + 1) as Hr by apply Hap.
  split_and!; [done|done|]. intros input' next' binding' Hn.
  unfold Policy_apply. rewrite (sound_check_old id), Hn; [|done].
  destruct Hc as [[Hid ->] _ [? ?] _ _ _]. cbn [orb reject mbind res_bind].
  assert (cas_conflict id (Some (ch_policy c)) expected = true) as ->; [|done].
  unfold cas_conflict. rewrite i64_as_u64_small, Hr, (proj2 (Z.eqb_neq _ _)) by lia. apply orb_true_r.
Qed.

(** Two actions with the same execution content: a software rollout is not part of it. *)
Definition same_execution (a a' : Action) : Prop :=
  a = a' \/ exists channel delivery software intent schedule lifetime r r',
    a = Software channel delivery software intent schedule lifetime r /\
    a' = Software channel delivery software intent schedule lifetime r'.

(** Replacing the scope, the names, the self-service configuration or the rollout, and
    enabling, disabling or archiving, advances the revision only: the version, its number
    and the content digest stay. *)
Theorem presentation_keeps_version id p expected input next binding c :
  0 <= expected ->
  Policy_apply id (Some p) expected input next binding = Ok c ->
  match input with
  | Put d _ => same_execution (d_action d) (d_action (p_definition p)) /\ binding = p_execution_binding p
  | _ => True
  end ->
  ch_semantic_changed c = false /\ p_version (ch_policy c) = p_version p /\
  p_number (ch_policy c) = p_number p /\ p_revision (ch_policy c) = expected + 1 /\
  bound_semantic (p_definition p) (p_execution_binding p) = Ok (ch_semantic c).
Proof.
  intros H0 Hap Hin. apply apply_accepted in Hap; [|done].
  destruct Hap as [_ _ _ [Hr _] _ (d & Hd & Hdef) _ Hb _ Hsem (previous & Hp & Hiff) _ Hun].
  assert (bound_semantic (p_definition p) (p_execution_binding p) = Ok (ch_semantic c)) as Hold.
  { rewrite <-Hsem, Hdef, Hb. unfold bound_semantic, semantic. simpl.
    destruct input as [d' e| | |]; simpl in Hd; injection Hd as <-; simpl; try done.
    destruct Hin as [Hex ->]. do 2 f_equal.
    by destruct Hex as [->|(? & ? & ? & ? & ? & ? & ? & ? & -> & ->)]. }
  simpl in Hp. rewrite Hold in Hp. injection Hp as <-.
  assert (ch_semantic_changed c = false) as Hc.
  { apply not_true_iff_false. intros Ht. by apply Hiff in Ht. }
  destruct (Hun Hc) as (p' & [= <-] & Hn & Hv). done.
Qed.

(** Applying a change never panics, for every stored aggregate, expectation and request
    whose schedules hold machine integers: it returns a change or an error. *)
Theorem policy_apply_never_panics id old expected input next binding :
  (forall d, target_definition old input = Some d -> definition_typed d) ->
  (forall p, old = Some p -> definition_typed (p_definition p)) ->
  no_panic (Policy_apply id old expected input next binding).
Proof.
  intros Hd Ho. unfold Policy_apply.
  apply bind_no_panic; [auto with rust|intros _ _].
  apply bind_no_panic; [|intros _ _].
  { destruct old as [p|]; simpl; [|done].
    apply bind_no_panic; [auto with rust|intros; by apply definition_validate_no_panic, Ho]. }
  apply bind_no_panic; [auto with rust|intros _ _].
  apply bind_no_panic; [auto with rust|intros u Ha; destruct u].
  apply bind_no_panic; [apply bind_no_panic; auto with rust|intros revision _].
  apply bind_no_panic; [|intros t Ht].
  { destruct input; simpl; auto with rust; apply bind_no_panic; auto with rust.
    intros. apply bind_no_panic; auto with rust. }
  apply reject_ok in Ha. apply change_target_ok in Ht as [Ht _]; [|done].
  apply bind_no_panic; [|intros _ _].
  { apply definition_validate_no_panic. intros s. apply (Hd _ Ht). }
  apply bind_no_panic; [auto with rust|intros _ _].
  apply bind_no_panic; [apply bound_semantic_no_panic|intros sem _].
  apply bind_no_panic; [|intros previous _].
  { destruct old; simpl; [|done]. apply bind_no_panic; [apply bound_semantic_no_panic|auto with rust]. }
  apply bind_no_panic; [auto with rust|intros _ _].
  apply bind_no_panic; [|intros number _].
  { destruct (negb _); [auto with rust|]. apply bind_no_panic; auto with rust. }
  apply bind_no_panic; [|auto with rust].
  destruct (negb _); [auto with rust|]. apply bind_no_panic; auto with rust.
Qed.
End Properties.

(** ** Closed examples: a firewall configuration edited, enabled and archived *)
Module Witnesses.
Import Reference ReferenceJson.
#[local] Instance agent_wire : AgentWire := {| LoginConfiguration := unit; AccessWindowsConfiguration := unit |}.
#[local] Instance sources_serde : SourcesSerde := {| sources_to_vec _ := Some [] |}.
#[local] Instance policy_serde : PolicySerde := {|
  definition_to_vec _ := Some [];
  action_to_vec a := Some (ActionKind_as_str (Action_kind a)
    ++ match Action_resource a with Some r => ri_id r ++ ri_version r | None => [] end);
  software_to_vec r _ _ _ _ _ := Some (sb_id r ++ sb_version r)
|}.
(** Identities of the reference instance are numbers. *)
Definition uid (z : Z) : Uuid (UuidCrate:=uuid_crate) := z.
Definition firewall (version : rstr) : Definition_ :=
  mk_Definition None None 9
    (Configuration (mk_ExactResourceBinding (lit "firewall") version Windows X86_64 (lit "default")) Retain) None.
Definition empty_changed : Changed :=
  mk_Changed (mk_Policy 0 0 0 0 Disabled (firewall []) None) false [].
Notation apply_to c e input next := (Policy_apply (uid 7) (Some (ch_policy c)) e input (uid next) None).
Definition c1 : Changed := get empty_changed (Policy_apply (uid 7) None 0 (Put (firewall (lit "v1")) true) (uid 101) None).
Definition c2 : Changed := get empty_changed (apply_to c1 1 (Put (firewall (lit "v2")) false) 102).
Definition c3 : Changed := get empty_changed (apply_to c2 2 Archive 103).
Lemma h1 : Policy_apply (uid 7) None 0 (Put (firewall (lit "v1")) true) (uid 101) None = Ok c1.
Proof. apply is_ok_get. vm_compute. reflexivity. Qed.
Lemma h2 : apply_to c1 1 (Put (firewall (lit "v2")) false) 102 = Ok c2.
Proof. apply is_ok_get. vm_compute. reflexivity. Qed.
Lemma h3 : apply_to c2 2 Archive 103 = Ok c3.
Proof. apply is_ok_get. vm_compute. reflexivity. Qed.
#[local] Opaque c1 c2 c3.
Lemma small z : 0 <= z <= 9 -> in_u64 z.
Proof. unfold in_u64, u64_max. lia. Qed.
Lemma edits : History (uid 7) (Some (ch_policy c3)) [c3; c2; c1].
Proof.
  assert (History (uid 7) (Some (ch_policy c1)) [c1]) as H1 by
    (eapply History_cons; [constructor| |apply h1]; apply small; lia).
  assert (History (uid 7) (Some (ch_policy c2)) [c2; c1]) as H2 by
    (eapply History_cons; [exact H1| |apply h2]; apply small; lia).
  eapply History_cons; [exact H2| |apply h3]; apply small; lia.
Qed.
Lemma sound2 : sound_policy (uid 7) (ch_policy c2).
Proof.
  assert (History (uid 7) (Some (ch_policy c2)) [c2; c1]) as H2.
  { eapply History_cons; [eapply History_cons; [constructor| |apply h1]| |apply h2]; apply small; lia. }
  by apply history_sound in H2 as [H _]; apply H.
Qed.
Lemma sound3 : sound_policy (uid 7) (ch_policy c3).
Proof. pose proof edits as H. by apply history_sound in H as [H _]; apply H. Qed.
Lemma firewall_typed v : definition_typed (firewall v).
Proof. by intros s. Qed.

Lemma c1_typed : definition_typed (p_definition (ch_policy c1)).
Proof.
  assert (action_schedule (d_action (p_definition (ch_policy c1))) = None) as H by (vm_compute; reflexivity).
  intros s Hs. congruence.
Qed.

Lemma policy_history_witness : p_revision (ch_policy c3) = 3 /\ versions [ch_policy c3; ch_policy c2; ch_policy c1] 2 (uid 102).
Proof.
  destruct (policy_history (uid 7) _ _ edits) as (_ & Hr & Hv). split; [exact Hr|].
  assert (p_number (ch_policy c3) = 2 /\ p_version (ch_policy c3) = uid 102) as [Hn Hi] by (split; vm_compute; reflexivity).
  rewrite Hn, Hi in Hv. exact Hv.
Defined.
Lemma version_identifies_content_witness : same_content c3 c2 /\ new_content c1 c3.
Proof.
  split.
  - apply (version_identifies_content (uid 7) _ _ c3 c2 edits); [by left|by right; left|vm_compute; reflexivity].
  - apply (version_identifies_content (uid 7) _ _ c1 c3 edits); [by do 2 right; left|by left|vm_compute; reflexivity].
Defined.
Lemma lifecycle_transitions_witness :
  transition (Some (p_state (ch_policy c2))) Archive (p_state (ch_policy c3)) /\ apply_to c3 3 Enable 104 = Err Conflict.
Proof.
  split.
  - exact (proj1 (lifecycle_transitions (uid 7) (Some (ch_policy c2)) 2 Archive (uid 103) None ltac:(lia)) c3 h3).
  - apply (proj2 (lifecycle_transitions (uid 7) (Some (ch_policy c3)) 3 Enable (uid 104) None ltac:(lia)) _ eq_refl);
      [apply sound3|reflexivity|vm_compute; reflexivity].
Defined.
Lemma compare_and_set_witness : apply_to c3 2 Disable 104 = Err Conflict.
Proof.
  assert (forall p, Some (ch_policy c2) = Some p -> sound_policy (uid 7) p) as Hs by
    (intros p Hp; apply (inj Some) in Hp; subst p; apply sound2).
  exact (proj2 (proj2 (compare_and_set (uid 7) _ 2 Archive (uid 103) None c3 ltac:(lia) Hs h3))
    Disable (uid 104) None eq_refl).
Defined.
Lemma presentation_keeps_version_witness : p_version (ch_policy c3) = p_version (ch_policy c2).
Proof. exact (proj1 (proj2 (presentation_keeps_version (uid 7) (ch_policy c2) 2 Archive (uid 103) None c3 ltac:(lia) h3 I))). Defined.
Lemma policy_apply_never_panics_witness : no_panic (apply_to c1 1 (Put (firewall (lit "v2")) false) 102).
Proof.
  apply policy_apply_never_panics.
  - intros d Hd. apply (inj Some) in Hd. subst d. apply firewall_typed.
  - intros p Hp. apply (inj Some) in Hp. subst p. apply c1_typed.
Defined.
End Witnesses.
