(* ===== verification/QueryParser.v ===== *)
(** * Query filters ([crates/query/src/{lib,parser}.rs])

    The filter syntax tree and its recursive-descent parser with the node, depth, set and
    value budgets.  The recursion of [logical] and [atom] is bounded by the depth budget
    ([logical_fuel] is enough for every depth); the loops are bounded by the input. *)
From S2P Require Import Prelude Ordered Text.

(** ** [lib.rs] *)
Inductive Error : Type := Invalid | Budget | CursorInvalidated.
#[export] Instance Error_eq_dec : EqDecision Error.
Proof. solve_decision. Defined.
Inductive Operator : Type :=
| Eq_ | Ne | Lt_ | Le | Gt_ | Ge | In_ | Out_ | Icontains | Contains | NotContains | ContainsAny
| ContainsAll | IsNull | IsNotNull.
#[export] Instance Operator_eq_dec : EqDecision Operator.
Proof. solve_decision. Defined.
Definition range (o : Operator) : bool :=
  match o with Lt_ | Le | Gt_ | Ge => true | _ => false end.
Definition set (o : Operator) : bool :=
  match o with In_ | Out_ | ContainsAny | ContainsAll => true | _ => false end.
Inductive Expression (F V : Type) : Type :=
| Compare (field : F) (operator : Operator) (values : list V)
| And (children : list (Expression F V))
| Or (children : list (Expression F V)).
Arguments Compare {F V} _ _ _.
Arguments And {F V} _.
Arguments Or {F V} _.
Record Sort : Type := mk_Sort { so_field : rstr; so_descending : bool }.
#[export] Instance Sort_eq_dec : EqDecision Sort.
Proof. solve_decision. Defined.
Definition DEFAULT_PAGE_LIMIT : Z := 1000.
Definition MAX_PAGE_LIMIT : Z := 1000.
Definition MAX_RAW_QUERY_BYTES : Z := 16 * 1024.
Definition MAX_FILTER_BYTES : Z := 8 * 1024.
(** [CatalogQuery]: its budgets. *)
Record CatalogQuery : Type := mk_CatalogQuery { max_fields : Z; max_sort : Z }.
Definition CatalogQuery_validate (q : CatalogQuery) (fields sort : Z) : res Error () :=
  reject ((max_fields q <? fields) || (max_sort q <? sort)) Budget.

(** ** The parser state: [rest] is [&input[offset..]], which the source recomputes *)
Notation Expr := (Expression (list Z) (list Z)) (only parsing).
Record Parser : Type := mk_Parser { rest : rstr; nodes : Z; set_items : Z }.
Definition with_rest (p : Parser) (r : rstr) : Parser := mk_Parser r (nodes p) (set_items p).
(** [eat]: [None] is [false]. *)
Definition eat (p : Parser) (c : Z) : option Parser :=
  match rest p with
  | c' :: r => if c =? c' then Some (with_rest p r) else None
  | [] => None
  end.
Definition node (p : Parser) : res Error Parser :=
  _ ← reject (128 <=? nodes p) Budget;
  Ok (mk_Parser (rest p) (nodes p + 1) (set_items p)).

(** ** Values *)
Definition is_quote (c : Z) : bool := (c =? 39) || (c =? 34).
Definition is_escapable (c : Z) : bool := bool_decide (c ∈ [92; 39; 34; 44; 59; 40; 41]).
Definition ends_bare (c : Z) : bool := bool_decide (c ∈ [44; 59; 41]).
Definition bare_invalid (c : Z) : bool :=
  is_whitespace c || bool_decide (c ∈ [40; 39; 34; 61; 33; 60; 62]).
(** The tail of the loop body: check and push one character. *)
Definition push (quote : option Z) (result : rstr) (c : Z) : res Error rstr :=
  _ ← reject (is_control c || match quote with None => c =? 42 | Some _ => false end) Invalid;
  _ ← reject (1024 <? str_len result + len_utf8 c) Budget;
  Ok (result ++ [c]).
Definition is_none {A} (o : option A) : bool := match o with None => true | Some _ => false end.
(** The [while let] loop: the characters left, [closed] and the result. *)
Fixpoint value_loop (quote : option Z) (r : rstr) (result : rstr) : res Error (rstr * bool * rstr) :=
  match r with
  | [] => Ok ([], is_none quote, result)
  | c :: r' =>
      if bool_decide (quote = Some c) then Ok (r', true, result) else
      if is_none quote && ends_bare c then Ok (r, is_none quote, result) else
      if c =? 92 then
        match r' with
        | [] => Err Invalid
        | escaped :: r'' =>
            _ ← reject (negb (is_escapable escaped)) Invalid;
            result ← push quote result escaped;
            value_loop quote r'' result
        end
      else
        _ ← reject (is_none quote && bare_invalid c) Invalid;
        result ← push quote result c;
        value_loop quote r' result
  end.
Definition value (p : Parser) : res Error (rstr * Parser) :=
  let quote := match rest p with c :: _ => if is_quote c then Some c else None | [] => None end in
  let r := if is_none quote then rest p else drop 1 (rest p) in
  out ← value_loop quote r [];
  let '(r, closed, result) := out in
  _ ← reject (negb closed || (is_none quote && is_empty result)) Invalid;
  Ok (result, with_rest p r).

(** ** Comparisons *)
Definition is_field_char (b : Z) : bool := is_ascii_alphanumeric b || (b =? 95) || (b =? 46).
Fixpoint take_while (f : Z -> bool) (r : rstr) : rstr * rstr :=
  match r with
  | c :: r' => if f c then let '(a, b) := take_while f r' in (c :: a, b) else ([], r)
  | [] => ([], [])
  end.
Definition operators : list (rstr * Operator) :=
  [(lit "==", Eq_); (lit "!=", Ne); (lit "=lt=", Lt_); (lit "=le=", Le); (lit "=gt=", Gt_);
   (lit "=ge=", Ge); (lit "=in=", In_); (lit "=out=", Out_); (lit "=icontains=", Icontains);
   (lit "=contains=", Contains); (lit "=notcontains=", NotContains);
   (lit "=containsany=", ContainsAny); (lit "=containsall=", ContainsAll);
   (lit "=isnull=", IsNull); (lit "=isnotnull=", IsNotNull)].
(** The first operator whose token starts the text, with the text after it. *)
Fixpoint find_operator (table : list (rstr * Operator)) (r : rstr) : option (Operator * rstr) :=
  match table with
  | [] => None
  | (token, operator) :: table =>
      match strip_prefix token r with
      | Some r' => Some (operator, r')
      | None => find_operator table r
      end
  end.
Fixpoint set_loop (fuel : nat) (p : Parser) (values : list rstr) : res Error (list rstr * Parser) :=
  match fuel with
  | O => Panic
  | S fuel =>
      _ ← reject ((64 <=? zlen values) || (256 <=? set_items p)) Budget;
      out ← value (mk_Parser (rest p) (nodes p) (set_items p + 1));
      let values := values ++ [out.1] in
      match eat out.2 41 with
      | Some p => Ok (values, p)
      | None => p ← ok_or (eat out.2 44) Invalid; set_loop fuel p values
      end
  end.
Definition values_of (operator : Operator) (p : Parser) : res Error (list rstr * Parser) :=
  if set operator then
    p ← ok_or (eat p 40) Invalid;
    set_loop (S (length (rest p))) p []
  else
    out ← value p; Ok ([out.1], out.2).
Definition comparison (p : Parser) : res Error (Expr * Parser) :=
  p ← node p;
  let '(field, r) := take_while is_field_char (rest p) in
  _ ← reject (is_empty field || (128 <? zlen field)) Invalid;
  op ← ok_or (find_operator operators r) Invalid;
  out ← values_of op.1 (with_rest p op.2);
  Ok (Compare field op.1 out.1, out.2).

(** ** Precedence *)
Definition separator (precedence : Z) : Z := if precedence =? 0 then 44 else 59.
Definition junction (precedence : Z) (children : list Expr) : Expr :=
  if precedence =? 0 then Or children else And children.
Fixpoint separated (fuel : nat) (item : Parser -> res Error (Expr * Parser)) (sep : Z)
    (p : Parser) (children : list Expr) : res Error (list Expr * Parser) :=
  match fuel with
  | O => Panic
  | S fuel =>
      out ← item p;
      let children := children ++ [out.1] in
      match eat out.2 sep with
      | None => Ok (children, out.2)
      | Some p => separated fuel item sep p children
      end
  end.
Fixpoint logical (fuel : nat) (precedence depth : Z) (p : Parser) : res Error (Expr * Parser) :=
  match fuel with
  | O => Panic
  | S fuel =>
      if 16 <? depth then Err Budget else
      if precedence =? 2 then
        (* [atom] *)
        match eat p 40 with
        | Some p =>
            _ ← reject (depth =? 16) Budget;
            inner ← logical fuel 0 (depth + 1) p;
            p ← ok_or (eat inner.2 41) Invalid;
            Ok (inner.1, p)
        | None => comparison p
        end
      else
        first ← logical fuel (precedence + 1) depth p;
        match eat first.2 (separator precedence) with
        | None => Ok first
        | Some p =>
            p ← node p;
            out ← separated (S (length (rest p))) (logical fuel (precedence + 1) depth)
                    (separator precedence) p [first.1];
            Ok (junction precedence out.1, out.2)
        end
  end.
(** Depth 0 to 16, three precedences each. *)
Definition logical_fuel : nat := 51.
Definition parse (input : rstr) : res Error Expr :=
  _ ← reject (MAX_FILTER_BYTES <? str_len input) Budget;
  out ← logical logical_fuel 0 0 (mk_Parser input 0 0);
  _ ← reject (negb (is_empty (rest out.2))) Invalid;
  Ok out.1.
