(* ===== verification/QuerySpec.v ===== *)
(** * What a filter means as text

    Sizes and well-formedness of filter expressions, a printer, and the two halves of the
    parser's contract: every accepted expression is within the budgets, and every
    expression within the budgets is parsed back from its print. *)
From S2P Require Import Prelude Ordered Text QueryParser.

Section Induction.
Context {F V : Type} (P : Expression F V -> Prop).
Hypothesis Hcompare : forall f o vs, P (Compare f o vs).
Hypothesis Hand : forall l, Forall P l -> P (And l).
Hypothesis Hor : forall l, Forall P l -> P (Or l).
Fixpoint expression_ind' (e : Expression F V) : P e :=
  match e with
  | Compare f o vs => Hcompare f o vs
  | And l => Hand l (list_ind (Forall P) (Forall_nil_2 P)
      (fun c l IH => Forall_cons_2 P c l (expression_ind' c) IH) l)
  | Or l => Hor l (list_ind (Forall P) (Forall_nil_2 P)
      (fun c l IH => Forall_cons_2 P c l (expression_ind' c) IH) l)
  end.
End Induction.

(** ** Sizes *)
Definition sum (l : list Z) : Z := foldr Z.add 0 l.
Definition maximum (l : list Z) : Z := foldr Z.max 0 l.
Fixpoint expr_nodes (e : Expr) : Z :=
  match e with
  | Compare _ _ _ => 1
  | And l | Or l => 1 + sum (map expr_nodes l)
  end.
Fixpoint expr_items (e : Expr) : Z :=
  match e with
  | Compare _ o vs => if set o then zlen vs else 0
  | And l | Or l => sum (map expr_items l)
  end.
Fixpoint expr_height (e : Expr) : Z :=
  match e with
  | Compare _ _ _ => 0
  | And l | Or l => 1 + maximum (map expr_height l)
  end.
(** ** Well-formed expressions *)
Definition value_ok (v : rstr) : Prop := has_control v = false /\ str_len v <= 1024.
Definition compare_ok (f : rstr) (o : Operator) (vs : list rstr) : Prop :=
  is_empty f = false /\ zlen f <= 128 /\ forallb is_field_char f = true /\
  Forall value_ok vs /\ (if set o then 1 <= zlen vs <= 64 else zlen vs = 1).
Inductive expr_ok : Expr -> Prop :=
| Compare_ok f o vs : compare_ok f o vs -> expr_ok (Compare f o vs)
| And_ok l : 2 <= zlen l -> Forall expr_ok l -> expr_ok (And l)
| Or_ok l : 2 <= zlen l -> Forall expr_ok l -> expr_ok (Or l).

Lemma sum_cons x l : sum (x :: l) = x + sum l.
Proof. done. Qed.
Lemma sum_app l l' : sum (l ++ l') = sum l + sum l'.
Proof. induction l as [|x l IH]; simpl; [done|]. unfold sum in *. lia. Qed.
Lemma sum_nonneg {A} (f : A -> Z) l : (forall x, x ∈ l -> 0 <= f x) -> 0 <= sum (map f l).
Proof.
  induction l as [|x l IH]; simpl; intros H; [lia|].
  assert (0 <= f x) by (apply H; by left).
  assert (0 <= sum (map f l)) by (apply IH; intros; apply H; by right). unfold sum in *. lia.
Qed.
Lemma maximum_le l b : 0 <= b -> (forall x, x ∈ l -> x <= b) -> maximum l <= b.
Proof.
  intros Hb. induction l as [|x l IH]; simpl; intros H; [done|].
  assert (x <= b) by (apply H; by left).
  assert (maximum l <= b) by (apply IH; intros; apply H; by right). unfold maximum in *. lia.
Qed.
Lemma maximum_ge l x : x ∈ l -> x <= maximum l.
Proof.
  induction l as [|y l IH]; [by intros ?%not_elem_of_nil|]. simpl. intros [->|H]%elem_of_cons; [lia|].
  specialize (IH H). unfold maximum in *. lia.
Qed.
Lemma expr_nodes_pos e : 1 <= expr_nodes e.
Proof.
  induction e as [| l IH | l IH] using expression_ind'; simpl; [lia|..];
    (assert (0 <= sum (map expr_nodes l)); [|lia]; apply sum_nonneg; intros x Hx;
     rewrite Forall_forall in IH; specialize (IH x Hx); lia).
Qed.
Lemma expr_items_nonneg e : 0 <= expr_items e.
Proof.
  induction e as [f o vs| l IH | l IH] using expression_ind'; simpl;
    [destruct (set o); [apply zlen_nonneg|lia]|..];
    (apply sum_nonneg; by rewrite Forall_forall in IH).
Qed.

(** ** Accepted text is within the budgets *)
(** What one call of a parser of the precedence levels consumes and produces. *)
Record step (bound : Z) (p : Parser) (e : Expr) (p' : Parser) : Prop := {
  step_rest : (length (rest p') <= length (rest p))%nat;
  step_nodes : nodes p' = nodes p + expr_nodes e;
  step_items : set_items p' = set_items p + expr_items e;
  step_ok : expr_ok e;
  step_height : expr_height e <= bound;
  step_budget : nodes p' <= 128 /\ (set_items p <= 256 -> set_items p' <= 256)
}.
Definition sound_item (bound : Z) (item : Parser -> res Error (Expr * Parser)) : Prop :=
  forall p, no_panic (item p) /\ forall e p', item p = Ok (e, p') -> step bound p e p'.

Lemma eat_some p c p' : eat p c = Some p' <-> rest p = c :: rest p' /\ nodes p' = nodes p /\ set_items p' = set_items p.
Proof.
  unfold eat, with_rest. destruct p as [r n m], p' as [r' n' m']; simpl. destruct r as [|c' r]; [naive_solver|].
  destruct (Z.eqb_spec c c'); naive_solver.
Qed.
Lemma node_ok p p' : node p = Ok p' <-> nodes p < 128 /\ p' = mk_Parser (rest p) (nodes p + 1) (set_items p).
Proof.
  unfold node. rewrite bind_ok. split.
  - intros ([] & H & [= <-]). apply reject_ok in H. by bool_hyps.
  - intros [H ->]. exists (). split; [apply reject_ok; by apply Z.leb_gt|done].
Qed.
Lemma node_no_panic p : no_panic (node p).
Proof. apply bind_no_panic; auto with rust. done. Qed.

Lemma push_ok quote result c out :
  push quote result c = Ok out -> value_ok result -> value_ok out.
Proof.
  unfold push, value_ok, has_control. intros H [Hc _]. inv_ok. bool_hyps.
  rewrite existsb_app, Hc, str_len_app, str_len_cons. cbn [existsb str_len]. change (str_len []) with 0.
  split; [|lia]. by rewrite orb_false_r.
Qed.
Lemma push_no_panic quote result c : no_panic (push quote result c).
Proof. unfold push. do 2 (apply bind_no_panic; [auto with rust|intros _ _]). done. Qed.
Lemma value_loop_ok quote r result r' closed out :
  value_loop quote r result = Ok (r', closed, out) -> value_ok result ->
  value_ok out /\ (length r' <= length r)%nat.
Proof.
  remember (length r) as k eqn:Hk. revert r result Hk.
  induction k as [k IH] using lt_wf_ind. intros r result -> H Hv.
  destruct r as [|c r]; simpl in H; inv_ok; [split; [done|simpl; lia]|].
  destruct (bool_decide _); inv_ok; [split; [done|simpl; lia]|].
  destruct (is_none quote && ends_bare c); inv_ok; [split; [done|simpl; lia]|].
  destruct (c =? 92).
  - destruct r as [|escaped r]; inv_ok. apply push_ok in E0; [|done].
    apply (IH (length r)) in H as [? ?]; [|simpl; lia|done|done]. split; [done|simpl in *; lia].
  - inv_ok. apply push_ok in E0; [|done].
    apply (IH (length r)) in H as [? ?]; [|simpl; lia|done|done]. split; [done|simpl in *; lia].
Qed.
Lemma value_loop_no_panic quote r result : no_panic (value_loop quote r result).
Proof.
  remember (length r) as k eqn:Hk. revert r result Hk.
  induction k as [k IH] using lt_wf_ind. intros r result ->. destruct r as [|c r]; simpl; [done|]. destruct (bool_decide _); [done|].
  destruct (is_none quote && ends_bare c); [done|]. destruct (c =? 92).
  - destruct r as [|escaped r]; [done|]. apply bind_no_panic; [auto with rust|intros _ _].
    apply bind_no_panic; [apply push_no_panic|intros]. apply (IH (length r)); [simpl; lia|done].
  - apply bind_no_panic; [auto with rust|intros _ _].
    apply bind_no_panic; [apply push_no_panic|intros]. apply (IH (length r)); [simpl; lia|done].
Qed.
Lemma value_no_panic p : no_panic (value p).
Proof.
  unfold value. apply bind_no_panic; [apply value_loop_no_panic|intros [[r closed] result] _].
  apply bind_no_panic; [auto with rust|done].
Qed.
Lemma value_ok_step p v p' :
  value p = Ok (v, p') ->
  value_ok v /\ (length (rest p') <= length (rest p))%nat /\ nodes p' = nodes p /\ set_items p' = set_items p.
Proof.
  unfold value. intros H. apply bind_ok in H as ([[r closed] result] & Hl & H). inv_ok. simpl.
  apply value_loop_ok in Hl as [Hv Hlen]; [|done]. split_and!; try done.
  destruct (is_none _); [done|]. rewrite length_drop in Hlen. lia.
Qed.
Lemma set_loop_spec fuel p values :
  (length (rest p) < fuel)%nat ->
  no_panic (set_loop fuel p values) /\
  forall vs p', set_loop fuel p values = Ok (vs, p') -> Forall value_ok values ->
    Forall value_ok vs /\ zlen values < zlen vs <= 64 /\ nodes p' = nodes p /\
    set_items p' = set_items p + zlen vs - zlen values /\ set_items p' <= 256 /\
    (length (rest p') <= length (rest p))%nat.
Proof.
  revert p values. induction fuel as [|fuel IH]; intros p values Hf; [lia|]. simpl. split.
  - apply bind_no_panic; [auto with rust|intros _ _]. apply bind_no_panic; [apply value_no_panic|].
    intros [v p1] Hv%value_ok_step. simpl in *. destruct Hv as (_ & Hlen & _).
    destruct (eat p1 41); [done|]. apply bind_no_panic; [auto with rust|]. intros p2 H2.
    apply ok_or_ok, eat_some in H2 as (H2 & _). rewrite H2 in Hlen. simpl in Hlen. apply IH. lia.
  - intros vs p' H Hok. inv_ok. destruct a0 as [v p1]. bool_hyps.
    apply value_ok_step in E0 as (Hv & Hlen & Hn & Hs). simpl in *.
    assert (Forall value_ok (values ++ [v])) as Hok' by (apply Forall_app; auto).
    assert (zlen (values ++ [v]) = zlen values + 1) as Hz by (by rewrite zlen_app).
    destruct (eat p1 41) as [p2|] eqn:E41; [inv_ok|apply bind_ok in H as (p2 & Hc & H); apply ok_or_ok in Hc].
    + apply eat_some in E41 as (E41 & Hn2 & Hs2). rewrite E41 in Hlen. simpl in Hlen.
      split_and!; try done; try lia.
    + apply eat_some in Hc as (E44 & Hn2 & Hs2). rewrite E44 in Hlen. simpl in Hlen.
      apply IH in H as (? & ? & ? & ? & ? & ?); [|lia|done]. split_and!; try done; try lia.
Qed.
Lemma take_while_spec f r a b :
  take_while f r = (a, b) -> r = a ++ b /\ forallb f a = true.
Proof.
  revert a b. induction r as [|c r IH]; intros a b H; simpl in H; [by injection H as <- <-|].
  destruct (f c) eqn:Ec; [|by injection H as <- <-].
  destruct (take_while f r) as [a' b'] eqn:E. injection H as <- <-.
  destruct (IH _ _ eq_refl) as [-> Ha]. simpl. by rewrite Ec, Ha.
Qed.
Lemma find_operator_length table r o r' : find_operator table r = Some (o, r') -> (length r' <= length r)%nat.
Proof.
  assert (forall p s s', strip_prefix p s = Some s' -> (length s' <= length s)%nat) as Hstrip.
  { induction p as [|x p IH]; intros s s' H; [simpl in H; by injection H as ->|].
    destruct s as [|y s]; simpl in H; [done|]. destruct (x =? y); [|done]. apply IH in H. simpl. lia. }
  induction table as [|[token o'] table IH]; simpl; [done|].
  destruct (strip_prefix token r) eqn:E; [intros [= <- <-]; by eapply Hstrip|done].
Qed.
Lemma comparison_sound : sound_item 0 comparison.
Proof.
  intros p. unfold comparison. split.
  - apply bind_no_panic; [apply node_no_panic|intros p1 _].
    destruct (take_while _ _) as [f r]. apply bind_no_panic; [auto with rust|intros _ _].
    apply bind_no_panic; [auto with rust|intros [o r'] _]. apply bind_no_panic; [|done].
    unfold values_of. simpl. destruct (set o).
    + apply bind_no_panic; [auto with rust|intros p2 _]. exact (proj1 (set_loop_spec (S (length (rest p2))) p2 [] ltac:(lia))).
    + apply bind_no_panic; [apply value_no_panic|done].
  - intros e p' H. apply bind_ok in H as (p1 & Hn & H). apply node_ok in Hn as [Hn ->].
    destruct (take_while _ _) as [f r] eqn:Et. apply take_while_spec in Et as [Hr Hf]. simpl in Hr.
    apply bind_ok in H as (u & Hlen & H). apply reject_ok in Hlen.
    apply bind_ok in H as ([o r'] & Ho & H). apply ok_or_ok, find_operator_length in Ho. simpl in H.
    apply bind_ok in H as ([vs p2] & Hvs & H). injection H as <- <-. bool_hyps. simpl.
    assert (length (rest p) = (length f + length r)%nat) as Hl by (by rewrite Hr, length_app).
    unfold values_of in Hvs. destruct (set o) eqn:Es.
    + apply bind_ok in Hvs as (p3 & He & Hvs). apply ok_or_ok, eat_some in He as (He & Hn3 & Hs3).
      simpl in *. subst r'. simpl in Ho. pose proof (set_loop_spec (S (length (rest p3))) p3 [] ltac:(lia)) as [_ Hspec].
      specialize (Hspec _ _ Hvs (Forall_nil_2 _)). change (zlen (@nil rstr)) with 0 in Hspec.
      destruct Hspec as (Hv & Hz & Hn2 & Hs2 & Hb & Hr2). constructor; simpl; rewrite ?Es; try lia.
      constructor. split_and!; try done. rewrite Es. lia.
    + apply bind_ok in Hvs as ([v p3] & Hv & Hvs). injection Hvs as <- <-.
      apply value_ok_step in Hv as (Hv & Hlen & Hn3 & Hs3). simpl in *.
      constructor; simpl; rewrite ?Es; try lia.
      constructor. split_and!; try done; [by constructor|by rewrite Es].
Qed.

(** Lists of operands: sums over the children. *)
Record steps (bound : Z) (p : Parser) (l : list Expr) (p' : Parser) : Prop := {
  steps_rest : (length (rest p') <= length (rest p))%nat;
  steps_nodes : nodes p' = nodes p + sum (map expr_nodes l);
  steps_items : set_items p' = set_items p + sum (map expr_items l);
  steps_ok : Forall expr_ok l;
  steps_height : forall e, e ∈ l -> expr_height e <= bound;
  steps_budget : nodes p' <= 128 /\ (set_items p <= 256 -> set_items p' <= 256);
  steps_some : 1 <= zlen l
}.
Lemma separated_sound bound item sep fuel p children :
  sound_item bound item -> (length (rest p) < fuel)%nat ->
  no_panic (separated fuel item sep p children) /\
  forall l p', separated fuel item sep p children = Ok (l, p') ->
    exists l', l = children ++ l' /\ steps bound p l' p'.
Proof.
  intros Hitem. revert p children. induction fuel as [|fuel IH]; intros p children Hf; [lia|].
  cbn [separated]. destruct (Hitem p) as [Hnp Hstep]. split.
  - apply bind_no_panic; [done|]. intros [e p1] He%Hstep. simpl.
    destruct (eat p1 sep) as [p2|] eqn:E; [|done]. apply eat_some in E as (E & _).
    destruct He as [Hlen _ _ _ _ _]. rewrite E in Hlen. simpl in Hlen. apply IH. lia.
  - intros l p' H. apply bind_ok in H as ([e p1] & He & H). apply Hstep in He as [Hr Hn Hs Ho Hh Hb].
    simpl in H. destruct (eat p1 sep) as [p2|] eqn:E.
    + apply eat_some in E as (E & En & Es). rewrite E in Hr. simpl in Hr.
      apply IH in H as (l' & -> & [Hr' Hn' Hs' Ho' Hh' Hb' Hsome]); [|lia].
      exists (e :: l'). rewrite <-app_assoc. split; [done|].
      constructor; simpl; try lia; [by constructor| |rewrite zlen_cons; lia].
      intros x [->|Hx]%elem_of_cons; auto.
    + injection H as <- <-. exists [e]. split; [done|]. constructor; simpl; try lia; [by constructor| |done].
      by intros x ->%list_elem_of_singleton.
Qed.
(** The height a level may reach: two junctions per depth. *)
Definition level_bound (precedence depth : Z) : Z := 2 * (16 - depth) + 2 - precedence.
Lemma logical_sound fuel precedence depth :
  0 <= precedence <= 2 -> 0 <= depth <= 16 ->
  3 * (16 - depth) + 3 - precedence <= Z.of_nat fuel ->
  sound_item (level_bound precedence depth) (logical fuel precedence depth).
Proof.
  revert precedence depth. induction fuel as [|fuel IH]; intros r d Hr Hd Hf p; [lia|].
  cbn [logical]. rewrite (proj2 (Z.ltb_ge 16 d)) by lia. destruct (Z.eqb_spec r 2) as [->|Hr2].
  - destruct (eat p 40) as [p1|] eqn:E.
    + apply eat_some in E as (E & En & Es). destruct (Z.eqb_spec d 16) as [->|Hd16]; [by simpl|].
      destruct (IH 0 (d + 1) ltac:(lia) ltac:(lia) ltac:(lia) p1) as [Hnp Hstep]. cbn [reject mbind res_bind].
      split.
      * apply bind_no_panic; [done|]. intros. apply bind_no_panic; auto with rust. done.
      * intros e p' H. apply bind_ok in H as ([e1 p2] & H1 & H). apply Hstep in H1 as [Hr1 Hn Hs Ho Hh Hb].
        apply bind_ok in H as (p3 & He & [= <- <-]). apply ok_or_ok, eat_some in He as (He & En3 & Es3).
        simpl in *. rewrite He in Hr1. simpl in Hr1. unfold level_bound in *.
        constructor; try lia; [rewrite E; simpl; lia|done].
    + destruct (comparison_sound p) as [Hnp Hstep]. split; [done|]. intros e p' H%Hstep.
      destruct H. constructor; try done. unfold level_bound. lia.
  - assert (sound_item (level_bound (r + 1) d) (logical fuel (r + 1) d)) as Hitem by (apply IH; lia).
    destruct (Hitem p) as [Hnp Hstep]. split.
    + apply bind_no_panic; [done|]. intros [e p1] _. destruct (eat _ _); [|done].
      apply bind_no_panic; [apply node_no_panic|]. intros p2 _. apply bind_no_panic; [|done].
      exact (proj1 (separated_sound _ _ _ (S (length (rest p2))) p2 [e] Hitem ltac:(lia))).
    + intros e p' H. apply bind_ok in H as ([e1 p1] & H1 & H). apply Hstep in H1 as [Hr1 Hn Hs Ho Hh Hb].
      cbn [fst snd] in H. unfold level_bound in *. destruct (eat p1 (separator r)) as [p2|] eqn:E.
      * apply eat_some in E as (E & En & Es). apply bind_ok in H as (p3 & Hp3 & H).
        apply node_ok in Hp3 as [Hp2 ->]. apply bind_ok in H as ([l p4] & Hl & [= <- <-]).
        apply (separated_sound _ _ _ _ _ _ Hitem) in Hl as (l' & -> & [Hr' Hn' Hs' Ho' Hh' Hb' Hsome]);
          [|simpl; lia]. simpl in *. rewrite E in Hr1. simpl in Hr1.
        assert (maximum (map expr_height (e1 :: l')) <= 2 * (16 - d) + 1 - r) as Hmax.
        { apply maximum_le; [lia|]. intros x Hx. apply elem_of_map in Hx as (y & <- & Hy).
          apply elem_of_cons in Hy as [->|Hy]; [|specialize (Hh' y Hy)]; lia. }
        assert (2 <= zlen (e1 :: l')) by (rewrite zlen_cons; lia).
        unfold junction. destruct (r =? 0); constructor; simpl in *; try lia; constructor; auto.
      * injection H as <- <-. constructor; simpl in *; try done; lia.
Qed.
