(* ===== verification/QueryPrint.v ===== *)
(** * Printing filters

    A printer for filter expressions (quoted values, the fewest parentheses) and the proof
    that the parser reads every well-formed expression back from its print. *)
From S2P Require Import Prelude Ordered Text QueryParser QuerySpec.

(** ** The printer *)
Definition escape (v : rstr) : rstr := v ≫= fun c => if (c =? 34) || (c =? 92) then [92; c] else [c].
Definition print_value (v : rstr) : rstr := 34 :: escape v ++ [34].
Fixpoint join (sep : Z) (l : list rstr) : rstr :=
  match l with
  | [] => []
  | [x] => x
  | x :: l => x ++ sep :: join sep l
  end.
Definition token (o : Operator) : rstr :=
  match List.find (fun e => bool_decide (e.2 = o)) operators with Some e => e.1 | None => [] end.
Definition print_values (o : Operator) (vs : list rstr) : rstr :=
  if set o then 40 :: join 44 (map print_value vs) ++ [41] else join 44 (map print_value vs).
Definition wrap (b : bool) (s : rstr) : rstr := if b then 40 :: s ++ [41] else s.
Fixpoint print (r : Z) (e : Expr) : rstr :=
  match e with
  | Compare f o vs => f ++ token o ++ print_values o vs
  | Or l => wrap (0 <? r) (join 44 (map (print 1) l))
  | And l => wrap (1 <? r) (join 59 (map (print 2) l))
  end.
(** Nesting of the printed parentheses. *)
Fixpoint parens (r : Z) (e : Expr) : Z :=
  match e with
  | Compare _ _ _ => 0
  | Or l => Z.b2z (0 <? r) + maximum (map (parens 1) l)
  | And l => Z.b2z (1 <? r) + maximum (map (parens 2) l)
  end.

(** ** Values *)
Lemma value_ok_cons c v : value_ok (c :: v) -> is_control c = false /\ value_ok v.
Proof.
  unfold value_ok, has_control. simpl. rewrite orb_false_iff, str_len_cons.
  pose proof (len_utf8_pos c). intros [[? ?] ?]. split_and!; try done. lia.
Qed.
Lemma push_quoted acc c :
  is_control c = false -> str_len acc + len_utf8 c <= 1024 -> push (Some 34) acc c = Ok (acc ++ [c]).
Proof. intros Hc Hl. unfold push. rewrite Hc. simpl. by rewrite (proj2 (Z.ltb_ge _ _)) by lia. Qed.
Lemma value_loop_print v tail acc :
  has_control v = false -> str_len acc + str_len v <= 1024 ->
  value_loop (Some 34) (escape v ++ 34 :: tail) acc = Ok (tail, true, acc ++ v).
Proof.
  revert acc. induction v as [|c v IH]; intros acc Hc Hl.
  { simpl. by rewrite app_nil_r. }
  unfold has_control in Hc. simpl in Hc. apply orb_false_iff in Hc as [Hcc Hcv]. rewrite str_len_cons in Hl.
  pose proof (str_len_nonneg v) as Hv.
  assert (str_len (acc ++ [c]) = str_len acc + len_utf8 c) as Hacc by
    (rewrite str_len_app, str_len_cons; change (str_len []) with 0; lia).
  replace (acc ++ c :: v) with ((acc ++ [c]) ++ v) by (by rewrite <-app_assoc).
  unfold escape. cbn [mbind list_bind]. rewrite <-app_assoc. fold (escape v).
  destruct ((c =? 34) || (c =? 92)) eqn:Eq.
  - assert (is_escapable c = true) as He.
    { apply orb_true_iff in Eq as [Eq%Z.eqb_eq|Eq%Z.eqb_eq]; subst c; reflexivity. }
    cbn [app value_loop]. rewrite bool_decide_eq_false_2 by (intros [=]). cbn [is_none andb].
    replace (92 =? 92) with true by reflexivity. rewrite He, push_quoted by (done || lia).
    cbn [negb reject mbind res_bind]. apply IH; [done|lia].
  - apply orb_false_iff in Eq as [E1 E2]. cbn [app value_loop].
    apply Z.eqb_neq in E1. rewrite bool_decide_eq_false_2 by (intros [=]; lia). cbn [is_none andb].
    rewrite E2, push_quoted by (done || lia). cbn [negb reject mbind res_bind]. apply IH; [done|lia].
Qed.
Lemma value_print v tail n m :
  value_ok v -> value (mk_Parser (print_value v ++ tail) n m) = Ok (v, mk_Parser tail n m).
Proof.
  intros [Hc Hl]. unfold value, print_value. cbn [rest app]. replace (is_quote 34) with true by reflexivity.
  cbn [is_none drop]. rewrite <-app_assoc. cbn [app]. rewrite drop_0, value_loop_print; [done|done|].
  by change (str_len []) with 0.
Qed.
Lemma join_cons sep x y l : join sep (x :: y :: l) = x ++ sep :: join sep (y :: l).
Proof. done. Qed.
Lemma eat_cons c r n m : eat (mk_Parser (c :: r) n m) c = Some (mk_Parser r n m).
Proof. unfold eat. simpl. by rewrite Z.eqb_refl. Qed.
Lemma eat_ne c c' r n m : c <> c' -> eat (mk_Parser (c' :: r) n m) c = None.
Proof. intros H. unfold eat. simpl. by rewrite (proj2 (Z.eqb_neq c c')). Qed.
Lemma set_loop_print vs : forall v fuel acc tail n m,
  Forall value_ok (v :: vs) -> zlen acc + zlen (v :: vs) <= 64 -> m + zlen (v :: vs) <= 256 ->
  (length vs < fuel)%nat ->
  set_loop fuel (mk_Parser (join 44 (map print_value (v :: vs)) ++ 41 :: tail) n m) acc
  = Ok (acc ++ v :: vs, mk_Parser tail n (m + zlen (v :: vs))).
Proof.
  induction vs as [|w vs IH]; intros v fuel acc tail n m Hok Ha Hm Hf;
    (destruct fuel as [|fuel]; [simpl in Hf; lia|]); apply Forall_cons in Hok as [Hv Hok];
    match type of Hok with Forall _ ?t => pose proof (zlen_nonneg t) as Hlen end;
    rewrite ?zlen_cons in *; cbn [set_loop rest nodes set_items];
    rewrite !(proj2 (Z.leb_gt _ _)) by lia; cbn [orb reject mbind res_bind].
  - cbn [map join]. by rewrite value_print.
  - cbn [map]. rewrite join_cons, <-app_assoc. cbn [app]. rewrite value_print by done.
    cbn [mbind res_bind fst snd]. rewrite eat_ne, eat_cons by done. cbn [ok_or mbind res_bind].
    change (print_value w :: map print_value vs) with (map print_value (w :: vs)).
    rewrite IH, <-app_assoc; [|done|
      rewrite zlen_app, !zlen_cons; change (zlen (@nil rstr)) with 0; lia|rewrite zlen_cons; lia|simpl in Hf; lia].
    cbn [app]. rewrite ?zlen_cons. by rewrite !Z.add_assoc.
Qed.

Lemma join_length sep x l : (length l <= length (join sep (x :: l)))%nat.
Proof.
  revert x. induction l as [|y l IH]; intros x; [simpl; lia|].
  rewrite join_cons, length_app. specialize (IH y). simpl in *. lia.
Qed.

(** ** Comparisons *)
Lemma take_while_app f a c r :
  forallb f a = true -> f c = false -> take_while f (a ++ c :: r) = (a, c :: r).
Proof.
  intros Ha Hc. induction a as [|x a IH]; simpl; [by rewrite Hc|].
  simpl in Ha. apply andb_true_iff in Ha as [-> Ha]. by rewrite IH.
Qed.
Lemma find_operator_token o t : find_operator operators (token o ++ t) = Some (o, t).
Proof. by destruct o. Qed.
Lemma token_head o : exists c r, token o = c :: r /\ is_field_char c = false.
Proof. destruct o; eexists _, _; split; reflexivity. Qed.
Lemma field_head f : is_empty f = false -> forallb is_field_char f = true ->
  exists c r, f = c :: r /\ c <> 40.
Proof.
  destruct f as [|c r]; [done|]. simpl. intros _ [Hc _]%andb_true_iff. eexists _, _.
  split; [done|]. by intros ->.
Qed.
Lemma comparison_print f o vs tail n m :
  compare_ok f o vs -> n < 128 -> m + expr_items (Compare f o vs) <= 256 ->
  comparison (mk_Parser (print 2 (Compare f o vs) ++ tail) n m)
  = Ok (Compare f o vs, mk_Parser tail (n + 1) (m + expr_items (Compare f o vs))).
Proof.
  intros (He & Hl & Hf & Hv & Ho) Hn Hm. unfold comparison, node. cbn [rest nodes set_items].
  rewrite (proj2 (Z.leb_gt _ _)) by lia. cbn [reject mbind res_bind rest nodes set_items print].
  rewrite <-!app_assoc. destruct (token_head o) as (c & r & Ht & Hc).
  assert (token o ++ print_values o vs ++ tail = c :: (r ++ print_values o vs ++ tail)) as Hsplit by
    (by rewrite Ht).
  rewrite Hsplit, take_while_app, <-Hsplit, He, (proj2 (Z.ltb_ge 128 _)) by (done || lia).
  cbn [orb reject mbind res_bind]. rewrite find_operator_token. cbn [ok_or mbind res_bind fst snd with_rest nodes set_items].
  unfold values_of, print_values, with_rest. cbn [nodes set_items]. simpl in Hm. cbn [expr_items]. destruct (set o).
  - cbn [app]. rewrite eat_cons. cbn [ok_or mbind res_bind rest]. rewrite <-app_assoc. cbn [app].
    destruct vs as [|v vs]; [change (zlen (@nil rstr)) with 0 in Ho; lia|].
    rewrite set_loop_print; [done|done|change (zlen (@nil rstr)) with 0; lia|lia|].
    rewrite length_app. cbn [map]. pose proof (join_length 44 (print_value v) (map print_value vs)) as Hj.
    rewrite length_map in Hj. lia.
  - destruct vs as [|v [|w vs]]; [by change (zlen (@nil rstr)) with 0 in Ho| |rewrite !zlen_cons in Ho;
      pose proof (zlen_nonneg vs); lia].
    apply Forall_cons in Hv as [Hv _]. cbn [map join]. rewrite value_print by done.
    cbn [mbind res_bind fst snd]. by rewrite Z.add_0_r.
Qed.

(** ** Precedence levels *)
(** What may follow an operand of a level without being read as part of it. *)
Definition follows (r : Z) (tail : rstr) : Prop :=
  match tail with
  | [] => True
  | c :: _ => (r = 0 -> c <> 44) /\ (r <= 1 -> c <> 59)
  end.
Definition parses (r : Z) (e : Expr) : Prop := forall fuel d tail n m,
  3 * (16 - d) + 3 - r <= Z.of_nat fuel -> 0 <= d -> d + parens r e <= 16 ->
  n + expr_nodes e <= 128 -> m + expr_items e <= 256 -> follows r tail ->
  logical fuel r d (mk_Parser (print r e ++ tail) n m)
  = Ok (e, mk_Parser tail (n + expr_nodes e) (m + expr_items e)).
Lemma parens_nonneg r e : 0 <= parens r e.
Proof.
  assert (forall l, 0 <= maximum l) as Hmax by (induction l as [|x l IH]; simpl; unfold maximum in *; lia).
  destruct e; simpl; [lia|..]; specialize (Hmax (map (parens 2) children)) as H2;
    specialize (Hmax (map (parens 1) children)) as H1; destruct (_ <? _); simpl; lia.
Qed.
Lemma eat_follows r tail n m :
  0 <= r <= 1 -> follows r tail -> eat (mk_Parser tail n m) (separator r) = None.
Proof.
  intros Hr Hf. destruct tail as [|c tail]; [done|]. apply eat_ne. unfold separator.
  destruct Hf as [H0 H1]. destruct (Z.eqb_spec r 0) as [->|Hne]; [|]; intros <-; [by apply H0|by apply H1; lia].
Qed.
Lemma logical_unfold fuel r d p : r <> 2 -> d <= 16 ->
  logical (S fuel) r d p =
    (first ← logical fuel (r + 1) d p;
     match eat first.2 (separator r) with
     | None => Ok first
     | Some p =>
         p ← node p;
         out ← separated (S (length (rest p))) (logical fuel (r + 1) d) (separator r) p [first.1];
         Ok (junction r out.1, out.2)
     end).
Proof.
  intros Hr Hd. cbn [logical]. rewrite (proj2 (Z.ltb_ge 16 d)) by lia.
  by rewrite (proj2 (Z.eqb_neq r 2)).
Qed.
Lemma parses_lift r e :
  0 <= r <= 1 -> print r e = print (r + 1) e -> parens r e = parens (r + 1) e ->
  parses (r + 1) e -> parses r e.
Proof.
  intros Hr Hp Hd He fuel d tail n m Hf H0 Hpar Hn Hm Hfol.
  destruct fuel as [|fuel]; [pose proof (parens_nonneg r e); lia|].
  pose proof (parens_nonneg r e). rewrite logical_unfold by lia.
  rewrite Hp, He; [|lia|lia|lia|lia|lia|].
  - cbn [mbind res_bind snd]. by rewrite eat_follows.
  - destruct tail as [|c tail]; [done|]. destruct Hfol as [_ Hs]. split; [lia|]. intros. apply Hs. lia.
Qed.
Lemma parses_paren e :
  print 2 e = 40 :: print 0 e ++ [41] -> parens 2 e = 1 + parens 0 e -> parses 0 e -> parses 2 e.
Proof.
  intros Hp Hd He fuel d tail n m Hf H0 Hpar Hn Hm Hfol.
  pose proof (parens_nonneg 0 e). destruct fuel as [|fuel]; [lia|].
  cbn [logical]. rewrite (proj2 (Z.ltb_ge 16 d)) by lia. replace (2 =? 2) with true by reflexivity.
  rewrite Hp. cbn [app]. rewrite eat_cons, (proj2 (Z.eqb_neq d 16)) by lia. cbn [reject mbind res_bind].
  rewrite <-app_assoc. cbn [app]. rewrite He by (done || lia). cbn [mbind res_bind fst snd].
  by rewrite eat_cons.
Qed.
Lemma follows_up r tail : 0 <= r -> follows r tail -> follows (r + 1) tail.
Proof. destruct tail as [|c tail]; [done|]. intros ? [_ Hs]. split; [lia|]. intros. apply Hs. lia. Qed.
Lemma follows_separator r tail : 0 <= r <= 1 -> follows (r + 1) (separator r :: tail).
Proof.
  intros Hr. split; [lia|]. intros. assert (r = 0) as -> by lia. done.
Qed.
Lemma separated_print r d fuel l : forall e fuel' acc tail n m,
  0 <= r <= 1 -> 0 <= d -> 3 * (16 - d) + 3 - (r + 1) <= Z.of_nat fuel ->
  (forall x, x ∈ e :: l -> parses (r + 1) x /\ d + parens (r + 1) x <= 16) ->
  n + sum (map expr_nodes (e :: l)) <= 128 -> m + sum (map expr_items (e :: l)) <= 256 ->
  follows r tail -> (length l < fuel')%nat ->
  separated fuel' (logical fuel (r + 1) d) (separator r)
    (mk_Parser (join (separator r) (map (print (r + 1)) (e :: l)) ++ tail) n m) acc
  = Ok (acc ++ e :: l, mk_Parser tail (n + sum (map expr_nodes (e :: l))) (m + sum (map expr_items (e :: l)))).
Proof.
  induction l as [|e' l IH]; intros e fuel' acc tail n m Hr Hd Hf Hall Hn Hm Hfol Hf';
    (destruct fuel' as [|fuel']; [simpl in Hf'; lia|]); cbn [separated map];
    destruct (Hall e ltac:(left)) as [He Hpe].
  - cbn [join]. simpl in Hn, Hm. rewrite He by (done || lia || by apply follows_up; [lia|]).
    cbn [mbind res_bind fst snd]. rewrite eat_follows by done. simpl. by rewrite !Z.add_0_r.
  - rewrite join_cons, <-app_assoc. cbn [app].
    assert (0 <= sum (map expr_nodes (e' :: l)) /\ 0 <= sum (map expr_items (e' :: l))) as [? ?].
    { split; apply sum_nonneg; intros x _; [pose proof (expr_nodes_pos x); lia|apply expr_items_nonneg]. }
    cbn [map] in *. rewrite ?sum_cons in *.
    rewrite He by (lia || by apply follows_separator). cbn [mbind res_bind fst snd].
    rewrite eat_cons.
    rewrite IH; [|done|done|done|intros x Hx; apply Hall; by right|cbn [map]; rewrite ?sum_cons; lia|cbn [map]; rewrite ?sum_cons; lia|done|simpl in Hf'; lia].
    rewrite <-app_assoc. cbn [app map]. by rewrite ?sum_cons, <-!Z.add_assoc.
Qed.
Definition junction_print r l :
  0 <= r <= 1 -> print r (junction r l) = join (separator r) (map (print (r + 1)) l).
Proof. intros Hr. assert (r = 0 \/ r = 1) as [->| ->] by lia; done. Qed.
Lemma junction_parens r l :
  0 <= r <= 1 -> parens r (junction r l) = maximum (map (parens (r + 1)) l).
Proof. intros Hr. assert (r = 0 \/ r = 1) as [->| ->] by lia; done. Qed.
Lemma junction_sizes r l :
  expr_nodes (junction r l) = 1 + sum (map expr_nodes l) /\
  expr_items (junction r l) = sum (map expr_items l).
Proof. unfold junction. by destruct (r =? 0). Qed.
Lemma parses_junction r l :
  0 <= r <= 1 -> 2 <= zlen l -> (forall x, x ∈ l -> parses (r + 1) x) -> parses r (junction r l).
Proof.
  intros Hr Hl Hall fuel d tail n m Hf H0 Hpar Hn Hm Hfol.
  destruct l as [|e1 [|e2 l]]; [by change (zlen (@nil Expr)) with 0 in Hl|by change (zlen [e1]) with 1 in Hl|].
  pose proof (parens_nonneg r (junction r (e1 :: e2 :: l))).
  assert (d <= 16) as Hd16 by lia. destruct fuel as [|fuel]; [lia|].
  rewrite junction_parens in Hpar by done. destruct (junction_sizes r (e1 :: e2 :: l)) as [Hsn Hsi].
  rewrite Hsn in *. rewrite Hsi in *. rewrite junction_print by done.
  rewrite logical_unfold by lia. cbn [map]. rewrite join_cons, <-app_assoc. cbn [app].
  assert (forall x, x ∈ e1 :: e2 :: l -> d + parens (r + 1) x <= 16) as Hp.
  { intros x Hx. pose proof (maximum_ge (map (parens (r + 1)) (e1 :: e2 :: l)) (parens (r + 1) x)) as Hge.
    rewrite elem_of_map in Hge. specialize (Hge ltac:(by exists x)). lia. }
  assert (0 <= sum (map expr_nodes (e2 :: l)) /\ 0 <= sum (map expr_items (e2 :: l))) as [? ?].
  { split; apply sum_nonneg; intros x _; [pose proof (expr_nodes_pos x); lia|apply expr_items_nonneg]. }
  cbn [map] in *. rewrite ?sum_cons in *.
  rewrite (Hall e1); [|by left|lia|lia|apply Hp; by left|lia|lia|by apply follows_separator].
  cbn [mbind res_bind fst snd]. rewrite eat_cons. unfold node. cbn [nodes rest set_items].
  pose proof (expr_nodes_pos e2).
  assert (0 <= sum (map expr_nodes l)) by (apply sum_nonneg; intros x _; pose proof (expr_nodes_pos x); lia).
  rewrite (proj2 (Z.leb_gt _ _)) by lia.
  cbn [reject mbind res_bind rest nodes set_items].
  change (print (r + 1) e2 :: map (print (r + 1)) l) with (map (print (r + 1)) (e2 :: l)).
  rewrite separated_print; [|done|done|lia| |cbn [map]; rewrite ?sum_cons; lia|cbn [map]; rewrite ?sum_cons; lia|done|].
  - cbn [mbind res_bind fst snd app map]. rewrite ?sum_cons. do 3 f_equal; lia.
  - intros x Hx. split; [apply Hall; by right|apply Hp; by right].
  - rewrite length_app. cbn [map]. pose proof (join_length (separator r) (print (r + 1) e2) (map (print (r + 1)) l)) as Hj.
    rewrite length_map in Hj. lia.
Qed.

(** Every well-formed expression is read back from its print at every level. *)
Lemma parses_compare f o vs : compare_ok f o vs -> parses 2 (Compare f o vs).
Proof.
  intros Hok fuel d tail n m Hf H0 Hpar Hn Hm _. simpl in Hpar. destruct fuel as [|fuel]; [lia|].
  cbn [logical]. rewrite (proj2 (Z.ltb_ge 16 d)) by lia. replace (2 =? 2) with true by reflexivity.
  destruct Hok as (He & ? & Hfc & ? & ?). destruct (field_head f He Hfc) as (c & r & -> & Hc).
  cbn [print app]. rewrite eat_ne by done.
  change (c :: (r ++ token o ++ print_values o vs) ++ tail) with (print 2 (Compare (c :: r) o vs) ++ tail).
  simpl in Hn. by rewrite comparison_print by (done || lia).
Qed.
Lemma parses_all e : expr_ok e -> forall r, 0 <= r <= 2 -> parses r e.
Proof.
  induction e as [f o vs|l IH|l IH] using expression_ind'; intros Hok r Hr; inversion Hok as [? ? ? H|? Hl H|? Hl H];
    subst; try rewrite Forall_forall in IH, H.
  - assert (parses 2 (Compare f o vs)) as H2 by by apply parses_compare.
    assert (parses 1 (Compare f o vs)) as H1 by (by apply (parses_lift 1)).
    assert (r = 0 \/ r = 1 \/ r = 2) as [-> | [-> | ->]] by lia; [by apply (parses_lift 0)|done|done].
  - assert (parses 1 (And l)) as H1.
    { apply (parses_junction 1); [lia|done|]. intros x Hx. apply (IH x Hx); [auto|lia]. }
    assert (parses 0 (And l)) as H0 by (by apply (parses_lift 0)).
    assert (r = 0 \/ r = 1 \/ r = 2) as [-> | [-> | ->]] by lia; [done|done|by apply parses_paren].
  - assert (parses 0 (Or l)) as H0.
    { apply (parses_junction 0); [lia|done|]. intros x Hx. apply (IH x Hx); [auto|lia]. }
    assert (parses 2 (Or l)) as H2 by (by apply parses_paren).
    assert (r = 0 \/ r = 1 \/ r = 2) as [-> | [-> | ->]] by lia; [done|by apply (parses_lift 1)|done].
Qed.
