(* ===== verification/QueryCursor.v ===== *)
(** * Query parameters and continuations ([crates/query/src/{parameters,cursor,window}.rs])

    Strict URL decoding of the query string, authenticated continuation tokens, and
    fixed-order pages.  [PageCursor], base64url, HMAC and the generated serialization are
    code outside the repository. *)
From S2P Require Import Prelude Ordered Text External QueryParser.

(** ** Code outside the repository *)
(** [rss_contract::PageCursor]: an opaque token admitted by [parse]. *)
Class PageCursorCrate : Type := {
  PageCursor : Type;
  cursor_parse : rstr -> option PageCursor;
  cursor_str : PageCursor -> rstr;
  cursor_parse_str : forall s c, cursor_parse s = Some c -> cursor_str c = s
}.
Record Payload (T : Type) : Type := mk_Payload { pl_version : Z; pl_context : rstr; pl_position : T }.
Arguments mk_Payload {T} _ _ _.
Arguments pl_version {T} _.
Arguments pl_context {T} _.
Arguments pl_position {T} _.
(** The derived serialization of a payload: what was written is read back. *)
Class PayloadSerde (T : Type) : Type := {
  payload_to_vec : Payload T -> option bytes;
  payload_from_slice : bytes -> option (Payload T);
  payload_bytes : forall p l, payload_to_vec p = Some l -> forallb is_byte l = true;
  payload_roundtrip : forall p l, payload_to_vec p = Some l -> payload_from_slice l = Some p
}.

(** ** [parameters.rs]: decoding *)
Fixpoint decode_bytes (l : bytes) : option bytes :=
  match l with
  | [] => Some []
  | b :: l =>
      if b =? 43 then (32 ::.) <$> decode_bytes l
      else if b =? 37 then
        match l with
        | hi :: lo :: l =>
            h ← hex_digit hi; o ← hex_digit lo; (h * 16 + o ::.) <$> decode_bytes l
        | _ => None
        end
      else (b ::.) <$> decode_bytes l
  end.
Definition decode (raw : rstr) : res Error rstr :=
  ok_or (decode_bytes (str_bytes raw) ≫= from_utf8) Invalid.
Definition check_name (result : list rstr) (name : rstr) : res Error (list rstr) :=
  _ ← reject (zlen result =? 16) Budget;
  _ ← reject (is_empty name || (128 <? str_len name) || existsb (fun v => bool_decide (v = name)) result)
        Invalid;
  Ok (result ++ [name]).
Definition names (raw : rstr) : res Error (list rstr) := res_for check_name (split 44 raw) [].
(** [str::parse::<u16>] on a string of ASCII digits. *)
Definition digits_value (s : rstr) : Z := foldl (fun acc b => acc * 10 + (b - 48)) 0 s.
Definition parse_limit (s : rstr) : res Error Z :=
  _ ← reject (negb (forallb is_ascii_digit (str_bytes s))) Invalid;
  _ ← reject (65535 <? digits_value s) Invalid;
  Ok (digits_value s).
Definition sort_of (name : rstr) : Sort :=
  mk_Sort (default name (strip_prefix [45] name)) (starts_with [45] name).
(** [Option::map(f).transpose()]. *)
Definition transpose {E A B} (f : A -> res E B) (o : option A) : res E (option B) :=
  match o with Some a => b ← f a; Ok (Some b) | None => Ok None end.

Definition RESERVED : list rstr :=
  [lit "filter"; lit "sort"; lit "fields"; lit "limit"; lit "cursor"].
Definition check_pair (context_names : list rstr) (values : list (rstr * rstr)) (pair : rstr)
    : res Error (list (rstr * rstr)) :=
  kv ← ok_or (split_once 61 pair) Invalid;
  key ← decode kv.1;
  _ ← reject (negb (bool_decide (key ∈ RESERVED)) && negb (bool_decide (key ∈ context_names))) Invalid;
  value ← decode kv.2;
  _ ← reject (is_empty value || bm_contains key values) Invalid;
  Ok (bm_insert key value values).
(** [filter_map(|name| values.remove(name))]: the values left and the context. *)
Definition take_context (st : list (rstr * rstr) * list (rstr * rstr)) (name : rstr)
    : list (rstr * rstr) * list (rstr * rstr) :=
  match bm_get name st.1 with
  | Some v => (bm_remove name st.1, bm_insert name v st.2)
  | None => st
  end.

Section Parameters.
Context `{PC : PageCursorCrate}.
Record Parameters : Type := mk_Parameters {
  pa_filter : option rstr; pa_sort : list Sort; pa_fields : option (list rstr); pa_limit : option Z;
  pa_cursor : option PageCursor
}.
Definition parse_with_context (raw : rstr) (context_names : list rstr)
    : res Error (Parameters * list (rstr * rstr)) :=
  _ ← reject (MAX_RAW_QUERY_BYTES <? str_len raw) Budget;
  values ← (if is_empty raw then Ok [] else res_for (check_pair context_names) (split 38 raw) []);
  let '(values, context) := foldl take_context (values, []) context_names in
  let filter := bm_get (lit "filter") values in
  _ ← reject (match filter with Some v => MAX_FILTER_BYTES <? str_len v | None => false end) Budget;
  sort ← transpose names (bm_get (lit "sort") values);
  fields ← transpose names (bm_get (lit "fields") values);
  limit ← transpose parse_limit (bm_get (lit "limit") values);
  cursor ← transpose (fun s => ok_or (cursor_parse s) Invalid) (bm_get (lit "cursor") values);
  Ok (mk_Parameters filter (map sort_of (default [] sort)) fields limit cursor, context).
Definition Parameters_parse (raw : rstr) : res Error Parameters :=
  out ← parse_with_context raw []; Ok out.1.
End Parameters.

(** ** [cursor.rs] *)
Definition DOMAIN : bytes := lit "rss-mdm/query-cursor/v1" ++ [0].
Section Cursor.
Context `{PC : PageCursorCrate} `{B64 : Base64} `{HM : Hmac} {T : Type} `{PS : !PayloadSerde T}.

Definition CursorCodec_new (secret : bytes) : res Error HmacKey :=
  _ ← reject (negb (zlen secret =? 32)) Invalid; Ok (hmac_key secret).
Definition encode_bounded (codec : HmacKey) (context : rstr) (position : T) (max_bytes : Z) : res Error rstr :=
  payload ← ok_or (payload_to_vec (mk_Payload 1 context position)) Invalid;
  let bytes := DOMAIN ++ payload in
  let token := b64_encode (bytes ++ hmac_sign codec bytes) in
  _ ← reject (max_bytes <? str_len token) Budget;
  Ok token.
Definition encode (codec : HmacKey) (context : rstr) (position : T) : res Error PageCursor :=
  token ← encode_bounded codec context position 4096;
  ok_or (cursor_parse token) Budget.
Definition validate_token (token : rstr) (max_bytes : Z) : res Error () :=
  _ ← reject (max_bytes <? str_len token) Budget;
  reject (is_empty token || is_none (b64_decode token)) Invalid.
Definition decode_bounded (codec : HmacKey) (token context : rstr) (max_bytes : Z) : res Error T :=
  _ ← validate_token token max_bytes;
  bytes ← ok_or (b64_decode token) Invalid;
  _ ← reject (zlen bytes <? 32) CursorInvalidated;
  let at_ := (length bytes - 32)%nat in
  let payload := take at_ bytes in
  let tag := drop at_ bytes in
  _ ← reject (negb (hmac_verify codec payload tag)) CursorInvalidated;
  payload ← ok_or (strip_prefix DOMAIN payload) CursorInvalidated;
  data ← ok_or (payload_from_slice payload) CursorInvalidated;
  _ ← reject (negb (pl_version data =? 1) || negb (bool_decide (pl_context data = context))) CursorInvalidated;
  Ok (pl_position data).
Definition cursor_decode (codec : HmacKey) (token : PageCursor) (context : rstr) : res Error T :=
  decode_bounded codec (cursor_str token) context 4096.
End Cursor.

(** ** [window.rs]: fixed-order pages.  The schema's identity is its address; [order] is
    kept as the text the source checks. *)
Section Window.
Context `{PC : PageCursorCrate} `{B64 : Base64}.
Record WindowSchema : Type := mk_WindowSchema {
  ws_default_limit : Z; ws_max_limit : Z; ws_order : rstr; ws_context : list rstr
}.
Record WindowQuery : Type := mk_WindowQuery { wq_limit : Z; wq_cursor : option rstr }.
Definition window_page (s : WindowSchema) (limit : option Z) (cursor : option rstr)
    (max_cursor_bytes : Z) : res Error WindowQuery :=
  _ ← reject (is_empty (ws_order s) || (ws_default_limit s =? 0) || (ws_max_limit s <? ws_default_limit s))
        Invalid;
  let limit := default (ws_default_limit s) limit in
  _ ← reject (negb ((1 <=? limit) && (limit <=? ws_max_limit s))) Invalid;
  _ ← match cursor with Some token => validate_token token max_cursor_bytes | None => Ok () end;
  Ok (mk_WindowQuery limit cursor).
Definition window_parse (s : WindowSchema) (raw : rstr)
    : res Error (WindowQuery * list (rstr * rstr)) :=
  out ← parse_with_context raw (ws_context s);
  let '(p, context) := out in
  _ ← reject (match pa_filter p with Some _ => true | None => false end || negb (is_empty (pa_sort p))
              || match pa_fields p with Some _ => true | None => false end) Invalid;
  page ← window_page s (pa_limit p) (cursor_str <$> pa_cursor p) 4096;
  Ok (page, context).
End Window.
