(* ===== verification/QueryDirectory.v ===== *)
(** * Checked directories ([crates/query/src/directory.rs])

    A field catalogue, the effective query built from decoded parameters, the typed binding
    of its filter, continuation positions and pages.  The schema's identity is its address
    in the source; here the schema is the value it points to. *)
From S2P Require Import Prelude Ordered Text External Json QueryParser QueryCursor.

Inductive Kind : Type :=
| KText | KUuid | KInteger | KBoolean | KEnum (values : list rstr) | KEnumSet (values : list rstr)
| KUuidSet | KObject.
Record Field : Type := mk_Field {
  f_name : rstr; f_kind : Kind; f_filter : bool; f_sort : bool; f_output : bool
}.
Definition Field_scalar (name : rstr) (kind : Kind) : Field := mk_Field name kind true true true.
Definition Field_output (name : rstr) : Field := mk_Field name KObject false false true.
Definition Field_filter_only (name : rstr) (kind : Kind) : Field := mk_Field name kind true false false.
Record Schema : Type := mk_Schema {
  s_id : rstr; s_fields : list Field; s_keys : list rstr; s_default_limit : Z; s_max_limit : Z
}.
Definition Schema_field (s : Schema) (name : rstr) : res Error Field :=
  ok_or (List.find (fun f => bool_decide (f_name f = name)) (s_fields s)) Invalid.
(** [Value::from(i64)]. *)
Class JsonIntegers `{SJ : SerdeJson} : Type := {
  number_from_i64 : Z -> Number;
  number_from_i64_as : forall z, in_i64 z -> number_as_i64 (number_from_i64 z) = Some z
}.
Arguments JsonIntegers : clear implicits.
Arguments JsonIntegers {SJ}.

Section Directory.
Context `{UC : UuidCrate} `{UT : !UuidText} `{SJ : SerdeJson} `{JI : !JsonIntegers}
  `{PC : PageCursorCrate} `{B64 : Base64} `{HM : Hmac}.

(** [Position]: one value per sort field. *)
Definition Position : Type := list (Json Number).
Record Query : Type := mk_Query {
  q_schema : Schema; q_filter : option (Expression rstr (Json Number)); q_sort : list Sort;
  q_fields : list rstr; q_limit : Z; q_cursor : option PageCursor
}.

(** ** Typed values *)
Definition json_str (v : Json Number) : option rstr :=
  match v with JString s => Some s | _ => None end.
Definition json_is_null (v : Json Number) : bool := match v with JNull => true | _ => false end.
Definition json_field (name : rstr) (row : Json Number) : option (Json Number) :=
  match row with JObject m => bm_get name m | _ => None end.
Definition valid (kind : Kind) (value : Json Number) : bool :=
  match kind with
  | KText => match json_str value with
             | Some s => (str_len s <=? 4096) && negb (has_control s)
             | None => false
             end
  | KUuid | KUuidSet =>
      match json_str value with
      | Some s => match uuid_parse_str s with
                  | Some v => negb (is_nil v) && bool_decide (uuid_to_string v = s)
                  | None => false
                  end
      | None => false
      end
  | KInteger => match value with JNumber n => negb (is_none (number_as_i64 n)) | _ => false end
  | KBoolean => match value with JBool _ => true | _ => false end
  | KEnum values | KEnumSet values =>
      match json_str value with Some s => bool_decide (s ∈ values) | None => false end
  | KObject => false
  end.
(** [str::parse::<i64>]: an optional sign, then digits. *)
Definition parse_i64 (s : rstr) : option Z :=
  let '(sign, digits) :=
    match s with
    | c :: r => if c =? 45 then (-1, r) else if c =? 43 then (1, r) else (1, s)
    | [] => (1, [])
    end in
  if is_empty digits || negb (forallb is_ascii_digit digits) then None
  else checked_i64 (sign * digits_value digits).
Definition scalar (kind : Kind) (input : rstr) : res Error (Json Number) :=
  value ← match kind with
          | KInteger => z ← ok_or (parse_i64 input) Invalid; Ok (JNumber (number_from_i64 z))
          | KBoolean =>
              if bool_decide (input = lit "true") then Ok (JBool true)
              else if bool_decide (input = lit "false") then Ok (JBool false)
              else Err Invalid
          | KUuid | KUuidSet =>
              u ← ok_or (uuid_parse_str input) Invalid; Ok (JString (uuid_to_string u))
          | _ => Ok (JString input)
          end;
  if valid kind value then Ok value else Err Invalid.

(** ** Binding a filter to the catalogue *)
Definition is_object (k : Kind) : bool := match k with KObject => true | _ => false end.
Definition is_text (k : Kind) : bool := match k with KText => true | _ => false end.
Definition unordered (k : Kind) : bool :=
  match k with KBoolean | KEnum _ | KEnumSet _ | KUuidSet => true | _ => false end.
Definition supported (o : Operator) : bool :=
  match o with
  | Eq_ | Ne | Lt_ | Le | Gt_ | Ge | In_ | Out_ | Icontains => true
  | _ => false
  end.
Definition operator_invalid (spec : Field) (o : Operator) : bool :=
  negb (supported o) || negb (f_filter spec) || is_object (f_kind spec)
  || (range o && unordered (f_kind spec))
  || (bool_decide (o = Icontains) && negb (is_text (f_kind spec))).
Fixpoint bind (schema : Schema) (e : Expression rstr rstr) : res Error (Expression rstr (Json Number)) :=
  match e with
  | Compare field operator values =>
      spec ← Schema_field schema field;
      _ ← reject (operator_invalid spec operator) Invalid;
      values ← res_map (scalar (f_kind spec)) values;
      Ok (Compare field operator values)
  | And v => v ← res_map (bind schema) v; Ok (And v)
  | Or v => v ← res_map (bind schema) v; Ok (Or v)
  end.

(** ** [Query::new] *)
(** The authored sort: [seen] is the prefix already checked. *)
Definition check_sort (schema : Schema) (seen : list Sort) (s : Sort) : res Error (list Sort) :=
  f ← Schema_field schema (so_field s);
  _ ← reject (negb (f_sort f) || existsb (fun v => bool_decide (so_field v = so_field s)) seen) Invalid;
  Ok (seen ++ [s]).
Definition add_key (schema : Schema) (sort : list Sort) (key : rstr) : res Error (list Sort) :=
  f ← Schema_field schema key;
  _ ← reject (negb (f_sort f)) Invalid;
  Ok (if existsb (fun s => bool_decide (so_field s = key)) sort then sort
      else sort ++ [mk_Sort key false]).
Definition check_output (schema : Schema) (name : rstr) : res Error () :=
  f ← Schema_field schema name; reject (negb (f_output f)) Invalid.
Definition Query_new (schema : Schema) (p : Parameters) : res Error Query :=
  _ ← reject (is_empty (s_keys schema) || (s_default_limit schema =? 0)
              || (s_max_limit schema <? s_default_limit schema)) Invalid;
  filter ← transpose (fun s => e ← parse s; bind schema e) (pa_filter p);
  sort ← res_for (check_sort schema) (pa_sort p) [];
  sort ← res_for (add_key schema) (s_keys schema) sort;
  let fields := default (map f_name (List.filter f_output (s_fields schema))) (pa_fields p) in
  _ ← res_for (fun _ name => check_output schema name) fields ();
  let fields := sort_by id fields in
  let limit := default (s_default_limit schema) (pa_limit p) in
  _ ← reject (negb ((1 <=? limit) && (limit <=? s_max_limit schema))) Invalid;
  Ok (mk_Query schema filter sort fields limit (pa_cursor p)).
Definition Schema_parse (schema : Schema) (raw : rstr) : res Error Query :=
  p ← Parameters_parse raw; Query_new schema p.
Definition statistics (schema : Schema) (raw : rstr) : res Error Query :=
  p ← Parameters_parse raw;
  _ ← reject (negb (is_none (pa_cursor p)) || negb (is_none (pa_limit p))
              || negb (is_none (pa_fields p)) || negb (is_empty (pa_sort p))) Invalid;
  Query_new schema p.
Definition selects (q : Query) (field : rstr) : bool :=
  existsb (fun f => bool_decide (f = field)) (q_fields q).
Fixpoint walk (e : Expression rstr (Json Number)) (name : rstr) : bool :=
  match e with
  | Compare field _ _ => bool_decide (field = name)
  | And v | Or v => existsb (fun e => walk e name) v
  end.
Definition mentions (q : Query) (name : rstr) : bool :=
  match q_filter q with Some e => walk e name | None => false end.
Definition default_filter (q : Query) (name value : rstr) : res Error Query :=
  if mentions q name then Ok q else
  expr ← bind (q_schema q) (Compare name Eq_ [value]);
  Ok (mk_Query (q_schema q)
        (Some match q_filter q with Some e => And [e; expr] | None => expr end)
        (q_sort q) (q_fields q) (q_limit q) (q_cursor q)).

(** ** Positions and pages *)
Definition validate_position (q : Query) (position : Position) : res Error () :=
  _ ← reject (negb (zlen position =? zlen (q_sort q))) CursorInvalidated;
  res_for (fun _ '(s, v) =>
    if json_is_null v then Ok () else
    f ← Schema_field (q_schema q) (so_field s);
    reject (negb (valid (f_kind f) v)) CursorInvalidated) (zip (q_sort q) position) ().
Definition position (q : Query) (row : Json Number) : res Error Position :=
  position ← res_map (fun s => ok_or (json_field (so_field s) row) Invalid) (q_sort q);
  _ ← validate_position q position;
  Ok position.
Definition insert_field (row : Json Number) (result : list (rstr * Json Number)) (name : rstr)
    : res Error (list (rstr * Json Number)) :=
  v ← ok_or (json_field name row) Invalid; Ok (bm_insert name v result).
Definition project (q : Query) (row : Json Number) : res Error (Json Number) :=
  result ← res_for (insert_field row) (q_fields q) []; Ok (JObject result).
(** [Projection::select] on the serialized row. *)
Definition Projection_select (row : Json Number) (fields : list rstr) : res Error (Json Number) :=
  _ ← reject (match row with JObject _ => false | _ => true end) Invalid;
  result ← res_for (insert_field row) fields []; Ok (JObject result).

Context `{PPS : !PayloadSerde Position}.
Record Page : Type := mk_Page { pg_items : list (Json Number); pg_next_cursor : option rstr }.
Definition after (q : Query) (codec : HmacKey) (binding : rstr) : res Error (option Position) :=
  transpose (fun c =>
    position ← cursor_decode codec c binding;
    _ ← validate_position q position;
    Ok position) (q_cursor q).
Definition unprojected_page (q : Query) (rows : list (Json Number)) (codec : HmacKey) (binding : rstr)
    : res Error Page :=
  let more := q_limit q <? zlen rows in
  let rows := take (Z.to_nat (q_limit q)) rows in
  next_cursor ← (if more then
                   transpose (fun r =>
                     position ← position q r;
                     c ← encode codec binding position;
                     Ok (cursor_str c)) (last rows)
                 else Ok None);
  Ok (mk_Page rows next_cursor).
Definition page (q : Query) (rows : list (Json Number)) (codec : HmacKey) (binding : rstr) : res Error Page :=
  page ← unprojected_page q rows codec binding;
  items ← res_map (project q) (pg_items page);
  Ok (mk_Page items (pg_next_cursor page)).
End Directory.
