(* ===== verification/QueryProperties.v ===== *)
(** * Theorems of the query layer

    Filters, continuation tokens, effective queries and pages. *)
From S2P Require Import Prelude Ordered Text External Json QueryParser QuerySpec QueryPrint QueryCursor.
From S2P Require Import QueryDirectory.

(** ** Continuation tokens *)
Section Tokens.
Context `{PC : PageCursorCrate} `{B64 : Base64} `{HM : Hmac} {T : Type} `{PS : !PayloadSerde T}.

Lemma strip_prefix_app p s : strip_prefix p (p ++ s) = Some s.
Proof. induction p as [|x p IH]; [by destruct s|]. simpl. by rewrite Z.eqb_refl. Qed.
Lemma strip_prefix_some p s t : strip_prefix p s = Some t -> s = p ++ t.
Proof.
  revert s. induction p as [|x p IH]; intros s H; [destruct s; simpl in H; by injection H|].
  destruct s as [|y s]; simpl in H; [done|]. destruct (Z.eqb_spec x y) as [->|]; [|done].
  by rewrite (IH s H).
Qed.
(** The content of a token: the signed bytes, then the tag. *)
Definition signed (codec : HmacKey) (payload : bytes) : bytes :=
  (DOMAIN ++ payload) ++ hmac_sign codec (DOMAIN ++ payload).
Lemma domain_bytes : forallb is_byte DOMAIN = true.
Proof. reflexivity. Qed.
(** A signed payload reaches the comparison with the context. *)
Lemma decode_signed codec token context max_bytes payload (data : Payload T) :
  str_len token <= max_bytes -> b64_decode token = Some (signed codec payload) ->
  payload_from_slice payload = Some data ->
  decode_bounded codec token context max_bytes =
    if negb (pl_version data =? 1) || negb (bool_decide (pl_context data = context))
    then Err CursorInvalidated else Ok (pl_position data).
Proof.
  intros Hl Hd Hp. unfold decode_bounded, validate_token. rewrite (proj2 (Z.ltb_ge _ _)) by lia.
  assert (is_empty token = false) as ->.
  { destruct token; [|done]. rewrite b64_decode_nil in Hd. injection Hd as Hd.
    by apply (f_equal length) in Hd; unfold signed in Hd; rewrite !length_app in Hd; simpl in Hd. }
  rewrite Hd. cbn [is_none orb reject mbind res_bind ok_or].
  assert (length (signed codec payload) = (length (DOMAIN ++ payload) + 32)%nat) as Hlen by
    (unfold signed; rewrite length_app, hmac_sign_length; done).
  rewrite (proj2 (Z.ltb_ge (zlen _) 32)) by (unfold zlen; lia). cbn [reject mbind res_bind].
  rewrite Hlen. replace (length (DOMAIN ++ payload) + 32 - 32)%nat with (length (DOMAIN ++ payload)) by lia.
  unfold signed. rewrite take_app_length, drop_app_length, (proj2 (hmac_verify_iff _ _ _)) by done.
  cbn [negb reject mbind res_bind]. rewrite strip_prefix_app. cbn [ok_or mbind res_bind].
  rewrite Hp. cbn [ok_or mbind res_bind]. by destruct (_ || _).
Qed.
Lemma decode_bounded_ok codec token context max_bytes (position : T) :
  decode_bounded codec token context max_bytes = Ok position ->
  str_len token <= max_bytes /\ exists payload,
    b64_decode token = Some (signed codec payload) /\
    payload_from_slice payload = Some (mk_Payload 1 context position).
Proof.
  unfold decode_bounded, validate_token. intros H. inv_ok. bool_hyps. split; [done|].
  apply hmac_verify_iff in E2. apply strip_prefix_some in E3. exists a3. split.
  - rewrite E0. unfold signed. f_equal.
    rewrite <-(take_drop (length a0 - 32) a0) at 1. by rewrite E2, E3.
  - rewrite E4. destruct a4 as [v c pos]; simpl in *. by subst.
Qed.
(** What [encode] wrote is accepted for its context. *)
Lemma encode_content codec context (position : T) c :
  encode codec context position = Ok c ->
  cursor_parse (cursor_str c) = Some c /\ str_len (cursor_str c) <= 4096 /\ exists payload,
  b64_decode (cursor_str c) = Some (signed codec payload) /\
  payload_from_slice payload = Some (mk_Payload 1 context position).
Proof.
  unfold encode, encode_bounded. intros H. inv_ok. bool_hyps.
  pose proof (cursor_parse_str _ _ H) as Hs. rewrite Hs. split_and!; [done|done|].
  exists a0. split; [|by apply payload_roundtrip].
  apply b64_decode_encode. unfold signed. rewrite !forallb_app, domain_bytes, hmac_sign_bytes.
  match goal with E : payload_to_vec _ = Some _ |- _ => by rewrite (payload_bytes _ _ E) end.
Qed.
End Tokens.

(** ** Effective queries *)
Section Queries.
Context `{UC : UuidCrate} `{UT : !UuidText} `{SJ : SerdeJson} `{JI : !JsonIntegers}
  `{PC : PageCursorCrate} `{B64 : Base64} `{HM : Hmac}.
Implicit Types (q : Query) (schema : Schema).

Definition sort_names (l : list Sort) : list rstr := map so_field l.
(** A name of the catalogue with the capability [cap]. *)
Definition listed schema (cap : Field -> bool) (name : rstr) : Prop :=
  exists f, Schema_field schema name = Ok f /\ cap f = true.
(** A bound filter: catalogued fields, supported operators, values of the field's kind. *)
Inductive bound_ok schema : Expression rstr (Json Number) -> Prop :=
| Bound_compare name o values f :
    Schema_field schema name = Ok f -> operator_invalid f o = false ->
    Forall (fun v => valid (f_kind f) v = true) values -> bound_ok schema (Compare name o values)
| Bound_and l : Forall (bound_ok schema) l -> bound_ok schema (And l)
| Bound_or l : Forall (bound_ok schema) l -> bound_ok schema (Or l).

Lemma existsb_name name l : existsb (fun s => bool_decide (so_field s = name)) l = true <-> name ∈ sort_names l.
Proof.
  rewrite existsb_true_iff. unfold sort_names. rewrite elem_of_map. split.
  - intros (s & Hs & Hn). bool_hyps. eauto.
  - intros (s & Hn & Hs). exists s. split; [done|]. by apply bool_decide_eq_true.
Qed.
Lemma existsb_name_false name l : existsb (fun s => bool_decide (so_field s = name)) l = false <-> name ∉ sort_names l.
Proof. rewrite <-existsb_name. by rewrite not_true_iff_false. Qed.
Lemma check_sort_loop schema l seen out :
  res_for (check_sort schema) l seen = Ok out ->
  NoDup (sort_names seen) -> Forall (listed schema f_sort) (sort_names seen) ->
  out = seen ++ l /\ NoDup (sort_names out) /\ Forall (listed schema f_sort) (sort_names out).
Proof.
  revert seen. induction l as [|s l IH]; intros seen H Hnd Hl; simpl in H.
  { injection H as <-. by rewrite app_nil_r. }
  apply bind_ok in H as (seen' & Hs & H). unfold check_sort in Hs. inv_ok. bool_hyps.
  apply existsb_name_false in H1. apply IH in H as (-> & Hnd' & Hl').
  - by rewrite <-app_assoc in *.
  - unfold sort_names. rewrite map_app. apply NoDup_app. split_and!; [done| |apply NoDup_singleton].
    intros x Hx Hx'. apply list_elem_of_singleton in Hx'. by subst x.
  - unfold sort_names. rewrite map_app. apply Forall_app. split; [done|]. repeat constructor. by exists a.
Qed.
Lemma add_key_loop schema keys sort out :
  res_for (add_key schema) keys sort = Ok out ->
  NoDup (sort_names sort) -> Forall (listed schema f_sort) (sort_names sort) ->
  NoDup (sort_names out) /\ Forall (listed schema f_sort) (sort_names out) /\
  (forall k, k ∈ keys -> k ∈ sort_names out) /\ (forall k, k ∈ sort_names sort -> k ∈ sort_names out) /\
  exists added, out = sort ++ map (fun k => mk_Sort k false) added /\ forall k, k ∈ added -> k ∈ keys.
Proof.
  revert sort. induction keys as [|key keys IH]; intros sort H Hnd Hl; simpl in H.
  { injection H as <-. split_and!; try done; [set_solver|]. exists []. by rewrite app_nil_r. }
  apply bind_ok in H as (sort' & Hs & H). unfold add_key in Hs. inv_ok. bool_hyps.
  destruct (existsb _ _) eqn:Ee.
  - apply existsb_name in Ee. apply IH in H as (? & ? & Hk & Hs & added & -> & Ha); [|done|done].
    split_and!; try done; [intros k [->|?]%elem_of_cons; auto|]. exists added. split; [done|]. set_solver.
  - apply existsb_name_false in Ee.
    apply IH in H as (? & ? & Hk & Hs & added & -> & Ha).
    + unfold sort_names in Hs at 1. rewrite map_app in Hs.
      split_and!; try done.
      * intros k [->|?]%elem_of_cons; [|auto]. apply Hs, elem_of_app. right. by left.
      * intros k Hk'. apply Hs, elem_of_app. by left.
      * exists (key :: added). rewrite <-app_assoc. split; [done|]. set_solver.
    + unfold sort_names. rewrite map_app. apply NoDup_app. split_and!; [done| |apply NoDup_singleton].
      intros x Hx Hx'. apply list_elem_of_singleton in Hx'. by subst x.
    + unfold sort_names. rewrite map_app. apply Forall_app. split; [done|]. repeat constructor. by exists a.
Qed.
Lemma scalar_valid kind s v : scalar kind s = Ok v -> valid kind v = true.
Proof.
  unfold scalar. intros H. apply bind_ok in H as (v' & _ & H).
  destruct (valid kind v') eqn:E; [|done]. by injection H as <-.
Qed.
Lemma bind_sound schema e e' : bind schema e = Ok e' -> bound_ok schema e'.
Proof.
  revert e'. induction e as [name o vs|l IH|l IH] using expression_ind'; intros e' H; simpl in H;
    apply bind_ok in H as (x & Hx & H).
  - apply bind_ok in H as (u & Ho & H). apply reject_ok in Ho.
    apply bind_ok in H as (values & Hv & H). injection H as <-. econstructor; [done..|].
    apply res_map_ok in Hv. clear -Hv. induction Hv as [|s v ? ? Hs _ IHv]; constructor; [by eapply scalar_valid|done].
  - injection H as <-. constructor. apply res_map_ok in Hx. clear -Hx IH.
    induction Hx as [|c c' ? ? Hc _ IHl]; [constructor|]. apply Forall_cons in IH as [Hi IH].
    constructor; [by apply Hi|by apply IHl].
  - injection H as <-. constructor. apply res_map_ok in Hx. clear -Hx IH.
    induction Hx as [|c c' ? ? Hc _ IHl]; [constructor|]. apply Forall_cons in IH as [Hi IH].
    constructor; [by apply Hi|by apply IHl].
Qed.
Lemma check_output_loop schema fields :
  res_for (fun _ name => check_output schema name) fields () = Ok () -> Forall (listed schema f_output) fields.
Proof.
  induction fields as [|f fields IH]; intros H; simpl in H; [constructor|].
  apply bind_ok in H as ([] & Hf & H). constructor; [|by apply IH].
  unfold check_output in Hf. inv_ok. apply negb_false_iff in Hf. by exists a.
Qed.
End Queries.

(** ** Theorems *)
Section Properties.
Context `{UC : UuidCrate} `{UT : !UuidText} `{SJ : SerdeJson} `{JI : !JsonIntegers}
  `{PC : PageCursorCrate} `{B64 : Base64} `{HM : Hmac} `{PPS : !PayloadSerde Position}.

Lemma parse_logical input e p :
  str_len input <= MAX_FILTER_BYTES ->
  logical logical_fuel 0 0 (mk_Parser input 0 0) = Ok (e, p) -> rest p = [] -> parse input = Ok e.
Proof.
  intros Hl H Hr. unfold parse. apply Z.ltb_ge in Hl. rewrite Hl.
  apply bind_ok. exists (). split; [done|]. apply bind_ok. exists (e, p). split; [done|].
  simpl. by rewrite Hr.
Qed.

(** C6: every well-formed filter within the budgets has a text that parses back to it: the
    parser loses no operator, precedence, escape or set item. *)
Theorem filter_roundtrip (e : Expr) :
  expr_ok e -> expr_nodes e <= 128 -> expr_items e <= 256 -> parens 0 e <= 16 ->
  str_len (print 0 e) <= MAX_FILTER_BYTES -> parse (print 0 e) = Ok e.
Proof.
  intros Hok Hn Hi Hp Hl.
  assert (3 * (16 - 0) + 3 - 0 <= Z.of_nat logical_fuel) as Hf by (unfold logical_fuel; lia).
  pose proof (parses_all e Hok 0 ltac:(lia) logical_fuel 0 [] 0 0 Hf ltac:(lia) Hp Hn Hi I) as H.
  rewrite app_nil_r in H. by eapply parse_logical.
Qed.

(** Parsing any text terminates without a panic, and what it accepts is well formed and
    within the node, set and nesting budgets. *)
Theorem filter_bounded (input : rstr) :
  no_panic (parse input) /\
  forall e, parse input = Ok e ->
    expr_ok e /\ expr_nodes e <= 128 /\ expr_items e <= 256 /\ expr_height e <= 34.
Proof.
  pose proof (logical_sound logical_fuel 0 0 ltac:(lia) ltac:(lia) ltac:(unfold logical_fuel; lia)
    (mk_Parser input 0 0)) as [Hnp Hstep].
  unfold parse. split.
  - apply bind_no_panic; [apply reject_no_panic|intros _ _]. apply bind_no_panic; [exact Hnp|].
    intros out _. apply bind_no_panic; [auto with rust|done].
  - intros e H. apply bind_ok in H as (u & _ & H). apply bind_ok in H as ([e' p] & Hl & H).
    apply bind_ok in H as (u' & _ & [= <-]). apply Hstep in Hl as [_ Hn Hi Hok Hh [Hb1 Hb2]].
    clear Hnp Hstep. unfold level_bound in Hh. cbn [fst nodes set_items] in *. split_and!; try done; lia.
Qed.

(** A continuation is accepted for a context exactly when its bytes are a payload of
    version 1 for that context, in this token domain, under a tag of this key. *)
Theorem continuation_authentic (codec : HmacKey) (token : PageCursor) (context : rstr) (p : Position) :
  cursor_decode codec token context = Ok p <->
  str_len (cursor_str token) <= 4096 /\ exists payload,
    b64_decode (cursor_str token) = Some (signed codec payload) /\
    payload_from_slice payload = Some (mk_Payload 1 context p).
Proof.
  split; [apply decode_bounded_ok|]. intros (Hl & payload & Hd & Hp). unfold cursor_decode.
  rewrite (decode_signed _ _ _ _ _ _ Hl Hd Hp). simpl. by rewrite bool_decide_eq_true_2.
Qed.

(** An effective query orders by the authored sort followed by the missing identity keys
    (each field once, all of them sortable, so the order is total), selects catalogued
    outputs, has a page size within the schema's, and filters with values of the fields' kinds. *)
Theorem effective_query_sound (schema : Schema) (p : Parameters) (q : Query) :
  Query_new schema p = Ok q ->
  NoDup (sort_names (q_sort q)) /\ Forall (listed schema f_sort) (sort_names (q_sort q)) /\
  (forall k, k ∈ s_keys schema -> k ∈ sort_names (q_sort q)) /\
  (exists added, q_sort q = pa_sort p ++ map (fun k => mk_Sort k false) added /\
     forall k, k ∈ added -> k ∈ s_keys schema) /\
  Forall (listed schema f_output) (q_fields q) /\
  1 <= q_limit q <= s_max_limit schema /\
  (forall e, q_filter q = Some e -> bound_ok schema e).
Proof.
  unfold Query_new. intros H.
  apply bind_ok in H as (u & _ & H). apply bind_ok in H as (filter & Hf & H).
  apply bind_ok in H as (sort & Hs & H). apply bind_ok in H as (sort' & Hk & H).
  apply bind_ok in H as ([] & Ho & H). apply bind_ok in H as (u' & Hl & H). injection H as <-. simpl.
  apply check_sort_loop in Hs as (-> & Hnd & Hls); [|constructor|constructor]. simpl in *.
  apply add_key_loop in Hk as (? & ? & ? & _ & Hadd); [|done|done].
  apply reject_ok in Hl. bool_hyps. apply check_output_loop in Ho.
  split_and!; try done.
  - by rewrite sort_by_perm.
  - intros e ->. unfold transpose in Hf. destruct (pa_filter p); [|done].
    apply bind_ok in Hf as (e' & Hf & [= ->]). apply bind_ok in Hf as (? & _ & Hf). by eapply bind_sound.
Qed.

(** C29: a page is the projection of the first [limit] rows; it carries a continuation exactly
    when rows are left, and that token resumes a query with the same order after the last
    row of the page, while under any other binding it is invalidated. *)
Theorem page_continues (q : Query) (rows : list (Json Number)) (codec : HmacKey) (binding : rstr) (pg : Page) :
  1 <= q_limit q -> page q rows codec binding = Ok pg ->
  res_map (project q) (take (Z.to_nat (q_limit q)) rows) = Ok (pg_items pg) /\
  (is_Some (pg_next_cursor pg) <-> q_limit q < zlen rows) /\
  forall token, pg_next_cursor pg = Some token -> exists c row pos,
    cursor_parse token = Some c /\ last (take (Z.to_nat (q_limit q)) rows) = Some row /\
    position q row = Ok pos /\
    (forall q', q_schema q' = q_schema q -> q_sort q' = q_sort q -> q_cursor q' = Some c ->
       after q' codec binding = Ok (Some pos)) /\
    (forall q' binding', q_cursor q' = Some c -> binding' <> binding ->
       after q' codec binding' = Err CursorInvalidated).
Proof.
  intros Hlim. unfold page, unprojected_page. set (first := take _ rows). intros H.
  apply bind_ok in H as (pg' & Hpg & H). apply bind_ok in H as (items & Hitems & [= <-]).
  apply bind_ok in Hpg as (next & Hnext & [= <-]). simpl in *. split; [done|].
  destruct (Z.ltb_spec (q_limit q) (zlen rows)) as [Hmore|Hmore].
  2: { injection Hnext as <-. split; [|done]. split; [by intros []|lia]. }
  assert (exists row, last first = Some row) as [row Hrow].
  { destruct (last first) eqn:E; [eauto|]. apply last_None in E. unfold first in E.
    apply (f_equal length) in E. rewrite length_take in E. unfold zlen in Hmore. simpl in E. lia. }
  rewrite Hrow in Hnext. simpl in Hnext. apply bind_ok in Hnext as (s & Hs & [= <-]).
  apply bind_ok in Hs as (pos & Hpos & Hs). apply bind_ok in Hs as (c & Hc & [= <-]).
  apply encode_content in Hc as (Hparse & Hlen & payload & Hd & Hp).
  split; [split; [done|eauto]|]. intros token [= <-]. exists c, row, pos. split_and!; try done.
  - intros q' Hsch Hsort Hcur. unfold after, cursor_decode. rewrite Hcur. simpl.
    rewrite (decode_signed _ _ _ _ _ _ Hlen Hd Hp). simpl. rewrite bool_decide_eq_true_2 by done. simpl.
    assert (validate_position q' pos = Ok ()) as ->; [|done].
    unfold position in Hpos. apply bind_ok in Hpos as (pos' & _ & Hpos).
    apply bind_ok in Hpos as ([] & Hv & [= ->]). unfold validate_position in *. by rewrite Hsch, Hsort.
  - intros q' binding' Hcur Hne. unfold after, cursor_decode. rewrite Hcur. simpl.
    rewrite (decode_signed _ _ _ _ _ _ Hlen Hd Hp). simpl. by rewrite bool_decide_eq_false_2.
Qed.
End Properties.

(** ** Closed examples *)
Module Witnesses.
Import Reference ReferenceJson.
#[local] Instance page_cursor : PageCursorCrate.
Proof. by refine {| PageCursor := rstr; cursor_parse s := Some s; cursor_str c := c |}; intros s c [= ->]. Defined.
(** The identity text of a byte string. *)
#[local] Instance base64 : Base64.
Proof.
  refine {| b64_encode l := l; b64_decode s := if forallb is_byte s then Some s else None |}; [done|].
  by intros l ->.
Defined.
(** Payloads of one text value: the length of the context, the context, the value. *)
Definition payload_vec (p : Payload (list (Json Z))) : option bytes :=
  match pl_position p with
  | [JString s] =>
      if (pl_version p =? 1) && (zlen (pl_context p) <? 256) && forallb is_byte (pl_context p) && forallb is_byte s
      then Some (zlen (pl_context p) :: pl_context p ++ s) else None
  | _ => None
  end.
#[local] Instance payload : PayloadSerde Position.
Proof.
  refine {| payload_to_vec := payload_vec;
    payload_from_slice l := match l with
      | n :: r => Some (mk_Payload 1 (take (Z.to_nat n) r) [JString (drop (Z.to_nat n) r)])
      | [] => None
      end |};
    intros [v c pos] l H; unfold payload_vec in H; simpl in H;
    destruct pos as [|[| | |s| |] [|]]; try done; destruct (_ && _) eqn:E; try done; injection H as <-; bool_hyps.
  - cbn [forallb]. rewrite forallb_app, H0, H1. pose proof (zlen_nonneg c). unfold is_byte.
    rewrite (proj2 (Z.leb_le _ _)), (proj2 (Z.ltb_lt _ _)) by lia. done.
  - unfold zlen. rewrite Nat2Z.id, take_app_length, drop_app_length. by subst v.
Defined.
#[local] Instance uuid_text : UuidText := {| uuid_parse_str _ := None; uuid_to_string _ := [] |}.
#[local] Instance json_integers : JsonIntegers.
Proof.
  refine {| number_from_i64 z := z |}. intros z Hz. unfold number_as_i64. simpl. by apply checked_i64_some.
Defined.
Definition devices : Schema :=
  mk_Schema (lit "devices") [Field_scalar (lit "name") KText] [lit "name"] 1 10.
Definition params : Parameters := mk_Parameters (Some (lit "name==a,name=in=(b,'c d')")) [] None None None.
Definition no_query : Query := mk_Query devices None [] [] 0 None.
Definition q : Query := get no_query (Query_new devices params).
Lemma q_ok : Query_new devices params = Ok q.
Proof. apply is_ok_get. vm_compute. reflexivity. Qed.
Definition row (name : rstr) : Json Z := JObject [(lit "name", JString name)].
Definition rows : list (Json Z) := [row (lit "a"); row (lit "b")].
Definition codec : HmacKey := repeat 7 32.
Definition first_page : Page := get (mk_Page [] None) (page q rows codec (lit "tenant")).
Lemma first_page_ok : page q rows codec (lit "tenant") = Ok first_page.
Proof. apply is_ok_get. vm_compute. reflexivity. Qed.
Definition example : Expr :=
  And [Compare (lit "name") Eq_ [lit "a,b"]; Or [Compare (lit "os") In_ [lit "x"; lit "y"]; Compare (lit "n") Lt_ [lit "5"]]].
Lemma example_ok : expr_ok example.
Proof.
  assert (forall f o v, is_empty f = false -> zlen f <= 128 -> forallb is_field_char f = true ->
    has_control v = false -> str_len v <= 1024 -> set o = false -> expr_ok (Compare f o [v])) as Hc.
  { intros f o v ? ? ? ? ? Ho. constructor. split_and!; try done; [by repeat constructor|by rewrite Ho]. }
  apply And_ok; [done|]. repeat constructor; try done; apply Hc; done.
Qed.
Lemma filter_roundtrip_witness : parse (print 0 example) = Ok example.
Proof. apply (filter_roundtrip example example_ok); vm_compute; discriminate. Defined.
Lemma filter_bounded_witness : expr_nodes (get (And []) (parse (lit "a==b;(c==d,e==f)"))) <= 128.
Proof.
  apply (proj2 (filter_bounded (lit "a==b;(c==d,e==f)"))). apply is_ok_get. vm_compute. reflexivity.
Defined.
Definition token : PageCursor := default [] (pg_next_cursor first_page).
Lemma token_ok : is_ok (cursor_decode (T:=Position) codec token (lit "tenant")) = true.
Proof. vm_compute. reflexivity. Qed.
Lemma continuation_authentic_witness : str_len token <= 4096.
Proof.
  exact (proj1 (proj1 (continuation_authentic codec token (lit "tenant")
    (get [] (cursor_decode (T:=Position) codec token (lit "tenant")))) (is_ok_get _ [] token_ok))).
Defined.
Lemma effective_query_sound_witness : 1 <= q_limit q <= s_max_limit devices.
Proof. apply (effective_query_sound devices params q q_ok). Defined.
Lemma page_continues_witness : is_Some (pg_next_cursor first_page).
Proof.
  assert (1 <= q_limit q) as Hl by (vm_compute; discriminate).
  apply (page_continues q rows codec (lit "tenant") first_page Hl first_page_ok). vm_compute. reflexivity.
Defined.
End Witnesses.
