(* ===== verification/InventoryValue.v ===== *)
(** * Inventory values and schemas ([crates/inventory/src/{lib,assets,catalog}.rs])

    The closed error vocabulary, field identities, typed scalars with the budget that bounds
    them, and value types: their bounds, the values they admit and their extension order. *)
From S2P Require Import Prelude Ordered Text External.

Inductive Invalid : Type :=
| Invalid_DuplicateField | Invalid_UnknownField | Invalid_UnknownSource | Invalid_TypeMismatch
| Invalid_Value | Invalid_Time | Invalid_State | Invalid_Evidence | Invalid_SourceNotAllowed
| Invalid_DuplicateSource | Invalid_SourceLimit | Invalid_Encoding.
#[export] Instance Invalid_eq_dec : EqDecision Invalid.
Proof. solve_decision. Defined.
Notation ires A := (res Invalid A) (only parsing).

(** ** Field identities *)
Record FieldKey : Type := mk_FieldKey { fk_bytes : bytes; fk_length : Z }.
#[export] Instance FieldKey_ord : Ord FieldKey := cmp_on (fun k => (fk_bytes k, fk_length k)).
#[export] Instance FieldKey_ord_laws : OrdLaws FieldKey.
Proof. apply cmp_on_laws. by intros [] [] [= -> ->]. Qed.
#[export] Instance FieldKey_eq_dec : EqDecision FieldKey := ord_eq_dec.

(** A lower-case identifier, the shape of a key segment and of a property name. *)
Definition is_name_byte (b : Z) : bool :=
  is_ascii_lowercase b || is_ascii_digit b || (b =? 95).
Definition starts_lowercase (l : bytes) : bool :=
  match l with b :: _ => is_ascii_lowercase b | [] => false end.
Definition key_segment (part : rstr) : bool :=
  negb (is_empty part) && starts_lowercase (str_bytes part) && forallb is_name_byte (str_bytes part).
Definition key_roots : list rstr := [lit "device"; lit "custom"; lit "channel"].
Definition FieldKey_parse (value : rstr) : ires FieldKey :=
  match split 46 value with
  | root :: parts =>
      _ ← reject ((128 <? str_len value) || negb (bool_decide (root ∈ key_roots))) Invalid_UnknownField;
      _ ← reject (existsb (fun p => negb (key_segment p)) parts) Invalid_UnknownField;
      _ ← reject (is_empty parts) Invalid_UnknownField;
      let text := str_bytes value in
      Ok (mk_FieldKey (text ++ repeat 0 (128 - length text)%nat) (str_len value))
  | [] => Err Invalid_UnknownField
  end.
Definition FieldKey_as_str (k : FieldKey) : ires rstr :=
  or_panic (from_utf8 (take (Z.to_nat (fk_length k)) (fk_bytes k))).

(** ** Scalars *)
Inductive Kind : Type := KString | KInteger | KNumber | KBoolean | KTime | KArray | KObject.
#[export] Instance Kind_eq_dec : EqDecision Kind.
Proof. solve_decision. Defined.

Section Scalars.
Context `{OF : OrderedFloat} `{TR : TimepointRange}.

Inductive Scalar : Type :=
| SString (s : rstr)
| SInteger (i : Z)
| SNumber (n : NotNan)
| SArray (values : list Scalar)
| SObject (values : list (rstr * Scalar))
| SBoolean (b : bool)
| STime (t : Z).

Definition Scalar_kind (v : Scalar) : Kind :=
  match v with
  | SString _ => KString | SInteger _ => KInteger | SNumber _ => KNumber | SArray _ => KArray
  | SObject _ => KObject | SBoolean _ => KBoolean | STime _ => KTime
  end.

(** The derived order: constructors in declaration order, then contents. *)
Definition scalar_rank (v : Scalar) : Z :=
  match v with
  | SString _ => 0 | SInteger _ => 1 | SNumber _ => 2 | SArray _ => 3 | SObject _ => 4
  | SBoolean _ => 5 | STime _ => 6
  end.
Fixpoint scalar_cmp (v w : Scalar) : comparison :=
  match v, w with
  | SString a, SString b => cmp a b
  | SInteger a, SInteger b => cmp a b
  | SNumber a, SNumber b => cmp a b
  | SArray a, SArray b => list_cmp_by scalar_cmp a b
  | SObject a, SObject b =>
      list_cmp_by (fun e e' => match e, e' with
        (k, v), (k', v') => then_cmp (cmp k k') (scalar_cmp v v') end) a b
  | SBoolean a, SBoolean b => cmp a b
  | STime a, STime b => cmp a b
  | _, _ => cmp (scalar_rank v) (scalar_rank w)
  end.
#[export] Instance scalar_ord : Ord Scalar := scalar_cmp.

(** *** Budgets *)
Record ScalarBudget : Type := mk_ScalarBudget { sb_nodes : Z; sb_bytes : Z }.
Definition ScalarBudget_default : ScalarBudget := mk_ScalarBudget 0 0.
Definition ScalarBudget_array : ScalarBudget := mk_ScalarBudget 1 0.

(** The counters a call leaves behind, and its result. *)
Notation charged := (ScalarBudget * ires ())%type (only parsing).
Definition then_visit (r : charged) (k : ScalarBudget -> charged) : charged :=
  match r with (b, Ok _) => k b | _ => r end.
Definition charge_node (b : ScalarBudget) : charged :=
  match checked_u64 (sb_nodes b + 1) with
  | Some n => (mk_ScalarBudget n (sb_bytes b), Ok ())
  | None => (b, Err Invalid_Value)
  end.
Definition charge_bytes (n : Z) (b : ScalarBudget) : charged :=
  match checked_u64 (sb_bytes b + n) with
  | Some n => (mk_ScalarBudget (sb_nodes b) n, Ok ())
  | None => (b, Err Invalid_Value)
  end.
Definition visit_all {A} (visit : A -> ScalarBudget -> charged) : list A -> ScalarBudget -> charged :=
  fix go l b := match l with
  | [] => (b, Ok ())
  | a :: l => then_visit (visit a b) (go l)
  end.
Definition max_text : Z := 16 * 1024 * 1024.
Fixpoint scalar_visit (value : Scalar) (depth : Z) (b : ScalarBudget) : charged :=
  then_visit (charge_node b) (fun b =>
  if (6 <? depth) || (200000 <? sb_nodes b) then (b, Err Invalid_Value) else
  match value with
  | SString s =>
      then_visit (charge_bytes (str_len s) b) (fun b =>
        (b, reject (existsb (Z.eqb 0) s || (max_text <? sb_bytes b)) Invalid_Value))
  | SNumber n => (b, reject (negb (is_finite n)) Invalid_Value)
  | STime t => (b, reject (negb (timepoint_try_from t)) Invalid_Time)
  | SArray values => visit_all (fun v b => scalar_visit v (depth + 1) b) values b
  | SObject values =>
      visit_all (fun e b => match e with (key, v) =>
        then_visit (charge_bytes (str_len key) b) (scalar_visit v (depth + 1)) end) values b
  | _ => (b, Ok ())
  end).
Definition ScalarBudget_observe (b : ScalarBudget) (value : Scalar) (depth : Z) : charged :=
  scalar_visit value depth b.
Definition Scalar_validate (value : Scalar) : ires () :=
  (ScalarBudget_observe ScalarBudget_default value 0).2.
End Scalars.
Arguments Scalar : clear implicits.
Arguments Scalar {OF}.

(** ** Value types *)
Record PropertyOf (T : Type) : Type := mk_Property { value_type : T; required : bool }.
Arguments mk_Property {T} _ _.
Arguments value_type {T} _.
Arguments required {T} _.

Inductive ValueType : Type :=
| TRecord (properties : list (rstr * PropertyOf ValueType))
| TString (max_length : Z) (allow_empty : bool)
| TEnum (values : list rstr)
| TInteger
| TNumber
| TBoolean
| TTime
| TArray (items : ValueType) (max_items : Z)
| TObject (properties : list (rstr * ValueType)).
Definition Property : Type := PropertyOf ValueType.

(** The declared members of a structure, with their presence requirement. *)
Definition properties (t : ValueType) : list (rstr * ValueType * bool) :=
  match t with
  | TObject ps => map (fun '(k, v) => (k, v, true)) ps
  | TRecord ps => map (fun '(k, p) => (k, value_type p, required p)) ps
  | _ => []
  end.
Definition ValueType_kind (t : ValueType) : Kind :=
  match t with
  | TString _ _ | TEnum _ => KString
  | TInteger => KInteger | TNumber => KNumber | TBoolean => KBoolean | TTime => KTime
  | TArray _ _ => KArray
  | TObject _ | TRecord _ => KObject
  end.

(** [==] of value types. *)
Definition list_eqb_by {A} (f : A -> A -> bool) : list A -> list A -> bool :=
  fix go l l' := match l, l' with
  | [], [] => true
  | a :: l, b :: l' => f a b && go l l'
  | _, _ => false
  end.
Fixpoint ValueType_eqb (t u : ValueType) : bool :=
  match t, u with
  | TRecord ps, TRecord qs =>
      list_eqb_by (fun e f => match e, f with
        | (k, mk_Property v r), (k', mk_Property v' r') =>
            bool_decide (k = k') && ValueType_eqb v v' && Bool.eqb r r' end) ps qs
  | TString m a, TString m' a' => (m =? m') && Bool.eqb a a'
  | TEnum vs, TEnum ws => bool_decide (vs = ws)
  | TInteger, TInteger | TNumber, TNumber | TBoolean, TBoolean | TTime, TTime => true
  | TArray i m, TArray j n => ValueType_eqb i j && (m =? n)
  | TObject ps, TObject qs =>
      list_eqb_by (fun e f => match e, f with
        | (k, v), (k', v') => bool_decide (k = k') && ValueType_eqb v v' end) ps qs
  | _, _ => false
  end.

(** A new version may widen bounds, vocabularies and optional members. *)
Fixpoint extends (self previous : ValueType) {struct previous} : bool :=
  match self, previous with
  | TEnum new, TEnum old => bs_subset old new
  | TString new empty, TString old old_empty => (old <=? new) && (negb old_empty || empty)
  | TArray new count, TArray old old_count => (old_count <=? count) && extends new old
  | TObject new, TObject old =>
      (zlen new =? zlen old)
      && forallb (fun e => match e with (key, ty) =>
           match bm_get key new with Some v => extends v ty | None => false end end) old
  | TRecord new, TRecord old =>
      forallb (fun e => match e with (key, mk_Property ty req) =>
        match bm_get key new with
        | Some v => (negb (required v) || req) && extends (value_type v) ty
        | None => false end end) old
      && forallb (fun e => bm_contains e.1 old || negb (required e.2)) new
  | TRecord new, TObject old =>
      forallb (fun e => match e with (key, ty) =>
        match bm_get key new with Some p => extends (value_type p) ty | None => false end end) old
      && forallb (fun e => bm_contains e.1 old || negb (required e.2)) new
  | _, _ => ValueType_eqb self previous
  end.

Definition property (key : rstr) : bool :=
  negb (is_empty key) && (str_len key <=? 64) && starts_lowercase (str_bytes key)
  && forallb is_name_byte (str_bytes key).
Definition enum_value_bad (v : rstr) : bool :=
  is_empty v || (256 <? str_len v) || has_control v.

(** [check]: the node count after the visit, or the rejection. *)
Fixpoint ValueType_check (t : ValueType) (depth nodes : Z) {struct t} : ires Z :=
  let nodes := nodes + 1 in
  if (6 <? depth) || (128 <? nodes) then Err Invalid_Value else
  let check_properties {A} (visit : A -> Z -> ires Z) (ps : list (rstr * A)) :=
    if is_empty ps || (64 <? zlen ps) then Err Invalid_Value else
    res_for (fun nodes e =>
      _ ← reject (negb (property e.1)) Invalid_Value; visit e.2 nodes) ps nodes in
  match t with
  | TString max_length _ =>
      _ ← reject (negb ((1 <=? max_length) && (max_length <=? 65536))) Invalid_Value; Ok nodes
  | TEnum values =>
      _ ← reject (is_empty values || (128 <? zlen values) || existsb enum_value_bad values) Invalid_Value;
      Ok nodes
  | TArray items max_items =>
      _ ← reject (negb ((1 <=? max_items) && (max_items <=? 100000))) Invalid_Value;
      ValueType_check items (depth + 1) nodes
  | TObject ps => check_properties (fun v => ValueType_check v (depth + 1)) ps
  | TRecord ps => check_properties (fun p => match p with mk_Property v _ => ValueType_check v (depth + 1) end) ps
  | _ => Ok nodes
  end.
Definition ValueType_validate (t : ValueType) : ires () := _ ← ValueType_check t 0 0; Ok ().

(** [iter.try_for_each(f)]. *)
Definition try_for_each {A} (f : A -> ires ()) : list A -> ires () :=
  fix go l := match l with [] => Ok () | a :: l => _ ← f a; go l end.

Section Values.
Context `{OF : OrderedFloat} `{TR : TimepointRange}.

Fixpoint validate_value (t : ValueType) (value : Scalar) {struct t} : ires () :=
  _ ← Scalar_validate value;
  let undeclared (values : list (rstr * Scalar)) :=
    existsb (fun k => negb (existsb (fun p => bool_decide (p.1.1 = k)) (properties t))) (bm_keys values) in
  match t, value with
  | TString max_length allow_empty, SString s =>
      reject (negb ((allow_empty || negb (is_empty s)) && (zlen s <=? max_length))) Invalid_TypeMismatch
  | TEnum values, SString s => reject (negb (bs_mem s values)) Invalid_TypeMismatch
  | TInteger, SInteger _ | TNumber, SNumber _ | TBoolean, SBoolean _ | TTime, STime _ => Ok ()
  | TArray items max_items, SArray values =>
      _ ← reject (max_items <? zlen values) Invalid_TypeMismatch;
      try_for_each (validate_value items) values
  | TObject ps, SObject values =>
      _ ← reject (undeclared values) Invalid_TypeMismatch;
      try_for_each (fun e => match e with (key, ty) =>
        match bm_get key values with
        | Some v => validate_value ty v
        | None => Err Invalid_TypeMismatch
        end end) ps
  | TRecord ps, SObject values =>
      _ ← reject (undeclared values) Invalid_TypeMismatch;
      try_for_each (fun e => match e with (key, mk_Property ty req) =>
        match bm_get key values with
        | Some v => validate_value ty v
        | None => reject req Invalid_TypeMismatch
        end end) ps
  | _, _ => Err Invalid_TypeMismatch
  end.
End Values.
