(* ===== verification/InventorySource.v ===== *)
(** * Inventory sources and namespaces
    ([crates/inventory/src/{source,channels,cut,retention,collection_scope}.rs])

    The closed producer vocabulary and its channels, committed history coordinates, and the
    namespaces a producer may assert facts in. *)
From S2P Require Import Prelude Ordered Text External InventoryValue.

(** ** Producers *)
Inductive Channel : Type := Channel_Agent | Channel_Mdm.
#[export] Instance Channel_eq_dec : EqDecision Channel.
Proof. solve_decision. Defined.
Definition Channel_as_str (c : Channel) : rstr :=
  match c with Channel_Agent => lit "agent" | Channel_Mdm => lit "mdm" end.

Inductive ReportSource : Type := Report_MdmApple | Report_MdmWindows | Report_AgentBuiltin.
#[export] Instance ReportSource_eq_dec : EqDecision ReportSource.
Proof. solve_decision. Defined.
Definition ReportSource_as_str (s : ReportSource) : rstr :=
  match s with
  | Report_MdmApple => lit "mdm.apple"
  | Report_MdmWindows => lit "mdm.windows"
  | Report_AgentBuiltin => lit "agent.builtin"
  end.
Definition ReportSource_parse (s : rstr) : ires ReportSource :=
  if bool_decide (s = lit "mdm.apple") then Ok Report_MdmApple
  else if bool_decide (s = lit "mdm.windows") then Ok Report_MdmWindows
  else if bool_decide (s = lit "agent.builtin") then Ok Report_AgentBuiltin
  else Err Invalid_UnknownSource.
Definition ReportSource_channel (s : ReportSource) : Channel :=
  match s with
  | Report_MdmWindows | Report_MdmApple => Channel_Mdm
  | Report_AgentBuiltin => Channel_Agent
  end.

Inductive Source : Type :=
| AgentScript | AgentNative | AgentOsquery | MdmApple | AgentBuiltin | Manual | MdmWindows.
#[export] Instance Source_eq_dec : EqDecision Source.
Proof. solve_decision. Defined.
Definition source_rank (s : Source) : Z :=
  match s with
  | AgentScript => 0 | AgentNative => 1 | AgentOsquery => 2 | MdmApple => 3 | AgentBuiltin => 4
  | Manual => 5 | MdmWindows => 6
  end.
#[export] Instance Source_ord : Ord Source := cmp_on source_rank.
#[export] Instance Source_ord_laws : OrdLaws Source.
Proof. apply cmp_on_laws. by intros [] []. Qed.
Definition Source_as_str (s : Source) : rstr :=
  match s with
  | Manual => lit "manual"
  | AgentScript => lit "agent.script"
  | AgentNative => lit "agent.native"
  | AgentOsquery => lit "agent.osquery"
  | MdmApple => ReportSource_as_str Report_MdmApple
  | MdmWindows => ReportSource_as_str Report_MdmWindows
  | AgentBuiltin => ReportSource_as_str Report_AgentBuiltin
  end.
Definition Source_channel (s : Source) : option Channel :=
  match s with
  | Manual => None
  | MdmWindows | MdmApple => Some Channel_Mdm
  | AgentBuiltin | AgentScript | AgentOsquery | AgentNative => Some Channel_Agent
  end.
Definition Source_from (s : ReportSource) : Source :=
  match s with
  | Report_MdmApple => MdmApple
  | Report_MdmWindows => MdmWindows
  | Report_AgentBuiltin => AgentBuiltin
  end.
Definition Source_parse (s : rstr) : ires Source :=
  if bool_decide (s = lit "manual") then Ok Manual
  else if bool_decide (s = lit "agent.script") then Ok AgentScript
  else if bool_decide (s = lit "agent.native") then Ok AgentNative
  else if bool_decide (s = lit "agent.osquery") then Ok AgentOsquery
  else r ← ReportSource_parse s; Ok (Source_from r).

Inductive Platform : Type := Windows | Macos.
#[export] Instance Platform_eq_dec : EqDecision Platform.
Proof. solve_decision. Defined.
#[export] Instance Platform_ord : Ord Platform :=
  cmp_on (fun p => match p with Windows => false | Macos => true end).
#[export] Instance Platform_ord_laws : OrdLaws Platform.
Proof. apply cmp_on_laws. by intros [] []. Qed.

(** ** Channel facts *)
Inductive AgentInstallation : Type := Absent | Installed | Installation_Unknown.
Definition requires_install (a : AgentInstallation) : bool :=
  match a with Absent => true | _ => false end.
Definition AgentInstallation_as_str (a : AgentInstallation) : rstr :=
  match a with
  | Absent => lit "absent" | Installed => lit "installed" | Installation_Unknown => lit "unknown"
  end.
Definition AgentInstallation_parse (s : rstr) : ires AgentInstallation :=
  if bool_decide (s = lit "absent") then Ok Absent
  else if bool_decide (s = lit "installed") then Ok Installed
  else if bool_decide (s = lit "unknown") then Ok Installation_Unknown
  else Err Invalid_Value.
Inductive MdmEnrollment : Type :=
| Unenrolled | ThisOrganization | OtherOrganization | Enrollment_Unknown.
Definition requires_enrollment (e : MdmEnrollment) : bool :=
  match e with Unenrolled => true | _ => false end.
Definition MdmEnrollment_as_str (e : MdmEnrollment) : rstr :=
  match e with
  | Unenrolled => lit "unenrolled"
  | ThisOrganization => lit "this_organization"
  | OtherOrganization => lit "other_organization"
  | Enrollment_Unknown => lit "unknown"
  end.
Definition MdmEnrollment_parse (s : rstr) : ires MdmEnrollment :=
  if bool_decide (s = lit "unenrolled") then Ok Unenrolled
  else if bool_decide (s = lit "this_organization") then Ok ThisOrganization
  else if bool_decide (s = lit "other_organization") then Ok OtherOrganization
  else if bool_decide (s = lit "unknown") then Ok Enrollment_Unknown
  else Err Invalid_Value.

(** ** Retention *)
Record RetentionPolicy : Type := mk_RetentionPolicy {
  rp_key : rstr; rp_revision : Z; raw_seconds : Z; summary_seconds : Z; restore_seconds : Z
}.
Definition RetentionPolicy_validate (p : RetentionPolicy) : ires () :=
  reject (is_empty (rp_key p) || (64 <? str_len (rp_key p))
          || negb (starts_lowercase (str_bytes (rp_key p)))
          || negb (forallb is_name_byte (str_bytes (rp_key p)))
          || (rp_revision p =? 0) || (i64_max <? rp_revision p)
          || (raw_seconds p =? 0) || (summary_seconds p <? raw_seconds p)
          || (raw_seconds p <? restore_seconds p)) Invalid_Value.

(** ** Namespaces *)
Inductive ApplicationRoot : Type := Root_Local | Root_System | Root_User.
#[export] Instance ApplicationRoot_eq_dec : EqDecision ApplicationRoot.
Proof. solve_decision. Defined.
Inductive BrewPackage : Type := Formula | Cask.
#[export] Instance BrewPackage_eq_dec : EqDecision BrewPackage.
Proof. solve_decision. Defined.
Inductive LocalAccountIdentity : Type :=
| Account_Windows (sid : rstr)
| Account_Macos (uid : Z) (generated_uid : rstr).
#[export] Instance LocalAccountIdentity_eq_dec : EqDecision LocalAccountIdentity.
Proof. solve_decision. Defined.
Inductive CollectionScope : Type :=
| NativeCertificates (platform : Platform) (owner : option LocalAccountIdentity) (store : rstr)
| NativeAccounts (platform : Platform) (identities : list rstr)
| NativeApplication (platform : Platform) (identity : rstr) (owner : option LocalAccountIdentity)
| NativeUser (owner : LocalAccountIdentity)
| Device
| AppleUser (identity : rstr)
| MacosApplications (root : ApplicationRoot) (uid : option Z)
| MacosBrew (uid : Z) (prefix : rstr) (package : BrewPackage) (taps : list rstr).
#[export] Instance CollectionScope_eq_dec : EqDecision CollectionScope.
Proof. solve_decision. Defined.

(** A text that parses as an unsigned integer and is its canonical decimal. *)
Definition canonical_unsigned (max : Z) (s : rstr) : bool :=
  match parse_unsigned max s with Some n => bool_decide (int_to_string n = s) | None => false end.

(** [software.rs]: the textual SID of an installation owner. *)
Definition sid (value : rstr) : bool :=
  match strip_prefix (lit "S-1-") value with
  | None => false
  | Some parts =>
      match split 45 parts with
      | [] => false
      | authority :: parts =>
          match parse_unsigned u64_max authority with
          | Some n => (n <? 2 ^ 48) && bool_decide (int_to_string n = authority)
          | None => false
          end
          && forallb (canonical_unsigned (2 ^ 32 - 1)) parts
          && (1 <=? zlen parts) && (zlen parts <=? 15)
      end
  end.

Section Scopes.
Context `{UC : UuidCrate} `{UT : !UuidText}.

Definition canonical_uuid (s : rstr) : bool :=
  match uuid_parse_str s with
  | Some id => negb (is_nil id) && bool_decide (uuid_to_string id = s)
  | None => false
  end.
Definition LocalAccountIdentity_validate (a : LocalAccountIdentity) : bool :=
  match a with
  | Account_Windows sid =>
      (str_len sid <=? 184) && starts_with (lit "S-1-") sid
      && (2 <=? zlen (drop 2 (split 45 sid)))
      && forallb (canonical_unsigned u64_max) (drop 2 (split 45 sid))
  | Account_Macos uid generated_uid => (0 <? uid) && canonical_uuid generated_uid
  end.
Definition account_platform (a : LocalAccountIdentity) : Platform :=
  match a with Account_Windows _ => Windows | Account_Macos _ _ => Macos end.

Definition owner_valid (platform : Platform) (owner : option LocalAccountIdentity) : bool :=
  match owner with
  | None => true
  | Some o => LocalAccountIdentity_validate o && bool_decide (account_platform o = platform)
  end.
Definition stores (platform : Platform) : list rstr :=
  match platform with
  | Windows => [lit "my"; lit "root"; lit "ca"; lit "trusted_publisher"]
  | Macos => [lit "system"; lit "system_roots"; lit "login"]
  end.
(** [bytes().enumerate()] of a lower-case hyphenated UUID. *)
Fixpoint uuid_shape (i : Z) (l : bytes) : bool :=
  match l with
  | [] => true
  | b :: l => (if bool_decide (i ∈ [8; 13; 18; 23]) then b =? 45
               else is_ascii_digit b || (97 <=? b) && (b <=? 102)) && uuid_shape (i + 1) l
  end.
Definition path_part_ok (p : rstr) : bool :=
  negb (is_empty p) && negb (bool_decide (p = lit ".")) && negb (bool_decide (p = lit "..")).
Definition tap_byte (b : Z) : bool :=
  is_ascii_lowercase b || is_ascii_digit b || bool_decide (b ∈ lit "._-").
Definition tap_ok (tap : rstr) : bool :=
  (str_len tap <=? 255) && (zlen (split 47 tap) =? 2)
  && forallb (fun p => path_part_ok p && forallb tap_byte (str_bytes p)) (split 47 tap).
Definition scope_valid (s : CollectionScope) : bool :=
  match s with
  | NativeCertificates platform owner store =>
      bool_decide (store ∈ stores platform) && owner_valid platform owner
      && (negb (bool_decide (platform = Macos))
          || Bool.eqb (bool_decide (store = lit "login")) (bool_decide (is_Some owner)))
  | NativeAccounts platform identities =>
      (zlen identities <=? 256)
      && forallb (fun s => match platform with
                           | Windows => LocalAccountIdentity_validate (Account_Windows s)
                           | Macos => canonical_uuid s
                           end) identities
  | NativeApplication platform identity owner =>
      negb (is_empty identity) && (str_len identity <=? 4096) && negb (has_control identity)
      && owner_valid platform owner
  | NativeUser owner => LocalAccountIdentity_validate owner
  | Device => true
  | AppleUser identity =>
      (str_len identity =? 36) && uuid_shape 0 (str_bytes identity)
      && negb (bool_decide (identity = lit "00000000-0000-0000-0000-000000000000"))
  | MacosApplications Root_User (Some uid) => 0 <? uid
  | MacosApplications (Root_Local | Root_System) None => true
  | MacosApplications _ _ => false
  | MacosBrew uid prefix _ taps =>
      (0 <? uid) && (str_len prefix <=? 4096) && starts_with (lit "/") prefix
      && negb (has_control prefix)
      && forallb path_part_ok (split 47 (drop 1 prefix))
      && (zlen taps <=? 64) && forallb tap_ok taps
  end.
Definition validate_executable (s : CollectionScope) : ires () :=
  reject (negb (scope_valid s)) Invalid_Value.
Definition validate_source (s : CollectionScope) (source : Source) : ires () :=
  _ ← validate_executable s;
  reject (negb (match s with
    | Device => negb (bool_decide (source = Manual))
    | AppleUser _ => bool_decide (source = MdmApple)
    | _ => bool_decide (source = AgentNative)
    end)) Invalid_SourceNotAllowed.

(** *** Committed history coordinates *)
Record AssetCut : Type := mk_AssetCut { cut_tenant : Uuid; cut_epoch : Uuid; cut_snapshot : rstr }.
Definition AssetCut_try_from (cut : AssetCut) : option AssetCut :=
  if is_nil (cut_tenant cut) || is_nil (cut_epoch cut) || is_empty (cut_snapshot cut)
     || (65536 <? str_len (cut_snapshot cut))
     || negb (forallb (fun b => is_ascii_digit b || (b =? 58) || (b =? 44)) (str_bytes (cut_snapshot cut)))
  then None else Some cut.
End Scopes.
