(* ===== verification/InventoryField.v ===== *)
(** * Inventory field definitions
    ([crates/inventory/src/{catalog,time_series,telemetry,hardware,software}.rs])

    Published field versions with their history binding, the values a field admits and their
    canonical form, the tenant catalog, and declared paths into structured values. *)
From S2P Require Import Prelude Ordered Text External Json InventoryValue InventorySource.

(** ** History bindings *)
Inductive TelemetryKind : Type := Gauge | CumulativeCounter | DeltaCounter | StateSeries.
#[export] Instance TelemetryKind_eq_dec : EqDecision TelemetryKind.
Proof. solve_decision. Defined.
Inductive TelemetryAggregation : Type :=
| Agg_Min | Agg_Max | Agg_Sum | Agg_Count | Agg_Mean | Agg_Increase | Agg_Rate | Agg_Timeline
| Agg_Transitions | Agg_Coverage.
#[export] Instance TelemetryAggregation_eq_dec : EqDecision TelemetryAggregation.
Proof. solve_decision. Defined.
Record TelemetryDimension : Type := mk_TelemetryDimension { td_path : list rstr; td_values : list rstr }.
Record RetentionReference : Type := mk_RetentionReference { rr_key : rstr; rr_revision : Z }.
Record TimeSeriesBinding : Type := mk_TimeSeriesBinding {
  ts_kind : TelemetryKind; ts_value_path : list rstr; interval_start_path : option (list rstr);
  dimensions : list (rstr * TelemetryDimension); aggregations : list TelemetryAggregation;
  retention : RetentionReference; max_resources : Z
}.
Definition name (v : rstr) : bool :=
  negb (is_empty v) && (str_len v <=? 64) && starts_lowercase (str_bytes v)
  && forallb is_name_byte (str_bytes v).
Definition ts_path (v : list rstr) : bool := (zlen v <=? 6) && forallb name v.
Definition is_counter (k : TelemetryKind) : bool :=
  match k with CumulativeCounter | DeltaCounter => true | _ => false end.
Definition aggregation_allowed (k : TelemetryKind) (a : TelemetryAggregation) : bool :=
  match k, a with
  | Gauge, (Agg_Min | Agg_Max | Agg_Sum | Agg_Count | Agg_Mean) => true
  | CumulativeCounter, (Agg_Increase | Agg_Rate) => true
  | DeltaCounter, (Agg_Sum | Agg_Rate) => true
  | StateSeries, (Agg_Timeline | Agg_Transitions | Agg_Coverage) => true
  | _, _ => false
  end.
(** The dimension loop over [combinations] and [vocabulary_bytes]. *)
Definition dimension_step (acc : Z * Z) (e : rstr * TelemetryDimension) : ires (Z * Z) :=
  let '(combinations, vocabulary_bytes) := acc in
  let '(key, dimension) := e in
  _ ← reject (negb (name key) || is_empty (td_path dimension) || negb (ts_path (td_path dimension))
              || is_empty (td_values dimension) || (256 <? zlen (td_values dimension))) Invalid_Value;
  combinations ← ok_or (checked_u64 (combinations * zlen (td_values dimension))) Invalid_Value;
  vocabulary_bytes ← res_for (fun total value =>
    _ ← reject (is_empty value || (256 <? str_len value) || has_control value) Invalid_Value;
    Ok (total + str_len value)) (td_values dimension) vocabulary_bytes;
  Ok (combinations, vocabulary_bytes).
Definition TimeSeriesBinding_validate (b : TimeSeriesBinding) : ires () :=
  _ ← reject (negb (ts_path (ts_value_path b))
      || match interval_start_path b with
         | Some v => is_empty v || negb (ts_path v) || negb (is_counter (ts_kind b))
         | None => false
         end
      || (64 <? zlen (dimensions b)) || is_empty (aggregations b)
      || negb (name (rr_key (retention b))) || (rr_revision (retention b) =? 0)
      || (i64_max <? rr_revision (retention b))
      || negb ((1 <=? max_resources b) && (max_resources b <=? 4096))) Invalid_Value;
  totals ← res_for dimension_step (dimensions b) (max_resources b, 0);
  _ ← reject ((4096 <? totals.1) || (32768 <? totals.2)) Invalid_Value;
  reject (existsb (fun a => negb (aggregation_allowed (ts_kind b) a)) (aggregations b)) Invalid_Value.

(** ** Field definitions *)
Inductive Sensitivity : Type := Standard | Sensitive | Secret.
#[export] Instance Sensitivity_eq_dec : EqDecision Sensitivity.
Proof. solve_decision. Defined.
Record FieldDefinition : Type := mk_FieldDefinition {
  time_series : option TimeSeriesBinding; fd_key : FieldKey; fd_version : Z;
  fd_type : ValueType; nullable : bool; manual : bool; fd_sources : list (Source * Z);
  platforms : list Platform; sensitivity : Sensitivity; unit_ : option rstr;
  searchable : bool; item_key : option rstr
}.

(** [rss_timeseries]: its identities and metric constructors. *)
Inductive NumberKind : Type := I64 | F64.
Inductive Temporality : Type := Cumulative | Delta.
Class TimeSeriesCrate : Type := {
  Metric : Type;
  ts_id : rstr -> bool;
  metric_gauge : NumberKind -> Metric;
  metric_counter : NumberKind -> Temporality -> Metric;
  metric_bool : Metric;
  metric_state : list rstr -> Metric
}.

Definition find_property (t : ValueType) (p : rstr -> bool -> bool) : option ValueType :=
  match List.find (fun e => p e.1.1 e.2) (properties t) with
  | Some (_, ty, _) => Some ty
  | None => None
  end.
Definition selected (root : ValueType) (path : list rstr) : ires ValueType :=
  res_for (fun ty part =>
    ok_or (find_property ty (fun name required => bool_decide (name = part) && required))
      Invalid_TypeMismatch) path root.

Section TimeSeries.
Context `{TS : TimeSeriesCrate}.
Definition metric (ty : ValueType) (kind : TelemetryKind) : ires Metric :=
  let number := match ty with TInteger => Some I64 | TNumber => Some F64 | _ => None end in
  match kind with
  | Gauge => n ← ok_or number Invalid_TypeMismatch; Ok (metric_gauge n)
  | CumulativeCounter | DeltaCounter =>
      n ← ok_or number Invalid_TypeMismatch;
      Ok (metric_counter n (if bool_decide (kind = CumulativeCounter) then Cumulative else Delta))
  | StateSeries =>
      match ty with
      | TBoolean => Ok metric_bool
      | TEnum values =>
          _ ← reject (existsb (fun v => negb (ts_id v)) values) Invalid_Value;
          Ok (metric_state values)
      | _ => Err Invalid_TypeMismatch
      end
  end.
Definition dimension_value_ok (ty : ValueType) (v : rstr) : bool :=
  match ty with
  | TEnum values => bs_mem v values
  | TBoolean => bool_decide (v ∈ [lit "true"; lit "false"])
  | TInteger => match parse_i64 v with Some n => bool_decide (int_to_string n = v) | None => false end
  | TString max_length _ => zlen v <=? max_length
  | _ => false
  end.
Definition is_agent (s : Source) : bool :=
  match s with AgentBuiltin | AgentNative | AgentScript | AgentOsquery => true | _ => false end.
Definition validate_time_series (f : FieldDefinition) : ires () :=
  match time_series f with
  | None => Ok ()
  | Some binding =>
      _ ← match TimeSeriesBinding_validate binding with Ok u => Ok u | Err _ => Err Invalid_Value | Panic => Panic end;
      _ ← reject (negb (existsb is_agent (bm_keys (fd_sources f)))) Invalid_SourceNotAllowed;
      root ← match fd_type f with
             | TArray items max_items =>
                 _ ← reject (bool_decide (item_key f = None) || (max_items <? max_resources binding)) Invalid_Value;
                 Ok items
             | ty => _ ← reject (negb (max_resources binding =? 1)) Invalid_Value; Ok ty
             end;
      leaf ← selected root (ts_value_path binding);
      _ ← metric leaf (ts_kind binding);
      _ ← match interval_start_path binding with
          | Some path =>
              ty ← selected root path;
              reject (match ty with TInteger => false | _ => true end) Invalid_TypeMismatch
          | None => reject (bool_decide (is_Some (item_key f)) && is_counter (ts_kind binding)) Invalid_Value
          end;
      res_for (fun _ d =>
        ty ← selected root (td_path d);
        reject (existsb (fun v => negb (dimension_value_ok ty v)) (td_values d)) Invalid_TypeMismatch)
        (bm_values (dimensions binding)) ()
  end.
Definition time_series_extends (new previous : FieldDefinition) : bool :=
  match time_series new, time_series previous with
  | _, None => true
  | Some new, Some old =>
      bool_decide (ts_kind new = ts_kind old) && bool_decide (ts_value_path new = ts_value_path old)
      && bool_decide (interval_start_path new = interval_start_path old)
      && (zlen (dimensions new) =? zlen (dimensions old))
      && forallb (fun '(key, value) => match bm_get key (dimensions new) with
           | Some d => bool_decide (td_path d = td_path value) && bs_subset (td_values value) (td_values d)
           | None => false
           end) (dimensions old)
      && forallb (fun a => bool_decide (a ∈ aggregations new)) (aggregations old)
      && (max_resources old <=? max_resources new)
  | None, Some _ => false
  end.

Definition FieldDefinition_validate (f : FieldDefinition) : ires () :=
  _ ← ValueType_validate (fd_type f);
  _ ← validate_time_series f;
  _ ← reject (bool_decide (sensitivity f = Secret)
              && (manual f || searchable f || match time_series f with Some _ => true | None => false end))
        Invalid_Value;
  _ ← reject ((fd_version f =? 0) || (i64_max <? fd_version f) || is_empty (fd_sources f)
              || is_empty (platforms f) || negb (Bool.eqb (manual f) (bm_contains Manual (fd_sources f)))
              || match unit_ f with
                 | Some u => is_empty u || (64 <? str_len u) || has_control u
                 | None => false
                 end) Invalid_Value;
  match item_key f with
  | None => Ok ()
  | Some key =>
      match fd_type f with
      | TArray items _ =>
          match find_property items (fun name required => bool_decide (name = key) && required) with
          | Some (TString _ false | TInteger) => Ok ()
          | _ => Err Invalid_TypeMismatch
          end
      | _ => Err Invalid_TypeMismatch
      end
  end.
End TimeSeries.

(** ** Hardware identities and installed software *)
Section Hardware.
Context `{UC : UuidCrate} `{UT : !UuidText} `{UB : !UuidBits} `{UN : Unicode}.

Definition placeholders : list rstr :=
  [lit "UNKNOWN"; lit "NONE"; lit "NULL"; lit "N/A"; lit "NA"; lit "NOT SPECIFIED";
   lit "NOT APPLICABLE"; lit "DEFAULT STRING"; lit "SYSTEM SERIAL NUMBER";
   lit "TO BE FILLED BY O.E.M."; lit "TO BE FILLED BY OEM"].
Definition normalize_serial_number (value : rstr) : ires rstr :=
  let value := to_uppercase (trim value) in
  _ ← reject (is_empty value || (256 <? str_len value) || has_control value
              || bool_decide (value ∈ placeholders)
              || forallb (fun c => (c =? 48) || (c =? 45) || (c =? 32)) value) Invalid_Value;
  Ok value.
Definition normalize_hardware_uuid (value : rstr) : ires rstr :=
  text ← normalize_serial_number value;
  id ← ok_or (uuid_parse_str text) Invalid_Value;
  _ ← reject (is_nil id || (uuid_as_u128 id =? 2 ^ 128 - 1)
              || (uuid_as_u128 id =? 0x03000200040005000006000700080009)) Invalid_Value;
  Ok (uuid_to_string id).
End Hardware.

Section Fields.
Context `{OF : OrderedFloat} `{TR : TimepointRange} `{UC : UuidCrate} `{UT : !UuidText}
  `{UB : !UuidBits} `{UN : Unicode}.
Implicit Types (f : FieldDefinition) (value : Scalar).

(** [software::validate]: an installation is not a receipt or a provisioning. *)
Definition row_text (row : list (rstr * Scalar)) (key : rstr) : ires rstr :=
  match bm_get key row with Some (SString v) => Ok v | _ => Err Invalid_Value end.
Definition software_validate (item : Scalar) : ires () :=
  match item with
  | SObject row =>
      state ← row_text row (lit "installation_state");
      scope ← row_text row (lit "scope");
      owner ← row_text row (lit "owner");
      origin ← row_text row (lit "origin");
      let is_device := bool_decide (scope = lit "device") in
      let is_user := bool_decide (scope = lit "user") in
      _ ← reject (negb (is_device && is_empty owner || is_user && negb (is_empty owner))) Invalid_Value;
      let windows := starts_with (lit "win32.") origin || starts_with (lit "msix.") origin in
      _ ← reject (windows && is_user && negb (sid owner)) Invalid_Value;
      reject (negb (
        if bool_decide (origin ∈ [lit "win32.uninstall.32"; lit "win32.uninstall.64"])
        then bool_decide (state = lit "installed")
        else if bool_decide (origin = lit "msix.registered")
        then bool_decide (state = lit "registered") && is_user
        else if bool_decide (origin = lit "msix.provisioned")
        then bool_decide (state = lit "provisioned") && is_device
        else if windows then false
        else bool_decide (state = lit "installed"))) Invalid_Value
  | _ => Err Invalid_TypeMismatch
  end.

(** [hardware_value]: the canonical text of a hardware identity, for its two keys. *)
Definition hardware_value f value : ires (option rstr) :=
  key ← FieldKey_as_str (fd_key f);
  let normalized normalize :=
    match value with
    | SString v => s ← normalize v; Ok (Some s)
    | _ => Err Invalid_TypeMismatch
    end in
  if bool_decide (key = lit "device.serial_number") then normalized normalize_serial_number
  else if bool_decide (key = lit "device.hardware_uuid") then normalized normalize_hardware_uuid
  else Ok None.
Definition validate_item f value : ires () :=
  _ ← reject (bool_decide (sensitivity f = Secret)) Invalid_Value;
  match fd_type f with
  | TArray items _ =>
      _ ← validate_value items value;
      key ← FieldKey_as_str (fd_key f);
      if bool_decide (key = lit "device.software.installations") then software_validate value else Ok ()
  | _ => Err Invalid_TypeMismatch
  end.
(** One step of the identity loop: the identities seen so far. *)
Definition identity_step (key : rstr) (seen : list Scalar) (item : Scalar) : ires (list Scalar) :=
  match item with
  | SObject ps =>
      identity ← ok_or (bm_get key ps) Invalid_Value;
      _ ← reject (bs_mem identity seen) Invalid_Value;
      Ok (bs_insert identity seen)
  | _ => Err Invalid_TypeMismatch
  end.
Definition validate_scalar f value : ires () :=
  _ ← reject (bool_decide (sensitivity f = Secret)) Invalid_Value;
  _ ← validate_value (fd_type f) value;
  _ ← hardware_value f value;
  _ ← match value with SArray items => try_for_each (validate_item f) items | _ => Ok () end;
  match item_key f, value with
  | Some key, SArray items => _ ← res_for (identity_step key) items []; Ok ()
  | _, _ => Ok ()
  end.
Definition item_identity (key : rstr) (item : Scalar) : option Scalar :=
  match item with SObject ps => bm_get key ps | _ => None end.
Definition is_object (v : Scalar) : bool := match v with SObject _ => true | _ => false end.
Definition canonical_value f value : ires Scalar :=
  canonical ← hardware_value f value;
  let value := match canonical with Some s => SString s | None => value end in
  _ ← validate_scalar f value;
  match item_key f, value with
  | Some key, SArray items =>
      _ ← or_panic (if (1 <? zlen items) && negb (forallb is_object items) then None else Some ());
      Ok (SArray (sort_by (item_identity key) items))
  | _, _ => Ok value
  end.

(** ** Condition operators *)
Inductive Operator : Type :=
| Op_Eq | Op_Ne | Op_In | Op_NotIn | Op_Lt | Op_Le | Op_Gt | Op_Ge | Op_Contains | Op_NotContains
| Op_ContainsAny | Op_ContainsAll | Op_IsNull | Op_IsNotNull.
Definition structured (t : ValueType) : bool :=
  match t with TObject _ | TRecord _ => true | _ => false end.
Definition operations f : list Operator :=
  if negb (searchable f) || structured (fd_type f)
     || match fd_type f with
        | TArray items _ => structured items || match items with TArray _ _ => true | _ => false end
        | _ => false
        end
  then [] else
  match fd_type f with
  | TArray _ _ => [Op_ContainsAny; Op_ContainsAll]
  | TObject _ | TRecord _ => []
  | _ => [Op_Eq; Op_Ne; Op_In; Op_NotIn]
  end ++
  match ValueType_kind (fd_type f) with
  | KString => match fd_type f with TEnum _ => [] | _ => [Op_Contains; Op_NotContains] end
  | KInteger | KNumber | KTime => [Op_Lt; Op_Le; Op_Gt; Op_Ge]
  | _ => []
  end ++
  (if nullable f then [Op_IsNull; Op_IsNotNull] else []).
End Fields.

(** ** The catalog *)
Record Catalog : Type := mk_Catalog { cat_fields : list (FieldKey * FieldDefinition) }.
(** [name[..index]] for every index of a dot. *)
Fixpoint dot_prefixes (before s : rstr) : list rstr :=
  match s with
  | [] => []
  | c :: s => (if c =? 46 then [before] else []) ++ dot_prefixes (before ++ [c]) s
  end.
Section Catalog.
Context `{TS : TimeSeriesCrate}.
Definition catalog_insert (fields : list (FieldKey * FieldDefinition)) (d : FieldDefinition)
    : ires (list (FieldKey * FieldDefinition)) :=
  _ ← FieldDefinition_validate d;
  _ ← reject (bm_contains (fd_key d) fields) Invalid_DuplicateField;
  Ok (bm_insert (fd_key d) d fields).
(** A published field may not be the parent of another. *)
Definition catalog_parent (fields : list (FieldKey * FieldDefinition)) (prefix : rstr) : bool :=
  match FieldKey_parse prefix with Ok parent => bm_contains parent fields | _ => false end.
Definition Catalog_new (definitions : list FieldDefinition) : ires Catalog :=
  _ ← reject (1024 <? zlen definitions) Invalid_Value;
  fields ← res_for catalog_insert definitions [];
  _ ← res_for (fun _ key =>
    name ← FieldKey_as_str key;
    reject (existsb (catalog_parent fields) (dot_prefixes [] name)) Invalid_DuplicateField)
    (bm_keys fields) ();
  Ok (mk_Catalog fields).
Definition Catalog_definition (c : Catalog) (key : FieldKey) : ires FieldDefinition :=
  ok_or (bm_get key (cat_fields c)) Invalid_UnknownField.

Record FieldPath : Type := mk_FieldPath {
  fp_root : FieldDefinition; fp_type : ValueType; fp_many : bool; segments : list rstr
}.
(** [while let ValueType::Array { items, .. } = value_type]. *)
Fixpoint strip_arrays (t : ValueType) (many : bool) : ValueType * bool :=
  match t with TArray items _ => strip_arrays items true | _ => (t, many) end.
Definition path_step (acc : ValueType * bool) (part : rstr) : ires (ValueType * bool) :=
  let '(t, many) := strip_arrays acc.1 acc.2 in
  ty ← ok_or (find_property t (fun key _ => bool_decide (key = part))) Invalid_UnknownField;
  Ok (ty, many).
(** [filter_map] then [max_by_key]: the longest registered prefix and the rest after its dot. *)
Definition longest_step (key : rstr) (best : option (FieldDefinition * rstr * Z)) (f : FieldDefinition)
    : ires (option (FieldDefinition * rstr * Z)) :=
  name ← FieldKey_as_str (fd_key f);
  Ok (match strip_prefix name key with
      | Some (46 :: s) =>
          match best with
          | Some (_, _, n) => if str_len name <? n then best else Some (f, s, str_len name)
          | None => Some (f, s, str_len name)
          end
      | _ => best
      end).
Definition Catalog_path (c : Catalog) (key : FieldKey) : ires FieldPath :=
  root ← match bm_get key (cat_fields c) with
         | Some root => Ok (root, [])
         | None =>
             text ← FieldKey_as_str key;
             best ← res_for (longest_step text) (bm_values (cat_fields c)) None;
             best ← ok_or best Invalid_UnknownField;
             Ok (best.1.1, best.1.2)
         end;
  let segments := if is_empty root.2 then [] else split 46 root.2 in
  leaf ← res_for path_step segments (fd_type root.1, false);
  let '(t, many) := strip_arrays leaf.1 leaf.2 in
  Ok (mk_FieldPath root.1 t many segments).
End Catalog.

Section Paths.
Context `{OF : OrderedFloat} `{TR : TimepointRange} `{UC : UuidCrate} `{UT : !UuidText}
  `{UB : !UuidBits} `{UN : Unicode}.
Fixpoint collect_leaves (parts : list rstr) : Scalar -> list Scalar -> ires (list Scalar) :=
  fix go value out :=
    match value with
    | SArray values => res_for (fun out v => go v out) values out
    | _ =>
        match parts with
        | part :: rest =>
            match value with
            | SObject values =>
                match bm_get part values with
                | Some v => collect_leaves rest v out
                | None => Ok out
                end
            | _ => Err Invalid_TypeMismatch
            end
        | [] => Ok (out ++ [value])
        end
    end.
Definition leaves (p : FieldPath) (value : Scalar) : ires (list Scalar) :=
  collect_leaves (segments p) value [].
Definition FieldPath_values (p : FieldPath) (value : Scalar) : ires (list Scalar) :=
  _ ← validate_scalar (fp_root p) value; leaves p value.
Definition item_values (p : FieldPath) (value : Scalar) : ires (list Scalar) :=
  _ ← validate_item (fp_root p) value; leaves p value.
End Paths.

(** ** Provider JSON *)
(** [Number::as_f64] and [NotNan::new]. *)
Class JsonFloats `{SJ : SerdeJson} `{OF : OrderedFloat} : Type := {
  F64Value : Type; number_as_f64 : Number -> option F64Value; notnan_new : F64Value -> option NotNan
}.
Arguments JsonFloats : clear implicits.
Arguments JsonFloats {SJ OF}.

Section DecodeJson.
Context `{SJ : SerdeJson} `{OF : OrderedFloat} `{JF : !JsonFloats} `{TR : TimepointRange}.
Fixpoint decode_json (value : Json Number) (t : ValueType) {struct value} : ires Scalar :=
  scalar ← match t, value with
    | (TString _ _ | TEnum _), JString s => Ok (SString s)
    | TInteger, JNumber n => i ← ok_or (number_as_i64 n) Invalid_TypeMismatch; Ok (SInteger i)
    | TNumber, JNumber n =>
        x ← ok_or (number_as_f64 n) Invalid_TypeMismatch;
        x ← ok_or (notnan_new x) Invalid_Value;
        Ok (SNumber x)
    | TBoolean, JBool b => Ok (SBoolean b)
    | TTime, JNumber n => i ← ok_or (number_as_i64 n) Invalid_TypeMismatch; Ok (STime i)
    | TArray items max_items, JArray values =>
        _ ← reject (max_items <? zlen values) Invalid_TypeMismatch;
        l ← res_map (fun v => decode_json v items) values;
        Ok (SArray l)
    | (TObject _ | TRecord _), JObject members =>
        l ← res_map (fun e => match e with (key, v) =>
          ty ← ok_or (find_property t (fun name _ => bool_decide (name = key))) Invalid_TypeMismatch;
          s ← decode_json v ty;
          Ok (key, s) end) members;
        Ok (SObject (foldl (fun m e => bm_insert e.1 e.2 m) [] l))
    | _, _ => Err Invalid_TypeMismatch
    end;
  _ ← validate_value t scalar;
  Ok scalar.
End DecodeJson.
