(* ===== verification/InventoryResolve.v ===== *)
(** * Resolution of inventory sources ([crates/inventory/src/{assets,array,collected}.rs])

    Facts from several sources about one field, their admission, and the single state every
    product view reads.  Array fields are resolved on summaries instead of values. *)
From S2P Require Import Prelude Ordered Text External InventoryValue InventorySource InventoryField.

Inductive UnknownReason : Type := UnorderedConflict | Incomplete | NativeStatus | EvidenceLimit.
#[export] Instance UnknownReason_eq_dec : EqDecision UnknownReason.
Proof. solve_decision. Defined.

Record Evidence : Type := mk_Evidence {
  ev_scope : CollectionScope; ev_source : Source; ev_dataset : option rstr;
  ev_registration : option rstr; ev_registration_generation : option Z; ev_epoch : option rstr;
  ev_snapshot_id : rstr; ev_observed_at : Z; ev_received_at : Z; ev_actor : option rstr
}.

Section Evidence.
Context `{TR : TimepointRange} `{UC : UuidCrate} `{UT : !UuidText}.

Definition bounded (s : rstr) : bool :=
  negb (is_empty s) && (str_len s <=? 256) && negb (has_control s).
(** [is_none_or(|s| !bounded(s))]. *)
Definition unbounded (o : option rstr) : bool :=
  match o with Some s => negb (bounded s) | None => true end.
Definition validate_evidence (definition : FieldDefinition) (e : Evidence) : ires () :=
  let is_manual := bool_decide (ev_source e = Manual) in
  _ ← (if is_manual then reject (negb (bool_decide (ev_scope e = Device))) Invalid_Evidence
       else validate_source (ev_scope e) (ev_source e));
  _ ← reject (negb (bm_contains (ev_source e) (fd_sources definition))) Invalid_SourceNotAllowed;
  reject (negb (bounded (ev_snapshot_id e)) || negb (timepoint_try_from (ev_observed_at e))
          || negb (timepoint_try_from (ev_received_at e))
          || if is_manual
             then given (ev_dataset e) || given (ev_registration e)
                  || given (ev_registration_generation e) || given (ev_epoch e)
                  || unbounded (ev_actor e)
             else unbounded (ev_dataset e) || unbounded (ev_registration e)
                  || unbounded (ev_epoch e) || given (ev_actor e)
                  || bool_decide (ev_registration_generation e = Some 0)) Invalid_Evidence.
(** The coordinates a retained value shares with its current fact. *)
Definition same_coordinates (e old : Evidence) : bool :=
  bool_decide (ev_scope e = ev_scope old)
  && bool_decide (Source_as_str (ev_source e) = Source_as_str (ev_source old))
  && bool_decide (ev_registration e = ev_registration old)
  && bool_decide (ev_registration_generation e = ev_registration_generation old)
  && bool_decide (ev_epoch e = ev_epoch old) && bool_decide (ev_dataset e = ev_dataset old).
Definition same_array_coordinates (e old : Evidence) : bool :=
  bool_decide (ev_scope e = ev_scope old) && bool_decide (ev_source e = ev_source old)
  && bool_decide (ev_registration e = ev_registration old)
  && bool_decide (ev_registration_generation e = ev_registration_generation old)
  && bool_decide (ev_epoch e = ev_epoch old) && bool_decide (ev_dataset e = ev_dataset old).
End Evidence.

(** ** Facts

    [State] of a field; scalar fields carry values, array fields summaries. *)
Inductive StateOf (V : Type) : Type :=
| Unknown (reason : UnknownReason)
| Known (v : V)
| Null
| Missing
| Unsupported
| Deleted
| Conflict.
Arguments Unknown {V} _.
Arguments Known {V} _.
Arguments Null {V}.
Arguments Missing {V}.
Arguments Unsupported {V}.
Arguments Deleted {V}.
Arguments Conflict {V}.
Record KnownOf (V : Type) : Type := mk_Known { known_value : V; known_evidence : Evidence }.
Arguments mk_Known {V} _ _.
Arguments known_value {V} _.
Arguments known_evidence {V} _.
Record FactOf (V : Type) : Type := mk_Fact {
  fact_state : StateOf V; last_known : option (KnownOf V); fact_evidence : Evidence
}.
Arguments mk_Fact {V} _ _ _.
Arguments fact_state {V} _.
Arguments last_known {V} _.
Arguments fact_evidence {V} _.
Record EndpointOf (V : Type) : Type := mk_Endpoint { endpoint : rstr; ep_fact : FactOf V }.
Arguments mk_Endpoint {V} _ _.
Arguments endpoint {V} _.
Arguments ep_fact {V} _.

(** *** What both resolutions do with states *)
Section States.
Context {V : Type} (veqb : V -> V -> bool).
Implicit Types (s : StateOf V) (facts : list (FactOf V)).

(** [==]: on array summaries [veqb] ignores where the value is stored. *)
Definition state_eqb s t : bool :=
  match s, t with
  | Unknown r, Unknown r' => bool_decide (r = r')
  | Known v, Known w => veqb v w
  | Null, Null | Missing, Missing | Unsupported, Unsupported | Deleted, Deleted
  | Conflict, Conflict => true
  | _, _ => false
  end.
Definition selectable s : bool :=
  match s with Known _ | Null | Unknown _ => true | _ => false end.
Definition is_unknown s : bool := match s with Unknown _ => true | _ => false end.
Definition is_unordered s : bool := match s with Unknown UnorderedConflict => true | _ => false end.
(** [iter.min()]. *)
Definition min_priority (l : list Z) : option Z :=
  foldl (fun m p => match m with Some q => Some (Z.min q p) | None => Some p end) None l.
Definition priority (definition : FieldDefinition) (fact : FactOf V) : option Z :=
  bm_get (ev_source (fact_evidence fact)) (fd_sources definition).
Definition selected_priority (definition : FieldDefinition) facts : option Z :=
  min_priority (omap (priority definition)
    (List.filter (fun f => selectable (fact_state f)) facts)).
Definition chosen (definition : FieldDefinition) facts : list (FactOf V) :=
  List.filter (fun f => selectable (fact_state f)
    && bool_decide (priority definition f = selected_priority definition facts)) facts.
(** The verdict over the values of the selected priority, or over all states. *)
Definition verdict (values : list (StateOf V)) facts : StateOf V :=
  let any t := existsb (fun f => state_eqb (fact_state f) t) facts in
  match values with
  | first :: _ =>
      if existsb is_unknown values
      then Unknown (if existsb is_unordered values then UnorderedConflict else NativeStatus)
      else if existsb (fun v => negb (state_eqb v first)) values then Conflict
      else first
  | [] => if any Deleted then Deleted else if any Unsupported then Unsupported else Missing
  end.
End States.

(** ** Scalar fields *)
Section Resolve.
Context `{OF : OrderedFloat} `{TR : TimepointRange} `{UC : UuidCrate} `{UT : !UuidText}
  `{UB : !UuidBits} `{UN : Unicode} `{TS : TimeSeriesCrate}.
Implicit Types (definition : FieldDefinition).

Definition State : Type := StateOf Scalar.
Definition KnownValue : Type := KnownOf Scalar.
Definition SourceFact : Type := FactOf Scalar.
Definition EndpointSourceFact : Type := EndpointOf Scalar.
Record ResolvedField : Type := mk_ResolvedField {
  rf_field : FieldKey; rf_state : State; rf_sources : list SourceFact
}.
Record ResolvedDeviceField : Type := mk_ResolvedDeviceField {
  rdf_field : FieldKey; rdf_state : State; rdf_sources : list EndpointSourceFact
}.

Definition check_state definition (fact : SourceFact) : ires () :=
  match fact_state fact with
  | Known v => validate_scalar definition v
  | Null => reject (negb (nullable definition)) Invalid_State
  | Missing | Conflict => Err Invalid_State
  | Unsupported => reject (bool_decide (ev_source (fact_evidence fact) = Manual)) Invalid_State
  | _ => Ok ()
  end.
Definition check_last_known definition (fact : SourceFact) : ires () :=
  match last_known fact with
  | Some v =>
      _ ← validate_scalar definition (known_value v);
      _ ← validate_evidence definition (known_evidence v);
      reject (negb (same_coordinates (fact_evidence fact) (known_evidence v))) Invalid_Evidence
  | None => Ok ()
  end.
Definition check_fact definition (fact : SourceFact) : ires () :=
  _ ← validate_executable (ev_scope (fact_evidence fact));
  _ ← validate_evidence definition (fact_evidence fact);
  _ ← check_state definition fact;
  check_last_known definition fact.
Definition same_scope {V} (facts : list (FactOf V)) : bool :=
  match facts with
  | first :: _ =>
      forallb (fun f => bool_decide (ev_scope (fact_evidence f) = ev_scope (fact_evidence first))) facts
  | [] => true
  end.
Definition canonical_state definition (fact : SourceFact) : ires State :=
  match fact_state fact with
  | Known value => v ← canonical_value definition value; Ok (Known v)
  | state => Ok state
  end.
Definition resolve_state definition (sources : list SourceFact) : ires State :=
  _ ← reject (256 <? zlen sources) Invalid_SourceLimit;
  _ ← FieldDefinition_validate definition;
  _ ← reject (negb (same_scope sources)) Invalid_Evidence;
  _ ← try_for_each (check_fact definition) sources;
  values ← res_map (canonical_state definition) (chosen definition sources);
  Ok (verdict eqb values sources).

Definition source_key {V} (f : FactOf V) : Source * option rstr :=
  (ev_source (fact_evidence f), ev_dataset (fact_evidence f)).
Definition endpoint_key {V} (e : EndpointOf V) : rstr * (Source * option rstr) :=
  (endpoint e, source_key (ep_fact e)).
Definition duplicate_keys {A K} `{Ord K} (key : A -> K) (l : list A) : bool :=
  adjacent (fun a b => eqb (key a) (key b)) l.
Definition endpoint_bad {V} (e : EndpointOf V) : bool :=
  is_empty (endpoint e) || (256 <? str_len (endpoint e)) || has_control (endpoint e).

Definition resolve definition (sources : list SourceFact) : ires ResolvedField :=
  _ ← reject (128 <? zlen sources) Invalid_SourceLimit;
  let sources := sort_by source_key sources in
  _ ← reject (duplicate_keys source_key sources) Invalid_DuplicateSource;
  state ← resolve_state definition sources;
  Ok (mk_ResolvedField (fd_key definition) state sources).
Definition resolve_device definition (sources : list EndpointSourceFact) : ires ResolvedDeviceField :=
  _ ← reject (existsb endpoint_bad sources) Invalid_Evidence;
  let sources := sort_by endpoint_key sources in
  _ ← reject (duplicate_keys endpoint_key sources) Invalid_DuplicateSource;
  state ← resolve_state definition (map ep_fact sources);
  Ok (mk_ResolvedDeviceField (fd_key definition) state sources).

(** ** Array fields *)
Record ArrayValue : Type := mk_ArrayValue {
  av_version : rstr; av_count : Z; av_bytes : Z; av_digest : rstr
}.
Definition ArrayValue_eqb (a b : ArrayValue) : bool :=
  (av_count a =? av_count b) && (av_bytes a =? av_bytes b) && bool_decide (av_digest a = av_digest b).
Definition ArrayState : Type := StateOf ArrayValue.
Definition ArrayKnownValue : Type := KnownOf ArrayValue.
Definition ArrayFact : Type := FactOf ArrayValue.
Definition EndpointArrayFact : Type := EndpointOf ArrayValue.
Record ResolvedArray : Type := mk_ResolvedArray {
  ra_field : FieldKey; ra_state : ArrayState; ra_sources : list ArrayFact
}.
Record ResolvedDeviceArray : Type := mk_ResolvedDeviceArray {
  rda_field : FieldKey; rda_state : ArrayState; rda_sources : list EndpointArrayFact
}.
Definition is_hash (text : rstr) : bool :=
  (str_len text =? 64) && forallb (fun b => is_ascii_digit b || (97 <=? b) && (b <=? 102)) (str_bytes text).
Definition array_validate_value definition (value : ArrayValue) : ires () :=
  match fd_type definition with
  | TArray _ max_items =>
      reject ((max_items <? av_count value) || (av_bytes value <? 27)
              || negb (is_hash (av_version value)) || negb (is_hash (av_digest value))
              || (av_count value =? 0) && negb (av_bytes value =? 27)) Invalid_Value
  | _ => Err Invalid_Value
  end.
Definition array_check_state definition (fact : ArrayFact) : ires () :=
  match fact_state fact with
  | Known v => array_validate_value definition v
  | Null => reject (negb (nullable definition)) Invalid_State
  | Missing | Conflict => Err Invalid_State
  | Unsupported => reject (bool_decide (ev_source (fact_evidence fact) = Manual)) Invalid_State
  | _ => Ok ()
  end.
Definition array_check_last_known definition (fact : ArrayFact) : ires () :=
  match last_known fact with
  | Some v =>
      _ ← array_validate_value definition (known_value v);
      _ ← validate_evidence definition (known_evidence v);
      reject (negb (same_array_coordinates (fact_evidence fact) (known_evidence v))) Invalid_Evidence
  | None => Ok ()
  end.
(** The admission loop: the first fact fixes the namespace. *)
Definition array_check_fact definition (first : option ArrayFact) (fact : ArrayFact) : ires () :=
  _ ← validate_evidence definition (fact_evidence fact);
  _ ← reject (match first with
              | Some first => negb (bool_decide (ev_scope (fact_evidence first) = ev_scope (fact_evidence fact)))
              | None => false
              end) Invalid_Evidence;
  _ ← array_check_state definition fact;
  array_check_last_known definition fact.
Definition array_state definition (sources : list ArrayFact) : ires ArrayState :=
  _ ← FieldDefinition_validate definition;
  _ ← reject (match fd_type definition with TArray _ _ => false | _ => true end) Invalid_Value;
  _ ← try_for_each (array_check_fact definition (head sources)) sources;
  Ok (verdict ArrayValue_eqb (map fact_state (chosen definition sources)) sources).
Definition resolve_array definition (sources : list ArrayFact) : ires ResolvedArray :=
  _ ← reject (128 <? zlen sources) Invalid_SourceLimit;
  let sources := sort_by source_key sources in
  _ ← reject (duplicate_keys source_key sources) Invalid_DuplicateSource;
  state ← array_state definition sources;
  Ok (mk_ResolvedArray (fd_key definition) state sources).
Definition resolve_device_array definition (sources : list EndpointArrayFact) : ires ResolvedDeviceArray :=
  _ ← reject (256 <? zlen sources) Invalid_SourceLimit;
  _ ← reject (existsb endpoint_bad sources) Invalid_Evidence;
  let sources := sort_by endpoint_key sources in
  _ ← reject (duplicate_keys endpoint_key sources) Invalid_DuplicateSource;
  state ← array_state definition (map ep_fact sources);
  Ok (mk_ResolvedDeviceArray (fd_key definition) state sources).
End Resolve.
