(* ===== verification/InventoryProgress.v ===== *)
(** * Collection progress ([crates/inventory/src/{collected,collection,progress}.rs])

    Frozen collection definitions, typed outcomes, and the resumable record of one collection.
    Operations take [&mut self]: each returns the document it leaves and its result. *)
From S2P Require Import Prelude Ordered Text External InventoryValue InventorySource InventoryField.
From S2P Require Import InventoryResolve.

(** ** Outcomes *)
Section Collected.
Context `{OF : OrderedFloat}.
Inductive CollectedValue : Type :=
| Collected_Unknown (reason : UnknownReason)
| Collected_Value (v : Scalar)
| Collected_Null
| Collected_Deleted
| Collected_Unsupported.
End Collected.
Arguments CollectedValue : clear implicits.
Arguments CollectedValue {OF}.

(** [serde_json] on outcomes. *)
Class CollectedSerde `{OF : OrderedFloat} : Type := {
  collected_to_vec : CollectedValue -> option bytes;
  collected_from_slice : bytes -> option CollectedValue
}.
Arguments CollectedSerde : clear implicits.
Arguments CollectedSerde {OF}.

(** [rss_observation]: identities, changes, bodies and coverage. *)
Class Observation : Type := {
  obs_id : rstr -> bool;
  Change : Type;
  change_upsert : rstr -> bytes -> Change;
  change_key : Change -> rstr;
  change_value : Change -> option bytes;
  change_upsert_key : forall k b, change_key (change_upsert k b) = k;
  change_upsert_value : forall k b, change_value (change_upsert k b) = Some b;
  Body : Type;
  body_snapshot : list Change -> Body;
  body_partial : list Change -> Body;
  body_failed : rstr -> Body;
  body_changes : Body -> list Change;
  is_snapshot : Body -> bool;
  is_failed : Body -> bool;
  is_snapshot_snapshot : forall c, is_snapshot (body_snapshot c) = true;
  is_snapshot_partial : forall c, is_snapshot (body_partial c) = false;
  is_snapshot_failed : forall c, is_snapshot (body_failed c) = false;
  is_failed_failed : forall c, is_failed (body_failed c) = true;
  is_failed_partial : forall c, is_failed (body_partial c) = false;
  body_changes_snapshot : forall c, body_changes (body_snapshot c) = c;
  body_changes_partial : forall c, body_changes (body_partial c) = c;
  Coverage : Type;
  coverage_eq_dec :: EqDecision Coverage;
  coverage_new : rstr -> rstr -> rstr -> rstr -> Coverage
}.

(** ** Collection definitions *)
Record CollectionField : Type := mk_CollectionField {
  cf_definition : FieldDefinition; cf_scope : CollectionScope
}.
Record CollectionDefinition : Type := mk_CollectionDefinition {
  cd_dataset : rstr; cd_version : rstr; cd_source : Source; cd_fields : list CollectionField
}.
Definition cf_key (f : CollectionField) : FieldKey := fd_key (cf_definition f).
Definition fields (d : CollectionDefinition) : list FieldDefinition := map cf_definition (cd_fields d).
Definition find_field (d : CollectionDefinition) (key : FieldKey) : option CollectionField :=
  List.find (fun f => bool_decide (cf_key f = key)) (cd_fields d).
Definition field_scope (d : CollectionDefinition) (key : FieldKey) : ires CollectionScope :=
  ok_or (cf_scope <$> find_field d key) Invalid_UnknownField.
Definition field (d : CollectionDefinition) (key : FieldKey) : ires FieldDefinition :=
  ok_or (cf_definition <$> find_field d key) Invalid_UnknownField.
(** [serde_json::to_vec] of a definition. *)
Class DefinitionSerde : Type := { definition_to_vec : CollectionDefinition -> option bytes }.

Section Definitions.
Context `{UC : UuidCrate} `{UT : !UuidText} `{TS : TimeSeriesCrate} `{OB : Observation}.
Definition CollectionDefinition_new (dataset version : rstr) (source : Source)
    (fs : list CollectionField) : ires CollectionDefinition :=
  _ ← reject (negb (obs_id dataset)) Invalid_Value;
  _ ← reject (negb (obs_id version)) Invalid_Value;
  _ ← reject ((128 <? str_len dataset) || (128 <? str_len version) || bool_decide (source = Manual)
              || is_empty fs || (128 <? zlen fs)) Invalid_Value;
  _ ← Catalog_new (map cf_definition fs);
  _ ← try_for_each (fun f => validate_source (cf_scope f) source) fs;
  _ ← reject (existsb (fun f => negb (bm_contains source (fd_sources (cf_definition f)))
                || bool_decide (sensitivity (cf_definition f) = Secret)) fs) Invalid_SourceNotAllowed;
  Ok (mk_CollectionDefinition dataset version source (sort_by cf_key fs)).
End Definitions.

(** ** Progress *)
Inductive Quality : Type :=
| Q_Unknown | Q_Pending | Q_Success | Q_Unsupported | Q_Failed | Q_Invalid | Q_Missing | Q_Deleted.
#[export] Instance Quality_eq_dec : EqDecision Quality.
Proof. solve_decision. Defined.
Definition reasons : list rstr :=
  [lit "complete"; lit "unsupported"; lit "denied"; lit "timeout"; lit "truncated"; lit "missing";
   lit "invalid"; lit "untrusted"; lit "owner_mismatch"; lit "failed"; lit "partial";
   lit "not_scanned"; lit "source_unavailable"; lit "user_absent"; lit "store_unavailable";
   lit "incomplete"].

Section Progress.
Context `{OF : OrderedFloat} `{TR : TimepointRange} `{UC : UuidCrate} `{UT : !UuidText}
  `{UB : !UuidBits} `{UN : Unicode} `{CS : !CollectedSerde} `{DS : DefinitionSerde}
  `{OB : Observation} `{SH : Sha2}.

Definition CollectedValue_validate (definition : FieldDefinition) (v : CollectedValue) : ires () :=
  match v with
  | Collected_Value v => validate_scalar definition v
  | Collected_Null => reject (negb (nullable definition)) Invalid_TypeMismatch
  | _ => Ok ()
  end.
Definition collected_encode (definition : FieldDefinition) (v : CollectedValue) : ires bytes :=
  _ ← CollectedValue_validate definition v; ok_or (collected_to_vec v) Invalid_Encoding.
Definition collected_decode (definition : FieldDefinition) (b : bytes) : ires CollectedValue :=
  v ← ok_or (collected_from_slice b) Invalid_Encoding;
  _ ← CollectedValue_validate definition v;
  Ok v.

Record FieldAttempt : Type := mk_FieldAttempt {
  status : option Z; fa_reason : option rstr; fa_quality : Quality; received_at : option Z;
  fa_value : option CollectedValue; digest : option rstr; confirmed : bool;
  terminal : option Quality; items : list Quality
}.
Definition FieldAttempt_default : FieldAttempt :=
  mk_FieldAttempt None None Q_Pending None None None false None [].
Record Document : Type := mk_Document {
  definition : CollectionDefinition; d_fields : list (FieldKey * FieldAttempt); finished : bool;
  complete_coverage : bool
}.

Definition value_is (v : option CollectedValue) (p : CollectedValue -> bool) : bool :=
  match v with Some v => p v | None => false end.
Definition quality (f : FieldAttempt) (finished : bool) : Quality :=
  match terminal f with
  | Some terminal => terminal
  | None =>
      if confirmed f && value_is (fa_value f) (fun v => match v with Collected_Unknown _ => true | _ => false end)
      then Q_Unknown
      else if confirmed f && value_is (fa_value f) (fun v => match v with Collected_Deleted => true | _ => false end)
      then Q_Deleted
      else if bool_decide (status f = Some 501)
              || confirmed f && value_is (fa_value f) (fun v => match v with Collected_Unsupported => true | _ => false end)
      then Q_Unsupported
      else if match status f with Some c => negb ((200 <=? c) && (c <? 300)) | None => false end
      then Q_Failed
      else if given (digest f) && negb (given (fa_value f)) then Q_Invalid
      else if confirmed f && given (fa_value f) then Q_Success
      else if finished then Q_Missing
      else Q_Pending
  end.
Definition sha_hex (b : bytes) : rstr := hex (sha256 b).

(** *** Restoration *)
Definition array_length (v : option CollectedValue) : option Z :=
  match v with Some (Collected_Value (SArray values)) => Some (zlen values) | _ => None end.
Definition successes (l : list Quality) : Z :=
  zlen (List.filter (fun q => bool_decide (q = Q_Success)) l).
Definition row_quality (q : Quality) : bool :=
  match q with Q_Success | Q_Invalid => true | _ => false end.
Definition is_terminal (f : FieldAttempt) (q : Quality) : bool := bool_decide (terminal f = Some q).
Definition items_match (f : FieldAttempt) : bool :=
  let with_invalid := is_terminal f Q_Invalid && bool_decide (Q_Invalid ∈ items f) in
  match fa_value f with
  | Some (Collected_Value (SArray values)) =>
      (zlen values =? zlen (items f)) && forallb (fun q => bool_decide (q = Q_Success)) (items f)
      || with_invalid && (zlen values =? successes (items f))
  | Some _ => false
  | None => with_invalid
  end.
Definition restore_field (d : CollectionDefinition) (finished : bool) (e : FieldKey * FieldAttempt)
    : ires () :=
  let '(key, f) := e in
  definition ← field d key;
  _ ← reject (match fa_reason f with Some r => negb (bool_decide (r ∈ reasons)) | None => false end)
        Invalid_Evidence;
  _ ← reject (match array_length (fa_value f) with
              | Some n => negb (n =? (if is_terminal f Q_Invalid then successes (items f) else zlen (items f)))
              | None => false
              end) Invalid_Evidence;
  _ ← (if is_empty (items f) then Ok () else
       match fd_type definition with
       | TArray _ max_items =>
           _ ← reject ((max_items <? zlen (items f)) || existsb (fun q => negb (row_quality q)) (items f))
                 Invalid_Evidence;
           reject (negb (items_match f)) Invalid_Evidence
       | _ => Err Invalid_Evidence
       end);
  _ ← match fa_value f with
      | Some value =>
          bytes ← collected_encode definition value;
          reject (negb (bool_decide (digest f = Some (sha_hex bytes)))) Invalid_Evidence
      | None => Ok ()
      end;
  _ ← reject (match terminal f with
              | Some q => negb (bool_decide (q ∈ [Q_Missing; Q_Failed; Q_Invalid; Q_Deleted]))
                  || confirmed f
                  || given (fa_value f)
                     && negb (is_terminal f Q_Invalid && bool_decide (Q_Invalid ∈ items f))
              | None => false
              end) Invalid_Evidence;
  reject (match received_at f with Some at_ => negb (timepoint_try_from at_) | None => false end
          || match digest f with
             | Some s => negb (str_len s =? 64) || negb (forallb is_ascii_hexdigit (str_bytes s))
             | None => false
             end
          || negb (bool_decide (fa_quality f = quality f finished))) Invalid_Evidence.
Definition CollectionProgress_try_from (v : Document) : ires Document :=
  _ ← reject (negb (zlen (d_fields v) =? zlen (fields (definition v)))) Invalid_Evidence;
  _ ← try_for_each (restore_field (definition v) (finished v)) (d_fields v);
  Ok v.

(** *** Operations *)
Definition CollectionProgress_new (d : CollectionDefinition) : Document :=
  mk_Document d (foldl (fun m f => bm_insert (fd_key f) FieldAttempt_default m) [] (fields d)) false true.
(** The document an operation leaves, and its result. *)
Notation updated := (Document * ires ())%type (only parsing).
Definition set_fields (p : Document) (fs : list (FieldKey * FieldAttempt)) : Document :=
  mk_Document (definition p) fs (finished p) (complete_coverage p).
(** [*self.fields.get_mut(&key) = f]. *)
Definition put (p : Document) (key : FieldKey) (f : FieldAttempt) : Document :=
  set_fields p (bm_insert key f (d_fields p)).
Definition with_quality (f : FieldAttempt) (q : Quality) : FieldAttempt :=
  mk_FieldAttempt (status f) (fa_reason f) q (received_at f) (fa_value f) (digest f) (confirmed f)
    (terminal f) (items f).
Definition requalify (f : FieldAttempt) (finished : bool) : FieldAttempt :=
  with_quality f (quality f finished).
(** A computed update of one field, or an error that changes nothing. *)
Definition update (p : Document) (key : FieldKey) (r : ires FieldAttempt) : updated :=
  match r with Ok f => (put p key f, Ok ()) | Err e => (p, Err e) | Panic => (p, Panic) end.
Definition is_2xx (code : Z) : bool := (200 <=? code) && (code <? 300).

Definition observe_status (p : Document) (key : FieldKey) (code at_ : Z) : updated :=
  update p key (
    _ ← reject (negb (timepoint_try_from at_)) Invalid_Time;
    _ ← reject (finished p || negb ((100 <=? code) && (code <? 600))) Invalid_State;
    f ← ok_or (bm_get key (d_fields p)) Invalid_UnknownField;
    _ ← reject (given (terminal f)
                || match status f with Some old => negb (old =? code) | None => false end
                || negb (is_2xx code) && given (digest f)) Invalid_Evidence;
    Ok (requalify (mk_FieldAttempt (Some code) (fa_reason f) (fa_quality f) (Some at_) (fa_value f)
          (digest f) (is_2xx code) (terminal f) (items f)) false)).
(** The encoded length of a retained value. *)
Definition encoded_len (d : CollectionDefinition) (key : FieldKey) (f : FieldAttempt) : ires Z :=
  match fa_value f with
  | Some v => definition ← field d key; b ← collected_encode definition v; Ok (zlen b)
  | None => Ok 0
  end.
Definition value_bytes (p : Document) : ires Z :=
  res_for (fun total e =>
    n ← encoded_len (definition p) e.1 e.2; ok_or (checked_u64 (total + n)) Invalid_Value)
    (d_fields p) 0.
Definition row_qualities (v : option CollectedValue) : list Quality :=
  match v with Some (Collected_Value (SArray items)) => repeat Q_Success (length items) | _ => [] end.
Definition observe_value (p : Document) (key : FieldKey) (value : CollectedValue) (at_ : Z) : updated :=
  update p key (
    _ ← reject (negb (timepoint_try_from at_)) Invalid_Time;
    _ ← reject (finished p) Invalid_State;
    d ← field (definition p) key;
    bytes ← ok_or (collected_to_vec value) Invalid_Encoding;
    previous ← match bm_get key (d_fields p) with
               | Some f => match fa_value f with
                           | Some v => b ← collected_encode d v; Ok (zlen b)
                           | None => Ok 0
                           end
               | None => Ok 0
               end;
    total ← value_bytes p;
    _ ← reject (max_text <? saturating_usize (saturating_usize (total - previous) + zlen bytes)) Invalid_Value;
    f ← ok_or (bm_get key (d_fields p)) Invalid_UnknownField;
    _ ← reject (given (terminal f)
                || match digest f with Some old => negb (bool_decide (old = sha_hex bytes)) | None => false end
                || match status f with Some c => negb (is_2xx c) | None => false end) Invalid_Evidence;
    kept ← match collected_encode d value with Ok _ => Ok (Some value) | Err _ => Ok None | Panic => Panic end;
    Ok (requalify (mk_FieldAttempt (status f) (fa_reason f) (fa_quality f) (Some at_) kept
          (Some (sha_hex bytes)) (confirmed f) (terminal f) (row_qualities kept)) false)).
Definition set_reason (p : Document) (key : FieldKey) (reason : rstr) : updated :=
  update p key (
    _ ← reject (negb (bool_decide (reason ∈ reasons))) Invalid_Evidence;
    f ← ok_or (bm_get key (d_fields p)) Invalid_Evidence;
    Ok (mk_FieldAttempt (status f) (Some reason) (fa_quality f) (received_at f) (fa_value f)
          (digest f) (confirmed f) (terminal f) (items f))).
Definition complete (p : Document) : bool :=
  forallb (fun f => negb (bool_decide (fa_quality f = Q_Pending))) (bm_values (d_fields p)).
Definition finish (p : Document) : Document :=
  mk_Document (definition p) (map (fun e => (e.1, requalify e.2 true)) (d_fields p)) true
    (complete_coverage p).
Definition observe_invalid (p : Document) (key : FieldKey) (at_ : Z) : updated :=
  update p key (
    _ ← reject (negb (timepoint_try_from at_)) Invalid_Time;
    f ← ok_or (bm_get key (d_fields p)) Invalid_UnknownField;
    _ ← reject (finished p || given (fa_value f) || given (terminal f)) Invalid_Evidence;
    Ok (requalify (mk_FieldAttempt (status f) (fa_reason f) (fa_quality f) (Some at_) (fa_value f)
          (digest f) false (Some Q_Invalid) (items f)) false)).
(** The rows are checked first; the field is then sealed by [observe_invalid] and completed. *)
Definition observe_invalid_items (p : Document) (key : FieldKey) (rows : list Quality)
    (values : list Scalar) (at_ : Z) : updated :=
  let checked :=
    d ← field (definition p) key;
    match fd_type d with
    | TArray _ max_items =>
        _ ← reject ((max_items <? zlen rows) || negb (bool_decide (Q_Invalid ∈ rows))
                    || existsb (fun q => negb (row_quality q)) rows) Invalid_Evidence;
        _ ← reject (negb (zlen values =? successes rows)) Invalid_Evidence;
        collected_encode d (Collected_Value (SArray values))
    | _ => Err Invalid_TypeMismatch
    end in
  match checked with
  | Ok bytes =>
      match observe_invalid p key at_ with
      | (p, Ok _) =>
          update p key (
            f ← ok_or (bm_get key (d_fields p)) Invalid_UnknownField;
            Ok (mk_FieldAttempt (status f) (fa_reason f) (fa_quality f) (received_at f)
                  (Some (Collected_Value (SArray values))) (Some (sha_hex bytes)) (confirmed f)
                  (terminal f) rows))
      | failed => failed
      end
  | Err e => (p, Err e)
  | Panic => (p, Panic)
  end.

(** *** Emission *)
Definition covered (q : Quality) : bool :=
  match q with Q_Success | Q_Unsupported | Q_Deleted => true | _ => false end.
Definition all_covered (p : Document) : bool :=
  complete_coverage p && forallb (fun f => covered (fa_quality f)) (bm_values (d_fields p)).
Definition coverage_complete (p : Document) : bool := finished p && all_covered p.
(** What one field contributes to a body. *)
Definition emitted (complete : bool) (f : FieldAttempt) : option CollectedValue :=
  match fa_quality f with
  | Q_Success | Q_Unknown => fa_value f
  | Q_Unsupported => Some Collected_Unsupported
  | Q_Deleted => if complete then None else Some Collected_Deleted
  | _ => None
  end.
Definition body_step (p : Document) (changes : list Change) (e : FieldKey * FieldAttempt)
    : ires (list Change) :=
  match emitted (all_covered p) e.2 with
  | Some value =>
      key ← FieldKey_as_str e.1;
      _ ← reject (negb (obs_id key)) Invalid_Value;
      d ← field (definition p) e.1;
      b ← collected_encode d value;
      Ok (changes ++ [change_upsert key b])
  | None => Ok changes
  end.
Definition body (p : Document) : ires (option Body) :=
  if forallb (fun f => negb (given (received_at f))) (bm_values (d_fields p)) then Ok None else
  changes ← res_for (body_step p) (d_fields p) [];
  if all_covered p then Ok (Some (body_snapshot changes))
  else if is_empty changes
          && existsb (fun f => match fa_quality f with Q_Failed | Q_Invalid => true | _ => false end)
               (bm_values (d_fields p))
  then _ ← reject (negb (obs_id (lit "collection_failed"))) Invalid_Value;
       Ok (Some (body_failed (lit "collection_failed")))
  else Ok (Some (body_partial changes)).

(** *** Native capture *)
Inductive NativeValue : Type :=
| Native_Value (v : CollectedValue)
| Native_InvalidItems (items : list Quality) (values : list Scalar)
| Native_Invalid
| Native_Missing
| Native_Failed.
(** [?] on an operation of a local document: the document is dropped with the error. *)
Definition try_op (r : updated) : ires Document :=
  match r with (p, Ok _) => Ok p | (_, Err e) => Err e | (_, Panic) => Panic end.
Definition native_step (at_ : Z) (st : Document * list (FieldKey * NativeValue)) (key : FieldKey)
    : ires (Document * list (FieldKey * NativeValue)) :=
  let '(p, values) := st in
  let outcome := default Native_Missing (bm_get key values) in
  let values := bm_remove key values in
  p ← match outcome with
    | Native_Value value =>
        match observe_value p key value at_ with
        | (p, Ok _) =>
            f ← ok_or (bm_get key (d_fields p)) Invalid_UnknownField;
            Ok (put p key (requalify (mk_FieldAttempt (status f) (fa_reason f) (fa_quality f)
              (received_at f) (fa_value f) (digest f) true (terminal f) (items f)) false))
        | (p, Err Invalid_Value) => try_op (observe_invalid p key at_)
        | (_, Err e) => Err e
        | (_, Panic) => Panic
        end
    | Native_InvalidItems items values => try_op (observe_invalid_items p key items values at_)
    | other =>
        _ ← reject (negb (timepoint_try_from at_)) Invalid_Time;
        f ← ok_or (bm_get key (d_fields p)) Invalid_UnknownField;
        let t := match other with
                 | Native_Invalid => Q_Invalid | Native_Failed => Q_Failed | _ => Q_Missing end in
        Ok (put p key (requalify (mk_FieldAttempt (status f) (fa_reason f) (fa_quality f) (Some at_)
              (fa_value f) (digest f) (confirmed f) (Some t) (items f)) false))
    end;
  Ok (p, values).
Definition native (d : CollectionDefinition) (values : list (FieldKey * NativeValue)) (at_ : Z)
    : ires Document :=
  let result := CollectionProgress_new d in
  _ ← try_for_each (fun key => _ ← field d key; Ok ()) (bm_keys values);
  st ← res_for (native_step at_) (bm_keys (d_fields result)) (result, values);
  Ok (finish st.1).
Definition set_coverage (p : Document) (c : bool) : Document :=
  mk_Document (definition p) (d_fields p) (finished p) c.
Definition native_partial (d : CollectionDefinition) (values : list (FieldKey * NativeValue)) (at_ : Z)
    : ires Document :=
  result ← native d values at_; Ok (set_coverage result false).

(** *** Verified reports *)
(** The outcome each change of a report carries. *)
Definition report_step (d : CollectionDefinition) (values : list (FieldKey * NativeValue)) (c : Change)
    : ires (list (FieldKey * NativeValue)) :=
  key ← FieldKey_parse (change_key c);
  def ← field d key;
  outcome ← match change_value c with
            | Some bytes => v ← collected_decode def bytes; Ok (Native_Value v)
            | None => Ok Native_Missing
            end;
  _ ← reject (bm_contains key values) Invalid_DuplicateField;
  Ok (bm_insert key outcome values).
(** Absence from a snapshot and an explicit removal are deletions. *)
Definition deletes (b : Body) (name : rstr) : bool :=
  is_snapshot b && negb (existsb (fun c => bool_decide (change_key c = name)) (body_changes b))
  || existsb (fun c => bool_decide (change_key c = name) && negb (given (change_value c))) (body_changes b).
Definition mark_deleted (f : FieldAttempt) : FieldAttempt :=
  mk_FieldAttempt (status f) (fa_reason f) Q_Deleted (received_at f) (fa_value f) (digest f)
    (confirmed f) (Some Q_Deleted) (items f).
Definition reported (d : CollectionDefinition) (b : Body) (at_ : Z) : ires Document :=
  values ← res_for (report_step d) (body_changes b) [];
  let values := if is_failed b
    then foldl (fun m f => bm_insert (fd_key f) Native_Failed m) [] (fields d) else values in
  result ← native d values at_;
  let result := set_coverage result (is_snapshot b) in
  fs ← res_map (fun e => match e with (key, f) =>
         name ← FieldKey_as_str key;
         Ok (key, if deletes b name then mark_deleted f else f) end) (d_fields result);
  Ok (set_fields result fs).

(** *** Mapped lists *)
(** Qualities by row, the valid rows, and the row each identity was last seen at. *)
Definition list_state : Type := list Quality * list (option Scalar) * list (Scalar * nat).
Definition set_quality (l : list Quality) (i : nat) (q : Quality) : ires (list Quality) :=
  if decide (i < length l)%nat then Ok (<[i:=q]> l) else Panic.
Definition list_step (f : FieldDefinition) (st : list_state) (mapped : ires Scalar) : ires list_state :=
  let '(quality, values, identities) := st in
  let index := length quality in
  value ← match (v ← mapped; _ ← validate_item f v; Ok v) with
          | Ok v => Ok (Some v) | Err _ => Ok None | Panic => Panic end;
  let quality := quality ++ [match value with Some _ => Q_Success | None => Q_Invalid end] in
  match value with
  | Some value =>
      marked ← match item_key f, value with
        | Some key, SObject ps =>
            identity ← ok_or (bm_get key ps) Invalid_Value;
            quality ← match bm_get identity identities with
                      | Some previous =>
                          quality ← set_quality quality previous Q_Invalid;
                          set_quality quality index Q_Invalid
                      | None => Ok quality
                      end;
            Ok (quality, bm_insert identity index identities)
        | _, _ => Ok (quality, identities)
        end;
      Ok (marked.1, values ++ [Some value], marked.2)
  | None => Ok (quality, values ++ [None], identities)
  end.
Definition valid_rows (values : list (option Scalar)) (quality : list Quality) : list Scalar :=
  omap (fun e => if bool_decide (e.2 = Q_Success) then e.1 else None) (zip values quality).
Definition NativeValue_list (f : FieldDefinition) (rows : list (ires Scalar)) : ires NativeValue :=
  match fd_type f with
  | TArray _ max_items =>
      if max_items <? zlen rows then Ok Native_Invalid else
      st ← res_for (list_step f) rows ([], [], []);
      let '(quality, values, _) := st in
      let values := valid_rows values quality in
      if bool_decide (Q_Invalid ∈ quality) then Ok (Native_InvalidItems quality values)
      else v ← canonical_value f (SArray values); Ok (Native_Value (Collected_Value v))
  | _ => Err Invalid_TypeMismatch
  end.
End Progress.

(** ** Coverage and batches *)
(** [rss_observation::Batch], and the stream coordinates a definition is checked against. *)
Class ObservationBatch `{OB : Observation} : Type := {
  Batch : Type; batch_coverage : Batch -> Coverage; batch_body : Batch -> Body;
  batch_new : rstr -> Z -> Z -> Coverage -> Body -> option Batch
}.
Arguments ObservationBatch {OB}.
(** [serde_json] on result references. *)
Record CollectionReference : Type := mk_CollectionReference { cr_format : Z; cr_digest : rstr }.
Class ReferenceSerde : Type := {
  reference_to_vec : CollectionReference -> option bytes;
  reference_from_slice : bytes -> option CollectionReference
}.

Section Batches.
Context `{OF : OrderedFloat} `{TR : TimepointRange} `{UC : UuidCrate} `{UT : !UuidText}
  `{UB : !UuidBits} `{UN : Unicode} `{CS : !CollectedSerde} `{DS : DefinitionSerde}
  `{OB : Observation} `{OBB : !ObservationBatch} `{RS : ReferenceSerde} `{SH : Sha2}.

Definition fingerprint (d : CollectionDefinition) : ires rstr :=
  b ← ok_or (definition_to_vec d) Invalid_Encoding; Ok (sha_hex b).
Definition coverage (d : CollectionDefinition) : ires Coverage :=
  let id v := reject (negb (obs_id v)) Invalid_Value in
  _ ← id (cd_dataset d);
  _ ← id (cd_version d);
  fp ← fingerprint d;
  _ ← id fp;
  _ ← id (lit "typed-fields-v1");
  Ok (coverage_new (cd_dataset d) (cd_version d) fp (lit "typed-fields-v1")).
Definition validate_scope (d : CollectionDefinition) (source dataset : rstr) : ires () :=
  reject (negb (bool_decide (source = Source_as_str (cd_source d)))
          || negb (bool_decide (dataset = cd_dataset d))) Invalid_SourceNotAllowed.
Definition batch_step (d : CollectionDefinition) (seen : list FieldKey) (c : Change) : ires (list FieldKey) :=
  key ← FieldKey_parse (change_key c);
  def ← field d key;
  _ ← reject (bs_mem key seen) Invalid_DuplicateField;
  _ ← match change_value c with Some v => _ ← collected_decode def v; Ok () | None => Ok () end;
  Ok (bs_insert key seen).
Definition validate_batch (d : CollectionDefinition) (batch : Batch) : ires () :=
  c ← coverage d;
  _ ← reject (negb (bool_decide (batch_coverage batch = c))) Invalid_Evidence;
  _ ← res_for (batch_step d) (body_changes (batch_body batch)) [];
  Ok ().
Definition reference_digest_ok (digest : rstr) : bool :=
  (str_len digest =? 64) && forallb (fun b => is_ascii_digit b || (97 <=? b) && (b <=? 102)) (str_bytes digest).
Definition CollectionReference_batch (id : rstr) (sequence at_ : Z) (d : CollectionDefinition)
    (digest : rstr) : ires Batch :=
  _ ← reject (negb (reference_digest_ok digest)) Invalid_Evidence;
  bytes ← ok_or (reference_to_vec (mk_CollectionReference 1 digest)) Invalid_Encoding;
  c ← coverage d;
  _ ← reject (negb (obs_id (lit "collection_result"))) Invalid_Value;
  ok_or (batch_new id sequence at_ c (body_snapshot [change_upsert (lit "collection_result") bytes]))
    Invalid_Evidence.
Definition from_batch (d : CollectionDefinition) (batch : Batch) : ires CollectionReference :=
  _ ← reject (negb (is_snapshot (batch_body batch))) Invalid_Evidence;
  match body_changes (batch_body batch) with
  | [c] =>
      _ ← reject (negb (bool_decide (change_key c = lit "collection_result"))) Invalid_Evidence;
      cov ← coverage d;
      _ ← reject (negb (bool_decide (batch_coverage batch = cov))) Invalid_Evidence;
      bytes ← ok_or (change_value c) Invalid_Evidence;
      _ ← reject (256 <? zlen bytes) Invalid_Evidence;
      reference ← ok_or (reference_from_slice bytes) Invalid_Encoding;
      _ ← reject (negb (cr_format reference =? 1) || negb (reference_digest_ok (cr_digest reference))) Invalid_Evidence;
      Ok reference
  | _ => Err Invalid_Evidence
  end.
End Batches.
