(* ===== verification/InventorySpec.v ===== *)
(** * Inventory: laws of values and schemas

    Induction over scalars and value types, the total order of scalars, equality of value
    types, and what an accepted scalar or an extended schema guarantees. *)
From S2P Require Import Prelude Ordered Text External InventoryValue InventorySource InventoryField.
From S2P Require Import InventoryResolve.

(** ** Scalars *)
Section ScalarInduction.
Context `{OF : OrderedFloat} (P : Scalar -> Prop).
Hypothesis Hleaf : forall v, (forall l, v <> SArray l) -> (forall m, v <> SObject m) -> P v.
Hypothesis Harray : forall l, (forall v, v ∈ l -> P v) -> P (SArray l).
Hypothesis Hobject : forall m, (forall k v, (k, v) ∈ m -> P v) -> P (SObject m).
Fixpoint Scalar_tree_ind (v : Scalar) : P v.
Proof.
  destruct v as [s|i|n|l|m|b|t]; [by apply Hleaf..| | |by apply Hleaf|by apply Hleaf].
  - apply Harray. apply Forall_forall. revert l. fix IHl 1.
    intros [|v l]; constructor; [apply Scalar_tree_ind|apply IHl].
  - apply Hobject. assert (Forall (fun e => P e.2) m) as Hm.
    { revert m. fix IHm 1. intros [|[k v] m]; constructor; [apply Scalar_tree_ind|apply IHm]. }
    rewrite Forall_forall in Hm. intros k v Hin. apply (Hm _ Hin).
Qed.
End ScalarInduction.

Section ScalarOrder.
Context `{OF : OrderedFloat}.
Implicit Types v w : Scalar.

Definition member_cmp (e e' : rstr * Scalar) : comparison :=
  match e, e' with (k, v), (k', v') => then_cmp (cmp k k') (scalar_cmp v v') end.
Lemma member_cmp_eq e e' :
  (forall w, scalar_cmp e.2 w = Eq <-> e.2 = w) -> member_cmp e e' = Eq <-> e = e'.
Proof.
  destruct e as [k v], e' as [k' v']; simpl. intros IH.
  destruct (cmp k k') eqn:E; simpl.
  - apply cmp_eq in E as ->. rewrite IH. naive_solver.
  - split; [done|]. intros [= -> ->]. by rewrite cmp_refl in E.
  - split; [done|]. intros [= -> ->]. by rewrite cmp_refl in E.
Qed.
Ltac other_rank :=
  try (by split; [let E := fresh in intros E; vm_compute in E; discriminate E|congruence]).
Lemma scalar_cmp_eq v w : scalar_cmp v w = Eq <-> v = w.
Proof.
  revert w. induction v as [v Hl Hm|l IH|m IH] using Scalar_tree_ind; intros w.
  - destruct v; try (by destruct (Hl _ eq_refl)); try (by destruct (Hm _ eq_refl)); destruct w; simpl;
      other_rank; rewrite cmp_eq; naive_solver.
  - destruct w as [| | |l2| | |]; simpl; other_rank.
    change (list_cmp_by scalar_cmp l l2 = Eq <-> SArray l = SArray l2).
    rewrite list_cmp_by_eq by (intros a b Ha; by apply IH). naive_solver.
  - destruct w as [| | | |m'| |]; simpl; other_rank.
    change (list_cmp_by member_cmp m m' = Eq <-> SObject m = SObject m').
    rewrite list_cmp_by_eq; [naive_solver|]. intros [k a] b Ha. apply member_cmp_eq. intros. by eapply IH.
Qed.
Lemma scalar_cmp_opp v w : scalar_cmp w v = CompOpp (scalar_cmp v w).
Proof.
  revert w. induction v as [v Hl Hm|l IH|m IH] using Scalar_tree_ind; intros w.
  - destruct v; try (by destruct (Hl _ eq_refl)); try (by destruct (Hm _ eq_refl)); destruct w; simpl;
      try done; apply cmp_opp.
  - destruct w; simpl; try done.
    apply (list_cmp_by_opp scalar_cmp). intros a b Ha. by apply IH.
  - destruct w as [| | | |m'| |]; simpl; try done.
    change (list_cmp_by member_cmp m' m = CompOpp (list_cmp_by member_cmp m m')).
    apply list_cmp_by_opp. intros [k a] [k' b] Ha. simpl.
    rewrite (cmp_opp k k'), (IH k a Ha b). by destruct (cmp k k').
Qed.
Lemma scalar_cmp_trans v w x :
  scalar_cmp v w = Lt -> scalar_cmp w x = Lt -> scalar_cmp v x = Lt.
Proof.
  revert w x. induction v as [v Hl Hm|l IH|m IH] using Scalar_tree_ind; intros w x.
  - destruct v; try (by destruct (Hl _ eq_refl)); try (by destruct (Hm _ eq_refl)); destruct w; simpl; try done;
      destruct x; simpl; try done; apply cmp_trans.
  - destruct w; simpl; try done; destruct x; simpl; try done.
    apply (list_cmp_by_trans scalar_cmp); [apply scalar_cmp_eq|]. intros a b c Ha. by apply IH.
  - destruct w as [| | | |m'| |]; simpl; try done; destruct x as [| | | |m''| |]; simpl; try done.
    apply (list_cmp_by_trans member_cmp).
    + intros e e'. apply member_cmp_eq, scalar_cmp_eq.
    + intros [k a] [k' b] [k'' c] Ha. simpl.
      destruct (cmp k k') eqn:E1; simpl; [|intros _|done].
      * apply cmp_eq in E1 as ->. destruct (cmp k' k'') eqn:E2; simpl; try done. by eapply IH.
      * destruct (cmp k' k'') eqn:E2; simpl; [|intros _|done].
        -- apply cmp_eq in E2 as ->. by rewrite E1.
        -- by rewrite (cmp_trans _ _ _ E1 E2).
Qed.
#[export] Instance scalar_ord_laws : OrdLaws Scalar.
Proof. split; [apply scalar_cmp_eq|intros; apply scalar_cmp_opp|apply scalar_cmp_trans]. Qed.
#[export] Instance scalar_eq_dec : EqDecision Scalar := ord_eq_dec.
End ScalarOrder.

(** ** Value types *)
Section TypeInduction.
Context (P : ValueType -> Prop).
Hypothesis Hleaf : forall t, (forall i m, t <> TArray i m) -> (forall ps, t <> TObject ps) ->
  (forall ps, t <> TRecord ps) -> P t.
Hypothesis Harray : forall i m, P i -> P (TArray i m).
Hypothesis Hobject : forall ps, (forall k t, (k, t) ∈ ps -> P t) -> P (TObject ps).
Hypothesis Hrecord : forall ps, (forall k p, (k, p) ∈ ps -> P (value_type p)) -> P (TRecord ps).
Fixpoint ValueType_tree_ind (t : ValueType) : P t.
Proof.
  destruct t as [ps|m e|vs| | | | |i m|ps]; try (by apply Hleaf).
  - apply Hrecord. assert (Forall (fun e => P (value_type e.2)) ps) as Hps.
    { revert ps. fix IHps 1. intros [|[k [t r]] ps]; constructor; [apply ValueType_tree_ind|apply IHps]. }
    rewrite Forall_forall in Hps. intros k p Hin. apply (Hps _ Hin).
  - apply Harray. apply ValueType_tree_ind.
  - apply Hobject. assert (Forall (fun e => P e.2) ps) as Hps.
    { revert ps. fix IHps 1. intros [|[k t] ps]; constructor; [apply ValueType_tree_ind|apply IHps]. }
    rewrite Forall_forall in Hps. intros k t Hin. apply (Hps _ Hin).
Qed.
End TypeInduction.

Lemma list_eqb_by_eq {A} (f : A -> A -> bool) l l' :
  (forall a b, a ∈ l -> f a b = true <-> a = b) -> list_eqb_by f l l' = true <-> l = l'.
Proof.
  revert l'. induction l as [|a l IH]; intros [|b l'] Hf; simpl; try (split; congruence).
  rewrite andb_true_iff, (Hf a b) by left. rewrite IH by (intros; apply Hf; by right). naive_solver.
Qed.
#[global] Arguments list_eqb_by : simpl never.
Lemma ValueType_eqb_eq t u : ValueType_eqb t u = true <-> t = u.
Proof.
  revert u. induction t as [t Ha Ho Hr|i m IH|ps IH|ps IH] using ValueType_tree_ind; intros u.
  - destruct t; try (by destruct (Ha _ _ eq_refl)); try (by destruct (Ho _ eq_refl));
      try (by destruct (Hr _ eq_refl)); destruct u; simpl;
      rewrite ?andb_true_iff, ?bool_decide_eq_true, ?Z.eqb_eq, ?eqb_true_iff; naive_solver.
  - destruct u; simpl; try (split; congruence). rewrite andb_true_iff, IH, Z.eqb_eq. naive_solver.
  - destruct u as [| | | | | | | |qs]; simpl; try (split; congruence).
    match goal with |- list_eqb_by ?f _ _ = _ <-> _ => rewrite (list_eqb_by_eq f) end;
      [naive_solver|]. intros [k t] [k' t'] Hin.
    rewrite andb_true_iff, bool_decide_eq_true, (IH k t Hin). naive_solver.
  - destruct u as [qs| | | | | | | |]; simpl; try (split; congruence).
    match goal with |- list_eqb_by ?f _ _ = _ <-> _ => rewrite (list_eqb_by_eq f) end;
      [naive_solver|]. intros [k [t r]] [k' [t' r']] Hin.
    rewrite !andb_true_iff, bool_decide_eq_true, eqb_true_iff. rewrite (IH k _ Hin). naive_solver.
Qed.

(** A schema as a [BTreeMap] has it: distinct members at every level. *)
Fixpoint ValueType_wf (t : ValueType) : bool :=
  match t with
  | TArray items _ => ValueType_wf items
  | TObject ps =>
      bool_decide (NoDup (map fst ps)) && forallb (fun e => match e with (_, t) => ValueType_wf t end) ps
  | TRecord ps =>
      bool_decide (NoDup (map fst ps))
      && forallb (fun e => match e with (_, mk_Property t _) => ValueType_wf t end) ps
  | _ => true
  end.

(** ** What the budget admits *)
Definition total {A} (f : A -> Z) (l : list A) : Z := foldr (fun a n => f a + n) 0 l.
Definition highest {A} (f : A -> Z) (l : list A) : Z := foldr (fun a n => Z.max (f a) n) 0 l.
Lemma total_nonneg {A} (f : A -> Z) l : (forall a, a ∈ l -> 0 <= f a) -> 0 <= total f l.
Proof.
  induction l as [|a l IH]; intros H; simpl; [lia|].
  pose proof (H a ltac:(left)). enough (0 <= total f l) by lia. apply IH. intros; apply H; by right.
Qed.

Section Budget.
Context `{OF : OrderedFloat} `{TR : TimepointRange}.
Implicit Types v : Scalar.

Fixpoint scalar_nodes v : Z :=
  match v with
  | SArray l => 1 + total scalar_nodes l
  | SObject m => 1 + total (fun e => match e with (_, v) => scalar_nodes v end) m
  | _ => 1
  end.
Fixpoint scalar_depth v : Z :=
  match v with
  | SArray l => 1 + highest scalar_depth l
  | SObject m => 1 + highest (fun e => match e with (_, v) => scalar_depth v end) m
  | _ => 1
  end.
(** Bytes of text and of member names. *)
Fixpoint scalar_text v : Z :=
  match v with
  | SString s => str_len s
  | SArray l => total scalar_text l
  | SObject m => total (fun e => match e with (k, v) => str_len k + scalar_text v end) m
  | _ => 0
  end.
Fixpoint scalar_strings v : Z :=
  match v with
  | SString s => str_len s
  | SArray l => total scalar_strings l
  | SObject m => total (fun e => match e with (_, v) => scalar_strings v end) m
  | _ => 0
  end.
Fixpoint scalar_leaves_ok v : Prop :=
  match v with
  | SString s => 0 ∉ s
  | SNumber n => is_finite n = true
  | STime t => timepoint_try_from t = true
  | SArray l => foldr (fun v P => scalar_leaves_ok v /\ P) True l
  | SObject m => foldr (fun e P => match e with (_, v) => scalar_leaves_ok v end /\ P) True m
  | _ => True
  end.

(** One counting visit: [n] nodes, [t] bytes of text of which [s] in strings, [d] levels. *)
Definition accounts {A} (visit : A -> ScalarBudget -> ScalarBudget * ires ()) (n t s d : A -> Z)
    (ok : A -> Prop) (depth : Z) (a : A) : Prop :=
  (forall b b', 0 <= sb_bytes b -> visit a b = (b', Ok ()) ->
     sb_nodes b' = sb_nodes b + n a /\ sb_bytes b' = sb_bytes b + t a /\
     sb_bytes b + s a <= Z.max (sb_bytes b) max_text /\
     sb_nodes b + n a <= Z.max (sb_nodes b) 200000 /\
     depth + d a <= 7 /\ ok a) /\
  (forall b, 0 <= sb_nodes b -> 0 <= sb_bytes b -> sb_nodes b + n a <= 200000 ->
     sb_bytes b + t a <= max_text -> depth + d a <= 7 -> ok a ->
     visit a b = (mk_ScalarBudget (sb_nodes b + n a) (sb_bytes b + t a), Ok ())).
Lemma visit_all_accounts {A} (visit : A -> ScalarBudget -> ScalarBudget * ires ())
    (n t s d : A -> Z) (ok : A -> Prop) depth l :
  (forall a, a ∈ l -> accounts visit n t s d ok depth a) ->
  (forall a, a ∈ l -> 0 <= n a /\ 0 <= s a <= t a) -> depth <= 7 ->
  accounts (visit_all visit) (total n) (total t) (total s) (highest d)
    (foldr (fun a P => ok a /\ P) True) depth l.
Proof.
  intros Hv Hpos Hd. induction l as [|a l IH]; simpl.
  { split; simpl.
    - intros b b' Hb [= <-]. split_and!; [lia..|done].
    - intros [bn bb] ? ? ? ? ? _. simpl. do 2 f_equal; lia. }
  destruct (Hv a ltac:(left)) as [Ha1 Ha2]. pose proof (Hpos a ltac:(left)).
  destruct IH as [IH1 IH2]; [intros; apply Hv; by right|intros; apply Hpos; by right|].
  assert (0 <= total n l /\ 0 <= total s l <= total t l) as Htot.
  { assert (forall a, a ∈ l -> 0 <= n a /\ 0 <= s a <= t a) as Hl by (intros; apply Hpos; by right).
    clear -Hl. induction l as [|x l IHl]; simpl; [lia|].
    pose proof (Hl x ltac:(left)). enough (0 <= total n l /\ 0 <= total s l <= total t l) by lia.
    apply IHl. intros; apply Hl; by right. }
  split; simpl.
  - intros b b' Hb Hvis. destruct (visit a b) as [b1 [[]| |]] eqn:E; simpl in Hvis; try done.
    destruct (Ha1 _ _ Hb E) as (En & Et & Es & Em & Ed & Eok).
    destruct (IH1 b1 b' ltac:(lia) Hvis) as (En' & Et' & Es' & Em' & Ed' & Eok').
    split_and!; [lia..|done|done].
  - intros b Hn Hb Hn' Hb' Hdep [Hok Hoks].
    rewrite Ha2 by (lia || done). simpl. rewrite IH2 by (simpl; lia || done).
    simpl. do 2 f_equal; lia.
Qed.

Lemma scalar_measures v : 1 <= scalar_nodes v /\ 0 <= scalar_strings v <= scalar_text v /\ 1 <= scalar_depth v.
Proof.
  assert (forall {A} (f : A -> Z) l, 0 <= highest f l) as Hh.
  { intros A f l. induction l; simpl; lia. }
  induction v as [v Hl Hm|l IH|m IH] using Scalar_tree_ind.
  - destruct v; try (by destruct (Hl _ eq_refl)); try (by destruct (Hm _ eq_refl)); simpl;
      try pose proof (str_len_nonneg s); lia.
  - simpl. pose proof (Hh _ scalar_depth l).
    enough (0 <= total scalar_nodes l /\ 0 <= total scalar_strings l <= total scalar_text l) by lia.
    induction l as [|v l IHl]; simpl; [lia|]. pose proof (IH v ltac:(left)).
    specialize (IHl (fun v Hv => IH v (list_elem_of_further _ _ _ Hv)) (Hh _ _ _)). lia.
  - simpl. set (fd := fun e : rstr * Scalar => match e with (_, v) => scalar_depth v end).
    pose proof (Hh _ fd m).
    match goal with |- 1 <= 1 + ?n /\ 0 <= ?s <= ?t /\ _ => enough (0 <= n /\ 0 <= s <= t) by lia end.
    clear -IH. induction m as [|[k v] m IHm]; simpl; [lia|]. pose proof (IH k v ltac:(left)).
    specialize (IHm (fun k v Hv => IH k v (list_elem_of_further _ _ _ Hv))).
    pose proof (str_len_nonneg k). lia.
Qed.
Lemma charge_node_spec b : 0 <= sb_nodes b -> sb_nodes b + 1 <= 200000 ->
  charge_node b = (mk_ScalarBudget (sb_nodes b + 1) (sb_bytes b), Ok ()).
Proof.
  intros H1 H2. unfold charge_node.
  rewrite (proj2 (checked_u64_some _ (sb_nodes b + 1))); [done|]. unfold in_u64, u64_max. lia.
Qed.
Lemma charge_node_ok b b' u : charge_node b = (b', Ok u) ->
  b' = mk_ScalarBudget (sb_nodes b + 1) (sb_bytes b).
Proof.
  unfold charge_node. destruct (checked_u64 _) eqn:E; [|done]. apply checked_u64_some in E as [-> _]. naive_solver.
Qed.
Lemma charge_bytes_spec n b : 0 <= n -> 0 <= sb_bytes b -> sb_bytes b + n <= max_text ->
  charge_bytes n b = (mk_ScalarBudget (sb_nodes b) (sb_bytes b + n), Ok ()).
Proof.
  unfold charge_bytes, max_text. intros.
  rewrite (proj2 (checked_u64_some _ (sb_bytes b + n))); [done|]. unfold in_u64, u64_max. lia.
Qed.
Lemma charge_bytes_ok n b b' u : charge_bytes n b = (b', Ok u) ->
  b' = mk_ScalarBudget (sb_nodes b) (sb_bytes b + n).
Proof.
  unfold charge_bytes. destruct (checked_u64 _) eqn:E; [|done]. apply checked_u64_some in E as [-> _]. naive_solver.
Qed.
Lemma then_visit_ok r k b' u : then_visit r k = (b', Ok u) ->
  exists b, r = (b, Ok ()) /\ k b = (b', Ok u).
Proof. destruct r as [b [[]| |]]; simpl; naive_solver. Qed.

(** The visit of the contents, once the node itself is counted. *)
Definition scalar_contents v (depth : Z) (b : ScalarBudget) : ScalarBudget * ires () :=
  match v with
  | SString s =>
      then_visit (charge_bytes (str_len s) b) (fun b =>
        (b, reject (existsb (Z.eqb 0) s || (max_text <? sb_bytes b)) Invalid_Value))
  | SNumber n => (b, reject (negb (is_finite n)) Invalid_Value)
  | STime t => (b, reject (negb (timepoint_try_from t)) Invalid_Time)
  | SArray values => visit_all (fun v b => scalar_visit v (depth + 1) b) values b
  | SObject values =>
      visit_all (fun e b => match e with (key, v) =>
        then_visit (charge_bytes (str_len key) b) (scalar_visit v (depth + 1)) end) values b
  | _ => (b, Ok ())
  end.
Lemma scalar_visit_unfold v depth b :
  scalar_visit v depth b = then_visit (charge_node b) (fun b =>
    if (6 <? depth) || (200000 <? sb_nodes b) then (b, Err Invalid_Value) else scalar_contents v depth b).
Proof. by destruct v. Qed.
(** Counting the node lifts an account of the contents to one of the value. *)
Lemma accounts_node v depth :
  (depth <= 6 -> accounts (fun v b => scalar_contents v depth b) (fun v => scalar_nodes v - 1)
     scalar_text scalar_strings (fun v => scalar_depth v - 1) scalar_leaves_ok (depth + 1) v) ->
  accounts (fun v b => scalar_visit v depth b) scalar_nodes scalar_text scalar_strings scalar_depth
    scalar_leaves_ok depth v.
Proof.
  intros Hc. pose proof (scalar_measures v). split.
  - intros b b' Hb H'. rewrite scalar_visit_unfold in H'. apply then_visit_ok in H' as (b1 & E & H').
    apply charge_node_ok in E as ->. simpl in H'. destruct (_ || _) eqn:E; [done|].
    bool_hyps. destruct (Hc ltac:(lia)) as [Hc1 _].
    destruct (Hc1 (mk_ScalarBudget (sb_nodes b + 1) (sb_bytes b)) _ Hb H') as (? & ? & ? & ? & ? & ?).
    simpl in *. split_and!; (lia || done).
  - intros b Hn Hb Hn' Hb' Hd Hok. rewrite scalar_visit_unfold, charge_node_spec by lia. simpl.
    rewrite (proj2 (Z.ltb_ge 6 depth)), (proj2 (Z.ltb_ge _ (sb_nodes b + 1))) by lia. simpl.
    destruct (Hc ltac:(lia)) as [_ Hc2].
    rewrite Hc2 by (simpl; lia || done). simpl. do 2 f_equal. lia.
Qed.
Lemma scalar_visit_accounts v depth :
  accounts (fun v b => scalar_visit v depth b) scalar_nodes scalar_text scalar_strings scalar_depth
    scalar_leaves_ok depth v.
Proof.
  revert depth. induction v as [v Hl Hm|l IH|m IH] using Scalar_tree_ind; intros depth;
    apply accounts_node; intros Hd.
  - split.
    + intros b b' Hb H. destruct v; try (by destruct (Hl _ eq_refl)); try (by destruct (Hm _ eq_refl));
        simpl in *; try (injection H as <-; split_and!; (lia || done)).
      * apply then_visit_ok in H as (b1 & E & H). apply charge_bytes_ok in E as ->.
        injection H as <- H. apply reject_ok in H. bool_hyps. simpl in *. split_and!; try lia.
        match goal with E : existsb _ _ = false |- _ => rewrite existsb_false_iff in E end.
        intros Hin. specialize (H _ Hin). done.
      * injection H as <- H. apply reject_ok in H. bool_hyps. split_and!; (lia || done).
      * injection H as <- H. apply reject_ok in H. bool_hyps. split_and!; (lia || done).
    + intros b Hn Hb Hn' Hb' Hdep Hok.
      destruct v; try (by destruct (Hl _ eq_refl)); try (by destruct (Hm _ eq_refl));
        simpl in *; try (destruct b; simpl in *; do 2 f_equal; lia).
      * pose proof (str_len_nonneg s). rewrite charge_bytes_spec by lia. simpl.
        rewrite (proj2 (Z.ltb_ge max_text _)) by lia.
        assert (existsb (Z.eqb 0) s = false) as ->.
        { apply existsb_false_iff. intros c Hc. apply Z.eqb_neq. by intros <-. }
        simpl. do 2 f_equal; lia.
      * rewrite Hok. destruct b; simpl in *; do 2 f_equal; lia.
      * rewrite Hok. destruct b; simpl in *; do 2 f_equal; lia.
  - pose proof (visit_all_accounts (fun v b => scalar_visit v (depth + 1) b) scalar_nodes scalar_text
      scalar_strings scalar_depth scalar_leaves_ok (depth + 1) l) as [H1 H2].
    { intros a Ha. by apply IH. }
    { intros a _. pose proof (scalar_measures a). lia. }
    { lia. }
    split; simpl.
    + intros b b' Hb H. destruct (H1 b b' Hb H) as (? & ? & ? & ? & ? & ?). split_and!; (lia || done).
    + intros b Hn Hb Hn' Hb' Hdep Hok. rewrite H2 by (lia || done). do 2 f_equal; lia.
  - pose proof (visit_all_accounts (fun e b => match e with (key, v) =>
        then_visit (charge_bytes (str_len key) b) (scalar_visit v (depth + 1)) end)
      (fun e => match e with (_, v) => scalar_nodes v end)
      (fun e => match e with (k, v) => str_len k + scalar_text v end)
      (fun e => match e with (_, v) => scalar_strings v end)
      (fun e => match e with (_, v) => scalar_depth v end)
      (fun e => match e with (_, v) => scalar_leaves_ok v end) (depth + 1) m) as [H1 H2].
    { intros [k a] Ha. destruct (IH k a Ha (depth + 1)) as [Ha1 Ha2]. pose proof (str_len_nonneg k).
      pose proof (scalar_measures a). split.
      - intros b b' Hb H'. apply then_visit_ok in H' as (b1 & E & H'). apply charge_bytes_ok in E as ->.
        destruct (Ha1 (mk_ScalarBudget (sb_nodes b) (sb_bytes b + str_len k)) b' ltac:(simpl; lia) H')
          as (? & ? & ? & ? & ? & ?). simpl in *. split_and!; (lia || done).
      - intros b Hn Hb Hn' Hb' Hdep Hok. rewrite charge_bytes_spec by lia. simpl.
        rewrite Ha2 by (simpl; lia || done). simpl. do 2 f_equal; lia. }
    { intros [k a] _. pose proof (scalar_measures a). pose proof (str_len_nonneg k). lia. }
    { lia. }
    split; simpl.
    + intros b b' Hb H. destruct (H1 b b' Hb H) as (? & ? & ? & ? & ? & ?). split_and!; (lia || done).
    + intros b Hn Hb Hn' Hb' Hdep Hok. rewrite H2 by (lia || done). do 2 f_equal; lia.
Qed.
End Budget.
#[global] Arguments visit_all : simpl never.

(** ** Admission of values *)
Lemma try_for_each_ok {A} (f : A -> ires ()) l :
  try_for_each f l = Ok () <-> forall a, a ∈ l -> f a = Ok ().
Proof.
  induction l as [|a l IH]; simpl; [split; [set_solver|done]|].
  destruct (f a) as [[]|e|] eqn:E; simpl.
  - rewrite IH. split; [intros H x [->|Hx]%elem_of_cons; auto|intros H x Hx; apply H; by right].
  - split; [done|]. intros H. specialize (H a ltac:(left)). congruence.
  - split; [done|]. intros H. specialize (H a ltac:(left)). congruence.
Qed.
Lemma bm_elem_get_nodup {K V} `{OrdLaws K} (m : list (K * V)) k v :
  NoDup (map fst m) -> (k, v) ∈ m -> bm_get k m = Some v.
Proof.
  induction m as [|[k1 v1] m IH]; simpl; [set_solver|].
  intros [Hnin Hnd]%NoDup_cons [[= -> ->]|Hin]%elem_of_cons.
  - by rewrite eqb_refl.
  - destruct (eqb k k1) eqn:E; [|by apply IH]. apply eqb_true in E as ->.
    destruct Hnin. apply elem_of_map. by exists (k1, v).
Qed.

Section Admission.
Context `{OF : OrderedFloat} `{TR : TimepointRange}.
Implicit Types (t : ValueType) (v : Scalar).

Lemma undeclared_false t (values : list (rstr * Scalar)) :
  existsb (fun k => negb (existsb (fun p => bool_decide (p.1.1 = k)) (properties t))) (bm_keys values) = false <->
  forall k, k ∈ bm_keys values -> k ∈ map (fun p => p.1.1) (properties t).
Proof.
  rewrite existsb_false_iff. apply forall_proper. intros k. apply forall_proper. intros Hk.
  rewrite negb_false_iff, existsb_true_iff, elem_of_map. setoid_rewrite bool_decide_eq_true. naive_solver.
Qed.
Lemma object_names (ps : list (rstr * ValueType)) :
  map (fun p : rstr * ValueType * bool => p.1.1) (properties (TObject ps)) = bm_keys ps.
Proof. unfold bm_keys. simpl. rewrite map_map. apply map_ext. by intros []. Qed.
Lemma record_names (ps : list (rstr * Property)) :
  map (fun p : rstr * ValueType * bool => p.1.1) (properties (TRecord ps)) = bm_keys ps.
Proof. unfold bm_keys. simpl. rewrite map_map. apply map_ext. by intros []. Qed.
Lemma validate_object_iff ps v :
  validate_value (TObject ps) v = Ok () <->
  Scalar_validate v = Ok () /\ exists vs, v = SObject vs /\ (forall k, k ∈ bm_keys vs -> k ∈ bm_keys ps) /\
    forall k t, (k, t) ∈ ps -> exists x, bm_get k vs = Some x /\ validate_value t x = Ok ().
Proof.
  cbn [validate_value]. destruct (Scalar_validate v) as [[]| |] eqn:Ev; cbn [mbind res_bind]; [|split; [done|naive_solver]..].
  destruct v as [| | | |vs| |]; try (split; [done|naive_solver]).
  rewrite bind_ok. setoid_rewrite reject_ok. setoid_rewrite undeclared_false. rewrite object_names.
  setoid_rewrite try_for_each_ok. split.
  - intros (_ & Hk & Hp). split; [done|]. exists vs. split; [done|]. split; [done|]. intros k t Hin.
    specialize (Hp (k, t) Hin). simpl in Hp. destruct (bm_get k vs); [eauto|done].
  - intros (_ & vs' & [= <-] & Hk & Hp). exists (). split; [done|]. intros [k t] Hin.
    destruct (Hp k t Hin) as (x & -> & Hx). done.
Qed.
Lemma validate_record_iff ps v :
  validate_value (TRecord ps) v = Ok () <->
  Scalar_validate v = Ok () /\ exists vs, v = SObject vs /\ (forall k, k ∈ bm_keys vs -> k ∈ bm_keys ps) /\
    forall k p, (k, p) ∈ ps -> match bm_get k vs with
                              | Some x => validate_value (value_type p) x = Ok ()
                              | None => required p = false
                              end.
Proof.
  cbn [validate_value]. destruct (Scalar_validate v) as [[]| |] eqn:Ev; cbn [mbind res_bind]; [|split; [done|naive_solver]..].
  destruct v as [| | | |vs| |]; try (split; [done|naive_solver]).
  rewrite bind_ok. setoid_rewrite reject_ok. setoid_rewrite undeclared_false. rewrite record_names.
  setoid_rewrite try_for_each_ok. split.
  - intros (_ & Hk & Hp). split; [done|]. exists vs. split; [done|]. split; [done|]. intros k [t r] Hin.
    specialize (Hp (k, mk_Property t r) Hin). simpl in *. destruct (bm_get k vs); [done|].
    by apply reject_ok in Hp.
  - intros (_ & vs' & [= <-] & Hk & Hp). exists (). split; [done|]. intros [k [t r]] Hin.
    specialize (Hp k (mk_Property t r) Hin). simpl in *. destruct (bm_get k vs); [done|]. by apply reject_ok.
Qed.
Lemma validate_array_iff items max_items v :
  validate_value (TArray items max_items) v = Ok () <->
  Scalar_validate v = Ok () /\ exists vs, v = SArray vs /\ zlen vs <= max_items /\
    forall x, x ∈ vs -> validate_value items x = Ok ().
Proof.
  cbn [validate_value]. destruct (Scalar_validate v) as [[]| |] eqn:Ev; cbn [mbind res_bind]; [|split; [done|naive_solver]..].
  destruct v as [| | |vs| | |]; try (split; [done|naive_solver]).
  rewrite bind_ok. setoid_rewrite reject_ok. setoid_rewrite Z.ltb_ge. setoid_rewrite try_for_each_ok.
  naive_solver.
Qed.
End Admission.

(** ** Extension of schemas *)
Section Extension.
Context `{OF : OrderedFloat} `{TR : TimepointRange}.
Implicit Types (t : ValueType) (v : Scalar).

Lemma object_wf ps : ValueType_wf (TObject ps) = true <->
  NoDup (bm_keys ps) /\ forall k t, (k, t) ∈ ps -> ValueType_wf t = true.
Proof.
  simpl. rewrite andb_true_iff, bool_decide_eq_true, forallb_true_iff.
  split; intros [? H]; (split; [done|]); [intros k t Hin; apply (H (k, t) Hin)|intros [k t]; apply H].
Qed.
Lemma record_wf ps : ValueType_wf (TRecord ps) = true <->
  NoDup (bm_keys ps) /\ forall k p, (k, p) ∈ ps -> ValueType_wf (value_type p) = true.
Proof.
  simpl. rewrite andb_true_iff, bool_decide_eq_true, forallb_true_iff.
  split; intros [? H]; (split; [done|]); [intros k [t r] Hin; apply (H (k, mk_Property t r) Hin)|
    intros [k [t r]] Hin; apply (H k (mk_Property t r) Hin)].
Qed.
(** Extension, member by member. *)
Lemma extends_object new old : extends (TObject new) (TObject old) = true <->
  zlen new = zlen old /\
  forall k t, (k, t) ∈ old -> exists t', bm_get k new = Some t' /\ extends t' t = true.
Proof.
  simpl. rewrite andb_true_iff, Z.eqb_eq, forallb_true_iff. split; intros [? H]; (split; [done|]).
  - intros k t Hin. specialize (H (k, t) Hin). simpl in H. destruct (bm_get k new); [eauto|done].
  - intros [k t] Hin. by destruct (H k t Hin) as (t' & -> & ?).
Qed.
Definition optional_additions {A} (new : list (rstr * Property)) (old : list (rstr * A)) : Prop :=
  forall k p, (k, p) ∈ new -> k ∈ bm_keys old \/ required p = false.
Lemma optional_additions_iff {A} new (old : list (rstr * A)) :
  forallb (fun e => bm_contains e.1 old || negb (required e.2)) new = true <-> optional_additions new old.
Proof.
  rewrite forallb_true_iff. unfold optional_additions, bm_contains. split.
  - intros H k p Hin. specialize (H (k, p) Hin). simpl in H. rewrite orb_true_iff, negb_true_iff in H.
    destruct H as [H|?]; [left|by right]. apply bm_get_keys. by destruct (bm_get k old).
  - intros H [k p] Hin. simpl. rewrite orb_true_iff, negb_true_iff.
    destruct (H k p Hin) as [Hk|?]; [left|by right]. apply bm_get_keys in Hk as [? ->]. done.
Qed.
Lemma extends_record new old : extends (TRecord new) (TRecord old) = true <->
  (forall k p, (k, p) ∈ old -> exists p', bm_get k new = Some p' /\
     (required p' = true -> required p = true) /\ extends (value_type p') (value_type p) = true) /\
  optional_additions new old.
Proof.
  simpl. rewrite andb_true_iff, optional_additions_iff, forallb_true_iff.
  split; intros [H ?]; (split; [|done]).
  - intros k [t r] Hin. specialize (H (k, mk_Property t r) Hin). simpl in *.
    destruct (bm_get k new) as [p'|]; [|done]. bool_hyps. exists p'. split_and!; [done| |done].
    destruct (required p'), r; done.
  - intros [k [t r]] Hin. destruct (H k (mk_Property t r) Hin) as (p' & -> & Hr & He). simpl in *.
    rewrite He, andb_true_r. destruct (required p'), r; naive_solver.
Qed.
Lemma extends_record_object new old : extends (TRecord new) (TObject old) = true <->
  (forall k t, (k, t) ∈ old -> exists p', bm_get k new = Some p' /\ extends (value_type p') t = true) /\
  optional_additions new old.
Proof.
  simpl. rewrite andb_true_iff, optional_additions_iff, forallb_true_iff.
  split; intros [H ?]; (split; [|done]).
  - intros k t Hin. specialize (H (k, t) Hin). simpl in H. destruct (bm_get k new); [eauto|done].
  - intros [k t] Hin. by destruct (H k t Hin) as (p' & -> & ?).
Qed.

(** With as many members, an object that keeps every old member has no others. *)
Lemma same_length_members {A B} (new : list (rstr * A)) (old : list (rstr * B)) :
  NoDup (bm_keys old) -> zlen new = zlen old ->
  (forall k, k ∈ bm_keys old -> k ∈ bm_keys new) -> forall k, k ∈ bm_keys new -> k ∈ bm_keys old.
Proof.
  intros Hnd Hlen Hsub. assert (bm_keys old ⊆+ bm_keys new) as Hs by (by apply NoDup_submseteq).
  assert (bm_keys old ≡ₚ bm_keys new) as Hp.
  { apply submseteq_length_Permutation; [done|]. unfold bm_keys. rewrite !length_map.
    unfold zlen in Hlen. lia. }
  intros k Hk. by rewrite Hp.
Qed.
Lemma member_key {A} (ps : list (rstr * A)) k a : (k, a) ∈ ps -> k ∈ bm_keys ps.
Proof. intros H. unfold bm_keys. apply elem_of_map. by exists (k, a). Qed.
Lemma key_member {A} (ps : list (rstr * A)) k : k ∈ bm_keys ps -> exists a, (k, a) ∈ ps.
Proof. unfold bm_keys. rewrite elem_of_map. intros ([k' a] & <- & H). eauto. Qed.

(** Every type extends itself. *)
Lemma extends_refl t : ValueType_wf t = true -> extends t t = true.
Proof.
  induction t as [t Ha Ho Hr|i m IH|ps IH|ps IH] using ValueType_tree_ind; intros Hwf.
  - destruct t; try (by destruct (Ha _ _ eq_refl)); try (by destruct (Ho _ eq_refl));
      try (by destruct (Hr _ eq_refl)); try done.
    + simpl. rewrite Z.leb_refl. by destruct allow_empty.
    + apply bs_subset_iff. done.
  - simpl. rewrite Z.leb_refl. by apply IH.
  - apply object_wf in Hwf as [Hnd Hwf]. apply extends_object. split; [done|]. intros k t Hin.
    exists t. split; [by apply bm_elem_get_nodup|]. eapply IH; [done|]. by eapply Hwf.
  - apply record_wf in Hwf as [Hnd Hwf]. apply extends_record. split.
    + intros k p Hin. exists p. split_and!; [by apply bm_elem_get_nodup|done|]. eapply IH; [done|]. by eapply Hwf.
    + intros k p Hin. left. by eapply member_key.
Qed.

(** *** Values stay valid *)
Lemma member_extends {A} (new : list (rstr * A)) k a a' :
  NoDup (bm_keys new) -> (k, a) ∈ new -> bm_get k new = Some a' -> a' = a.
Proof. intros Hnd Hin Hget. apply (bm_elem_get_nodup _ _ _ Hnd) in Hin. congruence. Qed.
Lemma extends_object_inv new old : extends new (TObject old) = true ->
  (exists ps, new = TObject ps) \/ exists ps, new = TRecord ps.
Proof. destruct new; simpl; try done; eauto. Qed.
Lemma extends_record_inv new old : extends new (TRecord old) = true -> exists ps, new = TRecord ps.
Proof. destruct new; simpl; try done; eauto. Qed.
Lemma extends_array_inv new old m : extends new (TArray old m) = true ->
  exists i n, new = TArray i n /\ m <= n /\ extends i old = true.
Proof. destruct new; simpl; try done. rewrite andb_true_iff, Z.leb_le. naive_solver. Qed.
Lemma extends_leaf new old : (forall i m, old <> TArray i m) -> (forall ps, old <> TObject ps) ->
  (forall ps, old <> TRecord ps) -> extends new old = true ->
  new = old \/
  (exists m a m' a', new = TString m a /\ old = TString m' a' /\ m' <= m /\ (a' = true -> a = true)) \/
  (exists vs ws, new = TEnum vs /\ old = TEnum ws /\ forall s, s ∈ ws -> s ∈ vs).
Proof.
  intros Ha Ho Hr. destruct old; try (by destruct (Ha _ _ eq_refl)); try (by destruct (Ho _ eq_refl));
    try (by destruct (Hr _ eq_refl)); destruct new; simpl; try done; try (by left).
  - rewrite andb_true_iff, Z.leb_le, orb_true_iff, negb_true_iff. intros [? Hb]. right. left.
    do 4 eexists. split_and!; [done|done|done|]. destruct allow_empty; naive_solver.
  - rewrite bs_subset_iff. intros. right. right. eauto 6.
Qed.
Lemma extends_sound new old v : ValueType_wf new = true -> ValueType_wf old = true ->
  extends new old = true -> validate_value old v = Ok () -> validate_value new v = Ok ().
Proof.
  revert new v. induction old as [old Ha Ho Hr|i m IH|old IH|old IH] using ValueType_tree_ind;
    intros new v Hn Hold He Hv.
  - destruct (extends_leaf _ _ Ha Ho Hr He) as [->|[(m & a & m' & a' & -> & -> & Hm & Hae)|(vs & ws & -> & -> & Hs)]];
      [done| |]; cbn [validate_value] in *; destruct (Scalar_validate v) as [[]| |]; try done; simpl in *.
    + destruct v; try done. apply reject_ok. apply reject_ok in Hv. bool_hyps.
      match goal with H : _ || _ = true |- _ => apply orb_true_iff in H as [?%Hae|H'] end; subst;
        rewrite ?H'; rewrite negb_false_iff, andb_true_iff, ?orb_true_r, Z.leb_le; (split; [done|lia]).
    + destruct v; try done. apply reject_ok. apply reject_ok in Hv. rewrite negb_false_iff in *.
      apply bs_mem_iff. apply bs_mem_iff in Hv. auto.
  - apply extends_array_inv in He as (i' & n & -> & Hle & He). apply validate_array_iff in Hv as (Hs & vs & -> & Hl & Hv).
    apply validate_array_iff. split; [done|]. exists vs. split_and!; [done|lia|]. intros x Hx.
    apply IH; [done..|by apply Hv].
  - apply validate_object_iff in Hv as (Hs & vs & -> & Hk & Hv). apply object_wf in Hold as [Hnd Hwf].
    destruct (extends_object_inv _ _ He) as [[ps ->]|[ps ->]].
    + apply extends_object in He as [Hlen He]. apply object_wf in Hn as [Hnd' Hwf'].
      apply validate_object_iff. split; [done|]. exists vs. split; [done|].
      assert (forall k, k ∈ bm_keys old -> k ∈ bm_keys ps) as Hsub.
      { intros k [t Hin]%key_member. destruct (He k t Hin) as (t' & Hget & _). apply bm_get_keys. eauto. }
      split; [auto|]. intros k t' Hin.
      destruct (key_member old k) as [t Hold].
      { apply (same_length_members ps old Hnd Hlen Hsub). by eapply member_key. }
      destruct (He k t Hold) as (t2 & Hget & Het). rewrite (member_extends _ _ _ _ Hnd' Hin Hget) in Het.
      destruct (Hv k t Hold) as (x & Hx & Hvx). exists x. split; [done|]. eapply IH; eauto.
    + apply extends_record_object in He as [He Hopt]. apply record_wf in Hn as [Hnd' Hwf'].
      apply validate_record_iff. split; [done|]. exists vs. split; [done|]. split.
      { intros k [t Hin]%Hk%key_member. destruct (He k t Hin) as (t' & Hget & _). apply bm_get_keys. eauto. }
      intros k p Hin. destruct (decide (k ∈ bm_keys old)) as [[t Hold]%key_member|Hno].
      * destruct (He k t Hold) as (p2 & Hget & Het). rewrite (member_extends _ _ _ _ Hnd' Hin Hget) in Het.
        destruct (Hv k t Hold) as (x & -> & Hvx). eapply IH; eauto.
      * destruct (Hopt k p Hin) as [|Hreq]; [done|]. destruct (bm_get k vs) eqn:E; [|done].
        destruct Hno. apply Hk, bm_get_keys. eauto.
  - apply validate_record_iff in Hv as (Hs & vs & -> & Hk & Hv). apply record_wf in Hold as [Hnd Hwf].
    destruct (extends_record_inv _ _ He) as [ps ->].
    apply extends_record in He as [He Hopt]. apply record_wf in Hn as [Hnd' Hwf'].
    apply validate_record_iff. split; [done|]. exists vs. split; [done|]. split.
    { intros k [p Hin]%Hk%key_member. destruct (He k p Hin) as (t' & Hget & _). apply bm_get_keys. eauto. }
    intros k p Hin. destruct (decide (k ∈ bm_keys old)) as [[p0 Hold]%key_member|Hno].
    + destruct (He k p0 Hold) as (p2 & Hget & Hreq & Het).
      rewrite (member_extends _ _ _ _ Hnd' Hin Hget) in Het, Hreq.
      specialize (Hv k p0 Hold). destruct (bm_get k vs); [eapply IH; eauto|].
      destruct (required p); [|done]. rewrite Hreq in Hv by done. done.
    + destruct (Hopt k p Hin) as [|Hreq]; [done|]. destruct (bm_get k vs) eqn:E; [|done].
      destruct Hno. apply Hk, bm_get_keys. eauto.
Qed.

(** *** Extensions compose *)
Lemma optional_additions_trans {A} (a b : list (rstr * Property)) (c : list (rstr * A)) :
  NoDup (bm_keys a) ->
  (forall k p, (k, p) ∈ b -> exists p', bm_get k a = Some p' /\ (required p' = true -> required p = true)) ->
  optional_additions a b -> optional_additions b c -> optional_additions a c.
Proof.
  intros Hnd Hm Hab Hbc k p Hin. destruct (Hab k p Hin) as [[pb Hb]%key_member|]; [|by right].
  destruct (Hbc k pb Hb) as [|Hr]; [by left|right].
  destruct (Hm k pb Hb) as (p' & Hget & Hreq). rewrite (member_extends _ _ _ _ Hnd Hin Hget) in Hreq.
  destruct (required p); [|done]. by rewrite Hreq in Hr.
Qed.
Lemma extends_leaf_trans a b c : (forall i m, c <> TArray i m) -> (forall ps, c <> TObject ps) ->
  (forall ps, c <> TRecord ps) -> extends a b = true -> extends b c = true -> extends a c = true.
Proof.
  intros Ha Ho Hr Hab Hbc.
  destruct (extends_leaf _ _ Ha Ho Hr Hbc) as [->|[(m & e & m' & e' & -> & -> & Hm & He)|(vs & ws & -> & -> & Hs)]];
    [done| |].
  - destruct a; try done. simpl in *. bool_hyps.
    apply andb_true_iff. split; [apply Z.leb_le; lia|]. destruct e', e, allow_empty; naive_solver.
  - destruct a; try done. simpl in *. apply bs_subset_iff. rewrite bs_subset_iff in Hab. auto.
Qed.
Lemma extends_trans a b c : ValueType_wf a = true -> ValueType_wf b = true -> ValueType_wf c = true ->
  extends a b = true -> extends b c = true -> extends a c = true.
Proof.
  revert a b. induction c as [c Ha Ho Hr|i m IH|c IH|c IH] using ValueType_tree_ind;
    intros a b Hwa Hwb Hwc Hab Hbc.
  - by eapply extends_leaf_trans.
  - apply extends_array_inv in Hbc as (i' & n & -> & Hle & Hbc).
    apply extends_array_inv in Hab as (i'' & n' & -> & Hle' & Hab).
    simpl. apply andb_true_iff. split; [apply Z.leb_le; lia|]. by eapply (IH i'' i').
  - apply object_wf in Hwc as [Hnd Hwf].
    destruct (extends_object_inv _ _ Hbc) as [[b' ->]|[b' ->]].
    + apply object_wf in Hwb as [Hndb Hwfb].
      apply extends_object in Hbc as [Hlen Hbc].
      assert (forall k, k ∈ bm_keys b' -> k ∈ bm_keys c) as Hsub.
      { apply same_length_members; [done..|]. intros k [t Hin]%key_member.
        destruct (Hbc k t Hin) as (? & ? & _). apply bm_get_keys. eauto. }
      destruct (extends_object_inv _ _ Hab) as [[a' ->]|[a' ->]].
      * apply object_wf in Hwa as [Hnda Hwfa]. apply extends_object in Hab as [Hlen' Hab].
        apply extends_object. split; [lia|]. intros k t Hin.
        destruct (Hbc k t Hin) as (tb & Hgb & Heb). apply bm_get_elem in Hgb.
        destruct (Hab k tb Hgb) as (ta & Hga & Hea). exists ta. split; [done|].
        apply bm_get_elem in Hga. eapply (IH k t Hin ta tb); eauto.
      * apply record_wf in Hwa as [Hnda Hwfa]. apply extends_record_object in Hab as [Hab Hopt].
        apply extends_record_object. split.
        -- intros k t Hin. destruct (Hbc k t Hin) as (tb & Hgb & Heb). apply bm_get_elem in Hgb.
           destruct (Hab k tb Hgb) as (pa & Hga & Hea). exists pa. split; [done|].
           apply bm_get_elem in Hga. eapply (IH k t Hin _ tb); eauto.
        -- intros k p Hin. destruct (Hopt k p Hin); auto.
    + apply record_wf in Hwb as [Hndb Hwfb]. apply extends_record_object in Hbc as [Hbc Hoptb].
      destruct (extends_record_inv _ _ Hab) as [a' ->]. apply record_wf in Hwa as [Hnda Hwfa].
      apply extends_record in Hab as [Hab Hopta]. apply extends_record_object. split.
      * intros k t Hin. destruct (Hbc k t Hin) as (pb & Hgb & Heb). apply bm_get_elem in Hgb.
        destruct (Hab k pb Hgb) as (pa & Hga & _ & Hea). exists pa. split; [done|].
        apply bm_get_elem in Hga. eapply (IH k t Hin _ (value_type pb)); eauto.
      * eapply optional_additions_trans; [done| |done|done]. intros k p Hin.
        destruct (Hab k p Hin) as (p' & ? & ? & _). eauto.
  - apply record_wf in Hwc as [Hnd Hwf]. destruct (extends_record_inv _ _ Hbc) as [b' ->].
    destruct (extends_record_inv _ _ Hab) as [a' ->].
    apply record_wf in Hwb as [Hndb Hwfb]. apply record_wf in Hwa as [Hnda Hwfa].
    apply extends_record in Hbc as [Hbc Hoptb]. apply extends_record in Hab as [Hab Hopta].
    apply extends_record. split.
    + intros k p Hin. destruct (Hbc k p Hin) as (pb & Hgb & Hrb & Heb). apply bm_get_elem in Hgb.
      destruct (Hab k pb Hgb) as (pa & Hga & Hra & Hea). exists pa. split_and!; [done|auto|].
      apply bm_get_elem in Hga. eapply (IH k p Hin _ (value_type pb)); eauto.
    + eapply optional_additions_trans; [done| |done|done]. intros k p Hin.
      destruct (Hab k p Hin) as (p' & ? & ? & _). eauto.
Qed.
End Extension.

(** ** Declared paths *)
Section Paths.
Context `{OF : OrderedFloat} `{TR : TimepointRange}.
Implicit Types (t : ValueType) (v : Scalar).

Lemma strip_arrays_fst t many many' : (strip_arrays t many).1 = (strip_arrays t many').1.
Proof. revert many many'. induction t; intros; simpl; done. Qed.
Lemma strip_arrays_true t : (strip_arrays t true).2 = true.
Proof. induction t; simpl; done. Qed.
Lemma strip_arrays_id t many : (forall i m, t <> TArray i m) -> strip_arrays t many = (t, many).
Proof. intros Ht. destruct t; try done. by destruct (Ht _ _ eq_refl). Qed.
Lemma path_step_array items m many part :
  path_step (TArray items m, many) part = path_step (items, true) part.
Proof. done. Qed.
Lemma path_many segs : forall t leaf, res_for path_step segs (t, true) = Ok leaf -> leaf.2 = true.
Proof.
  induction segs as [|part segs IH]; intros t leaf H; simpl in H; inv_ok; [done|].
  unfold path_step in E. simpl in E. pose proof (strip_arrays_true t) as Ht.
  destruct (strip_arrays t true) as [t' m]. simpl in Ht. subst. inv_ok. by eapply IH.
Qed.
Lemma find_property_ok t p ty : find_property t p = Some ty ->
  exists k r, (k, ty, r) ∈ properties t /\ p k r = true.
Proof.
  unfold find_property. destruct (List.find _ _) as [[[k ty'] r]|] eqn:E; [|done]. intros [= ->].
  apply find_some in E as [Hin Hp]. exists k, r. split; [by apply list_elem_of_In|done].
Qed.
#[local] Arguments find_property : simpl never.
(** A member of a valid structure has its declared type. *)
Lemma member_typed t part p ty v :
  find_property t p = Some ty -> (forall k r, p k r = true -> k = part) -> validate_value t v = Ok () ->
  exists vs, v = SObject vs /\ forall x, bm_get part vs = Some x -> validate_value ty x = Ok ().
Proof.
  intros (k & r & Hin & Hk)%find_property_ok Hp Hv. apply Hp in Hk as ->. clear Hp.
  destruct t as [ps| | | | | | | |ps]; simpl in Hin; try (by inversion Hin).
  - apply validate_record_iff in Hv as (_ & vs & -> & _ & Hv). exists vs. split; [done|]. intros x Hx.
    apply elem_of_map in Hin as ([k' q] & [= -> <- <-] & Hin). specialize (Hv part q Hin). by rewrite Hx in Hv.
  - apply validate_object_iff in Hv as (_ & vs & -> & _ & Hv). exists vs. split; [done|]. intros x Hx.
    apply elem_of_map in Hin as ([k' t'] & [= -> <- <-] & Hin). destruct (Hv part t' Hin) as (y & Hy & ?). congruence.
Qed.
(** What reading a path yields: leaves of the leaf type, at most one when no array is crossed. *)
Definition reads (segs : list rstr) (leaf : ValueType * bool) v : Prop :=
  forall out, exists ls, collect_leaves segs v out = Ok (out ++ ls) /\
    (forall x, x ∈ ls -> validate_value leaf.1 x = Ok ()) /\ (leaf.2 = false -> (length ls <= 1)%nat).
Definition walk (segs : list rstr) (t : ValueType) (many : bool) : ires (ValueType * bool) :=
  leaf ← res_for path_step segs (t, many); Ok (strip_arrays leaf.1 leaf.2).
Lemma reads_array segs leaf vs : leaf.2 = true -> (forall x, x ∈ vs -> reads segs leaf x) ->
  reads segs leaf (SArray vs).
Proof.
  intros Hmany Hall out.
  enough (exists ls, res_for (fun out v => collect_leaves segs v out) vs out = Ok (out ++ ls) /\
    forall x, x ∈ ls -> validate_value leaf.1 x = Ok ()) as (ls & Hls & Hx).
  { exists ls. split_and!; [by destruct segs|done|congruence]. }
  revert out. induction vs as [|v vs IH]; intros out; simpl.
  { exists []. rewrite app_nil_r. split; [done|]. intros x Hx. inversion Hx. }
  destruct (Hall v ltac:(left) out) as (ls & Hc & Hx & _). rewrite Hc. simpl.
  destruct (IH ltac:(intros; apply Hall; by right) (out ++ ls)) as (ls' & Hc' & Hx').
  exists (ls ++ ls'). rewrite app_assoc. split; [done|]. intros x [?|?]%elem_of_app; auto.
Qed.
Lemma walk_many segs t leaf : walk segs t true = Ok leaf -> leaf.2 = true.
Proof.
  unfold walk. intros H. inv_ok. pose proof (path_many _ _ _ E) as Hm. rewrite Hm. apply strip_arrays_true.
Qed.
Lemma walk_array segs items m many : walk segs (TArray items m) many = walk segs items true.
Proof. by destruct segs. Qed.
Lemma walk_reads segs : forall t many leaf v,
  walk segs t many = Ok leaf -> validate_value t v = Ok () -> reads segs leaf v.
Proof.
  induction segs as [|part segs IHs]; intros t.
  - induction t as [ps|m e|vs| | | | |items IHt m|ps]; intros many leaf v Hw Hv;
      try (rewrite walk_array in Hw; apply validate_array_iff in Hv as (_ & vs & -> & _ & Hv);
           apply reads_array; [by eapply walk_many|]; intros x Hx; eapply IHt; [done|by apply Hv]).
    all: unfold walk in Hw; simpl in Hw; injection Hw as <-; intros out; exists [v]; simpl.
    all: split_and!; [|by intros x ->%list_elem_of_singleton|lia].
    all: destruct v; try done; cbn [validate_value] in Hv; by destruct (Scalar_validate _) as [[]| |].
  - induction t as [ps|m e|vs| | | | |items IHt m|ps]; intros many leaf v Hw Hv;
      try (rewrite walk_array in Hw; apply validate_array_iff in Hv as (_ & vs & -> & _ & Hv);
           apply reads_array; [by eapply walk_many|]; intros x Hx; eapply IHt; [done|by apply Hv]).
    all: unfold walk in Hw; cbn [res_for] in Hw; inv_ok.
    all: match goal with E : path_step _ _ = Ok _ |- _ =>
           unfold path_step in E; cbn [strip_arrays fst snd] in E; inv_ok end.
    all: lazymatch goal with Hf : find_property _ _ = Some _ |- _ =>
           destruct (member_typed _ part _ _ _ Hf ltac:(by intros k r ?%bool_decide_eq_true) Hv)
             as (row & -> & Hx) end.
    all: intros out; simpl; destruct (bm_get part row) as [x|] eqn:Eg;
      [|exists []; rewrite app_nil_r; split_and!; [done|intros x Hin; inversion Hin|simpl; lia]].
    all: eapply IHs; [|by apply Hx]; unfold walk.
    all: match goal with H : res_for path_step _ _ = Ok _ |- _ => rewrite H end; done.
Qed.
End Paths.

(** ** Closed examples

    Concrete instances of the external classes and small definitions and facts on which the
    theorems of the inventory are applied. *)
Import Reference.

#[export] Instance time_series_crate : TimeSeriesCrate := {|
  Metric := unit; ts_id _ := true; metric_gauge _ := (); metric_counter _ _ := ();
  metric_bool := (); metric_state _ := ()
|}.

Definition key_of (s : rstr) : FieldKey := get (mk_FieldKey [] 0) (FieldKey_parse s).
Definition text_type : ValueType := TString 256 false.
Definition a_field (key : rstr) (t : ValueType) (item : option rstr) : FieldDefinition :=
  mk_FieldDefinition None (key_of key) 1 t true true
    [(AgentNative, 1); (Manual, 0); (MdmWindows, 0)] [Windows; Macos] Standard None true item.
Definition os_name : FieldDefinition := a_field (lit "device.os.name") text_type None.
Definition row_type : ValueType :=
  TObject [(lit "addresses", TArray text_type 4); (lit "id", text_type)].
Definition interfaces : FieldDefinition :=
  a_field (lit "device.network.interfaces") (TArray row_type 100) (Some (lit "id")).
Definition row (id : rstr) (addresses : list rstr) : Scalar :=
  SObject [(lit "addresses", SArray (map SString addresses)); (lit "id", SString id)].
Definition two_rows : Scalar := SArray [row (lit "eth1") [lit "10.0.0.1"]; row (lit "eth0") []].
Definition device_evidence (source : Source) : Evidence :=
  mk_Evidence Device source (Some (lit "inventory")) (Some (lit "r1")) (Some 1) (Some (lit "e1"))
    (lit "s1") 100 101 None.
Definition manual_evidence : Evidence :=
  mk_Evidence Device Manual None None None None (lit "s2") 100 101 (Some (lit "admin")).
Definition known {V} (source : Source) (v : V) : FactOf V := mk_Fact (Known v) None (device_evidence source).
(** Two sources of the best priority disagree with a third of lower priority; one is deleted. *)
Definition os_facts : list SourceFact :=
  [known MdmWindows (SString (lit "Windows 11")); known AgentNative (SString (lit "windows"));
   mk_Fact Deleted None manual_evidence].
Definition a_catalog : Catalog := get (mk_Catalog []) (Catalog_new [os_name; interfaces]).
Definition addresses_key : FieldKey := key_of (lit "device.network.interfaces.addresses").

Example os_facts_resolve :
  match resolve os_name os_facts with
  | Ok r => state_eqb eqb (rf_state r) (Known (SString (lit "Windows 11")))
  | _ => false
  end = true.
Proof. vm_compute. reflexivity. Qed.
Example reads_addresses :
  match Catalog_path a_catalog addresses_key with
  | Ok p => bool_decide (FieldPath_values p two_rows = Ok [SString (lit "10.0.0.1")])
  | _ => false
  end = true.
Proof. vm_compute. reflexivity. Qed.
