(* ===== verification/InventoryResolveSpec.v ===== *)
(** * What a resolved field means

    The abstract policy: the selectable facts of the best priority decide; any of them unknown
    makes the field unknown, disagreement is a conflict, and tombstones speak only when no
    fact is selectable.  The resolvers of values and of array summaries both implement it. *)
From S2P Require Import Prelude Ordered Text External InventoryValue InventorySource InventoryField.
From S2P Require Import InventoryResolve InventorySpec.

Section Policy.
Context {V : Type} (veqb : V -> V -> bool).
Context (Hrefl : forall v, veqb v v = true) (Hsym : forall v w, veqb v w = veqb w v)
  (Htrans : forall u v w, veqb u v = true -> veqb v w = true -> veqb u w = true).
Implicit Types (s : StateOf V) (f g : FactOf V) (facts : list (FactOf V)) (d : FieldDefinition).

Definition winner d facts f : Prop :=
  f ∈ facts /\ selectable (fact_state f) = true /\
  forall g p q, g ∈ facts -> selectable (fact_state g) = true ->
    priority d f = Some p -> priority d g = Some q -> p <= q.
Definition none_selectable facts : Prop := forall f, f ∈ facts -> selectable (fact_state f) = false.
(** [s] is the state the policy assigns, given the canonical state of every fact. *)
Definition resolves (canon : FactOf V -> StateOf V) d facts s : Prop :=
  match s with
  | Unknown r =>
      (exists f, winner d facts f /\ is_unknown (canon f) = true) /\
      (r = UnorderedConflict /\ (exists f, winner d facts f /\ is_unordered (canon f) = true) \/
       r = NativeStatus /\ forall f, winner d facts f -> is_unordered (canon f) = false)
  | Conflict =>
      (forall f, winner d facts f -> is_unknown (canon f) = false) /\
      exists f g, winner d facts f /\ winner d facts g /\ state_eqb veqb (canon f) (canon g) = false
  | Known _ | Null =>
      (exists f, winner d facts f) /\
      forall f, winner d facts f -> state_eqb veqb (canon f) s = true
  | Deleted => none_selectable facts /\ exists f, f ∈ facts /\ fact_state f = Deleted
  | Unsupported =>
      none_selectable facts /\ (forall f, f ∈ facts -> fact_state f <> Deleted) /\
      exists f, f ∈ facts /\ fact_state f = Unsupported
  | Missing =>
      none_selectable facts /\ forall f, f ∈ facts -> fact_state f <> Deleted /\ fact_state f <> Unsupported
  end.

Lemma state_eqb_refl s : state_eqb veqb s s = true.
Proof. destruct s; simpl; try done. by apply bool_decide_eq_true. Qed.
Lemma state_eqb_sym s t : state_eqb veqb s t = state_eqb veqb t s.
Proof.
  destruct s, t; simpl; try done. apply bool_decide_ext. naive_solver.
Qed.
Lemma state_eqb_trans s t u :
  state_eqb veqb s t = true -> state_eqb veqb t u = true -> state_eqb veqb s u = true.
Proof. destruct s, t, u; simpl; try done; rewrite ?bool_decide_eq_true; [congruence|apply Htrans]. Qed.
Lemma state_eqb_unknown s t : state_eqb veqb s t = true -> is_unknown s = is_unknown t.
Proof. by destruct s, t. Qed.

Lemma min_priority_spec l m : min_priority l = Some m <-> m ∈ l /\ forall x, x ∈ l -> m <= x.
Proof.
  unfold min_priority.
  assert (forall l a, exists m, foldl (fun m p => match m with Some q => Some (Z.min q p) | None => Some p end)
    (Some a) l = Some m /\ m ∈ a :: l /\ forall x, x ∈ a :: l -> m <= x) as Hgen.
  { clear. induction l as [|b l IH]; intros a; simpl.
    - exists a. split_and!; [done|left|]. intros x ->%list_elem_of_singleton. lia.
    - destruct (IH (Z.min a b)) as (m & Hm & Hin & Hle). exists m. split; [done|].
      pose proof (Hle (Z.min a b) ltac:(left)). split.
      + apply elem_of_cons in Hin as [->|Hin]; [|by do 2 right].
        destruct (Z.min_spec a b) as [[_ ->]|[_ ->]]; [left|right; left].
      + intros x [->|[->|Hx]%elem_of_cons]%elem_of_cons; [lia|lia|apply Hle; by right]. }
  destruct l as [|a l]; simpl.
  - split; [done|]. intros [H _]. inversion H.
  - destruct (Hgen l a) as (m' & -> & Hin & Hle). split; [naive_solver|].
    intros [Hm Hmin]. f_equal. pose proof (Hle _ Hm). pose proof (Hmin _ Hin). lia.
Qed.
(** The chosen facts are the winners, once every fact has a priority. *)
Lemma elem_of_filter_list {A} (p : A -> bool) l x : x ∈ List.filter p l <-> x ∈ l /\ p x = true.
Proof. by rewrite !list_elem_of_In, filter_In. Qed.
Lemma chosen_winner d facts f :
  (forall f, f ∈ facts -> is_Some (priority d f)) -> f ∈ chosen d facts <-> winner d facts f.
Proof.
  intros Hp. unfold chosen. rewrite elem_of_filter_list, andb_true_iff, bool_decide_eq_true.
  assert (forall x, x ∈ omap (priority d) (List.filter (fun f => selectable (fact_state f)) facts) <->
    exists g, g ∈ facts /\ selectable (fact_state g) = true /\ priority d g = Some x) as Hin.
  { intros x. rewrite list_elem_of_omap. setoid_rewrite elem_of_filter_list. naive_solver. }
  split.
  - intros (Hf & Hs & Heq). split_and!; [done|done|]. intros g p q Hg Hgs Hfp Hgq.
    rewrite Hfp in Heq. symmetry in Heq. apply min_priority_spec in Heq as [_ Hmin].
    apply Hmin, Hin. eauto.
  - intros (Hf & Hs & Hmin). split_and!; [done..|]. destruct (Hp f Hf) as [p Hfp]. rewrite Hfp.
    symmetry. apply min_priority_spec. split; [apply Hin; eauto|].
    intros x (g & Hg & Hgs & Hgx)%Hin. eauto.
Qed.
Lemma no_winner d facts :
  (forall f, f ∈ facts -> is_Some (priority d f)) -> chosen d facts = [] -> none_selectable facts.
Proof.
  intros Hp Hnil f Hf. destruct (selectable (fact_state f)) eqn:Hs; [|done]. exfalso.
  set (ps := omap (priority d) (List.filter (fun f => selectable (fact_state f)) facts)).
  assert (exists m, min_priority ps = Some m) as [m Hm].
  { destruct (min_priority ps) as [m|] eqn:E; [by exists m|]. exfalso.
    destruct (Hp f Hf) as [p Hfp].
    assert (p ∈ ps) as Hin by (apply list_elem_of_omap; exists f; by rewrite elem_of_filter_list).
    unfold min_priority in E. destruct ps as [|a ps]; [inversion Hin|]. simpl in E.
    clear -E. revert a E. induction ps as [|b ps IH]; intros a E; simpl in E; [done|by apply IH in E]. }
  pose proof Hm as Hm'. apply min_priority_spec in Hm as [Hin _].
  apply list_elem_of_omap in Hin as (g & [Hg Hgs]%elem_of_filter_list & Hgm).
  assert (g ∈ chosen d facts) as Hc; [|rewrite Hnil in Hc; inversion Hc].
  unfold chosen. apply elem_of_filter_list. split; [done|]. rewrite Hgs. simpl.
  apply bool_decide_eq_true. unfold selected_priority. by rewrite Hgm, <-Hm'.
Qed.

(** The executable verdict implements the policy. *)
Lemma verdict_resolves canon d facts :
  (forall f, f ∈ facts -> is_Some (priority d f)) ->
  (forall f, selectable (fact_state f) = true -> selectable (canon f) = true) ->
  resolves canon d facts (verdict veqb (map canon (chosen d facts)) facts).
Proof.
  intros Hp Hcanon.
  assert (forall s, s ∈ map canon (chosen d facts) <-> exists f, winner d facts f /\ canon f = s) as Hin.
  { intros s. rewrite elem_of_map. setoid_rewrite (chosen_winner d facts _ Hp). naive_solver. }
  unfold verdict. destruct (map canon (chosen d facts)) as [|first rest] eqn:Ev.
  - apply map_eq_nil in Ev. pose proof (no_winner _ _ Hp Ev) as Hnone.
    assert (forall t, (t = Deleted \/ t = Unsupported) ->
      existsb (fun f => state_eqb veqb (fact_state f) t) facts = true <->
      exists f, f ∈ facts /\ fact_state f = t) as Hany.
    { intros t Ht. rewrite existsb_true_iff. apply exist_proper. intros f.
      destruct Ht as [->| ->]; destruct (fact_state f); simpl; naive_solver. }
    destruct (existsb _ facts) eqn:E1.
    { apply Hany in E1; [|by left]. by split. }
    destruct (existsb (fun f => state_eqb veqb (fact_state f) Unsupported) facts) eqn:E2.
    { apply Hany in E2; [|by right]. split_and!; [done| |done]. intros f Hf Hd.
      rewrite (proj2 (Hany Deleted (or_introl eq_refl))) in E1 by eauto. done. }
    split; [done|]. intros f Hf. split; intros Hd.
    + rewrite (proj2 (Hany Deleted (or_introl eq_refl))) in E1 by eauto. done.
    + rewrite (proj2 (Hany Unsupported (or_intror eq_refl))) in E2 by eauto. done.
  - set (values := first :: rest) in *.
    destruct (existsb is_unknown values) eqn:Eu.
    { apply existsb_true_iff in Eu as (s & (f & Hf & <-)%Hin & Hs). split; [eauto|].
      destruct (existsb is_unordered values) eqn:Eo.
      - apply existsb_true_iff in Eo as (s' & (f' & Hf' & <-)%Hin & Hs'). left. eauto.
      - right. split; [done|]. intros f' Hf'. rewrite existsb_false_iff in Eo. apply Eo, Hin. eauto. }
    rewrite existsb_false_iff in Eu.
    assert (exists f, winner d facts f /\ canon f = first) as (f0 & Hf0 & Hc0) by (apply Hin; left).
    destruct (existsb (fun v => negb (state_eqb veqb v first)) values) eqn:Ec.
    { apply existsb_true_iff in Ec as (s & (f & Hf & <-)%Hin & Hs). bool_hyps. split.
      - intros g Hg. apply Eu, Hin. eauto.
      - exists f, f0. by rewrite Hc0. }
    rewrite existsb_false_iff in Ec.
    assert (forall f, winner d facts f -> state_eqb veqb (canon f) first = true) as Hall.
    { intros f Hf. specialize (Ec (canon f) ltac:(apply Hin; eauto)). by bool_hyps. }
    assert (selectable first = true) as Hsel by (rewrite <-Hc0; apply Hcanon, Hf0).
    assert (is_unknown first = false) as Hunk by (apply Eu; left).
    destruct first; try done; (split; [eauto|done]).
Qed.
(** Contradictions between two readings of the policy, and their agreement. *)
Local Ltac clash :=
  match goal with
  | Hno : forall f, winner _ _ f -> none_selectable _ -> False, Hw : winner _ _ ?f,
    Hn : none_selectable _ |- _ => exact (Hno f Hw Hn)
  | Hw : winner _ _ ?f, H1 : forall f, winner _ _ f -> is_unknown (_ f) = false,
    H2 : is_unknown (_ ?f) = true |- _ => rewrite (H1 f Hw) in H2; discriminate H2
  | Hw : winner _ _ ?f, H1 : forall f, winner _ _ f -> is_unordered (_ f) = false,
    H2 : is_unordered (_ ?f) = true |- _ => rewrite (H1 f Hw) in H2; discriminate H2
  | Hunk : forall f s, is_unknown _ = true -> _ -> is_unknown s = true, Hw : winner _ _ ?f,
    H1 : forall f, winner _ _ f -> state_eqb _ (_ f) _ = true, H2 : is_unknown (_ ?f) = true |- _ =>
      discriminate (Hunk f _ H2 (H1 f Hw))
  | Hneq : forall f g s, state_eqb _ _ _ = true -> _ -> _ -> False, Hf : winner _ _ ?f, Hg : winner _ _ ?g,
    H1 : forall f, winner _ _ f -> state_eqb _ (_ f) _ = true, H2 : state_eqb _ (_ ?f) (_ ?g) = false |- _ =>
      exact (Hneq f g _ (H1 f Hf) (H1 g Hg) H2)
  | H1 : forall f, f ∈ _ -> fact_state f <> Deleted, Hf : ?f ∈ _, H2 : fact_state ?f = Deleted |- _ =>
      exact (H1 f Hf H2)
  | H1 : forall f, f ∈ _ -> fact_state f <> Deleted /\ _, Hf : ?f ∈ _, H2 : fact_state ?f = Deleted |- _ =>
      exact (proj1 (H1 f Hf) H2)
  | H1 : forall f, f ∈ _ -> _ /\ fact_state f <> Unsupported, Hf : ?f ∈ _, H2 : fact_state ?f = Unsupported |- _ =>
      exact (proj2 (H1 f Hf) H2)
  end.
Local Ltac settle :=
  match goal with
  | Hw : winner _ _ ?f, H1 : forall f, winner _ _ f -> state_eqb _ (?c f) ?s = true,
    H2 : forall f, winner _ _ f -> state_eqb _ (?c f) ?t = true |- _ =>
      specialize (H1 f Hw); specialize (H2 f Hw); rewrite state_eqb_sym in H1;
      apply (state_eqb_trans _ _ _ H1 H2)
  end.
(** The policy determines the state, up to the equality of values. *)
Lemma resolves_unique canon d facts s t :
  resolves canon d facts s -> resolves canon d facts t -> state_eqb veqb s t = true.
Proof.
  assert (forall f, winner d facts f -> none_selectable facts -> False) as Hno.
  { intros f (Hf & Hs & _) Hn. rewrite Hn in Hs; done. }
  assert (forall f s, is_unknown (canon f) = true -> state_eqb veqb (canon f) s = true -> is_unknown s = true) as Hunk.
  { intros f s' Hu He. apply state_eqb_unknown in He. congruence. }
  assert (forall f g s, state_eqb veqb (canon f) s = true -> state_eqb veqb (canon g) s = true ->
    state_eqb veqb (canon f) (canon g) = false -> False) as Hneq.
  { intros f g s' Hf Hg Hfg. rewrite state_eqb_sym in Hg. by rewrite (state_eqb_trans _ _ _ Hf Hg) in Hfg. }
  intros Hs Ht.
  destruct s, t; simpl in Hs, Ht |- *; try reflexivity;
    repeat match goal with
    | H : _ /\ _ |- _ => destruct H
    | H : exists _, _ |- _ => destruct H
    | H : _ \/ _ |- _ => destruct H
    end; subst; try reflexivity; try (exfalso; clash); settle.
Qed.
End Policy.
