(* ===== verification/InventoryProperties.v ===== *)
(** * Inventory: properties of values, schemas and resolution *)
From S2P Require Import Prelude Ordered Text External InventoryValue InventorySource InventoryField.
From S2P Require Import InventoryResolve InventorySpec InventoryResolveSpec.
From S2P Require Import InventoryProgress.

Section Resolution.
Context `{OF : OrderedFloat} `{TR : TimepointRange} `{UC : UuidCrate} `{UT : !UuidText}
  `{UB : !UuidBits} `{UN : Unicode} `{TS : TimeSeriesCrate}.
Implicit Types (d : FieldDefinition).

(** ** Lemmas *)
#[export] Instance winner_proper {V} d : Proper ((≡ₚ) ==> (=) ==> iff) (winner (V:=V) d).
Proof. intros a b Hab f ? <-. unfold winner. setoid_rewrite Hab. done. Qed.
#[export] Instance none_selectable_proper {V} : Proper ((≡ₚ) ==> iff) (none_selectable (V:=V)).
Proof. intros a b Hab. unfold none_selectable. by setoid_rewrite Hab. Qed.
#[export] Instance resolves_proper {V} (veqb : V -> V -> bool) canon d :
  Proper ((≡ₚ) ==> (=) ==> iff) (resolves veqb canon d).
Proof.
  intros a b Hab s ? <-. destruct s; simpl; setoid_rewrite Hab; done.
Qed.

Lemma admitted_priority {V} d (f : FactOf V) :
  validate_evidence d (fact_evidence f) = Ok () -> is_Some (priority d f).
Proof.
  unfold validate_evidence. intros H. inv_ok. bool_hyps. unfold priority, bm_contains in *.
  by destruct (bm_get (ev_source (fact_evidence f)) (fd_sources d)).
Qed.
(** The canonical state a fact contributes. *)
Definition canonical d (f : SourceFact) : State := get (fact_state f) (canonical_state d f).
Lemma canonical_selectable d f : selectable (fact_state f) = true -> selectable (canonical d f) = true.
Proof.
  unfold canonical, canonical_state. destruct (fact_state f); try done. intros _.
  by destruct (canonical_value d v).
Qed.
Lemma state_eqb_eq (s t : State) : state_eqb eqb s t = true <-> s = t.
Proof.
  destruct s, t; simpl; try naive_solver; rewrite ?bool_decide_eq_true, ?eqb_eq; naive_solver.
Qed.
Lemma resolve_state_resolves d sources s : resolve_state d sources = Ok s ->
  resolves eqb (canonical d) d sources s.
Proof.
  unfold resolve_state. intros H. inv_ok.
  assert (forall f, f ∈ sources -> is_Some (priority d f)) as Hp.
  { intros f Hf. match goal with H : try_for_each _ _ = Ok ?u |- _ => destruct u; rewrite try_for_each_ok in H;
      specialize (H f Hf) end. unfold check_fact in *. inv_ok.
    match goal with H : validate_evidence _ _ = Ok ?u |- _ => destruct u; by apply admitted_priority in H end. }
  match goal with H : res_map _ _ = Ok ?l |- _ => assert (l = map (canonical d) (chosen d sources)) as -> end.
  { match goal with H : res_map _ _ = Ok _ |- _ => apply res_map_ok in H; induction H as [|f s l l' Hf _ IH] end;
      [done|]. simpl. f_equal; [|done]. unfold canonical. by rewrite Hf. }
  apply verdict_resolves; [done|]. apply canonical_selectable.
Qed.
Lemma resolves_determined d sources s t :
  resolves eqb (canonical d) d sources s -> resolves eqb (canonical d) d sources t -> s = t.
Proof.
  intros Hs Ht. apply state_eqb_eq. eapply resolves_unique; [| |done|done].
  - intros v w. destruct (eqb v w) eqn:E, (eqb w v) eqn:E'; try done.
    + apply eqb_true in E as ->. by rewrite eqb_refl in E'.
    + apply eqb_true in E' as ->. by rewrite eqb_refl in E.
  - intros u v w Huv%eqb_true Hvw. by subst.
Qed.
Lemma array_state_resolves d sources s : array_state d sources = Ok s ->
  resolves ArrayValue_eqb fact_state d sources s.
Proof.
  unfold array_state. intros H. inv_ok. apply verdict_resolves; [|done].
  intros f Hf. match goal with H : try_for_each _ _ = Ok ?u |- _ => destruct u; rewrite try_for_each_ok in H;
      specialize (H f Hf) end. unfold array_check_fact in *. inv_ok.
  match goal with H : validate_evidence _ _ = Ok ?u |- _ => destruct u; by apply admitted_priority in H end.
Qed.
Lemma array_resolves_determined d sources s t :
  resolves ArrayValue_eqb fact_state d sources s -> resolves ArrayValue_eqb fact_state d sources t ->
  state_eqb ArrayValue_eqb s t = true.
Proof.
  apply resolves_unique; unfold ArrayValue_eqb.
  - intros v w. by rewrite (Z.eqb_sym (av_count w)), (Z.eqb_sym (av_bytes w)), (bool_decide_ext _ _ (symmetry_iff _ (av_digest v) (av_digest w))).
  - intros u v w. rewrite !andb_true_iff, !Z.eqb_eq, !bool_decide_eq_true. naive_solver congruence.
Qed.

Lemma sorted_run {A K R} `{OrdLaws K} (key : A -> K) (run : list A -> ires R) e l l' : l ≡ₚ l' ->
  (_ ← reject (duplicate_keys key (sort_by key l)) e; run (sort_by key l)) =
  (_ ← reject (duplicate_keys key (sort_by key l')) e; run (sort_by key l')).
Proof.
  intros Hp. unfold duplicate_keys.
  destruct (adjacent _ (sort_by key l)) eqn:E, (adjacent _ (sort_by key l')) eqn:E'; [done| | |].
  - apply sort_by_adjacent in E'. rewrite <-Hp in E'. apply sort_by_adjacent in E'. congruence.
  - apply sort_by_adjacent in E. rewrite Hp in E. apply sort_by_adjacent in E. congruence.
  - apply sort_by_adjacent in E. by rewrite (sort_by_canonical key l l' Hp E).
Qed.
Lemma bind_ext {A B} (m : ires A) (k k' : A -> ires B) : (forall a, k a = k' a) -> m ≫= k = m ≫= k'.
Proof. intros H. destruct m; simpl; auto. Qed.
Lemma existsb_perm {A} (p : A -> bool) l l' : l ≡ₚ l' -> existsb p l = existsb p l'.
Proof.
  intros Hp. apply eq_true_iff_eq. rewrite !existsb_true_iff. by setoid_rewrite Hp.
Qed.

(** ** Properties *)
(** C5: resolving a field is the abstract policy. Among the admitted facts, those selectable at
    the best source priority decide: unknown if any is unknown, conflict if their canonical
    values disagree, otherwise their common state; tombstones count only when nothing is
    selectable. The policy determines exactly one state, and every source is kept. *)
Theorem resolve_follows_policy d sources r :
  resolve d sources = Ok r ->
  rf_field r = fd_key d /\ rf_sources r ≡ₚ sources /\
  forall s, resolves eqb (canonical d) d sources s <-> s = rf_state r.
Proof.
  unfold resolve. intros H. inv_ok. simpl. split_and!; [done|apply sort_by_perm|].
  match goal with H : resolve_state _ _ = Ok _ |- _ => apply resolve_state_resolves in H; rewrite sort_by_perm in H end.
  intros s. split; [|by intros ->]. intros Hs. by eapply resolves_determined.
Qed.

(** The order in which sources are listed never matters: resolving permuted sources, of
    values or of array summaries, for one endpoint or across endpoints, gives the same state,
    the same source order and the same error. *)
Theorem resolution_ignores_order d :
  (forall l l', l ≡ₚ l' -> resolve d l = resolve d l') /\
  (forall l l', l ≡ₚ l' -> resolve_device d l = resolve_device d l') /\
  (forall l l', l ≡ₚ l' -> resolve_array d l = resolve_array d l') /\
  (forall l l', l ≡ₚ l' -> resolve_device_array d l = resolve_device_array d l').
Proof.
  split_and!; intros l l' Hp;
    unfold resolve, resolve_device, resolve_array, resolve_device_array; cbv zeta;
    rewrite ?(zlen_perm _ _ Hp), ?(existsb_perm _ _ _ Hp).
  - apply bind_ext; intros _. by apply (sorted_run source_key (fun sources =>
      state ← resolve_state d sources; Ok (mk_ResolvedField (fd_key d) state sources))).
  - apply bind_ext; intros _. by apply (sorted_run endpoint_key (fun sources =>
      state ← resolve_state d (map ep_fact sources); Ok (mk_ResolvedDeviceField (fd_key d) state sources))).
  - apply bind_ext; intros _. by apply (sorted_run source_key (fun sources =>
      state ← array_state d sources; Ok (mk_ResolvedArray (fd_key d) state sources))).
  - do 2 (apply bind_ext; intros _). by apply (sorted_run endpoint_key (fun sources =>
      state ← array_state d (map ep_fact sources); Ok (mk_ResolvedDeviceArray (fd_key d) state sources))).
Qed.

(** The state of a summary, from the state of a value. *)
Definition state_map {V W} (sum : V -> W) (s : StateOf V) : StateOf W :=
  match s with
  | Unknown r => Unknown r | Known v => Known (sum v) | Null => Null | Missing => Missing
  | Unsupported => Unsupported | Deleted => Deleted | Conflict => Conflict
  end.
(** A summary fact of a value fact: the same evidence, the summary of its canonical state. *)
Definition summarises d (sum : Scalar -> ArrayValue) (f : SourceFact) (g : ArrayFact) : Prop :=
  fact_evidence g = fact_evidence f /\ fact_state g = state_map sum (canonical d f).
(** Summaries tell the canonical values of the sources apart. *)
Definition identifies d (sum : Scalar -> ArrayValue) (sources : list SourceFact) : Prop :=
  forall f g v w, f ∈ sources -> g ∈ sources -> canonical d f = Known v -> canonical d g = Known w ->
    ArrayValue_eqb (sum v) (sum w) = eqb v w.

Section Summaries.
Context (d : FieldDefinition) (sum : Scalar -> ArrayValue) (sources : list SourceFact)
  (Hsum : identifies d sum sources).
Lemma state_map_eqb f g : f ∈ sources -> g ∈ sources ->
  state_eqb ArrayValue_eqb (state_map sum (canonical d f)) (state_map sum (canonical d g)) =
  state_eqb eqb (canonical d f) (canonical d g).
Proof.
  intros Hf Hg. specialize (Hsum f g). destruct (canonical d f), (canonical d g); simpl; try done. by apply Hsum.
Qed.
Lemma canonical_selectable_eq f : selectable (canonical d f) = selectable (fact_state f).
Proof.
  destruct (selectable (fact_state f)) eqn:E; [by apply canonical_selectable|].
  unfold canonical, canonical_state. by destruct (fact_state f).
Qed.
Lemma summarises_facts f g : summarises d sum f g ->
  selectable (fact_state g) = selectable (fact_state f) /\ priority d g = priority d f /\
  is_unknown (fact_state g) = is_unknown (canonical d f) /\
  is_unordered (fact_state g) = is_unordered (canonical d f) /\
  forall t, (t = Deleted \/ t = Unsupported) -> fact_state g = state_map sum t <-> fact_state f = t.
Proof.
  intros [He Hs]. rewrite Hs, <-canonical_selectable_eq. unfold priority. rewrite He.
  split_and!; try by destruct (canonical d f).
  intros t Ht. unfold canonical, canonical_state.
  destruct (fact_state f) as [r|v| | | | |]; simpl; try (destruct (canonical_value d v); simpl);
    destruct Ht as [-> | ->]; simpl; naive_solver.
Qed.
Lemma summaries_left summaries f : Forall2 (summarises d sum) sources summaries ->
  f ∈ sources -> exists g, g ∈ summaries /\ summarises d sum f g.
Proof.
  clear Hsum. induction 1 as [|f' g l l' Hfg _ IH]; intros Hf; [inversion Hf|].
  apply elem_of_cons in Hf as [->|Hf]; [exists g; split; [left|done]|].
  destruct (IH Hf) as (g' & Hg & ?). exists g'. split; [by right|done].
Qed.
Lemma summaries_right summaries g : Forall2 (summarises d sum) sources summaries ->
  g ∈ summaries -> exists f, f ∈ sources /\ summarises d sum f g.
Proof.
  clear Hsum. induction 1 as [|f g' l l' Hfg _ IH]; intros Hg; [inversion Hg|].
  apply elem_of_cons in Hg as [->|Hg]; [exists f; split; [left|done]|].
  destruct (IH Hg) as (f' & Hf & ?). exists f'. split; [by right|done].
Qed.
Lemma summaries_winner summaries f g : Forall2 (summarises d sum) sources summaries ->
  f ∈ sources -> g ∈ summaries -> summarises d sum f g ->
  winner d sources f <-> winner d summaries g.
Proof.
  intros Hrel Hf Hg Hfg. destruct (summarises_facts _ _ Hfg) as (Hs & Hp & _). unfold winner. rewrite Hs, Hp.
  split; intros (_ & Hsel & Hmin); (split_and!; [done..|]).
  - intros g' p q Hg' Hsel' Hfp Hgq. destruct (summaries_right _ _ Hrel Hg') as (f' & Hf' & Hfg').
    destruct (summarises_facts _ _ Hfg') as (Hs' & Hp' & _). rewrite Hs' in Hsel'. rewrite Hp' in Hgq. eauto.
  - intros f' p q Hf' Hsel' Hfp Hgq. destruct (summaries_left _ _ Hrel Hf') as (g' & Hg' & Hfg').
    destruct (summarises_facts _ _ Hfg') as (Hs' & Hp' & _). rewrite <-Hs' in Hsel'. rewrite <-Hp' in Hgq. eauto.
Qed.
Lemma resolves_summaries summaries s : Forall2 (summarises d sum) sources summaries ->
  resolves eqb (canonical d) d sources s ->
  resolves ArrayValue_eqb fact_state d summaries (state_map sum s).
Proof.
  intros Hrel.
  assert (forall g, winner d summaries g -> exists f, winner d sources f /\ summarises d sum f g) as HR.
  { intros g Hg. destruct (summaries_right _ g Hrel (proj1 Hg)) as (f & Hf & Hfg).
    exists f. split; [|done]. by apply (summaries_winner _ f g Hrel Hf (proj1 Hg) Hfg). }
  assert (forall f, winner d sources f -> exists g, winner d summaries g /\ summarises d sum f g) as HL.
  { intros f Hf. destruct (summaries_left _ f Hrel (proj1 Hf)) as (g & Hg & Hfg).
    exists g. split; [|done]. by apply (summaries_winner _ f g Hrel (proj1 Hf) Hg Hfg). }
  assert (none_selectable sources -> none_selectable summaries) as HN.
  { intros Hn g Hg. destruct (summaries_right _ g Hrel Hg) as (f & Hf & Hfg).
    destruct (summarises_facts _ _ Hfg) as (-> & _). by apply Hn. }
  assert (forall t, (t = Deleted \/ t = Unsupported) -> (exists f, f ∈ sources /\ fact_state f = t) <->
    exists g, g ∈ summaries /\ fact_state g = state_map sum t) as HT.
  { intros t Ht. split.
    - intros (f & Hf & Hft). destruct (summaries_left _ f Hrel Hf) as (g & Hg & Hfg). exists g. split; [done|].
      by apply (summarises_facts _ _ Hfg).
    - intros (g & Hg & Hgt). destruct (summaries_right _ g Hrel Hg) as (f & Hf & Hfg). exists f. split; [done|].
      by apply (summarises_facts _ _ Hfg). }
  pose proof (HT Deleted (or_introl eq_refl)) as HD. pose proof (HT Unsupported (or_intror eq_refl)) as HU.
  simpl in HD, HU. destruct s as [r|v| | | | |]; simpl.
  - intros [(f & Hf & Hu) Hor]. destruct (HL f Hf) as (g & Hg & Hfg).
    destruct (summarises_facts _ _ Hfg) as (_ & _ & Hu' & _). split; [exists g; by rewrite Hu'|].
    destruct Hor as [[-> (f' & Hf' & Ho)]|[-> Hall]]; [left|right]; (split; [done|]).
    + destruct (HL f' Hf') as (g' & Hg' & Hfg'). exists g'.
      by destruct (summarises_facts _ _ Hfg') as (_ & _ & _ & -> & _).
    + intros g' Hg'. destruct (HR g' Hg') as (f' & Hf' & Hfg').
      destruct (summarises_facts _ _ Hfg') as (_ & _ & _ & -> & _). auto.
  - intros [(f & Hf) Hall]. destruct (HL f Hf) as (g & Hg & _). split; [by exists g|]. intros g' Hg'.
    destruct (HR g' Hg') as (f' & Hf' & [_ ->]). specialize (Hall f' Hf').
    apply state_eqb_eq in Hall. rewrite Hall. simpl.
    rewrite (Hsum f' f' v v (proj1 Hf') (proj1 Hf') Hall Hall). apply eqb_refl.
  - intros [(f & Hf) Hall]. destruct (HL f Hf) as (g & Hg & _). split; [by exists g|]. intros g' Hg'.
    destruct (HR g' Hg') as (f' & Hf' & [_ ->]). specialize (Hall f' Hf').
    apply state_eqb_eq in Hall. by rewrite Hall.
  - intros [Hn Hall]. split; [auto|]. intros g Hg. split; intros Hgt.
    + destruct (proj2 HD) as (f & Hf & Hft); [eauto|]. exact (proj1 (Hall f Hf) Hft).
    + destruct (proj2 HU) as (f & Hf & Hft); [eauto|]. exact (proj2 (Hall f Hf) Hft).
  - intros (Hn & Hno & Hex). split_and!; [auto| |by apply HU]. intros g Hg Hgt.
    destruct (proj2 HD) as (f & Hf & Hft); [eauto|]. exact (Hno f Hf Hft).
  - intros [Hn Hex]. split; [auto|by apply HD].
  - intros [Hall (f & f' & Hf & Hf' & Hne)]. split.
    + intros g Hg. destruct (HR g Hg) as (f0 & Hf0 & Hfg0).
      destruct (summarises_facts _ _ Hfg0) as (_ & _ & -> & _). auto.
    + destruct (HL f Hf) as (g & Hg & [_ Hgs]), (HL f' Hf') as (g' & Hg' & [_ Hgs']).
      exists g, g'. split_and!; [done..|]. by rewrite Hgs, Hgs', (state_map_eqb _ _ (proj1 Hf) (proj1 Hf')).
Qed.
End Summaries.

(** Resolving array summaries agrees with resolving the values they summarise. When
    summaries tell the canonical values at hand apart, by count, byte length and digest, the
    array state is the summary of the scalar state. *)
Theorem array_summaries_agree d (sum : Scalar -> ArrayValue) sources summaries r ra :
  identifies d sum sources -> Forall2 (summarises d sum) sources summaries ->
  resolve d sources = Ok r -> resolve_array d summaries = Ok ra ->
  state_eqb ArrayValue_eqb (ra_state ra) (state_map sum (rf_state r)) = true.
Proof.
  unfold resolve, resolve_array. intros Hsum Hrel Hr Hra. inv_ok. simpl.
  match goal with H : array_state _ _ = Ok _ |- _ => apply array_state_resolves in H; rewrite sort_by_perm in H end.
  match goal with H : resolve_state _ _ = Ok _ |- _ => apply resolve_state_resolves in H; rewrite sort_by_perm in H;
    eapply resolves_summaries in H; [|done..] end.
  by eapply array_resolves_determined.
Qed.
End Resolution.

Section Values.
Context `{OF : OrderedFloat} `{TR : TimepointRange} `{UC : UuidCrate} `{UT : !UuidText}
  `{UB : !UuidBits} `{UN : Unicode} `{TS : TimeSeriesCrate}.
Implicit Types (d : FieldDefinition) (t : ValueType) (v : Scalar).

(** ** Lemmas *)
Lemma strip_arrays_not_array t many i m : (strip_arrays t many).1 <> TArray i m.
Proof. revert many. induction t; intros many; simpl; try done. Qed.
Lemma catalog_path_walk c key p : Catalog_path c key = Ok p ->
  walk (segments p) (fd_type (fp_root p)) false = Ok (fp_type p, fp_many p).
Proof.
  unfold Catalog_path. intros H. apply bind_ok in H as ([root suffix] & _ & H). cbv zeta in H.
  apply bind_ok in H as (leaf & Hleaf & H). simpl in H. unfold walk.
  destruct (strip_arrays leaf.1 leaf.2) as [t many] eqn:E. injection H as <-. simpl in *.
  by rewrite Hleaf; simpl; rewrite E.
Qed.
Lemma validate_scalar_type d v : validate_scalar d v = Ok () -> validate_value (fd_type d) v = Ok ().
Proof. unfold validate_scalar. intros H. inv_ok. by destruct a0. Qed.
Lemma validate_item_type d v : validate_item d v = Ok () ->
  exists items m, fd_type d = TArray items m /\ validate_value items v = Ok ().
Proof.
  unfold validate_item. intros H. inv_ok. destruct (fd_type d) as [| | | | | | |items m|]; try done. inv_ok.
  destruct a. eauto.
Qed.
(** The identity loop accepts exactly rows with distinct identities. *)
Lemma identity_loop key l seen seen' : res_for (identity_step key) l seen = Ok seen' ->
  NoDup (map (item_identity key) l) /\ forall x, x ∈ l -> is_object x = true /\
    exists i, item_identity key x = Some i /\ i ∉ seen.
Proof.
  revert seen. induction l as [|x l IH]; intros seen H; simpl in H.
  { split; [constructor|]. intros x Hx. inversion Hx. }
  apply bind_ok in H as (s & Hs & H). destruct (IH _ H) as [Hnd Hall].
  destruct x as [| | | |ps| |]; try done. simpl in Hs. inv_ok.
  assert (a ∉ seen) as Hnew by (intros ?%bs_mem_iff; congruence).
  split.
  - simpl. constructor; [|done]. intros (y & Hy & Hin)%elem_of_map.
    destruct (Hall y Hin) as (_ & i & Hi & Hni). rewrite Hi in Hy.
    rewrite E in Hy. injection Hy as ->. apply Hni, elem_of_bs_insert. by left.
  - intros y [->|Hy]%elem_of_cons; [simpl; eauto|].
    destruct (Hall y Hy) as (Ho & i & Hi & Hni). split; [done|]. exists i. split; [done|].
    intros Hin. apply Hni, elem_of_bs_insert. by right.
Qed.
Lemma canonical_keyed d key l w : item_key d = Some key -> canonical_value d (SArray l) = Ok w ->
  NoDup (map (item_identity key) l) /\ w = SArray (sort_by (item_identity key) l).
Proof.
  intros Hk H. unfold canonical_value in H. apply bind_ok in H as (h & Hh & H). cbv zeta in H.
  assert (h = None) as ->.
  { unfold hardware_value in Hh. apply bind_ok in Hh as (name & _ & Hh).
    destruct (bool_decide _); [done|]. destruct (bool_decide _); [done|]. by injection Hh. }
  apply bind_ok in H as ([] & Hv & H). rewrite Hk in H. inv_ok. split; [|done].
  unfold validate_scalar in Hv. rewrite Hk in Hv. apply bind_ok in Hv as (_ & _ & Hv).
  apply bind_ok in Hv as (_ & _ & Hv). apply bind_ok in Hv as (_ & _ & Hv).
  apply bind_ok in Hv as (_ & _ & Hv). apply bind_ok in Hv as (s & Hv & _).
  by apply identity_loop in Hv as [? _].
Qed.

(** ** Properties *)
(** C36: schema versions widen. If a well-formed type extends another, every value of the old
    type is a value of the new one; extension is reflexive and composes along versions. *)
Theorem schema_extension_sound a b c v :
  ValueType_wf a = true -> ValueType_wf b = true -> ValueType_wf c = true ->
  extends a b = true ->
  (validate_value b v = Ok () -> validate_value a v = Ok ()) /\
  (extends b c = true -> extends a c = true) /\ extends a a = true.
Proof.
  intros Ha Hb Hc Hab. split_and!.
  - by apply extends_sound.
  - by apply extends_trans.
  - by apply extends_refl.
Qed.

(** A path the catalog accepts reads any admitted value without failing, and every leaf it
    yields is a value of the path's leaf type, which is never an array; a path that crosses no
    array yields at most one leaf. Stored array items are read the same way. *)
Theorem path_reads_typed_leaves c key p v :
  Catalog_path c key = Ok p ->
  (validate_scalar (fp_root p) v = Ok () -> exists ls, FieldPath_values p v = Ok ls /\
     (forall x, x ∈ ls -> validate_value (fp_type p) x = Ok ()) /\
     (fp_many p = false -> (length ls <= 1)%nat)) /\
  (validate_item (fp_root p) v = Ok () -> exists ls, item_values p v = Ok ls /\
     forall x, x ∈ ls -> validate_value (fp_type p) x = Ok ()) /\
  forall i m, fp_type p <> TArray i m.
Proof.
  intros Hp%catalog_path_walk. split_and!.
  - intros Hv. destruct (walk_reads _ _ _ _ _ Hp (validate_scalar_type _ _ Hv) []) as (ls & Hls & Hx & Hm).
    exists ls. unfold FieldPath_values, leaves. rewrite Hv. simpl. by rewrite Hls.
  - intros Hv. destruct (validate_item_type _ _ Hv) as (items & m & Ht & Hi).
    rewrite Ht, walk_array in Hp. destruct (walk_reads _ _ _ _ _ Hp Hi []) as (ls & Hls & Hx & _).
    exists ls. unfold item_values, leaves. rewrite Hv. simpl. by rewrite Hls.
  - intros i m Ht. unfold walk in Hp. apply bind_ok in Hp as (leaf & _ & Hp).
    apply (strip_arrays_not_array leaf.1 leaf.2 i m). by injection Hp as ->.
Qed.

(** The scalar budget is a whole-value bound. An accepted value has at most 200000 nodes,
    seven levels and 16 MiB of string bytes, and only legal leaves; conversely a value with
    legal leaves whose nodes, levels and text (with member names) fit is accepted. Observing
    the items of an array one by one from [ScalarBudget_array] decides as the whole array. *)
Theorem scalar_budget_bounds v :
  (Scalar_validate v = Ok () ->
     scalar_nodes v <= 200000 /\ scalar_depth v <= 7 /\ scalar_strings v <= max_text /\
     scalar_leaves_ok v) /\
  (scalar_nodes v <= 200000 -> scalar_depth v <= 7 -> scalar_text v <= max_text ->
     scalar_leaves_ok v -> Scalar_validate v = Ok ()) /\
  (forall items, v = SArray items ->
     (visit_all (fun v b => ScalarBudget_observe b v 1) items ScalarBudget_array).2 = Scalar_validate v).
Proof.
  destruct (scalar_visit_accounts v 0) as [H1 H2].
  unfold Scalar_validate, ScalarBudget_observe. split_and!.
  - destruct (scalar_visit v 0 ScalarBudget_default) as [b' r] eqn:E. simpl. intros ->.
    destruct (H1 ScalarBudget_default _ ltac:(done) E) as (_ & _ & Hs & Hn & Hd & Hok). simpl in *.
    unfold max_text in *. split_and!; (lia || done).
  - intros Hn Hd Ht Hok. rewrite H2; simpl; (lia || done).
  - intros items ->. done.
Qed.

(** A keyed list has one canonical form. It is a permutation of the rows in strictly
    increasing order of identity, so any order in which a provider lists the same rows has the
    same canonical value. *)
Theorem canonical_rows d key l w :
  item_key d = Some key -> canonical_value d (SArray l) = Ok w ->
  exists rows, w = SArray rows /\ rows ≡ₚ l /\ sorted (map (item_identity key) rows) /\
    forall l' w', l' ≡ₚ l -> canonical_value d (SArray l') = Ok w' -> w' = w.
Proof.
  intros Hk Hw. destruct (canonical_keyed _ _ _ _ Hk Hw) as [Hnd ->].
  exists (sort_by (item_identity key) l). split_and!; [done|apply sort_by_perm| |].
  - apply sorted_le_strict; [apply sort_by_sorted|]. by apply sort_by_adjacent.
  - intros l' w' Hp Hw'. destruct (canonical_keyed _ _ _ _ Hk Hw') as [Hnd' ->].
    f_equal. by apply sort_by_canonical.
Qed.
End Values.

(** ** Field identities *)
Section Keys.
Lemma split_pieces sep s c : c ∈ s <-> (c = sep /\ sep ∈ s) \/ exists p, p ∈ split sep s /\ c ∈ p.
Proof.
  assert (forall s, exists p ps, split sep s = p :: ps) as Hne.
  { clear. intros s. destruct s as [|x s]; simpl; [eauto|]. destruct (x =? sep); [eauto|].
    destruct (split sep s); eauto. }
  induction s as [|x s IH]; simpl.
  - split; [intros H; inversion H|]. intros [[_ H]|(p & Hp & Hc)]; [inversion H|].
    apply list_elem_of_singleton in Hp as ->. inversion Hc.
  - destruct (Z.eqb_spec x sep) as [->|Hx].
    + rewrite elem_of_cons, IH. setoid_rewrite elem_of_cons. split.
      * intros [->|[[-> ?]|(p & Hp & Hc)]]; [left; eauto|left; eauto|right; eauto].
      * intros [[-> _]|(p & [->|Hp] & Hc)]; [by left|inversion Hc|right; right; eauto].
    + destruct (Hne s) as (p & ps & Es). rewrite Es in *. rewrite elem_of_cons, IH.
      setoid_rewrite elem_of_cons. split.
      * intros [->|[[-> Hs]|(q & [->|Hq] & Hc)]].
        -- right. exists (x :: p). split; [by left|by left].
        -- left. split; [done|by right].
        -- right. exists (x :: p). split; [by left|by right].
        -- right. exists q. split; [by right|done].
      * intros [[-> [->|Hs]]|(q & [->|Hq] & Hc)]; [done|right; left; eauto| |right; right; eauto].
        apply elem_of_cons in Hc as [->|Hc]; [by left|right; right; eauto].
Qed.
(** A key is printable ASCII of at most 128 bytes. *)
Lemma field_key_text s k : valid_str s = true -> FieldKey_parse s = Ok k ->
  str_bytes s = s /\ (forall c, c ∈ s -> 0 < c) /\ str_len s <= 128 /\
  k = mk_FieldKey (s ++ repeat 0 (128 - length s)%nat) (str_len s).
Proof.
  intros Hs H. unfold FieldKey_parse in H. destruct (split 46 s) as [|root parts] eqn:Esplit; [done|].
  inv_ok. bool_hyps.
  match goal with E : existsb _ parts = false |- _ => rewrite existsb_false_iff in E; rename E into Hparts end.
  assert (forall c, c ∈ s -> 0 < c < 128) as Hascii.
  { intros c Hc. pose proof Hc as Hin. apply (split_pieces 46) in Hin as [[-> _]|(p & Hp & Hcp)]; [lia|].
    rewrite Esplit in Hp. apply elem_of_cons in Hp as [->|Hp].
    - assert (forallb (fun r => forallb (fun c => (0 <? c) && (c <? 128)) r) key_roots = true) as Hroots by done.
      rewrite forallb_true_iff in Hroots. specialize (Hroots root ltac:(done)).
      rewrite forallb_true_iff in Hroots. specialize (Hroots c Hcp). bool_hyps. lia.
    - specialize (Hparts p Hp). bool_hyps. unfold key_segment in *. bool_hyps.
      assert (valid_str p = true) as Hvp.
      { unfold valid_str in *. rewrite forallb_true_iff in *. intros x Hx. apply Hs.
        apply (split_pieces 46). right. exists p. rewrite Esplit. split; [by right|done]. }
      match goal with E : forallb is_name_byte _ = true |- _ =>
        rewrite ascii_bytes_chars, forallb_true_iff in E; [specialize (E c Hcp)| |done] end.
      + unfold is_name_byte, is_ascii_lowercase, is_ascii_digit in *.
        match goal with E : _ || _ = true |- _ => rewrite !orb_true_iff, !andb_true_iff, !Z.leb_le, Z.eqb_eq in E end. lia.
      + intros b Hb. unfold is_name_byte, is_ascii_lowercase, is_ascii_digit in Hb.
        rewrite !orb_true_iff, !andb_true_iff, !Z.leb_le, Z.eqb_eq in Hb. lia. }
  assert (str_bytes s = s) as Hbytes.
  { apply str_bytes_ascii. apply forallb_true_iff. intros c Hc. apply andb_true_iff.
    rewrite Z.leb_le, Z.ltb_lt. specialize (Hascii c Hc). lia. }
  rewrite Hbytes. split_and!; [done| |done|done]. intros c Hc. by apply Hascii.
Qed.
(** Zero padding keeps the order of texts without zeros. *)
Lemma cmp_pad n a b : (forall c, c ∈ a -> 0 < c) -> (forall c, c ∈ b -> 0 < c) ->
  (length a <= n)%nat -> (length b <= n)%nat ->
  cmp (a ++ repeat 0 (n - length a)%nat) (b ++ repeat 0 (n - length b)%nat) = cmp a b.
Proof.
  revert a b. induction n as [|n IH]; intros [|x a] [|y b] Ha Hb Hla Hlb; simpl in *; try lia; try done.
  - apply cmp_refl.
  - specialize (Hb y ltac:(left)). rewrite cmp_cons. unfold cmp at 1, Z_ord.
    by rewrite (proj2 (Z.compare_lt_iff 0 y) Hb).
  - specialize (Ha x ltac:(left)). rewrite cmp_cons. unfold cmp at 1, Z_ord.
    by rewrite (proj2 (Z.compare_gt_iff x 0) Ha).
  - rewrite !cmp_cons. rewrite IH; [done|intros; apply Ha; by right|intros; apply Hb; by right|lia|lia].
Qed.

(** Field identities round trip. A parsed key reads back as exactly the text it was parsed
    from, without normalization, and the order of keys, which fixes field order in catalogs,
    collections and observations, is the order of their texts. *)
Theorem field_key_roundtrip s k :
  valid_str s = true -> FieldKey_parse s = Ok k ->
  FieldKey_as_str k = Ok s /\
  forall t k', valid_str t = true -> FieldKey_parse t = Ok k' -> cmp k k' = cmp s t.
Proof.
  intros Hs Hk. destruct (field_key_text s k Hs Hk) as (Hb & Hpos & Hlen & ->).
  assert (str_len s = zlen s) as Hl by (unfold str_len; by rewrite Hb). split.
  - unfold FieldKey_as_str. simpl. rewrite Hl. unfold zlen. rewrite Nat2Z.id, take_app_length.
    rewrite <-Hb at 1. by rewrite from_utf8_str_bytes.
  - intros t k' Ht Hk'. destruct (field_key_text t k' Ht Hk') as (Hb' & Hpos' & Hlen' & ->).
    assert (str_len t = zlen t) as Hl' by (unfold str_len; by rewrite Hb').
    unfold cmp at 1, FieldKey_ord, cmp_on. unfold cmp at 1, prod_ord. cbn [fst snd fk_bytes fk_length].
    rewrite Hl in *. rewrite Hl' in *. unfold zlen in *.
    rewrite cmp_pad by (done || lia). destruct (cmp s t) eqn:E; try done.
    apply cmp_eq in E as ->. simpl. apply cmp_refl.
Qed.
End Keys.

(** ** Mapped list rows

    What [NativeValue_list] decides about each row of a provider list: a row is good exactly
    when it is valid and no other valid row has its identity. *)
Section Rows.
Context `{OF : OrderedFloat} `{TR : TimepointRange} `{UC : UuidCrate} `{UT : !UuidText}
  `{UB : !UuidBits} `{UN : Unicode}.
Implicit Types (f : FieldDefinition) (row : ires Scalar) (q : list Quality) (vs : list (option Scalar)).

(** The value of a row, when it maps and is valid. *)
Definition row_value f row : option Scalar :=
  match (v ← row; _ ← validate_item f v; Ok v) with Ok v => Some v | _ => None end.
Definition identity f (v : Scalar) : option Scalar :=
  match item_key f with Some key => item_identity key v | None => None end.
Definition clash f (v w : Scalar) : Prop := exists x, identity f v = Some x /\ identity f w = Some x.
(** Row [i] is valid and shares its identity with no other valid row. *)
Definition good f vs (i : nat) : Prop :=
  exists v, vs !! i = Some (Some v) /\
    forall j w, vs !! j = Some (Some w) -> j <> i -> ~ clash f v w.

Record rows_inv f (st : list_state) : Prop := {
  ri_length : length st.1.1 = length st.1.2;
  ri_quality : forall qu, qu ∈ st.1.1 -> row_quality qu = true;
  ri_good : forall i, st.1.1 !! i = Some Q_Success <-> good f st.1.2 i;
  ri_sound : forall x i, bm_get x st.2 = Some i -> exists v, st.1.2 !! i = Some (Some v) /\ identity f v = Some x;
  ri_complete : forall j w x, st.1.2 !! j = Some (Some w) -> identity f w = Some x -> is_Some (bm_get x st.2)
}.

Lemma lookup_snoc_iff {A} (l : list A) a i b :
  (l ++ [a]) !! i = Some b <-> l !! i = Some b \/ (i = length l /\ a = b).
Proof.
  destruct (decide (i < length l)%nat) as [Hlt|Hge].
  - rewrite lookup_app_l by done. split; [by left|]. intros [?|[? _]]; [done|lia].
  - rewrite lookup_app_r by lia. rewrite (lookup_ge_None_2 l i) by lia. split.
    + intros H. right. destruct (i - length l)%nat as [|n] eqn:E; [|done]. simpl in H.
      split; [lia|congruence].
    + intros [?|[-> ->]]; [done|]. by rewrite Nat.sub_diag.
Qed.
(** Adding a row that clashes with none keeps every verdict. *)
Lemma good_snoc f vs o i : (forall v, o = Some v -> forall j w, vs !! j = Some (Some w) -> ~ clash f w v) ->
  good f (vs ++ [o]) i <-> good f vs i \/ (i = length vs /\ is_Some o).
Proof.
  intros Hno. unfold good. split.
  - intros (v & [Hv|[-> ->]]%lookup_snoc_iff & Hc); [left|right; eauto]. exists v. split; [done|].
    intros j w Hw. apply Hc. apply lookup_snoc_iff. by left.
  - intros [(v & Hv & Hc)|[-> [v ->]]].
    + exists v. split; [apply lookup_snoc_iff; by left|]. intros j w [Hw|[-> ->]]%lookup_snoc_iff Hj; [eauto|].
      intros Hcl. by apply (Hno w eq_refl i v).
    + exists v. split; [apply lookup_snoc_iff; by right|]. intros j w [Hw|[-> _]]%lookup_snoc_iff Hj; [|done].
      intros (x & Hx & Hx'). apply (Hno v eq_refl j w Hw). by exists x.
Qed.
(** A row that shares the identity of row [k] spoils both, and only both. *)
Lemma good_snoc_clash f vs v k u x i : vs !! k = Some (Some u) -> identity f u = Some x -> identity f v = Some x ->
  good f (vs ++ [Some v]) i <-> good f vs i /\ i <> k.
Proof.
  intros Hk Hu Hv. unfold good. split.
  - intros (w & [Hw|[-> [= ->]]]%lookup_snoc_iff & Hc).
    + assert (i <> k) as Hik.
      { intros ->. rewrite Hk in Hw. injection Hw as ->. apply (Hc (length vs) v); [|by apply lookup_lt_Some in Hk; lia|by exists x].
        apply lookup_snoc_iff. by right. }
      split; [|done]. exists w. split; [done|]. intros j z Hz. apply Hc. apply lookup_snoc_iff. by left.
    + exfalso. apply (Hc k u); [apply lookup_snoc_iff; by left|apply lookup_lt_Some in Hk; lia|by exists x].
  - intros [(w & Hw & Hc) Hik]. exists w. split; [apply lookup_snoc_iff; by left|].
    intros j z [Hz|[-> [= ->]]]%lookup_snoc_iff Hj; [eauto|]. intros (y & Hy & Hy').
    rewrite Hv in Hy'. injection Hy' as ->. apply (Hc k u Hk); [done|]. by exists y.
Qed.
Lemma insert_success q i k : (i < length q)%nat ->
  <[i:=Q_Invalid]> q !! k = Some Q_Success <-> q !! k = Some Q_Success /\ k <> i.
Proof.
  intros Hi. destruct (decide (k = i)) as [->|Hne].
  - rewrite list_lookup_insert_eq by done. split; [done|]. by intros [_ ?].
  - rewrite list_lookup_insert_ne by done. naive_solver.
Qed.
Lemma elem_of_insert_invalid q i x : x ∈ <[i:=Q_Invalid]> q -> x = Q_Invalid \/ x ∈ q.
Proof.
  intros (k & Hk)%list_elem_of_lookup. destruct (decide (k = i /\ (i < length q)%nat)) as [[-> Hi]|Hne].
  - rewrite list_lookup_insert_eq in Hk by done. left. congruence.
  - right. destruct (decide (k = i)) as [->|Hki].
    + rewrite list_insert_ge in Hk by (assert (~ (i < length q)%nat) by naive_solver; lia).
      by apply list_elem_of_lookup_2 in Hk.
    + rewrite list_lookup_insert_ne in Hk by done. by apply list_elem_of_lookup_2 in Hk.
Qed.

Lemma set_quality_ok q i x q' : set_quality q i x = Ok q' -> (i < length q)%nat /\ q' = <[i:=x]> q.
Proof. unfold set_quality. destruct (decide _); naive_solver. Qed.
(** A row that does not become a value leaves an invalid mark. *)
Lemma rows_inv_invalid f q vs ids : rows_inv f (q, vs, ids) -> rows_inv f (q ++ [Q_Invalid], vs ++ [None], ids).
Proof.
  intros [Hlen Hq Hg Hs Hc]. split; cbn [fst snd] in *.
  - rewrite !length_app. simpl. lia.
  - intros x [?| ->%list_elem_of_singleton]%elem_of_app; [auto|done].
  - intros i. rewrite lookup_snoc_iff, good_snoc, Hg by done. split; [intros [?|[_ ?]]; [by left|done]|].
    intros [?|[_ [? Hno]]]; [by left|done].
  - intros x i Hx. destruct (Hs x i Hx) as (v & Hv & ?). exists v. split; [|done]. apply lookup_snoc_iff. by left.
  - intros j w x [Hw|[_ ?]]%lookup_snoc_iff Hx; [eauto|done].
Qed.
(** A valid row without identity, or with a new one. *)
Lemma rows_inv_new f q vs ids v ids' : rows_inv f (q, vs, ids) ->
  (forall x, identity f v = Some x -> bm_get x ids = None) ->
  (forall y, bm_get y ids' = if bool_decide (identity f v = Some y) then Some (length q) else bm_get y ids) ->
  rows_inv f (q ++ [Q_Success], vs ++ [Some v], ids').
Proof.
  intros [Hlen Hq Hg Hs Hc] Hnew Hids. cbn [fst snd] in *.
  assert (forall j w, vs !! j = Some (Some w) -> ~ clash f w v) as Hno.
  { intros j w Hw (x & Hx & Hx'). destruct (Hc j w x Hw Hx) as [? Hi]. by rewrite Hnew in Hi. }
  split; cbn [fst snd].
  - rewrite !length_app. simpl. lia.
  - intros x [?| ->%list_elem_of_singleton]%elem_of_app; [auto|done].
  - intros i. rewrite lookup_snoc_iff, good_snoc, Hg by (intros w [= <-]; apply Hno). rewrite Hlen.
    split; (intros [?|[-> _]]; [by left|right; eauto]).
  - intros x i. rewrite Hids. case_bool_decide as Hx.
    + intros [= <-]. exists v. split; [|done]. apply lookup_snoc_iff. by right.
    + intros Hi. destruct (Hs x i Hi) as (w & Hw & ?). exists w. split; [|done]. apply lookup_snoc_iff. by left.
  - intros j w x [Hw|[_ [= <-]]]%lookup_snoc_iff Hx; rewrite Hids.
    + case_bool_decide; eauto.
    + rewrite bool_decide_eq_true_2 by done. eauto.
Qed.
(** A valid row whose identity was seen at [k]. *)
Lemma rows_inv_clash f q vs ids v k x : rows_inv f (q, vs, ids) -> identity f v = Some x ->
  bm_get x ids = Some k ->
  rows_inv f (<[length q:=Q_Invalid]> (<[k:=Q_Invalid]> (q ++ [Q_Success])), vs ++ [Some v],
    bm_insert x (length q) ids).
Proof.
  intros [Hlen Hq Hg Hs Hc] Hx Hk. cbn [fst snd] in *.
  destruct (Hs x k Hk) as (u & Hu & Hux). pose proof (lookup_lt_Some _ _ _ Hu) as Hkl.
  split; cbn [fst snd].
  - rewrite !length_insert, !length_app. simpl. lia.
  - intros y [->|[->|[?| ->%list_elem_of_singleton]%elem_of_app]%elem_of_insert_invalid]%elem_of_insert_invalid; auto.
  - intros i. rewrite !insert_success by (rewrite ?length_insert, ?length_app; simpl; lia).
    rewrite lookup_snoc_iff, Hg, (good_snoc_clash f vs v k u x i Hu Hux Hx). split; [|].
    + intros [[[?|[-> _]] ?] ?]; [done|done].
    + intros [Hgood Hik]. split; [split; [by left|done]|]. intros ->.
      destruct Hgood as (w & Hw & _). apply lookup_lt_Some in Hw. lia.
  - intros y i. rewrite bm_get_insert. destruct (eqb y x) eqn:E.
    + apply eqb_true in E as ->. intros [= <-]. exists v. split; [|done]. apply lookup_snoc_iff. by right.
    + intros Hi. destruct (Hs y i Hi) as (w & Hw & ?). exists w. split; [|done]. apply lookup_snoc_iff. by left.
  - intros j w y [Hw|[_ [= <-]]]%lookup_snoc_iff Hy; rewrite bm_get_insert; destruct (eqb y x) eqn:E; eauto.
    rewrite Hx in Hy. injection Hy as ->. by rewrite eqb_refl in E.
Qed.
Lemma list_step_inv f st row st' : rows_inv f st -> list_step f st row = Ok st' ->
  rows_inv f st' /\ st'.1.2 = st.1.2 ++ [row_value f row].
Proof.
  intros Hinv H. destruct st as [[q vs] ids]. unfold list_step, row_value in *. cbv zeta in H.
  set (mapped := (v ← row; _ ← validate_item f v; Ok v)) in *.
  destruct mapped as [v|e|]; cbn [mbind res_bind] in H; [| |done].
  - apply bind_ok in H as (marked & Hm & H). injection H as <-. cbn [fst snd]. split; [|done].
    destruct (item_key f) as [key|] eqn:Ek.
    + destruct v as [s|i|n|l|ps|b|t];
        try (injection Hm as <-; cbn [fst snd]; apply (rows_inv_new f q vs ids); [done| |];
             intros y; unfold identity; rewrite Ek; cbn [item_identity]; [done|by rewrite bool_decide_eq_false_2]).
      apply bind_ok in Hm as (x & Hx & Hm). apply ok_or_ok in Hx.
      assert (identity f (SObject ps) = Some x) as Hid by (unfold identity; by rewrite Ek).
      apply bind_ok in Hm as (q' & Hq' & Hm). injection Hm as <-. cbn [fst snd].
      destruct (bm_get x ids) as [k|] eqn:Eg.
      * apply bind_ok in Hq' as (q1 & H1 & H2). apply set_quality_ok in H1 as [_ ->], H2 as [_ ->].
        by apply rows_inv_clash.
      * injection Hq' as <-. apply (rows_inv_new f q vs ids); [done|by intros y; rewrite Hid; intros [= <-]|].
        intros y. rewrite bm_get_insert, Hid. destruct (eqb y x) eqn:E.
        -- apply eqb_true in E as ->. by rewrite bool_decide_eq_true_2.
        -- apply eqb_false in E. rewrite bool_decide_eq_false_2; [done|]. congruence.
    + injection Hm as <-. cbn [fst snd]. apply (rows_inv_new f q vs ids); [done| |];
        intros y; unfold identity; rewrite Ek; [done|by rewrite bool_decide_eq_false_2].
  - injection H as <-. cbn [fst snd]. split; [|done]. by apply rows_inv_invalid.
Qed.
Lemma list_loop_inv f rows st st' : rows_inv f st -> res_for (list_step f) rows st = Ok st' ->
  rows_inv f st' /\ st'.1.2 = st.1.2 ++ map (row_value f) rows.
Proof.
  revert st. induction rows as [|row rows IH]; intros st Hinv H; simpl in H.
  { injection H as <-. by rewrite app_nil_r. }
  apply bind_ok in H as (st1 & Hstep & H). destruct (list_step_inv _ _ _ _ Hinv Hstep) as [Hinv1 Hv1].
  destruct (IH _ Hinv1 H) as [Hinv' Hv']. split; [done|]. rewrite Hv', Hv1. simpl. by rewrite <-app_assoc.
Qed.
Lemma rows_inv_nil f : rows_inv f ([], [], []).
Proof.
  split; simpl; try done.
  - intros qu Hq. inversion Hq.
  - intros i. split; [done|]. intros (v & Hv & _). done.
Qed.
Lemma valid_rows_cons o vs x q : valid_rows (o :: vs) (x :: q) =
  match (if bool_decide (x = Q_Success) then o else None) with
  | Some v => v :: valid_rows vs q | None => valid_rows vs q end.
Proof. reflexivity. Qed.
Lemma successes_cons x q : successes (x :: q) =
  if bool_decide (x = Q_Success) then 1 + successes q else successes q.
Proof. unfold successes. simpl. case_bool_decide; [|done]. rewrite zlen_cons. lia. Qed.
(** The retained rows are the successful ones. *)
Lemma valid_rows_count vs q : length q = length vs ->
  (forall i, q !! i = Some Q_Success -> exists v, vs !! i = Some (Some v)) ->
  zlen (valid_rows vs q) = successes q.
Proof.
  revert q. induction vs as [|o vs IH]; intros [|x q] Hlen Hq; try done.
  assert (zlen (valid_rows vs q) = successes q) as IHq.
  { apply IH; [simpl in Hlen; lia|]. intros i Hi. apply (Hq (S i) Hi). }
  rewrite valid_rows_cons, successes_cons. case_bool_decide as Hx; [|done].
  destruct (Hq O) as [v Hv]; [simpl; by rewrite Hx|]. simpl in Hv. injection Hv as ->.
  rewrite zlen_cons, IHq. lia.
Qed.
Lemma valid_rows_all vs q : length q = length vs -> (forall x, x ∈ q -> x = Q_Success) ->
  (forall i, q !! i = Some Q_Success -> exists v, vs !! i = Some (Some v)) -> vs = map Some (valid_rows vs q).
Proof.
  revert q. induction vs as [|o vs IH]; intros [|x q] Hlen Hall Hq; try done.
  destruct (Hq O) as [v Hv]; [simpl; f_equal; apply Hall; left|]. simpl in Hv. injection Hv as ->.
  rewrite valid_rows_cons, bool_decide_eq_true_2 by (apply Hall; left). simpl. f_equal.
  apply IH; [simpl in Hlen; lia|intros; apply Hall; by right|]. intros i Hi. apply (Hq (S i) Hi).
Qed.

(** A mapped list is judged row by row. Its rows are accepted as one canonical value exactly
    when every row is valid and identities are distinct; otherwise the list carries one mark
    per row, good exactly for the valid rows whose identity no other valid row has, together
    with as many values as good marks, and it is never published as a shorter list. *)
Theorem native_list_rows f rows o :
  NativeValue_list f rows = Ok o ->
  match o with
  | Native_Invalid => exists it m, fd_type f = TArray it m /\ m < zlen rows
  | Native_InvalidItems q values =>
      length q = length rows /\ Q_Invalid ∈ q /\ zlen values = successes q /\
      forall i, q !! i = Some Q_Success <-> good f (map (row_value f) rows) i
  | Native_Value v =>
      exists l w, map (row_value f) rows = map Some l /\ canonical_value f (SArray l) = Ok w /\
        v = Collected_Value w /\ forall i, (i < length rows)%nat -> good f (map (row_value f) rows) i
  | _ => False
  end.
Proof.
  unfold NativeValue_list. intros H. destruct (fd_type f) as [| | | | | | |it m|] eqn:Ht; try done.
  destruct (Z.ltb_spec m (zlen rows)); [injection H as <-; eauto|].
  apply bind_ok in H as ([[q vs] ids] & Hloop & H). apply list_loop_inv in Hloop as [[Hlen Hq Hg _ _] Hvs];
    [|apply rows_inv_nil]. simpl in *. subst vs. rewrite length_map in Hlen.
  assert (forall i, q !! i = Some Q_Success -> exists v, map (row_value f) rows !! i = Some (Some v)) as Hsome.
  { intros i Hi. apply Hg in Hi as (v & Hv & _). eauto. }
  destruct (bool_decide (Q_Invalid ∈ q)) eqn:Einv; bool_hyps.
  - injection H as <-. split_and!; [done|done| |done]. apply valid_rows_count; [by rewrite length_map|done].
  - apply bind_ok in H as (w & Hw & H). injection H as <-.
    assert (forall x, x ∈ q -> x = Q_Success) as Hall.
    { intros x Hx. specialize (Hq x Hx). destruct x; try done. }
    eexists _, w. split_and!; [|exact Hw|done|].
    + apply valid_rows_all; [by rewrite length_map|done|done].
    + intros i Hi. apply Hg. destruct (lookup_lt_is_Some_2 q i) as [x Hx]; [lia|].
      rewrite Hx. f_equal. apply Hall. by apply list_elem_of_lookup_2 in Hx.
Qed.
End Rows.

(** ** Closed applications *)
Import Reference.

Definition os_resolved : ResolvedField :=
  get (mk_ResolvedField (mk_FieldKey [] 0) Missing []) (resolve os_name os_facts).
Lemma resolve_follows_policy_witness :
  resolve os_name os_facts = Ok os_resolved /\
  (forall s, resolves eqb (canonical os_name) os_name os_facts s <-> s = rf_state os_resolved).
Proof.
  assert (resolve os_name os_facts = Ok os_resolved) as H
    by (apply is_ok_get; vm_compute; reflexivity).
  split; [exact H|]. apply (resolve_follows_policy os_name os_facts os_resolved H).
Defined.

Definition interfaces_facts : list SourceFact :=
  [known MdmWindows two_rows; known AgentNative two_rows;
   mk_Fact (Known (SArray [row (lit "eth0") []])) None manual_evidence].
(** Enough of a summary to tell these rows apart: their number. *)
Definition summary (v : Scalar) : ArrayValue :=
  let n := match v with SArray l => zlen l | _ => 0 end in
  mk_ArrayValue (repeat 97 64) n (27 + 40 * n) (repeat 98 64).
Definition interfaces_summaries : list ArrayFact :=
  map (fun f => mk_Fact (state_map summary (canonical interfaces f)) None (fact_evidence f)) interfaces_facts.
Definition interfaces_resolved : ResolvedField :=
  get (mk_ResolvedField (mk_FieldKey [] 0) Missing []) (resolve interfaces interfaces_facts).
Definition array_resolved : ResolvedArray :=
  get (mk_ResolvedArray (mk_FieldKey [] 0) Missing []) (resolve_array interfaces interfaces_summaries).
Lemma identifies_check d sum sources :
  forallb (fun f => forallb (fun g => match canonical d f, canonical d g with
    | Known v, Known w => Bool.eqb (ArrayValue_eqb (sum v) (sum w)) (eqb v w)
    | _, _ => true end) sources) sources = true -> identifies d sum sources.
Proof.
  intros H f g v w Hf Hg Hv Hw. rewrite forallb_true_iff in H. specialize (H f Hf).
  rewrite forallb_true_iff in H. specialize (H g Hg). rewrite Hv, Hw in H. by apply eqb_true_iff.
Qed.
Lemma array_summaries_agree_witness :
  rf_state interfaces_resolved = Conflict /\
  state_eqb ArrayValue_eqb (ra_state array_resolved) (state_map summary (rf_state interfaces_resolved)) = true.
Proof.
  split; [vm_compute; reflexivity|].
  apply (array_summaries_agree interfaces summary interfaces_facts interfaces_summaries).
  - apply identifies_check. vm_compute. reflexivity.
  - unfold interfaces_summaries. apply Forall2_fmap_r. apply Forall_Forall2_diag.
    apply Forall_forall. intros f _. split; reflexivity.
  - apply is_ok_get. vm_compute. reflexivity.
  - apply is_ok_get. vm_compute. reflexivity.
Defined.

Lemma field_key_roundtrip_witness : FieldKey_as_str (fd_key os_name) = Ok (lit "device.os.name").
Proof.
  apply (field_key_roundtrip (lit "device.os.name") (fd_key os_name)); [reflexivity|].
  apply is_ok_get. vm_compute. reflexivity.
Defined.

Definition wide_text : ValueType := TString 512 true.
Definition wide_row : ValueType :=
  TRecord [(lit "addresses", mk_Property (TArray text_type 8) false);
           (lit "id", mk_Property wide_text true); (lit "speed", mk_Property TInteger false)].
Lemma schema_extension_sound_witness :
  validate_value wide_row (row (lit "eth0") []) = Ok () /\ extends wide_row row_type = true.
Proof.
  pose proof (schema_extension_sound wide_row row_type row_type (row (lit "eth0") [])
    ltac:(vm_compute; reflexivity) ltac:(vm_compute; reflexivity) ltac:(vm_compute; reflexivity)
    ltac:(vm_compute; reflexivity)) as (Hv & He & _).
  split; [apply Hv; vm_compute; reflexivity|apply He; vm_compute; reflexivity].
Defined.

Definition addresses_path : FieldPath :=
  get (mk_FieldPath interfaces TInteger false []) (Catalog_path a_catalog addresses_key).
Lemma path_reads_typed_leaves_witness :
  exists ls, FieldPath_values addresses_path two_rows = Ok ls /\
    forall x, x ∈ ls -> validate_value (fp_type addresses_path) x = Ok ().
Proof.
  assert (Catalog_path a_catalog addresses_key = Ok addresses_path) as H
    by (apply is_ok_get; vm_compute; reflexivity).
  destruct (path_reads_typed_leaves a_catalog addresses_key addresses_path two_rows H) as (Hv & _ & _).
  destruct Hv as (ls & Hls & Hx & _); [vm_compute; reflexivity|]. by exists ls.
Defined.

Definition two_rows_canonical : Scalar := get (SBoolean false) (canonical_value interfaces two_rows).
Lemma canonical_rows_witness :
  exists rows, two_rows_canonical = SArray rows /\ sorted (map (item_identity (lit "id")) rows).
Proof.
  destruct (canonical_rows interfaces (lit "id")
    [row (lit "eth1") [lit "10.0.0.1"]; row (lit "eth0") []] two_rows_canonical)
    as (rows & Hw & _ & Hs & _); [reflexivity| |by exists rows].
  apply is_ok_get. vm_compute. reflexivity.
Defined.

(** ** Divergences *)
(** Two validators of a canonical Windows SID disagree: an account identity may have a
    sub-authority of more than 32 bits, which an installation owner may not. *)
Theorem account_sid_is_wider :
  LocalAccountIdentity_validate (Account_Windows (lit "S-1-5-4294967296")) = true /\
  sid (lit "S-1-5-4294967296") = false.
Proof. split; vm_compute; reflexivity. Qed.
(** The byte limit is tested when a string is counted, so the member names of a value without
    strings are charged and never bounded. *)
Theorem member_names_escape_budget :
  exists v, Scalar_validate v = Ok () /\ max_text < scalar_text v.
Proof.
  set (name := repeat 97 (Z.to_nat (max_text + 1))).
  assert (str_len name = max_text + 1) as Hlen.
  { unfold str_len. rewrite str_bytes_ascii.
    - unfold zlen, name. rewrite repeat_length, Z2Nat.id; [done|unfold max_text; lia].
    - apply forallb_true_iff. intros c Hc. by apply list_elem_of_In, repeat_spec in Hc as ->. }
  clearbody name. exists (SObject [(name, SBoolean true)]). split.
  - unfold Scalar_validate, ScalarBudget_observe. lazy -[str_len checked_u64 Z.add]. rewrite Hlen.
    vm_compute. reflexivity.
  - cbn [scalar_text total foldr]. rewrite Hlen. lia.
Qed.

Definition provider_rows : list (ires Scalar) :=
  [Ok (row (lit "eth0") []); Ok (row (lit "eth1") []); Err Invalid_Value; Ok (row (lit "eth0") [lit "10.0.0.1"])].
Definition provider_result : NativeValue := get Native_Missing (NativeValue_list interfaces provider_rows).
Lemma native_list_rows_witness :
  NativeValue_list interfaces provider_rows = Ok provider_result /\
  match provider_result with
  | Native_InvalidItems q values => zlen values = successes q /\ successes q = 1
  | _ => False
  end.
Proof.
  assert (NativeValue_list interfaces provider_rows = Ok provider_result) as H
    by (apply is_ok_get; vm_compute; reflexivity).
  split; [exact H|]. pose proof (native_list_rows interfaces provider_rows provider_result H) as Hr.
  revert Hr. unfold provider_result.
  assert (match get Native_Missing (NativeValue_list interfaces provider_rows) with
    | Native_InvalidItems q _ => successes q =? 1 | _ => false end = true) as Hc by (vm_compute; reflexivity).
  destruct (get Native_Missing (NativeValue_list interfaces provider_rows)); try discriminate Hc.
  intros (_ & _ & Hn & _). split; [exact Hn|]. by apply Z.eqb_eq.
Defined.
