(* ===== verification/InventoryProgressProperties.v ===== *)
(** * Inventory: properties of collection progress

    Every document a history of operations leaves is one restoration accepts; failed
    operations change nothing; a snapshot is made of confirmed outcomes only. *)
From S2P Require Import Prelude Ordered Text External InventoryValue InventorySource InventoryField.
From S2P Require Import InventoryResolve InventoryProgress InventorySpec.

Section Progress.
Context `{OF : OrderedFloat} `{TR : TimepointRange} `{UC : UuidCrate} `{UT : !UuidText}
  `{UB : !UuidBits} `{UN : Unicode} `{CS : !CollectedSerde} `{OB : Observation} `{SH : Sha2}.
Implicit Types (d : CollectionDefinition) (f : FieldAttempt) (p : Document) (k : FieldKey).

(** ** What restoration accepts *)
Definition rows_valid (def : FieldDefinition) f : Prop :=
  items f = [] \/ exists it max, fd_type def = TArray it max /\ zlen (items f) <= max /\
    (forall q, q ∈ items f -> row_quality q = true) /\ items_match f = true.
Definition value_encoded (def : FieldDefinition) f : Prop :=
  forall v, fa_value f = Some v ->
    exists b, collected_encode def v = Ok b /\ digest f = Some (sha_hex b).
Definition terminal_valid f : Prop :=
  forall q, terminal f = Some q -> q ∈ [Q_Missing; Q_Failed; Q_Invalid; Q_Deleted] /\ confirmed f = false /\
    (fa_value f = None \/ q = Q_Invalid /\ Q_Invalid ∈ items f).
Definition row_count f : Prop :=
  forall n, array_length (fa_value f) = Some n ->
    n = if is_terminal f Q_Invalid then successes (items f) else zlen (items f).
Record attempt_valid d (fin : bool) k f : Prop := {
  av_field : exists def, field d k = Ok def /\ rows_valid def f /\ value_encoded def f;
  av_reason : forall r, fa_reason f = Some r -> r ∈ reasons;
  av_rows : row_count f;
  av_terminal : terminal_valid f;
  av_time : forall at_, received_at f = Some at_ -> timepoint_try_from at_ = true;
  av_digest : forall s, digest f = Some s -> str_len s = 64 /\ forallb is_ascii_hexdigit (str_bytes s) = true;
  av_quality : fa_quality f = quality f fin
}.
Definition doc_valid p : Prop :=
  bm_wf (d_fields p) /\ zlen (d_fields p) = zlen (fields (definition p)) /\
  forall k f, (k, f) ∈ d_fields p -> attempt_valid (definition p) (finished p) k f.

Lemma given_some {A} (o : option A) : given o = true <-> is_Some o.
Proof. destruct o; simpl; split; naive_solver. Qed.
Lemma given_none {A} (o : option A) : given o = false <-> o = None.
Proof. by destruct o. Qed.
Lemma restore_field_valid d fin k f : restore_field d fin (k, f) = Ok () <-> attempt_valid d fin k f.
Proof.
  unfold restore_field. split.
  - intros H. inv_ok. bool_hyps. split.
    + exists a. split; [done|]. split.
      * unfold rows_valid. destruct (is_empty (items f)) eqn:Ei; [left; by destruct (items f)|]. right.
        destruct (fd_type a) as [| | | | | | |it max|]; try done. inv_ok. bool_hyps.
        rewrite existsb_false_iff in *. exists it, max. split_and!; [done|done| |done].
        intros q' Hq. match goal with H : forall q, q ∈ _ -> negb _ = false |- _ => specialize (H q' Hq) end. by bool_hyps.
      * intros v Hv. rewrite Hv in *. inv_ok. bool_hyps. eauto.
    + intros r Hr. rewrite Hr in *. by bool_hyps.
    + intros n Hn. rewrite Hn in *. by bool_hyps.
    + intros q Hq. rewrite Hq in *. bool_hyps. split_and!; [done|done|].
      match goal with H : _ && _ = false |- _ => apply andb_false_iff in H as [H|H] end;
        [left; by apply given_none|right]. bool_hyps. split; [|done].
      match goal with H : is_terminal _ _ = true |- _ => apply bool_decide_eq_true in H; congruence end.
    + intros at_ Hat. rewrite Hat in *. by bool_hyps.
    + intros s Hs. rewrite Hs in *. by bool_hyps.
    + done.
  - intros [(def & Hdef & Hrows & Henc) Hreason Hcount Hterm Htime Hdig Hq]. rewrite Hdef. cbn [mbind res_bind].
    assert (match fa_reason f with Some r => negb (bool_decide (r ∈ reasons)) | None => false end = false) as ->.
    { destruct (fa_reason f) as [r|]; [|done]. by rewrite bool_decide_eq_true_2 by auto. }
    cbn [reject mbind res_bind].
    assert (match array_length (fa_value f) with
      | Some n => negb (n =? (if is_terminal f Q_Invalid then successes (items f) else zlen (items f)))
      | None => false end = false) as ->.
    { destruct (array_length (fa_value f)) as [n|] eqn:E; [|done].
      rewrite <-(Hcount n E). by rewrite Z.eqb_refl. }
    cbn [reject mbind res_bind].
    match goal with |- ?m ≫= _ = _ => assert (m = Ok ()) as -> end.
    { destruct Hrows as [->|(it & max & -> & Hle & Hq' & Hm)]; [done|].
      destruct (is_empty (items f)); [done|]. rewrite Hm, (proj2 (Z.ltb_ge _ _)) by done. simpl.
      assert (existsb (fun q => negb (row_quality q)) (items f) = false) as ->; [|done].
      apply existsb_false_iff. intros q Hin. by rewrite Hq'. }
    cbn [reject mbind res_bind].
    match goal with |- ?m ≫= _ = _ => assert (m = Ok ()) as -> end.
    { destruct (fa_value f) as [v|] eqn:Ev; [|done]. destruct (Henc v Ev) as (b & -> & ->). simpl.
      by rewrite bool_decide_eq_true_2. }
    cbn [reject mbind res_bind].
    match goal with |- reject ?b _ ≫= _ = _ => assert (b = false) as -> end.
    { destruct (terminal f) as [q|] eqn:Et; [|done]. destruct (Hterm q Et) as (Hin & -> & Hv).
      rewrite bool_decide_eq_true_2 by done. simpl.
      destruct Hv as [->|[-> Hinv]]; [done|]. unfold is_terminal. rewrite Et, !bool_decide_eq_true_2 by done.
      by rewrite andb_false_r. }
    cbn [reject mbind res_bind]. apply reject_ok. rewrite Hq, bool_decide_eq_true_2 by done.
    destruct (received_at f) as [at_|] eqn:Ea; simpl; rewrite ?(Htime _ eq_refl); simpl;
      (destruct (digest f) as [s|] eqn:Es; [|done]); destruct (Hdig s eq_refl) as [-> ->]; done.
Qed.
Lemma try_from_valid p : bm_wf (d_fields p) -> CollectionProgress_try_from p = Ok p <-> doc_valid p.
Proof.
  intros Hwf. unfold CollectionProgress_try_from, doc_valid. split.
  - intros H. inv_ok. bool_hyps. split_and!; [done|done|]. intros k f Hin.
    match goal with H : try_for_each _ _ = Ok ?u |- _ => destruct u; rewrite try_for_each_ok in H;
      specialize (H _ Hin) end. by apply restore_field_valid.
  - intros (_ & Hlen & Hall). rewrite Hlen, Z.eqb_refl. cbn [negb reject mbind res_bind].
    rewrite (proj2 (try_for_each_ok _ _)); [done|]. intros [k f] Hin. by apply restore_field_valid, Hall.
Qed.

(** ** Updates of one field *)
Lemma bm_insert_keys {V} k (v : V) m : bm_wf m -> k ∈ bm_keys m -> bm_keys (bm_insert k v m) = bm_keys m.
Proof.
  intros Hwf Hk. apply sorted_ext; [by apply bm_insert_wf|done|]. intros x.
  rewrite elem_of_bm_keys_insert. naive_solver.
Qed.
Lemma elem_of_bm_insert {V} k k' (v v' : V) m : bm_wf m -> (k', v') ∈ bm_insert k v m ->
  (k' = k /\ v' = v) \/ (k' <> k /\ (k', v') ∈ m).
Proof.
  intros Hwf Hin. apply (bm_elem_get _ _ _ (bm_insert_wf _ _ _ Hwf)) in Hin. rewrite bm_get_insert in Hin.
  destruct (eqb k' k) eqn:E.
  - apply eqb_true in E. left. naive_solver.
  - apply eqb_false in E. right. split; [done|]. by apply bm_get_elem.
Qed.
Lemma put_valid p k f : doc_valid p -> k ∈ bm_keys (d_fields p) ->
  attempt_valid (definition p) (finished p) k f -> doc_valid (put p k f).
Proof.
  intros (Hwf & Hlen & Hall) Hk Hf. unfold doc_valid, put, set_fields. simpl. split_and!.
  - by apply bm_insert_wf.
  - rewrite <-Hlen. unfold zlen. f_equal. rewrite <-!(length_map fst).
    change (length (bm_keys (bm_insert k f (d_fields p))) = length (bm_keys (d_fields p))).
    by rewrite bm_insert_keys.
  - intros k' f' [[-> ->]|[_ Hin]]%elem_of_bm_insert; [done| |done]. by apply Hall.
Qed.
Lemma update_valid p k r : doc_valid p ->
  (forall f', r = Ok f' -> exists f, bm_get k (d_fields p) = Some f /\
     (attempt_valid (definition p) (finished p) k f -> attempt_valid (definition p) (finished p) k f')) ->
  doc_valid (update p k r).1.
Proof.
  intros Hp Hr. destruct r as [f'|e|]; simpl; [|done..].
  destruct (Hr f' eq_refl) as (f & Hget & Hf). apply put_valid; [done| |].
  - apply bm_get_keys. eauto.
  - apply Hf. destruct Hp as (_ & _ & Hall). by apply Hall, bm_get_elem.
Qed.
Lemma sha_hex_shape b : str_len (sha_hex b) = 64 /\ forallb is_ascii_hexdigit (str_bytes (sha_hex b)) = true.
Proof.
  destruct (hex_shape (sha256 b) (sha256_bytes b)) as [Hl Hh]. unfold sha_hex.
  assert (str_bytes (hex (sha256 b)) = hex (sha256 b)) as Hs.
  { apply str_bytes_ascii. apply forallb_true_iff. intros c Hc. rewrite forallb_true_iff in Hh.
    specialize (Hh c Hc). unfold is_ascii_hexdigit, is_ascii_digit in Hh.
    rewrite !orb_true_iff, !andb_true_iff, !Z.leb_le in Hh. apply andb_true_iff. rewrite Z.leb_le, Z.ltb_lt. lia. }
  unfold str_len. rewrite Hs. split; [|done]. unfold zlen. rewrite Hl, sha256_length. done.
Qed.

Lemma observe_status_valid p k code at_ : doc_valid p -> doc_valid (observe_status p k code at_).1.
Proof.
  intros Hp. apply update_valid; [done|]. intros f' H. inv_ok. bool_hyps.
  match goal with E : bm_get k _ = Some ?f |- _ => exists f; split; [done|]; intros Hv end.
  destruct Hv as [Hfield Hreason Hcount Hterm Htime Hdig Hq].
  match goal with E : given (terminal _) = false |- _ => apply given_none in E end.
  split; simpl.
  - done.
  - done.
  - done.
  - intros q Hq'. simpl in Hq'. congruence.
  - intros t [= <-]. done.
  - done.
  - match goal with E : finished p = false |- _ => by rewrite E end.
Qed.
Lemma set_reason_valid p k reason : doc_valid p -> doc_valid (set_reason p k reason).1.
Proof.
  intros Hp. apply update_valid; [done|]. intros f' H. inv_ok. bool_hyps.
  match goal with E : bm_get k _ = Some ?f |- _ => exists f; split; [done|]; intros Hv end.
  destruct Hv as [Hfield Hreason Hcount Hterm Htime Hdig Hq]. split; simpl; try done.
  intros r [= <-]. done.
Qed.
Lemma observe_invalid_valid p k at_ : doc_valid p -> doc_valid (observe_invalid p k at_).1.
Proof.
  intros Hp. apply update_valid; [done|]. intros f' H. inv_ok. bool_hyps.
  match goal with E : bm_get k _ = Some ?f |- _ => exists f; split; [done|]; intros Hv end.
  destruct Hv as [(def & Hd & Hrows & Henc) Hreason Hcount Hterm Htime Hdig Hq].
  match goal with E : given (terminal _) = false |- _ => apply given_none in E as Ht end.
  match goal with E : given (fa_value _) = false |- _ => apply given_none in E as Hv end.
  match goal with E : finished p = false |- _ => rewrite E in * end. split; simpl; try done.
  - exists def. split; [done|]. split; [|done].
    destruct Hrows as [Hnil|(it & max & _ & _ & _ & Hm)]; [by left|].
    exfalso. unfold items_match, is_terminal in Hm. rewrite Hv, Ht in Hm. done.
  - intros n Hn. simpl in Hn. by rewrite Hv in Hn.
  - intros q [= <-]. simpl. split_and!; [set_solver|done|by left].
  - intros t [= <-]. done.
Qed.

Lemma encode_ok def v b : collected_encode def v = Ok b ->
  collected_to_vec v = Some b /\ CollectedValue_validate def v = Ok ().
Proof. unfold collected_encode. intros H. inv_ok. by destruct a. Qed.
Lemma encode_array def l b : collected_encode def (Collected_Value (SArray l)) = Ok b ->
  exists it m, fd_type def = TArray it m /\ zlen l <= m.
Proof.
  intros [_ Hv]%encode_ok. simpl in Hv. unfold validate_scalar in Hv.
  apply bind_ok in Hv as (_ & _ & Hv). apply bind_ok in Hv as ([] & Hv & _).
  destruct (fd_type def) as [| | | | | | |it m|];
    try (cbn [validate_value] in Hv; by destruct (Scalar_validate _) as [[]| |]).
  apply validate_array_iff in Hv as (_ & vs & [= <-] & Hl & _). eauto.
Qed.
Lemma successes_repeat n : successes (repeat Q_Success n) = Z.of_nat n.
Proof. unfold successes, zlen. induction n as [|n IH]; simpl; lia. Qed.
Lemma observe_value_valid p k v at_ : doc_valid p -> doc_valid (observe_value p k v at_).1.
Proof.
  intros Hp. apply update_valid; [done|]. intros f' H. inv_ok. bool_hyps.
  match goal with E : bm_get k _ = Some ?f |- _ => exists f; split; [done|]; intros Hv end.
  match goal with E : given (terminal _) = false |- _ => apply given_none in E as Ht end.
  match goal with E : finished p = false |- _ => rewrite E in * end.
  match goal with E : field _ _ = Ok ?def, E' : collected_to_vec v = Some ?b |- _ =>
    rename E into Hdef; rename def into dd; rename E' into Hbytes; rename b into bb end.
  match goal with E : match collected_encode _ _ with _ => _ end = Ok ?kk |- _ => rename E into Hkept; rename kk into kept end.
  assert (forall w, kept = Some w -> exists b, collected_encode dd w = Ok b /\ b = bb) as Hw.
  { intros w ->. destruct (collected_encode dd v) as [b| |] eqn:Eenc; try done. injection Hkept as <-.
    exists b. split; [done|]. apply encode_ok in Eenc as [Hb _]. congruence. }
  destruct Hv as [Hfield Hreason Hcount Hterm Htime Hdig Hq]. split; simpl; try done.
  - exists dd. split; [done|]. split.
    + unfold rows_valid. simpl. destruct kept as [[| [| | |l| | |] | | |]|]; simpl; try (by left).
      right. destruct (Hw _ eq_refl) as (b & Henc & _). destruct (encode_array _ _ _ Henc) as (it & m & Hty & Hl).
      exists it, m. unfold zlen. rewrite repeat_length. split_and!; [done|done| |].
      * intros q Hq'. by apply list_elem_of_In, repeat_spec in Hq' as ->.
      * unfold items_match. simpl. unfold zlen. rewrite repeat_length, Z.eqb_refl.
        assert (forallb (fun q => bool_decide (q = Q_Success)) (repeat Q_Success (length l)) = true) as ->; [|done].
        apply forallb_true_iff. intros q Hq'. by apply list_elem_of_In, repeat_spec in Hq' as ->.
    + intros w Hkw. simpl in Hkw. destruct (Hw w Hkw) as (b & Henc & ->). exists bb. done.
  - intros n Hn. simpl in Hn. unfold is_terminal. simpl. rewrite Ht. simpl.
    destruct kept as [[| [| | |l| | |] | | |]|]; simpl in *; try done. injection Hn as <-. unfold zlen. by rewrite repeat_length.
  - intros q Hq'. simpl in Hq'. congruence.
  - intros t [= <-]. done.
  - intros s [= <-]. apply sha_hex_shape.
Qed.
Lemma observe_invalid_result p k at_ p' : observe_invalid p k at_ = (p', Ok ()) ->
  exists f, bm_get k (d_fields p) = Some f /\ finished p = false /\ fa_value f = None /\ terminal f = None /\
    timepoint_try_from at_ = true /\
    p' = put p k (requalify (mk_FieldAttempt (status f) (fa_reason f) (fa_quality f) (Some at_) (fa_value f)
          (digest f) false (Some Q_Invalid) (items f)) false).
Proof.
  unfold observe_invalid, update. destruct (_ ≫= _) as [f'|e|] eqn:E; try done. intros [= <-].
  inv_ok. bool_hyps. eexists. split_and!; try done; by apply given_none.
Qed.
Lemma put_put p k f f' : put (put p k f) k f' = mk_Document (definition p)
  (bm_insert k f' (bm_insert k f (d_fields p))) (finished p) (complete_coverage p).
Proof. done. Qed.
Lemma observe_invalid_items_valid p k rows values at_ :
  doc_valid p -> doc_valid (observe_invalid_items p k rows values at_).1.
Proof.
  intros Hp. unfold observe_invalid_items. cbv zeta.
  match goal with |- doc_valid (match ?c with _ => _ end).1 => destruct c as [b|e|] eqn:Hc; [|done..] end.
  apply bind_ok in Hc as (def & Hdef & Hc). destruct (fd_type def) as [| | | | | | |it max|] eqn:Hty; try done.
  pose proof (observe_invalid_valid p k at_ Hp) as Hp'.
  destruct (observe_invalid p k at_) as [p' [[]|e|]] eqn:Hinv; [|done..]. simpl in Hp'.
  apply observe_invalid_result in Hinv as (f & Hget & Hfin & Hv & Ht & Hat & ->).
  apply update_valid; [done|]. intros f' H. inv_ok.
  match goal with E : bm_get k _ = Some ?g |- _ => exists g; split; [done|]; intros Hg; 
    unfold put, set_fields in E; simpl in E; rewrite bm_get_insert, eqb_refl in E; injection E as <- end.
  inv_ok. bool_hyps. destruct Hg as [_ Hreason _ _ Htime _ Hq]. simpl in *.
  split; simpl; try done.
  - exists def. split; [done|]. split.
    + right. exists it, max. simpl. split_and!; [done|done| |].
      * intros q Hin. match goal with H : existsb _ rows = false |- _ => rewrite existsb_false_iff in H; specialize (H q Hin) end. by bool_hyps.
      * unfold items_match, is_terminal. simpl. rewrite !bool_decide_eq_true_2 by done.
        match goal with H : zlen values = _ |- _ => rewrite H end. rewrite (Z.eqb_refl (successes rows)), andb_true_r. by rewrite orb_true_r.
    + intros v [= <-]. eauto.
  - intros n Hn. simpl in *. injection Hn as <-. done.
  - intros q [= <-]. simpl. split_and!; [set_solver|done|by right].
  - intros s [= <-]. apply sha_hex_shape.
Qed.
Lemma finish_valid p : doc_valid p -> doc_valid (finish p).
Proof.
  intros (Hwf & Hlen & Hall). unfold finish. split_and!; simpl.
  - unfold bm_wf, bm_keys in *. rewrite map_map. done.
  - unfold zlen in *. by rewrite length_map.
  - intros k f Hin. apply elem_of_map in Hin as ([k' g] & [= -> <-] & Hin).
    destruct (Hall _ _ Hin) as [Hfield Hreason Hcount Hterm Htime Hdig Hq]. by split.
Qed.

(** ** A fresh collection *)
Definition keys_of d : list FieldKey := map fd_key (fields d).
Definition fresh d : list (FieldKey * FieldAttempt) :=
  foldl (fun m g => bm_insert (fd_key g) FieldAttempt_default m) [] (fields d).
Lemma fresh_keys d : bm_keys (fresh d) = bs_of_list (keys_of d).
Proof.
  unfold fresh, bs_of_list, keys_of. change (@nil FieldKey) with (bm_keys (@nil (FieldKey * FieldAttempt))).
  generalize (@nil (FieldKey * FieldAttempt)) as m. induction (fields d) as [|g l IH]; intros m; simpl; [done|].
  by rewrite IH, bm_keys_insert.
Qed.
Lemma fresh_default d k f : (k, f) ∈ fresh d -> f = FieldAttempt_default /\ k ∈ keys_of d.
Proof.
  unfold fresh, keys_of.
  assert (forall l m, (forall k f, (k, f) ∈ m -> f = FieldAttempt_default /\ k ∈ keys_of d) ->
    (forall g, g ∈ l -> fd_key g ∈ keys_of d) -> bm_wf m ->
    forall k f, (k, f) ∈ foldl (fun m g => bm_insert (fd_key g) FieldAttempt_default m) m l ->
      f = FieldAttempt_default /\ k ∈ keys_of d) as Hgen.
  { clear. induction l as [|g l IH]; intros m Hm Hl Hwf k f; simpl; [apply Hm|].
    apply IH; [|by intros g' Hg'; apply Hl; right|by apply bm_insert_wf].
    intros k' f' [[-> ->]|[_ Hin]]%elem_of_bm_insert; [|by apply Hm|done].
    split; [done|]. apply Hl. left. }
  apply Hgen; [intros ? ? Hin; inversion Hin| |constructor].
  intros g Hg. apply elem_of_map. eauto.
Qed.
Lemma field_known d k : k ∈ keys_of d -> exists def, field d k = Ok def.
Proof.
  unfold keys_of, fields, field, find_field. rewrite map_map. intros (g & <- & Hg)%elem_of_map.
  destruct (List.find _ _) as [h|] eqn:E; [simpl; eauto|]. exfalso.
  apply list_elem_of_In in Hg. apply (find_none _ _ E) in Hg. by rewrite bool_decide_eq_true_2 in Hg.
Qed.
Lemma default_valid d k : k ∈ keys_of d -> attempt_valid d false k FieldAttempt_default.
Proof.
  intros [def Hdef]%field_known. split; simpl; try done. exists def. split; [done|]. split; [by left|done].
Qed.
Lemma new_valid d : NoDup (keys_of d) -> doc_valid (CollectionProgress_new d).
Proof.
  intros Hnd. split_and!; simpl.
  - unfold bm_wf. fold (fresh d). rewrite fresh_keys. apply bs_of_list_sorted.
  - fold (fresh d). unfold zlen. rewrite <-(length_map fst (fresh d)).
    change (map fst (fresh d)) with (bm_keys (fresh d)). rewrite fresh_keys.
    rewrite (proj2 (length_bs_of_list_nodup _) Hnd). unfold keys_of. by rewrite length_map.
  - intros k f [-> Hk]%fresh_default. by apply default_valid.
Qed.
Lemma catalog_insert_nodup `{TS : TimeSeriesCrate} l m m' : res_for catalog_insert l m = Ok m' ->
  NoDup (map fd_key l) /\ forall g, g ∈ l -> fd_key g ∉ bm_keys m.
Proof.
  revert m. induction l as [|g l IH]; intros m H; simpl in H.
  { split; [constructor|]. intros g Hg. inversion Hg. }
  apply bind_ok in H as (m1 & Hg & H). destruct (IH _ H) as [Hnd Hall].
  unfold catalog_insert in Hg. inv_ok. unfold bm_contains in *.
  assert (fd_key g ∉ bm_keys m) as Hnew.
  { apply bm_get_none. by destruct (bm_get (fd_key g) m). }
  split.
  - simpl. constructor; [|done]. intros (g' & Hk & Hin)%elem_of_map.
    apply (Hall g' Hin). rewrite Hk, elem_of_bm_keys_insert. by left.
  - intros g' [->|Hg']%elem_of_cons; [done|]. intros Hin. apply (Hall g' Hg'), elem_of_bm_keys_insert. by right.
Qed.
Lemma definition_keys `{TS : TimeSeriesCrate} dataset version source fs d :
  CollectionDefinition_new dataset version source fs = Ok d -> NoDup (keys_of d).
Proof.
  unfold CollectionDefinition_new. intros H. inv_ok. unfold keys_of, fields. simpl.
  match goal with E : Catalog_new _ = Ok _ |- _ => unfold Catalog_new in E; inv_ok end.
  match goal with E : res_for catalog_insert _ _ = Ok _ |- _ => apply catalog_insert_nodup in E as [Hnd _] end.
  rewrite map_map in Hnd |- *. by rewrite sort_by_perm.
Qed.

(** ** Native capture *)
Definition fresh_at p k : Prop := bm_get k (d_fields p) = Some FieldAttempt_default.
(** The quality of a retained value. *)
Definition value_quality (v : CollectedValue) : Quality :=
  match v with
  | Collected_Unknown _ => Q_Unknown
  | Collected_Deleted => Q_Deleted
  | Collected_Unsupported => Q_Unsupported
  | Collected_Value _ | Collected_Null => Q_Success
  end.
(** How an attempt records a native outcome: a value is confirmed only when it is valid. *)
Definition records d k (o : NativeValue) f : Prop :=
  match o with
  | Native_Value v =>
      fa_quality f = Q_Invalid \/
      fa_quality f = value_quality v /\ fa_value f = Some v /\ confirmed f = true /\
      exists def, field d k = Ok def /\ CollectedValue_validate def v = Ok ()
  | Native_InvalidItems _ _ | Native_Invalid => fa_quality f = Q_Invalid
  | Native_Missing => fa_quality f = Q_Missing
  | Native_Failed => fa_quality f = Q_Failed
  end.
Lemma observe_value_result p k v at_ p' : observe_value p k v at_ = (p', Ok ()) ->
  exists f f' def, bm_get k (d_fields p) = Some f /\ terminal f = None /\ finished p = false /\
    field (definition p) k = Ok def /\ p' = put p k f' /\ status f' = status f /\
    terminal f' = None /\ given (digest f') = true /\
    (fa_value f' = None \/ fa_value f' = Some v /\ CollectedValue_validate def v = Ok ()).
Proof.
  unfold observe_value, update. destruct (_ ≫= _) as [f'|e|] eqn:E; try done. intros [= <-].
  inv_ok. bool_hyps. do 3 eexists. split_and!; try done; simpl; try (by apply given_none).
  match goal with E : match collected_encode ?def v with _ => _ end = Ok ?kk |- _ =>
    destruct (collected_encode def v) eqn:Henc; try done; injection E as <- end; [right|by left].
  split; [done|]. by apply encode_ok in Henc as [_ ?].
Qed.
Lemma confirm_valid p k f : doc_valid p -> finished p = false -> bm_get k (d_fields p) = Some f ->
  terminal f = None ->
  doc_valid (put p k (requalify (mk_FieldAttempt (status f) (fa_reason f) (fa_quality f) (received_at f)
    (fa_value f) (digest f) true (terminal f) (items f)) false)).
Proof.
  intros Hp Hfin Hget Ht. apply put_valid; [done|apply bm_get_keys; eauto|].
  destruct Hp as (_ & _ & Hall). destruct (Hall k f (bm_get_elem _ _ _ Hget)).
  split; simpl; try done; [|by rewrite Hfin]. intros q Hq. simpl in Hq. congruence.
Qed.
Lemma seal_valid p k t at_ : doc_valid p -> finished p = false -> fresh_at p k ->
  timepoint_try_from at_ = true -> t ∈ [Q_Missing; Q_Failed; Q_Invalid; Q_Deleted] ->
  doc_valid (put p k (requalify (mk_FieldAttempt None None Q_Pending (Some at_) None None false (Some t) []) false)).
Proof.
  intros Hp Hfin Hget Hat Ht. apply put_valid; [done|apply bm_get_keys; eauto|].
  destruct Hp as (_ & _ & Hall). destruct (Hall k _ (bm_get_elem _ _ _ Hget)).
  split; simpl; try done.
  - destruct av_field0 as (def & Hdef & _). exists def. split; [done|]. split; [by left|done].
  - intros q [= <-]. simpl. split_and!; [done|done|by left].
  - by intros t' [= <-].
Qed.
Lemma put_get p k k' f : bm_get k' (d_fields (put p k f)) = if eqb k' k then Some f else bm_get k' (d_fields p).
Proof. unfold put, set_fields. simpl. apply bm_get_insert. Qed.
(** What one step of the capture leaves. *)
Definition captured p p' k (o : NativeValue) : Prop :=
  doc_valid p' /\ finished p' = false /\ definition p' = definition p /\
  (exists f, bm_get k (d_fields p') = Some f /\ records (definition p) k o f /\ quality f true = fa_quality f) /\
  forall k', k' <> k -> bm_get k' (d_fields p') = bm_get k' (d_fields p).
Definition same_but p p' k : Prop :=
  definition p' = definition p /\ finished p' = finished p /\
  forall k', k' <> k -> bm_get k' (d_fields p') = bm_get k' (d_fields p).
Lemma put_same_but p k f : same_but p (put p k f) k.
Proof. split_and!; [done|done|]. intros k' Hk. rewrite put_get. by rewrite (proj2 (eqb_neq _ _) Hk). Qed.
Lemma captured_put p p' k f o : same_but p p' k -> doc_valid (put p' k f) -> finished p = false ->
  records (definition p) k o f -> quality f true = fa_quality f -> captured p (put p' k f) k o.
Proof.
  intros (Hd & Hf & Ho) Hv Hfin Hr Hq. split_and!; [done|simpl; congruence|done| |].
  - exists f. by rewrite put_get, eqb_refl.
  - intros k' Hk. rewrite put_get, (proj2 (eqb_neq _ _) Hk). auto.
Qed.
Lemma observe_invalid_captured p k at_ p' o : doc_valid p -> fresh_at p k ->
  match o with Native_Value _ | Native_Invalid | Native_InvalidItems _ _ => True | _ => False end ->
  observe_invalid p k at_ = (p', Ok ()) -> captured p p' k o.
Proof.
  intros Hp Hfresh Ho H. pose proof (observe_invalid_valid p k at_ Hp) as Hp'. rewrite H in Hp'. simpl in Hp'.
  apply observe_invalid_result in H as (f & Hget & Hfin & _ & _ & _ & ->).
  apply captured_put; [done|done|done| |done]. destruct o; try done. by left.
Qed.
Lemma update_err p k r p' e : update p k r = (p', Err e) -> p' = p.
Proof. destruct r; simpl; naive_solver. Qed.
Lemma observe_value_captured p k v at_ p' : doc_valid p -> fresh_at p k ->
  observe_value p k v at_ = (p', Ok ()) -> exists f, bm_get k (d_fields p') = Some f /\
  captured p (put p' k (requalify (mk_FieldAttempt (status f) (fa_reason f) (fa_quality f)
    (received_at f) (fa_value f) (digest f) true (terminal f) (items f)) false)) k (Native_Value v).
Proof.
  intros Hp Hfresh H. pose proof (observe_value_valid p k v at_ Hp) as Hp'. rewrite H in Hp'. simpl in Hp'.
  apply observe_value_result in H as (f & f' & def & Hget & _ & Hfin & Hdef & -> & Hst & Ht & Hdig & Hval).
  exists f'. rewrite put_get, eqb_refl. split; [done|].
  unfold fresh_at in Hfresh. rewrite Hget in Hfresh. injection Hfresh as ->. simpl in Hst.
  apply captured_put; [apply put_same_but| |done| |].
  - apply confirm_valid; [done|done|by rewrite put_get, eqb_refl|done].
  - unfold records, requalify, quality. simpl. rewrite Ht, Hst.
    destruct Hval as [-> |[-> Hv]]; simpl; [left; by rewrite Hdig|right].
    split_and!; [by destruct v; simpl; rewrite ?andb_false_r|done|done|eauto].
  - unfold requalify, quality. simpl. rewrite Ht, Hst.
    destruct Hval as [-> |[-> Hv]]; simpl; [by rewrite Hdig|]. by destruct v; simpl; rewrite ?andb_false_r.
Qed.
Lemma observe_invalid_items_captured p k rows values at_ p' : doc_valid p -> fresh_at p k ->
  observe_invalid_items p k rows values at_ = (p', Ok ()) ->
  captured p p' k (Native_InvalidItems rows values).
Proof.
  intros Hp Hfresh H. pose proof (observe_invalid_items_valid p k rows values at_ Hp) as Hp'.
  rewrite H in Hp'. simpl in Hp'. unfold observe_invalid_items in H. cbv zeta in H.
  match type of H with match ?c with _ => _ end = _ => destruct c as [b|e|]; try done end.
  destruct (observe_invalid p k at_) as [p1 [[]|e|]] eqn:Hinv; try done.
  apply observe_invalid_result in Hinv as (f & Hget & Hfin & _ & _ & _ & ->).
  unfold update in H. rewrite put_get, eqb_refl in H. simpl in H. injection H as <-.
  by apply captured_put; [apply put_same_but|..].
Qed.
Lemma try_op_ok (r : Document * ires ()) p : try_op r = Ok p -> r = (p, Ok ()).
Proof. destruct r as [q [[]| |]]; simpl; naive_solver. Qed.
Lemma native_step_captured p values k at_ p' values' : doc_valid p -> finished p = false -> fresh_at p k ->
  native_step at_ (p, values) k = Ok (p', values') ->
  captured p p' k (default Native_Missing (bm_get k values)) /\ values' = bm_remove k values.
Proof.
  intros Hp Hfin Hfresh H. unfold native_step in H. apply bind_ok in H as (p1 & Hout & H).
  injection H as -> <-. split; [|done].
  assert (forall t, t ∈ [Q_Missing; Q_Failed; Q_Invalid; Q_Deleted] ->
    (_ ← reject (negb (timepoint_try_from at_)) Invalid_Time;
     f ← ok_or (bm_get k (d_fields p)) Invalid_UnknownField;
     Ok (put p k (requalify (mk_FieldAttempt (status f) (fa_reason f) (fa_quality f) (Some at_)
       (fa_value f) (digest f) (confirmed f) (Some t) (items f)) false))) = Ok p' ->
    exists f, p' = put p k f /\ doc_valid p' /\ fa_quality f = t /\ quality f true = t) as Hseal.
  { intros t Ht H. inv_ok. bool_hyps.
    match goal with E : bm_get k _ = Some ?g |- _ => unfold fresh_at in Hfresh; rewrite E in Hfresh; injection Hfresh as -> end.
    eexists. split_and!; [done|by apply seal_valid|done|done]. }
  destruct (default Native_Missing (bm_get k values)) as [v|rows vs| | |] eqn:Eo.
  - destruct (observe_value p k v at_) as [p1 [[]|e|]] eqn:Hov; [| |done].
    + destruct (observe_value_captured _ _ _ _ _ Hp Hfresh Hov) as (f & Hget & Hcap).
      rewrite Hget in Hout. simpl in Hout. by injection Hout as <-.
    + apply update_err in Hov as ->. destruct e; try done.
      apply try_op_ok in Hout. by eapply observe_invalid_captured.
  - apply try_op_ok in Hout. by eapply observe_invalid_items_captured.
  - destruct (Hseal Q_Invalid ltac:(set_solver) Hout) as (f & -> & Hv & Hq & Hq').
    apply captured_put; [by split_and!|done..|congruence].
  - destruct (Hseal Q_Missing ltac:(set_solver) Hout) as (f & -> & Hv & Hq & Hq').
    apply captured_put; [by split_and!|done..|congruence].
  - destruct (Hseal Q_Failed ltac:(set_solver) Hout) as (f & -> & Hv & Hq & Hq').
    apply captured_put; [by split_and!|done..|congruence].
Qed.
Lemma bm_get_remove {V} k k' (m : list (FieldKey * V)) :
  k <> k' -> bm_get k (bm_remove k' m) = bm_get k m.
Proof.
  intros Hk. induction m as [|[k1 v] m IH]; simpl; [done|].
  destruct (eqb k' k1) eqn:E; simpl; rewrite IH; [|done].
  apply eqb_true in E as ->. by rewrite (proj2 (eqb_neq _ _) Hk).
Qed.
(** What the capture leaves for one field, by the outcome the adapter reported. *)
Definition recorded d (values : list (FieldKey * NativeValue)) p k : Prop :=
  exists f, bm_get k (d_fields p) = Some f /\
    records d k (default Native_Missing (bm_get k values)) f /\ quality f true = fa_quality f.
Lemma native_loop at_ l p values st : NoDup l -> doc_valid p -> finished p = false ->
  (forall k, k ∈ l -> fresh_at p k) -> res_for (native_step at_) l (p, values) = Ok st ->
  doc_valid st.1 /\ finished st.1 = false /\ definition st.1 = definition p /\
  (forall k, k ∉ l -> bm_get k (d_fields st.1) = bm_get k (d_fields p)) /\
  forall k, k ∈ l -> recorded (definition p) values st.1 k.
Proof.
  revert p values. induction l as [|k l IH]; intros p values Hnd Hp Hfin Hfresh H; simpl in H.
  { injection H as <-. split_and!; [done..|]. intros k Hk. inversion Hk. }
  apply NoDup_cons in Hnd as [Hnin Hnd]. apply bind_ok in H as ([p1 values1] & Hstep & H).
  apply native_step_captured in Hstep as [(Hp1 & Hfin1 & Hd1 & (f & Hget & Hrec & Hq) & Hother) ->];
    [|done|done|apply Hfresh; left].
  assert (forall k', k' ∈ l -> fresh_at p1 k') as Hfresh1.
  { intros k' Hk'. unfold fresh_at. rewrite Hother by congruence. apply Hfresh. by right. }
  destruct (IH _ _ Hnd Hp1 Hfin1 Hfresh1 H) as (Hp2 & Hfin2 & Hd2 & Hother2 & Hrec2).
  split_and!; [done|done|congruence| |].
  - intros k' Hk'. rewrite Hother2, Hother; [done|set_solver|set_solver].
  - intros k' [->|Hk']%elem_of_cons.
    + exists f. by rewrite (Hother2 _ Hnin).
    + destruct (Hrec2 k' Hk') as (f' & Hget' & Hr & Hq'). exists f'. rewrite Hd1 in Hr.
      rewrite bm_get_remove in Hr by congruence. done.
Qed.
Lemma finish_get p k : bm_get k (d_fields (finish p)) = (fun f => requalify f true) <$> bm_get k (d_fields p).
Proof.
  unfold finish. simpl. induction (d_fields p) as [|[k' f] m IH]; simpl; [done|]. by destruct (eqb k k').
Qed.
Lemma requalify_same f : quality f true = fa_quality f -> requalify f true = f.
Proof. intros H. unfold requalify, with_quality. rewrite H. by destruct f. Qed.
Lemma native_result d values at_ p : NoDup (keys_of d) -> native d values at_ = Ok p ->
  doc_valid p /\ finished p = true /\ definition p = d /\
  forall k, k ∈ keys_of d -> recorded d values p k.
Proof.
  intros Hnd H. unfold native in H. cbv zeta in H. apply bind_ok in H as (u & _ & H).
  apply bind_ok in H as (st & Hloop & H). injection H as <-.
  assert (forall k, k ∈ bm_keys (d_fields (CollectionProgress_new d)) <-> k ∈ keys_of d) as Hkeys.
  { intros k. simpl. fold (fresh d). rewrite fresh_keys. apply elem_of_bs_of_list. }
  apply native_loop in Hloop as (Hp & Hfin & Hd & _ & Hrec); simpl in *.
  - split_and!; [by apply finish_valid|done|done|]. intros k Hk.
    destruct (Hrec k (proj2 (Hkeys k) Hk)) as (f & Hget & Hr & Hq). exists f.
    rewrite finish_get, Hget. simpl. by rewrite (requalify_same f Hq).
  - apply sorted_nodup. fold (fresh d). rewrite fresh_keys. apply bs_of_list_sorted.
  - by apply new_valid.
  - done.
  - intros k Hk%Hkeys. unfold fresh_at. simpl. fold (fresh d).
    assert (is_Some (bm_get k (fresh d))) as [f Hf].
    { apply bm_get_keys. rewrite fresh_keys. by apply elem_of_bs_of_list. }
    rewrite Hf. f_equal. by apply bm_get_elem, fresh_default in Hf as [-> _].
Qed.

(** ** Histories *)
Inductive operation : Type :=
| Op_status (k : FieldKey) (code at_ : Z)
| Op_value (k : FieldKey) (v : CollectedValue) (at_ : Z)
| Op_reason (k : FieldKey) (reason : rstr)
| Op_invalid (k : FieldKey) (at_ : Z)
| Op_invalid_items (k : FieldKey) (rows : list Quality) (values : list Scalar) (at_ : Z)
| Op_finish.
Definition apply_op p (op : operation) : Document * ires () :=
  match op with
  | Op_status k code at_ => observe_status p k code at_
  | Op_value k v at_ => observe_value p k v at_
  | Op_reason k reason => set_reason p k reason
  | Op_invalid k at_ => observe_invalid p k at_
  | Op_invalid_items k rows values at_ => observe_invalid_items p k rows values at_
  | Op_finish => (finish p, Ok ())
  end.
(** Documents a collection of [d] can reach: a fresh one, a native capture, and whatever any
    operation leaves, failed or not. *)
Inductive reachable d : Document -> Prop :=
| reach_new : reachable d (CollectionProgress_new d)
| reach_native values at_ p : native d values at_ = Ok p -> reachable d p
| reach_native_partial values at_ p : native_partial d values at_ = Ok p -> reachable d p
| reach_op p op : reachable d p -> reachable d (apply_op p op).1.

Lemma apply_op_valid p op : doc_valid p -> doc_valid (apply_op p op).1.
Proof.
  intros Hp. destruct op; simpl.
  - by apply observe_status_valid.
  - by apply observe_value_valid.
  - by apply set_reason_valid.
  - by apply observe_invalid_valid.
  - by apply observe_invalid_items_valid.
  - by apply finish_valid.
Qed.
Lemma reachable_valid d p : NoDup (keys_of d) -> reachable d p -> doc_valid p.
Proof.
  intros Hnd. induction 1 as [|values at_ p H|values at_ p H|p op _ IH].
  - by apply new_valid.
  - by apply native_result in H as (? & _).
  - unfold native_partial in H. apply bind_ok in H as (q & Hq & H). injection H as <-.
    by apply native_result in Hq as (? & _).
  - by apply apply_op_valid.
Qed.

(** ** Properties *)
(** C9: whatever happens to a collection, its persisted document is restored exactly: every
    document reached from a fresh collection or a native capture by any operations, failed
    ones included, satisfies all the checks of [CollectionProgress_try_from]. *)
Theorem progress_restores `{TS : TimeSeriesCrate} dataset version source fs d p :
  CollectionDefinition_new dataset version source fs = Ok d -> reachable d p ->
  CollectionProgress_try_from p = Ok p.
Proof.
  intros Hd%definition_keys Hp. pose proof (reachable_valid _ _ Hd Hp) as Hv.
  apply try_from_valid; [apply Hv|done].
Qed.

Lemma update_fail p k r : (update p k r).2 <> Ok () -> (update p k r).1 = p.
Proof. by destruct r. Qed.
(** Operations are atomic, and finishing is final. An operation that does not succeed
    leaves the document as it was, although [observe_invalid_items] seals the field before it
    completes it; after [finish] no status, value or failure is accepted any more. *)
Theorem operations_atomic p op :
  ((apply_op p op).2 <> Ok () -> (apply_op p op).1 = p) /\
  (finished p = true -> (apply_op p op).2 = Ok () ->
     op = Op_finish \/ exists k reason, op = Op_reason k reason).
Proof.
  split.
  - destruct op as [k code at_|k v at_|k reason|k at_|k rows values at_|]; simpl; try apply update_fail; [|done].
    unfold observe_invalid_items. cbv zeta.
    match goal with |- context [match ?c with _ => _ end] => destruct c as [b|e|]; try done end.
    destruct (observe_invalid p k at_) as [p1 [[]|e|]] eqn:Hinv.
    + apply observe_invalid_result in Hinv as (f & _ & _ & _ & _ & _ & ->).
      unfold update. rewrite put_get, eqb_refl. done.
    + apply update_err in Hinv as ->. done.
    + intros _. unfold observe_invalid, update in Hinv. destruct (_ ≫= _); by injection Hinv.
  - intros Hfin. destruct op as [k code at_|k v at_|k reason|k at_|k rows values at_|]; simpl; intros H;
      try (by right; eauto); try (by left); exfalso.
    + unfold observe_status, update in H. destruct (_ ≫= _) eqn:E; try done. inv_ok. bool_hyps. congruence.
    + destruct (observe_value p k v at_) as [p1 r] eqn:E. simpl in H. subst r.
      apply observe_value_result in E as (? & ? & ? & _ & _ & ? & _). congruence.
    + destruct (observe_invalid p k at_) as [p1 r] eqn:E. simpl in H. subst r.
      apply observe_invalid_result in E as (? & _ & ? & _). congruence.
    + unfold observe_invalid_items in H. cbv zeta in H.
      match type of H with context [match ?c with _ => _ end] => destruct c as [b|e|]; try done end.
      destruct (observe_invalid p k at_) as [p1 [[]|e|]] eqn:E; try done.
      apply observe_invalid_result in E as (? & _ & ? & _). congruence.
Qed.

(** A native capture records every expected field by its reported outcome, and absent
    fields as missing. A value is confirmed only when it is valid for the frozen definition;
    otherwise, or over the size budget, the field is invalid. The result is finished. *)
Theorem native_records_outcomes `{TS : TimeSeriesCrate} dataset version source fs d values at_ p :
  CollectionDefinition_new dataset version source fs = Ok d -> native d values at_ = Ok p ->
  finished p = true /\ definition p = d /\
  forall k, k ∈ keys_of d -> exists f, bm_get k (d_fields p) = Some f /\
    records d k (default Native_Missing (bm_get k values)) f.
Proof.
  intros Hd%definition_keys H. apply native_result in H as (_ & Hfin & Hdef & Hrec); [|done].
  split_and!; [done..|]. intros k Hk. destruct (Hrec k Hk) as (f & ? & ? & _). eauto.
Qed.

(** ** Emission *)
(** What makes an outcome definitive evidence. *)
Definition established f : Prop :=
  match fa_quality f with
  | Q_Success => confirmed f = true /\ exists v, fa_value f = Some v /\ value_quality v = Q_Success
  | Q_Unsupported => status f = Some 501 \/ confirmed f = true /\ fa_value f = Some Collected_Unsupported
  | Q_Deleted => terminal f = Some Q_Deleted \/ confirmed f = true /\ fa_value f = Some Collected_Deleted
  | _ => False
  end.
Lemma established_iff d fin k f : attempt_valid d fin k f -> established f <-> covered (fa_quality f) = true.
Proof.
  intros [_ _ _ Hterm _ _ Hq]. unfold established. split; [by destruct (fa_quality f)|].
  rewrite Hq. unfold quality. destruct (terminal f) as [t|] eqn:Et.
  - destruct (Hterm t Et) as (Hin & _). repeat (apply elem_of_cons in Hin as [->|Hin]; try done); [by left|inversion Hin].
  - destruct (confirmed f) eqn:Ec; destruct (fa_value f) as [[r|v| | |]|] eqn:Ev; simpl; try done;
      destruct (bool_decide (status f = Some 501)) eqn:E5; simpl; bool_hyps; try (by left); try (by right);
      destruct (match status f with Some c => _ | None => _ end); simpl; try done;
      try (destruct (given (digest f)); simpl; try done); try (by destruct fin); intros _; (split; [done|eauto]).
Qed.
(** The change a field contributes. *)
Definition reports p (e : FieldKey * FieldAttempt) (c : Change) : Prop :=
  exists def v b, field (definition p) e.1 = Ok def /\ emitted (all_covered p) e.2 = Some v /\
    collected_encode def v = Ok b /\ FieldKey_as_str e.1 = Ok (change_key c) /\ change_value c = Some b.
Definition reported_fields p : list (FieldKey * FieldAttempt) :=
  List.filter (fun e => given (emitted (all_covered p) e.2)) (d_fields p).
Lemma body_loop p l acc changes : res_for (body_step p) l acc = Ok changes ->
  exists cs, changes = acc ++ cs /\
    Forall2 (reports p) (List.filter (fun e => given (emitted (all_covered p) e.2)) l) cs.
Proof.
  revert acc. induction l as [|[k f] l IH]; intros acc H; simpl in H.
  { injection H as <-. exists []. rewrite app_nil_r. split; [done|constructor]. }
  apply bind_ok in H as (acc' & Hstep & H). destruct (IH _ H) as (cs & -> & Hcs).
  unfold body_step in Hstep. simpl in Hstep. simpl. destruct (emitted (all_covered p) f) as [v|] eqn:Ev; simpl.
  - inv_ok. eexists (_ :: cs). rewrite <-app_assoc. split; [done|]. constructor; [|done].
    do 3 eexists. simpl. rewrite change_upsert_key, change_upsert_value. split_and!; done.
  - injection Hstep as <-. eauto.
Qed.
(** C27: a snapshot is complete evidence. A body is a snapshot exactly when the collection has
    complete coverage and every expected field is definitively established, by a confirmed
    value, an explicit unsupported answer or an explicit deletion. Unless the collection
    failed, the changes are exactly the emitted outcomes in field order, each encoded from a
    value that is valid for its definition. *)
Theorem snapshot_is_confirmed p b :
  CollectionProgress_try_from p = Ok p -> body p = Ok (Some b) ->
  (is_snapshot b = true <->
     complete_coverage p = true /\ forall k f, (k, f) ∈ d_fields p -> established f) /\
  (is_failed b = false -> Forall2 (reports p) (reported_fields p) (body_changes b)).
Proof.
  intros Hp Hb.
  assert (forall k f, (k, f) ∈ d_fields p -> attempt_valid (definition p) (finished p) k f) as Hall.
  { unfold CollectionProgress_try_from in Hp. apply bind_ok in Hp as (_ & _ & Hp).
    apply bind_ok in Hp as ([] & Hp & _). rewrite try_for_each_ok in Hp.
    intros k f Hin. apply restore_field_valid. by apply Hp. }
  assert (all_covered p = true <->
    complete_coverage p = true /\ forall k f, (k, f) ∈ d_fields p -> established f) as Hcov.
  { unfold all_covered. rewrite andb_true_iff, forallb_true_iff. apply and_iff_compat_l. split.
    - intros H k f Hin. apply (established_iff _ _ _ _ (Hall k f Hin)), H, elem_of_map. by exists (k, f).
    - intros H f ([k f'] & <- & Hin)%elem_of_map. apply (established_iff _ _ _ _ (Hall k f' Hin)), (H k f' Hin). }
  rewrite <-Hcov. unfold body in Hb. destruct (forallb _ (bm_values (d_fields p))); [done|].
  apply bind_ok in Hb as (changes & Hloop & Hb). apply body_loop in Hloop as (cs & -> & Hcs).
  simpl in Hb. destruct (all_covered p) eqn:Ec.
  { injection Hb as <-. rewrite is_snapshot_snapshot, body_changes_snapshot.
    split; [done|]. intros _. unfold reported_fields. by rewrite Ec. }
  destruct (_ && _).
  - apply bind_ok in Hb as (_ & _ & Hb). injection Hb as <-.
    by rewrite is_snapshot_failed, is_failed_failed.
  - injection Hb as <-. rewrite is_snapshot_partial, body_changes_partial.
    split; [done|]. intros _. unfold reported_fields. by rewrite Ec.
Qed.

(** ** Retries *)
Lemma update_get p k k' r : bm_get k (d_fields (update p k' r).1) =
  match r with Ok f' => if eqb k k' then Some f' else bm_get k (d_fields p) | _ => bm_get k (d_fields p) end.
Proof. destruct r as [f'| |]; simpl; [|done..]. apply bm_get_insert. Qed.
(** A confirmed value that no failing status contradicts has the quality of the value. *)
Lemma quality_confirmed f fin v : terminal f = None -> confirmed f = true -> fa_value f = Some v ->
  match status f with Some c => is_2xx c | None => true end = true -> quality f fin = value_quality v.
Proof.
  intros Ht Hc Hv Hs. unfold quality. rewrite Ht, Hc, Hv. simpl.
  assert (bool_decide (status f = Some 501) = false) as ->.
  { apply bool_decide_eq_false. intros E. by rewrite E in Hs. }
  assert (match status f with Some c => negb ((200 <=? c) && (c <? 300)) | None => false end = false) as ->.
  { destruct (status f) as [c|]; [|done]. unfold is_2xx in Hs. by rewrite Hs. }
  rewrite andb_false_r. by destruct v.
Qed.
Definition keeps p k f v (q : Document) : Prop :=
  exists f', bm_get k (d_fields q) = Some f' /\ fa_value f' = Some v /\ confirmed f' = true /\
    fa_quality f' = fa_quality f.
Lemma update_keeps p k k' f v r : bm_get k (d_fields p) = Some f -> fa_value f = Some v -> confirmed f = true ->
  (forall f', k' = k -> r = Ok f' -> fa_value f' = Some v /\ confirmed f' = true /\ fa_quality f' = fa_quality f) ->
  keeps p k f v (update p k' r).1.
Proof.
  intros Hget Hv Hc Hr. unfold keeps. rewrite update_get. destruct r as [f'| |]; [|by exists f..].
  destruct (eqb k k') eqn:E; [|by exists f]. apply eqb_true in E as <-. exists f'. split; [done|]. by apply Hr.
Qed.
(** A confirmed value is final. No operation changes the value, its confirmation or its
    quality: a conflicting status, value or failure is refused, and finishing keeps it. A
    retry is recognised by its digest, so the assumption is that it is then the same value. *)
Theorem confirmed_values_are_final d p op k f v :
  NoDup (keys_of d) -> reachable d p -> bm_get k (d_fields p) = Some f ->
  confirmed f = true -> fa_value f = Some v ->
  (forall w at_ b, op = Op_value k w at_ -> collected_to_vec w = Some b -> digest f = Some (sha_hex b) -> w = v) ->
  exists f', bm_get k (d_fields (apply_op p op).1) = Some f' /\ fa_value f' = Some v /\
    confirmed f' = true /\ fa_quality f' = fa_quality f.
Proof.
  intros Hnd Hp Hget Hc Hv Hsame.
  destruct (reachable_valid _ _ Hnd Hp) as (_ & _ & Hall).
  destruct (Hall k f (bm_get_elem _ _ _ Hget)) as [(def & Hdef & _ & Henc) _ _ Hterm _ _ Hq].
  destruct (Henc v Hv) as (b & Hb & Hdig).
  assert (terminal f = None) as Ht.
  { destruct (terminal f) as [q|] eqn:E; [|done]. destruct (Hterm q E) as (_ & Hf & _). congruence. }
  destruct op as [k' code at_|k' w at_|k' reason|k' at_|k' rows values at_|]; simpl.
  - apply update_keeps; [done..|]. intros f' -> H. inv_ok. bool_hyps.
    match goal with E : bm_get k _ = Some ?g |- _ => rewrite Hget in E; injection E as <- end.
    assert (is_2xx code = true) as Hcode.
    { match goal with H : negb _ && _ = false |- _ => rewrite Hdig, andb_true_r in H; by bool_hyps end. }
    simpl. rewrite Hcode. split_and!; [done|done|]. rewrite Hq.
    rewrite (quality_confirmed f (finished p) v); [|done..|].
    + by apply quality_confirmed.
    + destruct (status f) as [old|]; [|done]. bool_hyps. congruence.
  - apply update_keeps; [done..|]. intros f' -> H. inv_ok. bool_hyps.
    match goal with E : bm_get k _ = Some ?g |- _ => rewrite Hget in E; injection E as <- end.
    match goal with E : collected_to_vec w = Some ?bb |- _ => rename E into Hw; rename bb into bw end.
    rewrite Hdig in *. bool_hyps.
    assert (w = v) as -> by (eapply Hsame; [done|done|congruence]).
    match goal with E : field _ _ = Ok ?dd |- _ => rewrite Hdef in E; injection E as <- end.
    rewrite Hb in *. match goal with E : Ok (Some v) = Ok _ |- _ => injection E as <- end.
    simpl. split_and!; [done|done|]. rewrite Hq. match goal with E : finished p = false |- _ => rewrite E end.
    unfold quality. simpl. by rewrite Ht, Hv, Hdig.
  - apply update_keeps; [done..|]. intros f' -> H. inv_ok.
    match goal with E : bm_get k _ = Some ?g |- _ => rewrite Hget in E; injection E as <- end. done.
  - apply update_keeps; [done..|]. intros f' -> H. inv_ok. bool_hyps.
    match goal with E : bm_get k _ = Some ?g |- _ => rewrite Hget in E; injection E as <- end.
    by rewrite Hv in *.
  - destruct (observe_invalid p k' at_) as [p1 r] eqn:Hinv.
    unfold observe_invalid_items. cbv zeta.
    match goal with |- context [match ?c with _ => _ end] => destruct c as [b'|e|]; try (by exists f) end.
    rewrite Hinv. destruct r as [[]|e|].
    + apply observe_invalid_result in Hinv as (g & Hg & _ & Hgv & _ & _ & ->).
      assert (k <> k') as Hk by (intros <-; congruence).
      exists f. rewrite update_get, !put_get, (proj2 (eqb_neq _ _) Hk). by destruct (_ ≫= _).
    + apply update_err in Hinv as ->. by exists f.
    + unfold observe_invalid, update in Hinv. destruct (_ ≫= _); try done. injection Hinv as <-. by exists f.
  - pose proof (finish_get p k) as Hfin. rewrite Hget in Hfin.
    exists (requalify f true). split_and!; [exact Hfin|done..|]. simpl. rewrite Hq.
    unfold quality. rewrite Ht, Hc, Hv. simpl. destruct v; simpl; try done;
      destruct (_ || _); try done; destruct (match status f with Some c => _ | None => _ end); try done;
      by rewrite andb_false_r.
Qed.
End Progress.

(** ** Closed applications *)
Import Reference.
Module Example.
Fixpoint spell (v : Scalar) : bytes :=
  match v with
  | SString s => 1 :: s ++ [0]
  | SArray l => 2 :: concat (map spell l) ++ [0]
  | SObject m => 3 :: concat (map (fun e => match e with (k, v) => k ++ spell v end) m) ++ [0]
  | SInteger i | STime i => [4; i]
  | SNumber n => [5; n]
  | SBoolean b => [if b then 6 else 7]
  end.
#[export] Instance collected_serde : CollectedSerde := {|
  collected_to_vec v := Some (match v with
    | Collected_Unknown _ => [10] | Collected_Value v => 11 :: spell v | Collected_Null => [12]
    | Collected_Deleted => [13] | Collected_Unsupported => [14] end);
  collected_from_slice _ := None
|}.
Inductive body_kind := Snapshot | Partial | Failed.
#[export] Program Instance observation : Observation := {|
  obs_id s := negb (is_empty s);
  Change := rstr * bytes; change_upsert k b := (k, b); change_key := fst; change_value c := Some c.2;
  Body := body_kind * list (rstr * bytes);
  body_snapshot c := (Snapshot, c); body_partial c := (Partial, c); body_failed _ := (Failed, []);
  body_changes := snd;
  is_snapshot b := match b.1 with Snapshot => true | _ => false end;
  is_failed b := match b.1 with Failed => true | _ => false end;
  Coverage := unit; coverage_new _ _ _ _ := ()
|}.
Solve All Obligations with done.

Definition basic_fields : list CollectionField :=
  [mk_CollectionField os_name Device; mk_CollectionField interfaces Device].
Definition no_definition : CollectionDefinition := mk_CollectionDefinition [] [] Manual [].
Definition basic : CollectionDefinition :=
  get no_definition (CollectionDefinition_new (lit "native-basic") (lit "1") MdmWindows basic_fields).
Lemma basic_ok : CollectionDefinition_new (lit "native-basic") (lit "1") MdmWindows basic_fields = Ok basic.
Proof. apply is_ok_get. vm_compute. reflexivity. Qed.
Definition os_key : FieldKey := fd_key os_name.
Definition os_value : CollectedValue := Collected_Value (SString (lit "Windows 11")).
(** A value, then its protocol status. *)
Definition confirmed_os : Document :=
  (apply_op (apply_op (CollectionProgress_new basic) (Op_value os_key os_value 10)).1 (Op_status os_key 200 11)).1.
Lemma confirmed_os_reachable : reachable basic confirmed_os.
Proof. do 2 apply reach_op. apply reach_new. Qed.
Definition outcomes : list (FieldKey * NativeValue) :=
  [(fd_key interfaces, Native_Value (Collected_Value two_rows)); (os_key, Native_Value os_value)].
Definition captured_basic : Document := get confirmed_os (native basic outcomes 20).
Lemma captured_basic_ok : native basic outcomes 20 = Ok captured_basic.
Proof. apply is_ok_get. vm_compute. reflexivity. Qed.
Lemma captured_basic_restores : CollectionProgress_try_from captured_basic = Ok captured_basic.
Proof.
  pose proof (reachable_valid basic captured_basic (definition_keys _ _ _ _ _ basic_ok)
    (reach_native _ _ _ _ captured_basic_ok)) as Hv.
  apply try_from_valid; [apply Hv|exact Hv].
Qed.
Definition basic_body : Body := default (body_failed []) (get None (body captured_basic)).
End Example.
Import Example.

Lemma progress_restores_witness :
  is_ok (observe_status confirmed_os os_key 404 12).2 = false /\
  CollectionProgress_try_from (apply_op confirmed_os Op_finish).1 = Ok (apply_op confirmed_os Op_finish).1.
Proof.
  split; [vm_compute; reflexivity|].
  apply (progress_restores (lit "native-basic") (lit "1") MdmWindows basic_fields basic); [exact basic_ok|].
  apply reach_op, confirmed_os_reachable.
Defined.
Lemma native_records_outcomes_witness :
  finished captured_basic = true /\ exists f, bm_get os_key (d_fields captured_basic) = Some f /\
    records basic os_key (Native_Value os_value) f.
Proof.
  destruct (native_records_outcomes (lit "native-basic") (lit "1") MdmWindows basic_fields basic outcomes 20
    captured_basic basic_ok captured_basic_ok) as (Hf & _ & Hr).
  split; [exact Hf|]. destruct (Hr os_key) as (f & Hget & Hrec); [apply (bool_decide_unpack _); vm_compute; exact I|].
  exists f. split; [exact Hget|exact Hrec].
Defined.
Lemma snapshot_is_confirmed_witness :
  is_snapshot basic_body = true /\ Forall2 (reports captured_basic) (reported_fields captured_basic) (body_changes basic_body).
Proof.
  assert (body captured_basic = Ok (Some basic_body)) as Hb.
  { assert (exists b, body captured_basic = Ok (Some b)) as [b Hb].
    { destruct (body captured_basic) as [[b|]| |] eqn:E; [by exists b|..];
        exfalso; assert (match body captured_basic with Ok (Some _) => true | _ => false end = true)
          as Hc by (vm_compute; reflexivity); by rewrite E in Hc. }
    unfold basic_body. by rewrite Hb. }
  destruct (snapshot_is_confirmed captured_basic basic_body captured_basic_restores Hb) as [_ Hr].
  split; [vm_compute; reflexivity|]. apply Hr. vm_compute. reflexivity.
Defined.
Lemma confirmed_values_are_final_witness :
  exists f', bm_get os_key (d_fields (apply_op confirmed_os (Op_status os_key 500 12)).1) = Some f' /\
    fa_value f' = Some os_value /\ confirmed f' = true.
Proof.
  assert (exists f, bm_get os_key (d_fields confirmed_os) = Some f /\ confirmed f = true /\
    fa_value f = Some os_value) as (f & Hget & Hc & Hv).
  { eexists. split; [vm_compute; reflexivity|]. split; reflexivity. }
  destruct (confirmed_values_are_final basic confirmed_os (Op_status os_key 500 12) os_key f os_value
    (definition_keys _ _ _ _ _ basic_ok) confirmed_os_reachable Hget Hc Hv) as (f' & H1 & H2 & H3 & _).
  { intros w at_ b Hop. discriminate Hop. }
  exists f'. split; [exact H1|]. split; [exact H2|exact H3].
Defined.
