(* ===== verification/AccessModel.v ===== *)
(** * Access control: permissions, grants, rules and keys

    The documents of [authorization-service]: what a grant covers, which documents are
    well formed, which permissions a key, a tenant or the installation may carry. *)
From S2P Require Import Prelude Ordered Text External.

(** [AuthorizationError]; the crate's [Error] embeds it under the same names, and the
    functions below raise no other of its categories. *)
Inductive AuthorizationError : Type := Malformed | Unauthorized | Forbidden | Corrupt.
#[export] Instance AuthorizationError_eq_dec : EqDecision AuthorizationError.
Proof. solve_decision. Defined.
Notation ares := (res AuthorizationError).

(** ** Permissions *)
Inductive Permission : Type :=
| UserAttributeDefinitionsRead | UserAttributeDefinitionsWrite | UserProfilesRead | WebhookRead
| WebhookWrite | WebhookReplay | TenantCreate | TenantRead | TenantUpdate | TenantDelete
| TenantAdministratorCreate | IdentityAccountsManage | IdentityProvidersManage
| EnterpriseApplicationsRead | EnterpriseApplicationsWrite | CertificateArchiveRead
| CertificateArchiveWrite | CertificateArchiveUnlock | CertificateArchiveExport
| RuntimeDiagnosticsRead | StorageConfigurationRead | StorageConfigurationWrite
| RegistrationConfigurationRead | RegistrationConfigurationWrite | AuditRead | InventoryRead
| InventorySensitiveRead | InventoryFieldsWrite | ComplianceRead | ComplianceRuleRead
| ComplianceWrite | ComplianceRecompute | InventoryCollect | InventoryAssign | TelemetryDelete
| TelemetryMaintain | Enrollment | AgentEnrollmentRead | AgentEnrollmentWrite | Credentials
| DeviceUnmanage | DeviceWipe | ConfigurationWrite | WindowsMiExecute | DeviceControl
| DeviceUpdate | DeviceAssociationWrite | AccountWrite | SecurityOperate | DeviceDiagnostics
| ScriptExecute | SoftwareDeploy | OperationRead | OperationCancel | AuthorizationRead
| AuthorizationWrite | UserGroupRead | UserGroupWrite | DepartmentRead | GroupRead | GroupWrite
| GroupRecompute | ScopeRead | ScopeWrite | PolicyRead | PolicyWrite | ResourceRead
| ResourceWrite | SoftwareRead | SoftwareWrite | SoftwareWithdraw | ReleaseRead | ReleasePublish
| ReleaseWithdraw | ReleaseRecover.
Definition all_permissions : list Permission :=
  [UserAttributeDefinitionsRead; UserAttributeDefinitionsWrite; UserProfilesRead; WebhookRead;
   WebhookWrite; WebhookReplay; TenantCreate; TenantRead; TenantUpdate; TenantDelete;
   TenantAdministratorCreate; IdentityAccountsManage; IdentityProvidersManage;
   EnterpriseApplicationsRead; EnterpriseApplicationsWrite; CertificateArchiveRead;
   CertificateArchiveWrite; CertificateArchiveUnlock; CertificateArchiveExport;
   RuntimeDiagnosticsRead; StorageConfigurationRead; StorageConfigurationWrite;
   RegistrationConfigurationRead; RegistrationConfigurationWrite; AuditRead; InventoryRead;
   InventorySensitiveRead; InventoryFieldsWrite; ComplianceRead; ComplianceRuleRead;
   ComplianceWrite; ComplianceRecompute; InventoryCollect; InventoryAssign; TelemetryDelete;
   TelemetryMaintain; Enrollment; AgentEnrollmentRead; AgentEnrollmentWrite; Credentials;
   DeviceUnmanage; DeviceWipe; ConfigurationWrite; WindowsMiExecute; DeviceControl; DeviceUpdate;
   DeviceAssociationWrite; AccountWrite; SecurityOperate; DeviceDiagnostics; ScriptExecute;
   SoftwareDeploy; OperationRead; OperationCancel; AuthorizationRead; AuthorizationWrite;
   UserGroupRead; UserGroupWrite; DepartmentRead; GroupRead; GroupWrite; GroupRecompute;
   ScopeRead; ScopeWrite; PolicyRead; PolicyWrite; ResourceRead; ResourceWrite; SoftwareRead;
   SoftwareWrite; SoftwareWithdraw; ReleaseRead; ReleasePublish; ReleaseWithdraw; ReleaseRecover].
(** Position in the declaration, the derived order. *)
Definition permission_rank (p : Permission) : nat :=
  match p with
  | UserAttributeDefinitionsRead => 0
  | UserAttributeDefinitionsWrite => 1
  | UserProfilesRead => 2
  | WebhookRead => 3
  | WebhookWrite => 4
  | WebhookReplay => 5
  | TenantCreate => 6
  | TenantRead => 7
  | TenantUpdate => 8
  | TenantDelete => 9
  | TenantAdministratorCreate => 10
  | IdentityAccountsManage => 11
  | IdentityProvidersManage => 12
  | EnterpriseApplicationsRead => 13
  | EnterpriseApplicationsWrite => 14
  | CertificateArchiveRead => 15
  | CertificateArchiveWrite => 16
  | CertificateArchiveUnlock => 17
  | CertificateArchiveExport => 18
  | RuntimeDiagnosticsRead => 19
  | StorageConfigurationRead => 20
  | StorageConfigurationWrite => 21
  | RegistrationConfigurationRead => 22
  | RegistrationConfigurationWrite => 23
  | AuditRead => 24
  | InventoryRead => 25
  | InventorySensitiveRead => 26
  | InventoryFieldsWrite => 27
  | ComplianceRead => 28
  | ComplianceRuleRead => 29
  | ComplianceWrite => 30
  | ComplianceRecompute => 31
  | InventoryCollect => 32
  | InventoryAssign => 33
  | TelemetryDelete => 34
  | TelemetryMaintain => 35
  | Enrollment => 36
  | AgentEnrollmentRead => 37
  | AgentEnrollmentWrite => 38
  | Credentials => 39
  | DeviceUnmanage => 40
  | DeviceWipe => 41
  | ConfigurationWrite => 42
  | WindowsMiExecute => 43
  | DeviceControl => 44
  | DeviceUpdate => 45
  | DeviceAssociationWrite => 46
  | AccountWrite => 47
  | SecurityOperate => 48
  | DeviceDiagnostics => 49
  | ScriptExecute => 50
  | SoftwareDeploy => 51
  | OperationRead => 52
  | OperationCancel => 53
  | AuthorizationRead => 54
  | AuthorizationWrite => 55
  | UserGroupRead => 56
  | UserGroupWrite => 57
  | DepartmentRead => 58
  | GroupRead => 59
  | GroupWrite => 60
  | GroupRecompute => 61
  | ScopeRead => 62
  | ScopeWrite => 63
  | PolicyRead => 64
  | PolicyWrite => 65
  | ResourceRead => 66
  | ResourceWrite => 67
  | SoftwareRead => 68
  | SoftwareWrite => 69
  | SoftwareWithdraw => 70
  | ReleaseRead => 71
  | ReleasePublish => 72
  | ReleaseWithdraw => 73
  | ReleaseRecover => 74
  end%nat.
Lemma permission_nth p : all_permissions !! permission_rank p = Some p.
Proof. by destruct p. Qed.
#[export] Instance permission_rank_inj : Inj (=) (=) permission_rank.
Proof. intros p q H. pose proof (permission_nth p) as Hp. rewrite H, permission_nth in Hp. congruence. Qed.
#[export] Instance Permission_eq_dec : EqDecision Permission.
Proof.
  intros p q. destruct (decide (permission_rank p = permission_rank q)) as [H|H].
  - left. by apply permission_rank_inj.
  - right. by intros ->.
Defined.

Definition tenant_management (p : Permission) : bool :=
  match p with
  | TenantCreate | TenantRead | TenantUpdate | TenantDelete | TenantAdministratorCreate => true
  | _ => false
  end.
Definition management_allowed (p : Permission) : bool :=
  tenant_management p
  || match p with AuthorizationRead | AuthorizationWrite | IdentityAccountsManage => true | _ => false end.
(** Whether a permission is granted for devices rather than the tenant. *)
Definition device (p : Permission) : bool :=
  match p with
  | InventoryRead | ComplianceRead | InventoryCollect | InventoryAssign | TelemetryDelete
  | TelemetryMaintain | Enrollment | Credentials | DeviceUnmanage | DeviceWipe | DeviceControl
  | DeviceAssociationWrite | DeviceUpdate | AccountWrite | SecurityOperate | DeviceDiagnostics
  | WindowsMiExecute | ConfigurationWrite | ScriptExecute | SoftwareDeploy | OperationRead
  | OperationCancel => true
  | _ => false
  end.
Definition api_key_allowed (p : Permission) : bool :=
  negb (tenant_management p)
  && negb match p with
     | IdentityAccountsManage | IdentityProvidersManage | EnterpriseApplicationsWrite
     | AuthorizationRead | AuthorizationWrite | UserGroupRead | UserGroupWrite | DepartmentRead => true
     | _ => false
     end.

(** ** Grants *)
Inductive Scope : Type := Tenant | AllDevices | Device (id : rstr).
#[export] Instance Scope_eq_dec : EqDecision Scope.
Proof. solve_decision. Defined.
Record Grant : Type := mk_Grant { operation : Permission; scope : Scope }.
#[export] Instance Grant_eq_dec : EqDecision Grant.
Proof. solve_decision. Defined.
Definition covers (g : Grant) (op : Permission) (target : option rstr) : bool :=
  bool_decide (operation g = op)
  && match scope g, target with
     | Tenant, None | AllDevices, Some _ => true
     | Device id, Some target => bool_decide (id = target)
     | _, _ => false
     end.

(** [rss_observation::Id::new] accepts a text. *)
Class ObservationId : Type := { observation_id : rstr -> bool }.

Section Documents.
Context `{OI : ObservationId} `{UL : UrlCrate} `{UC : UuidCrate} `{UT : !UuidText}.

Definition Grant_validate (g : Grant) : ares () :=
  _ ← reject (Bool.eqb (device (operation g)) (bool_decide (scope g = Tenant))) Malformed;
  match scope g with Device id => reject (negb (observation_id id)) Malformed | _ => Ok () end.

(** ** Identities and sources *)
Definition exact_id (value : rstr) : ares () :=
  reject (is_empty value || (256 <? str_len value) || negb (bool_decide (trim value = value))
          || has_control value) Malformed.
Definition canonical_uuid (value : rstr) : ares () :=
  id ← ok_or (uuid_parse_str value) Malformed;
  reject (is_nil id || negb (bool_decide (uuid_to_string id = value))) Malformed.
Record User : Type := mk_User { instance_id : rstr; tenant_id : rstr; principal_id : rstr }.
#[export] Instance User_eq_dec : EqDecision User.
Proof. solve_decision. Defined.
#[export] Instance User_ord : Ord User := cmp_on (fun u => (instance_id u, tenant_id u, principal_id u)).
#[export] Instance User_ord_laws : OrdLaws User.
Proof. apply cmp_on_laws. intros [] [] [=]. by subst. Qed.
Definition User_validate (u : User) (tenant instance : rstr) : ares () :=
  _ ← reject (negb (bool_decide (tenant_id u = tenant)) || negb (bool_decide (instance_id u = instance)))
        Malformed;
  canonical_uuid (principal_id u).
Record Source : Type := mk_Source { provider_id : Uuid; issuer : rstr; configuration_version : Z }.
#[export] Instance Source_eq_dec : EqDecision Source.
Proof. solve_decision. Defined.
Definition Source_validate (s : Source) : ares () :=
  _ ← reject (is_nil (provider_id s) || (configuration_version s <? 1)) Malformed;
  url ← ok_or (url_parse (issuer s)) Malformed;
  _ ← reject (negb (bool_decide (url_scheme url = lit "https")) || negb (given (url_host_str url))
              || negb (is_empty (url_username url)) || given (url_password url) || given (url_query url)
              || given (url_fragment url)) Malformed;
  reject (2048 <? str_len (issuer s)) Malformed.
Definition Source_matches (s : Source) (provider : Uuid) (iss : rstr) (version : Z) : bool :=
  bool_decide (provider_id s = provider) && bool_decide (issuer s = iss)
  && (configuration_version s =? version).

(** ** Rules and groups *)
Inductive DepartmentMatch : Type := Exact | Subtree.
#[export] Instance DepartmentMatch_eq_dec : EqDecision DepartmentMatch.
Proof. solve_decision. Defined.
Inductive Subject : Type :=
| Subject_User (user : User)
| Subject_IdpGroup (source : Source) (id : rstr)
| Subject_Department (source : Source) (id : rstr) (matching : DepartmentMatch)
| Subject_UserGroup (id : Uuid).
#[export] Instance Subject_eq_dec : EqDecision Subject.
Proof. solve_decision. Defined.
Definition Subject_validate (s : Subject) (tenant instance : rstr) : ares () :=
  match s with
  | Subject_User user => User_validate user tenant instance
  | Subject_IdpGroup source id | Subject_Department source id _ => _ ← Source_validate source; exact_id id
  | Subject_UserGroup id => reject (is_nil id) Malformed
  end.
Record Rule : Type := mk_Rule { subject : Subject; grants : list Grant }.
(** The loop over [grants[..index]]: each grant is valid, allowed and not an earlier one. *)
Definition grant_step (allowed : Permission -> bool) (earlier : list Grant) (g : Grant) : ares (list Grant) :=
  _ ← Grant_validate g;
  _ ← reject (negb (allowed (operation g)) || bool_decide (g ∈ earlier)) Malformed;
  Ok (earlier ++ [g]).
Definition grants_validate (allowed : Permission -> bool) (l : list Grant) : ares () :=
  _ ← reject (is_empty l || (256 <? zlen l)) Malformed;
  _ ← res_for (grant_step allowed) l [];
  Ok ().
Definition Rule_validate (r : Rule) (tenant instance : rstr) : ares () :=
  _ ← Subject_validate (subject r) tenant instance;
  grants_validate (fun _ => true) (grants r).
Record UserGroup : Type := mk_UserGroup { ug_name : rstr; enabled : bool; members : list User }.
Definition member_step (tenant instance : rstr) (unique : list User) (member : User) : ares (list User) :=
  _ ← User_validate member tenant instance;
  _ ← reject (bs_mem member unique) Malformed;
  Ok (bs_insert member unique).
Definition UserGroup_validate (g : UserGroup) (tenant instance : rstr) : ares () :=
  _ ← exact_id (ug_name g);
  _ ← reject (10000 <? zlen (members g)) Malformed;
  _ ← res_for (member_step tenant instance) (members g) [];
  Ok ().
Record Revision (T : Type) : Type := mk_Revision { rv_id : Uuid; rv_revision : Z; rv_value : option T }.
Record Receipt : Type := mk_Receipt { rc_id : Uuid; rc_revision : Z; deleted : bool }.
(** Complete business-tenant administration. *)
Definition administrator_operations : list Permission :=
  [UserAttributeDefinitionsRead; UserAttributeDefinitionsWrite; UserProfilesRead; WebhookRead;
   WebhookWrite; WebhookReplay; IdentityAccountsManage; IdentityProvidersManage;
   EnterpriseApplicationsRead; EnterpriseApplicationsWrite; CertificateArchiveRead;
   CertificateArchiveWrite; CertificateArchiveUnlock; CertificateArchiveExport;
   RuntimeDiagnosticsRead; StorageConfigurationRead; StorageConfigurationWrite;
   RegistrationConfigurationRead; RegistrationConfigurationWrite; AuditRead; InventoryRead;
   InventorySensitiveRead; InventoryFieldsWrite; ComplianceRead; ComplianceRuleRead;
   ComplianceWrite; ComplianceRecompute; InventoryCollect; InventoryAssign; TelemetryDelete;
   TelemetryMaintain; Enrollment; AgentEnrollmentRead; AgentEnrollmentWrite; Credentials;
   DeviceUnmanage; DeviceWipe; ConfigurationWrite; WindowsMiExecute; DeviceControl; DeviceUpdate;
   DeviceAssociationWrite; AccountWrite; SecurityOperate; DeviceDiagnostics; ScriptExecute;
   SoftwareDeploy; OperationRead; OperationCancel; AuthorizationRead; AuthorizationWrite;
   UserGroupRead; UserGroupWrite; DepartmentRead; GroupRead; GroupWrite; GroupRecompute;
   ScopeRead; ScopeWrite; PolicyRead; PolicyWrite; ResourceRead; ResourceWrite; SoftwareRead;
   SoftwareWrite; SoftwareWithdraw; ReleaseRead; ReleasePublish; ReleaseWithdraw; ReleaseRecover].
Definition tenant_administrator_rule (user : User) : Rule :=
  mk_Rule (Subject_User user)
    (map (fun op => mk_Grant op (if device op then AllDevices else Tenant)) administrator_operations).

(** ** API keys *)
Record KeyMetadata : Type := mk_KeyMetadata {
  key_name : rstr; key_enabled : bool; expires_at : option Z; key_grants : list Grant
}.
Definition KeyMetadata_validate (k : KeyMetadata) : ares () :=
  _ ← exact_id (key_name k);
  _ ← reject (match expires_at k with Some v => v <=? 0 | None => false end) Malformed;
  grants_validate api_key_allowed (key_grants k).
Record KeyRecord : Type := mk_KeyRecord {
  key_id : Uuid; key_revision : Z; authority_revision : Z; credential_revision : Z;
  metadata : KeyMetadata; created_by : User; created_at : Z; revoked : bool
}.
End Documents.
Arguments Revision {UC} T.
Arguments mk_Revision {UC T} _ _ _.
Arguments rv_id {UC T} _.
Arguments rv_revision {UC T} _.
Arguments rv_value {UC T} _.

(** ** The installation *)
(** Permissions of a tenant depend on its purpose: the management tenant administers tenants,
    its own authorization and accounts; a business tenant does anything but administer tenants. *)
Record InstallationTenants : Type := mk_Installation { instance : rstr; management : rstr }.
Definition is_management (i : InstallationTenants) (tenant : rstr) : bool := bool_decide (tenant = management i).
Definition require_identity (i : InstallationTenants) (inst tenant : rstr) (p : Permission) : ares () :=
  reject (negb (bool_decide (inst = instance i))
          || is_management i tenant && negb (management_allowed p)
          || negb (is_management i tenant) && tenant_management p) Forbidden.
Definition validate_rule `{UC : UuidCrate} (i : InstallationTenants) (tenant : rstr) (r : Rule) : ares () :=
  let m := is_management i tenant in
  reject (m && match subject r with Subject_User _ => false | _ => true end
          || existsb (fun g => if m then negb (management_allowed (operation g))
                               else tenant_management (operation g)) (grants r)) Forbidden.
