(* ===== verification/AccessEvaluate.v ===== *)
(** * Access control: evaluation of live proofs

    [authorization-service]'s decisions: which rules a proof matches, what an operation
    requires, which devices a listing may show, and the evidence an operation freezes.  Every
    test of a proof reads the clock again, so evaluation is a computation over the sequence
    of instants it observes. *)
From S2P Require Import Prelude Ordered Text External AccessModel.

(** ** Observed instants *)
(** A computation that has read the clock [n] times returns its result and the new count. *)
Definition timed (A : Type) : Type := nat -> ares A * nat.
#[export] Instance timed_ret : MRet timed := fun A a n => (Ok a, n).
#[export] Instance timed_bind : MBind timed := fun A B k m n =>
  match m n with
  | (Ok a, n) => k a n
  | (Err e, n) => (Err e, n)
  | (Panic, n) => (Panic, n)
  end.
Definition lift {A} (r : ares A) : timed A := fun n => (r, n).
Definition fail {A} (e : AuthorizationError) : timed A := lift (Err e).
Definition test (bad : bool) (e : AuthorizationError) : timed () := lift (reject bad e).
(** [map_err(|_| e)]. *)
Definition map_err {A} (e : AuthorizationError) (m : timed A) : timed A := fun n =>
  match m n with (Err _, n) => (Err e, n) | r => r end.

(** ** Identity facts *)
(** [rss_identity_core]: the department tree of a directory snapshot. *)
Record DepartmentSnapshot : Type := mk_DepartmentSnapshot {
  source_revision : rstr; memberships : list rstr; nodes : list (rstr * option rstr)
}.
(** [rss_identity_postgres]: what a verified group or department list answers at an instant. *)
Inductive accessed (A : Type) : Type := Values (a : A) | SnapshotExpired | ProofExpired.
Arguments Values {A} _.
Arguments SnapshotExpired {A}.
Arguments ProofExpired {A}.
Section Facts.
Context `{UC : UuidCrate}.
Record Verified (A : Type) : Type := mk_Verified {
  vf_provider : Uuid; vf_issuer : rstr; vf_config : Z; vf_snapshot : Uuid; vf_observed_at : Z;
  vf_expires_at : Z; vf_values : Z -> accessed A
}.
(** The accessors every component proof offers: [None] where the accessor fails, and no list
    where the provider has none. *)
Class ComponentProof (P : Type) : Type := {
  proof_live : P -> Z -> bool;
  proof_instance : P -> rstr; proof_tenant : P -> rstr; proof_principal : P -> rstr;
  proof_groups : P -> Z -> option (option (Verified (list rstr)));
  proof_departments : P -> Z -> option (option (Verified DepartmentSnapshot))
}.
End Facts.
Arguments vf_provider {UC A} _.
Arguments vf_issuer {UC A} _.
Arguments vf_config {UC A} _.
Arguments vf_snapshot {UC A} _.
Arguments vf_observed_at {UC A} _.
Arguments vf_expires_at {UC A} _.
Arguments vf_values {UC A} _ _.
(** The proofs of one request: an authenticated session, a revalidated one, a management one. *)
Class IdentityCrate `{UC : UuidCrate} : Type := {
  AuthenticatedSession : Type; RevalidatedSession : Type; ManagementContext : Type;
  authenticated_proof :: ComponentProof AuthenticatedSession;
  revalidated_proof :: ComponentProof RevalidatedSession;
  management_proof :: ComponentProof ManagementContext
}.

(** ** Departments *)
Definition parent (s : DepartmentSnapshot) (v : rstr) : option rstr :=
  match List.find (fun n => bool_decide (n.1 = v)) (nodes s) with Some n => n.2 | None => None end.
(** The [while let] loop from one membership: [None] when it is still climbing. *)
Fixpoint climb (s : DepartmentSnapshot) (id : rstr) (matching : DepartmentMatch) (fuel : nat)
    (current : option rstr) : option bool :=
  match current with
  | None => Some false
  | Some value =>
      if bool_decide (value = id) then Some true
      else if bool_decide (matching = Exact) then Some false
      else match fuel with O => None | S fuel => climb s id matching fuel (parent s value) end
  end.
(** [memberships.any(..)], left to right. *)
Fixpoint climb_any (s : DepartmentSnapshot) (id : rstr) (matching : DepartmentMatch) (fuel : nat)
    (members : list rstr) : option bool :=
  match members with
  | [] => Some false
  | member :: members =>
      match climb s id matching fuel (Some member) with
      | Some false => climb_any s id matching fuel members
      | r => r
      end
  end.
Definition climb_fuel (s : DepartmentSnapshot) : nat := S (length (nodes s)).
Definition department_matches (s : DepartmentSnapshot) (id : rstr) (matching : DepartmentMatch) : option bool :=
  climb_any s id matching (climb_fuel s) (memberships s).

(** ** Proofs *)
Section Evaluate.
Context `{OI : ObservationId} `{UL : UrlCrate} `{UC : UuidCrate} `{UT : !UuidText}
  `{IC : !IdentityCrate} (clock : nat -> Z).

Definition observe : timed Z := fun n => (Ok (clock n), S n).

Inductive SubjectFacts : Type :=
| Authenticated (p : AuthenticatedSession)
| Revalidated (p : RevalidatedSession)
| Management (p : ManagementContext).
Definition with_proof {A} (k : forall P, ComponentProof P -> P -> A) (f : SubjectFacts) : A :=
  match f with
  | Authenticated p => k _ _ p | Revalidated p => k _ _ p | Management p => k _ _ p
  end.
Definition facts_live (f : SubjectFacts) (t : Z) : bool := with_proof (fun _ _ p => proof_live p t) f.
Definition facts_check_live (f : SubjectFacts) : timed () :=
  t ← observe; test (negb (facts_live f t)) Unauthorized.
Definition facts_user (f : SubjectFacts) : User :=
  with_proof (fun _ _ p => mk_User (proof_instance p) (proof_tenant p) (proof_principal p)) f.
Definition facts_groups (f : SubjectFacts) (t : Z) : option (option (Verified (list rstr))) :=
  with_proof (fun _ _ p => proof_groups p t) f.
Definition facts_departments (f : SubjectFacts) (t : Z) : option (option (Verified DepartmentSnapshot)) :=
  with_proof (fun _ _ p => proof_departments p t) f.

(** ** The snapshot *)
Record Snapshot : Type := mk_Snapshot {
  rules : list (Revision Rule); groups : list (Revision UserGroup); keys : list KeyRecord;
  installation : option InstallationTenants
}.
Record Observation : Type := mk_Observation {
  ob_snapshot : Uuid; ob_observed_at : Z; ob_expires_at : Z; ob_source_revision : option rstr
}.
Record EffectiveGrant : Type := mk_EffectiveGrant {
  rule_id : Uuid; rule_revision : Z; eg_subject : Subject; eg_grant : Grant;
  observation : option Observation
}.

(** A record that must be valid: [invalid()] replaces its error. *)
Definition corrupt {A} (r : ares A) : ares () :=
  match r with Ok _ => Ok () | Err _ => Err Corrupt | Panic => Panic end.
Definition key_check (tenant inst : rstr) (k : KeyRecord) : ares () :=
  _ ← reject (is_nil (key_id k) || (key_revision k =? 0) || (authority_revision k =? 0)
              || (credential_revision k =? 0)) Corrupt;
  _ ← corrupt (KeyMetadata_validate (metadata k));
  corrupt (User_validate (created_by k) tenant inst).
Definition revision_check {T} (check : T -> ares ()) (r : Revision T) : ares () :=
  _ ← reject (is_nil (rv_id r) || (rv_revision r =? 0)) Corrupt;
  match rv_value r with Some v => corrupt (check v) | None => Ok () end.
Definition Snapshot_validate (s : Snapshot) (tenant inst : rstr) : ares () :=
  _ ← reject ((10000 <? zlen (rules s)) || (10000 <? zlen (groups s)) || (1000 <? zlen (keys s))) Corrupt;
  _ ← res_for (fun _ k => key_check tenant inst k) (keys s) ();
  _ ← res_for (fun _ r => revision_check (fun v => Rule_validate v tenant inst) r) (rules s) ();
  res_for (fun _ g => revision_check (fun v => UserGroup_validate v tenant inst) g) (groups s) ().

(** [matches_facts]: no match, or a match with the observation it rests on. *)
Definition group_holds (s : Snapshot) (id : Uuid) (user : User) : bool :=
  existsb (fun g => bool_decide (rv_id g = id)
    && match rv_value g with
       | Some g => enabled g && bool_decide (user ∈ members g)
       | None => false
       end) (groups s).
(** What both provider subjects share: the list of an unexpired snapshot of the right source. *)
Definition provider_values {A} (source : Source) (answer : option (option (Verified A))) :
    timed (option (Verified A * A)) :=
  v ← lift (ok_or answer Unauthorized);
  match v with
  | None => mret None
  | Some v =>
      if negb (Source_matches source (vf_provider v) (vf_issuer v) (vf_config v)) then mret None else
      t ← observe;
      match vf_values v t with
      | Values a => mret (Some (v, a))
      | SnapshotExpired => mret None
      | ProofExpired => fail Unauthorized
      end
  end.
Definition matches_facts (s : Snapshot) (f : SubjectFacts) (subject : Subject)
    : timed (option (option Observation)) :=
  match subject with
  | Subject_User user => mret (if bool_decide (user = facts_user f) then Some None else None)
  | Subject_UserGroup id => mret (if group_holds s id (facts_user f) then Some None else None)
  | Subject_IdpGroup source id =>
      t ← observe;
      found ← provider_values source (facts_groups f t);
      mret (match found with
            | Some (v, values) =>
                if bool_decide (id ∈ values)
                then Some (Some (mk_Observation (vf_snapshot v) (vf_observed_at v) (vf_expires_at v) None))
                else None
            | None => None
            end)
  | Subject_Department source id matching =>
      t ← observe;
      found ← provider_values source (facts_departments f t);
      match found with
      | Some (v, snapshot) =>
          matched ← lift (or_panic (department_matches snapshot id matching));
          mret (if (matched : bool)
                then Some (Some (mk_Observation (vf_snapshot v) (vf_observed_at v) (vf_expires_at v)
                       (Some (source_revision snapshot))))
                else None)
      | None => mret None
      end
  end.

Definition effective_rule (s : Snapshot) (f : SubjectFacts) (acc : list EffectiveGrant)
    (record : Revision Rule) : timed (list EffectiveGrant) :=
  match rv_value record with
  | None => mret acc
  | Some rule =>
      m ← matches_facts s f (subject rule);
      mret (match m with
            | None => acc
            | Some o => acc ++ map (fun g => mk_EffectiveGrant (rv_id record) (rv_revision record)
                                               (subject rule) g o) (grants rule)
            end)
  end.
(** A [for] loop of timed steps. *)
Fixpoint timed_for {S A} (body : S -> A -> timed S) (l : list A) (s : S) : timed S :=
  match l with [] => mret s | a :: l => s ← body s a; timed_for body l s end.
Definition effective_facts (s : Snapshot) (f : SubjectFacts) : timed (list EffectiveGrant) :=
  _ ← facts_check_live f;
  grants ← timed_for (effective_rule s f) (rules s) [];
  _ ← facts_check_live f;
  mret grants.

(** ** Initialization authority *)
Record Authority : Type := mk_Authority { au_user : User; au_rule : Receipt; targets : list rstr }.
Definition PERMISSIONS : list Permission :=
  [GroupRead; GroupWrite; GroupRecompute; ScopeRead; ScopeWrite; PolicyRead; PolicyWrite; ResourceRead;
   ResourceWrite; InventoryRead; InventorySensitiveRead; InventoryCollect; InventoryFieldsWrite].
Definition Authority_new (user : User) (rule : Receipt) (targets : list rstr) : ares Authority :=
  _ ← User_validate user (tenant_id user) (instance_id user);
  _ ← reject (deleted rule || is_nil (rc_id rule) || (rc_revision rule =? 0) || is_empty targets
              || (512 <? zlen targets)
              || existsb (fun s => is_empty s || (256 <? str_len s)) targets) Malformed;
  Ok (mk_Authority user rule targets).
Definition allows_target (a : Authority) (target : rstr) : bool := bs_mem target (targets a).
Definition natural_scope (p : Permission) : Scope := if device p then AllDevices else Tenant.
Definition Authority_grants (a : Authority) (s : Snapshot) : ares (list Grant) :=
  record ← ok_or (List.find (fun r => bool_decide (rv_id r = rc_id (au_rule a))
                     && (rv_revision r =? rc_revision (au_rule a))) (rules s)) Forbidden;
  rule ← ok_or (rv_value record) Forbidden;
  _ ← reject (match subject rule with
              | Subject_User user => negb (bool_decide (user = au_user a))
              | _ => true
              end) Forbidden;
  let grants := List.filter (fun g => bool_decide (operation g ∈ PERMISSIONS)) (grants rule) in
  _ ← res_for (fun _ p => reject (negb (existsb (fun g => bool_decide (operation g = p)
                && bool_decide (scope g = natural_scope p)) grants)) Forbidden) PERMISSIONS ();
  Ok grants.
Definition Authority_effective (a : Authority) (s : Snapshot) : ares (list EffectiveGrant) :=
  gs ← Authority_grants a s;
  Ok (map (fun g => mk_EffectiveGrant (rc_id (au_rule a)) (rc_revision (au_rule a))
                      (Subject_User (au_user a)) g None) gs).

(** ** Principals *)
Inductive Actor : Type :=
| Actor_Account (user : User)
| Actor_ApiKey (inst tenant : rstr) (id : Uuid).
Definition actor_instance (a : Actor) : rstr :=
  match a with Actor_Account u => instance_id u | Actor_ApiKey i _ _ => i end.
Definition actor_tenant (a : Actor) : rstr :=
  match a with Actor_Account u => tenant_id u | Actor_ApiKey _ t _ => t end.
Record KeyProof : Type := mk_KeyProof {
  kp_instance : rstr; kp_tenant : rstr; kp_id : Uuid; kp_credential_revision : Z; kp_deadline : Z;
  kp_authority_revision : Z
}.
Inductive Authentication : Type :=
| Auth_Account (session : AuthenticatedSession)
| Auth_ApiKey (proof : KeyProof)
| Auth_Initialization (authority : Authority) (deadline : Z).
Record Principal : Type := mk_Principal { proof : Authentication; actor : Actor }.
Definition Principal_new (session : AuthenticatedSession) : timed Principal :=
  t ← observe;
  _ ← test (negb (proof_live session t)) Unauthorized;
  mret (mk_Principal (Auth_Account session) (Actor_Account (facts_user (Authenticated session)))).
Definition Principal_from_key (k : KeyProof) : Principal :=
  mk_Principal (Auth_ApiKey k) (Actor_ApiKey (kp_instance k) (kp_tenant k) (kp_id k)).
(** An initialization attempt lives for sixty seconds; instants count nanoseconds. *)
Definition from_initialization (a : Authority) : timed Principal :=
  t ← observe;
  mret (mk_Principal (Auth_Initialization a (t + 60 * 10 ^ 9)) (Actor_Account (au_user a))).
Definition session (p : Principal) : ares AuthenticatedSession :=
  match proof p with Auth_Account s => Ok s | _ => Err Forbidden end.
Definition key_proof (p : Principal) : option KeyProof :=
  match proof p with Auth_ApiKey k => Some k | _ => None end.
Definition initialization_authority (p : Principal) : option Authority :=
  match proof p with Auth_Initialization a _ => Some a | _ => None end.
Definition live (p : Principal) (t : Z) : bool :=
  match proof p with
  | Auth_Account s => proof_live s t
  | Auth_ApiKey k => t <? kp_deadline k
  | Auth_Initialization _ deadline => t <? deadline
  end.
Definition check_live (p : Principal) : timed () := t ← observe; test (negb (live p t)) Unauthorized.
Definition require_initialization_target (p : Principal) (target : rstr) : timed () :=
  _ ← test (match initialization_authority p with Some a => negb (allows_target a target) | None => false end)
        Forbidden;
  check_live p.

(** ** Decisions *)
(** The stored key of a live key proof; any change of it since authentication is a rejection. *)
Definition Snapshot_key (s : Snapshot) (p : Principal) : timed (option KeyRecord) :=
  _ ← check_live p;
  match key_proof p with
  | None => mret None
  | Some credential =>
      key ← lift (ok_or (List.find (fun k => bool_decide (key_id k = kp_id credential)) (keys s)) Unauthorized);
      _ ← test (negb (credential_revision key =? kp_credential_revision credential)
                || negb (authority_revision key =? kp_authority_revision credential)
                || revoked key || negb (key_enabled (metadata key))) Unauthorized;
      mret (Some key)
  end.
Definition effective (s : Snapshot) (p : Principal) : timed (list EffectiveGrant) :=
  _ ← check_live p;
  match initialization_authority p with
  | Some a => map_err Forbidden (lift (Authority_effective a s))
  | None => session ← lift (session p); effective_facts s (Authenticated session)
  end.
Definition matches (s : Snapshot) (p : Principal) (subject : Subject) : timed (option (option Observation)) :=
  session ← lift (session p); matches_facts s (Authenticated session) subject.
Definition installation_require (i : InstallationTenants) (p : Principal) (op : Permission) : timed () :=
  _ ← check_live p; lift (require_identity i (actor_instance (actor p)) (actor_tenant (actor p)) op).
Definition any_covers (l : list Grant) (op : Permission) (target : option rstr) : bool :=
  existsb (fun g => covers g op target) l.
(** The rule loop of [require]: the first rule that covers and matches decides. *)
Fixpoint require_rules (s : Snapshot) (p : Principal) (op : Permission) (target : option rstr)
    (l : list (Revision Rule)) : timed () :=
  match l with
  | [] => fail Forbidden
  | record :: l =>
      match rv_value record with
      | None => require_rules s p op target l
      | Some rule =>
          if any_covers (grants rule) op target then
            m ← matches s p (subject rule);
            match m with
            | Some _ => check_live p
            | None => require_rules s p op target l
            end
          else require_rules s p op target l
      end
  end.
Definition require (s : Snapshot) (p : Principal) (op : Permission) (target : option rstr) : timed () :=
  i ← lift (ok_or (installation s) Corrupt);
  _ ← map_err Forbidden (installation_require i p op);
  _ ← check_live p;
  _ ← test (match target with Some d => negb (observation_id d) | None => false end) Malformed;
  key ← Snapshot_key s p;
  match key with
  | Some key => test (negb (any_covers (key_grants (metadata key)) op target)) Forbidden
  | None =>
      match initialization_authority p with
      | Some _ =>
          grants ← effective s p;
          test (negb (any_covers (map eg_grant grants) op target)) Forbidden
      | None => require_rules s p op target (rules s)
      end
  end.
Fixpoint require_management_rules (s : Snapshot) (f : SubjectFacts) (op : Permission) (l : list Rule) : timed () :=
  match l with
  | [] => fail Forbidden
  | rule :: l =>
      if any_covers (grants rule) op None then
        m ← matches_facts s f (subject rule);
        match m with
        | Some _ => facts_check_live f
        | None => require_management_rules s f op l
        end
      else require_management_rules s f op l
  end.
Definition require_management (s : Snapshot) (context : ManagementContext) (op : Permission) : timed () :=
  let f := Management context in
  _ ← facts_check_live f;
  let user := facts_user f in
  i ← lift (ok_or (installation s) Corrupt);
  _ ← map_err Forbidden (lift (require_identity i (instance_id user) (tenant_id user) op));
  require_management_rules s f op (omap rv_value (rules s)).

(** ** Device listings *)
Definition is_all (p : Permission) (g : Grant) : bool :=
  bool_decide (operation g = p) && bool_decide (scope g = AllDevices).
Definition device_of (g : Grant) : option rstr := match scope g with Device id => Some id | _ => None end.
(** [None]: every device; [Some ids]: those devices. *)
Definition listed (all : bool) (devices : list rstr) : timed (option (list rstr)) :=
  if all then mret None else if is_empty devices then fail Forbidden else mret (Some devices).
Definition devices_grant (p : Permission) (acc : bool * list rstr) (g : Grant) : ares (bool * list rstr) :=
  if negb (bool_decide (operation g = p)) then Ok acc else
  match scope g with
  | AllDevices => Ok (true, acc.2)
  | Device id => Ok (acc.1, bs_insert id acc.2)
  | Tenant => Err Forbidden
  end.
Definition devices_rule (s : Snapshot) (p : Principal) (op : Permission) (acc : bool * list rstr)
    (record : Revision Rule) : timed (bool * list rstr) :=
  match rv_value record with
  | None => mret acc
  | Some rule =>
      m ← matches s p (subject rule);
      match m with
      | None => mret acc
      | Some _ => lift (res_for (devices_grant op) (grants rule) acc)
      end
  end.
Definition devices_for (s : Snapshot) (p : Principal) (op : Permission) : timed (option (list rstr)) :=
  _ ← check_live p;
  key ← Snapshot_key s p;
  match key with
  | Some key =>
      let gs := List.filter (fun g => bool_decide (operation g = op)) (key_grants (metadata key)) in
      listed (existsb (fun g => bool_decide (scope g = AllDevices)) gs) (bs_of_list (omap device_of gs))
  | None =>
      match initialization_authority p with
      | Some _ =>
          grants ← effective s p;
          listed (existsb (fun g => is_all op (eg_grant g)) grants) []
      | None =>
          acc ← timed_for (devices_rule s p op) (rules s) (false, []);
          _ ← check_live p;
          listed acc.1 acc.2
      end
  end.
Definition inventory_devices (s : Snapshot) (p : Principal) : timed (option (list rstr)) :=
  devices_for s p InventoryRead.
Definition require_all_devices (s : Snapshot) (p : Principal) (op : Permission) : timed () :=
  key ← Snapshot_key s p;
  match key with
  | Some key => test (negb (existsb (is_all op) (key_grants (metadata key)))) Forbidden
  | None =>
      grants ← effective s p;
      if existsb (fun g => is_all op (eg_grant g)) grants then check_live p else fail Forbidden
  end.
Fixpoint any_subject (s : Snapshot) (f : SubjectFacts) (l : list Subject) : timed bool :=
  match l with
  | [] => mret false
  | subject :: l =>
      m ← matches_facts s f subject;
      match m with Some _ => mret true | None => any_subject s f l end
  end.
Definition matches_subjects (s : Snapshot) (f : SubjectFacts) (l : list Subject) : timed bool :=
  _ ← facts_check_live f;
  matched ← any_subject s f l;
  _ ← facts_check_live f;
  mret matched.

(** ** Frozen evidence *)
Record Basis : Type := mk_Basis { ba_id : Uuid; ba_revision : Z; ba_expires_at : option Z }.
Inductive AuthorityBasis : Type :=
| Basis_Account (rules : list Basis)
| Basis_ApiKey (authority_revision : Z).
Record OperationAuthority : Type := mk_OperationAuthority {
  oa_permission : Permission; oa_actor : Actor; oa_scope : Scope; basis : AuthorityBasis
}.
Definition covers_scope (g : Grant) (op : Permission) (sc : Scope) : bool :=
  match sc with
  | AllDevices => bool_decide (operation g = op) && bool_decide (scope g = AllDevices)
  | Device id => covers g op (Some id)
  | Tenant => covers g op None
  end.
Definition authorization_bases (s : Snapshot) (p : Principal) (sc : Scope) (op : Permission) : timed (list Basis) :=
  grants ← effective s p;
  mret (map (fun g => mk_Basis (rule_id g) (rule_revision g) (ob_expires_at <$> observation g))
    (List.filter (fun g => covers_scope (eg_grant g) op sc) grants)).
(** The basis of an admitted operation: the key's revision, or the rules behind it. *)
Definition freeze (s : Snapshot) (p : Principal) (sc : Scope) (op : Permission) : timed OperationAuthority :=
  key ← Snapshot_key s p;
  b ← match key with
      | Some key => mret (Basis_ApiKey (authority_revision key))
      | None => bases ← authorization_bases s p sc op; mret (Basis_Account bases)
      end;
  mret (mk_OperationAuthority op (actor p) sc b).
Definition from_proof (s : Snapshot) (p : Principal) (target : rstr) (op : Permission) : timed OperationAuthority :=
  _ ← require s p op (Some target); freeze s p (Device target) op.
Definition authority_tenant (s : Snapshot) (p : Principal) (op : Permission) : timed OperationAuthority :=
  _ ← test (device op) Malformed;
  _ ← require s p op None;
  freeze s p Tenant op.
Definition authority_all_devices (s : Snapshot) (p : Principal) (op : Permission) : timed OperationAuthority :=
  _ ← require_all_devices s p op; freeze s p AllDevices op.
End Evaluate.
