(* ===== verification/AccessSpec.v ===== *)
(** * Access control: what a decision means

    The relation a decision must implement, the loops behind it, and the department climb. *)
From S2P Require Import Prelude Ordered Text External AccessModel AccessEvaluate.

(** ** Timed computations *)
Section Timed.
Context {A B : Type}.
Implicit Types (m : timed A) (k : A -> timed B).

Lemma timed_bind_ok m k n b n' :
  (m ≫= k) n = (Ok b, n') <-> exists a n1, m n = (Ok a, n1) /\ k a n1 = (Ok b, n').
Proof.
  unfold mbind, timed_bind. destruct (m n) as [[a|e|] n1]; [|naive_solver..].
  split; [by intros; exists a, n1|]. by intros (a' & n1' & [= -> ->] & H).
Qed.
Lemma lift_ok (r : ares A) n a n' : lift r n = (Ok a, n') <-> r = Ok a /\ n' = n.
Proof. unfold lift. naive_solver. Qed.
Lemma ret_ok (a b : A) n n' : mret (M:=timed) a n = (Ok b, n') <-> a = b /\ n' = n.
Proof. unfold mret, timed_ret. naive_solver. Qed.
Lemma map_err_ok e m n a n' : map_err e m n = (Ok a, n') <-> m n = (Ok a, n').
Proof. unfold map_err. destruct (m n) as [[]]; naive_solver. Qed.
Lemma fail_ok e (a : A) n n' : ~ fail e n = (Ok a, n').
Proof. unfold fail, lift. naive_solver. Qed.
End Timed.
Lemma test_ok bad e u n n' : test bad e n = (Ok u, n') <-> bad = false /\ n' = n.
Proof. unfold test. rewrite lift_ok. by destruct bad, u; simpl; naive_solver. Qed.

(** Decompose every hypothesis that says a timed computation succeeded. *)
Ltac inv_timed :=
  repeat match goal with
  | H : (_ ≫= _) _ = (Ok _, _) |- _ =>
      apply timed_bind_ok in H; let a := fresh "a" in let n := fresh "n" in let E := fresh "E" in
      destruct H as (a & n & E & H)
  | H : lift _ _ = (Ok _, _) |- _ => apply lift_ok in H as [H ->]
  | H : mret _ _ = (Ok _, _) |- _ => apply ret_ok in H as [H ->]; try subst
  | H : map_err _ _ _ = (Ok _, _) |- _ => apply map_err_ok in H
  | H : fail _ _ = (Ok _, _) |- _ => by apply fail_ok in H
  | H : test _ _ _ = (Ok ?u, _) |- _ => apply test_ok in H as [H ->]; try clear u
  | H : observe _ _ = (Ok _, _) |- _ => injection H as <- <-
  end.

(** ** Departments *)
Section Departments.
Context (s : DepartmentSnapshot) (id : rstr).

Definition climbs (a b : rstr) : Prop := parent s a = Some b.
(** The department is the membership itself, or an ancestor of it. *)
Definition ancestor (matching : DepartmentMatch) (member : rstr) : Prop :=
  match matching with Exact => member = id | Subtree => rtc climbs member id end.
(** Where [k] climbs lead. *)
Fixpoint climbed (k : nat) (current : option rstr) : option rstr :=
  match k with O => current | S k => climbed k (current ≫= parent s) end.

Lemma climbed_none k : climbed k None = None.
Proof. by induction k. Qed.
Lemma climbed_S k c : climbed (S k) c = climbed k c ≫= parent s.
Proof. revert c. induction k as [|k IH]; intros c; [done|]. simpl in *. by rewrite <-IH. Qed.
Lemma climbed_add j k c : climbed (j + k) c = climbed k (climbed j c).
Proof. revert c. induction j as [|j IH]; intros c; [done|]. simpl. apply IH. Qed.
Lemma climbed_rtc member v : rtc climbs member v <-> exists k, climbed k (Some member) = Some v.
Proof.
  split.
  - induction 1 as [x|x y z Hxy _ [k IH]]; [by exists O|]. exists (S k). simpl. by rewrite Hxy.
  - intros [k Hk]. revert member Hk. induction k as [|k IH]; intros m Hk; simpl in Hk.
    + injection Hk as ->. done.
    + destruct (parent s m) as [p|] eqn:E; [|by rewrite climbed_none in Hk]. eapply rtc_l; [exact E|auto].
Qed.
Lemma parent_in v p : parent s v = Some p -> v ∈ map fst (nodes s).
Proof.
  unfold parent. destruct (List.find _ _) as [n|] eqn:E; [|done]. intros _.
  apply List.find_some in E as [Hin Hv%bool_decide_eq_true]. apply elem_of_map. exists n.
  split; [done|]. by apply list_elem_of_In.
Qed.

(** Still climbing means that every level so far was another department. *)
Lemma climb_going fuel c : climb s id Subtree fuel c = None <->
  forall k, (k <= fuel)%nat -> exists v, climbed k c = Some v /\ v <> id.
Proof.
  revert c. induction fuel as [|fuel IH]; intros [v|]; simpl.
  - case_bool_decide as Hv; [subst; split; [done|intros H; destruct (H O) as (? & [= <-] & ?); [lia|done]]|].
    split; [|done]. intros _ [|k] ?; [|lia]. by exists v.
  - split; [done|]. intros H. destruct (H O) as (? & ? & ?); [lia|done].
  - case_bool_decide as Hv.
    + subst. split; [done|]. intros H. destruct (H O) as (? & [= <-] & ?); [lia|done].
    + rewrite IH. split.
      * intros H [|k] Hk; [by exists v|]. simpl. apply H. lia.
      * intros H k Hk. apply (H (S k)). lia.
  - split; [done|]. intros H. destruct (H O) as (? & ? & ?); [lia|done].
Qed.
Lemma climb_done fuel c b : climb s id Subtree fuel c = Some b ->
  b = true <-> exists k, climbed k c = Some id.
Proof.
  revert c. induction fuel as [|fuel IH]; intros [v|]; simpl.
  - case_bool_decide as Hv; [|done]. intros [= <-]. subst. split; [by exists O|done].
  - intros [= <-]. split; [done|]. intros [k Hk]. by rewrite climbed_none in Hk.
  - case_bool_decide as Hv; [intros [= <-]; subst; split; [by exists O|done]|]. intros H.
    rewrite (IH _ H). split; [intros [k Hk]; by exists (S k)|].
    intros [[|k] Hk]; [simpl in Hk; congruence|]. by exists k.
  - intros [= <-]. split; [done|]. intros [k Hk]. by rewrite climbed_none in Hk.
Qed.
(** The first [n] levels as a list. *)
Lemma climbed_list n c : (forall k, (k < n)%nat -> is_Some (climbed k c)) ->
  exists l, length l = n /\ forall i, (i < n)%nat -> l !! i = climbed i c.
Proof.
  induction n as [|n IH]; intros H; [exists []; split; [done|lia]|].
  destruct IH as (l & Hl & Hg); [auto|]. destruct (H n) as [v Hv]; [lia|].
  exists (l ++ [v]). split; [rewrite length_app; simpl; lia|]. intros i Hi.
  destruct (decide (i = n)) as [->|]; [|rewrite lookup_app_l by lia; apply Hg; lia].
  by rewrite lookup_app_r, Hl, Nat.sub_diag by lia.
Qed.
(** More levels than departments: some department was seen twice. *)
Lemma climbed_repeats c : (forall k, (k <= climb_fuel s)%nat -> is_Some (climbed k c)) ->
  exists i j, (i < j <= length (nodes s))%nat /\ climbed i c = climbed j c.
Proof.
  intros H. destruct (climbed_list (climb_fuel s) c) as (l & Hlen & Hget); [auto with lia|].
  assert (~ NoDup l) as Hdup.
  { intros Hnd. assert (l ⊆+ map fst (nodes s)) as Hsub.
    { apply NoDup_submseteq; [done|]. intros v (i & Hi)%list_elem_of_lookup.
      pose proof (lookup_lt_Some _ _ _ Hi) as Hlt. rewrite Hlen in Hlt. rewrite Hget in Hi by done.
      destruct (H (S i)) as [p Hp]; [lia|]. rewrite climbed_S in Hp. rewrite Hi in Hp. simpl in Hp.
      by apply parent_in in Hp. }
    apply submseteq_length in Hsub. rewrite Hlen, length_map in Hsub. unfold climb_fuel in Hsub. lia. }
  destruct (decide (Exists (fun i => Exists (fun j => (i < j)%nat /\ climbed i c = climbed j c)
    (seq 0 (climb_fuel s))) (seq 0 (climb_fuel s)))) as [Hd|Hd].
  - apply Exists_exists in Hd as (i & _ & (j & [_ Hj]%elem_of_seq & Hij & Hc)%Exists_exists).
    exists i, j. unfold climb_fuel in *. split; [lia|done].
  - exfalso. apply Hdup. apply NoDup_alt. intros i j v Hi Hj.
    pose proof (lookup_lt_Some _ _ _ Hi). pose proof (lookup_lt_Some _ _ _ Hj). rewrite Hlen in *.
    rewrite Hget in Hi, Hj by done.
    assert (forall i j, (i < j < climb_fuel s)%nat -> climbed i c <> climbed j c) as Hne.
    { intros i' j' ? Hc. apply Hd. apply Exists_exists. exists i'. split; [apply elem_of_seq; lia|].
      apply Exists_exists. exists j'. split; [apply elem_of_seq; lia|]. split; [lia|done]. }
    destruct (Nat.lt_trichotomy i j) as [Hlt|[->|Hlt]]; [exfalso|done|exfalso].
    + apply (Hne i j); [lia|congruence].
    + apply (Hne j i); [lia|congruence].
Qed.
(** A loop longer than the number of departments never ends. *)
Lemma climb_forever c : climb s id Subtree (climb_fuel s) c = None -> forall fuel, climb s id Subtree fuel c = None.
Proof.
  rewrite climb_going. intros H fuel. apply climb_going. intros k _.
  destruct (climbed_repeats c) as (i & j & Hij & Heq).
  { intros k' Hk'. destruct (H k' Hk') as (v & Hv & _). by exists v. }
  assert (forall m, exists m', (m' <= length (nodes s))%nat /\ climbed m' c = climbed m c) as Hall.
  { intros m. induction m as [|m (m' & Hm' & Hc)]; [exists O; split; [lia|done]|].
    rewrite climbed_S, <-Hc, <-climbed_S.
    destruct (decide (S m' <= length (nodes s))%nat) as [Hle|Hle]; [exists (S m'); split; [exact Hle|done]|].
    exists (i + (S m' - j))%nat. split; [lia|]. rewrite climbed_add, Heq, <-climbed_add. f_equal. lia. }
  destruct (Hall k) as (m' & Hm' & Hc). rewrite <-Hc. apply H. unfold climb_fuel. lia.
Qed.
Lemma climb_exact fuel c : climb s id Exact fuel c = Some (bool_decide (c = Some id)).
Proof.
  destruct fuel, c as [v|]; simpl; try done; repeat case_bool_decide; naive_solver.
Qed.
Lemma climb_ancestor matching fuel member b :
  climb s id matching fuel (Some member) = Some b -> b = true <-> ancestor matching member.
Proof.
  destruct matching; simpl.
  - rewrite climb_exact. intros [= <-]. rewrite bool_decide_eq_true. naive_solver.
  - intros H. rewrite climbed_rtc. by apply (climb_done _ _ _ H).
Qed.
Lemma climb_any_ancestor matching fuel members b : climb_any s id matching fuel members = Some b ->
  b = true <-> exists member, member ∈ members /\ ancestor matching member.
Proof.
  induction members as [|m members IH]; simpl; [intros [= <-]; set_solver|].
  destruct (climb _ _ _ _ _) as [[]|] eqn:E; [| |done]; apply climb_ancestor in E.
  - intros [= <-]. split; [|done]. exists m. split; [by left|]. by apply E.
  - intros H. rewrite (IH H). split; [intros (x & ? & ?); exists x; split; [by right|done]|].
    intros (x & [->|?]%elem_of_cons & Hx); [|eauto]. by apply E in Hx.
Qed.
Lemma climb_any_forever matching members :
  climb_any s id matching (climb_fuel s) members = None <->
  exists before member after, members = before ++ member :: after /\
    (forall m, m ∈ before -> climb s id matching (climb_fuel s) (Some m) = Some false) /\
    forall fuel, climb s id matching fuel (Some member) = None.
Proof.
  induction members as [|m members IH]; cbn [climb_any].
  - split; [done|]. by intros ([] & ? & ? & ? & ?).
  - destruct (climb s id matching (climb_fuel s) (Some m)) as [[]|] eqn:E.
    + split; [done|]. intros ([|x before] & member & after & [= -> ->] & Hb & Hf); [by rewrite Hf in E|].
      rewrite Hb in E by (by left). done.
    + rewrite IH. split.
      * intros (before & member & after & -> & Hb & Hf). exists (m :: before), member, after.
        split; [done|]. split; [|done]. by intros x [->|]%elem_of_cons; auto.
      * intros ([|x before] & member & after & [= -> ->] & Hb & Hf); [by rewrite Hf in E|].
        exists before, member, after. split; [done|]. split; [|done]. intros; apply Hb. by right.
    + split; [|done]. intros _. exists [], m, members. split; [done|]. split; [set_solver|].
      destruct matching; [by rewrite climb_exact in E|]. by apply climb_forever.
Qed.
End Departments.

(** A directory whose chains all end always has an answer. *)
Lemma departments_end s : (forall m, m ∈ memberships s -> exists k, climbed s k (Some m) = None) ->
  forall id matching, department_matches s id matching <> None.
Proof.
  intros Hends id matching H. apply climb_any_forever in H as (before & m & after & Hm & _ & Hf).
  destruct (Hends m) as [k Hk]; [rewrite Hm; set_solver|].
  destruct matching; [specialize (Hf O); by rewrite climb_exact in Hf|].
  specialize (Hf k). rewrite climb_going in Hf. destruct (Hf k) as (v & Hv & _); [lia|congruence].
Qed.

(** ** Decisions *)
Section Decisions.
Context `{OI : ObservationId} `{UL : UrlCrate} `{UC : UuidCrate} `{UT : !UuidText}
  `{IC : !IdentityCrate} (clock : nat -> Z).
Implicit Types (s : Snapshot) (f : SubjectFacts) (p : Principal) (op : Permission) (n : nat) (t : Z)
  (target : option rstr).

(** A provider answers with a list of the right source that is not expired at [t]. *)
Definition answers {A} (source : Source) (answer : option (option (Verified A))) t
    (v : Verified A) (a : A) : Prop :=
  answer = Some (Some v) /\ Source_matches source (vf_provider v) (vf_issuer v) (vf_config v) = true /\
  vf_values v t = Values a.
(** A subject holds of an identity whose facts are obtained at [t1] and read at [t2]. *)
Inductive Holds s f t1 t2 : Subject -> option Observation -> Prop :=
| Holds_User : Holds s f t1 t2 (Subject_User (facts_user f)) None
| Holds_UserGroup g ug : g ∈ groups s -> rv_value g = Some ug -> enabled ug = true ->
    facts_user f ∈ members ug -> Holds s f t1 t2 (Subject_UserGroup (rv_id g)) None
| Holds_IdpGroup source id v values : answers source (facts_groups f t1) t2 v values -> id ∈ values ->
    Holds s f t1 t2 (Subject_IdpGroup source id)
      (Some (mk_Observation (vf_snapshot v) (vf_observed_at v) (vf_expires_at v) None))
| Holds_Department source id matching v d member :
    answers source (facts_departments f t1) t2 v d -> member ∈ memberships d -> ancestor d id matching member ->
    Holds s f t1 t2 (Subject_Department source id matching)
      (Some (mk_Observation (vf_snapshot v) (vf_observed_at v) (vf_expires_at v) (Some (source_revision d)))).

(** What an operation needs: a key, an initialization or a rule whose grant covers it. *)
Definition Authorized s p op target t1 t2 : Prop :=
  match proof p with
  | Auth_ApiKey c => exists key,
      List.find (fun k => bool_decide (key_id k = kp_id c)) (keys s) = Some key /\
      credential_revision key = kp_credential_revision c /\ authority_revision key = kp_authority_revision c /\
      revoked key = false /\ key_enabled (metadata key) = true /\
      any_covers (key_grants (metadata key)) op target = true
  | Auth_Initialization a _ => exists grants,
      Authority_grants a s = Ok grants /\ any_covers grants op target = true
  | Auth_Account session => exists record rule o, record ∈ rules s /\ rv_value record = Some rule /\
      any_covers (grants rule) op target = true /\ Holds s (Authenticated session) t1 t2 (subject rule) o
  end.
Definition installed s p op : Prop := exists i, installation s = Some i /\
  require_identity i (actor_instance (actor p)) (actor_tenant (actor p)) op = Ok ().
Definition named target : bool := match target with Some d => observation_id d | None => true end.

Lemma check_live_ok p n u n' : check_live clock p n = (Ok u, n') <-> live p (clock n) = true /\ n' = S n.
Proof.
  unfold check_live. rewrite timed_bind_ok. split.
  - intros (t & n1 & Ho & H). inv_timed. bool_hyps. done.
  - intros [Hl ->]. exists (clock n), (S n). split; [done|]. apply test_ok. by rewrite Hl.
Qed.
Lemma provider_values_ok {A} source (answer : option (option (Verified A))) n r n' :
  provider_values clock source answer n = (Ok r, n') -> (n <= n' <= S n)%nat /\
  match r with
  | Some (v, a) => n' = S n /\ answers source answer (clock n) v a
  | None => forall v a t, answers source answer t v a -> vf_values v (clock n) = SnapshotExpired
  end.
Proof.
  unfold provider_values. intros H. inv_timed. apply ok_or_ok in E. subst.
  unfold answers. destruct a as [v|]; [|inv_timed; split; [lia|by intros ? ? ? (? & _)]].
  destruct (Source_matches _ _ _ _) eqn:Em; simpl in H;
    [|inv_timed; split; [lia|intros ? ? ? ([= <-] & ? & _); congruence]].
  apply timed_bind_ok in H as (t & n1 & Ho & H). inv_timed.
  destruct (vf_values v (clock n)) eqn:Ev; inv_timed; split; try lia; [done|].
  by intros ? ? ? ([= <-] & _ & _).
Qed.
Lemma group_holds_iff s id u : group_holds s id u = true <->
  exists g ug, g ∈ groups s /\ rv_id g = id /\ rv_value g = Some ug /\ enabled ug = true /\ u ∈ members ug.
Proof.
  unfold group_holds. rewrite existsb_true_iff. split.
  - intros (g & Hg & H). destruct (rv_value g) as [ug|] eqn:E; bool_hyps; [|done]. eauto 10.
  - intros (g & ug & Hg & <- & E & He & Hm). exists g. split; [done|]. rewrite E, He.
    by rewrite !bool_decide_eq_true_2.
Qed.
(** A match is justified by facts read between the two counts. *)
Lemma matches_facts_holds s f subject n r n' : matches_facts clock s f subject n = (Ok r, n') ->
  (n <= n')%nat /\ forall o, r = Some o ->
  exists i j, (n <= i <= n')%nat /\ (n <= j <= n')%nat /\ Holds s f (clock i) (clock j) subject o.
Proof.
  destruct subject as [u|source id|source id matching|id]; unfold matches_facts; intros H.
  - inv_timed. split; [done|]. intros o. case_bool_decide; [|done]. intros [= <-]. subst.
    exists n, n. split_and!; [lia..|apply Holds_User].
  - apply timed_bind_ok in H as (t & n1 & [= <- <-] & H).
    apply timed_bind_ok in H as (found & n2 & Hf & H). inv_timed.
    apply provider_values_ok in Hf as [Hn Hr]. destruct found as [[v values]|]; [|split; [lia|done]].
    destruct Hr as [-> Ha]. split; [lia|]. intros o. case_bool_decide; [|done]. intros [= <-].
    exists n, (S n). split_and!; [lia..|]. by apply Holds_IdpGroup with values.
  - apply timed_bind_ok in H as (t & n1 & [= <- <-] & H).
    apply timed_bind_ok in H as (found & n2 & Hf & H).
    apply provider_values_ok in Hf as [Hn Hr]. destruct found as [[v d]|]; inv_timed; [|split; [lia|done]].
    destruct Hr as [-> Ha]. apply or_panic_ok in E. split; [lia|]. intros o. destruct a; [|done]. intros [= <-].
    apply climb_any_ancestor in E. destruct (proj1 E eq_refl) as (m & Hm & Hanc).
    exists n, (S n). split_and!; [lia..|]. by apply Holds_Department with m.
  - inv_timed. split; [done|]. intros o. destruct (group_holds _ _ _) eqn:Eg; [|done]. intros [= <-].
    apply group_holds_iff in Eg as (g & ug & Hg & <- & ?&?&?). exists n, n. split_and!; [lia..|]. by apply Holds_UserGroup with ug.
Qed.
Lemma find_ok {A} (q : A -> bool) l a : List.find q l = Some a -> a ∈ l /\ q a = true.
Proof. intros H. apply List.find_some in H as [? ?]. split; [by apply list_elem_of_In|done]. Qed.
Lemma Snapshot_key_ok s p n r n' : Snapshot_key clock s p n = (Ok r, n') ->
  live p (clock n) = true /\ n' = S n /\
  match proof p with
  | Auth_ApiKey c => exists key, r = Some key /\
      List.find (fun k => bool_decide (key_id k = kp_id c)) (keys s) = Some key /\
      credential_revision key = kp_credential_revision c /\ authority_revision key = kp_authority_revision c /\
      revoked key = false /\ key_enabled (metadata key) = true
  | _ => r = None
  end.
Proof.
  unfold Snapshot_key, key_proof. rewrite timed_bind_ok. intros (u & n1 & Hl & H).
  apply check_live_ok in Hl as [Hl ->]. destruct (proof p); inv_timed; split; try done; split; try done.
  apply ok_or_ok in E. bool_hyps. eauto 10.
Qed.
Lemma effective_initialization s p a d n r n' : proof p = Auth_Initialization a d ->
  effective clock s p n = (Ok r, n') ->
  live p (clock n) = true /\ n' = S n /\ Authority_grants a s = Ok (map eg_grant r) /\
  forall g, g ∈ r -> observation g = None /\ rule_id g = rc_id (au_rule a) /\ eg_subject g = Subject_User (au_user a).
Proof.
  intros Hp. unfold effective, initialization_authority. rewrite Hp, timed_bind_ok.
  intros (u & n1 & Hl & H). apply check_live_ok in Hl as [Hl ->]. inv_timed.
  unfold Authority_effective in H. apply bind_ok in H as (gs & Hg & H). injection H as <-.
  split_and!; try done.
  - rewrite Hg. f_equal. rewrite map_map. simpl. by rewrite map_id.
  - intros g (x & <- & _)%elem_of_map. done.
Qed.
(** The rule loop succeeds on a rule that covers and holds, with a live proof at the end. *)
Lemma require_rules_ok s p op target l n u n' : require_rules clock s p op target l n = (Ok u, n') ->
  (n < n')%nat /\ live p (clock (pred n')) = true /\ exists session record rule o i j,
  proof p = Auth_Account session /\ record ∈ l /\ rv_value record = Some rule /\
  any_covers (grants rule) op target = true /\ (n <= i < n')%nat /\ (n <= j < n')%nat /\
  Holds s (Authenticated session) (clock i) (clock j) (subject rule) o.
Proof.
  revert n. induction l as [|record l IH]; intros n H; simpl in H; [by apply fail_ok in H|].
  assert (forall m, (n <= m)%nat -> require_rules clock s p op target l m = (Ok u, n') ->
    (n < n')%nat /\ live p (clock (pred n')) = true /\ exists session record' rule o i j,
    proof p = Auth_Account session /\ record' ∈ record :: l /\ rv_value record' = Some rule /\
    any_covers (grants rule) op target = true /\ (n <= i < n')%nat /\ (n <= j < n')%nat /\
    Holds s (Authenticated session) (clock i) (clock j) (subject rule) o) as Hrest.
  { intros m Hm Hr. apply IH in Hr as (? & ? & session & record' & rule & o & i & j & ? & ? & ? & ? & ? & ? & ?).
    split_and!; [lia|done|]. exists session, record', rule, o, i, j. split_and!; try done; try lia. by right. }
  destruct (rv_value record) as [rule|] eqn:Ev; [|by apply (Hrest n)].
  destruct (any_covers (grants rule) op target) eqn:Ec; [|by apply (Hrest n)].
  apply timed_bind_ok in H as (m & n1 & Hm & H). unfold matches in Hm.
  apply timed_bind_ok in Hm as (sess & n0 & [Hs ->]%lift_ok & Hm). unfold session in Hs.
  destruct (proof p) as [sess'| |] eqn:Ep; try done. injection Hs as ->.
  apply matches_facts_holds in Hm as [Hn Hm]. destruct m as [o|]; [|by apply (Hrest n1)].
  apply check_live_ok in H as [Hl ->]. destruct (Hm o eq_refl) as (i & j & Hi & Hj & Ho).
  split_and!; [lia|done|]. exists sess, record, rule, o, i, j. split_and!; try done; try lia. by left.
Qed.
End Decisions.
