(* ===== verification/AccessProperties.v ===== *)
(** * Access control: properties

    Decisions are sound at the instants they observe and exact while a proof is steady;
    listings agree with decisions; permissions have ceilings; the department climb ends. *)
From S2P Require Import Prelude Ordered Text External AccessModel AccessEvaluate AccessSpec.

Section Properties.
Context `{OI : ObservationId} `{UL : UrlCrate} `{UC : UuidCrate} `{UT : !UuidText}
  `{IC : !IdentityCrate} (clock : nat -> Z).
Implicit Types (s : Snapshot) (f : SubjectFacts) (p : Principal) (op : Permission) (n : nat) (t : Z)
  (target : option rstr).

(** ** Steady proofs *)
(** A provider answer that is not about to fail: [ends] says its values can be searched. *)
Definition settled {A} (answer : option (option (Verified A))) t (ends : A -> Prop) : Prop :=
  match answer with
  | None => False
  | Some None => True
  | Some (Some v) => match vf_values v t with Values a => ends a | SnapshotExpired => True | ProofExpired => False end
  end.
Definition settled_facts f t : Prop :=
  settled (facts_groups f t) t (fun _ => True) /\
  settled (facts_departments f t) t (fun d => forall id matching, department_matches d id matching <> None).
(** The proof is live and its facts are settled at every instant of the decision. *)
Record steady p t : Prop := {
  sd_clock : forall i, clock i = t;
  sd_live : live p t = true;
  sd_facts : forall session, proof p = Auth_Account session -> settled_facts (Authenticated session) t
}.

Lemma provider_values_steady {A} source (answer : option (option (Verified A))) t ends n :
  (forall i, clock i = t) -> settled answer t ends -> exists r n',
  provider_values clock source answer n = (Ok r, n') /\
  forall v a, r = Some (v, a) <-> answers source answer t v a /\ ends a.
Proof.
  intros Hc Hs. unfold provider_values, answers, settled in *. destruct answer as [[v|]|]; [| |done].
  - unfold mbind, timed_bind, lift. simpl. destruct (Source_matches _ _ _ _) eqn:Em; simpl.
    + rewrite Hc. destruct (vf_values v t) as [a| |] eqn:Ev; [| |done]; eexists _, _; (split; [reflexivity|]).
      * intros v' a'. split; [intros [= <- <-]; naive_solver|]. intros [([= <-] & _ & ?) _]. congruence.
      * intros v' a'. split; [done|]. intros [([= <-] & _ & ?) _]. congruence.
    + eexists _, _. split; [reflexivity|]. intros v' a'. split; [done|]. intros [([= <-] & ? & _) _]. congruence.
  - eexists _, _. split; [reflexivity|]. intros v' a'. split; [done|]. by intros [(? & _) _].
Qed.
Lemma matches_steady s f subject t n : (forall i, clock i = t) -> settled_facts f t ->
  exists r n', matches_facts clock s f subject n = (Ok r, n') /\ forall o, r = Some o <-> Holds s f t t subject o.
Proof.
  intros Hc [Hg Hd]. destruct subject as [u|source id|source id matching|id]; unfold matches_facts.
  - eexists _, _. split; [reflexivity|]. intros o. case_bool_decide as Hu.
    + subst. split; [intros [= <-]; apply Holds_User|]. intros H. inversion H. done.
    + split; [done|]. intros H. inversion H. done.
  - destruct (provider_values_steady source (facts_groups f t) t (fun _ => True) (S n)) as (r & n' & Hr & Hv); [done..|].
    unfold mbind, timed_bind, observe. rewrite Hc, Hr. eexists _, _. split; [reflexivity|]. intros o. split.
    + destruct r as [[v values]|]; [|done]. case_bool_decide; [|done]. intros [= <-].
      apply Holds_IdpGroup with values; [|done]. by apply Hv.
    + intros H. inversion H as [| |? ? v values Ha Hin|]; subst. rewrite (proj2 (Hv v values)) by done.
      by rewrite bool_decide_eq_true_2.
  - destruct (provider_values_steady source (facts_departments f t) t
      (fun d => forall id matching, department_matches d id matching <> None) (S n)) as (r & n' & Hr & Hv); [done..|].
    unfold mbind, timed_bind, observe. rewrite Hc, Hr. destruct r as [[v d]|].
    + destruct (proj1 (Hv v d) eq_refl) as [Ha Hends].
      destruct (department_matches d id matching) as [b|] eqn:Eb; [|by apply Hends in Eb]. simpl.
      pose proof (climb_any_ancestor _ _ _ _ _ _ Eb) as Hanc. eexists _, _. split; [reflexivity|]. intros o. split.
      * destruct b; [|done]. intros [= <-]. destruct (proj1 Hanc eq_refl) as (m & ? & ?).
        by apply Holds_Department with m.
      * intros H. inversion H as [| | |? ? ? v' d' m Ha' Hm Hmm]; subst. destruct Ha as (E1 & _ & E2), Ha' as (E1' & _ & E2').
        rewrite E1 in E1'. injection E1' as <-. rewrite E2 in E2'. injection E2' as <-.
        by rewrite (proj2 Hanc) by eauto.
    + eexists _, _. split; [reflexivity|]. intros o. split; [done|].
      intros H. inversion H as [| | |? ? ? v' d' m Ha Hm Hmm]; subst. exfalso.
      assert (forall id matching, department_matches d' id matching <> None) as Hends.
      { unfold settled in Hd. destruct Ha as (Ea & _ & Ha). by rewrite Ea, Ha in Hd. }
      discriminate (proj2 (Hv v' d') (conj Ha Hends)).
  - eexists _, _. split; [reflexivity|]. intros o. destruct (group_holds _ _ _) eqn:Eg.
    + apply group_holds_iff in Eg as (g & ug & Hg' & <- & ?&?&?). split.
      * intros [= <-]. by apply Holds_UserGroup with ug.
      * intros Ho. inversion Ho. done.
    + split; [done|]. intros H. inversion H; subst. exfalso. apply not_true_iff_false in Eg. apply Eg.
      apply group_holds_iff. eauto 10.
Qed.
Lemma check_live_steady p t n : (forall i, clock i = t) -> live p t = true -> check_live clock p n = (Ok (), S n).
Proof. intros Hc Hl. unfold check_live, mbind, timed_bind, observe. rewrite Hc, Hl. done. Qed.
Lemma require_rules_steady s p op target sess t l n : steady p t -> proof p = Auth_Account sess ->
  (require_rules clock s p op target l n).1 = Ok () <->
  exists record rule o, record ∈ l /\ rv_value record = Some rule /\ any_covers (grants rule) op target = true /\
    Holds s (Authenticated sess) t t (subject rule) o.
Proof.
  intros [Hc Hl Hf] Hp. revert n. induction l as [|record l IH]; intros n; simpl.
  { split; [done|]. intros (? & ? & ? & ?%elem_of_nil & _). done. }
  assert (forall n, (require_rules clock s p op target l n).1 = Ok () ->
    exists record' rule o, record' ∈ record :: l /\ rv_value record' = Some rule /\
    any_covers (grants rule) op target = true /\ Holds s (Authenticated sess) t t (subject rule) o) as Hfwd.
  { intros m (r & rule & o & ? & ? & ? & ?)%IH. exists r, rule, o. split; [by right|done]. }
  assert (forall r rule o, r ∈ record :: l -> r <> record -> rv_value r = Some rule ->
    any_covers (grants rule) op target = true -> Holds s (Authenticated sess) t t (subject rule) o ->
    forall n, (require_rules clock s p op target l n).1 = Ok ()) as Hbwd.
  { intros r rule o [->|Hr]%elem_of_cons Hne ? ? ? m; [done|]. apply IH. eauto 10. }
  clear IH. destruct (rv_value record) as [rule|] eqn:Ev.
  2:{ split; [apply Hfwd|]. intros (r & rule & o & Hr & Hv & Hcov & Ho). eapply (Hbwd r); [exact Hr|intros ->; congruence|done..]. }
  destruct (any_covers (grants rule) op target) eqn:Ec.
  2:{ split; [apply Hfwd|]. intros (r & rule' & o & Hr & Hv & Hcov & Ho). eapply (Hbwd r); [exact Hr|intros ->; congruence|done..]. }
  unfold matches, session. rewrite Hp.
  destruct (matches_steady s (Authenticated sess) (subject rule) t n) as (m & n' & Hm & Hh); [done|auto|].
  unfold mbind, timed_bind, lift. simpl. rewrite Hm. destruct m as [o|].
  - rewrite (check_live_steady p t) by done. split; [|done]. intros _. exists record, rule, o.
    split_and!; try done; [by left|]. by apply Hh.
  - split; [apply Hfwd|]. intros (r & rule' & o & Hr & Hv & Hcov & Ho).
    apply (Hbwd r rule' o); try done. intros ->. rewrite Ev in Hv. injection Hv as ->. by apply Hh in Ho.
Qed.
(** ** Listings *)
Lemma covers_device g op d : covers g op (Some d) = true <->
  operation g = op /\ (scope g = AllDevices \/ scope g = Device d).
Proof.
  unfold covers. rewrite andb_true_iff, bool_decide_eq_true. destruct (scope g); rewrite ?bool_decide_eq_true; naive_solver.
Qed.
Lemma any_covers_device l op d : any_covers l op (Some d) = true <->
  existsb (is_all op) l = true \/ exists g, g ∈ l /\ operation g = op /\ scope g = Device d.
Proof.
  unfold any_covers. rewrite !existsb_true_iff. setoid_rewrite covers_device. unfold is_all.
  setoid_rewrite andb_true_iff. setoid_rewrite bool_decide_eq_true. naive_solver.
Qed.
Lemma device_cons g l op d : (exists x, x ∈ g :: l /\ operation x = op /\ scope x = Device d) <->
  (operation g = op /\ scope g = Device d) \/ exists x, x ∈ l /\ operation x = op /\ scope x = Device d.
Proof.
  split.
  - intros (x & [->|Hx]%elem_of_cons & H); [by left|]. right. by exists x.
  - intros [H|(x & Hx & H)]; [exists g|exists x]; (split; [|done]); [by left|by right].
Qed.
(** What the grants of one rule add to a listing, when none of them is tenant-wide. *)
Lemma devices_grants_ok op l acc : (forall g, g ∈ l -> operation g = op -> scope g <> Tenant) ->
  exists acc', res_for (devices_grant op) l acc = Ok acc' /\
    (acc'.1 = true <-> acc.1 = true \/ existsb (is_all op) l = true) /\
    forall d, d ∈ acc'.2 <-> d ∈ acc.2 \/ exists g, g ∈ l /\ operation g = op /\ scope g = Device d.
Proof.
  revert acc. induction l as [|g l IH]; intros acc Hl; simpl.
  { exists acc. split; [done|]. split; [naive_solver|]. intros d. split; [by left|].
    by intros [?|(? & ?%elem_of_nil & _)]. }
  destruct (decide (operation g = op)) as [Hop|Hop].
  - assert (is_all op g = bool_decide (scope g = AllDevices)) as -> by (unfold is_all; by rewrite bool_decide_eq_true_2).
    assert (devices_grant op acc g = match scope g with
      | AllDevices => Ok (true, acc.2) | Device id => Ok (acc.1, bs_insert id acc.2) | Tenant => Err Forbidden end)
      as -> by (unfold devices_grant; by rewrite bool_decide_eq_true_2).
    destruct (scope g) as [| |id] eqn:Esc; [by destruct (Hl g ltac:(by left) Hop)|..]; simpl.
    + destruct (IH (true, acc.2)) as (acc' & -> & Ha & Hd); [intros; apply Hl; [by right|done]|].
      exists acc'. split; [done|]. split; [naive_solver|]. intros d. rewrite Hd, device_cons, Esc. simpl.
      intuition congruence.
    + destruct (IH (acc.1, bs_insert id acc.2)) as (acc' & -> & Ha & Hd); [intros; apply Hl; [by right|done]|].
      exists acc'. split; [done|]. split; [naive_solver|]. intros d. rewrite Hd, device_cons, Esc. simpl.
      rewrite elem_of_bs_insert. intuition congruence.
  - assert (is_all op g = false) as -> by (unfold is_all; by rewrite bool_decide_eq_false_2).
    assert (devices_grant op acc g = Ok acc) as -> by (unfold devices_grant; by rewrite bool_decide_eq_false_2).
    simpl. destruct (IH acc) as (acc' & -> & Ha & Hd); [intros; apply Hl; [by right|done]|].
    exists acc'. split; [done|]. split; [naive_solver|]. intros d. rewrite Hd, device_cons. intuition congruence.
Qed.
Definition justified s sess t (l : list (Revision Rule)) (q : list Grant -> Prop) : Prop :=
  exists record rule o, record ∈ l /\ rv_value record = Some rule /\
    Holds s (Authenticated sess) t t (subject rule) o /\ q (grants rule).
Lemma justified_nil s sess t q : ~ justified s sess t [] q.
Proof. by intros (? & ? & ? & ?%elem_of_nil & _). Qed.
Lemma justified_cons s sess t record l q : justified s sess t (record :: l) q <->
  (exists rule o, rv_value record = Some rule /\ Holds s (Authenticated sess) t t (subject rule) o /\ q (grants rule))
  \/ justified s sess t l q.
Proof.
  split.
  - intros (r & rule & o & [->|Hr]%elem_of_cons & H); [left; by exists rule, o|right; by exists r, rule, o].
  - intros [(rule & o & H)|(r & rule & o & Hr & H)]; [exists record, rule, o|exists r, rule, o];
      (split; [|done]); [by left|by right].
Qed.
(** One step of the loop over rules. *)
Lemma devices_rule_ok s p op sess t acc record n : steady p t -> proof p = Auth_Account sess ->
  (forall rule g, rv_value record = Some rule -> g ∈ grants rule -> operation g = op -> scope g <> Tenant) ->
  exists acc' n', devices_rule clock s p op acc record n = (Ok acc', n') /\
    (acc'.1 = true <-> acc.1 = true \/ exists rule o, rv_value record = Some rule /\
       Holds s (Authenticated sess) t t (subject rule) o /\ existsb (is_all op) (grants rule) = true) /\
    forall d, d ∈ acc'.2 <-> d ∈ acc.2 \/ exists rule o, rv_value record = Some rule /\
       Holds s (Authenticated sess) t t (subject rule) o /\
       exists g, g ∈ grants rule /\ operation g = op /\ scope g = Device d.
Proof.
  intros [Hc Hl Hf] Hp Hgr. unfold devices_rule. destruct (rv_value record) as [rule|] eqn:Ev.
  2:{ exists acc, n. split; [done|]. split; [|intros d]; split; try (by left); by intros [?|(? & ? & ? & _)]. }
  unfold matches, session. rewrite Hp.
  destruct (matches_steady s (Authenticated sess) (subject rule) t n) as (m & n' & Hm & Hh); [done|auto|].
  unfold mbind, timed_bind, lift. simpl. rewrite Hm. destruct m as [o|].
  - destruct (devices_grants_ok op (grants rule) acc) as (acc' & -> & Ha & Hd); [intros g; by apply Hgr|].
    exists acc', n'. split; [done|]. pose proof (proj1 (Hh o) eq_refl) as Ho.
    split; [rewrite Ha|intros d; rewrite Hd]; (split; [intros [?|H]; [by left|right; exists rule, o; done]|
      intros [?|(rule' & o' & [= <-] & _ & H)]; [by left|by right]]).
  - exists acc, n'. split; [done|].
    split; [|intros d]; split; try (by left); (intros [?|(rule' & o & [= <-] & Ho & _)]; [done|by apply Hh in Ho]).
Qed.
Lemma devices_rules_ok s p op sess t l acc n : steady p t -> proof p = Auth_Account sess ->
  (forall record rule g, record ∈ l -> rv_value record = Some rule -> g ∈ grants rule ->
     operation g = op -> scope g <> Tenant) ->
  exists acc' n', timed_for (devices_rule clock s p op) l acc n = (Ok acc', n') /\
    (acc'.1 = true <-> acc.1 = true \/ justified s sess t l (fun gs => existsb (is_all op) gs = true)) /\
    forall d, d ∈ acc'.2 <-> d ∈ acc.2 \/
      justified s sess t l (fun gs => exists g, g ∈ gs /\ operation g = op /\ scope g = Device d).
Proof.
  intros Hst Hp. revert acc n. induction l as [|record l IH]; intros acc n Hgr; simpl.
  { exists acc, n. split; [done|]. split; [|intros d]; split; try (by left); (intros [?|[]%justified_nil]; done). }
  destruct (devices_rule_ok s p op sess t acc record n) as (acc1 & n1 & E1 & Ha1 & Hd1); [done|done| |].
  { intros rule g. apply Hgr. by left. }
  destruct (IH acc1 n1) as (acc' & n' & E & Ha & Hd); [intros r rule g Hr; apply Hgr; by right|].
  exists acc', n'. unfold mbind at 1, timed_bind at 1. rewrite E1. split; [done|].
  split; [rewrite Ha, Ha1|intros d; rewrite Hd, Hd1]; rewrite justified_cons; tauto.
Qed.

(** ** Well-formed snapshots *)
Lemma res_for_unit {A} (check : A -> ares ()) l u : res_for (fun _ a => check a) l () = Ok u ->
  forall a, a ∈ l -> check a = Ok ().
Proof.
  induction l as [|b l IH]; simpl; intros H a Ha; [by apply elem_of_nil in Ha|].
  apply bind_ok in H as ([] & Hb & H). apply elem_of_cons in Ha as [->|Ha]; auto.
Qed.
Lemma grants_valid allowed l u : grants_validate allowed l = Ok u ->
  forall g, g ∈ l -> Grant_validate g = Ok () /\ allowed (operation g) = true.
Proof.
  unfold grants_validate. intros H. apply bind_ok in H as (? & _ & H). apply bind_ok in H as (seen & H & _).
  revert H. generalize (@nil Grant) at 1. induction l as [|g l IH]; intros earlier H g' Hg'; [by apply elem_of_nil in Hg'|].
  simpl in H. apply bind_ok in H as (e' & Hstep & H). unfold grant_step in Hstep. inv_ok.
  destruct a. bool_hyps. apply elem_of_cons in Hg' as [->|Hg']; [done|]. by eapply IH.
Qed.
Lemma grant_valid_scope g u : Grant_validate g = Ok u ->
  (scope g = Tenant <-> device (operation g) = false).
Proof.
  unfold Grant_validate. intros H. apply bind_ok in H as (v & Hr & _). apply reject_ok in Hr.
  destruct (device _), (decide (scope g = Tenant)) as [E|E];
    rewrite ?(bool_decide_eq_true_2 _ E), ?(bool_decide_eq_false_2 _ E) in Hr; done.
Qed.
Lemma snapshot_rules_valid s tenant inst u : Snapshot_validate s tenant inst = Ok u ->
  forall record rule, record ∈ rules s -> rv_value record = Some rule -> Rule_validate rule tenant inst = Ok ().
Proof.
  unfold Snapshot_validate. intros H record rule Hr Hv.
  apply bind_ok in H as (? & _ & H). apply bind_ok in H as (? & _ & H). apply bind_ok in H as ([] & H & _).
  pose proof (res_for_unit _ _ _ H record Hr) as Hc. unfold revision_check in Hc. rewrite Hv in Hc. inv_ok.
  unfold corrupt in Hc. by destruct (Rule_validate rule tenant inst) as [[]| |].
Qed.
Lemma snapshot_keys_valid s tenant inst u : Snapshot_validate s tenant inst = Ok u ->
  forall k, k ∈ keys s -> KeyMetadata_validate (metadata k) = Ok ().
Proof.
  unfold Snapshot_validate. intros H k Hk.
  apply bind_ok in H as (? & _ & H). apply bind_ok in H as ([] & H & _).
  pose proof (res_for_unit _ _ _ H k Hk) as Hc. unfold key_check in Hc. inv_ok.
  unfold corrupt in E0. destruct (KeyMetadata_validate _) as [[]| |] eqn:Ek; done.
Qed.
Lemma rule_grants_valid rule tenant inst u : Rule_validate rule tenant inst = Ok u ->
  forall g, g ∈ grants rule -> (scope g = Tenant <-> device (operation g) = false).
Proof.
  unfold Rule_validate. intros H g Hg. apply bind_ok in H as (? & _ & H).
  destruct (grants_valid _ _ _ H g Hg) as [Hv _]. by eapply grant_valid_scope.
Qed.
Lemma key_grants_valid k u : KeyMetadata_validate k = Ok u ->
  forall g, g ∈ key_grants k -> (scope g = Tenant <-> device (operation g) = false) /\ api_key_allowed (operation g) = true.
Proof.
  unfold KeyMetadata_validate. intros H g Hg. apply bind_ok in H as (? & _ & H). apply bind_ok in H as (? & _ & H).
  destruct (grants_valid _ _ _ H g Hg) as [Hv ?]. split; [by eapply grant_valid_scope|done].
Qed.
Lemma authority_grants_ok a s gs : Authority_grants a s = Ok gs ->
  exists record rule, record ∈ rules s /\ rv_id record = rc_id (au_rule a) /\
    rv_revision record = rc_revision (au_rule a) /\ rv_value record = Some rule /\
    subject rule = Subject_User (au_user a) /\
    (forall g, g ∈ gs -> g ∈ grants rule /\ operation g ∈ PERMISSIONS) /\
    forall q, q ∈ PERMISSIONS -> mk_Grant q (natural_scope q) ∈ gs.
Proof.
  unfold Authority_grants. intros H. apply bind_ok in H as (record & Hr & H). apply ok_or_ok in Hr.
  apply find_ok in Hr as [Hr Hid]. bool_hyps. apply bind_ok in H as (rule & Hv & H). apply ok_or_ok in Hv.
  apply bind_ok in H as (u & Hs & H). apply reject_ok in Hs. apply bind_ok in H as ([] & Hall & H). injection H as <-.
  exists record, rule. split_and!; try done.
  - destruct (subject rule); try done. bool_hyps. by subst.
  - intros g Hg. apply list_elem_of_In, List.filter_In in Hg as [Hg ?]. bool_hyps. split; [by apply list_elem_of_In|done].
  - intros q Hq. pose proof (res_for_unit _ _ _ Hall q Hq) as Hc. apply reject_ok in Hc. bool_hyps.
    match goal with H : existsb _ _ = true |- _ => apply existsb_true_iff in H as ([o sc] & Hg & Ho) end.
    simpl in Ho. bool_hyps. by subst.
Qed.

(** What an admitted operation rests on. *)
Lemma require_justified s p op target n n' :
  require clock s p op target n = (Ok (), n') ->
  installed s p op /\ named target = true /\ (n < n')%nat /\ live p (clock (pred n')) = true /\
  exists i j, (n <= i < n')%nat /\ (n <= j < n')%nat /\ Authorized s p op target (clock i) (clock j).
Proof.
  unfold require. intros H. apply timed_bind_ok in H as (i & n0 & [Hi ->]%lift_ok & H). apply ok_or_ok in Hi.
  apply timed_bind_ok in H as ([] & n1 & Hr & H). apply map_err_ok in Hr. unfold installation_require in Hr.
  apply timed_bind_ok in Hr as ([] & n2 & [_ ->]%check_live_ok & [Hr ->]%lift_ok).
  apply timed_bind_ok in H as ([] & n3 & [_ ->]%check_live_ok & H).
  apply timed_bind_ok in H as (u & n4 & [Hn ->]%test_ok & H).
  apply timed_bind_ok in H as (key & n5 & (Hl & -> & Hk)%Snapshot_key_ok & H).
  split; [by exists i|]. split; [destruct target; [by apply negb_false_iff in Hn|done]|].
  unfold Authorized. destruct (proof p) as [sess|c|a d] eqn:Ep.
  - subst key. unfold initialization_authority in H. rewrite Ep in H.
    apply require_rules_ok in H as (? & ? & sess' & record & rule & o & k & l & Hs & ? & ? & ? & ? & ? & ?).
    rewrite Ep in Hs. injection Hs as <-. split; [lia|]. split; [done|]. exists k, l. split_and!; try lia. eauto 10.
  - destruct Hk as (k & -> & Hf & Hk). apply test_ok in H as [H ->]. apply negb_false_iff in H.
    split; [lia|]. split; [done|]. exists n, n. split_and!; try lia. exists k. naive_solver.
  - subst key. unfold initialization_authority in H. rewrite Ep in H.
    apply timed_bind_ok in H as (r & n6 & Hr' & H). apply test_ok in H as [H ->]. apply negb_false_iff in H.
    apply (effective_initialization clock s p a d) in Hr' as (Hl' & -> & Hg & _); [|done].
    split; [lia|]. split; [done|]. exists n, n. split_and!; try lia. by exists (map eg_grant r).
Qed.

(** C18: an admitted operation is authorized. Whatever the clock does between the checks, when
    [require] succeeds the installation allows the permission to the tenant, the proof was
    live at the last instant read, and at instants of this very evaluation the operation was
    covered: by the current stored key of the proof, by the unchanged initialization rule, or by
    a rule whose subject held. *)
Theorem require_sound s p op target n n' :
  require clock s p op target n = (Ok (), n') ->
  installed s p op /\ named target = true /\ (n < n')%nat /\ live p (clock (pred n')) = true /\
  exists i j, (n <= i < n')%nat /\ (n <= j < n')%nat /\ Authorized s p op target (clock i) (clock j).
Proof. apply require_justified. Qed.

Lemma Snapshot_key_steady s p t n : steady p t -> Snapshot_key clock s p n =
  (match proof p with
   | Auth_ApiKey c =>
       key ← ok_or (List.find (fun k => bool_decide (key_id k = kp_id c)) (keys s)) Unauthorized;
       _ ← reject (negb (credential_revision key =? kp_credential_revision c)
                   || negb (authority_revision key =? kp_authority_revision c)
                   || revoked key || negb (key_enabled (metadata key))) Unauthorized;
       Ok (Some key)
   | _ => Ok None
   end, S n).
Proof.
  intros [Hc Hl _]. unfold Snapshot_key, key_proof. unfold mbind at 1, timed_bind at 1.
  rewrite (check_live_steady p t) by done. destruct (proof p) as [|c|]; [done| |done].
  unfold mbind, timed_bind, lift, test, res_bind. destruct (List.find _ _) as [k|]; simpl; [|done].
  by destruct (_ || _).
Qed.
Lemma effective_steady s p t n a d : steady p t -> proof p = Auth_Initialization a d ->
  effective clock s p n = (match Authority_effective a s with Err _ => Err Forbidden | r => r end, S n).
Proof.
  intros [Hc Hl _] Hp. unfold effective, initialization_authority. rewrite Hp. unfold mbind at 1, timed_bind at 1.
  rewrite (check_live_steady p t) by done. unfold map_err, lift. by destruct (Authority_effective a s).
Qed.
(** [require] while nothing changes, once the installation and the device name are checked. *)
Lemma require_authorized s p op target t n : steady p t -> installed s p op -> named target = true ->
  (require clock s p op target n).1 = Ok () <-> Authorized s p op target t t.
Proof.
  intros Hst (i & Hi & Hr) Hn. pose proof Hst as [Hc Hl _]. unfold require. rewrite Hi.
  unfold mbind at 1, timed_bind at 1, lift. simpl.
  unfold mbind at 1, timed_bind at 1, map_err, installation_require, mbind at 1, timed_bind at 1.
  rewrite (check_live_steady p t) by done. unfold lift. rewrite Hr.
  unfold mbind at 1, timed_bind at 1. rewrite (check_live_steady p t) by done.
  unfold mbind at 1, timed_bind at 1, test.
  assert (match target with Some d => negb (observation_id d) | None => false end = false) as ->
    by (destruct target; [simpl in Hn; by rewrite Hn|done]).
  unfold lift, reject. unfold mbind at 1, timed_bind at 1. rewrite (Snapshot_key_steady s p t) by done.
  unfold Authorized, initialization_authority. destruct (proof p) as [sess|c|a d] eqn:Ep.
  - rewrite (require_rules_steady s p op target sess t) by done. split; intros (record & rule & o & ? & ? & ? & ?); by exists record, rule, o.
  - unfold mbind, res_bind. destruct (List.find _ _) as [k|] eqn:Ef; simpl; [|by split; [|intros (? & [=] & _)]].
    unfold reject. destruct (_ || _) eqn:Eb; simpl.
    + split; [done|]. intros (k' & [= <-] & E1 & E2 & E3 & E4 & _).
      by rewrite E1, E2, !Z.eqb_refl, E3, E4 in Eb.
    + bool_hyps. split.
      * intros H'. exists k. destruct (any_covers _ _ _); [done|done].
      * intros (k' & [= <-] & _ & _ & _ & _ & ->). done.
  - unfold mbind at 1, timed_bind at 1. rewrite (effective_steady s p t _ a d) by done.
    unfold Authority_effective, mbind, res_bind. destruct (Authority_grants a s) as [gs| |] eqn:Eg; simpl;
      [|by split; [|intros (? & [=] & _)]..]. rewrite map_map. simpl. rewrite map_id. split.
    + intros H. exists gs. by destruct (any_covers gs op target).
    + by intros (? & [= <-] & ->).
Qed.

(** While a proof is steady (live, with providers that answer) [require] is exact: it
    succeeds exactly when the installation allows the permission, the device name is valid and
    the operation is authorized, in whatever order the rules are stored. *)
Theorem require_exact s p op target t n : steady p t ->
  (require clock s p op target n).1 = Ok () <->
  installed s p op /\ named target = true /\ Authorized s p op target t t.
Proof.
  intros Hst. split.
  - intros H. destruct (require clock s p op target n) as [r n'] eqn:E. simpl in H. subst r.
    apply require_justified in E as (Hi & Hn & _ & _ & i & j & _ & _ & Ha). destruct Hst as [Hc _ _].
    by rewrite !Hc in Ha.
  - intros (Hi & Hn & Ha). by apply (require_authorized s p op target t).
Qed.
(** What a listing admits. *)
Definition admits (r : ares (option (list rstr))) (d : rstr) : Prop :=
  match r with Ok None => True | Ok (Some ds) => d ∈ ds | _ => False end.
Lemma listed_admits all ds d n : admits (listed all ds n).1 d <-> all = true \/ d ∈ ds.
Proof.
  unfold listed. destruct all; [simpl; naive_solver|]. destruct ds as [|x ds]; simpl; [|naive_solver].
  split; [done|]. intros [?|?%elem_of_nil]; done.
Qed.
Lemma key_listing op l d :
  any_covers l op (Some d) = true <->
  existsb (fun g => bool_decide (scope g = AllDevices)) (List.filter (fun g => bool_decide (operation g = op)) l) = true
  \/ d ∈ bs_of_list (omap device_of (List.filter (fun g => bool_decide (operation g = op)) l)).
Proof.
  rewrite any_covers_device, elem_of_bs_of_list, list_elem_of_omap, !existsb_true_iff. unfold is_all, device_of.
  setoid_rewrite list_elem_of_In. setoid_rewrite List.filter_In. setoid_rewrite andb_true_iff.
  setoid_rewrite bool_decide_eq_true. split.
  - intros [(g & ? & ? & ?)|(g & ? & ? & E)]; [left; by exists g|right; exists g; by rewrite E].
  - intros [(g & [? ?] & ?)|(g & [? ?] & E)]; [left; by exists g|right; exists g].
    destruct (scope g); try done. by injection E as ->.
Qed.

(** An actor of this installation, of a business tenant. *)
Definition business_actor s p : Prop := exists i, installation s = Some i /\ actor_instance (actor p) = instance i /\
  actor_tenant (actor p) <> management i.
(** No device permission is the management tenant's, and none administers tenants. *)
Lemma installed_device s p op : device op = true -> installed s p op <-> business_actor s p.
Proof.
  intros Hop. assert (management_allowed op = false /\ tenant_management op = false) as [Hm Ht] by by destruct op.
  unfold installed, business_actor, require_identity, is_management. setoid_rewrite reject_ok.
  rewrite Hm, Ht. split; intros (i & Hi & H); exists i; (split; [done|]).
  - rewrite andb_true_r, andb_false_r, orb_false_r in H. apply orb_false_iff in H as [H1%negb_false_iff%bool_decide_eq_true H2%bool_decide_eq_false].
    by split.
  - destruct H as [-> Hne]. rewrite bool_decide_eq_true_2, bool_decide_eq_false_2 by done. done.
Qed.
Lemma devices_for_admits s p op t d n n' tenant inst : steady p t ->
  Snapshot_validate s tenant inst = Ok () -> installed s p op -> device op = true -> observation_id d = true ->
  (require clock s p op (Some d) n).1 = Ok () <-> admits (devices_for clock s p op n').1 d.
Proof.
  intros Hst Hs Hi Hop Hd. rewrite (require_authorized s p op (Some d) t) by done.
  pose proof Hst as [Hc Hl _]. unfold devices_for. unfold mbind at 1, timed_bind at 1.
  rewrite (check_live_steady p t) by done. unfold mbind at 1, timed_bind at 1. rewrite (Snapshot_key_steady s p t) by done.
  unfold Authorized, initialization_authority. destruct (proof p) as [sess|c|a x] eqn:Ep.
  - destruct (devices_rules_ok s p op sess t (rules s) (false, []) (S (S n'))) as (acc & m & E & Ha & Hds); [done|done| |].
    { intros record rule g Hr Hv Hg <-. rewrite (rule_grants_valid rule tenant inst ()); [congruence| |done].
      by eapply snapshot_rules_valid. }
    unfold mbind at 1, timed_bind at 1. rewrite E. unfold mbind at 1, timed_bind at 1.
    rewrite (check_live_steady p t) by done. rewrite listed_admits, Ha, Hds. simpl. unfold justified.
    setoid_rewrite any_covers_device. split.
    + intros (record & rule & o & ? & ? & [?|?] & ?); [left|right]; right; by exists record, rule, o.
    + intros [[?|(record & rule & o & ? & ? & ? & ?)]|[?%elem_of_nil|(record & rule & o & ? & ? & ? & ?)]]; try done;
        exists record, rule, o; split_and!; try done; [by left|by right].
  - unfold mbind, res_bind. destruct (List.find _ _) as [k|] eqn:Ef; simpl; [|by split; [intros (? & [=] & _)|]].
    unfold reject. destruct (_ || _) eqn:Eb; simpl.
    + split; [|done]. intros (k' & [= <-] & E1 & E2 & E3 & E4 & _). by rewrite E1, E2, !Z.eqb_refl, E3, E4 in Eb.
    + rewrite listed_admits, <-key_listing. bool_hyps. split; [by intros (k' & [= <-] & ? & ? & ? & ? & ?)|].
      intros ?. by exists k.
  - unfold mbind at 1, timed_bind at 1. rewrite (effective_steady s p t _ a x) by done.
    unfold Authority_effective, mbind, res_bind. destruct (Authority_grants a s) as [gs| |] eqn:Eg; simpl;
      [|by split; [intros (? & [=] & _)|]..].
    rewrite listed_admits. apply authority_grants_ok in Eg as (record & rule & Hr & _ & _ & Hv & _ & Hin & Hall). split.
    + intros (gs' & [= <-] & Hcov). left. unfold any_covers in Hcov. apply existsb_true_iff in Hcov as (g & Hg & Hcov).
      apply covers_device in Hcov as [<- _]. destruct (Hin g Hg) as [_ Hp]. apply Hall in Hp.
      unfold natural_scope in Hp. rewrite Hop in Hp. apply existsb_true_iff. eexists. split.
      * apply elem_of_map. eexists. split; [reflexivity|exact Hp].
      * unfold is_all. simpl. by rewrite !bool_decide_eq_true_2.
    + intros [Hex|?%elem_of_nil]; [|done]. exists gs. split; [done|]. apply any_covers_device. left.
      apply existsb_true_iff in Hex as (g & (g' & <- & Hg)%elem_of_map & Hg'). apply existsb_true_iff. by exists g'.
Qed.

(** C19: listings agree with decisions. For a device permission of a well-formed snapshot and a steady
    proof, an operation on a device is admitted exactly when the actor belongs to a business tenant of this
    installation, which the listing does not ask, and the listing names the device: it answers "all"
    or contains it, and is denied only when it names none. *)
Theorem device_listing_agrees s p op t d n n' tenant inst : steady p t ->
  Snapshot_validate s tenant inst = Ok () -> device op = true -> observation_id d = true ->
  (require clock s p op (Some d) n).1 = Ok () <-> business_actor s p /\ admits (devices_for clock s p op n').1 d.
Proof.
  intros Hst Hs Hop Hd. rewrite <-(installed_device s p op Hop). split.
  - intros H. assert (installed s p op) as Hi; [|split; [done|by apply (devices_for_admits s p op t d n n' tenant inst)]].
    destruct (require clock s p op (Some d) n) as [r m] eqn:E. simpl in H. subst r. by apply require_justified in E as (Hi & _).
  - intros [Hi Ha]. by apply (devices_for_admits s p op t d n n' tenant inst).
Qed.

(** ** Ceilings *)
(** The permissions that are granted on devices. *)
Definition on_devices : list Permission :=
  [InventoryRead; ComplianceRead; InventoryCollect; InventoryAssign; TelemetryDelete; TelemetryMaintain; Enrollment; Credentials;
   DeviceUnmanage; DeviceWipe; DeviceControl; DeviceAssociationWrite; DeviceUpdate; AccountWrite; SecurityOperate; DeviceDiagnostics;
   WindowsMiExecute; ConfigurationWrite; ScriptExecute; SoftwareDeploy; OperationRead; OperationCancel].
Definition tenant_administration : list Permission := [TenantCreate; TenantRead; TenantUpdate; TenantDelete; TenantAdministratorCreate].
Definition own_administration : list Permission := [AuthorizationRead; AuthorizationWrite; IdentityAccountsManage].
(** Whoever has one of these can change who has which permission, or see the directory. *)
Definition identity_administration : list Permission :=
  [IdentityAccountsManage; IdentityProvidersManage; EnterpriseApplicationsWrite; AuthorizationRead; AuthorizationWrite;
   UserGroupRead; UserGroupWrite; DepartmentRead].
Definition initialization_work : list Permission :=
  [GroupRead; GroupWrite; GroupRecompute; ScopeRead; ScopeWrite; PolicyRead; PolicyWrite; ResourceRead; ResourceWrite;
   InventoryRead; InventorySensitiveRead; InventoryCollect; InventoryFieldsWrite].
Lemma device_iff op : device op = true <-> op ∈ on_devices.
Proof. rewrite <-(bool_decide_eq_true (op ∈ on_devices)). by destruct op. Qed.
Lemma management_allowed_iff op : management_allowed op = true <-> op ∈ tenant_administration ++ own_administration.
Proof. rewrite <-(bool_decide_eq_true (op ∈ _)). by destruct op. Qed.
Lemma tenant_management_iff op : tenant_management op = false <-> op ∉ tenant_administration.
Proof. rewrite <-(bool_decide_eq_true (op ∉ _)). by destruct op. Qed.
Lemma api_key_allowed_iff op : api_key_allowed op = true <-> op ∉ tenant_administration ++ identity_administration.
Proof. rewrite <-(bool_decide_eq_true (op ∉ _)). by destruct op. Qed.

(** C31: permissions have ceilings. With a well-formed snapshot an admitted operation names a device
    exactly when its permission is one of those on devices; the management tenant does nothing but
    administer tenants, its own authorization and its accounts, and no other tenant administers
    tenants; a key never administers tenants or identities; an initialization never leaves its fixed list. *)
Theorem privilege_ceiling s p op target n n' tenant inst :
  Snapshot_validate s tenant inst = Ok () -> require clock s p op target n = (Ok (), n') ->
  (given target = true <-> op ∈ on_devices) /\
  (exists i, installation s = Some i /\ actor_instance (actor p) = instance i /\
     (actor_tenant (actor p) = management i -> op ∈ tenant_administration ++ own_administration) /\
     (actor_tenant (actor p) <> management i -> op ∉ tenant_administration)) /\
  match proof p with
  | Auth_Account _ => True
  | Auth_ApiKey _ => op ∉ tenant_administration ++ identity_administration
  | Auth_Initialization _ _ => op ∈ initialization_work
  end.
Proof.
  intros Hs H. apply require_justified in H as ((i & Hi & Hr) & _ & _ & _ & i1 & i2 & _ & _ & Ha).
  assert (forall l, any_covers l op target = true ->
    (forall g, g ∈ l -> (scope g = Tenant <-> device (operation g) = false)) ->
    given target = device op /\ exists g, g ∈ l /\ operation g = op) as Htarget.
  { intros l Hc Hl. unfold any_covers in Hc. apply existsb_true_iff in Hc as (g & Hg & Hc).
    specialize (Hl g Hg). unfold covers in Hc. bool_hyps. subst. split; [|by exists g].
    destruct (scope g), target; try done; simpl; [symmetry; by apply Hl| |];
      symmetry; apply not_false_iff_true; intros ?%Hl; done. }
  rewrite <-device_iff. split_and!; [enough (given target = device op) as -> by done|exists i; split_and!; try done|].
  - unfold Authorized in Ha. destruct (proof p) as [sess|c|a d].
    + destruct Ha as (record & rule & o & Hrec & Hv & Hc & _). apply (Htarget _ Hc).
      intros g. eapply rule_grants_valid. by eapply snapshot_rules_valid.
    + destruct Ha as (key & (Hk & _)%find_ok & _ & _ & _ & _ & Hc). apply (Htarget _ Hc). intros g Hg.
      eapply key_grants_valid; [by eapply snapshot_keys_valid|done].
    + destruct Ha as (gs & (record & rule & Hrec & _ & _ & Hv & _ & Hin & _)%authority_grants_ok & Hc).
      apply (Htarget _ Hc). intros g [Hg _]%Hin. eapply rule_grants_valid; [by eapply snapshot_rules_valid|done].
  - unfold require_identity in Hr. apply reject_ok in Hr. bool_hyps. done.
  - intros Hm. apply management_allowed_iff. unfold require_identity, is_management in Hr. rewrite (bool_decide_eq_true_2 _ Hm) in Hr.
    apply reject_ok in Hr. apply orb_false_iff in Hr as [[_ Hr]%orb_false_iff _]. by apply negb_false_iff in Hr.
  - intros Hm. apply tenant_management_iff. unfold require_identity, is_management in Hr. rewrite (bool_decide_eq_false_2 _ Hm) in Hr.
    apply reject_ok in Hr. by apply orb_false_iff in Hr as [_ Hr].
  - unfold Authorized in Ha. destruct (proof p) as [sess|c|a d]; [done| |].
    + destruct Ha as (key & (Hk & _)%find_ok & _ & _ & _ & _ & Hc). apply existsb_true_iff in Hc as (g & Hg & Hc).
      unfold covers in Hc. bool_hyps. subst. apply api_key_allowed_iff. eapply key_grants_valid; [by eapply snapshot_keys_valid|done].
    + destruct Ha as (gs & (record & rule & _ & _ & _ & _ & _ & Hin & _)%authority_grants_ok & Hc).
      apply existsb_true_iff in Hc as (g & Hg & Hc). unfold covers in Hc. bool_hyps. subst. by apply Hin.
Qed.

(** The tenant administrator rule is well formed for a business tenant, and it covers every
    permission at its natural target except the administration of tenants, which it never covers. *)
Theorem tenant_administrator_complete user tenant inst i :
  User_validate user tenant inst = Ok () -> is_management i tenant = false ->
  Rule_validate (tenant_administrator_rule user) tenant inst = Ok () /\
  validate_rule i tenant (tenant_administrator_rule user) = Ok () /\
  forall op target, any_covers (grants (tenant_administrator_rule user)) op target =
    negb (tenant_management op) && Bool.eqb (device op) (given target).
Proof.
  intros Hu Hm. split_and!.
  - unfold Rule_validate, tenant_administrator_rule, subject, Subject_validate. rewrite Hu. vm_compute. reflexivity.
  - unfold validate_rule. rewrite Hm. vm_compute. reflexivity.
  - intros [] [d|]; vm_compute; reflexivity.
Qed.

(** The department climb decides. It ends for every chain of parents that ends; its answer is
    whether some membership is the department or, for subtrees, lies below it; and when it does
    not answer, the code's loop itself never ends: a membership that comes before any match has
    a parent chain without end. *)
Theorem department_matches_decides (d : DepartmentSnapshot) id matching :
  match department_matches d id matching with
  | Some b => b = true <-> exists member, member ∈ memberships d /\ ancestor d id matching member
  | None => exists before member after, memberships d = before ++ member :: after /\
      (forall m, m ∈ before -> ~ ancestor d id matching m) /\
      (forall k, is_Some (climbed d k (Some member))) /\
      forall fuel, climb d id matching fuel (Some member) = None
  end.
Proof.
  unfold department_matches. destruct (climb_any _ _ _ _ _) as [b|] eqn:E; [by eapply climb_any_ancestor|].
  apply climb_any_forever in E as (before & member & after & Hm & Hb & Hf).
  exists before, member, after. split; [done|]. split; [|split; [|done]].
  - intros m Hin Ha. apply Hb, climb_ancestor in Hin. by apply Hin in Ha.
  - intros k. destruct matching; [specialize (Hf O); by rewrite climb_exact in Hf|].
    specialize (Hf k). rewrite climb_going in Hf. destruct (Hf k) as (v & Hv & _); [lia|]. by exists v.
Qed.
(** ** Evidence *)
Lemma effective_rules_ok s f l acc n r n' : timed_for (effective_rule clock s f) l acc n = (Ok r, n') ->
  forall g, g ∈ r -> g ∈ acc \/ exists record rule i j, record ∈ l /\ rv_value record = Some rule /\
    Holds s f (clock i) (clock j) (subject rule) (observation g) /\ rule_id g = rv_id record /\
    rule_revision g = rv_revision record /\ eg_grant g ∈ grants rule.
Proof.
  revert acc n. induction l as [|record l IH]; intros acc n H g Hg; simpl in H.
  { apply ret_ok in H as [<- _]. by left. }
  apply timed_bind_ok in H as (acc1 & n1 & H1 & H).
  destruct (IH _ _ H g Hg) as [Hacc|(r' & rule & i & j & Hr' & ?)]; [|right; exists r', rule, i, j; split; [by right|done]].
  unfold effective_rule in H1. destruct (rv_value record) as [rule|] eqn:Ev; [|apply ret_ok in H1 as [<- _]; by left].
  apply timed_bind_ok in H1 as (m & n2 & Hm & H1). apply ret_ok in H1 as [<- _].
  apply matches_facts_holds in Hm as [_ Hm]. destruct m as [o|]; [|by left].
  apply elem_of_app in Hacc as [?|(gr & <- & Hgr)%elem_of_map]; [by left|right].
  destruct (Hm o eq_refl) as (i & j & _ & _ & Ho). exists record, rule, i, j. split; [by left|done].
Qed.
Lemma effective_rules_steady s f l acc n t : (forall i, clock i = t) -> settled_facts f t ->
  exists r n', timed_for (effective_rule clock s f) l acc n = (Ok r, n') /\ acc ⊆ r /\
    forall record rule o gr, record ∈ l -> rv_value record = Some rule -> Holds s f t t (subject rule) o ->
      gr ∈ grants rule -> exists g, g ∈ r /\ eg_grant g = gr.
Proof.
  intros Hc Hf. revert acc n. induction l as [|record l IH]; intros acc n; simpl.
  { exists acc, n. split; [done|]. split; [done|]. by intros ? ? ? ? ?%elem_of_nil. }
  assert (exists acc1 n1, effective_rule clock s f acc record n = (Ok acc1, n1) /\ acc ⊆ acc1 /\
    forall rule o gr, rv_value record = Some rule -> Holds s f t t (subject rule) o ->
      gr ∈ grants rule -> exists g, g ∈ acc1 /\ eg_grant g = gr) as (acc1 & n1 & E & Hsub & Hacc).
  { unfold effective_rule. destruct (rv_value record) as [rule|]; [|by exists acc, n].
    destruct (matches_steady s f (subject rule) t n) as (m & n1 & Hm & Hh); [done..|].
    unfold mbind, timed_bind. rewrite Hm. eexists _, _. split; [reflexivity|]. destruct m as [o|].
    - split; [set_solver|]. intros ? o' gr [= <-] _ Hgr. eexists. split; [|shelve].
      apply elem_of_app. right. apply elem_of_map. exists gr. split; [reflexivity|done].
      Unshelve. done.
    - split; [done|]. intros ? o' gr [= <-] Ho%Hh _. done. }
  destruct (IH acc1 n1) as (r & n' & Er & Hsub' & Hr). exists r, n'.
  unfold mbind at 1, timed_bind at 1. rewrite E. split; [done|]. split; [by transitivity acc1|].
  intros r' rule o gr [->|Hr']%elem_of_cons Hv Ho Hgr; [|by eapply Hr].
  destruct (Hacc rule o gr Hv Ho Hgr) as (g & Hg & ?). exists g. split; [by apply Hsub'|done].
Qed.
Lemma effective_account s p sess n r n' : proof p = Auth_Account sess ->
  effective clock s p n = (Ok r, n') ->
  forall g, g ∈ r -> exists record rule i j, record ∈ rules s /\ rv_value record = Some rule /\
    Holds s (Authenticated sess) (clock i) (clock j) (subject rule) (observation g) /\ rule_id g = rv_id record /\
    rule_revision g = rv_revision record /\ eg_grant g ∈ grants rule.
Proof.
  intros Hp. unfold effective, initialization_authority, session. rewrite Hp. intros H g Hg.
  apply timed_bind_ok in H as (? & n1 & _ & H). apply timed_bind_ok in H as (sess' & n2 & [[= <-] ->]%lift_ok & H).
  unfold effective_facts in H. apply timed_bind_ok in H as (? & n3 & _ & H).
  apply timed_bind_ok in H as (gs & n4 & Hf & H). apply timed_bind_ok in H as (? & n5 & _ & H).
  apply ret_ok in H as [<- _]. destruct (effective_rules_ok _ _ _ _ _ _ _ Hf g Hg) as [?%elem_of_nil|]; done.
Qed.
Lemma effective_account_steady s p sess t n : steady p t -> proof p = Auth_Account sess ->
  exists r n', effective clock s p n = (Ok r, n') /\
    forall record rule o gr, record ∈ rules s -> rv_value record = Some rule ->
      Holds s (Authenticated sess) t t (subject rule) o -> gr ∈ grants rule -> exists g, g ∈ r /\ eg_grant g = gr.
Proof.
  intros [Hc Hl Hf] Hp. unfold effective, initialization_authority, session. rewrite Hp.
  unfold mbind at 1, timed_bind at 1. rewrite (check_live_steady p t) by done.
  unfold mbind at 1, timed_bind at 1, lift. unfold effective_facts.
  assert (forall n, facts_check_live clock (Authenticated sess) n = (Ok (), S n)) as Hfl.
  { intros m. unfold facts_check_live, mbind, timed_bind, observe. rewrite Hc.
    unfold live in Hl. rewrite Hp in Hl. unfold facts_live, with_proof. by rewrite Hl. }
  unfold mbind at 1, timed_bind at 1. rewrite Hfl.
  destruct (effective_rules_steady s (Authenticated sess) (rules s) [] (S (S n)) t) as (r & n' & E & _ & Hr);
    [done|by apply Hf|]. unfold mbind at 1, timed_bind at 1. rewrite E.
  unfold mbind at 1, timed_bind at 1. rewrite Hfl. by exists r, (S n').
Qed.

(** Frozen evidence is real. The evidence of an admitted device operation names the permission,
    the actor and exactly that device; for a key it is the authority revision of the proof, for
    an account it lists only rules of the snapshot at their revisions whose subject held and
    whose grant covers the device, with the expiry of the observation each rests on; and while
    the proof is steady it is never empty. *)
Theorem evidence_is_frozen s p d op n oa n' :
  from_proof clock s p d op n = (Ok oa, n') ->
  oa_permission oa = op /\ oa_actor oa = actor p /\ oa_scope oa = Device d /\
  match proof p, basis oa with
  | Auth_ApiKey c, Basis_ApiKey revision => revision = kp_authority_revision c
  | Auth_Account sess, Basis_Account bases =>
      (forall b, b ∈ bases -> exists record rule gr o i j, record ∈ rules s /\ rv_id record = ba_id b /\
         rv_revision record = ba_revision b /\ rv_value record = Some rule /\
         Holds s (Authenticated sess) (clock i) (clock j) (subject rule) o /\ gr ∈ grants rule /\
         covers gr op (Some d) = true /\ ba_expires_at b = ob_expires_at <$> o) /\
      (forall t, steady p t -> bases <> [])
  | Auth_Initialization a _, Basis_Account bases =>
      bases <> [] /\ forall b, b ∈ bases -> ba_id b = rc_id (au_rule a) /\ ba_expires_at b = None
  | _, _ => False
  end.
Proof.
  unfold from_proof, freeze. intros H. apply timed_bind_ok in H as ([] & n1 & Hr & H).
  apply timed_bind_ok in H as (key & n2 & (_ & -> & Hk)%Snapshot_key_ok & H).
  apply timed_bind_ok in H as (b & n3 & Hb & H). apply ret_ok in H as [<- ->]. simpl. split_and!; try done.
  apply require_justified in Hr as (_ & _ & _ & _ & i & j & _ & _ & Ha). unfold Authorized in Ha.
  destruct (proof p) as [sess|c|a x] eqn:Ep.
  - subst key. apply timed_bind_ok in Hb as (bases & n4 & Hb & H). apply ret_ok in H as [<- ->].
    unfold authorization_bases in Hb. apply timed_bind_ok in Hb as (gs & n5 & He & H). apply ret_ok in H as [<- _].
    split.
    + intros b (g & <- & Hg)%elem_of_map. apply list_elem_of_In, List.filter_In in Hg as [Hg%list_elem_of_In Hcov].
      destruct (effective_account s p sess _ _ _ Ep He g Hg) as (record & rule & i' & j' & ? & ? & ? & Hid & Hrev & ?).
      exists record, rule, (eg_grant g), (observation g), i', j'. simpl. by rewrite Hid, Hrev.
    + intros t Hst. destruct (effective_account_steady s p sess t (S n1) Hst Ep) as (gs' & m & E & Hall).
      rewrite E in He. injection He as -> ->. destruct Ha as (record & rule & o & Hrec & Hv & Hcov & Ho).
      destruct Hst as [Hc _ _]. rewrite !Hc in Ho. unfold any_covers in Hcov.
      apply existsb_true_iff in Hcov as (gr & Hgr & Hcov). destruct (Hall record rule o gr) as (g & Hg & <-); [done..|].
      intros Hnil. apply map_eq_nil in Hnil. assert (g ∈ @nil EffectiveGrant) as Hin; [|by apply elem_of_nil in Hin].
      rewrite <-Hnil. apply list_elem_of_In, List.filter_In. split; [by apply list_elem_of_In|done].
  - destruct Hk as (k & -> & _ & _ & Hrev & _). apply ret_ok in Hb as [<- _]. done.
  - subst key. apply timed_bind_ok in Hb as (bases & n4 & Hb & H). apply ret_ok in H as [<- ->].
    unfold authorization_bases in Hb. apply timed_bind_ok in Hb as (gs & n5 & He & H). apply ret_ok in H as [<- _].
    apply (effective_initialization clock s p a x) in He as (_ & _ & Hg & Hgs); [|done].
    destruct Ha as (gs' & Hg' & Hcov). rewrite Hg in Hg'. injection Hg' as <-. split.
    + apply existsb_true_iff in Hcov as (gr & (g & <- & Hin)%elem_of_map & Hcov). intros Hnil.
      apply map_eq_nil in Hnil. assert (g ∈ @nil EffectiveGrant) as Hf; [|by apply elem_of_nil in Hf].
      rewrite <-Hnil. apply list_elem_of_In, List.filter_In. split; [by apply list_elem_of_In|done].
    + intros b (g & <- & Hin)%elem_of_map. apply list_elem_of_In, List.filter_In in Hin as [Hin%list_elem_of_In _].
      destruct (Hgs g Hin) as (Ho & Hid & _). simpl. by rewrite Ho.
Qed.
End Properties.

(** ** Closed applications *)
Module Example.
Import Reference.
#[export] Instance observation_ids : ObservationId :=
  {| observation_id s := negb (is_empty s) && (str_len s <=? 256) |}.
Record Session := mk_Session {
  account : rstr; until : Z; directory : option (Verified DepartmentSnapshot)
}.
#[export] Instance session_proof : ComponentProof Session := {|
  proof_live p t := t <? until p; proof_instance _ := lit "2"; proof_tenant _ := lit "3"; proof_principal := account;
  proof_groups _ _ := Some None; proof_departments p _ := Some (directory p)
|}.
#[export] Instance identity_crate : IdentityCrate := {|
  AuthenticatedSession := Session; RevalidatedSession := Session; ManagementContext := Session
|}.
Definition tree : DepartmentSnapshot := mk_DepartmentSnapshot (lit "r1") [lit "web"]
  [(lit "web", Some (lit "eng")); (lit "eng", Some (lit "all")); (lit "all", None)].
Definition provider : Source := mk_Source (9 : Uuid) (lit "https://idp") 1.
Definition listed_tree : Verified DepartmentSnapshot :=
  mk_Verified _ (9 : Uuid) (lit "https://idp") 1 (5 : Uuid) 50 500 (fun t => if t <? 500 then Values tree else SnapshotExpired).
Definition alice : Session := mk_Session (lit "7") 400 (Some listed_tree).
Definition alice_principal : Principal :=
  mk_Principal (Auth_Account alice) (Actor_Account (mk_User (lit "2") (lit "3") (lit "7"))).
Definition engineering : Rule := mk_Rule (Subject_Department provider (lit "eng") Subtree)
  [mk_Grant ScriptExecute (Device (lit "laptop")); mk_Grant GroupRead AccessModel.Tenant].
Definition operator_rule : Rule := mk_Rule (Subject_UserGroup (4 : Uuid)) [mk_Grant ScriptExecute AllDevices].
Definition service_key : KeyRecord := mk_KeyRecord (8 : Uuid) 1 3 2
  (mk_KeyMetadata (lit "ci") true None [mk_Grant InventoryRead AllDevices]) (mk_User (lit "2") (lit "3") (lit "7")) 10 false.
Definition snapshot : Snapshot := mk_Snapshot
  [mk_Revision (1 : Uuid) 1 (Some operator_rule); mk_Revision (2 : Uuid) 6 (Some engineering)]
  [mk_Revision (4 : Uuid) 1 (Some (mk_UserGroup (lit "ops") true [mk_User (lit "2") (lit "3") (lit "11")]))]
  [service_key] (Some (mk_Installation (lit "2") (lit "1"))).
Definition ticking (n : nat) : Z := 100 + Z.of_nat n.
Definition still (_ : nat) : Z := 100.
Definition key_principal : Principal := Principal_from_key (mk_KeyProof (lit "2") (lit "3") (8 : Uuid) 2 400 3).

Lemma alice_steady : steady still alice_principal 100.
Proof.
  split; [done|vm_compute; reflexivity|]. intros sess [= <-]. split; [exact I|].
  change (forall id matching, department_matches tree id matching <> None).
  apply departments_end. intros m [->|?%elem_of_nil]%elem_of_cons; [|done]. exists 3%nat. vm_compute. reflexivity.
Qed.
Lemma snapshot_valid : Snapshot_validate snapshot (lit "3") (lit "2") = Ok ().
Proof. vm_compute. reflexivity. Qed.
Lemma snapshot_installed : installed snapshot alice_principal ScriptExecute.
Proof. eexists. split; [reflexivity|]. vm_compute. reflexivity. Qed.
Lemma alice_business : business_actor snapshot alice_principal.
Proof. eexists. split; [reflexivity|]. split; [reflexivity|discriminate]. Qed.
End Example.
Import Reference Example.

Lemma require_sound_witness :
  require ticking snapshot alice_principal ScriptExecute (Some (lit "laptop")) 0%nat = (Ok (), 6%nat) /\
  exists i j, (0 <= i < 6)%nat /\ (0 <= j < 6)%nat /\
    Authorized snapshot alice_principal ScriptExecute (Some (lit "laptop")) (ticking i) (ticking j).
Proof.
  assert (require ticking snapshot alice_principal ScriptExecute (Some (lit "laptop")) 0%nat = (Ok (), 6%nat)) as H
    by (vm_compute; reflexivity).
  split; [exact H|]. apply (require_sound ticking _ _ _ _ _ _ H).
Defined.
Lemma require_exact_witness :
  steady still alice_principal 100 /\
  Authorized snapshot alice_principal ScriptExecute (Some (lit "laptop")) 100 100.
Proof.
  split; [exact alice_steady|].
  apply (require_exact still snapshot alice_principal ScriptExecute (Some (lit "laptop")) 100 0%nat alice_steady).
  vm_compute. reflexivity.
Defined.
Lemma device_listing_agrees_witness :
  admits (devices_for still snapshot alice_principal ScriptExecute 0%nat).1 (lit "laptop") /\
  ~ admits (devices_for still snapshot alice_principal ScriptExecute 0%nat).1 (lit "server").
Proof.
  split.
  - apply (device_listing_agrees still snapshot alice_principal ScriptExecute 100 (lit "laptop") 0%nat 0%nat _ _
      alice_steady snapshot_valid); vm_compute; reflexivity.
  - intros H. assert ((require still snapshot alice_principal ScriptExecute (Some (lit "server")) 0%nat).1 = Ok ()) as E.
    { apply (device_listing_agrees still snapshot alice_principal ScriptExecute 100 (lit "server") 0%nat 0%nat _ _
        alice_steady snapshot_valid); [vm_compute; reflexivity..|]. split; [apply alice_business|exact H]. }
    vm_compute in E. discriminate E.
Defined.
Lemma privilege_ceiling_witness :
  require ticking snapshot key_principal InventoryRead (Some (lit "laptop")) 0%nat = (Ok (), 3%nat) /\
  InventoryRead ∉ tenant_administration ++ identity_administration.
Proof.
  assert (require ticking snapshot key_principal InventoryRead (Some (lit "laptop")) 0%nat = (Ok (), 3%nat)) as H
    by (vm_compute; reflexivity).
  split; [exact H|]. apply (privilege_ceiling ticking _ _ _ _ _ _ _ _ snapshot_valid H).
Defined.
Lemma tenant_administrator_complete_witness :
  Rule_validate (tenant_administrator_rule (mk_User (lit "2") (lit "3") (lit "7"))) (lit "3") (lit "2") = Ok ().
Proof.
  apply (tenant_administrator_complete _ _ _ (mk_Installation (lit "2") (lit "1"))); vm_compute; reflexivity.
Defined.
Definition frozen : OperationAuthority :=
  mk_OperationAuthority ScriptExecute (actor alice_principal) (Device (lit "laptop")) (Basis_Account [mk_Basis (2 : Uuid) 6 (Some 500)]).
Lemma evidence_is_frozen_witness :
  from_proof still snapshot alice_principal (lit "laptop") ScriptExecute 0%nat = (Ok frozen, 12%nat) /\
  forall t, steady still alice_principal t -> [mk_Basis (2 : Uuid) 6 (Some 500)] <> [].
Proof.
  assert (from_proof still snapshot alice_principal (lit "laptop") ScriptExecute 0%nat = (Ok frozen, 12%nat)) as H
    by (vm_compute; reflexivity).
  split; [exact H|]. destruct (evidence_is_frozen still _ _ _ _ _ _ _ H) as (_ & _ & _ & _ & Hne). exact Hne.
Defined.
