(* ===== verification/Xml.v ===== *)
(** * Bounded XML: limits, budgets, the streaming reader and the writer

    [windows-mdm]'s [lib.rs] (limits, [text]) and [xml.rs] ([Input], [Output]).  The tokenizer
    is [quick-xml]: a stream of events per document, and the bytes of each written event. *)
From S2P Require Import Prelude Ordered Text External.

(** ** Errors and limits *)
Inductive CodecError : Type :=
| MalformedXml | WrongNamespace | Structure | InvalidValue | Unsupported | LimitExceeded
| UnexpectedOperation | ForbiddenXml | Duplicate.
#[export] Instance CodecError_eq_dec : EqDecision CodecError.
Proof. solve_decision. Defined.
Notation xres := (res CodecError).

Record CodecLimits : Type := mk_CodecLimits {
  l_discovery_bytes : Z; l_xcep_bytes : Z; l_wstep_bytes : Z; l_syncml_bytes : Z; l_depth : Z;
  l_elements : Z; l_events : Z; l_attributes_per_element : Z; l_attributes : Z;
  l_namespace_bindings : Z; l_session_messages : Z; l_session_commands : Z; l_session_items : Z;
  l_commands : Z; l_items : Z; l_identifier_bytes : Z; l_uri_bytes : Z; l_field_bytes : Z;
  l_object_bytes : Z; l_decoded_object_bytes : Z; l_binary_bytes : Z
}.
Definition CodecLimits_default : CodecLimits :=
  mk_CodecLimits (64 * 1024) (256 * 1024) (512 * 1024) (512 * 1024) 32 4096 16384 32 2048 32 128 32768
    131072 256 1024 128 2048 (64 * 1024) (16 * 1024 * 1024) (12 * 1024 * 1024) (256 * 1024).
Definition with_syncml_bytes (l : CodecLimits) (n : Z) : CodecLimits :=
  mk_CodecLimits (l_discovery_bytes l) (l_xcep_bytes l) (l_wstep_bytes l) n (l_depth l) (l_elements l)
    (l_events l) (l_attributes_per_element l) (l_attributes l) (l_namespace_bindings l)
    (l_session_messages l) (l_session_commands l) (l_session_items l) (l_commands l) (l_items l)
    (l_identifier_bytes l) (l_uri_bytes l) (l_field_bytes l) (l_object_bytes l)
    (l_decoded_object_bytes l) (l_binary_bytes l).

Definition bound (n max : Z) : xres () := reject (max <? n) LimitExceeded.
(** [usize::checked_add(..).ok_or(LimitExceeded)]. *)
Definition checked (z : Z) : xres Z := ok_or (checked_u64 z) LimitExceeded.
Definition legal_char (c : Z) : bool :=
  (c =? 9) || (c =? 10) || (c =? 13) || (32 <=? c) && (c <=? 55295)
  || (57344 <=? c) && (c <=? 65533) || (65536 <=? c) && (c <=? 1114111).
Definition text (value : rstr) (max : Z) (empty : bool) : xres () :=
  _ ← bound (str_len value) max;
  reject (negb empty && is_empty (trim value) || negb (forallb legal_char value)) InvalidValue.

(** ** Names *)
Definition between (a b c : Z) : bool := (a <=? c) && (c <=? b).
Definition name_start (c : Z) : bool :=
  between 65 90 c || between 97 122 c || (c =? 95) || between 192 214 c || between 216 246 c
  || between 248 767 c || between 880 893 c || between 895 8191 c || between 8204 8205 c
  || between 8304 8591 c || between 11264 12271 c || between 12289 55295 c
  || between 63744 64975 c || between 65008 65533 c || between 65536 983039 c.
Definition name_char (c : Z) : bool :=
  name_start c || (c =? 45) || (c =? 46) || between 48 57 c || (c =? 183) || between 768 879 c
  || between 8255 8256 c.
Definition name_part (part : rstr) : bool :=
  match part with c :: rest => name_start c && forallb name_char rest | [] => false end.
Definition qname (value : rstr) : xres () :=
  let parts := split 58 value in
  _ ← reject (2 <? zlen parts) MalformedXml;
  reject (negb (forallb name_part parts)) MalformedXml.

(** ** [quick-xml] *)
Inductive XmlError : Type := UnrecognizedEntity | TooManyBindings | TooDeeplyNested | OtherXmlError.
Inductive ResolveResult : Type := Bound (ns : rstr) | Unbound | Unknown.
(** A name resolved in the namespaces in scope, with its local part. *)
Record Resolved : Type := mk_Resolved { rs_namespace : ResolveResult; rs_local : rstr }.
Record RawAttribute : Type := mk_RawAttribute { ra_key : rstr; ra_value : rstr; ra_resolved : Resolved }.
Inductive Event : Type :=
| EvStart (name : rstr) (element : Resolved) (attributes : list (option RawAttribute))
| EvEnd (element : Resolved)
| EvText (content : rstr)
| EvCData (content : rstr)
| EvGeneralRef (name : rstr) (char_ref : XmlError + option Z)
| EvDecl (attributes : list (option (rstr * rstr)))
| EvComment | EvEof | EvDocType | EvPI | EvOther.
(** [read_event bindings input n] is the [n]-th event of a document read with all checks and
    empty elements expanded; [normalized_value] is the value of an attribute's raw text; the
    rest are the bytes the writer emits for one event. *)
Class QuickXml : Type := {
  read_event : Z -> bytes -> nat -> XmlError + Event;
  normalized_value : rstr -> XmlError + rstr;
  write_start : rstr -> list (rstr * rstr) -> bytes;
  write_end : rstr -> bytes;
  write_text : rstr -> bytes
}.

Definition map_error (e : XmlError) : CodecError :=
  match e with
  | UnrecognizedEntity => ForbiddenXml
  | TooManyBindings | TooDeeplyNested => LimitExceeded
  | OtherXmlError => MalformedXml
  end.
Definition from_xml {A} (r : XmlError + A) : xres A :=
  match r with inl e => Err (map_error e) | inr a => Ok a end.
Definition XML : rstr := lit "http://www.w3.org/XML/1998/namespace".

(** ** Tokens *)
Record Attr : Type := mk_Attr { at_ns : rstr; at_name : rstr; at_value : rstr }.
Record Start : Type := mk_Start { st_ns : rstr; st_name : rstr; st_attrs : list Attr }.
Definition Start_attrs (s : Start) (allowed : list (rstr * rstr)) : xres () :=
  reject (existsb (fun a => negb (bool_decide ((at_ns a, at_name a) ∈ allowed))) (st_attrs s)) Unsupported.
Definition Start_attr (s : Start) (ns name : rstr) : option rstr :=
  at_value <$> List.find (fun a => bool_decide (at_ns a = ns) && bool_decide (at_name a = name)) (st_attrs s).
Inductive Token : Type := TStart (s : Start) | TEnd (ns name : rstr) | TText (s : rstr) | TEof.

(** ** Budgets *)
Record Budget : Type := mk_Budget { b_events : Z; b_elements : Z; b_depth : Z; b_attrs : Z }.
Definition Budget_new : Budget := mk_Budget 0 0 0 0.

Section Budgets.
Context (l : CodecLimits).
Definition Budget_event (b : Budget) : xres Budget :=
  events ← checked (b_events b + 1);
  _ ← bound events (l_events l);
  Ok (mk_Budget events (b_elements b) (b_depth b) (b_attrs b)).
Definition Budget_start (b : Budget) (attrs : Z) : xres Budget :=
  elements ← checked (b_elements b + 1);
  depth ← checked (b_depth b + 1);
  total ← checked (b_attrs b + attrs);
  _ ← bound elements (l_elements l);
  _ ← bound depth (l_depth l);
  _ ← bound attrs (l_attributes_per_element l);
  _ ← bound total (l_attributes l);
  Ok (mk_Budget (b_events b) elements depth total).
(** [depth.checked_sub(1)]. *)
Definition Budget_end (e : CodecError) (b : Budget) : xres Budget :=
  _ ← reject (b_depth b =? 0) e;
  Ok (mk_Budget (b_events b) (b_elements b) (b_depth b - 1) (b_attrs b)).
End Budgets.

(** ** The reader *)
Record Input : Type := mk_Input {
  in_bytes : bytes; in_position : nat; in_look : option Token; in_budget : Budget;
  in_started : bool; in_declaration : bool; in_commands : Z; in_items : Z
}.
Definition set_look (t : option Token) (s : Input) : Input :=
  mk_Input (in_bytes s) (in_position s) t (in_budget s) (in_started s) (in_declaration s) (in_commands s)
    (in_items s).
Definition set_budget (b : Budget) (s : Input) : Input :=
  mk_Input (in_bytes s) (in_position s) (in_look s) b (in_started s) (in_declaration s) (in_commands s)
    (in_items s).
Definition set_started (s : Input) : Input :=
  mk_Input (in_bytes s) (in_position s) (in_look s) (in_budget s) true (in_declaration s) (in_commands s)
    (in_items s).
Definition set_declaration (s : Input) : Input :=
  mk_Input (in_bytes s) (in_position s) (in_look s) (in_budget s) (in_started s) true (in_commands s)
    (in_items s).
(** A parser: the value read and the state after it; a failure discards the state. *)
Definition reader (E A : Type) : Type := Input -> res E (A * Input).
Notation xread := (reader CodecError).
#[export] Instance reader_ret {E} : MRet (reader E) := fun A a s => Ok (a, s).
#[export] Instance reader_bind {E} : MBind (reader E) := fun A B k m s =>
  match m s with Ok (a, s) => k a s | Err e => Err e | Panic => Panic end.
Definition lift {E A} (r : res E A) : reader E A := fun s =>
  match r with Ok a => Ok (a, s) | Err e => Err e | Panic => Panic end.
Definition update (f : Input -> Input) : xread () := fun s => Ok ((), f s).

Definition namespace `{QX : QuickXml} (ns : ResolveResult) : xres rstr :=
  match ns with
  | Bound n => from_xml (normalized_value n)
  | Unbound => Ok []
  | Unknown => Err WrongNamespace
  end.
Definition entity (name : rstr) : xres rstr :=
  if bool_decide (name = lit "amp") then Ok [38]
  else if bool_decide (name = lit "lt") then Ok [60]
  else if bool_decide (name = lit "gt") then Ok [62]
  else if bool_decide (name = lit "apos") then Ok [39]
  else if bool_decide (name = lit "quot") then Ok [34]
  else Err ForbiddenXml.
Definition to_ascii_lowercase (s : rstr) : rstr :=
  map (fun c => if is_ascii_uppercase c then c + 32 else c) s.
Definition eq_ignore_ascii_case (a b : rstr) : bool :=
  bool_decide (to_ascii_lowercase a = to_ascii_lowercase b).

Section Reader.
Context `{QX : QuickXml} (l : CodecLimits).

Definition Input_new (input : bytes) (max : Z) : xres Input :=
  _ ← bound (zlen input) max;
  value ← ok_or (from_utf8 input) Unsupported;
  _ ← reject (negb (forallb legal_char value)) MalformedXml;
  Ok (mk_Input input O None Budget_new false false 0 0).

Definition next_event : xread Event := fun s =>
  match from_xml (read_event (l_namespace_bindings l) (in_bytes s) (in_position s)) with
  | Ok e => Ok (e, mk_Input (in_bytes s) (S (in_position s)) (in_look s) (in_budget s) (in_started s)
                     (in_declaration s) (in_commands s) (in_items s))
  | Err e => Err e
  | Panic => Panic
  end.
Definition charge (f : Budget -> xres Budget) : xread () := fun s =>
  match f (in_budget s) with Ok b => Ok ((), set_budget b s) | Err e => Err e | Panic => Panic end.
Definition is_xmlns (key : rstr) : bool :=
  bool_decide (key = lit "xmlns") || starts_with (lit "xmlns:") key.
(** One attribute: the attributes seen so far are counted against both budgets. *)
Definition read_attr (base : Z) (acc : Z * list (rstr * rstr) * list Attr) (a : option RawAttribute) :
    xres (Z * list (rstr * rstr) * list Attr) :=
  let '(count, seen, attrs) := acc in
  a ← ok_or a MalformedXml;
  _ ← qname (ra_key a);
  let count := count + 1 in
  _ ← bound count (l_attributes_per_element l);
  total ← checked (base + count);
  _ ← bound total (l_attributes l);
  value ← from_xml (normalized_value (ra_value a));
  _ ← text value (l_field_bytes l) true;
  if is_xmlns (ra_key a) then
    _ ← reject (bool_decide (value = lit "http://www.w3.org/2000/xmlns/")
                || bool_decide (value = XML) && negb (bool_decide (ra_key a = lit "xmlns:xml"))
                || starts_with (lit "xmlns:") (ra_key a) && is_empty value) WrongNamespace;
    Ok (count, seen, attrs)
  else
    ns ← namespace (rs_namespace (ra_resolved a));
    let name := rs_local (ra_resolved a) in
    _ ← reject (bs_mem (ns, name) seen) Duplicate;
    Ok (count, bs_insert (ns, name) seen, attrs ++ [mk_Attr ns name value]).
(** The XML declaration: version, then encoding, then standalone. *)
Definition read_decl (position : Z) (a : option (rstr * rstr)) : xres Z :=
  a ← ok_or a MalformedXml;
  _ ← bound (str_len a.2) (l_field_bytes l);
  if (position =? 0) && bool_decide (a.1 = lit "version") && bool_decide (a.2 = lit "1.0") then Ok 1
  else if (position =? 1) && bool_decide (a.1 = lit "encoding") && eq_ignore_ascii_case a.2 (lit "utf-8") then Ok 2
  else if ((position =? 1) || (position =? 2)) && bool_decide (a.1 = lit "standalone")
          && (bool_decide (a.2 = lit "yes") || bool_decide (a.2 = lit "no")) then Ok 3
  else Err MalformedXml.

Definition get_depth : xread Z := fun s => Ok (b_depth (in_budget s), s).
Definition get_attrs : xread Z := fun s => Ok (b_attrs (in_budget s), s).
(** Every event is charged, so the loop over comments and the declaration ends. *)
Fixpoint read_loop (fuel : nat) : xread Token :=
  match fuel with
  | O => lift Panic
  | S fuel =>
      _ ← charge (Budget_event l);
      event ← next_event;
      match event with
      | EvStart name element attributes =>
          _ ← lift (qname name);
          _ ← update set_started;
          ns ← lift (namespace (rs_namespace element));
          base ← get_attrs;
          acc ← lift (res_for (read_attr base) attributes (0, [], []));
          _ ← charge (fun b => Budget_start l b acc.1.1);
          mret (TStart (mk_Start ns (rs_local element) acc.2))
      | EvEnd element =>
          _ ← charge (Budget_end MalformedXml);
          ns ← lift (namespace (rs_namespace element));
          mret (TEnd ns (rs_local element))
      | EvText content =>
          depth ← get_depth;
          _ ← update (if depth =? 0 then set_started else id);
          mret (TText content)
      | EvCData content =>
          depth ← get_depth;
          _ ← lift (reject (depth =? 0) MalformedXml);
          mret (TText content)
      | EvGeneralRef name char_ref =>
          depth ← get_depth;
          _ ← lift (reject (depth =? 0) MalformedXml);
          char_ref ← lift (from_xml char_ref);
          match char_ref with
          | Some c => _ ← lift (reject (negb (legal_char c)) MalformedXml); mret (TText [c])
          | None => s ← lift (entity name); mret (TText s)
          end
      | EvDecl attributes =>
          (fun s => if in_started s || in_declaration s then Err MalformedXml else Ok ((), s)) ≫= fun _ =>
          _ ← update set_declaration;
          position ← lift (res_for read_decl attributes 0);
          _ ← lift (reject (position =? 0) MalformedXml);
          read_loop fuel
      | EvComment => _ ← update set_started; read_loop fuel
      | EvEof => mret TEof
      | EvDocType | EvPI => lift (Err ForbiddenXml)
      | EvOther => lift (Err MalformedXml)
      end
  end.
Definition event_fuel : nat := S (S (Z.to_nat (l_events l))).
Definition read : xread Token := fun s =>
  match in_look s with
  | Some t => Ok (t, set_look None s)
  | None => read_loop event_fuel s
  end.

Definition blank (s : rstr) : bool := forallb (fun c => (c =? 32) || (c =? 10) || (c =? 13) || (c =? 9)) s.
Fixpoint significant_loop (fuel : nat) : xread Token :=
  match fuel with
  | O => lift Panic
  | S fuel =>
      t ← read;
      match t with
      | TText s => if blank s then significant_loop fuel else mret t
      | _ => mret t
      end
  end.
Definition significant : xread Token := significant_loop event_fuel.
Definition named (ns name : rstr) (t : Token) : bool :=
  match t with TStart s => bool_decide (st_ns s = ns) && bool_decide (st_name s = name) | _ => false end.
Definition is_ (ns name : rstr) : xread bool :=
  t ← significant;
  _ ← update (set_look (Some t));
  mret (named ns name t).
Definition start (ns name : rstr) : xread Start :=
  t ← significant;
  match t with
  | TStart s =>
      if bool_decide (st_ns s = ns) && bool_decide (st_name s = name) then mret s
      else if bool_decide (st_name s = name) then lift (Err WrongNamespace) else lift (Err Structure)
  | _ => lift (Err Structure)
  end.
Definition open (ns name : rstr) : xread () := s ← start ns name; lift (Start_attrs s []).
Definition end_ (ns name : rstr) : xread () :=
  t ← significant;
  match t with
  | TEnd n k => lift (reject (negb (bool_decide (n = ns) && bool_decide (k = name))) Structure)
  | _ => lift (Err Structure)
  end.
Fixpoint content_loop (ns name : rstr) (max : Z) (empty : bool) (fuel : nat) (s : rstr) : xread rstr :=
  match fuel with
  | O => lift Panic
  | S fuel =>
      t ← read;
      match t with
      | TText t =>
          _ ← lift (n ← checked (str_len s + str_len t); bound n max);
          content_loop ns name max empty fuel (s ++ t)
      | TEnd n k =>
          if bool_decide (n = ns) && bool_decide (k = name)
          then _ ← lift (text s max empty); mret s
          else lift (Err Structure)
      | _ => lift (Err Structure)
      end
  end.
Definition content (ns name : rstr) (max : Z) (empty : bool) : xread rstr :=
  content_loop ns name max empty event_fuel [].
Definition scalar (ns name : rstr) (max : Z) (empty : bool) : xread rstr :=
  _ ← open ns name; content ns name max empty.
Definition optional (ns name : rstr) (max : Z) : xread (option rstr) :=
  present ← is_ ns name;
  if (present : bool) then v ← scalar ns name max false; mret (Some v) else mret None.
Definition finish : xread () :=
  t ← significant;
  depth ← get_depth;
  lift (reject (negb (match t with TEof => true | _ => false end && (depth =? 0))) Structure).
Definition command : xread () := fun s =>
  let n := in_commands s + 1 in
  _ ← bound n (l_commands l);
  Ok ((), mk_Input (in_bytes s) (in_position s) (in_look s) (in_budget s) (in_started s) (in_declaration s)
            n (in_items s)).
Definition item : xread () := fun s =>
  let n := in_items s + 1 in
  _ ← bound n (l_items l);
  Ok ((), mk_Input (in_bytes s) (in_position s) (in_look s) (in_budget s) (in_started s) (in_declaration s)
            (in_commands s) n).
End Reader.

(** ** The writer *)
Record Output : Type := mk_Output {
  out_bytes : bytes; out_max : Z; out_budget : Budget; out_bindings : list Z; out_active : Z;
  out_commands : Z; out_items : Z
}.
Definition xwrite : Type := Output -> xres Output.
(** Run one writer, then the other. *)
Definition then_write (a b : xwrite) : xwrite := fun w => match a w with Ok w => b w | e => e end.
Declare Scope xml_scope.
Delimit Scope xml_scope with xml.
Notation "a ;; b" := (then_write a b) (at level 100, right associativity) : xml_scope.
#[local] Open Scope xml_scope.
Definition skip_write : xwrite := Ok.
Definition fail_write (r : xres ()) : xwrite := fun w => match r with Ok _ => Ok w | Err e => Err e | Panic => Panic end.
Definition write_all {A} (f : A -> xwrite) (l : list A) : xwrite := fun w => res_for (fun w a => f a w) l w.
Definition write_opt {A} (f : A -> xwrite) (o : option A) : xwrite :=
  match o with Some a => f a | None => skip_write end.

Section Writer.
Context `{QX : QuickXml} (l : CodecLimits).

Definition Output_new (max : Z) : Output := mk_Output [] max Budget_new [] 0 0 0.
(** [Sink::write]: the chunks of one event fail together exactly when the event does not fit. *)
Definition sink (b : bytes) : xwrite := fun w =>
  _ ← reject (Z.max 0 (out_max w - zlen (out_bytes w)) <? zlen b) LimitExceeded;
  Ok (mk_Output (out_bytes w ++ b) (out_max w) (out_budget w) (out_bindings w) (out_active w)
        (out_commands w) (out_items w)).
Definition spend (f : Budget -> xres Budget) : xwrite := fun w =>
  b ← f (out_budget w);
  Ok (mk_Output (out_bytes w) (out_max w) b (out_bindings w) (out_active w) (out_commands w) (out_items w)).
Definition bind_names (n : Z) : xwrite := fun w =>
  _ ← bound (out_active w + n) (l_namespace_bindings l);
  Ok (mk_Output (out_bytes w) (out_max w) (out_budget w) (n :: out_bindings w) (out_active w + n)
        (out_commands w) (out_items w)).
Definition unbind_names : xwrite := fun w =>
  match out_bindings w with
  | n :: rest => Ok (mk_Output (out_bytes w) (out_max w) (out_budget w) rest (out_active w - n)
                       (out_commands w) (out_items w))
  | [] => Err Structure
  end.
Definition out_start (name : rstr) (attrs : list (rstr * rstr)) : xwrite :=
  spend (Budget_event l);;
  spend (fun b => Budget_start l b (zlen attrs));;
  bind_names (zlen (List.filter (fun a => is_xmlns a.1) attrs));;
  fail_write (res_for (fun _ a => text a.2 (l_field_bytes l) true) attrs ());;
  sink (write_start name attrs).
Definition out_end (name : rstr) : xwrite :=
  spend (Budget_event l);;
  spend (Budget_end Structure);;
  unbind_names;;
  sink (write_end name).
(** Characters the writer escapes: the reader reports each as a reference of its own. *)
Definition escaped (c : Z) : bool :=
  (c =? 38) || (c =? 60) || (c =? 62) || (c =? 34) || (c =? 39) || (c =? 13).
Definition charge_char (acc : Budget * bool) (c : Z) : xres (Budget * bool) :=
  let '(b, run) := acc in
  if escaped c then b ← Budget_event l b; Ok (b, false)
  else if negb run then b ← Budget_event l b; Ok (b, true)
  else Ok (b, run).
Definition out_content (value : rstr) (max : Z) : xwrite :=
  fail_write (text value max true);;
  if is_empty value then skip_write
  else spend (fun b => acc ← res_for charge_char value (b, false); Ok acc.1);; sink (write_text value).
Definition out_scalar (name value : rstr) (max : Z) (empty : bool) : xwrite :=
  fail_write (text value max empty);;
  out_start name [];;
  out_content value max;;
  out_end name.
Definition out_empty (name : rstr) : xwrite := out_start name [];; out_end name.
Definition out_finish (w : Output) : xres bytes :=
  b ← Budget_event l (out_budget w);
  _ ← reject (negb (b_depth b =? 0)) Structure;
  Ok (out_bytes w).
Definition out_command : xwrite := fun w =>
  let n := out_commands w + 1 in
  _ ← bound n (l_commands l);
  Ok (mk_Output (out_bytes w) (out_max w) (out_budget w) (out_bindings w) (out_active w) n (out_items w)).
Definition out_item : xwrite := fun w =>
  let n := out_items w + 1 in
  _ ← bound n (l_items l);
  Ok (mk_Output (out_bytes w) (out_max w) (out_budget w) (out_bindings w) (out_active w) (out_commands w) n).
End Writer.
