(* ===== verification/Declared.v ===== *)
(** * Declared configuration documents

    [windows-mdm]'s [native/declared.rs]: the desired document, its reported result and the
    summary a device announces, read with the bounded reader of [Xml]. *)
From S2P Require Import Prelude Ordered Text External Xml.

(** ** Errors and scopes ([native/mod.rs]) *)
Inductive NativeError : Type :=
| N_UnknownObject | N_Identity | N_Scope | N_MissingEvidence | N_Unsupported | N_OperationNotAllowed
| N_Value | N_UnresolvedConstraint | N_AtomicRequired | N_Limit.
#[export] Instance NativeError_eq_dec : EqDecision NativeError.
Proof. solve_decision. Defined.
Notation nres := (res NativeError).
Notation nread := (reader NativeError).
Inductive NativeScope : Type := Scope_Device | Scope_User.
#[export] Instance NativeScope_ord : Ord NativeScope :=
  cmp_on (fun s => match s with Scope_Device => 0 | Scope_User => 1 end).
#[export] Instance NativeScope_ord_laws : OrdLaws NativeScope.
Proof. apply cmp_on_laws. by intros [] []. Qed.

(** Every codec failure inside a document is an invalid value. *)
Definition malformed {A} (r : xres A) : nres A :=
  match r with Ok a => Ok a | Err _ => Err N_Value | Panic => Panic end.
Definition malformed_read {A} (m : xread A) : nread A := fun s => malformed (m s).

(** The scenarios of the pinned tables. *)
Definition DECLARED_SCENARIOS : list rstr :=
  [lit "MSFTClientCertificateInstall"; lit "MSFTExtensibilityMIProviderConfig";
   lit "MSFTExtensibilityMIProviderInventory"; lit "MSFTInventory"; lit "MSFTResource"; lit "MSFTVPN";
   lit "MSFTWifi"; lit "MSFTWiredNetwork"].
Definition lifecycle_state (state : Z) : bool :=
  between 0 3 state || between 10 11 state || between 20 21 state || (state =? 40) || between 60 63 state
  || between 70 72 state || between 80 82 state.
Definition pending_state (state : Z) : bool :=
  between 0 3 state || between 10 11 state || between 20 21 state || (state =? 40).
Definition u32_max : Z := 2 ^ 32 - 1.

(** ** Attributes *)
Definition attr (s : Start) (name : rstr) : nres rstr :=
  match Start_attr s [] name with
  | Some v => if is_empty v then Err N_Value else Ok v
  | None => Err N_Value
  end.
Definition attr_number (max : Z) (s : Start) (name : rstr) : nres (option Z) :=
  match Start_attr s [] name with
  | Some v => n ← ok_or (parse_unsigned max v) N_Value; Ok (Some n)
  | None => Ok None
  end.
Definition plain (names : list rstr) : list (rstr * rstr) := map (fun n => ([], n)) names.
Definition read_context (s : Start) : nres NativeScope :=
  v ← attr s (lit "context");
  if bool_decide (v = lit "Device") || bool_decide (v = lit "device") then Ok Scope_Device
  else if bool_decide (v = lit "User") || bool_decide (v = lit "user") then Ok Scope_User
  else Err N_Scope.
Definition root_attributes (s : Start) (result : bool) : nres () :=
  malformed (Start_attrs s
    (plain ([lit "schema"; lit "context"; lit "id"; lit "checksum"; lit "osdefinedscenario"]
      ++ if result then [lit "result_checksum"; lit "result_timestamp"; lit "operation"; lit "state"] else []))).
Definition identifier_byte (b : Z) : bool := is_ascii_alphanumeric b || (b =? 95).
(** The family of a group of resources: an MI class, or a provider's root node. *)
Definition family (s : Start) (dsc result : bool) : nres rstr :=
  _ ← malformed (Start_attrs s
        (plain ((if dsc then [lit "namespace"; lit "className"; lit "classname"] else [lit "name"])
          ++ if result then [lit "state"; lit "status"] else [])));
  if dsc then
    _ ← reject (given (Start_attr s [] (lit "className")) && given (Start_attr s [] (lit "classname"))) N_Value;
    class ← ok_or (match Start_attr s [] (lit "className") with
                   | Some c => Some c
                   | None => Start_attr s [] (lit "classname")
                   end) N_Value;
    _ ← reject (is_empty class || (256 <? str_len class) || negb (forallb identifier_byte class)) N_Value;
    ns ← attr s (lit "namespace");
    let ns := map (fun c => if c =? 92 then 47 else c) ns in
    _ ← reject ((256 <? str_len ns)
                || negb (forallb (fun p => negb (is_empty p) && forallb identifier_byte p) (split 47 ns)))
          N_Identity;
    Ok (to_ascii_lowercase ns ++ lit ":" ++ to_ascii_lowercase class)
  else
    name ← attr s (lit "name");
    _ ← reject (negb (starts_with (lit "./Vendor/MSFT/") name) || negb (zlen (split 47 name) =? 4)
                || existsb (fun c => (c =? 60) || (c =? 62) || (c =? 37)) name
                || bool_decide (name = lit "./Vendor/MSFT/DeclaredConfiguration")) N_Identity;
    Ok name.
(** The identity of one resource inside its family. *)
Definition member (s : Start) (family : rstr) (dsc result : bool) : nres rstr :=
  _ ← malformed (Start_attrs s
        (plain ((if dsc then [lit "name"] else [lit "path"; lit "type"])
          ++ if result then [lit "status"; lit "state"] else [])));
  path ← attr s (if dsc then lit "name" else lit "path");
  _ ← reject ((2048 <? str_len path) || starts_with (lit "/") path
              || existsb (fun p => is_empty p || bool_decide (p = lit ".") || bool_decide (p = lit "..")) (split 47 path))
        N_Identity;
  _ ← (if dsc then Ok () else
         ty ← attr s (lit "type");
         reject (negb (bool_decide (ty ∈ [lit "chr"; lit "int"; lit "bool"; lit "b64"; lit "bin"; lit "xml";
                                         lit "node"; lit "null"; lit "time"]))) N_Value);
  if dsc then
    _ ← reject (negb (forallb identifier_byte path)) N_Identity;
    Ok (family ++ lit "/" ++ st_name s ++ lit "/" ++ to_ascii_lowercase path)
  else Ok (family ++ lit "/" ++ path).

Section Declared.
Context `{QX : QuickXml} `{UC : UuidCrate} `{UT : !UuidText}.
Let l := CodecLimits_default.

(** ** Documents *)
Record Identity : Type := mk_Identity {
  id_id : Uuid; id_scope : NativeScope; id_checksum : rstr; id_scenario : rstr
}.
#[global] Instance Identity_eq_dec : EqDecision Identity.
Proof. solve_decision. Defined.
Record ResourceResult : Type := mk_ResourceResult {
  rr_identity : rstr; rr_status : option Z; rr_state : option Z
}.
Record ResourceValue : Type := mk_ResourceValue { rv_format : option rstr; rv_data : rstr }.
Record Document : Type := mk_Document {
  dc_identity : Identity; dc_resources : list (rstr * ResourceValue); dc_dsc : bool
}.
Record ResultDocument : Type := mk_ResultDocument {
  rd_identity : Identity; rd_result_checksum : rstr; rd_operation : rstr; rd_state : Z;
  rd_resources : list ResourceResult
}.
Record Summary : Type := mk_Summary {
  su_id : Uuid; su_scope : NativeScope; su_checksum : rstr; su_result_checksum : rstr; su_state : Z
}.

Definition read_identity (s : Start) : nres Identity :=
  schema ← attr s (lit "schema");
  _ ← reject (negb (bool_decide (schema = lit "1.0"))) N_Unsupported;
  sc ← read_context s;
  scenario ← attr s (lit "osdefinedscenario");
  _ ← reject (negb (bool_decide (scenario ∈ DECLARED_SCENARIOS))) N_Unsupported;
  checksum ← attr s (lit "checksum");
  _ ← reject ((256 <? str_len checksum) || has_control checksum) N_Value;
  id ← attr s (lit "id");
  id ← ok_or (uuid_parse_str id) N_Identity;
  _ ← reject (is_nil id) N_Identity;
  Ok (mk_Identity id sc checksum scenario).
Definition is_dsc (i : Identity) : bool := starts_with (lit "MSFTExtensibilityMIProvider") (id_scenario i).
Definition family_tag (dsc : bool) : rstr := if dsc then lit "DSC" else lit "CSP".

(** The condition and the tag of the loop over the resources of a family. *)
Definition member_next (dsc : bool) : nread bool :=
  first ← malformed_read (is_ l [] (if dsc then lit "Key" else lit "URI"));
  if (first : bool) then mret true
  else if dsc then malformed_read (is_ l [] (lit "Value")) else mret false.
Definition member_tag (dsc : bool) : nread rstr :=
  if negb dsc then mret (lit "URI") else
  key ← malformed_read (is_ l [] (lit "Key"));
  mret (if (key : bool) then lit "Key" else lit "Value").
Definition read_member (family : rstr) (dsc result : bool) : nread (rstr * Start * rstr) :=
  tag ← member_tag dsc;
  s ← malformed_read (start l [] tag);
  key ← lift (member s family dsc result);
  mret (tag, s, key).
Definition insert_member {V} (key : rstr) (v : V) (m : list (rstr * V)) : nres (list (rstr * V)) :=
  _ ← reject (bm_contains key m) N_Identity;
  let m := bm_insert key v m in
  _ ← reject (l_items l <? zlen m) N_Limit;
  Ok m.
Fixpoint document_members (fuel : nat) (family : rstr) (dsc : bool) (m : list (rstr * ResourceValue)) :
    nread (list (rstr * ResourceValue)) :=
  match fuel with
  | O => lift Panic
  | S fuel =>
      more ← member_next dsc;
      if (more : bool) then
        r ← read_member family dsc false;
        let '(tag, s, key) := (r : rstr * Start * rstr) in
        value ← malformed_read (content l [] tag (l_object_bytes l) true);
        m ← lift (insert_member key (mk_ResourceValue (Start_attr s [] (lit "type")) value) m);
        document_members fuel family dsc m
      else mret m
  end.
Fixpoint document_families (fuel : nat) (dsc : bool) (families : list rstr) (m : list (rstr * ResourceValue)) :
    nread (list rstr * list (rstr * ResourceValue)) :=
  match fuel with
  | O => lift Panic
  | S fuel =>
      more ← malformed_read (is_ l [] (family_tag dsc));
      if (more : bool) then
        s ← malformed_read (start l [] (family_tag dsc));
        fam ← lift (family s dsc false);
        _ ← lift (reject (dsc && bs_mem fam families) N_Identity);
        m ← document_members (event_fuel l) fam dsc m;
        _ ← malformed_read (end_ l [] (family_tag dsc));
        document_families fuel dsc (if dsc then bs_insert fam families else families) m
      else mret (families, m)
  end.
Definition run {A} (input : rstr) (m : nread A) : nres A :=
  s ← malformed (Input_new (str_bytes input) (l_object_bytes l));
  r ← m s;
  Ok r.1.
Definition Document_parse (xml : rstr) : nres Document :=
  run xml
    (root ← malformed_read (start l [] (lit "DeclaredConfiguration"));
     _ ← lift (root_attributes root false);
     identity ← lift (read_identity root);
     let dsc := is_dsc identity in
     _ ← lift (reject (dsc && negb (bool_decide (id_scope identity = Scope_Device))) N_Scope);
     r ← document_families (event_fuel l) dsc [] [];
     _ ← malformed_read (end_ l [] (lit "DeclaredConfiguration"));
     _ ← malformed_read (finish l);
     _ ← lift (reject (is_empty (r.2 : list (rstr * ResourceValue))
           || dsc && existsb (fun family => negb (existsb (starts_with (family ++ lit "/Key/")) (bm_keys r.2)))
                       (r.1 : list rstr)) N_Value);
     mret (mk_Document identity r.2 dsc)).

(** ** Results *)
Definition or_inherited (v inherited : option Z) : option Z := match v with Some v => Some v | None => inherited end.
Fixpoint result_members (fuel : nat) (family : rstr) (dsc : bool) (status state : option Z)
    (m : list (rstr * ResourceResult)) : nread (list (rstr * ResourceResult)) :=
  match fuel with
  | O => lift Panic
  | S fuel =>
      more ← member_next dsc;
      if (more : bool) then
        r ← read_member family dsc true;
        let '(tag, s, key) := (r : rstr * Start * rstr) in
        st ← lift (attr_number 65535 s (lit "status"));
        sa ← lift (attr_number u32_max s (lit "state"));
        _ ← malformed_read (content l [] tag (l_object_bytes l) true);
        m ← lift (insert_member key (mk_ResourceResult key (or_inherited st status) (or_inherited sa state)) m);
        result_members fuel family dsc status state m
      else mret m
  end.
Fixpoint result_families (fuel : nat) (dsc : bool) (state : Z) (families : list rstr)
    (m : list (rstr * ResourceResult)) : nread (list (rstr * ResourceResult)) :=
  match fuel with
  | O => lift Panic
  | S fuel =>
      more ← malformed_read (is_ l [] (family_tag dsc));
      if (more : bool) then
        s ← malformed_read (start l [] (family_tag dsc));
        fam ← lift (family s dsc true);
        _ ← lift (reject (dsc && bs_mem fam families) N_Identity);
        inherited_status ← lift (attr_number 65535 s (lit "status"));
        inherited_state ← lift (attr_number u32_max s (lit "state"));
        _ ← lift (reject (match inherited_status with Some v => negb (v =? 200) | None => false end
                          || match inherited_state with Some v => negb (v =? state) | None => false end) N_Value);
        m ← result_members (event_fuel l) fam dsc inherited_status inherited_state m;
        _ ← malformed_read (end_ l [] (family_tag dsc));
        result_families fuel dsc state (if dsc then bs_insert fam families else families) m
      else mret m
  end.
Definition ResultDocument_parse (xml : rstr) : nres ResultDocument :=
  run xml
    (root ← malformed_read (start l [] (lit "DeclaredConfigurationResult"));
     _ ← lift (root_attributes root true);
     identity ← lift (read_identity root);
     state ← lift (attr_number u32_max root (lit "state"));
     state ← lift (ok_or state N_Value);
     _ ← lift (reject (negb (lifecycle_state state)) N_Value);
     operation ← lift (attr root (lit "operation"));
     _ ← lift (reject (negb (bool_decide (operation ∈ [lit "Set"; lit "Get"; lit "Delete"]))) N_Value);
     result_checksum ← lift (attr root (lit "result_checksum"));
     _ ← lift (reject (256 <? str_len result_checksum) N_Limit);
     m ← result_families (event_fuel l) (is_dsc identity) state [] [];
     _ ← malformed_read (end_ l [] (lit "DeclaredConfigurationResult"));
     _ ← malformed_read (finish l);
     mret (mk_ResultDocument identity result_checksum operation state (bm_values m))).
Definition finishing (operation : rstr) (state : Z) : bool :=
  bool_decide (operation = lit "Set") && ((state =? 60) || (state =? 63))
  || bool_decide (operation = lit "Delete") && (state =? 70)
  || bool_decide (operation = lit "Get") && (state =? 80).
Definition in_progress (r : ResultDocument) (desired : Document) (operation : rstr) : bool :=
  bool_decide (rd_identity r = dc_identity desired) && bool_decide (rd_operation r = operation)
  && pending_state (rd_state r)
  && forallb (fun x => bm_contains (rr_identity x) (dc_resources desired)
       && match rr_status x with Some s => s =? 200 | None => true end
       && match rr_state x with Some s => pending_state s || finishing operation s | None => true end)
       (rd_resources r).
Definition success_state (operation : rstr) : option Z :=
  if bool_decide (operation = lit "Set") then Some 60
  else if bool_decide (operation = lit "Delete") then Some 70
  else if bool_decide (operation = lit "Get") then Some 80
  else None.
Definition converged (r : ResultDocument) (desired : Document) (operation : rstr) : bool :=
  match success_state operation with
  | None => false
  | Some success =>
      bool_decide (rd_identity r = dc_identity desired) && bool_decide (rd_operation r = operation)
      && (rd_state r =? success) && (zlen (rd_resources r) =? zlen (dc_resources desired))
      && forallb (fun x => bm_contains (rr_identity x) (dc_resources desired)
           && bool_decide (rr_status x = Some 200) && bool_decide (rr_state x = Some success)) (rd_resources r)
  end.

(** ** Summaries *)
Definition read_summary (s : Start) : nres Summary :=
  _ ← malformed (Start_attrs s
        (plain [lit "context"; lit "id"; lit "checksum"; lit "result_checksum"; lit "state"]));
  sc ← read_context s;
  id ← attr s (lit "id");
  id ← ok_or (uuid_parse_str id) N_Identity;
  _ ← reject (is_nil id) N_Identity;
  checksum ← attr s (lit "checksum");
  result_checksum ← attr s (lit "result_checksum");
  _ ← reject ((256 <? str_len checksum) || (256 <? str_len result_checksum)) N_Limit;
  state ← attr_number u32_max s (lit "state");
  state ← ok_or state N_Value;
  _ ← reject (negb (lifecycle_state state)) N_Value;
  Ok (mk_Summary id sc checksum result_checksum state).
Fixpoint summary_documents (fuel : nat) (m : list (NativeScope * Uuid * Summary)) :
    nread (list (NativeScope * Uuid * Summary)) :=
  match fuel with
  | O => lift Panic
  | S fuel =>
      more ← malformed_read (is_ l [] (lit "DeclaredConfiguration"));
      if (more : bool) then
        s ← malformed_read (start l [] (lit "DeclaredConfiguration"));
        v ← lift (read_summary s);
        _ ← lift (reject (bm_contains (su_scope v, su_id v) m) N_Identity);
        let m := bm_insert (su_scope v, su_id v) v m in
        _ ← lift (reject (l_items l <? zlen m) N_Limit);
        _ ← malformed_read (end_ l [] (lit "DeclaredConfiguration"));
        summary_documents fuel m
      else mret m
  end.
Definition summaries (xml : rstr) : nres (list Summary) :=
  run xml
    (root ← malformed_read (start l [] (lit "DeclaredConfigurations"));
     _ ← lift (malformed (Start_attrs root (plain [lit "schema"])));
     schema ← lift (attr root (lit "schema"));
     _ ← lift (reject (negb (bool_decide (schema = lit "1.0"))) N_Unsupported);
     m ← summary_documents (event_fuel l) [];
     _ ← malformed_read (end_ l [] (lit "DeclaredConfigurations"));
     _ ← malformed_read (finish l);
     mret (bm_values m)).
End Declared.
