(* ===== verification/DeclaredSpec.v ===== *)
(** * Declared configuration: convergence

    What the parsers guarantee of documents and results, and why a converged result accounts for
    every desired resource. *)
From S2P Require Import Prelude Ordered Text External Xml Declared.

(** ** Readers that succeeded *)
Lemma reader_bind_ok {E A B} (m : reader E A) (k : A -> reader E B) s r :
  (m ≫= k) s = Ok r <-> exists a s', m s = Ok (a, s') /\ k a s' = Ok r.
Proof.
  unfold mbind, reader_bind. destruct (m s) as [[a s']| |].
  - split; [by exists a, s'|]. by intros (? & ? & [= <- <-] & ?).
  - split; [done|]. by intros (? & ? & ? & _).
  - split; [done|]. by intros (? & ? & ? & _).
Qed.
Lemma reader_ret_ok {E A} (a : A) s (r : A * Input) : (mret a : reader E A) s = Ok r <-> r = (a, s).
Proof. unfold mret, reader_ret. split; [by intros [= <-]|by intros ->]. Qed.
Lemma reader_lift_ok {E A} (x : res E A) s a s' : lift x s = Ok (a, s') <-> x = Ok a /\ s' = s.
Proof. unfold lift. destruct x; split; try done; [by intros [= <- <-]|by intros [[= ->] ->]|by intros [? _]..]. Qed.

Lemma insert_member_ok {V} k (v : V) m m' : insert_member k v m = Ok m' -> m' = bm_insert k v m /\ bm_contains k m = false.
Proof.
  unfold insert_member. intros H. apply bind_ok in H as (? & Hc%reject_ok & H).
  by apply bind_ok in H as (? & _ & [= <-]).
Qed.
Lemma bm_contains_keys {V} k (m : list (rstr * V)) : bm_contains k m = true -> k ∈ bm_keys m.
Proof.
  unfold bm_contains. intros H. destruct (decide (k ∈ bm_keys m)) as [|Hn]; [done|]. apply bm_get_none in Hn. by rewrite Hn in H.
Qed.
Section Converge.
Context `{QX : QuickXml} `{UC : UuidCrate} `{UT : !UuidText}.

(** A parsed result holds one entry per identity. *)
Definition reports (m : list (rstr * ResourceResult)) : Prop :=
  bm_wf m /\ Forall (fun kv => rr_identity kv.2 = kv.1) m.
Lemma reports_insert k r m : rr_identity r = k -> reports m -> reports (bm_insert k r m).
Proof.
  intros Hr [Hk Hf]. split; [by apply bm_insert_wf|].
  induction m as [|[k' v'] m IH]; simpl; [by constructor|].
  inversion Hf as [|? ? Hv Hf']. subst. destruct (cmp (rr_identity r) k').
  - by constructor.
  - by constructor.
  - constructor; [done|]. apply IH; [|done]. unfold bm_wf in Hk |- *. simpl in Hk. by inversion Hk.
Qed.
Lemma result_members_reports fuel f dsc st sa m s m' s' : reports m ->
  result_members fuel f dsc st sa m s = Ok (m', s') -> reports m'.
Proof.
  revert m s. induction fuel as [|fuel IH]; intros m s Hm H; [done|]. cbn [result_members] in H.
  apply reader_bind_ok in H as ([] & s1 & _ & H); [|apply reader_ret_ok in H as [= -> ->]; done].
  apply reader_bind_ok in H as ([[tag x] key] & s2 & _ & H). do 2 (apply reader_bind_ok in H as (? & ? & _ & H)).
  apply reader_bind_ok in H as (? & ? & _ & H). apply reader_bind_ok in H as (m1 & s3 & [H1 ->]%reader_lift_ok & H).
  apply insert_member_ok in H1 as [-> _]. apply IH in H; [done|]. by apply reports_insert.
Qed.
Lemma result_families_reports fuel dsc state fams m s m' s' : reports m ->
  result_families fuel dsc state fams m s = Ok (m', s') -> reports m'.
Proof.
  revert fams m s. induction fuel as [|fuel IH]; intros fams m s Hm H; [done|]. cbn [result_families] in H.
  apply reader_bind_ok in H as ([] & s1 & _ & H); [|apply reader_ret_ok in H as [= -> ->]; done].
  do 6 (apply reader_bind_ok in H as (? & ? & _ & H)). apply reader_bind_ok in H as (m1 & ? & H1 & H).
  apply reader_bind_ok in H as (? & ? & _ & H). apply IH in H; [done|]. by eapply result_members_reports.
Qed.
Lemma document_members_keyed fuel f dsc m s m' s' : bm_wf m ->
  document_members fuel f dsc m s = Ok (m', s') -> bm_wf m'.
Proof.
  revert m s. induction fuel as [|fuel IH]; intros m s Hm H; [done|]. cbn [document_members] in H.
  apply reader_bind_ok in H as ([] & s1 & _ & H); [|apply reader_ret_ok in H as [= -> ->]; done].
  apply reader_bind_ok in H as ([[tag x] key] & s2 & _ & H). apply reader_bind_ok in H as (? & ? & _ & H).
  apply reader_bind_ok in H as (m1 & s3 & [H1 ->]%reader_lift_ok & H).
  apply insert_member_ok in H1 as [-> _]. apply IH in H; [done|]. by apply bm_insert_wf.
Qed.
Lemma document_families_keyed fuel dsc fams m s r s' : bm_wf m ->
  document_families fuel dsc fams m s = Ok (r, s') -> bm_wf r.2.
Proof.
  revert fams m s. induction fuel as [|fuel IH]; intros fams m s Hm H; [done|]. cbn [document_families] in H.
  apply reader_bind_ok in H as ([] & s1 & _ & H); [|apply reader_ret_ok in H as [= -> ->]; done].
  do 3 (apply reader_bind_ok in H as (? & ? & _ & H)). apply reader_bind_ok in H as (m1 & ? & H1 & H).
  apply reader_bind_ok in H as (? & ? & _ & H). apply IH in H; [done|]. by eapply document_members_keyed.
Qed.
Lemma run_ok {A} input (m : nread A) a : run input m = Ok a -> exists s s', m s = Ok (a, s').
Proof.
  unfold run. intros H. apply bind_ok in H as (s & _ & H). apply bind_ok in H as ([a' s'] & H & [= <-]). by exists s, s'.
Qed.
Lemma Document_keys xml d : Document_parse xml = Ok d -> NoDup (bm_keys (dc_resources d)).
Proof.
  unfold Document_parse. intros (s & s' & H)%run_ok. do 4 (apply reader_bind_ok in H as (? & ? & _ & H)).
  apply reader_bind_ok in H as (r & ? & H1 & H). do 3 (apply reader_bind_ok in H as (? & ? & _ & H)).
  apply reader_ret_ok in H as [= -> _]. simpl. apply document_families_keyed in H1; [|constructor].
  by apply sorted_nodup.
Qed.
Lemma ResultDocument_keys xml r : ResultDocument_parse xml = Ok r -> NoDup (map rr_identity (rd_resources r)).
Proof.
  unfold ResultDocument_parse. intros (s & s' & H)%run_ok. do 10 (apply reader_bind_ok in H as (? & ? & _ & H)).
  apply reader_bind_ok in H as (m & ? & H1 & H). do 2 (apply reader_bind_ok in H as (? & ? & _ & H)).
  apply reader_ret_ok in H as [= -> _]. simpl. apply result_families_reports in H1 as [Hk Hf]; [|by split; constructor].
  assert (map rr_identity (bm_values m) = bm_keys m) as ->; [|by apply sorted_nodup].
  clear Hk. unfold bm_values, bm_keys. rewrite map_map. apply map_ext_in. intros kv Hkv%list_elem_of_In.
  by apply (proj1 (Forall_forall _ _) Hf).
Qed.
(** As many distinct keys, all of them desired: every desired one is there. *)
Lemma same_keys (xs ys : list rstr) : NoDup xs -> NoDup ys -> xs ⊆ ys -> length xs = length ys -> ys ⊆ xs.
Proof.
  intros Hx Hy Hs Hl. assert (xs ≡ₚ ys) as Hp by (apply submseteq_length_Permutation; [by apply NoDup_submseteq|lia]).
  intros y. by rewrite Hp.
Qed.
Lemma converged_reports d r operation success : NoDup (bm_keys (dc_resources d)) -> NoDup (map rr_identity (rd_resources r)) ->
  success_state operation = Some success -> converged r d operation = true ->
  rd_identity r = dc_identity d /\ rd_operation r = operation /\ rd_state r = success /\
  forall key, key ∈ bm_keys (dc_resources d) <->
    exists x, x ∈ rd_resources r /\ rr_identity x = key /\ rr_status x = Some 200 /\ rr_state x = Some success.
Proof.
  intros Hd Hr Hs H. unfold converged in H. rewrite Hs in H.
  apply andb_true_iff in H as [H Hall]. bool_hyps. split_and!; [done|done|done|].
  rewrite forallb_true_iff in Hall.
  assert (forall x, x ∈ rd_resources r -> rr_identity x ∈ bm_keys (dc_resources d) /\ rr_status x = Some 200 /\
    rr_state x = Some success) as Hx.
  { intros x Hx%Hall. bool_hyps. split_and!; [|done..]. by apply bm_contains_keys. }
  assert (bm_keys (dc_resources d) ⊆ map rr_identity (rd_resources r)) as Hsub.
  { apply same_keys; [done|done| |].
    - intros k (x & -> & Hin)%list_elem_of_fmap. by apply Hx.
    - unfold bm_keys. rewrite !length_map. unfold zlen in *. lia. }
  intros key. split.
  - intros (x & -> & Hin)%Hsub%list_elem_of_fmap. exists x. destruct (Hx x Hin) as (_ & ? & ?). done.
  - intros (x & Hin & <- & _). by apply Hx.
Qed.
Lemma converged_not_in_progress d r operation operation' : converged r d operation = true ->
  in_progress r d operation' = false.
Proof.
  unfold converged, in_progress. destruct (success_state operation) as [success|] eqn:Es; [|done]. intros H.
  apply andb_true_iff in H as [H _]. bool_hyps. assert (pending_state (rd_state r) = false) as ->; [|by rewrite andb_false_r].
  unfold success_state in Es. destruct (bool_decide _); [|destruct (bool_decide _); [|destruct (bool_decide _)]];
    try discriminate Es; injection Es as <-;
    match goal with H : rd_state r = _ |- _ => by rewrite H end.
Qed.
End Converge.
