(* ===== verification/SyncmlModel.v ===== *)
(** * SyncML messages: data, validation and flattening

    [windows-mdm]'s [syncml.rs] (types, [flattened], [validate]) and [syncml/status.rs]. *)
From S2P Require Import Prelude Ordered Text External Xml Declared.

Definition NS : rstr := lit "SYNCML:SYNCML1.2".
Definition META : rstr := lit "syncml:metinf".
Definition UNENROLLMENT : rstr := lit "com.microsoft:mdm.unenrollment.userrequest".
Definition DECLARED_SUMMARY : rstr := lit "com.microsoft.mdm.declaredconfigurationdocuments".
Definition LOGIN_STATUS : rstr := lit "com.microsoft/MDM/LoginStatus".

(** ** Data *)
Record Meta : Type := mk_Meta {
  m_format : option rstr; m_media_type : option rstr; m_max_message_size : option Z;
  m_max_object_size : option Z; m_size : option Z
}.
#[export] Instance Meta_eq_dec : EqDecision Meta.
Proof. solve_decision. Defined.
Definition Meta_default : Meta := mk_Meta None None None None None.
Record Credential : Type := mk_Credential { cr_meta : Meta; cr_data : rstr }.
Record Header : Type := mk_Header {
  h_session_id : Z; h_message_id : Z; h_target : rstr; h_source : rstr;
  h_credential : option Credential; h_meta : option Meta
}.
Record Item : Type := mk_Item {
  more_data : bool; i_source : option rstr; i_target : option rstr; i_meta : option Meta; i_data : option rstr
}.
#[export] Instance Item_eq_dec : EqDecision Item.
Proof. solve_decision. Defined.
Inductive CommandName : Type :=
| N_Add | N_Atomic | N_Sequence | N_Delete | N_Exec | N_SyncHdr | N_Get | N_Status | N_Alert | N_Replace
| N_Results.
#[export] Instance CommandName_eq_dec : EqDecision CommandName.
Proof. solve_decision. Defined.
Record Challenge : Type := mk_Challenge { ch_media_type : rstr; ch_nonce : option rstr }.
Record Status : Type := mk_Status {
  s_id : Z; s_message_ref : Z; s_command_ref : Z; s_command : CommandName; s_target_refs : list rstr;
  s_source_refs : list rstr; s_code : Z; s_items : list Item; s_challenge : option Challenge;
  s_credential : option Credential
}.
Record Results : Type := mk_Results {
  r_id : Z; r_message_ref : option Z; r_command_ref : option Z; r_command : option CommandName;
  r_meta : option Meta; r_items : list Item
}.
Inductive LoginStatus : Type := Login_User | Login_Others | Login_None.
Definition LoginStatus_as_str (s : LoginStatus) : rstr :=
  match s with Login_User => lit "user" | Login_Others => lit "others" | Login_None => lit "none" end.
Inductive Alert : Type :=
| DeclaredConfiguration (summary : rstr) (explicit_format : bool)
| UnenrollmentRequested | ClientInitiated | MoreMessages | SessionAbort
| EndOfData (items : list Item)
| Generic (items : list Item)
| LoginAlert (status : LoginStatus) (explicit_format : bool).
Inductive Command : Type :=
| Add (id : Z) (meta : option Meta) (items : list Item)
| Replace (id : Z) (meta : option Meta) (items : list Item)
| Delete (id : Z) (meta : option Meta) (items : list Item)
| Exec (id : Z) (meta : option Meta) (items : list Item)
| Atomic (id : Z) (commands : list Command)
| Sequence (id : Z) (commands : list Command)
| Get (id : Z) (meta : option Meta) (items : list Item)
| StatusCommand (status : Status)
| ResultsCommand (results : Results)
| AlertCommand (id : Z) (alert : Alert)
| DevInfo (id : Z) (items : list Item).
Record Message : Type := mk_Message { header : Header; commands : list Command; final_message : bool }.

Definition CommandName_as_str (c : CommandName) : rstr :=
  match c with
  | N_Add => lit "Add" | N_Sequence => lit "Sequence" | N_Atomic => lit "Atomic" | N_Delete => lit "Delete"
  | N_Exec => lit "Exec" | N_SyncHdr => lit "SyncHdr" | N_Get => lit "Get" | N_Status => lit "Status"
  | N_Alert => lit "Alert" | N_Replace => lit "Replace" | N_Results => lit "Results"
  end.
Definition command_names : list CommandName :=
  [N_Add; N_Sequence; N_Atomic; N_Delete; N_Exec; N_SyncHdr; N_Get; N_Status; N_Alert; N_Replace; N_Results].
Definition CommandName_parse (s : rstr) : xres CommandName :=
  ok_or (List.find (fun c => bool_decide (s = CommandName_as_str c)) command_names) Unsupported.
Definition command_id (c : Command) : Z :=
  match c with
  | Atomic id _ | Sequence id _ | Add id _ _ | Delete id _ _ | Exec id _ _ | Replace id _ _ | Get id _ _
  | AlertCommand id _ | DevInfo id _ => id
  | StatusCommand s => s_id s
  | ResultsCommand r => r_id r
  end.

(** ** Receipts ([status.rs]) *)
Definition terminal_status (status : Z) : bool :=
  (200 <=? status) && negb ((status =? 202) || (status =? 206) || (status =? 213)).
Definition successful_status (kind : rstr) (status : Z) : bool :=
  if (status =? 200) || (status =? 214) then
    bool_decide (kind ∈ [lit "add"; lit "replace"; lit "delete"; lit "get"; lit "exec"; lit "atomic"; lit "sequence"])
  else if status =? 201 then bool_decide (kind = lit "add")
  else if status =? 204 then bool_decide (kind = lit "get")
  else if (status =? 210) || (status =? 211) then bool_decide (kind = lit "delete")
  else false.
Definition rejected_status (status : Z) : bool :=
  (status =? 215) || (status =? 216) || (400 <=? status) && (status <? 600) && negb (status =? 516).

Section Validation.
Context `{QX : QuickXml} `{UC : UuidCrate} `{UT : !UuidText} `{B64 : Base64Standard} (l : CodecLimits).

(** ** Flattening *)
(** The work list: a command, its depth and the atomic group it belongs to; its top is first. *)
Definition work : Type := Command * Z * option Z.
Definition targets_of (items : list Item) : list rstr := omap i_target items.
Definition added (additions : list (Z * list rstr)) (id : Z) : list rstr :=
  match bm_get id additions with Some s => s | None => [] end.
(** One popped command: the commands it pushes and the additions of its atomic group. *)
Definition expand (output pending : Z) (depth : Z) (atomic : option Z) (additions : list (Z * list rstr))
    (c : Command) : xres (list work * list (Z * list rstr)) :=
  match c with
  | Atomic id children =>
      _ ← reject (is_empty children) Structure;
      _ ← reject (given atomic) Unsupported;
      _ ← bound (output + pending + zlen children + 1) (l_commands l);
      Ok (map (fun c => (c, depth + 1, Some id)) children, additions)
  | Sequence _ children =>
      _ ← reject (is_empty children) Structure;
      _ ← bound (output + pending + zlen children + 1) (l_commands l);
      Ok (map (fun c => (c, depth + 1, atomic)) children, additions)
  | Get _ _ _ => _ ← reject (given atomic) Unsupported; Ok ([], additions)
  | Add _ _ items =>
      Ok ([], match atomic with
              | Some id => bm_insert id (foldl (fun s t => bs_insert t s) (added additions id) (targets_of items))
                             additions
              | None => additions
              end)
  | Replace _ _ items =>
      _ ← reject (match atomic with
                  | Some id => existsb (fun uri => bs_mem uri (added additions id)) (targets_of items)
                  | None => false
                  end) Unsupported;
      Ok ([], additions)
  | StatusCommand _ | ResultsCommand _ | AlertCommand _ _ | DevInfo _ _ =>
      _ ← reject (negb (depth =? 0)) Unsupported; Ok ([], additions)
  | Delete _ _ _ | Exec _ _ _ => Ok ([], additions)
  end.
Fixpoint flatten_loop (fuel : nat) (pending : list work) (output : list Command)
    (additions : list (Z * list rstr)) : xres (list Command) :=
  match pending with
  | [] => Ok output
  | (c, depth, atomic) :: pending =>
      match fuel with
      | O => Panic
      | S fuel =>
          _ ← bound depth (Z.min (l_depth l) 32);
          _ ← bound (zlen output + zlen pending + 1) (l_commands l);
          r ← expand (zlen output) (zlen pending) depth atomic additions c;
          flatten_loop fuel (r.1 ++ pending) (output ++ [c]) r.2
      end
  end.
(** Every command of the output was counted against the limit, so the loop ends. *)
Definition flatten_fuel : nat := S (Z.to_nat (l_commands l)).
Definition flattened (cs : list Command) : xres (list Command) :=
  _ ← bound (zlen cs) (l_commands l);
  flatten_loop flatten_fuel (map (fun c => (c, 0, None)) cs) [] [].

(** ** Metadata and items *)
Definition formats : list rstr :=
  [lit "chr"; lit "int"; lit "bool"; lit "b64"; lit "xml"; lit "bin"; lit "node"; lit "null"; lit "date";
   lit "time"; lit "float"].
Definition auth_types : list rstr := [lit "syncml:auth-basic"; lit "syncml:auth-md5"].
Definition is_ascii_space_or_control (b : Z) : bool :=
  (b =? 32) || (b =? 9) || (b =? 10) || (b =? 12) || (b =? 13) || (b <? 32) || (b =? 127).
Definition validate_meta (m : option Meta) (credential : bool) : xres () :=
  match m with
  | None => Ok ()
  | Some m =>
      _ ← match m_format m with
          | Some f => _ ← text f (l_identifier_bytes l) false; reject (negb (bool_decide (f ∈ formats))) Unsupported
          | None => Ok ()
          end;
      _ ← match m_media_type m with
          | Some t =>
              _ ← text t (l_uri_bytes l) false;
              if credential then reject (negb (bool_decide (t ∈ auth_types))) Unsupported
              else reject (negb (forallb (fun c => c <? 128) t) || existsb is_ascii_space_or_control t) Unsupported
          | None => Ok ()
          end;
      _ ← reject (match m_size m with Some s => l_object_bytes l <? s | None => false end) LimitExceeded;
      reject (bool_decide (m_max_message_size m = Some 0) || bool_decide (m_max_object_size m = Some 0)) InvalidValue
  end.
Definition dev_info : list rstr :=
  [lit "./DevInfo/DevId"; lit "./DevInfo/Man"; lit "./DevInfo/Mod"; lit "./DevInfo/DmV"; lit "./DevInfo/Lang"].
(** One item of a read, a result or the device information: its address must be new. *)
Definition validate_item (get devinfo : bool) (seen : list rstr) (i : Item) : xres (list rstr) :=
  _ ← reject (more_data i && (get || devinfo || negb (given (i_data i)))) Structure;
  uri ← (if get then
           _ ← reject (given (i_source i) || given (i_data i)) Structure; ok_or (i_target i) Structure
         else _ ← reject (given (i_target i)) Structure; ok_or (i_source i) Structure);
  _ ← text uri (l_uri_bytes l) false;
  _ ← reject (bs_mem uri seen) Duplicate;
  _ ← validate_meta (i_meta i) false;
  _ ← (if get then Ok () else data ← ok_or (i_data i) Structure; text data (l_object_bytes l) true);
  _ ← reject (devinfo && negb (bool_decide (uri ∈ dev_info))) Unsupported;
  _ ← (if devinfo then
         data ← ok_or (i_data i) Structure;
         text data (if bool_decide (uri = lit "./DevInfo/DevId") then l_identifier_bytes l else l_field_bytes l) false
       else Ok ());
  Ok (bs_insert uri seen).
Definition validate_items (items : list Item) (get devinfo : bool) : xres () :=
  _ ← reject (is_empty items) Structure;
  _ ← bound (zlen items) (l_items l);
  _ ← res_for (validate_item get devinfo) items [];
  reject (devinfo && negb (zlen items =? 5)) Structure.
Definition is_delete (c : Command) : bool := match c with Delete _ _ _ => true | _ => false end.
Definition is_replace (c : Command) : bool := match c with Replace _ _ _ => true | _ => false end.
Definition validate_mutation_item (c : Command) (seen : list rstr) (i : Item) : xres (list rstr) :=
  uri ← ok_or (i_target i) Structure;
  _ ← text uri (l_uri_bytes l) false;
  _ ← reject (starts_with (lit "/") uri || given (i_source i)) Structure;
  _ ← reject (bs_mem uri seen) Duplicate;
  _ ← validate_meta (i_meta i) false;
  _ ← reject (more_data i && (negb (given (i_data i)) || is_delete c)) Structure;
  _ ← reject (is_delete c && given (i_data i) || is_replace c && negb (given (i_data i))) Structure;
  _ ← match i_data i with Some data => text data (l_object_bytes l) true | None => Ok () end;
  Ok (bs_insert uri seen).
Definition validate_mutation (c : Command) (items : list Item) : xres () :=
  _ ← reject (is_empty items) Structure;
  _ ← bound (zlen items) (l_items l);
  _ ← res_for (validate_mutation_item c) items [];
  Ok ().
Definition validate_credential (c : option Credential) : xres () :=
  match c with
  | Some c => _ ← validate_meta (Some (cr_meta c)) true; text (cr_data c) (l_field_bytes l) false
  | None => Ok ()
  end.

(** ** Statuses *)
Definition validate_challenge (command : CommandName) (c : Challenge) : xres () :=
  _ ← reject (negb (bool_decide (command = N_SyncHdr)) || negb (bool_decide (ch_media_type c ∈ auth_types))) Unsupported;
  _ ← match ch_nonce c with
      | Some nonce =>
          _ ← text nonce (l_identifier_bytes l) false;
          reject (negb (match standard_decode nonce with
                        | Some b => (16 <=? zlen b) && (zlen b <=? 64)
                        | None => false
                        end)) InvalidValue
      | None => Ok ()
      end;
  reject (negb (Bool.eqb (bool_decide (ch_media_type c = lit "syncml:auth-md5")) (given (ch_nonce c)))) Structure.
Definition validate_ref (seen : list rstr) (r : rstr) : xres (list rstr) :=
  _ ← text r (l_uri_bytes l) false;
  _ ← reject (bs_mem r seen) Duplicate;
  Ok (bs_insert r seen).
Definition validate_refs (refs : list rstr) : xres () :=
  _ ← bound (zlen refs) (l_items l);
  _ ← res_for validate_ref refs [];
  Ok ().
Definition text_opt (value : option rstr) (max : Z) (empty : bool) : xres () :=
  match value with Some v => text v max empty | None => Ok () end.
Definition validate_detail (i : Item) : xres () :=
  _ ← reject (more_data i) Structure;
  _ ← text_opt (i_source i) (l_uri_bytes l) false;
  _ ← text_opt (i_target i) (l_uri_bytes l) false;
  _ ← validate_meta (i_meta i) false;
  _ ← text_opt (i_data i) (l_field_bytes l) true;
  reject (negb (given (i_data i)) && negb (given (i_source i)) && negb (given (i_target i))) Structure.
Definition validate_status (s : Status) : xres Z :=
  _ ← validate_credential (s_credential s);
  _ ← match s_challenge s with Some c => validate_challenge (s_command s) c | None => Ok () end;
  _ ← reject ((s_message_ref s =? 0) || negb (between 100 599 (s_code s))
              || negb (Bool.eqb (s_command_ref s =? 0) (bool_decide (s_command s = N_SyncHdr)))) InvalidValue;
  _ ← validate_refs (s_target_refs s);
  _ ← validate_refs (s_source_refs s);
  _ ← bound (zlen (s_items s)) (l_items l);
  _ ← res_for (fun _ i => validate_detail i) (s_items s) ();
  n ← checked (zlen (s_items s) + zlen (s_target_refs s));
  checked (n + zlen (s_source_refs s)).

(** ** Alerts and commands *)
Definition validate_interrupted (i : Item) : xres () :=
  _ ← reject (more_data i || given (i_data i) || negb (given (i_source i)) && negb (given (i_target i))) Structure;
  _ ← text_opt (i_source i) (l_uri_bytes l) false;
  text_opt (i_target i) (l_uri_bytes l) false.
Definition item_media_type (i : Item) : option rstr := i_meta i ≫= m_media_type.
(** The protocol items an alert counts for. *)
Definition validate_alert (a : Alert) : xres Z :=
  match a with
  | EndOfData items =>
      _ ← reject (is_empty items) Structure;
      _ ← res_for (fun _ i => validate_interrupted i) items ();
      Ok (zlen items)
  | Generic items =>
      _ ← validate_items items false false;
      _ ← reject (existsb (fun i => negb (given (item_media_type i))) items) Structure;
      Ok (zlen items)
  | DeclaredConfiguration summary _ =>
      _ ← text summary (l_field_bytes l) false;
      _ ← match summaries summary with Ok _ => Ok () | Err _ => Err InvalidValue | Panic => Panic end;
      Ok 1
  | LoginAlert status explicit_format =>
      _ ← text LOGIN_STATUS (l_uri_bytes l) false;
      _ ← text (LoginStatus_as_str status) (l_field_bytes l) false;
      _ ← (if explicit_format then text (lit "chr") (l_identifier_bytes l) false else Ok ());
      Ok 1
  | UnenrollmentRequested | ClientInitiated | MoreMessages | SessionAbort => Ok 0
  end.
Definition fragmented (c : Command) : bool :=
  match c with
  | Add _ _ items | Replace _ _ items | Exec _ _ items => existsb more_data items
  | _ => false
  end.
Definition starts_session (a : Alert) : bool :=
  match a with ClientInitiated | LoginAlert _ _ | UnenrollmentRequested => true | _ => false end.
(** One flattened command: the items it counts for. *)
Definition validate_command (c : Command) : xres Z :=
  match c with
  | Atomic _ children | Sequence _ children =>
      flat ← flattened children;
      _ ← reject (existsb fragmented flat) Structure;
      Ok 0
  | Add _ meta items | Replace _ meta items | Delete _ meta items | Exec _ meta items =>
      _ ← validate_meta meta false; _ ← validate_mutation c items; Ok (zlen items)
  | Get _ meta items => _ ← validate_meta meta false; _ ← validate_items items true false; Ok (zlen items)
  | DevInfo _ items => _ ← validate_items items false true; Ok (zlen items)
  | AlertCommand _ alert => validate_alert alert
  | ResultsCommand r =>
      _ ← reject (bool_decide (r_message_ref r = Some 0) || bool_decide (r_command_ref r = Some 0)
                  || match r_command r with Some c => negb (bool_decide (c = N_Get)) | None => false end) InvalidValue;
      _ ← validate_meta (r_meta r) false;
      _ ← validate_items (r_items r) false false;
      Ok (zlen (r_items r))
  | StatusCommand s => validate_status s
  end.
Definition validate_step (acc : list Z * Z) (c : Command) : xres (list Z * Z) :=
  let '(ids, count) := acc in
  _ ← reject (command_id c =? 0) InvalidValue;
  _ ← reject (bs_mem (command_id c) ids) Duplicate;
  n ← validate_command c;
  count ← checked (count + n);
  _ ← bound count (l_items l);
  Ok (bs_insert (command_id c) ids, count).

(** ** Initialization *)
Definition initializes (c : Command) : bool :=
  match c with DevInfo _ _ => true | AlertCommand _ a => starts_session a | _ => false end.
Definition is_status (c : Command) : bool := match c with StatusCommand _ => true | _ => false end.
Definition initialization_companion (c : Command) : bool :=
  match c with AlertCommand _ (Generic _) | AlertCommand _ (DeclaredConfiguration _ _) => true | _ => false end.
(** Generic notifications only follow the alert that opens the session. *)
Definition notification_step (initiated : bool) (c : Command) : xres bool :=
  match c with
  | AlertCommand _ ClientInitiated | AlertCommand _ (LoginAlert _ _) => Ok true
  | AlertCommand _ (Generic _) => _ ← reject (negb initiated) Structure; Ok initiated
  | _ => Ok initiated
  end.
Definition validate_notification_order (cs : list Command) : xres () :=
  _ ← res_for notification_step cs false; Ok ().
Definition unenrolling (init : list Command) : bool :=
  match init with
  | [AlertCommand _ UnenrollmentRequested] | [AlertCommand _ UnenrollmentRequested; DevInfo _ _] => true
  | _ => false
  end.
Definition opening (init : list Command) : bool :=
  match init with
  | [AlertCommand _ ClientInitiated; DevInfo _ _]
  | [AlertCommand _ (LoginAlert _ _); DevInfo _ _]
  | [AlertCommand _ ClientInitiated; AlertCommand _ (LoginAlert _ _); DevInfo _ _]
  | [AlertCommand _ (LoginAlert _ _); AlertCommand _ ClientInitiated; DevInfo _ _] => true
  | _ => false
  end.
Fixpoint skip_while {A} (p : A -> bool) (s : list A) : list A :=
  match s with a :: s' => if p a then skip_while p s' else s | [] => [] end.
Definition validate_initialization (cs : list Command) (final : bool) : xres () :=
  _ ← validate_notification_order cs;
  let init := List.filter (fun c => negb (is_status c) && negb (initialization_companion c)) cs in
  _ ← reject (negb (unenrolling init || opening init) || unenrolling init && negb final) Structure;
  reject (existsb is_status (skip_while is_status cs)) Structure.
Definition validate_body (cs : list Command) (final : bool) : xres () :=
  _ ← bound (zlen cs) (l_commands l);
  _ ← reject (is_empty cs) Structure;
  flat ← flattened cs;
  _ ← res_for validate_step flat ([], 0);
  if existsb initializes flat then validate_initialization cs final else Ok ().
Definition unfinished (c : Command) : bool :=
  match c with ResultsCommand r => existsb more_data (r_items r) | _ => fragmented c end.
Definition validate (m : Message) : xres () :=
  let h := header m in
  _ ← reject ((h_session_id h =? 0) || (65535 <? h_session_id h) || (h_message_id h =? 0)) InvalidValue;
  _ ← text (h_target h) (l_uri_bytes l) false;
  _ ← text (h_source h) (l_uri_bytes l) false;
  _ ← validate_meta (h_meta h) false;
  _ ← validate_credential (h_credential h);
  _ ← (if final_message m then
         flat ← flattened (commands m);
         reject (existsb unfinished flat) Structure
       else Ok ());
  validate_body (commands m) (final_message m).
End Validation.
