(* ===== verification/SyncmlCodec.v ===== *)
(** * SyncML messages: the wire codec

    [windows-mdm]'s [syncml.rs]: [encode] and its writers, [decode] and its readers. *)
From S2P Require Import Prelude Ordered Text External Xml Declared SyncmlModel.
#[local] Open Scope xml_scope.

Section Codec.
Context `{QX : QuickXml} `{UC : UuidCrate} `{UT : !UuidText} `{B64 : Base64Standard} (l : CodecLimits).

Definition unenrollment_item : Item :=
  mk_Item false None None (Some (mk_Meta (Some (lit "int")) (Some UNENROLLMENT) None None None)) (Some (lit "1")).

(** ** Writing *)
Definition write_element (name : rstr) (attrs : list (rstr * rstr)) (inner : xwrite) : xwrite :=
  out_start l name attrs;; inner;; out_end l name.
(** A metainformation element: its own namespace is declared on it. *)
Definition write_metinf (name value : rstr) (max : Z) : xwrite :=
  write_element name [(lit "xmlns", META)] (out_content l value max).
Definition write_number_meta (e : rstr * option Z) : xwrite :=
  write_opt (fun v => write_metinf e.1 (int_to_string v) (l_identifier_bytes l)) e.2.
Definition write_meta (m : option Meta) : xwrite :=
  write_opt (fun m =>
    write_element (lit "Meta") []
      (write_opt (fun v => write_metinf (lit "Format") v (l_identifier_bytes l)) (m_format m);;
       write_opt (fun v => write_metinf (lit "Type") v (l_uri_bytes l)) (m_media_type m);;
       write_all write_number_meta
         [(lit "MaxMsgSize", m_max_message_size m); (lit "MaxObjSize", m_max_object_size m); (lit "Size", m_size m)])) m.
Definition write_location (name value : rstr) : xwrite :=
  write_element name [] (out_scalar l (lit "LocURI") value (l_uri_bytes l) false).
Definition write_item (i : Item) : xwrite :=
  out_item l;;
  write_element (lit "Item") []
    (write_opt (write_location (lit "Target")) (i_target i);;
     write_opt (write_location (lit "Source")) (i_source i);;
     write_meta (i_meta i);;
     write_opt (fun v => out_scalar l (lit "Data") v (l_object_bytes l) true) (i_data i);;
     (if more_data i then out_empty l (lit "MoreData") else skip_write)).
Definition write_items (items : list Item) : xwrite := write_all write_item items.
Definition write_num (name : rstr) (n : Z) : xwrite :=
  out_scalar l name (int_to_string n) (l_identifier_bytes l) false.
Definition write_credential (c : option Credential) : xwrite :=
  write_opt (fun c =>
    write_element (lit "Cred") []
      (write_meta (Some (cr_meta c));; out_scalar l (lit "Data") (cr_data c) (l_field_bytes l) false)) c.
Definition write_ref (name value : rstr) : xwrite :=
  out_item l;; out_scalar l name value (l_uri_bytes l) false.
Definition write_refs (s : Status) : xwrite :=
  write_all (write_ref (lit "TargetRef")) (s_target_refs s);;
  write_all (write_ref (lit "SourceRef")) (s_source_refs s).
Definition write_challenge (c : Challenge) : xwrite :=
  write_element (lit "Chal") []
    (write_element (lit "Meta") []
      (write_metinf (lit "Format") (lit "b64") (l_identifier_bytes l);;
       write_metinf (lit "Type") (ch_media_type c) (l_uri_bytes l);;
       write_opt (fun nonce => write_metinf (lit "NextNonce") nonce (l_identifier_bytes l)) (ch_nonce c))).
(** A status with a challenge or a credential has its references first (the OMA grammar). *)
Definition is_oma (s : Status) : bool := given (s_challenge s) || given (s_credential s).
Definition write_status (s : Status) : xwrite :=
  write_num (lit "MsgRef") (s_message_ref s);;
  write_num (lit "CmdRef") (s_command_ref s);;
  out_scalar l (lit "Cmd") (CommandName_as_str (s_command s)) (l_identifier_bytes l) false;;
  (if is_oma s then write_refs s else skip_write);;
  write_credential (s_credential s);;
  write_opt write_challenge (s_challenge s);;
  write_num (lit "Data") (s_code s);;
  write_items (s_items s);;
  (if is_oma s then skip_write else write_refs s).
Definition write_typed_alert (kind value : rstr) (explicit_format : bool) : xwrite :=
  out_item l;;
  write_element (lit "Item") []
    (write_element (lit "Meta") []
       (write_metinf (lit "Type") kind (l_uri_bytes l);;
        (if explicit_format then write_metinf (lit "Format") (lit "chr") (l_identifier_bytes l) else skip_write));;
     out_scalar l (lit "Data") value (l_field_bytes l) false).
Definition alert_code (a : Alert) : Z :=
  match a with
  | ClientInitiated => 1201
  | MoreMessages => 1222
  | SessionAbort => 1223
  | EndOfData _ => 1225
  | LoginAlert _ _ | DeclaredConfiguration _ _ => 1224
  | Generic _ | UnenrollmentRequested => 1226
  end.
Definition write_alert (a : Alert) : xwrite :=
  write_num (lit "Data") (alert_code a);;
  match a with
  | EndOfData items | Generic items => write_items items
  | UnenrollmentRequested => write_items [unenrollment_item]
  | DeclaredConfiguration summary explicit_format => write_typed_alert DECLARED_SUMMARY summary explicit_format
  | LoginAlert status explicit_format => write_typed_alert LOGIN_STATUS (LoginStatus_as_str status) explicit_format
  | ClientInitiated | MoreMessages | SessionAbort => skip_write
  end.
Definition command_element (c : Command) : rstr :=
  match c with
  | Atomic _ _ => lit "Atomic"
  | Sequence _ _ => lit "Sequence"
  | Add _ _ _ => lit "Add"
  | Exec _ _ _ => lit "Exec"
  | Delete _ _ _ => lit "Delete"
  | Get _ _ _ => lit "Get"
  | StatusCommand _ => lit "Status"
  | ResultsCommand _ => lit "Results"
  | AlertCommand _ _ => lit "Alert"
  | DevInfo _ _ | Replace _ _ _ => lit "Replace"
  end.
Definition write_results (r : Results) : xwrite :=
  write_opt (write_num (lit "MsgRef")) (r_message_ref r);;
  write_opt (write_num (lit "CmdRef")) (r_command_ref r);;
  write_opt (fun v => out_scalar l (lit "Cmd") (CommandName_as_str v) (l_identifier_bytes l) false) (r_command r);;
  write_meta (r_meta r);;
  write_items (r_items r).
Fixpoint write_command (c : Command) : xwrite :=
  out_command l;;
  write_element (command_element c) []
    (write_num (lit "CmdID") (command_id c);;
     match c with
     | Atomic _ children | Sequence _ children => write_all write_command children
     | Get _ meta items | Add _ meta items | Replace _ meta items | Delete _ meta items | Exec _ meta items =>
         write_meta meta;; write_items items
     | DevInfo _ items => write_items items
     | AlertCommand _ alert => write_alert alert
     | StatusCommand s => write_status s
     | ResultsCommand r => write_results r
     end).
Definition write_commands (cs : list Command) : xwrite := write_all write_command cs.
Definition write_header (h : Header) : xwrite :=
  write_element (lit "SyncHdr") []
    (out_scalar l (lit "VerDTD") (lit "1.2") (l_identifier_bytes l) false;;
     out_scalar l (lit "VerProto") (lit "DM/1.2") (l_identifier_bytes l) false;;
     write_num (lit "SessionID") (h_session_id h);;
     write_num (lit "MsgID") (h_message_id h);;
     write_location (lit "Target") (h_target h);;
     write_location (lit "Source") (h_source h);;
     write_credential (h_credential h);;
     write_meta (h_meta h)).
Definition write_body (m : Message) : xwrite :=
  write_element (lit "SyncBody") []
    (write_commands (commands m);; (if final_message m then out_empty l (lit "Final") else skip_write)).
Definition write_message (m : Message) : xwrite :=
  write_element (lit "SyncML") [(lit "xmlns", NS)] (write_header (header m);; write_body m).
Definition encode (m : Message) : xres bytes :=
  _ ← validate l m;
  w ← write_message m (Output_new (l_syncml_bytes l));
  out_finish l w.

(** ** Reading

    Every turn of a loop takes a token, so the event budget is fuel enough for all of them. *)
Definition number (s : rstr) (zero : bool) : xres Z :=
  _ ← reject (is_empty s || negb (forallb is_ascii_digit s)) InvalidValue;
  n ← ok_or (parse_unsigned u32_max s) InvalidValue;
  _ ← reject ((n =? 0) && negb zero) InvalidValue;
  Ok n.
Definition num (name : rstr) (zero : bool) : xread Z :=
  v ← scalar l NS name (l_identifier_bytes l) false; lift (number v zero).
Definition location (name : rstr) : xread rstr :=
  _ ← open l NS name;
  s ← scalar l NS (lit "LocURI") (l_uri_bytes l) false;
  _ ← end_ l NS name;
  mret s.
Definition optional_location (name : rstr) : xread (option rstr) :=
  present ← is_ l NS name;
  if (present : bool) then v ← location name; mret (Some v) else mret None.
(** [field.replace(value).is_some()] is a duplicate. *)
Definition once {A} (old : option A) (v : A) : xres (option A) :=
  match old with Some _ => Err Duplicate | None => Ok (Some v) end.
Definition metinf (name : rstr) (max : Z) : xread rstr := scalar l META name max false.
Definition metinf_number (name : rstr) (zero : bool) : xread Z :=
  v ← metinf name (l_identifier_bytes l); lift (number v zero).
(** One turn of the loop over the children of [Meta]: [None] when none is left. *)
Definition meta_step (m : Meta) : xread (option Meta) :=
  format ← is_ l META (lit "Format");
  if (format : bool) then
    v ← metinf (lit "Format") (l_identifier_bytes l);
    v ← lift (once (m_format m) v);
    mret (Some (mk_Meta v (m_media_type m) (m_max_message_size m) (m_max_object_size m) (m_size m)))
  else
  type ← is_ l META (lit "Type");
  if (type : bool) then
    v ← metinf (lit "Type") (l_uri_bytes l);
    v ← lift (once (m_media_type m) v);
    mret (Some (mk_Meta (m_format m) v (m_max_message_size m) (m_max_object_size m) (m_size m)))
  else
  message_size ← is_ l META (lit "MaxMsgSize");
  if (message_size : bool) then
    v ← metinf_number (lit "MaxMsgSize") false;
    v ← lift (once (m_max_message_size m) v);
    mret (Some (mk_Meta (m_format m) (m_media_type m) v (m_max_object_size m) (m_size m)))
  else
  size ← is_ l META (lit "Size");
  if (size : bool) then
    v ← metinf_number (lit "Size") true;
    v ← lift (once (m_size m) v);
    mret (Some (mk_Meta (m_format m) (m_media_type m) (m_max_message_size m) (m_max_object_size m) v))
  else
  object_size ← is_ l META (lit "MaxObjSize");
  if (object_size : bool) then
    v ← metinf_number (lit "MaxObjSize") false;
    v ← lift (once (m_max_object_size m) v);
    mret (Some (mk_Meta (m_format m) (m_media_type m) (m_max_message_size m) v (m_size m)))
  else mret None.
Fixpoint meta_loop (fuel : nat) (m : Meta) : xread Meta :=
  match fuel with
  | O => lift Panic
  | S fuel =>
      r ← meta_step m;
      match r with Some m => meta_loop fuel m | None => mret m end
  end.
Definition meta : xread (option Meta) :=
  present ← is_ l NS (lit "Meta");
  if negb (present : bool) then mret None else
  _ ← open l NS (lit "Meta");
  m ← meta_loop (event_fuel l) Meta_default;
  _ ← end_ l NS (lit "Meta");
  mret (Some m).
Definition read_data (max : Z) : xread (option rstr) :=
  present ← is_ l NS (lit "Data");
  if (present : bool) then v ← scalar l NS (lit "Data") max true; mret (Some v) else mret None.
Definition read_more : xread bool :=
  present ← is_ l NS (lit "MoreData");
  if (present : bool) then
    _ ← open l NS (lit "MoreData");
    _ ← end_ l NS (lit "MoreData");
    mret true
  else mret false.
Definition read_item : xread Item :=
  _ ← item l;
  _ ← open l NS (lit "Item");
  target ← optional_location (lit "Target");
  source ← optional_location (lit "Source");
  m ← meta;
  data ← read_data (l_object_bytes l);
  more ← read_more;
  _ ← end_ l NS (lit "Item");
  mret (mk_Item more source target m data).
Fixpoint items_loop (fuel : nat) (out : list Item) : xread (list Item) :=
  match fuel with
  | O => lift Panic
  | S fuel =>
      present ← is_ l NS (lit "Item");
      if (present : bool) then i ← read_item; items_loop fuel (out ++ [i]) else mret out
  end.
Definition items : xread (list Item) :=
  out ← items_loop (event_fuel l) [];
  _ ← lift (reject (is_empty out) Structure);
  mret out.
Definition read_login_status : xread Alert :=
  _ ← item l;
  _ ← open l NS (lit "Item");
  m ← meta;
  m ← lift (ok_or m Structure);
  _ ← lift (reject (match m_format m with Some v => negb (bool_decide (v = lit "chr")) | None => false end
                    || given (m_size m) || given (m_max_message_size m) || given (m_max_object_size m)) Unsupported);
  value ← scalar l NS (lit "Data") (l_field_bytes l) false;
  _ ← end_ l NS (lit "Item");
  lift (if bool_decide (m_media_type m = Some LOGIN_STATUS) then
          (if bool_decide (value = lit "user") then Ok (LoginAlert Login_User (given (m_format m)))
           else if bool_decide (value = lit "others") then Ok (LoginAlert Login_Others (given (m_format m)))
           else if bool_decide (value = lit "none") then Ok (LoginAlert Login_None (given (m_format m)))
           else Err Unsupported)
        else if bool_decide (m_media_type m = Some DECLARED_SUMMARY) then
          match summaries value with
          | Ok _ => Ok (DeclaredConfiguration value (given (m_format m)))
          | Err _ => Err InvalidValue
          | Panic => Panic
          end
        else Err Unsupported).
Fixpoint refs_loop (fuel : nat) (name : rstr) (out : list rstr) : xread (list rstr) :=
  match fuel with
  | O => lift Panic
  | S fuel =>
      present ← is_ l NS name;
      if (present : bool) then
        _ ← lift (bound (zlen out + 1) (l_items l));
        v ← scalar l NS name (l_uri_bytes l) false;
        refs_loop fuel name (out ++ [v])
      else mret out
  end.
Definition refs (name : rstr) : xread (list rstr) := refs_loop (event_fuel l) name [].
Definition read_credential : xread (option Credential) :=
  present ← is_ l NS (lit "Cred");
  if negb (present : bool) then mret None else
  _ ← open l NS (lit "Cred");
  m ← meta;
  m ← lift (ok_or m Structure);
  data ← scalar l NS (lit "Data") (l_field_bytes l) false;
  _ ← end_ l NS (lit "Cred");
  mret (Some (mk_Credential m data)).
Definition read_challenge : xread (option Challenge) :=
  present ← is_ l NS (lit "Chal");
  if negb (present : bool) then mret None else
  _ ← open l NS (lit "Chal");
  _ ← open l NS (lit "Meta");
  format ← optional l META (lit "Format") (l_identifier_bytes l);
  _ ← lift (reject (match format with Some f => negb (bool_decide (f = lit "b64")) | None => false end) Unsupported);
  media_type ← scalar l META (lit "Type") (l_uri_bytes l) false;
  nonce ← optional l META (lit "NextNonce") (l_identifier_bytes l);
  _ ← end_ l NS (lit "Meta");
  _ ← end_ l NS (lit "Chal");
  mret (Some (mk_Challenge media_type nonce)).
Definition read_status : xread Status :=
  _ ← command l;
  _ ← open l NS (lit "Status");
  id ← num (lit "CmdID") false;
  message_ref ← num (lit "MsgRef") false;
  command_ref ← num (lit "CmdRef") true;
  name ← scalar l NS (lit "Cmd") (l_identifier_bytes l) false;
  name ← lift (CommandName_parse name);
  at_data ← is_ l NS (lit "Data");
  target_refs ← refs (lit "TargetRef");
  source_refs ← refs (lit "SourceRef");
  credential ← read_credential;
  challenge ← read_challenge;
  code ← num (lit "Data") false;
  _ ← lift (reject (65535 <? code) InvalidValue);
  at_item ← is_ l NS (lit "Item");
  details ← (if (at_item : bool) then items else mret []);
  trailing ← (if (at_data : bool) then
                t ← refs (lit "TargetRef"); s ← refs (lit "SourceRef"); mret (t, s)
              else mret (target_refs, source_refs));
  _ ← end_ l NS (lit "Status");
  mret (mk_Status id message_ref command_ref name trailing.1 trailing.2 code details challenge credential).
Definition optional_num (name : rstr) : xread (option Z) :=
  v ← optional l NS name (l_identifier_bytes l);
  match v with Some s => n ← lift (number s false); mret (Some n) | None => mret None end.
Definition read_results : xread Results :=
  _ ← command l;
  _ ← open l NS (lit "Results");
  id ← num (lit "CmdID") false;
  message_ref ← optional_num (lit "MsgRef");
  command_ref ← optional_num (lit "CmdRef");
  name ← optional l NS (lit "Cmd") (l_identifier_bytes l);
  name ← match name with Some s => n ← lift (CommandName_parse s); mret (Some n) | None => mret None end;
  m ← meta;
  values ← items;
  _ ← end_ l NS (lit "Results");
  mret (mk_Results id message_ref command_ref name m values).
Definition read_generic : xread Alert :=
  correlator ← is_ l NS (lit "Correlator");
  _ ← lift (reject correlator Unsupported);
  values ← items;
  if existsb (fun i => bool_decide (item_media_type i = Some UNENROLLMENT)) values then
    _ ← lift (reject (negb (bool_decide (values = [unenrollment_item]))) InvalidValue);
    mret UnenrollmentRequested
  else mret (Generic values).
Definition read_alert_body (code : Z) : xread Alert :=
  if code =? 1201 then mret ClientInitiated
  else if code =? 1222 then mret MoreMessages
  else if code =? 1223 then mret SessionAbort
  else if code =? 1225 then values ← items; mret (EndOfData values)
  else if code =? 1224 then read_login_status
  else if code =? 1226 then read_generic
  else lift (Err Unsupported).
Definition read_alert : xread Command :=
  _ ← command l;
  _ ← open l NS (lit "Alert");
  id ← num (lit "CmdID") false;
  code ← num (lit "Data") false;
  alert ← read_alert_body code;
  _ ← end_ l NS (lit "Alert");
  mret (AlertCommand id alert).
(** The shape [Get], [Add], [Delete], [Exec] and [Replace] share. *)
Definition read_simple (name : rstr) : xread (Z * option Meta * list Item) :=
  _ ← command l;
  _ ← open l NS name;
  id ← num (lit "CmdID") false;
  m ← meta;
  values ← items;
  _ ← end_ l NS name;
  mret (id, m, values).
(** Device-to-server [Replace] without any target is the device information. *)
Definition read_replace : xread Command :=
  r ← read_simple (lit "Replace");
  let '(id, m, values) := (r : Z * option Meta * list Item) in
  if existsb (fun i => given (i_target i)) values then mret (Replace id m values)
  else _ ← lift (reject (given m) Unsupported); mret (DevInfo id values).
Fixpoint commands_loop (group : xread (list Command)) (fuel : nat) (out : list Command) : xread (list Command) :=
  match fuel with
  | O => lift Panic
  | S fuel =>
      let read_group (name : rstr) (build : Z -> list Command -> Command) : xread Command :=
        _ ← command l;
        _ ← open l NS name;
        id ← num (lit "CmdID") false;
        children ← group;
        _ ← end_ l NS name;
        mret (build id children) in
      let next (c : Command) := commands_loop group fuel (out ++ [c]) in
      atomic ← is_ l NS (lit "Atomic");
      if (atomic : bool) then c ← read_group (lit "Atomic") Atomic; next c else
      sequence ← is_ l NS (lit "Sequence");
      if (sequence : bool) then c ← read_group (lit "Sequence") Sequence; next c else
      get ← is_ l NS (lit "Get");
      if (get : bool) then r ← read_simple (lit "Get"); next (Get r.1.1 r.1.2 r.2) else
      status ← is_ l NS (lit "Status");
      if (status : bool) then s ← read_status; next (StatusCommand s) else
      results ← is_ l NS (lit "Results");
      if (results : bool) then r ← read_results; next (ResultsCommand r) else
      alert ← is_ l NS (lit "Alert");
      if (alert : bool) then c ← read_alert; next c else
      add ← is_ l NS (lit "Add");
      if (add : bool) then r ← read_simple (lit "Add"); next (Add r.1.1 r.1.2 r.2) else
      exec ← is_ l NS (lit "Exec");
      if (exec : bool) then r ← read_simple (lit "Exec"); next (Exec r.1.1 r.1.2 r.2) else
      delete ← is_ l NS (lit "Delete");
      if (delete : bool) then r ← read_simple (lit "Delete"); next (Delete r.1.1 r.1.2 r.2) else
      replace ← is_ l NS (lit "Replace");
      if (replace : bool) then c ← read_replace; next c else mret out
  end.
(** Nesting is at most the depth limit, itself at most 32; [levels] counts what is left. *)
Fixpoint read_commands (levels : nat) (depth : Z) : xread (list Command) :=
  _ ← lift (bound depth (Z.min (l_depth l) 32));
  match levels with
  | O => lift Panic
  | S levels => commands_loop (read_commands levels (depth + 1)) (event_fuel l) []
  end.
Definition read_header : xread Header :=
  _ ← open l NS (lit "SyncHdr");
  dtd ← scalar l NS (lit "VerDTD") (l_identifier_bytes l) false;
  _ ← (if bool_decide (dtd = lit "1.2") then
         proto ← scalar l NS (lit "VerProto") (l_identifier_bytes l) false;
         lift (reject (negb (bool_decide (proto = lit "DM/1.2"))) Unsupported)
       else lift (Err Unsupported));
  session_id ← num (lit "SessionID") false;
  message_id ← num (lit "MsgID") false;
  target ← location (lit "Target");
  source ← location (lit "Source");
  credential ← read_credential;
  m ← meta;
  _ ← end_ l NS (lit "SyncHdr");
  mret (mk_Header session_id message_id target source credential m).
Definition read_final : xread bool :=
  present ← is_ l NS (lit "Final");
  if (present : bool) then
    _ ← open l NS (lit "Final");
    _ ← end_ l NS (lit "Final");
    mret true
  else mret false.
Definition read_message : xread Message :=
  _ ← open l NS (lit "SyncML");
  h ← read_header;
  _ ← open l NS (lit "SyncBody");
  cs ← read_commands 34 0;
  final ← read_final;
  _ ← end_ l NS (lit "SyncBody");
  _ ← end_ l NS (lit "SyncML");
  _ ← finish l;
  mret (mk_Message h cs final).
Definition decode (input : bytes) : xres Message :=
  s ← Input_new input (l_syncml_bytes l);
  r ← read_message s;
  _ ← validate l r.1;
  Ok r.1.
End Codec.
