(* ===== verification/SyncmlCorrelation.v ===== *)
(** * SyncML messages: correlation, admission and fragmentation

    [windows-mdm]'s [syncml/correlation.rs], [syncml/admission.rs] and [syncml/fragment.rs]. *)
From S2P Require Import Prelude Ordered Text External Xml Declared SyncmlModel SyncmlCodec.

(** ** Sent messages *)
Inductive CorrelationError : Type :=
| InvalidRequest (e : CodecError) | InvalidExpected (e : CodecError) | InvalidResponse (e : CodecError) | Mismatch.
#[export] Instance CorrelationError_eq_dec : EqDecision CorrelationError.
Proof. solve_decision. Defined.
Notation cres := (res CorrelationError).
Definition map_codec {A} (f : CodecError -> CorrelationError) (r : xres A) : cres A :=
  match r with Ok a => Ok a | Err e => Err (f e) | Panic => Panic end.

Record SentCommand : Type := mk_SentCommand { sc_id : Z; sc_kind : CommandName; sc_targets : list rstr }.
Record SentMessage : Type := mk_SentMessage {
  sm_session_id : Z; sm_source : rstr; sm_target : rstr; sm_id : Z; sm_commands : list SentCommand
}.
Record Reference : Type := mk_Reference { ref_message_id : Z; ref_command_id : Z; ref_uri : rstr }.
#[export] Instance Reference_eq_dec : EqDecision Reference.
Proof. solve_decision. Defined.
#[export] Instance Reference_ord : Ord Reference :=
  cmp_on (fun r => (ref_message_id r, ref_command_id r, ref_uri r)).
#[export] Instance Reference_ord_laws : OrdLaws Reference.
Proof. apply cmp_on_laws. intros [] [] [=]. by subst. Qed.
Record Expected : Type := mk_Expected {
  response_message_id : Z; messages : list SentMessage; message_ids : list Z;
  requests : list (Z * Z * (nat * nat)); references : list Reference; order : list (Z * Z * Z);
  ex_items : Z; max_uri_bytes : Z
}.

Record CorrelatedItem : Type := mk_CorrelatedItem {
  ci_reference : Reference; ci_value : rstr; explicit_message_ref : bool; explicit_command_ref : bool
}.
Record CorrelatedStatus : Type := mk_CorrelatedStatus {
  cs_message_id : Z; cs_command_id : Z; cs_code : Z; cs_targets : list rstr; cs_details : list Item
}.
Record Correlated : Type := mk_Correlated {
  co_results : list CorrelatedItem; co_statuses : list CorrelatedStatus; missing_results : list Reference
}.

Section Correlation.
Context `{QX : QuickXml} `{UC : UuidCrate} `{UT : !UuidText} `{B64 : Base64Standard}.

(** ** Outbound messages *)
(** The commands and items that can answer one command. *)
Definition receipts (c : Command) : xres (Z * Z) :=
  match c with
  | Get _ _ items => n ← checked (zlen items * 2); Ok (n, n)
  | Add _ _ items | Replace _ _ items | Delete _ _ items | Exec _ _ items =>
      Ok (Z.max (zlen items) 1, zlen items)
  | Atomic _ _ | Sequence _ _ => Ok (1, 0)
  | AlertCommand _ _ => Ok (2, 0)
  | StatusCommand _ => Ok (0, 0)
  | ResultsCommand _ | DevInfo _ _ => Err Unsupported
  end.
Definition receipt_step (l : CodecLimits) (acc : Z * Z) (c : Command) : xres (Z * Z) :=
  r ← receipts c;
  cs ← checked (acc.1 + r.1);
  its ← checked (acc.2 + r.2);
  _ ← bound cs (l_commands l);
  _ ← bound its (l_items l);
  Ok (cs, its).
Definition encode_outbound (m : Message) (l : CodecLimits) : xres bytes :=
  flat ← flattened l (commands m);
  _ ← res_for (receipt_step l) flat (1, 0);
  encode l m.
Definition item_targets (items : list Item) : xres (list rstr) := res_map (fun i => ok_or (i_target i) Structure) items.
Definition sent_command (c : Command) : xres SentCommand :=
  r ← match c with
      | Get _ _ items => t ← item_targets items; Ok (N_Get, t)
      | Add _ _ items => t ← item_targets items; Ok (N_Add, t)
      | Exec _ _ items => t ← item_targets items; Ok (N_Exec, t)
      | Delete _ _ items => t ← item_targets items; Ok (N_Delete, t)
      | Replace _ _ items => t ← item_targets items; Ok (N_Replace, t)
      | Atomic _ _ => Ok (N_Atomic, [])
      | Sequence _ _ => Ok (N_Sequence, [])
      | StatusCommand _ => Ok (N_Status, [])
      | AlertCommand _ _ => Ok (N_Alert, [])
      | ResultsCommand _ | DevInfo _ _ => Err Unsupported
      end;
  Ok (mk_SentCommand (command_id c) r.1 r.2).
Definition sent_snapshot (l : CodecLimits) (m : Message) : xres SentMessage :=
  flat ← flattened l (commands m);
  cs ← res_map sent_command flat;
  Ok (mk_SentMessage (h_session_id (header m)) (h_source (header m)) (h_target (header m))
        (h_message_id (header m)) cs).
Definition encode_request (m : Message) (l : CodecLimits) : xres (bytes * SentMessage) :=
  wire ← encode l m; sent ← sent_snapshot l m; Ok (wire, sent).
Definition decode_request (input : bytes) (l : CodecLimits) : xres (Message * SentMessage) :=
  m ← decode l input; sent ← sent_snapshot l m; Ok (m, sent).

(** ** Expectations *)
Definition get_reference (e : Expected) (message_id command_id : Z) (uri : rstr) : cres Reference :=
  let reference := mk_Reference message_id command_id uri in
  if bs_mem reference (references e) then Ok reference else Err Mismatch.
Definition sent_uris (sent : SentMessage) : list rstr :=
  sm_source sent :: sm_target sent :: (sm_commands sent ≫= sc_targets).
Definition uri_step (l : CodecLimits) (acc : Z) (uri : rstr) : xres Z :=
  _ ← text uri (l_uri_bytes l) false; Ok (Z.max acc (str_len uri)).
(** The checks of [record_sent]: they run before anything changes. *)
Definition record_checks (l : CodecLimits) (e : Expected) (sent : SentMessage) : xres (Z * Z) :=
  _ ← reject (response_message_id e =? 0) InvalidValue;
  _ ← reject (match messages e with
              | first :: _ => negb (sm_session_id first =? sm_session_id sent)
                  || negb (bool_decide (sm_source first = sm_source sent))
                  || negb (bool_decide (sm_target first = sm_target sent))
              | [] => false
              end) InvalidValue;
  _ ← reject (bs_mem (sm_id sent) (message_ids e)) Duplicate;
  _ ← bound (saturating_usize (zlen (messages e) + 1)) (l_session_messages l);
  _ ← bound (saturating_usize (zlen (requests e) + zlen (sm_commands sent))) (l_session_commands l);
  uri_bytes ← res_for (uri_step l) (sent_uris sent) (max_uri_bytes e);
  total ← res_for (fun n c => checked (n + zlen (sc_targets c))) (sm_commands sent) (ex_items e);
  _ ← bound total (l_session_items l);
  _ ← bound uri_bytes (l_uri_bytes l);
  Ok (total, uri_bytes).
Definition command_references (message : Z) (c : SentCommand) : list Reference :=
  if bool_decide (sc_kind c = N_Get) then map (mk_Reference message (sc_id c)) (sc_targets c) else [].
(** One recorded command: its request, its position in the order, and what it reads. *)
Definition record_command (message_index : nat) (sent : SentMessage) (e : Expected) (c : nat * SentCommand) : Expected :=
  let key := (sm_id sent, sc_id c.2) in
  mk_Expected (response_message_id e) (messages e) (message_ids e)
    (bm_insert key (message_index, c.1) (requests e))
    (foldl (fun s r => bs_insert r s) (references e) (command_references (sm_id sent) c.2))
    (bm_insert key (zlen (order e)) (order e)) (ex_items e) (max_uri_bytes e).
Definition enumerate {A} (l : list A) : list (nat * A) := zip (seq 0 (length l)) l.
Definition record_sent (l : CodecLimits) (e : Expected) (sent : SentMessage) : cres Expected :=
  n ← map_codec InvalidExpected (record_checks l e sent);
  let message_index := length (messages e) in
  let e' := mk_Expected (response_message_id e) (messages e) (bs_insert (sm_id sent) (message_ids e)) (requests e)
              (references e) (bm_insert (sm_id sent, 0) (zlen (order e)) (order e)) (ex_items e) (max_uri_bytes e) in
  let e' := foldl (record_command message_index sent) e' (enumerate (sm_commands sent)) in
  Ok (mk_Expected (response_message_id e') (messages e' ++ [sent]) (message_ids e') (requests e') (references e')
        (order e') n.1 n.2).
Definition Expected_new (sent : SentMessage) (response : Z) (l : CodecLimits) : cres Expected :=
  record_sent l (mk_Expected response [] [] [] [] [] 0 0) sent.
(** An index outside the recorded messages is a panic. *)
Definition request (e : Expected) (key : Z * Z) : cres (option SentCommand) :=
  match bm_get key (requests e) with
  | None => Ok None
  | Some (m, c) => r ← or_panic (messages e !! m ≫= fun m => sm_commands m !! c); Ok (Some r)
  end.
Definition Expected_validate (l : CodecLimits) (e : Expected) : xres () :=
  _ ← reject (response_message_id e =? 0) InvalidValue;
  _ ← reject (is_empty (messages e)) Structure;
  _ ← bound (zlen (messages e)) (l_session_messages l);
  _ ← bound (zlen (requests e)) (l_session_commands l);
  _ ← bound (ex_items e) (l_session_items l);
  bound (max_uri_bytes e) (l_uri_bytes l).

(** ** Correlation *)
Record Progress : Type := mk_Progress {
  remaining : list Reference; results : list CorrelatedItem; statuses : list CorrelatedStatus;
  status_coverage : list (Z * Z * list rstr); last_status : list (Z * Z)
}.
Definition bs_remove {A} `{Ord A} (x : A) (s : list A) : list A := List.filter (fun y => negb (eqb x y)) s.
Definition or_one (o : option Z) : Z := match o with Some v => v | None => 1 end.
(** One value of a [Results]: it must be requested and not yet returned. *)
Definition correlate_item (r : Results) (p : Progress) (i : Item) : cres Progress :=
  _ ← reject (more_data i) (InvalidResponse Structure);
  uri ← ok_or (i_source i) Mismatch;
  let reference := mk_Reference (or_one (r_message_ref r)) (or_one (r_command_ref r)) uri in
  _ ← reject (negb (bs_mem reference (remaining p))) Mismatch;
  value ← ok_or (i_data i) Mismatch;
  Ok (mk_Progress (bs_remove reference (remaining p))
        (results p ++ [mk_CorrelatedItem reference value (given (r_message_ref r)) (given (r_command_ref r))])
        (statuses p) (status_coverage p) (last_status p)).
Definition correlate_results (e : Expected) (p : Progress) (r : Results) : cres Progress :=
  req ← request e (or_one (r_message_ref r), or_one (r_command_ref r));
  req ← ok_or req Mismatch;
  _ ← reject (negb (bool_decide (sc_kind req = N_Get))) Mismatch;
  res_for (correlate_item r) (r_items r) p.
(** The targets a status covers; the header and commands without targets are covered as one. *)
Definition status_targets (e : Expected) (s : Status) : cres (list rstr) :=
  if s_command_ref s =? 0 then
    _ ← reject (negb (bs_mem (s_message_ref s) (message_ids e)) || negb (bool_decide (s_command s = N_SyncHdr))
                || negb (is_empty (s_target_refs s)) || negb (is_empty (s_source_refs s))) Mismatch;
    Ok [[]]
  else
    req ← request e (s_message_ref s, s_command_ref s);
    req ← ok_or req Mismatch;
    _ ← reject (negb (bool_decide (sc_kind req = s_command s)) || negb (is_empty (s_source_refs s))) Mismatch;
    if is_empty (s_target_refs s) then Ok (if is_empty (sc_targets req) then [[]] else sc_targets req)
    else
      _ ← reject (existsb (fun v => negb (bool_decide (v ∈ sc_targets req))) (s_target_refs s)) Mismatch;
      Ok (s_target_refs s).
Definition cover (seen : list rstr) (t : rstr) : cres (list rstr) :=
  _ ← reject (bs_mem t seen) (InvalidResponse Duplicate); Ok (bs_insert t seen).
(** Command order applies within each referenced message; headers may come at any time. *)
Definition advance (p : Progress) (s : Status) (index : Z) : cres (list (Z * Z)) :=
  if s_command_ref s =? 0 then Ok (last_status p) else
  _ ← reject (match bm_get (s_message_ref s) (last_status p) with Some n => index <? n | None => false end) Mismatch;
  Ok (bm_insert (s_message_ref s) index (last_status p)).
Definition correlate_status (e : Expected) (p : Progress) (s : Status) : cres Progress :=
  let key := (s_message_ref s, s_command_ref s) in
  index ← ok_or (bm_get key (order e)) Mismatch;
  last ← advance p s index;
  targets ← status_targets e s;
  seen ← res_for cover targets (match bm_get key (status_coverage p) with Some seen => seen | None => [] end);
  Ok (mk_Progress (remaining p) (results p)
        (statuses p ++ [mk_CorrelatedStatus (s_message_ref s) (s_command_ref s) (s_code s)
                          (List.filter (fun t => negb (is_empty t)) targets) (s_items s)])
        (bm_insert key seen (status_coverage p)) last).
Definition correlate_command (e : Expected) (p : Progress) (c : Command) : cres Progress :=
  match c with
  | ResultsCommand r => correlate_results e p r
  | StatusCommand s => correlate_status e p s
  | _ => Err Mismatch
  end.
(** A failure status that speaks of a returned value. *)
Definition contradicts (r : CorrelatedItem) (s : CorrelatedStatus) : bool :=
  (cs_message_id s =? ref_message_id (ci_reference r))
  && negb ((200 <=? cs_code s) && (cs_code s <? 300))
  && ((cs_command_id s =? 0)
      || (cs_command_id s =? ref_command_id (ci_reference r))
         && (is_empty (cs_targets s) || bool_decide (ref_uri (ci_reference r) ∈ cs_targets s))).
Definition correlate (e : Expected) (response : Message) (l : CodecLimits) : cres Correlated :=
  _ ← map_codec InvalidExpected (Expected_validate l e);
  _ ← map_codec InvalidResponse (validate l response);
  first ← or_panic (head (messages e));
  _ ← reject (negb (h_session_id (header response) =? sm_session_id first)
              || negb (h_message_id (header response) =? response_message_id e)) Mismatch;
  p ← res_for (correlate_command e) (commands response) (mk_Progress (references e) [] [] [] []);
  _ ← reject (match statuses p with first :: _ => negb (cs_command_id first =? 0) | [] => true end) Mismatch;
  _ ← reject (existsb (fun r => existsb (contradicts r) (statuses p)) (results p)) Mismatch;
  Ok (mk_Correlated (results p) (statuses p) (remaining p)).

(** ** Admission *)
Inductive Admission : Type := Send (wire : bytes) | Defer | Adm_Unsupported.
Definition with_commands (m : Message) (cs : list Command) : Message := mk_Message (header m) cs (final_message m).
Definition is_header_status (c : Command) : bool :=
  match c with StatusCommand s => s_command_ref s =? 0 | _ => false end.
Definition admit_ (prefix : Message) (cs : list Command) (l : CodecLimits) : xres Admission :=
  match encode_outbound (with_commands prefix (commands prefix ++ cs)) l with
  | Ok wire => Ok (Send wire)
  | Err LimitExceeded =>
      let minimum := mk_Message (header prefix) (List.filter is_header_status (commands prefix) ++ cs) true in
      match encode_outbound minimum CodecLimits_default with
      | Ok _ => Ok Defer
      | Err LimitExceeded | Err Unsupported => Ok Adm_Unsupported
      | Err e => Err e
      | Panic => Panic
      end
  | Err Unsupported => Ok Adm_Unsupported
  | Err e => Err e
  | Panic => Panic
  end.

(** ** Fragmentation *)
Record Fragment : Type := mk_Fragment { fr_message : Message; fr_end : Z }.
(** [str::split_at] at a byte offset: [None] inside a character or beyond the end. *)
Fixpoint split_at (s : rstr) (n : Z) : option (rstr * rstr) :=
  if n =? 0 then Some ([], s) else
  match s with
  | [] => None
  | c :: s => if n <? 0 then None else p ← split_at s (n - len_utf8 c); Some (c :: p.1, p.2)
  end.
Definition is_char_boundary (s : rstr) (n : Z) : bool := given (split_at s n).
(** [&s[from..to]]. *)
Definition slice (s : rstr) (from to : Z) : xres rstr :=
  p ← or_panic (split_at s from); q ← or_panic (split_at p.2 (to - from)); Ok q.1.
Definition set_size (size : option Z) (m : Meta) : Meta :=
  mk_Meta (m_format m) (m_media_type m) (m_max_message_size m) (m_max_object_size m) size.
(** The only commands whose data may span messages. *)
Definition single_item (c : Command) : option Item :=
  match c with Add _ _ [i] | Replace _ _ [i] => Some i | _ => None end.
Definition replace_item (c : Command) (i : Item) : xres Command :=
  match c with
  | Add id m (_ :: rest) => Ok (Add id (set_size None <$> m) (i :: rest))
  | Replace id m (_ :: rest) => Ok (Replace id (set_size None <$> m) (i :: rest))
  | Add _ _ [] | Replace _ _ [] => Panic
  | _ => Err Unsupported
  end.
Definition build (prefix : Message) (c : Command) (i : Item) (data : rstr) (offset end_ : Z) : xres Message :=
  part ← slice data offset end_;
  let m := set_size (if offset =? 0 then Some (str_len data) else None)
             (match i_meta i with Some m => m | None => Meta_default end) in
  c ← replace_item c (mk_Item (end_ <? str_len data) (i_source i) (i_target i) (Some m) (Some part));
  Ok (mk_Message (header prefix) (commands prefix ++ [c])
        ((end_ =? str_len data) && final_message prefix)).
(** [while !is_char_boundary(end) { end -= 1 }]. *)
Fixpoint floor_boundary (s : rstr) (fuel : nat) (n : Z) : xres Z :=
  if is_char_boundary s n then Ok n else
  match fuel with O => Panic | S fuel => floor_boundary s fuel (n - 1) end.
(** The binary search for the longest data that fits. *)
Fixpoint search (l : CodecLimits) (prefix : Message) (c : Command) (i : Item) (data : rstr) (offset : Z)
    (fuel : nat) (low high : Z) (best : option Fragment) : xres (option Fragment) :=
  if high <? low then Ok best else
  match fuel with
  | O => Panic
  | S fuel =>
      let midpoint := low + (high - low) / 2 in
      end_ ← floor_boundary data (Z.to_nat midpoint) midpoint;
      if end_ <=? offset then search l prefix c i data offset fuel (midpoint + 1) high best else
      m ← build prefix c i data offset end_;
      match encode_outbound m l with
      | Ok _ => search l prefix c i data offset fuel (midpoint + 1) high (Some (mk_Fragment m end_))
      | Err LimitExceeded => search l prefix c i data offset fuel low (end_ - 1) best
      | Err e => Err e
      | Panic => Panic
      end
  end.
Definition fragment_rest (prefix : Message) (c : Command) (offset : Z) (wire : CodecLimits) : xres Fragment :=
  i ← ok_or (single_item c) LimitExceeded;
  data ← ok_or (i_data i) LimitExceeded;
  _ ← reject ((str_len data <=? offset) || negb (is_char_boundary data offset)) InvalidValue;
  _ ← reject (u32_max <? str_len data) LimitExceeded;
  last ← build prefix c i data offset (str_len data);
  match encode_outbound last wire with
  | Ok _ => Ok (mk_Fragment last (str_len data))
  | Err LimitExceeded =>
      best ← search wire prefix c i data offset (Z.to_nat (str_len data)) (offset + 1) (str_len data - 1) None;
      ok_or best LimitExceeded
  | Err e => Err e
  | Panic => Panic
  end.
Definition fragment (prefix : Message) (c : Command) (offset peer_message_bytes : Z) (l : CodecLimits) : xres Fragment :=
  let wire := with_syncml_bytes l (Z.min (l_syncml_bytes l) peer_message_bytes) in
  let full := with_commands prefix (commands prefix ++ [c]) in
  _ ← validate l full;
  if offset =? 0 then
    match encode_outbound full wire with
    | Ok _ => Ok (mk_Fragment full (match single_item c ≫= i_data with Some d => str_len d | None => 0 end))
    | Err LimitExceeded => fragment_rest prefix c offset wire
    | Err e => Err e
    | Panic => Panic
    end
  else fragment_rest prefix c offset wire.
End Correlation.
