(* ===== verification/XmlTotal.v ===== *)
(** * Bounded XML: every reader ends

    The event budget bounds every loop of the readers: a turn takes a token, and every token was
    charged.  [total n d m] says that [m], started with fewer than [n] tokens to take, ends
    without running out of fuel and takes at least [d] of them. *)
From S2P Require Import Prelude Ordered Text External Xml Declared.

Section Measure.
Context (l : CodecLimits).

(** Tokens that can still be taken: the events left, and the one already read ahead. *)
Definition left (s : Input) : Z :=
  Z.max 0 (l_events l) - b_events (in_budget s) + match in_look s with Some _ => 1 | None => 0 end.
Definition within (s : Input) : Prop :=
  0 <= b_events (in_budget s) /\ b_events (in_budget s) <= Z.max 0 (l_events l).
Definition total {E A} (n d : Z) (m : reader E A) : Prop := forall s, within s -> left s < n ->
  match m s with
  | Ok (_, s') => within s' /\ left s' <= left s - d
  | Err _ => True
  | Panic => False
  end.

Lemma total_weaken {E A} n d d' (m : reader E A) : d <= d' -> total n d' m -> total n d m.
Proof.
  intros Hd Hm s Hs Hl. specialize (Hm s Hs Hl). destruct (m s) as [[a s']| |]; [|done..].
  destruct Hm. split; [done|lia].
Qed.
Lemma total_ret {E A} n (a : A) : total n 0 (mret a : reader E A).
Proof. intros s Hs _. simpl. split; [done|lia]. Qed.
Lemma total_lift {E A} n (r : res E A) : no_panic r -> total n 0 (lift r).
Proof. intros Hr s Hs _. unfold lift. destruct r; [split; [done|lia]|done|by apply Hr]. Qed.
Lemma total_bind {E A B} n d d' (m : reader E A) (k : A -> reader E B) :
  total n d m -> (forall a, total (n - d) d' (k a)) -> total n (d + d') (m ≫= k).
Proof.
  intros Hm Hk s Hs Hl. specialize (Hm s Hs Hl). unfold mbind, reader_bind.
  destruct (m s) as [[a s']| |]; [|done..]. destruct Hm as [Hs' Hl'].
  specialize (Hk a s' Hs' ltac:(lia)). destruct (k a s') as [[b s'']| |]; [|done..].
  destruct Hk. split; [done|lia].
Qed.
(** The first part takes a token. *)
Lemma total_take {E A B} n (m : reader E A) (k : A -> reader E B) :
  total n 1 m -> (forall a, total (n - 1) 0 (k a)) -> total n 1 (m ≫= k).
Proof. intros Hm Hk. by apply (total_bind n 1 0). Qed.
Lemma total_take_0 {E A B} n (m : reader E A) (k : A -> reader E B) :
  total n 1 m -> (forall a, total (n - 1) 0 (k a)) -> total n 0 (m ≫= k).
Proof. intros Hm Hk. apply (total_weaken n 0 1); [lia|]. by apply total_take. Qed.
Lemma total_keep {E A B} n d (m : reader E A) (k : A -> reader E B) :
  total n 0 m -> (forall a, total n d (k a)) -> total n d (m ≫= k).
Proof. intros Hm Hk. apply (total_bind n 0 d); [done|]. intros a. by rewrite Z.sub_0_r. Qed.
Lemma total_none {E A} n (m : reader E A) : n <= 0 -> total n 0 m.
Proof. unfold total, within, left. intros Hn s ? ?. destruct (in_look s); lia. Qed.
Lemma total_any {E A} n d (m : reader E A) : total (Z.max 0 (l_events l) + 2) d m -> total n d m.
Proof. intros Hm s Hs _. apply Hm; [done|]. unfold within, left in *. destruct (in_look s); lia. Qed.
Lemma event_fuel_enough : Z.of_nat (event_fuel l) = Z.max 0 (l_events l) + 2.
Proof. unfold event_fuel. lia. Qed.
(** A loop is total when its turns are, by induction on its fuel. *)
Lemma total_fuel {E A} n (m : nat -> reader E A) :
  (forall fuel, total (Z.of_nat fuel) 0 (m fuel)) -> total n 0 (m (event_fuel l)).
Proof. intros Hm. apply total_any. rewrite <-event_fuel_enough. apply Hm. Qed.
(** The induction step of a loop whose turns take a token. *)
Lemma total_next {E A} fuel (m : reader E A) : total (Z.of_nat fuel) 0 m -> total (Z.of_nat (S fuel) - 1) 0 m.
Proof. by replace (Z.of_nat (S fuel) - 1) with (Z.of_nat fuel) by lia. Qed.
Lemma total_zero {E A} (m : reader E A) : total (Z.of_nat 0) 0 m.
Proof. by apply total_none. Qed.
(** A token taken where none is needed. *)
Lemma total_spare {E A} n (m : reader E A) : total n 1 m -> total n 0 m.
Proof. apply total_weaken. lia. Qed.
Lemma total_malformed {A} n d (m : xread A) : total n d m -> total n d (malformed_read m).
Proof.
  intros Hm s Hs Hl. specialize (Hm s Hs Hl). unfold malformed_read, malformed.
  by destruct (m s) as [[a s']| |].
Qed.
Lemma total_update n (f : Input -> Input) :
  (forall s, within s -> within (f s) /\ left (f s) <= left s) -> total n 0 (update f).
Proof. intros Hf s Hs _. unfold update. destruct (Hf s Hs). split; [done|lia]. Qed.
End Measure.

#[export] Hint Resolve total_ret total_malformed : total.
#[export] Hint Extern 5 (no_panic (reject _ _)) => apply reject_no_panic : total.
#[export] Hint Extern 5 (no_panic (ok_or _ _)) => apply ok_or_no_panic : total.
#[export] Hint Extern 5 (no_panic (if _ then _ else _)) => case_match : total.
#[export] Hint Extern 5 (no_panic (Ok _)) => discriminate : total.
#[export] Hint Extern 5 (no_panic (Err _)) => discriminate : total.
#[export] Hint Extern 8 (no_panic (_ ≫= _)) => apply bind_no_panic; [|intros ? _] : total.
#[export] Hint Extern 4 (total _ _ 0 (lift _)) => apply total_lift : total.
(** Walk through a reader: a binding whose first part is known to take a token, or to keep. *)
Ltac total_walk :=
  intros; cbv zeta;
  repeat match goal with
  | |- total _ _ _ (if ?b then _ else _) => destruct b
  | |- total _ _ _ (let '(_, _) := ?p in _) => destruct p
  | |- total _ _ _ (match ?x with _ => _ end) => destruct x
  | |- total _ _ 1 (_ ≫= _) => first [apply total_take; [solve [eauto 20 with total]|intros ?]
                                      |apply total_keep; [solve [eauto 20 with total]|intros ?]]
  | |- total _ _ 0 (_ ≫= _) => first [apply total_take_0; [solve [eauto 20 with total]|intros ?]
                                      |apply total_keep; [solve [eauto 20 with total]|intros ?]]
  | |- total _ _ _ _ => solve [eauto 20 with total]
  end.

(** ** The primitives *)
Section Primitives.
Context `{QX : QuickXml} (l : CodecLimits).
Implicit Types (n : Z).

Lemma bound_no_panic n max : no_panic (bound n max).
Proof. apply reject_no_panic. Qed.
Lemma xml_checked_no_panic z : no_panic (checked z).
Proof. apply ok_or_no_panic. Qed.
Lemma text_no_panic v max empty : no_panic (text v max empty).
Proof. unfold text. eauto using bind_no_panic, bound_no_panic, reject_no_panic. Qed.
Lemma qname_no_panic v : no_panic (qname v).
Proof. unfold qname. eauto using bind_no_panic, reject_no_panic. Qed.
Lemma from_xml_no_panic {A} (r : XmlError + A) : no_panic (from_xml r).
Proof. by destruct r. Qed.
Lemma namespace_no_panic ns : no_panic (namespace ns).
Proof. destruct ns; simpl; [apply from_xml_no_panic|done..]. Qed.
Lemma entity_no_panic name : no_panic (entity name).
Proof. unfold entity. by repeat case_bool_decide. Qed.
Lemma Start_attrs_no_panic s allowed : no_panic (Start_attrs s allowed).
Proof. apply reject_no_panic. Qed.
#[local] Hint Resolve bound_no_panic xml_checked_no_panic text_no_panic qname_no_panic from_xml_no_panic
  namespace_no_panic entity_no_panic Start_attrs_no_panic : total.
Lemma read_attr_no_panic base acc a : no_panic (read_attr l base acc a).
Proof.
  destruct acc as [[count seen] attrs]. unfold read_attr.
  repeat (apply bind_no_panic; [eauto with total|intros ? _]). case_match; eauto 10 with total.
Qed.
Lemma read_decl_no_panic position a : no_panic (read_decl l position a).
Proof. unfold read_decl. repeat (apply bind_no_panic; [eauto with total|intros ? _]). by repeat case_match. Qed.

Lemma Budget_event_events b b' : Budget_event l b = Ok b' ->
  b_events b' = b_events b + 1 /\ b_events b' <= l_events l.
Proof.
  unfold Budget_event, checked, bound. intros H. inv_ok. apply checked_u64_some in E as [-> _]. bool_hyps. simpl. lia.
Qed.
Lemma Budget_start_events b n b' : Budget_start l b n = Ok b' -> b_events b' = b_events b.
Proof. unfold Budget_start. intros H. by inv_ok. Qed.
Lemma Budget_end_events e b b' : Budget_end e b = Ok b' -> b_events b' = b_events b.
Proof. unfold Budget_end. intros H. by inv_ok. Qed.
Lemma Budget_event_no_panic b : no_panic (Budget_event l b).
Proof. unfold Budget_event. eauto 10 using bind_no_panic with total. Qed.
Lemma Budget_start_no_panic b n : no_panic (Budget_start l b n).
Proof. unfold Budget_start. repeat (apply bind_no_panic; [eauto with total|intros ? _]). done. Qed.
Lemma Budget_end_no_panic e b : no_panic (Budget_end e b).
Proof. unfold Budget_end. eauto using bind_no_panic with total. Qed.

Lemma charge_event_total n : total l n 1 (charge (Budget_event l)).
Proof.
  intros s [Hs Hs'] _. unfold charge. pose proof (Budget_event_no_panic (in_budget s)) as Hp.
  destruct (Budget_event l _) as [b| |] eqn:E; [|done..]. apply Budget_event_events in E as [E ?].
  unfold within, left, set_budget. simpl. rewrite E. lia.
Qed.
Lemma charge_same_total n f : (forall b, no_panic (f b)) -> (forall b b', f b = Ok b' -> b_events b' = b_events b) ->
  total l n 0 (charge f).
Proof.
  intros Hp Hf s [Hs Hs'] _. unfold charge. specialize (Hp (in_budget s)).
  destruct (f _) as [b| |] eqn:E; [|done..]. apply Hf in E. unfold within, left, set_budget. simpl. rewrite E. lia.
Qed.
Lemma charge_start_total n attrs : total l n 0 (charge (fun b => Budget_start l b attrs)).
Proof. apply charge_same_total; intros; [apply Budget_start_no_panic|by eapply Budget_start_events]. Qed.
Lemma charge_end_total n e : total l n 0 (charge (Budget_end e)).
Proof. apply charge_same_total; intros; [apply Budget_end_no_panic|by eapply Budget_end_events]. Qed.
Lemma next_event_total n : total l n 0 (next_event l).
Proof.
  intros s Hs _. unfold next_event. pose proof (from_xml_no_panic (read_event (l_namespace_bindings l) (in_bytes s) (in_position s))) as Hp.
  destruct (from_xml _) as [e| |]; [|done..]. split; [exact Hs|unfold left; simpl; lia].
Qed.
Lemma get_depth_total n : total l n 0 get_depth.
Proof. intros s Hs _. simpl. split; [done|lia]. Qed.
Lemma get_attrs_total n : total l n 0 get_attrs.
Proof. intros s Hs _. simpl. split; [done|lia]. Qed.
Lemma set_started_total n : total l n 0 (update set_started).
Proof. apply total_update. intros s Hs. split; [exact Hs|unfold left; simpl; lia]. Qed.
Lemma set_declaration_total n : total l n 0 (update set_declaration).
Proof. apply total_update. intros s Hs. split; [exact Hs|unfold left; simpl; lia]. Qed.
Lemma set_started_if_total n (b : bool) : total l n 0 (update (if b then set_started else id)).
Proof. destruct b; [apply set_started_total|]. apply total_update. intros s Hs. split; [exact Hs|unfold id; lia]. Qed.
#[local] Hint Resolve charge_event_total charge_start_total charge_end_total next_event_total get_depth_total
  get_attrs_total set_started_total set_declaration_total set_started_if_total : total.
#[local] Hint Extern 3 (no_panic (res_for (read_attr _ _) _ _)) => apply loop_no_panic, read_attr_no_panic : total.
#[local] Hint Extern 3 (no_panic (res_for (read_decl _) _ _)) => apply loop_no_panic, read_decl_no_panic : total.

Lemma read_loop_total fuel : total l (Z.of_nat fuel) 1 (read_loop l fuel).
Proof.
  induction fuel as [|fuel IH].
  { intros s Hs Hl. unfold within, left in *. destruct (in_look s); lia. }
  assert (total l (Z.of_nat (S fuel) - 1) 0 (read_loop l fuel)) as IH'.
  { replace (Z.of_nat (S fuel) - 1) with (Z.of_nat fuel) by lia. apply (total_weaken l _ 0 1); [lia|done]. }
  cbn [read_loop]. apply total_take; [apply charge_event_total|intros _].
  apply total_keep; [apply next_event_total|intros e].
  destruct e; try solve [total_walk].
  apply total_keep.
  { intros s Hs _. simpl. destruct (in_started s || in_declaration s); [done|]. split; [done|lia]. }
  intros _. apply total_keep; [apply set_declaration_total|intros _].
    apply total_keep; [eauto with total|intros position]. apply total_keep; [eauto with total|intros _]. exact IH'.
Qed.
Lemma read_total n : total l n 1 (read l).
Proof.
  intros s Hs Hl. unfold read. destruct (in_look s) as [t|] eqn:El.
  - split; [exact Hs|]. unfold left. rewrite El. simpl. lia.
  - pose proof (read_loop_total (event_fuel l)) as Hr. rewrite event_fuel_enough in Hr.
    apply Hr; [done|]. unfold within, left in *. rewrite El. lia.
Qed.
#[local] Hint Resolve read_total : total.
Lemma significant_loop_total fuel : total l (Z.of_nat fuel) 1 (significant_loop l fuel).
Proof.
  induction fuel as [|fuel IH]; [intros s Hs Hl; unfold within, left in *; destruct (in_look s); lia|].
  cbn [significant_loop]. apply total_take; [apply read_total|intros t].
  assert (total l (Z.of_nat (S fuel) - 1) 0 (significant_loop l fuel)) as IH'.
  { replace (Z.of_nat (S fuel) - 1) with (Z.of_nat fuel) by lia. apply (total_weaken l _ 0 1); [lia|done]. }
  destruct t; [apply total_ret..| |apply total_ret]. destruct (blank s); [done|apply total_ret].
Qed.
Lemma significant_total n : total l n 1 (significant l).
Proof. apply total_any. rewrite <-event_fuel_enough. apply significant_loop_total. Qed.
#[local] Hint Resolve significant_total : total.
(** Looking ahead puts the token back. *)
Lemma is_total n ns name : total l n 0 (is_ l ns name).
Proof.
  intros s Hs Hl. pose proof (significant_total n s Hs Hl) as Ht. unfold is_, mbind, reader_bind.
  destruct (significant l s) as [[t s']| |]; [|done..]. simpl. destruct Ht as [Hs' Ht]. split; [exact Hs'|].
  unfold left, set_look in *. simpl. destruct (in_look s'); lia.
Qed.
Lemma start_total n ns name : total l n 1 (start l ns name).
Proof. unfold start. total_walk. Qed.
#[local] Hint Resolve is_total start_total : total.
Lemma open_total n ns name : total l n 1 (open l ns name).
Proof. unfold open. total_walk. Qed.
Lemma end_total n ns name : total l n 1 (end_ l ns name).
Proof. unfold end_. total_walk. Qed.
Lemma content_loop_total fuel ns name max empty s : total l (Z.of_nat fuel) 1 (content_loop l ns name max empty fuel s).
Proof.
  revert s. induction fuel as [|fuel IH]; intros s.
  { intros st Hs Hl. unfold within, left in *. destruct (in_look st); lia. }
  cbn [content_loop]. apply total_take; [apply read_total|intros t].
  destruct t; try solve [total_walk].
  apply total_keep; [apply total_lift; eauto using bind_no_panic, xml_checked_no_panic, bound_no_panic|intros _].
  replace (Z.of_nat (S fuel) - 1) with (Z.of_nat fuel) by lia. apply (total_weaken l _ 0 1); [lia|apply IH].
Qed.
Lemma content_total n ns name max empty : total l n 1 (content l ns name max empty).
Proof. apply total_any. rewrite <-event_fuel_enough. apply content_loop_total. Qed.
#[local] Hint Resolve open_total end_total content_total : total.
Lemma scalar_total n ns name max empty : total l n 1 (scalar l ns name max empty).
Proof. unfold scalar. apply (total_weaken l n 1 (1 + 1)); [lia|]. apply total_bind; [apply open_total|intros _; apply content_total]. Qed.
#[local] Hint Resolve scalar_total : total.
Lemma optional_total n ns name max : total l n 0 (optional l ns name max).
Proof. unfold optional. total_walk. Qed.
Lemma finish_total n : total l n 1 (finish l).
Proof. unfold finish. total_walk. Qed.
Lemma command_total n : total l n 0 (command l).
Proof.
  intros s Hs _. unfold command. destruct (bound _ _) eqn:E; [|done|by apply bound_no_panic in E]. simpl.
  split; [exact Hs|unfold left; simpl; lia].
Qed.
Lemma item_total n : total l n 0 (item l).
Proof.
  intros s Hs _. unfold item. destruct (bound _ _) eqn:E; [|done|by apply bound_no_panic in E]. simpl.
  split; [exact Hs|unfold left; simpl; lia].
Qed.
Lemma Input_new_within input max s : Input_new input max = Ok s -> within l s.
Proof. unfold Input_new. intros H. inv_ok. unfold within. simpl. lia. Qed.
Lemma Input_new_no_panic input max : no_panic (Input_new input max).
Proof. unfold Input_new. repeat (apply bind_no_panic; [eauto with total|intros ? _]). done. Qed.
Lemma total_run {E A} d (m : reader E A) input max s :
  (forall n, total l n d m) -> Input_new input max = Ok s -> no_panic (m s).
Proof.
  intros Hm Hs. apply Input_new_within in Hs. specialize (Hm (left l s + 1) s Hs ltac:(lia)).
  by destruct (m s) as [[]| |].
Qed.
End Primitives.
#[export] Hint Resolve bound_no_panic xml_checked_no_panic text_no_panic Start_attrs_no_panic Input_new_no_panic : total.
#[export] Hint Resolve read_total significant_total is_total start_total open_total end_total content_total
  scalar_total optional_total finish_total command_total item_total : total.
(** One binding whose first part ends, tokens taken or not. *)
Ltac keep := apply total_keep; [first [solve [eauto 10 with total]|apply total_spare; solve [eauto 10 with total]]|intros ?].
