(* ===== verification/SyncmlTotal.v ===== *)
(** * SyncML messages: decoding and validation end

    No input makes [decode], the declared-configuration readers or validation run out of fuel. *)
From S2P Require Import Prelude Ordered Text External Xml Declared SyncmlModel SyncmlCodec XmlTotal.

(** ** Declared configuration *)
Section DeclaredTotal.
Context `{QX : QuickXml} `{UC : UuidCrate} `{UT : !UuidText}.
Let l := CodecLimits_default.

Lemma malformed_no_panic {A} (r : xres A) : no_panic r -> no_panic (malformed r).
Proof. by destruct r. Qed.
Lemma attr_no_panic s name : no_panic (attr s name).
Proof. unfold attr. no_panic_walk. Qed.
Lemma attr_number_no_panic max s name : no_panic (attr_number max s name).
Proof. unfold attr_number. no_panic_walk. Qed.
#[local] Hint Resolve malformed_no_panic attr_no_panic attr_number_no_panic : total.
Lemma read_context_no_panic s : no_panic (read_context s).
Proof. unfold read_context. no_panic_walk. Qed.
#[local] Hint Resolve read_context_no_panic : total.
Lemma read_summary_no_panic s : no_panic (read_summary s).
Proof. unfold read_summary. no_panic_walk. Qed.
Lemma read_identity_no_panic s : no_panic (read_identity s).
Proof. unfold read_identity. no_panic_walk. Qed.
Lemma root_attributes_no_panic s result : no_panic (root_attributes s result).
Proof. unfold root_attributes. no_panic_walk. Qed.
Lemma family_no_panic s dsc result : no_panic (family s dsc result).
Proof. unfold family. no_panic_walk. Qed.
Lemma member_no_panic s f dsc result : no_panic (member s f dsc result).
Proof. unfold member. no_panic_walk. Qed.
Lemma insert_member_no_panic {V} key (v : V) m : no_panic (insert_member key v m).
Proof. unfold insert_member. no_panic_walk. Qed.
#[local] Hint Resolve read_summary_no_panic read_identity_no_panic root_attributes_no_panic family_no_panic
  member_no_panic insert_member_no_panic : total.

Lemma member_next_total n dsc : total l n 0 (member_next dsc).
Proof. unfold member_next. total_walk. Qed.
Lemma member_tag_total n dsc : total l n 0 (member_tag dsc).
Proof. unfold member_tag. total_walk. Qed.
#[local] Hint Resolve member_next_total member_tag_total : total.
Lemma read_member_total n f dsc result : total l n 1 (read_member f dsc result).
Proof. unfold read_member. total_walk. Qed.
#[local] Hint Resolve read_member_total : total.
Ltac total_loop fuel IH :=
  induction fuel as [|fuel IH]; intros; [apply total_zero|];
  cbn [document_members document_families result_members result_families summary_documents].

Lemma document_members_total fuel f dsc m : total l (Z.of_nat fuel) 0 (document_members fuel f dsc m).
Proof.
  revert m. total_loop fuel IH. apply total_keep; [eauto with total|intros more]. destruct more; [|total_walk].
  apply total_take_0; [eauto with total|intros [[tag s] key]].
  apply total_keep; [apply (total_weaken l _ 0 1); [lia|apply total_malformed, content_total]|intros value].
  apply total_keep; [eauto with total|intros m']. apply total_next, IH.
Qed.
Lemma result_members_total fuel f dsc st sa m : total l (Z.of_nat fuel) 0 (result_members fuel f dsc st sa m).
Proof.
  revert m. total_loop fuel IH. apply total_keep; [eauto with total|intros more]. destruct more; [|total_walk].
  apply total_take_0; [eauto with total|intros [[tag s] key]].
  do 2 (apply total_keep; [eauto with total|intros ?]).
  apply total_keep; [apply (total_weaken l _ 0 1); [lia|apply total_malformed, content_total]|intros value].
  apply total_keep; [eauto with total|intros m']. apply total_next, IH.
Qed.
Lemma members_total n f dsc m : total l n 0 (document_members (event_fuel l) f dsc m).
Proof. apply (total_fuel l n (fun fuel => document_members fuel f dsc m)). intros. apply document_members_total. Qed.
Lemma members_result_total n f dsc st sa m : total l n 0 (result_members (event_fuel l) f dsc st sa m).
Proof. apply (total_fuel l n (fun fuel => result_members fuel f dsc st sa m)). intros. apply result_members_total. Qed.
#[local] Hint Resolve members_total members_result_total : total.
Lemma document_families_total fuel dsc fams m : total l (Z.of_nat fuel) 0 (document_families fuel dsc fams m).
Proof.
  revert fams m. total_loop fuel IH. keep. case_match; [|total_walk].
  apply total_take_0; [eauto with total|intros s]. do 4 keep. apply total_next, IH.
Qed.
Lemma result_families_total fuel dsc state fams m : total l (Z.of_nat fuel) 0 (result_families fuel dsc state fams m).
Proof.
  revert fams m. total_loop fuel IH. keep. case_match; [|total_walk].
  apply total_take_0; [eauto with total|intros s]. do 7 keep. apply total_next, IH.
Qed.
Lemma summary_documents_total fuel m : total l (Z.of_nat fuel) 0 (summary_documents fuel m).
Proof.
  revert m. total_loop fuel IH. keep. case_match; [|total_walk].
  apply total_take_0; [eauto with total|intros s]. do 4 keep. apply total_next, IH.
Qed.
Lemma families_total n dsc fams m : total l n 0 (document_families (event_fuel l) dsc fams m).
Proof. apply (total_fuel l n (fun fuel => document_families fuel dsc fams m)). intros. apply document_families_total. Qed.
Lemma families_result_total n dsc state fams m : total l n 0 (result_families (event_fuel l) dsc state fams m).
Proof. apply (total_fuel l n (fun fuel => result_families fuel dsc state fams m)). intros. apply result_families_total. Qed.
Lemma summaries_total n m : total l n 0 (summary_documents (event_fuel l) m).
Proof. apply (total_fuel l n (fun fuel => summary_documents fuel m)). intros. apply summary_documents_total. Qed.
#[local] Hint Resolve families_total families_result_total summaries_total : total.

Lemma run_no_panic {A} input (m : nread A) : (forall n, total l n 0 m) -> no_panic (run input m).
Proof.
  intros Hm. unfold run. apply bind_no_panic; [eauto with total|]. intros s Hs. unfold malformed in Hs.
  destruct (Input_new _ _) as [s'| |] eqn:E; try done. injection Hs as <-.
  apply bind_no_panic; [|done]. by eapply total_run.
Qed.
Lemma summaries_no_panic xml : no_panic (summaries xml).
Proof. unfold summaries. apply run_no_panic. intros n. repeat keep. total_walk. Qed.
Lemma Document_parse_no_panic xml : no_panic (Document_parse xml).
Proof. unfold Document_parse. apply run_no_panic. intros n. cbv zeta. repeat keep. total_walk. Qed.
Lemma ResultDocument_parse_no_panic xml : no_panic (ResultDocument_parse xml).
Proof. unfold ResultDocument_parse. apply run_no_panic. intros n. repeat keep. total_walk. Qed.
End DeclaredTotal.
#[export] Hint Resolve summaries_no_panic : total.

(** ** Validation *)
Section ValidationTotal.
Context `{QX : QuickXml} `{UC : UuidCrate} `{UT : !UuidText} `{B64 : Base64Standard} (l : CodecLimits).

(** One turn keeps the work within the limit. *)
Lemma expand_no_panic output pending depth atomic additions c : no_panic (expand l output pending depth atomic additions c).
Proof. destruct c; simpl; no_panic_walk. Qed.
Lemma expand_bound output pending depth atomic additions c r :
  expand l output pending depth atomic additions c = Ok r -> output + pending + 1 <= l_commands l ->
  output + 1 + (zlen r.1 + pending) <= l_commands l.
Proof.
  assert (forall cs (f : Command -> work), zlen (map f cs) = zlen cs) as Hmap by (intros; unfold zlen; by rewrite length_map).
  destruct c; unfold expand, bound; intros H Hb; inv_ok; bool_hyps; simpl; rewrite ?Hmap; change (zlen (@nil work)) with 0; lia.
Qed.
(** The loop runs at most once per command allowed. *)
Lemma flatten_loop_no_panic fuel pending output additions :
  zlen output + Z.of_nat fuel = Z.of_nat (flatten_fuel l) -> zlen output + zlen pending <= l_commands l ->
  no_panic (flatten_loop l fuel pending output additions).
Proof.
  revert pending output additions. induction fuel as [|fuel IH]; intros [|[[c depth] atomic] pending] output additions Hf Hb;
    simpl; try done.
  - unfold flatten_fuel in Hf. rewrite zlen_cons in Hb. pose proof (zlen_nonneg pending). lia.
  - apply bind_no_panic; [eauto with total|intros ? _]. apply bind_no_panic; [eauto with total|intros ? Hc].
    apply bind_no_panic; [apply expand_no_panic|intros r Hr]. unfold bound in Hc. apply reject_ok, Z.ltb_ge in Hc.
    apply expand_bound in Hr; [|done]. apply IH; rewrite ?zlen_app, ?zlen_cons; change (zlen (@nil Command)) with 0; lia.
Qed.
Lemma flattened_no_panic cs : no_panic (flattened l cs).
Proof.
  unfold flattened. apply bind_no_panic; [eauto with total|intros ? Hb]. unfold bound in Hb. apply reject_ok, Z.ltb_ge in Hb.
  apply flatten_loop_no_panic; [done|]. change (zlen (@nil Command)) with 0. unfold zlen at 1. rewrite length_map.
  unfold zlen in Hb. lia.
Qed.
#[local] Hint Resolve flattened_no_panic : total.
Lemma text_opt_no_panic v max empty : no_panic (text_opt v max empty).
Proof. unfold text_opt. no_panic_walk. Qed.
#[local] Hint Resolve text_opt_no_panic : total.
Lemma validate_meta_no_panic m credential : no_panic (validate_meta l m credential).
Proof. unfold validate_meta. no_panic_walk. Qed.
#[local] Hint Resolve validate_meta_no_panic : total.
Lemma validate_item_no_panic get devinfo seen i : no_panic (validate_item l get devinfo seen i).
Proof. unfold validate_item. no_panic_walk. Qed.
#[local] Hint Resolve validate_item_no_panic : total.
Lemma validate_items_no_panic items get devinfo : no_panic (validate_items l items get devinfo).
Proof. unfold validate_items. no_panic_walk. Qed.
Lemma validate_mutation_item_no_panic c seen i : no_panic (validate_mutation_item l c seen i).
Proof. unfold validate_mutation_item. no_panic_walk. Qed.
#[local] Hint Resolve validate_items_no_panic validate_mutation_item_no_panic : total.
Lemma validate_mutation_no_panic c items : no_panic (validate_mutation l c items).
Proof. unfold validate_mutation. no_panic_walk. Qed.
Lemma validate_credential_no_panic c : no_panic (validate_credential l c).
Proof. unfold validate_credential. no_panic_walk. Qed.
Lemma validate_refs_no_panic refs : no_panic (validate_refs l refs).
Proof. unfold validate_refs, validate_ref. no_panic_walk. Qed.
Lemma validate_challenge_no_panic n c : no_panic (validate_challenge l n c).
Proof. unfold validate_challenge. no_panic_walk. Qed.
Lemma validate_detail_no_panic i : no_panic (validate_detail l i).
Proof. unfold validate_detail. no_panic_walk. Qed.
#[local] Hint Resolve validate_mutation_no_panic validate_credential_no_panic validate_refs_no_panic
  validate_challenge_no_panic validate_detail_no_panic : total.
Lemma validate_status_no_panic s : no_panic (validate_status l s).
Proof. unfold validate_status. no_panic_walk. Qed.
Lemma checked_summaries_no_panic summary :
  no_panic (match summaries summary with Ok _ => Ok () | Err _ => Err InvalidValue | Panic => Panic end : xres ()).
Proof. pose proof (summaries_no_panic summary). by destruct (summaries summary). Qed.
#[local] Hint Resolve checked_summaries_no_panic : total.
Lemma validate_interrupted_no_panic i : no_panic (validate_interrupted l i).
Proof. unfold validate_interrupted. no_panic_walk. Qed.
#[local] Hint Resolve validate_interrupted_no_panic : total.
Lemma validate_alert_no_panic a : no_panic (validate_alert l a).
Proof. destruct a; simpl; no_panic_walk. Qed.
#[local] Hint Resolve validate_status_no_panic validate_alert_no_panic : total.
Lemma validate_command_no_panic c : no_panic (validate_command l c).
Proof. destruct c; simpl; no_panic_walk. Qed.
#[local] Hint Resolve validate_command_no_panic : total.
Lemma validate_step_no_panic acc c : no_panic (validate_step l acc c).
Proof. destruct acc. unfold validate_step. no_panic_walk. Qed.
#[local] Hint Resolve validate_step_no_panic : total.
Lemma validate_initialization_no_panic cs final : no_panic (validate_initialization cs final).
Proof. unfold validate_initialization, validate_notification_order, notification_step. no_panic_walk. Qed.
#[local] Hint Resolve validate_initialization_no_panic : total.
Lemma message_validate_no_panic m : no_panic (validate l m).
Proof. unfold validate, validate_body. no_panic_walk. Qed.
End ValidationTotal.
#[export] Hint Resolve flattened_no_panic message_validate_no_panic : total.

(** ** The reader *)
Section CodecTotal.
Context `{QX : QuickXml} `{UC : UuidCrate} `{UT : !UuidText} `{B64 : Base64Standard} (l : CodecLimits).
Implicit Types (n : Z).

Lemma number_no_panic s zero : no_panic (number s zero).
Proof. unfold number. no_panic_walk. Qed.
#[local] Hint Resolve number_no_panic : total.
Lemma num_total n name zero : total l n 1 (num l name zero).
Proof. unfold num. total_walk. Qed.
Lemma location_total n name : total l n 1 (location l name).
Proof. unfold location. apply total_take; [eauto with total|intros _]. repeat keep. total_walk. Qed.
#[local] Hint Resolve num_total location_total : total.
Lemma optional_location_total n name : total l n 0 (optional_location l name).
Proof. unfold optional_location. total_walk. Qed.
Lemma once_no_panic {A} (old : option A) v : no_panic (once old v).
Proof. by destruct old. Qed.
Lemma metinf_total n name max : total l n 1 (metinf l name max).
Proof. apply scalar_total. Qed.
Lemma metinf_number_total n name zero : total l n 1 (metinf_number l name zero).
Proof. unfold metinf_number. apply total_take; [apply metinf_total|intros v]. apply total_lift, number_no_panic. Qed.
#[local] Hint Resolve optional_location_total once_no_panic metinf_total metinf_number_total : total.
(** A turn either takes the tokens of a field or finds none. *)
Lemma meta_step_total n m : forall s, within l s -> left l s < n ->
  match meta_step l m s with
  | Ok (Some _, s') => within l s' /\ left l s' <= left l s - 1
  | Ok (None, s') => within l s' /\ left l s' <= left l s
  | Err _ => True
  | Panic => False
  end.
Proof.
  assert (forall (r : xread (option Meta)) s, total l n 1 r -> within l s -> left l s < n ->
    match r s with
    | Ok (Some _, s') => within l s' /\ left l s' <= left l s - 1
    | Ok (None, s') => within l s' /\ left l s' <= left l s
    | Err _ => True | Panic => False end) as Hend.
  { intros r s Hr Hs Hl. specialize (Hr s Hs Hl). destruct (r s) as [[[?|] ?]| |]; [done| |done..].
    destruct Hr. split; [done|lia]. }
  assert (forall ns name (a b : xread (option Meta)), total l n 1 a ->
    (forall s, within l s -> left l s < n -> match b s with
    | Ok (Some _, s') => within l s' /\ left l s' <= left l s - 1
    | Ok (None, s') => within l s' /\ left l s' <= left l s
    | Err _ => True | Panic => False end) ->
    forall s, within l s -> left l s < n -> match (present ← is_ l ns name; if (present : bool) then a else b) s with
    | Ok (Some _, s') => within l s' /\ left l s' <= left l s - 1
    | Ok (None, s') => within l s' /\ left l s' <= left l s
    | Err _ => True | Panic => False end) as Hif.
  { intros ns name a b Ha Hb s Hs Hl. pose proof (is_total l n ns name s Hs Hl) as Hi.
    unfold mbind at 1, reader_bind at 1. destruct (is_ l ns name s) as [[present s']| |]; [|done..].
    destruct Hi as [Hs' Hl']. destruct present.
    - specialize (Hend a s' Ha Hs' ltac:(lia)). destruct (a s') as [[[?|] ?]| |]; try done; destruct Hend; (split; [done|lia]).
    - specialize (Hb s' Hs' ltac:(lia)). destruct (b s') as [[[?|] ?]| |]; try done; destruct Hb; (split; [done|lia]). }
  unfold meta_step. do 5 (apply Hif; [total_walk|]). intros s Hs Hl. simpl. split; [done|lia].
Qed.
Lemma meta_loop_total fuel m : total l (Z.of_nat fuel) 0 (meta_loop l fuel m).
Proof.
  revert m. induction fuel as [|fuel IH]; intros m; [by apply total_none|]. intros s Hs Hl. cbn [meta_loop].
  pose proof (meta_step_total (Z.of_nat (S fuel)) m s Hs Hl) as Hm. unfold mbind, reader_bind.
  destruct (meta_step l m s) as [[[m'|] s']| |]; [| |done..].
  - destruct Hm as [Hs' Hl']. specialize (IH m' s' Hs' ltac:(lia)). destruct (meta_loop l fuel m' s') as [[]| |]; try done.
    destruct IH. split; [done|lia].
  - simpl. destruct Hm. split; [done|lia].
Qed.
Lemma meta_total n : total l n 0 (meta l).
Proof.
  unfold meta. keep. case_match; [total_walk|]. apply total_take_0; [eauto with total|intros _].
  apply total_keep; [apply (total_fuel l _ (fun fuel => meta_loop l fuel Meta_default)); intros; apply meta_loop_total|intros m].
  keep. total_walk.
Qed.
#[local] Hint Resolve meta_total : total.
Lemma read_data_total n max : total l n 0 (read_data l max).
Proof. unfold read_data. total_walk. Qed.
Lemma read_more_total n : total l n 0 (read_more l).
Proof. unfold read_more. keep. case_match; [|total_walk]. repeat keep. total_walk. Qed.
#[local] Hint Resolve read_data_total read_more_total : total.
Lemma read_item_total n : total l n 1 (read_item l).
Proof.
  unfold read_item. apply total_keep; [eauto with total|intros _]. apply total_take; [eauto with total|intros _].
  repeat keep. total_walk.
Qed.
#[local] Hint Resolve read_item_total : total.
Lemma items_loop_total fuel out : total l (Z.of_nat fuel) 0 (items_loop l fuel out).
Proof.
  revert out. induction fuel as [|fuel IH]; intros out; [apply total_zero|]. cbn [items_loop]. keep.
  case_match; [|total_walk]. apply total_take_0; [eauto with total|intros i]. apply total_next, IH.
Qed.
Lemma items_total n : total l n 0 (items l).
Proof.
  unfold items. apply total_keep; [apply (total_fuel l _ (fun fuel => items_loop l fuel [])); intros; apply items_loop_total|].
  total_walk.
Qed.
Lemma refs_loop_total fuel name out : total l (Z.of_nat fuel) 0 (refs_loop l fuel name out).
Proof.
  revert out. induction fuel as [|fuel IH]; intros out; [apply total_zero|]. cbn [refs_loop]. keep.
  case_match; [|total_walk]. keep. apply total_take_0; [eauto with total|intros i]. apply total_next, IH.
Qed.
Lemma refs_total n name : total l n 0 (refs l name).
Proof. unfold refs. apply (total_fuel l _ (fun fuel => refs_loop l fuel name [])). intros. apply refs_loop_total. Qed.
#[local] Hint Resolve items_total refs_total : total.
Lemma login_alert_no_panic m value : no_panic
  (if bool_decide (m_media_type m = Some LOGIN_STATUS) then
     (if bool_decide (value = lit "user") then Ok (LoginAlert Login_User (given (m_format m)))
      else if bool_decide (value = lit "others") then Ok (LoginAlert Login_Others (given (m_format m)))
      else if bool_decide (value = lit "none") then Ok (LoginAlert Login_None (given (m_format m)))
      else Err Unsupported)
   else if bool_decide (m_media_type m = Some DECLARED_SUMMARY) then
     match summaries value with
     | Ok _ => Ok (DeclaredConfiguration value (given (m_format m)))
     | Err _ => Err InvalidValue
     | Panic => Panic
     end
   else Err Unsupported : xres Alert).
Proof.
  repeat case_match; try done. pose proof (summaries_no_panic value). congruence.
Qed.
Lemma read_login_status_total n : total l n 0 (read_login_status l).
Proof. unfold read_login_status. repeat keep. apply total_lift, login_alert_no_panic. Qed.
Lemma read_credential_total n : total l n 0 (read_credential l).
Proof. unfold read_credential. keep. case_match; [total_walk|]. repeat keep. total_walk. Qed.
Lemma read_challenge_total n : total l n 0 (read_challenge l).
Proof. unfold read_challenge. keep. case_match; [total_walk|]. repeat keep. total_walk. Qed.
#[local] Hint Resolve read_login_status_total read_credential_total read_challenge_total : total.
Lemma CommandName_parse_no_panic s : no_panic (CommandName_parse s).
Proof. unfold CommandName_parse. no_panic_walk. Qed.
#[local] Hint Resolve CommandName_parse_no_panic : total.
Lemma items_if_total n (b : bool) : total l n 0 (if b then items l else mret []).
Proof. destruct b; eauto with total. Qed.
Lemma trailing_total n (b : bool) (a c : list rstr) :
  total l n 0 (if b then t ← refs l (lit "TargetRef"); s ← refs l (lit "SourceRef"); mret (t, s) else mret (a, c)).
Proof. destruct b; total_walk. Qed.
#[local] Hint Resolve items_if_total trailing_total : total.
Lemma read_status_total n : total l n 1 (read_status l).
Proof. unfold read_status. keep. apply total_take; [eauto with total|intros _]. repeat keep. total_walk. Qed.
Lemma optional_num_total n name : total l n 0 (optional_num l name).
Proof. unfold optional_num. total_walk. Qed.
#[local] Hint Resolve read_status_total optional_num_total : total.
Lemma read_results_total n : total l n 1 (read_results l).
Proof.
  unfold read_results. keep. apply total_take; [eauto with total|intros _]. do 4 keep.
  apply total_keep; [case_match; total_walk|intros ?]. repeat keep. total_walk.
Qed.
Lemma read_generic_total n : total l n 0 (read_generic l).
Proof. unfold read_generic. repeat keep. total_walk. Qed.
#[local] Hint Resolve read_results_total read_generic_total : total.
Lemma read_alert_body_total n code : total l n 0 (read_alert_body l code).
Proof. unfold read_alert_body. total_walk. Qed.
#[local] Hint Resolve read_alert_body_total : total.
Lemma read_alert_total n : total l n 1 (read_alert l).
Proof. unfold read_alert. keep. apply total_take; [eauto with total|intros _]. repeat keep. total_walk. Qed.
Lemma read_simple_total n name : total l n 1 (read_simple l name).
Proof. unfold read_simple. keep. apply total_take; [eauto with total|intros _]. repeat keep. total_walk. Qed.
#[local] Hint Resolve read_alert_total read_simple_total : total.
Lemma read_replace_total n : total l n 1 (read_replace l).
Proof. unfold read_replace. total_walk. Qed.
#[local] Hint Resolve read_replace_total : total.

(** One kind of command: when its element is next, it is read and the loop goes on. *)
Lemma branch_total {A} fuel (group : xread (list Command)) ns name (c : xread A) (build : A -> Command) out rest :
  total l (Z.of_nat (S fuel)) 1 c ->
  (forall out, total l (Z.of_nat fuel) 0 (commands_loop l group fuel out)) ->
  total l (Z.of_nat (S fuel)) 0 rest ->
  total l (Z.of_nat (S fuel)) 0
    (present ← is_ l ns name;
     if (present : bool) then r ← c; commands_loop l group fuel (out ++ [build r]) else rest).
Proof.
  intros Hc Hloop Hrest. keep. case_match; [|done]. apply total_take_0; [done|intros r]. apply total_next, Hloop.
Qed.
Lemma commands_loop_total group fuel out : (forall n, total l n 0 group) ->
  total l (Z.of_nat fuel) 0 (commands_loop l group fuel out).
Proof.
  intros Hgroup. revert out. induction fuel as [|fuel IH]; intros out; [apply total_zero|].
  cbn [commands_loop]. cbv zeta.
  assert (forall n name (build : Z -> list Command -> Command), total l n 1
    (_ ← command l; _ ← open l NS name; id ← num l (lit "CmdID") false; children ← group; _ ← end_ l NS name;
     mret (build id children))) as Hread.
  { intros n name build. keep. apply total_take; [eauto with total|intros _]. repeat keep. total_walk. }
  apply (branch_total fuel group NS _ _ (fun c => c)); [apply Hread|exact IH|].
  apply (branch_total fuel group NS _ _ (fun c => c)); [apply Hread|exact IH|].
  apply (branch_total fuel group NS _ _ (fun r => Get r.1.1 r.1.2 r.2)); [apply read_simple_total|exact IH|].
  apply (branch_total fuel group NS _ _ StatusCommand); [apply read_status_total|exact IH|].
  apply (branch_total fuel group NS _ _ ResultsCommand); [apply read_results_total|exact IH|].
  apply (branch_total fuel group NS _ _ (fun c => c)); [apply read_alert_total|exact IH|].
  apply (branch_total fuel group NS _ _ (fun r => Add r.1.1 r.1.2 r.2)); [apply read_simple_total|exact IH|].
  apply (branch_total fuel group NS _ _ (fun r => Exec r.1.1 r.1.2 r.2)); [apply read_simple_total|exact IH|].
  apply (branch_total fuel group NS _ _ (fun r => Delete r.1.1 r.1.2 r.2)); [apply read_simple_total|exact IH|].
  apply (branch_total fuel group NS _ _ (fun c => c)); [apply read_replace_total|exact IH|].
  apply total_ret.
Qed.
(** Deeper than 32 levels is an error before the levels are used up. *)
Lemma read_commands_total n levels depth : depth + Z.of_nat levels = 34 -> total l n 0 (read_commands l levels depth).
Proof.
  revert n depth. induction levels as [|levels IH]; intros n depth Hd.
  - intros s _ _. cbn [read_commands]. unfold mbind, reader_bind, lift at 1, bound, reject.
    rewrite (proj2 (Z.ltb_lt _ _)) by lia. done.
  - cbn [read_commands]. apply total_keep; [eauto with total|intros _].
    apply (total_fuel l n (fun fuel => commands_loop l (read_commands l levels (depth + 1)) fuel [])). intros fuel.
    apply commands_loop_total. intros m. apply IH. lia.
Qed.
Lemma read_header_total n : total l n 0 (read_header l).
Proof.
  unfold read_header. do 2 keep.
  apply total_keep; [case_bool_decide; [apply total_spare|]; total_walk|intros _]. repeat keep. total_walk.
Qed.
Lemma read_final_total n : total l n 0 (read_final l).
Proof. unfold read_final. keep. case_match; [|total_walk]. repeat keep. total_walk. Qed.
#[local] Hint Resolve read_header_total read_final_total : total.
Lemma read_message_total n : total l n 0 (read_message l).
Proof.
  unfold read_message. do 3 keep. apply total_keep; [by apply read_commands_total|intros cs]. repeat keep. total_walk.
Qed.
Lemma decode_no_panic input : no_panic (decode l input).
Proof.
  unfold decode. apply bind_no_panic; [eauto with total|intros s Hs].
  apply bind_no_panic; [eapply total_run; [apply read_message_total|exact Hs]|intros r _].
  apply bind_no_panic; [eauto with total|done].
Qed.
End CodecTotal.

(** ** The writer *)
(** Induction over commands and the groups that contain them. *)
Definition is_group (c : Command) : bool := match c with Atomic _ _ | Sequence _ _ => true | _ => false end.
Section CommandInduction.
Context (P : Command -> Prop) (Hleaf : forall c, is_group c = false -> P c)
  (Hatomic : forall id cs, Forall P cs -> P (Atomic id cs))
  (Hsequence : forall id cs, Forall P cs -> P (Sequence id cs)).
Fixpoint Command_tree_ind (c : Command) : P c :=
  let list_ind := fix list_ind (cs : list Command) : Forall P cs :=
    match cs with [] => Forall_nil_2 P | c :: cs => Forall_cons_2 P c cs (Command_tree_ind c) (list_ind cs) end in
  match c with
  | Atomic id cs => Hatomic id cs (list_ind cs)
  | Sequence id cs => Hsequence id cs (list_ind cs)
  | Add id m i => Hleaf (Add id m i) eq_refl
  | Replace id m i => Hleaf (Replace id m i) eq_refl
  | Delete id m i => Hleaf (Delete id m i) eq_refl
  | Exec id m i => Hleaf (Exec id m i) eq_refl
  | Get id m i => Hleaf (Get id m i) eq_refl
  | StatusCommand s => Hleaf (StatusCommand s) eq_refl
  | ResultsCommand r => Hleaf (ResultsCommand r) eq_refl
  | AlertCommand id a => Hleaf (AlertCommand id a) eq_refl
  | DevInfo id i => Hleaf (DevInfo id i) eq_refl
  end.
End CommandInduction.

Section WriterTotal.
Context `{QX : QuickXml} `{UC : UuidCrate} `{UT : !UuidText} `{B64 : Base64Standard} (l : CodecLimits).
#[local] Open Scope xml_scope.

(** A writer that ends, and keeps what was written within the output's limit. *)
Definition stays (w w' : Output) : Prop :=
  out_max w' = out_max w /\ (zlen (out_bytes w) <= Z.max 0 (out_max w) -> zlen (out_bytes w') <= Z.max 0 (out_max w)).
Definition calm (f : xwrite) : Prop := forall w,
  match f w with Ok w' => stays w w' | Err _ => True | Panic => False end.
Lemma stays_same w b binds active cs its :
  stays w (mk_Output (out_bytes w) (out_max w) b binds active cs its).
Proof. done. Qed.
Lemma stays_trans w1 w2 w3 : stays w1 w2 -> stays w2 w3 -> stays w1 w3.
Proof. intros [E1 H1] [E2 H2]. rewrite E1 in *. split; auto. Qed.
Lemma calm_then f g : calm f -> calm g -> calm (f;; g).
Proof.
  intros Hf Hg w. unfold then_write. specialize (Hf w). destruct (f w) as [w1| |]; [|done..].
  specialize (Hg w1). destruct (g w1); [|done..]. by eapply stays_trans.
Qed.
Lemma calm_skip : calm skip_write.
Proof. by intros w. Qed.
Lemma calm_fail r : no_panic r -> calm (fail_write r).
Proof. intros Hr w. by destruct r. Qed.
Lemma calm_all {A} (f : A -> xwrite) xs : (forall x, x ∈ xs -> calm (f x)) -> calm (write_all f xs).
Proof.
  unfold write_all. intros Hf. induction xs as [|x xs IH]; intros w; [by split|]. cbn [res_for].
  pose proof (Hf x ltac:(by left) w) as Hx. destruct (f x w) as [w1| |]; [|done..]. simpl.
  assert (calm (write_all f xs)) as Hxs by (apply IH; intros; apply Hf; by right). specialize (Hxs w1).
  unfold write_all in Hxs. destruct (res_for _ xs w1); [|done..]. by eapply stays_trans.
Qed.
Lemma calm_opt {A} (f : A -> xwrite) o : (forall x, calm (f x)) -> calm (write_opt f o).
Proof. intros Hf. destruct o; [apply Hf|apply calm_skip]. Qed.
Lemma calm_sink b : calm (sink b).
Proof.
  intros w. unfold sink, reject. destruct (_ <? _) eqn:E; simpl; [done|]. apply Z.ltb_ge in E.
  split; [done|]. simpl. rewrite zlen_app. unfold zlen in *. lia.
Qed.
(** A step that only changes the accounts. *)
Lemma calm_bookkeeping {A} (r : Output -> xres A) (k : Output -> A -> Output) :
  (forall w, no_panic (r w)) -> (forall w a, stays w (k w a)) -> calm (fun w => a ← r w; Ok (k w a)).
Proof. intros Hr Hk w. specialize (Hr w). destruct (r w); simpl; done. Qed.
Lemma calm_spend f : (forall b, no_panic (f b)) -> calm (spend f).
Proof. intros Hf. apply (calm_bookkeeping (fun w => f (out_budget w))); done. Qed.
Lemma calm_bind_names n : calm (bind_names l n).
Proof. apply (calm_bookkeeping (fun w => bound (out_active w + n) _)); [|done]. intros w. apply bound_no_panic. Qed.
Lemma calm_start name attrs : calm (out_start l name attrs).
Proof.
  unfold out_start. repeat apply calm_then.
  - apply calm_spend, Budget_event_no_panic.
  - apply calm_spend. intros. apply Budget_start_no_panic.
  - apply calm_bind_names.
  - apply calm_fail. no_panic_walk.
  - apply calm_sink.
Qed.
Lemma calm_end name : calm (out_end l name).
Proof.
  unfold out_end. repeat apply calm_then.
  - apply calm_spend, Budget_event_no_panic.
  - apply calm_spend. intros. apply Budget_end_no_panic.
  - intros w. unfold unbind_names. by destruct (out_bindings w).
  - apply calm_sink.
Qed.
Lemma calm_content v max : calm (out_content l v max).
Proof.
  unfold out_content. apply calm_then; [apply calm_fail, text_no_panic|]. case_match; [apply calm_skip|].
  apply calm_then; [|apply calm_sink]. apply calm_spend. intros b. apply bind_no_panic; [|done].
  apply loop_no_panic. intros [b' run] c. unfold charge_char. pose proof (Budget_event_no_panic l b').
  repeat case_match; try done; by apply bind_no_panic.
Qed.
Lemma calm_scalar name v max empty : calm (out_scalar l name v max empty).
Proof. unfold out_scalar. eauto using calm_then, calm_start, calm_end, calm_content, calm_fail, text_no_panic. Qed.
Lemma calm_empty name : calm (out_empty l name).
Proof. unfold out_empty. eauto using calm_then, calm_start, calm_end. Qed.
Lemma calm_item : calm (out_item l).
Proof. apply (calm_bookkeeping (fun w => bound (out_items w + 1) _)); [|done]. intros w. apply bound_no_panic. Qed.
Lemma calm_command : calm (out_command l).
Proof. apply (calm_bookkeeping (fun w => bound (out_commands w + 1) _)); [|done]. intros w. apply bound_no_panic. Qed.
Create HintDb calm.
#[local] Hint Resolve calm_then calm_skip calm_all calm_opt calm_start calm_end calm_content calm_scalar calm_empty
  calm_item calm_command : calm.
#[local] Hint Extern 3 (calm (if _ then _ else _)) => case_match : calm.
#[local] Hint Extern 3 (calm (match _ with _ => _ end)) => case_match : calm.
Lemma calm_element name attrs inner : calm inner -> calm (write_element l name attrs inner).
Proof. unfold write_element. eauto with calm. Qed.
Lemma calm_metinf name v max : calm (write_metinf l name v max).
Proof. unfold write_metinf. apply calm_element. eauto with calm. Qed.
Lemma calm_num name n : calm (write_num l name n).
Proof. unfold write_num. eauto with calm. Qed.
#[local] Hint Resolve calm_element calm_metinf calm_num : calm.
Lemma calm_meta m : calm (write_meta l m).
Proof.
  unfold write_meta. apply calm_opt. intros m'. apply calm_element. do 2 (apply calm_then; [eauto with calm|]).
  apply calm_all. intros [name v] _. unfold write_number_meta. eauto with calm.
Qed.
#[local] Hint Resolve calm_meta : calm.
Lemma calm_location name v : calm (write_location l name v).
Proof. unfold write_location. eauto with calm. Qed.
#[local] Hint Resolve calm_location : calm.
Lemma calm_items items : calm (write_items l items).
Proof. unfold write_items. apply calm_all. intros i _. unfold write_item. eauto 20 with calm. Qed.
Lemma calm_credential c : calm (write_credential l c).
Proof. unfold write_credential. eauto 10 with calm. Qed.
Lemma calm_challenge c : calm (write_challenge l c).
Proof. unfold write_challenge. eauto 10 with calm. Qed.
Lemma calm_refs s : calm (write_refs l s).
Proof. unfold write_refs. apply calm_then; apply calm_all; intros; unfold write_ref; eauto with calm. Qed.
#[local] Hint Resolve calm_items calm_credential calm_challenge calm_refs : calm.
Lemma calm_status s : calm (write_status l s).
Proof. unfold write_status. do 8 (apply calm_then; [eauto with calm|]). eauto with calm. Qed.
Lemma calm_results r : calm (write_results l r).
Proof. unfold write_results. eauto 10 with calm. Qed.
Lemma calm_alert a : calm (write_alert l a).
Proof. unfold write_alert, write_typed_alert. apply calm_then; [eauto with calm|]. destruct a; eauto 20 with calm. Qed.
#[local] Hint Resolve calm_status calm_results calm_alert : calm.
Lemma calm_write_command c : calm (write_command l c).
Proof.
  induction c as [c Hc|id cs IH|id cs IH] using Command_tree_ind;
    [destruct c; try discriminate Hc; cbn [write_command]; eauto 10 with calm|..].
  - cbn [write_command]. apply calm_then; [eauto with calm|]. apply calm_element, calm_then; [eauto with calm|].
    apply calm_all. by apply Forall_forall.
  - cbn [write_command]. apply calm_then; [eauto with calm|]. apply calm_element, calm_then; [eauto with calm|].
    apply calm_all. by apply Forall_forall.
Qed.
Lemma calm_message m : calm (write_message l m).
Proof.
  apply calm_element, calm_then.
  - unfold write_header. eauto 20 with calm.
  - unfold write_body, write_commands. apply calm_element, calm_then; [|eauto with calm].
    apply calm_all. intros c _. apply calm_write_command.
Qed.
Lemma encode_no_panic m : no_panic (encode l m).
Proof.
  unfold encode. apply bind_no_panic; [eauto with total|intros ? _]. apply bind_no_panic.
  - pose proof (calm_message m (Output_new (l_syncml_bytes l))) as Hm. by destruct (write_message _ _ _).
  - intros w _. unfold out_finish. pose proof (Budget_event_no_panic l (out_budget w)).
    apply bind_no_panic; [done|intros b _]. no_panic_walk.
Qed.
(** What was encoded is within the limit. *)
Lemma encode_fits m b : encode l m = Ok b -> zlen b <= Z.max 0 (l_syncml_bytes l).
Proof.
  unfold encode. intros H. apply bind_ok in H as (? & _ & H). apply bind_ok in H as (w & Hw & H).
  pose proof (calm_message m (Output_new (l_syncml_bytes l))) as Hm. rewrite Hw in Hm. destruct Hm as [_ Hm].
  unfold out_finish in H. apply bind_ok in H as (? & _ & H). apply bind_ok in H as (? & _ & [= <-]).
  apply Hm. simpl. unfold zlen. simpl. lia.
Qed.
End WriterTotal.

(** ** What flattening computes

    The work-list loop of [flattened] is the preorder traversal of the command trees, with the
    structural rules of groups as a predicate on the visited commands. *)
(** ** The traversal *)
Fixpoint visit (depth : Z) (group : option Z) (c : Command) : list work :=
  (c, depth, group) ::
  match c with
  | Atomic id cs => concat (map (visit (depth + 1) (Some id)) cs)
  | Sequence _ cs => concat (map (visit (depth + 1) group) cs)
  | _ => []
  end.
Definition visit_work (w : work) : list work := visit w.1.2 w.2 w.1.1.
Definition visit_all (ws : list work) : list work := concat (map visit_work ws).
Definition traversal (cs : list Command) : list work := concat (map (visit 0 None) cs).
Definition visited (w : work) : Command := w.1.1.

(** Where a command may stand: groups are not empty and not too deep, atomic groups contain
    neither reads nor atomic groups, and only operations are inside groups. *)
Definition placed (l : CodecLimits) (w : work) : Prop :=
  w.1.2 <= Z.min (l_depth l) 32 /\
  match w.1.1 with
  | Atomic _ cs => cs <> [] /\ w.2 = None
  | Sequence _ cs => cs <> []
  | Get _ _ _ => w.2 = None
  | StatusCommand _ | ResultsCommand _ | AlertCommand _ _ | DevInfo _ _ => w.1.2 = 0
  | _ => True
  end.
(** What the atomic group [id] has added so far. *)
Definition adds (id : Z) (uri : rstr) (w : work) : Prop :=
  match w with (Add _ _ items, _, Some id') => id' = id /\ uri ∈ targets_of items | _ => False end.
(** No atomic group replaces what it added before. *)
Definition never_readded (ws : list work) : Prop :=
  forall before cid m items depth id after, ws = before ++ (Replace cid m items, depth, Some id) :: after ->
  forall uri w, uri ∈ targets_of items -> w ∈ before -> ~ adds id uri w.

(** ** The loop *)
Section Flatten.
Context (l : CodecLimits).
Implicit Types (a : list (Z * list rstr)) (w : work).

Definition children w : list work :=
  match w.1.1 with
  | Atomic id cs => map (fun c => (c, w.1.2 + 1, Some id)) cs
  | Sequence _ cs => map (fun c => (c, w.1.2 + 1, w.2)) cs
  | _ => []
  end.
Definition additions_after a w : list (Z * list rstr) :=
  match w with
  | (Add _ _ items, _, Some id) => bm_insert id (foldl (fun s t => bs_insert t s) (added a id) (targets_of items)) a
  | _ => a
  end.
Definition allowed a w : Prop :=
  match w with
  | (Replace _ _ items, _, Some id) => forall uri, uri ∈ targets_of items -> uri ∉ added a id
  | _ => True
  end.
Fixpoint respects a (ws : list work) : Prop :=
  match ws with [] => True | w :: ws => allowed a w /\ respects (additions_after a w) ws end.

Lemma visit_children w : visit_work w = w :: visit_all (children w).
Proof.
  destruct w as [[c depth] group]. unfold visit_work, visit_all, children. simpl.
  destruct c; simpl; try done; f_equal; f_equal; rewrite map_map; done.
Qed.
Lemma visit_all_cons w ws : visit_all (w :: ws) = w :: visit_all (children w ++ ws).
Proof. unfold visit_all. rewrite map_app, concat_app. simpl. by rewrite visit_children. Qed.
Lemma visit_all_length ws : zlen ws <= zlen (visit_all ws).
Proof.
  induction ws as [|w ws IH]; [done|]. unfold visit_all in *. simpl. rewrite visit_children, zlen_app, !zlen_cons.
  pose proof (zlen_nonneg (visit_all (children w))). unfold visit_all in *. lia.
Qed.
Lemma zlen_map {A B} (f : A -> B) (xs : list A) : zlen (map f xs) = zlen xs.
Proof. unfold zlen. by rewrite length_map. Qed.
Lemma is_empty_false {A} (xs : list A) : is_empty xs = false <-> xs <> [].
Proof. by destruct xs. Qed.

(** [if bad { return Err(e) }] before the rest. *)
Lemma reject_then {E A} bad (e : E) (k : res E A) r : (_ ← reject bad e; k) = Ok r <-> bad = false /\ k = Ok r.
Proof. destruct bad; simpl; naive_solver. Qed.
Lemma expand_spec output pending depth group a c r :
  output + pending + 1 <= l_commands l -> depth <= Z.min (l_depth l) 32 ->
  expand l output pending depth group a c = Ok r <->
  placed l (c, depth, group) /\ allowed a (c, depth, group) /\
  output + pending + zlen (children (c, depth, group)) + 1 <= l_commands l /\
  r = (children (c, depth, group), additions_after a (c, depth, group)).
Proof.
  intros Hb Hd. unfold placed, allowed, children, additions_after.
  destruct c; unfold expand, bound; simpl; rewrite ?zlen_map, ?reject_then, ?is_empty_false, ?Z.ltb_ge, ?negb_false_iff,
    ?Z.eqb_eq; change (zlen (@nil work)) with 0;
    try solve [split; [intros [= <-]|intros (_ & _ & _ & ->)]; destruct group; split_and?; try done; lia].
  - destruct group as [id'|]; simpl.
    + rewrite existsb_false_iff. setoid_rewrite <-not_true_iff_false. setoid_rewrite bs_mem_iff. split.
      * intros (Hno & [= <-]). split_and!; [done..| |lia|done]. exact Hno.
      * by intros (_ & Hno & _ & ->).
    + split; [intros (_ & [= <-])|intros (_ & _ & _ & ->)]; split_and?; try done; lia.
  - split.
    + intros (? & ? & ? & [= <-]). destruct group; split_and!; try done; lia.
    + by intros ((_ & ? & ->) & _ & ? & ->).
  - split.
    + intros (? & ? & [= <-]). split_and!; try done; lia.
    + by intros ((_ & ?) & _ & ? & ->).
  - split.
    + intros (? & [= <-]). destruct group; split_and!; try done; lia.
    + by intros ((_ & ->) & _ & ? & ->).
  - split; [intros (? & [= <-])|intros ((_ & ?) & _ & ? & ->)]; split_and?; try done; lia.
  - split; [intros (? & [= <-])|intros ((_ & ?) & _ & ? & ->)]; split_and?; try done; lia.
  - split; [intros (? & [= <-])|intros ((_ & ?) & _ & ? & ->)]; split_and?; try done; lia.
  - split; [intros (? & [= <-])|intros ((_ & ?) & _ & ? & ->)]; split_and?; try done; lia.
Qed.
Lemma flatten_loop_spec fuel pending output a r :
  zlen output + Z.of_nat fuel = Z.of_nat (flatten_fuel l) -> zlen output + zlen pending <= l_commands l ->
  flatten_loop l fuel pending output a = Ok r <->
  r = output ++ map visited (visit_all pending) /\ zlen r <= l_commands l /\
  Forall (placed l) (visit_all pending) /\ respects a (visit_all pending).
Proof.
  revert pending output a. induction fuel as [|fuel IH]; intros [|[[c depth] group] pending] output a Hf Hb.
  - simpl. change (zlen (@nil work)) with 0 in Hb. rewrite app_nil_r. split; [intros [= <-]|by intros (-> & _)].
    split_and!; [done|lia|constructor|done].
  - unfold flatten_fuel in Hf. rewrite zlen_cons in Hb. pose proof (zlen_nonneg pending). lia.
  - simpl. change (zlen (@nil work)) with 0 in Hb. rewrite app_nil_r. split; [intros [= <-]|by intros (-> & _)].
    split_and!; [done|lia|constructor|done].
  - cbn [flatten_loop]. rewrite visit_all_cons. cbn [map respects]. unfold bound. rewrite !reject_then, !Z.ltb_ge, bind_ok.
    rewrite zlen_cons in Hb. change (visited (c, depth, group)) with c.
    assert (forall rr, zlen (output ++ [c]) = zlen output + 1 /\
      zlen (rr ++ pending) = zlen (rr : list work) + zlen pending) as Hlen.
    { intros rr. by rewrite !zlen_app. }
    split.
    + intros (Hd & _ & rr & Hx & H). apply expand_spec in Hx as (Hp & Ha & Hc & ->); [|lia|done].
      destruct (Hlen (children (c, depth, group))) as [H1 H2].
      apply IH in H as (-> & Hr & Hall & Hres); [|simpl; lia|simpl; lia]. rewrite <-app_assoc. simpl.
      rewrite <-app_assoc in Hr. split_and!; try done. by constructor.
    + intros (-> & Hr & Hall & Ha & Hres). inversion_clear Hall as [|? ? Hp Hall'].
      pose proof (visit_all_length (children (c, depth, group) ++ pending)) as Hl.
      rewrite zlen_app, zlen_cons, zlen_map in Hr. rewrite zlen_app in Hl.
      destruct (Hlen (children (c, depth, group))) as [H1 H2].
      split; [by destruct Hp|]. split; [lia|]. exists (children (c, depth, group), additions_after a (c, depth, group)).
      split; [apply expand_spec; [lia|by destruct Hp|]; split_and!; try done; lia|].
      apply IH; [simpl; lia|simpl; lia|]. rewrite <-app_assoc. simpl. split_and!; try done.
      rewrite zlen_app, zlen_cons, zlen_map. lia.
Qed.

(** ** Additions *)
Lemma elem_of_inserts (us s : list rstr) u : u ∈ foldl (fun s t => bs_insert t s) s us <-> u ∈ s \/ u ∈ us.
Proof.
  revert s. induction us as [|t us IH]; intros s; simpl.
  - split; [by left|by intros [?|?%elem_of_nil]].
  - rewrite IH, elem_of_bs_insert, elem_of_cons. tauto.
Qed.
Lemma added_insert a id id' s : added (bm_insert id s a) id' = if decide (id' = id) then s else added a id'.
Proof.
  unfold added. rewrite bm_get_insert. destruct (eqb id' id) eqn:E.
  - apply eqb_eq in E as ->. by rewrite decide_True.
  - apply eqb_neq in E. by rewrite decide_False.
Qed.
Lemma added_after a w id uri : uri ∈ added (additions_after a w) id <-> uri ∈ added a id \/ adds id uri w.
Proof.
  destruct w as [[c depth] group]. unfold additions_after, adds.
  destruct c, group as [id'|]; try (split; [by left|by intros [?|[]]]).
  rewrite added_insert. case_decide as E; [subst; rewrite elem_of_inserts; naive_solver|naive_solver].
Qed.
Lemma respects_spec a ws : respects a ws <->
  forall before cid m items depth id after, ws = before ++ (Replace cid m items, depth, Some id) :: after ->
  forall uri, uri ∈ targets_of items -> uri ∉ added a id /\ forall w, w ∈ before -> ~ adds id uri w.
Proof.
  revert a. induction ws as [|w ws IH]; intros a; simpl.
  { split; [|done]. intros _ [|? ?]; discriminate. }
  rewrite IH. split.
  - intros [Ha Hw] before cid m items depth id after Hws uri Hu. destruct before as [|w' before].
    + injection Hws as -> ->. simpl in Ha. split; [by apply Ha|]. by intros ? ?%elem_of_nil.
    + injection Hws as -> ->. destruct (Hw before cid m items depth id after eq_refl uri Hu) as [Hn Hb].
      rewrite added_after in Hn. split; [tauto|]. intros w'' [->|?]%elem_of_cons; [tauto|by apply Hb].
  - intros H. split.
    + destruct w as [[[] depth] [id|]]; simpl; try done. intros uri Hu.
      by apply (H [] _ _ _ _ _ _ eq_refl uri Hu).
    + intros before cid m items depth id after -> uri Hu.
      destruct (H (w :: before) cid m items depth id after eq_refl uri Hu) as [Hn Hb]. split.
      * rewrite added_after. intros [?|?]; [done|]. by apply (Hb w); [left|].
      * intros w' Hw'. apply Hb. by right.
Qed.
Lemma respects_nil ws : respects [] ws <-> never_readded ws.
Proof.
  rewrite respects_spec. unfold never_readded. split.
  - intros H before cid m items depth id after Hws uri w Hu Hw. by eapply H.
  - intros H before cid m items depth id after Hws uri Hu. split; [by intros ?%elem_of_nil|]. intros w Hw. by eapply H.
Qed.
Lemma traversal_visit cs : traversal cs = visit_all (map (fun c => (c, 0, None)) cs).
Proof. unfold traversal, visit_all. by rewrite map_map. Qed.

(** [flattened] succeeds exactly on well-placed commands within the limit, with their traversal. *)
Lemma flattened_ok cs out : flattened l cs = Ok out <->
  out = map visited (traversal cs) /\ zlen out <= l_commands l /\ Forall (placed l) (traversal cs) /\
  never_readded (traversal cs).
Proof.
  unfold flattened, bound. rewrite reject_then, Z.ltb_ge, traversal_visit, <-respects_nil.
  pose proof (visit_all_length (map (fun c => (c, 0, None)) cs)) as Hl. rewrite zlen_map in Hl.
  split.
  - intros [Hb H]. apply flatten_loop_spec in H; [done|done|]. rewrite zlen_map. change (zlen (@nil Command)) with 0. lia.
  - intros (-> & Hr & H). rewrite zlen_map in Hr. split; [lia|]. apply flatten_loop_spec; [done|rewrite zlen_map; change (zlen (@nil Command)) with 0; lia|].
    rewrite zlen_map. done.
Qed.
End Flatten.
