(* ===== verification/SyncmlExpected.v ===== *)
(** * SyncML messages: recorded expectations

    What [Expected] knows about the messages it recorded: its indexes agree with them. *)
From S2P Require Import Prelude Ordered Text External Xml Declared SyncmlModel SyncmlCodec SyncmlCorrelation.
From S2P Require Import XmlTotal SyncmlTotal.

(** ** Lists and maps *)
Lemma bs_insert_length {A} `{OrdLaws A} (x : A) s : x ∉ s -> zlen (bs_insert x s) = zlen s + 1.
Proof.
  induction s as [|y s IH]; intros Hx; [done|]. cbn [bs_insert].
  destruct (cmp x y) eqn:E.
  - apply cmp_eq in E as ->. exfalso. apply Hx. by left.
  - rewrite !zlen_cons. lia.
  - rewrite !zlen_cons, IH; [lia|]. intros ?. apply Hx. by right.
Qed.
Lemma bm_insert_length {K V} `{OrdLaws K} (k : K) (v : V) m : bm_get k m = None -> zlen (bm_insert k v m) = zlen m + 1.
Proof.
  intros Hk. apply bm_get_none in Hk. pose proof (bs_insert_length k (bm_keys m) Hk) as Hl.
  rewrite <-(bm_keys_insert k v) in Hl. unfold bm_keys, zlen in Hl. rewrite !length_map in Hl. done.
Qed.
Lemma elem_of_insert_all {A} `{OrdLaws A} (xs s : list A) r : r ∈ foldl (fun s r => bs_insert r s) s xs <-> r ∈ s \/ r ∈ xs.
Proof.
  revert s. induction xs as [|x xs IH]; intros s; simpl.
  - split; [by left|by intros [?|?%elem_of_nil]].
  - rewrite IH, elem_of_bs_insert, elem_of_cons. tauto.
Qed.
Lemma insert_all_sorted {A} `{OrdLaws A} (xs s : list A) : sorted s -> sorted (foldl (fun s r => bs_insert r s) s xs).
Proof. revert s. induction xs as [|x xs IH]; intros s Hs; simpl; [done|]. by apply IH, bs_insert_sorted. Qed.
Lemma enumerate_snoc {A} (xs : list A) x : enumerate (xs ++ [x]) = enumerate xs ++ [(length xs, x)].
Proof.
  unfold enumerate. rewrite length_app. simpl. rewrite Nat.add_1_r, seq_S, zip_with_app by apply length_seq. done.
Qed.
(** An entry of a finite map looked up after an insertion. *)
Lemma bm_get_insert_iff {K V} `{OrdLaws K} (k k' : K) (v v' : V) m :
  bm_get k (bm_insert k' v' m) = Some v <-> (k = k' /\ v = v') \/ (k <> k' /\ bm_get k m = Some v).
Proof.
  rewrite bm_get_insert. destruct (eqb k k') eqn:E.
  - apply eqb_eq in E as ->. naive_solver.
  - apply eqb_neq in E. naive_solver.
Qed.

(** ** Sent messages *)
(** What validation guarantees of the commands of one message. *)
Definition well_command (c : SentCommand) : Prop := sc_id c <> 0 /\ NoDup (sc_targets c) /\ [] ∉ sc_targets c.
Definition well_sent (s : SentMessage) : Prop :=
  NoDup (map sc_id (sm_commands s)) /\ Forall well_command (sm_commands s).
(** The command at a position of the recorded messages. *)
Definition located (ms : list SentMessage) (i j : nat) (mid : Z) (c : SentCommand) : Prop :=
  exists m, ms !! i = Some m /\ sm_id m = mid /\ sm_commands m !! j = Some c.
(** The value a recorded message asked for. *)
Definition requested (ms : list SentMessage) (r : Reference) : Prop :=
  exists i j c, located ms i j (ref_message_id r) c /\ sc_kind c = N_Get /\ sc_id c = ref_command_id r /\
    ref_uri r ∈ sc_targets c.
Definition with_sent (s : SentMessage) (cs : list SentCommand) : SentMessage :=
  mk_SentMessage (sm_session_id s) (sm_source s) (sm_target s) (sm_id s) cs.

Lemma located_snoc ms s cs c i j mid x :
  located (ms ++ [with_sent s (cs ++ [c])]) i j mid x <->
  located (ms ++ [with_sent s cs]) i j mid x \/ (i = length ms /\ j = length cs /\ mid = sm_id s /\ x = c).
Proof.
  unfold located. split.
  - intros (m & Hm & <- & Hx). apply lookup_app_Some in Hm as [Hm|[Hl Hm]].
    + left. exists m. split; [by apply lookup_app_l_Some|done].
    + apply list_lookup_singleton_Some in Hm as [Hi <-]. simpl in *. assert (i = length ms) as -> by lia.
      apply lookup_app_Some in Hx as [Hx|[Hj Hx]].
      * left. exists (with_sent s cs). split; [|done]. rewrite lookup_app_r, Nat.sub_diag by lia. done.
      * apply list_lookup_singleton_Some in Hx as [Hj' <-]. right. split_and!; try done; lia.
  - intros [(m & Hm & <- & Hx)|(-> & -> & -> & ->)].
    + apply lookup_app_Some in Hm as [Hm|[Hl Hm]].
      * exists m. split; [by apply lookup_app_l_Some|done].
      * apply list_lookup_singleton_Some in Hm as [Hi <-]. simpl in *. assert (i = length ms) as -> by lia.
        exists (with_sent s (cs ++ [c])). split; [by rewrite lookup_app_r, Nat.sub_diag by lia|]. split; [done|].
        simpl. by apply lookup_app_l_Some.
    + exists (with_sent s (cs ++ [c])). split; [by rewrite lookup_app_r, Nat.sub_diag by lia|]. split; [done|].
      simpl. by rewrite lookup_app_r, Nat.sub_diag by lia.
Qed.
Lemma located_empty ms s i j mid x : located (ms ++ [with_sent s []]) i j mid x <-> located ms i j mid x.
Proof.
  unfold located. split.
  - intros (m & Hm & <- & Hx). apply lookup_app_Some in Hm as [Hm|[_ Hm]]; [by exists m|].
    apply list_lookup_singleton_Some in Hm as [_ <-]. done.
  - intros (m & Hm & ? & Hx). exists m. split; [by apply lookup_app_l_Some|done].
Qed.
Lemma with_sent_same s : with_sent s (sm_commands s) = s.
Proof. by destruct s. Qed.
Lemma located_id ms i j mid c : located ms i j mid c -> mid ∈ map sm_id ms.
Proof. intros (m & Hm & <- & _). apply elem_of_map. exists m. split; [done|]. by eapply list_elem_of_lookup_2. Qed.

(** ** Consistency *)
Record consistent (ms : list SentMessage) (e : Expected) : Prop := {
  cn_ids : forall id, id ∈ message_ids e <-> id ∈ map sm_id ms;
  cn_unique : NoDup (map sm_id ms);
  cn_well : forall i j mid c, located ms i j mid c -> well_command c;
  cn_inj : forall i j i' j' mid c c', located ms i j mid c -> located ms i' j' mid c' -> sc_id c = sc_id c' ->
    i = i' /\ j = j';
  cn_requests : forall mid cid i j, bm_get (mid, cid) (requests e) = Some (i, j) <->
    exists c, located ms i j mid c /\ sc_id c = cid;
  cn_sorted : sorted (references e);
  cn_references : forall r, r ∈ references e <-> requested ms r;
  cn_order : forall mid cid, is_Some (bm_get (mid, cid) (order e)) <->
    mid ∈ map sm_id ms /\ (cid = 0 \/ exists i j c, located ms i j mid c /\ sc_id c = cid);
  cn_bound : forall k n, bm_get k (order e) = Some n -> n < zlen (order e);
  cn_increasing : forall i j j' mid c c' n n', located ms i j mid c -> located ms i j' mid c' -> (j < j')%nat ->
    bm_get (mid, sc_id c) (order e) = Some n -> bm_get (mid, sc_id c') (order e) = Some n' -> n < n'
}.

(** The header of a new message: its identity, and its place before its commands. *)
Definition record_header (sent : SentMessage) (e : Expected) : Expected :=
  mk_Expected (response_message_id e) (messages e) (bs_insert (sm_id sent) (message_ids e)) (requests e)
    (references e) (bm_insert (sm_id sent, 0) (zlen (order e)) (order e)) (ex_items e) (max_uri_bytes e).
Lemma map_sm_id_with ms sent cs : map sm_id (ms ++ [with_sent sent cs]) = map sm_id ms ++ [sm_id sent].
Proof. by rewrite map_app. Qed.
(** A new key is placed after every key so far. *)
Lemma order_insert_bound (o : list (Z * Z * Z)) k : bm_get k o = None ->
  (forall k n, bm_get k o = Some n -> n < zlen o) ->
  forall k' n, bm_get k' (bm_insert k (zlen o) o) = Some n -> n < zlen (bm_insert k (zlen o) o).
Proof.
  intros Hk Hb k' n Hn. rewrite bm_insert_length by done. apply bm_get_insert_iff in Hn as [[_ ->]|[_ Hn%Hb]]; lia.
Qed.
Lemma is_Some_insert {K V} `{OrdLaws K} (k k' : K) (v : V) m :
  is_Some (bm_get k (bm_insert k' v m)) <-> k = k' \/ is_Some (bm_get k m).
Proof.
  rewrite bm_get_insert. destruct (eqb k k') eqn:E; [apply eqb_true in E|apply eqb_false in E].
  - split; [intros _; by left|]. intros _. by eexists.
  - split; [intros ?; by right|]. by intros [?|?].
Qed.

Lemma record_header_consistent ms sent e : consistent ms e -> sm_id sent ∉ message_ids e ->
  consistent (ms ++ [with_sent sent []]) (record_header sent e).
Proof.
  intros [H1 H2 H3 H4 H5 H6 H7 H8 H9 H10] Hnew. rewrite H1 in Hnew.
  assert (forall cid, bm_get (sm_id sent, cid) (order e) = None) as Hord.
  { intros cid. destruct (bm_get _ _) eqn:E; [|done]. destruct (proj1 (H8 (sm_id sent) cid)) as [Hin _]; [by eexists|].
    by apply Hnew in Hin. }
  split; unfold record_header; simpl; rewrite ?map_sm_id_with.
  - intros id. rewrite elem_of_bs_insert, H1, elem_of_app, list_elem_of_singleton. tauto.
  - apply NoDup_app. split_and!; [done| |apply NoDup_singleton]. intros x Hx ->%list_elem_of_singleton. done.
  - intros i j mid c. rewrite located_empty. apply H3.
  - intros i j i' j' mid c c'. rewrite !located_empty. apply H4.
  - intros. rewrite H5. by setoid_rewrite located_empty.
  - done.
  - intros r. rewrite H7. unfold requested. by setoid_rewrite located_empty.
  - intros mid cid. rewrite is_Some_insert, H8, elem_of_app, list_elem_of_singleton. setoid_rewrite located_empty.
    split.
    + intros [[= -> ->]|[Hin Hc]]; [split; [by right|by left]|]. split; [by left|done].
    + intros [[Hin| ->] Hc]; [by right|]. destruct Hc as [->|(i & j & c & Hl & _)]; [by left|].
      by apply located_id in Hl.
  - by apply order_insert_bound.
  - intros i j j' mid c c' n n'. rewrite !located_empty. intros Hl Hl' Hlt Hn Hn'.
    assert (forall m c, located ms i m mid c -> mid <> sm_id sent) as Hne by (intros ? ? Hx%located_id ->; done).
    apply bm_get_insert_iff in Hn as [[[= -> _] _]|[_ Hn]]; [by apply Hne in Hl|].
    apply bm_get_insert_iff in Hn' as [[[= -> _] _]|[_ Hn']]; [by apply Hne in Hl|].
    by apply (H10 i j j' mid c c').
Qed.

Lemma record_command_consistent ms sent cs c e :
  consistent (ms ++ [with_sent sent cs]) e -> well_command c -> sc_id c ∉ map sc_id cs ->
  consistent (ms ++ [with_sent sent (cs ++ [c])]) (record_command (length ms) sent e (length cs, c)).
Proof.
  intros [H1 H2 H3 H4 H5 H6 H7 H8 H9 H10] Hwell Hnew. pose proof Hwell as (Hc0 & _).
  assert (sm_id sent ∉ map sm_id ms) as Hfresh.
  { rewrite map_sm_id_with in H2. apply NoDup_app in H2 as (_ & Hd & _). intros Hin. by apply (Hd _ Hin), list_elem_of_singleton. }
  (* A located command of this message is one of [cs]. *)
  assert (forall i j x, located (ms ++ [with_sent sent cs]) i j (sm_id sent) x -> i = length ms /\ cs !! j = Some x) as Hown.
  { intros i j x (m & Hm & Hid & Hx). apply lookup_app_Some in Hm as [Hm|[Hl Hm]].
    - exfalso. apply Hfresh, elem_of_map. exists m. split; [done|]. by eapply list_elem_of_lookup_2.
    - apply list_lookup_singleton_Some in Hm as [Hi <-]. split; [lia|done]. }
  assert (forall i j x, located (ms ++ [with_sent sent cs]) i j (sm_id sent) x -> sc_id x <> sc_id c) as Hdiff.
  { intros i j x [_ Hx]%Hown He. apply Hnew. rewrite <-He. apply elem_of_map. exists x. split; [done|].
    by eapply list_elem_of_lookup_2. }
  assert (bm_get (sm_id sent, sc_id c) (order e) = None) as Hord.
  { destruct (bm_get _ _) eqn:E; [|done]. destruct (proj1 (H8 (sm_id sent) (sc_id c))) as [_ [?|(i & j & x & Hl & Hx)]];
      [by eexists|done|]. by apply Hdiff in Hl. }
  split; unfold record_command; cbn [response_message_id messages message_ids requests references order ex_items
    max_uri_bytes fst snd]; rewrite ?map_sm_id_with in *.
  - done.
  - done.
  - intros i j mid x. rewrite located_snoc. intros [Hl|(-> & -> & -> & ->)]; [by eapply H3|done].
  - intros i j i' j' mid x x'. rewrite !located_snoc.
    intros [Hl|(-> & -> & -> & ->)] [Hl'|(-> & -> & He & ->)] Hid; [by eapply H4| | |done].
    + subst mid. by apply Hdiff in Hl.
    + by apply Hdiff in Hl'.
  - intros mid cid i j. rewrite bm_get_insert_iff, H5. setoid_rewrite located_snoc. split.
    + intros [[[= -> ->] [= -> ->]]|[Hne (x & Hl & Hx)]]; [exists c; split; [by right|done]|exists x; split; [by left|done]].
    + intros (x & [Hl|(-> & -> & -> & ->)] & <-); [|by left]. right. split; [|by exists x].
      intros [= -> He]. by apply Hdiff in Hl.
  - by apply insert_all_sorted.
  - intros r. rewrite elem_of_insert_all, H7. unfold requested, command_references. setoid_rewrite located_snoc. split.
    + intros [(i & j & x & Hl & ?)|Hr]; [exists i, j, x; split; [by left|done]|]. case_bool_decide as Hk; [|by apply elem_of_nil in Hr].
      apply elem_of_map in Hr as (u & <- & Hu). exists (length ms), (length cs), c. simpl. split; [by right|done].
    + intros (i & j & x & [Hl|(-> & -> & Hm & ->)] & Hk & Hi & Hu); [left; by exists i, j, x|right].
      rewrite bool_decide_eq_true_2 by done. apply elem_of_map. exists (ref_uri r). split; [|done].
      destruct r. simpl in *. by subst.
  - intros mid cid. rewrite is_Some_insert, H8. setoid_rewrite located_snoc. split.
    + intros [[= -> ->]|[Hin [->|(i & j & x & Hl & Hx)]]].
      * split; [apply elem_of_app; right; by left|]. right. exists (length ms), (length cs), c. split; [by right|done].
      * split; [done|by left].
      * split; [done|right]. exists i, j, x. split; [by left|done].
    + intros [Hin [->|(i & j & x & [Hl|(-> & -> & -> & ->)] & <-)]]; [right; split; [done|by left]| |by left].
      right. split; [done|right]. by exists i, j, x.
  - by apply order_insert_bound.
  - intros i j j' mid x x' n n'. rewrite !located_snoc. intros Hl Hl' Hlt Hn Hn'.
    destruct Hl as [Hl|(-> & -> & -> & ->)].
    2:{ destruct Hl' as [[_ Hx']%Hown|(_ & -> & _)]; [|lia]. apply lookup_lt_Some in Hx'. lia. }
    apply bm_get_insert_iff in Hn as [[[= -> He] _]|[_ Hn]]; [by apply Hdiff in Hl|].
    destruct Hl' as [Hl'|(-> & -> & -> & ->)].
    + apply bm_get_insert_iff in Hn' as [[[= -> He] _]|[_ Hn']]; [by apply Hdiff in Hl'|]. by apply (H10 i j j' mid x x').
    + apply bm_get_insert_iff in Hn' as [[_ ->]|[Hne _]]; [by apply H9 in Hn|done].
Qed.

Lemma record_commands_consistent ms sent cs e :
  consistent (ms ++ [with_sent sent []]) e -> NoDup (map sc_id cs) -> Forall well_command cs ->
  consistent (ms ++ [with_sent sent cs]) (foldl (record_command (length ms) sent) e (enumerate cs)).
Proof.
  intros He. induction cs as [|c cs IH] using rev_ind; intros Hn Hw; [done|].
  rewrite map_app in Hn. apply NoDup_app in Hn as (Hn & Hd & _). apply Forall_app in Hw as [Hw Hc].
  rewrite enumerate_snoc, foldl_app. simpl. apply record_command_consistent; [by apply IH|by inversion Hc|].
  intros Hin. by apply (Hd _ Hin), list_elem_of_singleton.
Qed.
Lemma fold_record_messages index sent cs e : messages (foldl (record_command index sent) e cs) = messages e.
Proof. revert e. induction cs as [|c cs IH]; intros e; simpl; [done|]. by rewrite IH. Qed.
Lemma consistent_same ms e e' : message_ids e = message_ids e' -> requests e = requests e' ->
  references e = references e' -> order e = order e' -> consistent ms e -> consistent ms e'.
Proof.
  intros E1 E2 E3 E4 [H1 H2 H3 H4 H5 H6 H7 H8 H9 H10]. rewrite E1, E2, E3, E4 in *. by split.
Qed.
Lemma record_sent_consistent l e sent e' : consistent (messages e) e -> well_sent sent ->
  record_sent l e sent = Ok e' -> messages e' = messages e ++ [sent] /\ consistent (messages e') e'.
Proof.
  intros He [Hn Hw] H. unfold record_sent in H. apply bind_ok in H as (n & Hn' & [= <-]).
  change (mk_Expected _ _ (bs_insert _ _) _ _ _ _ _) with (record_header sent e).
  assert (sm_id sent ∉ message_ids e) as Hnew.
  { unfold map_codec in Hn'. destruct (record_checks l e sent) as [a| |] eqn:Ec; try done. unfold record_checks in Ec.
    apply bind_ok in Ec as (? & _ & Ec). apply bind_ok in Ec as (? & _ & Ec). apply bind_ok in Ec as (? & Ed & _).
    apply reject_ok, not_true_iff_false in Ed. by rewrite bs_mem_iff in Ed. }
  pose proof (record_commands_consistent (messages e) sent (sm_commands sent) _
    (record_header_consistent _ _ _ He Hnew) Hn Hw) as Hcons.
  rewrite with_sent_same in Hcons. cbn [messages]. rewrite fold_record_messages. split; [done|].
  eapply consistent_same; [..|exact Hcons]; done.
Qed.
Lemma consistent_empty response : consistent [] (mk_Expected response [] [] [] [] [] 0 0).
Proof.
  assert (forall i j mid c, ~ located [] i j mid c) as Hno by (intros i j mid c (m & Hm & _); by rewrite lookup_nil in Hm).
  split; simpl; try done.
  - constructor.
  - intros i j mid c Hl. by apply Hno in Hl.
  - intros i j i' j' mid c c' Hl. by apply Hno in Hl.
  - intros mid cid i j. split; [done|]. by intros (c & Hl%Hno & _).
  - constructor.
  - intros r. split; [by intros ?%elem_of_nil|]. by intros (i & j & c & Hl%Hno & _).
  - intros mid cid. split; [by intros [? ?]|]. by intros [?%elem_of_nil _].
Qed.

(** ** Snapshots of valid messages, and the expectations built from them

    [sent_snapshot] of a validated message has distinct command identifiers, and every command
    distinct non-empty targets. *)
Section Sent.
Context `{QX : QuickXml} `{UC : UuidCrate} `{UT : !UuidText} `{B64 : Base64Standard} (l : CodecLimits).

Lemma text_nonempty v max : text v max false = Ok () -> v <> [].
Proof. intros H ->. unfold text in H. by destruct (bound _ _) as [[]| |]. Qed.
(** Items read one after the other, each with a target not seen before. *)
Lemma distinct_targets (step : list rstr -> Item -> xres (list rstr)) items seen out ts :
  (forall seen i out, step seen i = Ok out -> exists u, i_target i = Some u /\ u <> [] /\ u ∉ seen /\ out = bs_insert u seen) ->
  res_for step items seen = Ok out -> item_targets items = Ok ts ->
  NoDup ts /\ [] ∉ ts /\ (forall t, t ∈ ts -> t ∉ seen).
Proof.
  intros Hstep. revert seen ts. induction items as [|i items IH]; intros seen ts H Ht; simpl in H.
  - injection Ht as <-. split_and!; [apply NoDup_nil_2|by intros ?%elem_of_nil|by intros ? ?%elem_of_nil].
  - apply bind_ok in H as (s1 & H1 & H). apply Hstep in H1 as (u & Hu & Hne & Hnew & ->).
    unfold item_targets in Ht. simpl in Ht. rewrite Hu in Ht. simpl in Ht. apply bind_ok in Ht as (ts' & Ht & [= <-]).
    destruct (IH _ _ H Ht) as (Hn & He & Hs). split_and!.
    + apply NoDup_cons. split; [|done]. intros Hin. apply (Hs u Hin), elem_of_bs_insert. by left.
    + intros [<-|?]%elem_of_cons; done.
    + intros t [->|Hin]%elem_of_cons; [done|]. intros Ho. apply (Hs t Hin), elem_of_bs_insert. by right.
Qed.
Lemma mutation_item_target c seen i out : validate_mutation_item l c seen i = Ok out ->
  exists u, i_target i = Some u /\ u <> [] /\ u ∉ seen /\ out = bs_insert u seen.
Proof.
  unfold validate_mutation_item. intros H. apply bind_ok in H as (u & Hu%ok_or_ok & H).
  apply bind_ok in H as ([] & Ht%text_nonempty & H). apply bind_ok in H as (? & _ & H).
  rewrite reject_then in H. destruct H as [Hm H]. exists u. split_and!; [done|done| |].
  - intros Hin%bs_mem_iff. congruence.
  - do 4 (apply bind_ok in H as (? & _ & H)). by injection H as <-.
Qed.
Lemma get_item_target seen i out : validate_item l true false seen i = Ok out ->
  exists u, i_target i = Some u /\ u <> [] /\ u ∉ seen /\ out = bs_insert u seen.
Proof.
  unfold validate_item. intros H. apply bind_ok in H as (? & _ & H). apply bind_ok in H as (u & Hu & H).
  simpl in Hu. apply bind_ok in Hu as (? & _ & Hu%ok_or_ok).
  apply bind_ok in H as ([] & Ht%text_nonempty & H). 
  rewrite reject_then in H. destruct H as [Hm H]. exists u. split_and!; [done|done| |].
  - intros Hin%bs_mem_iff. congruence.
  - do 4 (apply bind_ok in H as (? & _ & H)). by injection H as <-.
Qed.
Lemma mutation_targets c its ts : validate_mutation l c its = Ok () -> item_targets its = Ok ts -> NoDup ts /\ [] ∉ ts.
Proof.
  intros H Ht. unfold validate_mutation in H. do 2 (apply bind_ok in H as (? & _ & H)). apply bind_ok in H as (out & H & _).
  destruct (distinct_targets _ _ _ _ _ (mutation_item_target c) H Ht) as (? & ? & _). done.
Qed.
Lemma get_targets its ts : validate_items l its true false = Ok () -> item_targets its = Ok ts -> NoDup ts /\ [] ∉ ts.
Proof.
  intros H Ht. unfold validate_items in H. do 2 (apply bind_ok in H as (? & _ & H)). apply bind_ok in H as (out & H & _).
  destruct (distinct_targets _ _ _ _ _ get_item_target H Ht) as (? & ? & _). done.
Qed.
Lemma sent_command_well c n s : command_id c <> 0 -> validate_command l c = Ok n -> sent_command c = Ok s -> well_command s.
Proof.
  intros Hid Hv Hs. unfold sent_command in Hs. apply bind_ok in Hs as ([k ts] & Hk & [= <-]).
  split; [done|]. simpl. assert (NoDup (@nil rstr) /\ [] ∉ @nil rstr) as Hnil.
  { split; [apply NoDup_nil_2|by intros ?%elem_of_nil]. }
  destruct c; try discriminate Hk; simpl in Hv; try (injection Hk as <- <-; done);
    apply bind_ok in Hk as (ts' & Ht & [= <- <-]); apply bind_ok in Hv as (? & _ & Hv); apply bind_ok in Hv as ([] & Hv & _);
    eauto using mutation_targets, get_targets.
Qed.
(** The loop of [validate_body]: identifiers are distinct and none is zero, every command is valid. *)
Lemma validate_loop cs ids count out : res_for (validate_step l) cs (ids, count) = Ok out ->
  NoDup (map command_id cs) /\
  Forall (fun c => command_id c <> 0 /\ command_id c ∉ ids /\ exists n, validate_command l c = Ok n) cs.
Proof.
  revert ids count. induction cs as [|c cs IH]; intros ids count H; simpl in H; [by split; [apply NoDup_nil_2|]|].
  apply bind_ok in H as ([ids1 c1] & H1 & H). simpl in H1. rewrite !reject_then in H1. destruct H1 as (Hz & Hd & H1).
  apply bind_ok in H1 as (n & Hn & H1). do 2 (apply bind_ok in H1 as (? & _ & H1)). injection H1 as <- <-.
  apply IH in H as [Hnd Hf]. assert (command_id c ∉ ids) as Hnew by (intros Hin%bs_mem_iff; congruence).
  rewrite Forall_forall in Hf. split.
  - simpl. apply NoDup_cons. split; [|done]. intros (c' & He & Hc')%list_elem_of_fmap.
    destruct (Hf c' Hc') as (_ & Hn' & _). apply Hn', elem_of_bs_insert. by left.
  - constructor; [split_and!; [lia|done|by exists n]|]. apply Forall_forall. intros c' Hc'.
    destruct (Hf c' Hc') as (? & Hn' & ?). split_and!; [done| |done]. intros Hin. apply Hn', elem_of_bs_insert. by right.
Qed.
(** What validation says of the flattened commands. *)
Lemma validate_commands m : validate l m = Ok () -> exists flat, flattened l (commands m) = Ok flat /\
  NoDup (map command_id flat) /\
  Forall (fun c => command_id c <> 0 /\ exists n, validate_command l c = Ok n) flat.
Proof.
  unfold validate. intros H. do 6 (apply bind_ok in H as (? & _ & H)). unfold validate_body in H.
  do 2 (apply bind_ok in H as (? & _ & H)). apply bind_ok in H as (flat & Hf & H). apply bind_ok in H as (out & H & _).
  exists flat. split; [done|]. apply validate_loop in H as [? H]. split; [done|].
  eapply Forall_impl; [exact H|]. by intros c (? & _ & ?).
Qed.
Lemma sent_snapshot_well m sent : validate l m = Ok () -> sent_snapshot l m = Ok sent -> well_sent sent.
Proof.
  intros (flat & Hf & Hn & Hv)%validate_commands H. unfold sent_snapshot in H. rewrite Hf in H. simpl in H.
  apply bind_ok in H as (cs & Hcs%res_map_ok & [= <-]). unfold well_sent. simpl.
  assert (map sc_id cs = map command_id flat) as ->.
  { clear Hf Hn Hv. induction Hcs as [|c s flat cs Hc _ IH]; [done|]. simpl. rewrite IH. f_equal.
    unfold sent_command in Hc. by apply bind_ok in Hc as (? & _ & [= <-]). }
  split; [done|]. clear Hf Hn. induction Hcs as [|c s flat cs Hc _ IH]; [done|].
  inversion Hv as [|? ? (Hid & n & Hcn) Hv']. subst. constructor; [by eapply sent_command_well|by apply IH].
Qed.
Lemma decode_valid input m : decode l input = Ok m -> validate l m = Ok ().
Proof.
  unfold decode. intros H. do 2 (apply bind_ok in H as (? & _ & H)). by apply bind_ok in H as ([] & Hv & [= <-]).
Qed.
Lemma encode_valid m b : encode l m = Ok b -> validate l m = Ok ().
Proof. unfold encode. intros H. by apply bind_ok in H as ([] & ? & _). Qed.
Lemma encode_request_well m wire sent : encode_request m l = Ok (wire, sent) -> well_sent sent.
Proof.
  unfold encode_request. intros H. apply bind_ok in H as (b & Hb%encode_valid & H).
  apply bind_ok in H as (s & Hs & [= _ <-]). by eapply sent_snapshot_well.
Qed.
Lemma decode_request_well input m sent : decode_request input l = Ok (m, sent) -> well_sent sent.
Proof.
  unfold decode_request. intros H. apply bind_ok in H as (m' & Hb%decode_valid & H).
  apply bind_ok in H as (s & Hs & [= _ <-]). by eapply sent_snapshot_well.
Qed.
Lemma encode_outbound_valid m b : encode_outbound m l = Ok b -> encode l m = Ok b.
Proof. unfold encode_outbound. intros H. by do 2 (apply bind_ok in H as (? & _ & H)). Qed.

(** ** Histories *)
(** A message of the session: encoded to be sent, or decoded from what had been stored. *)
Definition snapshot (sent : SentMessage) : Prop :=
  (exists m wire, encode_request m l = Ok (wire, sent)) \/ (exists input m, decode_request input l = Ok (m, sent)).
Lemma snapshot_well sent : snapshot sent -> well_sent sent.
Proof. intros [(m & wire & H)|(input & m & H)]; [by eapply encode_request_well|by eapply decode_request_well]. Qed.
(** The expectations a session can hold: one message, then the messages recorded after it. *)
Inductive recorded (response : Z) : list SentMessage -> Expected -> Prop :=
| recorded_new sent e : snapshot sent -> Expected_new sent response l = Ok e -> recorded response [sent] e
| recorded_more ms e sent e' : recorded response ms e -> snapshot sent -> record_sent l e sent = Ok e' ->
    recorded response (ms ++ [sent]) e'.
Lemma recorded_holds response ms e : recorded response ms e ->
  messages e = ms /\ consistent ms e /\ response_message_id e = response.
Proof.
  assert (forall e sent e', record_sent l e sent = Ok e' -> response_message_id e' = response_message_id e) as Hid.
  { intros e0 sent e' H. unfold record_sent in H. apply bind_ok in H as (n & _ & [= <-]). simpl.
    assert (forall i cs e1, response_message_id (foldl (record_command i sent) e1 cs) = response_message_id e1) as Hf.
    { intros i cs. induction cs as [|c cs IH]; intros e1; simpl; [done|]. by rewrite IH. }
    by rewrite Hf. }
  induction 1 as [sent e Hw%snapshot_well He|ms e sent e' _ (<- & IH & <-) Hw%snapshot_well He].
  - unfold Expected_new in He. pose proof (Hid _ _ _ He) as Hr. apply record_sent_consistent in He as [Hm Hc]; [|apply consistent_empty|done].
    simpl in Hm. rewrite Hm in Hc. done.
  - pose proof (Hid _ _ _ He) as Hr. apply record_sent_consistent in He as [Hm Hc]; [|done..]. by rewrite Hm in Hc.
Qed.
End Sent.
