(* ===== verification/SyncmlCorrelate.v ===== *)
(** * SyncML messages: what correlation establishes

    The loop of [correlate] accounts for every requested value exactly once and covers every
    command and target at most once, in the order they were sent. *)
From stdpp Require Import sorting.
From S2P Require Import Prelude Ordered Text External Xml Declared SyncmlModel SyncmlCodec SyncmlCorrelation.
From S2P Require Import XmlTotal SyncmlTotal SyncmlExpected.

(** ** What a response means *)
(** Message, command and target a status speaks of; [[]] stands for the whole command. *)
Definition coverage (s : CorrelatedStatus) : list (Z * Z * rstr) :=
  map (fun t => (cs_message_id s, cs_command_id s, t)) (if is_empty (cs_targets s) then [[]] else cs_targets s).
(** The values and the statuses of a response, in their order. *)
Definition response_items (c : Command) : list (Results * Item) :=
  match c with ResultsCommand r => map (pair r) (r_items r) | _ => [] end.
Definition response_statuses (c : Command) : list Status := match c with StatusCommand s => [s] | _ => [] end.
(** A value as the item that carried it gives it. *)
Definition carried (ri : Results * Item) (x : CorrelatedItem) : Prop :=
  more_data ri.2 = false /\ or_one (r_message_ref ri.1) = ref_message_id (ci_reference x) /\
  or_one (r_command_ref ri.1) = ref_command_id (ci_reference x) /\
  i_source ri.2 = Some (ref_uri (ci_reference x)) /\ i_data ri.2 = Some (ci_value x).
(** A status as the response reported it. *)
Definition reported (s : Status) (x : CorrelatedStatus) : Prop :=
  cs_message_id x = s_message_ref s /\ cs_command_id x = s_command_ref s /\ cs_code x = s_code s /\
  cs_details x = s_items s.
(** A status of a response about a message that was sent: its header, or one of its commands. *)
Definition answers_sent (ms : list SentMessage) (s : CorrelatedStatus) : Prop :=
  (cs_command_id s = 0 /\ cs_message_id s ∈ map sm_id ms /\ cs_targets s = []) \/
  exists i j c, located ms i j (cs_message_id s) c /\ sc_id c = cs_command_id s /\ cs_targets s ⊆ sc_targets c /\
    (cs_targets s = [] -> sc_targets c = []).
(** Two statuses about commands of one message came in the order of the commands. *)
Definition in_order (ms : list SentMessage) (s s' : CorrelatedStatus) : Prop :=
  forall i j j' c c', located ms i j (cs_message_id s) c -> located ms i j' (cs_message_id s') c' ->
    sc_id c = cs_command_id s -> sc_id c' = cs_command_id s' -> (j <= j')%nat.

(** ** Lookups *)
Lemma elem_of_bs_remove {A} `{OrdLaws A} (x y : A) s : x ∈ bs_remove y s <-> x <> y /\ x ∈ s.
Proof.
  unfold bs_remove. rewrite list_elem_of_In, List.filter_In, <-list_elem_of_In. rewrite negb_true_iff, eqb_neq.
  split; intros []; split; congruence.
Qed.
Lemma bs_remove_sorted {A} `{OrdLaws A} (y : A) s : sorted s -> sorted (bs_remove y s).
Proof.
  unfold sorted, bs_remove. induction 1 as [|x s Hs IH Hx]; simpl; [constructor|].
  destruct (negb (eqb y x)); [|done]. constructor; [done|]. apply Forall_forall. intros z Hz.
  apply list_elem_of_In, List.filter_In in Hz as [Hz%list_elem_of_In _]. by apply (proj1 (Forall_forall _ _) Hx).
Qed.
Lemma bs_mem_false_iff {A} `{OrdLaws A} (x : A) s : bs_mem x s = false <-> x ∉ s.
Proof. rewrite <-bs_mem_iff. by destruct (bs_mem x s). Qed.
Section Requests.
Context (ms : list SentMessage) (e : Expected) (Hms : messages e = ms) (Hc : consistent ms e).

Lemma request_ok key r : request e key = Ok r <->
  match r with
  | None => bm_get key (requests e) = None
  | Some c => exists i j, located ms i j key.1 c /\ sc_id c = key.2
  end.
Proof.
  destruct key as [mid cid]. unfold request. simpl. destruct (bm_get (mid, cid) (requests e)) as [[i j]|] eqn:E.
  - apply (cn_requests _ _ Hc) in E as (c & (m & Hm & Hid & Hj) & Hcid). rewrite Hms, Hm. simpl. rewrite Hj. simpl.
    split.
    + intros [= <-]. exists i, j. split; [by exists m|done].
    + destruct r as [c'|]; [|done]. intros (i' & j' & Hl & Hid').
      destruct (cn_inj _ _ Hc i' j' i j mid c' c Hl) as [-> ->]; [by exists m|congruence|].
      destruct Hl as (m' & Hm' & _ & Hj'). rewrite Hm in Hm'. injection Hm' as <-. rewrite Hj in Hj'. by injection Hj' as ->.
  - split; [by intros [= <-]|]. destruct r as [c|]; [|done]. intros (i & j & Hl & Hid).
    assert (bm_get (mid, cid) (requests e) = Some (i, j)) as Hr by (apply (cn_requests _ _ Hc); by exists c). congruence.
Qed.
Lemma request_no_panic key : no_panic (request e key).
Proof.
  unfold request. destruct key as [mid cid]. destruct (bm_get _ _) as [[i j]|] eqn:E; [|done].
  apply (cn_requests _ _ Hc) in E as (c & (m & Hm & _ & Hj) & _). rewrite Hms, Hm. simpl. by rewrite Hj.
Qed.

(** ** The invariant of the loop *)
(** The values so far: every requested one is either returned, once, or still missing. *)
Record values_ok (items : list (Results * Item)) (p : Progress) : Prop := {
  vo_sorted : sorted (remaining p);
  vo_unique : NoDup (map ci_reference (results p));
  vo_split : forall r, requested ms r <-> r ∈ map ci_reference (results p) \/ r ∈ remaining p;
  vo_disjoint : forall r, r ∈ map ci_reference (results p) -> r ∉ remaining p;
  vo_carried : Forall2 carried items (results p)
}.
Definition covered (p : Progress) : list (Z * Z * rstr) := concat (map coverage (statuses p)).
Definition seen_of (p : Progress) (key : Z * Z) : list rstr :=
  match bm_get key (status_coverage p) with Some seen => seen | None => [] end.
(** A command's status may not be followed by that of an earlier command of the same message. *)
Definition ordered_pair (s s' : CorrelatedStatus) : Prop :=
  cs_command_id s <> 0 -> cs_command_id s' <> 0 -> in_order ms s s'.
Record statuses_ok (reports : list Status) (p : Progress) : Prop := {
  so_reported : Forall2 reported reports (statuses p);
  so_cover : NoDup (covered p);
  so_seen : forall m c t, t ∈ seen_of p (m, c) <-> (m, c, t) ∈ covered p;
  so_sent : Forall (answers_sent ms) (statuses p);
  so_last : Forall (fun s => cs_command_id s <> 0 ->
    exists n n', bm_get (cs_message_id s, cs_command_id s) (order e) = Some n /\
      bm_get (cs_message_id s) (last_status p) = Some n' /\ n <= n') (statuses p);
  so_order : StronglySorted ordered_pair (statuses p)
}.

Lemma values_start : values_ok [] (mk_Progress (references e) [] [] [] []).
Proof.
  split; simpl; try done.
  - apply Hc.
  - apply NoDup_nil_2.
  - intros r. rewrite (cn_references _ _ Hc). split; [by right|by intros [?%elem_of_nil|?]].
  - by intros r ?%elem_of_nil.
Qed.
Lemma statuses_start : statuses_ok [] (mk_Progress (references e) [] [] [] []).
Proof.
  split; [done|apply NoDup_nil_2|intros m c t; split; intros []%elem_of_nil|apply Forall_nil_2..|apply SSorted_nil].
Qed.

(** *** Values *)
Definition same_statuses (p p' : Progress) : Prop :=
  statuses p' = statuses p /\ status_coverage p' = status_coverage p /\ last_status p' = last_status p.
Definition same_values (p p' : Progress) : Prop := remaining p' = remaining p /\ results p' = results p.
Lemma same_statuses_ok reports p p' : same_statuses p p' -> statuses_ok reports p -> statuses_ok reports p'.
Proof.
  intros (E1 & E2 & E3) [H0 H1 H2 H3 H4 H5].
  split; unfold covered, seen_of in *; rewrite ?E1, ?E2, ?E3 in *; done.
Qed.
Lemma same_values_ok items p p' : same_values p p' -> values_ok items p -> values_ok items p'.
Proof. intros (E1 & E2) [H1 H2 H3 H4 H5]. split; rewrite ?E1, ?E2 in *; done. Qed.

Lemma correlate_item_ok items r p i p' : values_ok items p -> correlate_item r p i = Ok p' ->
  values_ok (items ++ [(r, i)]) p' /\ same_statuses p p'.
Proof.
  intros [H1 H2 H3 H4 H5] H. unfold correlate_item in H. rewrite reject_then in H. destruct H as [Hm H].
  apply bind_ok in H as (uri & Hu%ok_or_ok & H). rewrite reject_then in H. destruct H as [Hrem H].
  apply negb_false_iff, bs_mem_iff in Hrem. apply bind_ok in H as (value & Hv%ok_or_ok & [= <-]).
  set (ref := mk_Reference _ _ _) in *. split; [|done].
  assert (ref ∉ map ci_reference (results p)) as Hnew by (intros Hin; by apply (H4 ref)).
  split; simpl; rewrite ?map_app; simpl.
  - by apply bs_remove_sorted.
  - apply NoDup_app. split_and!; [done| |apply NoDup_singleton]. intros x Hx ->%list_elem_of_singleton. done.
  - intros r'. rewrite H3, elem_of_app, list_elem_of_singleton, elem_of_bs_remove.
    destruct (decide (r' = ref)) as [->|]; tauto.
  - intros r'. rewrite elem_of_app, list_elem_of_singleton, elem_of_bs_remove.
    intros [Hx| ->] [Hne ?]; [by apply (H4 r')|done].
  - apply Forall2_app; [done|]. constructor; [|done]. by split_and!.
Qed.
Lemma correlate_results_ok items p r p' : values_ok items p -> correlate_results e p r = Ok p' ->
  values_ok (items ++ map (pair r) (r_items r)) p' /\ same_statuses p p'.
Proof.
  intros Hp H. unfold correlate_results in H. apply bind_ok in H as (o & _ & H).
  apply bind_ok in H as (c & _ & H). rewrite reject_then in H. destruct H as [_ H].
  revert items p Hp H. induction (r_items r) as [|i its IH]; intros items p Hp H; simpl in *.
  - injection H as <-. by rewrite app_nil_r.
  - apply bind_ok in H as (p1 & Hi & H). destruct (correlate_item_ok items r p i p1) as (Hp1 & Hs1 & Hs2 & Hs3); [done..|].
    destruct (IH _ p1 Hp1 H) as (Hp' & Hs1' & Hs2' & Hs3'). rewrite <-app_assoc in Hp'. split; [done|]. split_and!; congruence.
Qed.

(** *** Statuses *)
Lemma cover_ok ts seen seen' : res_for cover ts seen = Ok seen' <->
  NoDup ts /\ (forall t, t ∈ ts -> t ∉ seen) /\ seen' = foldl (fun s t => bs_insert t s) seen ts.
Proof.
  revert seen. induction ts as [|t ts IH]; intros seen; simpl.
  - split; [intros [= <-]; split_and!; [constructor|by intros ? ?%elem_of_nil|done]|by intros (_ & _ & ->)].
  - split.
    + intros H. apply bind_ok in H as (s1 & H1 & H). unfold cover in H1. rewrite reject_then in H1.
      destruct H1 as [Hm%bs_mem_false_iff [= <-]]. apply IH in H as (Hn & Hf & ->). split_and!; [| |done].
      * apply NoDup_cons. split; [|done]. intros Hin. apply (Hf t Hin), elem_of_bs_insert. by left.
      * intros x [->|Hx]%elem_of_cons; [done|]. intros Hs. apply (Hf x Hx), elem_of_bs_insert. by right.
    + intros (Hn & Hf & ->). apply NoDup_cons in Hn as [Ht Hn]. unfold cover. rewrite (proj2 (bs_mem_false_iff _ _)).
      2:{ apply Hf. by left. } simpl. apply IH. split_and!; [done| |done]. intros x Hx [->|Hs]%elem_of_bs_insert; [done|].
      apply (Hf x); [by right|done].
Qed.
Lemma filter_nonempty (ts : list rstr) : [] ∉ ts -> List.filter (fun t => negb (is_empty t)) ts = ts.
Proof.
  induction ts as [|t ts IH]; intros H; simpl; [done|]. destruct t as [|x t]; simpl.
  - exfalso. apply H. by left.
  - f_equal. apply IH. intros ?. apply H. by right.
Qed.
(** A status covers either a whole header or command, or distinct non-empty targets of a command. *)
Lemma status_targets_ok s ts : status_targets e s = Ok ts ->
  let st := mk_CorrelatedStatus (s_message_ref s) (s_command_ref s) (s_code s)
              (List.filter (fun t => negb (is_empty t)) ts) (s_items s) in
  answers_sent ms st /\ coverage st = map (fun t => (s_message_ref s, s_command_ref s, t)) ts.
Proof.
  unfold status_targets. destruct (s_command_ref s =? 0) eqn:E0.
  - apply Z.eqb_eq in E0. rewrite reject_then. intros [Hr [= <-]]. simpl.
    apply orb_false_iff in Hr as [Hr _]. apply orb_false_iff in Hr as [Hr _]. apply orb_false_iff in Hr as [Hr _].
    apply negb_false_iff, bs_mem_iff in Hr. split; [|done]. left. simpl. split_and!; [done| |done].
    by apply (cn_ids _ _ Hc).
  - intros H. apply bind_ok in H as (o & Ho & H). apply bind_ok in H as (c & Hoc%ok_or_ok & H). subst o.
    apply request_ok in Ho as (i & j & Hl & Hid). simpl in *. rewrite reject_then in H. destruct H as [Hk H].
    destruct (cn_well _ _ Hc _ _ _ _ Hl) as (Hc0 & Hcn & Hce).
    destruct (is_empty (s_target_refs s)) eqn:Et.
    + injection H as <-. destruct (is_empty (sc_targets c)) eqn:Ec; simpl.
      * split; [|done]. right. exists i, j, c. simpl. split_and!; [done|done|by intros ? ?%elem_of_nil|]. intros _. by destruct (sc_targets c).
      * rewrite filter_nonempty by done. unfold coverage. simpl. rewrite Ec. split; [|done].
        right. exists i, j, c. simpl. done.
    + rewrite reject_then in H. destruct H as [Hsub [= <-]]. rewrite existsb_false_iff in Hsub.
      assert (s_target_refs s ⊆ sc_targets c) as Hs.
      { intros t Ht%Hsub. by apply negb_false_iff, bool_decide_eq_true in Ht. }
      rewrite filter_nonempty by (intros Hin%Hs; done). unfold coverage. simpl. rewrite Et. split; [|done].
      right. exists i, j, c. split_and!; [done..|]. simpl. intros He. by rewrite He in Et.
Qed.
(** A status's place: no earlier one of its message came after its command. *)
Lemma advance_ok p s index last : advance p s index = Ok last ->
  (s_command_ref s = 0 /\ last = last_status p) \/
  (s_command_ref s <> 0 /\ last = bm_insert (s_message_ref s) index (last_status p) /\
   forall n, bm_get (s_message_ref s) (last_status p) = Some n -> n <= index).
Proof.
  unfold advance. destruct (s_command_ref s =? 0) eqn:E; [intros [= <-]; left; split; [lia|done]|].
  rewrite reject_then. intros [Hr [= <-]]. right. split_and!; [lia|done|]. intros n Hn. rewrite Hn in Hr. lia.
Qed.
Lemma covered_snoc p st rem res cov last :
  covered (mk_Progress rem res (statuses p ++ [st]) cov last) = covered p ++ coverage st.
Proof. unfold covered. simpl. rewrite map_app, concat_app. simpl. by rewrite app_nil_r. Qed.
Lemma correlate_status_ok reports p s p' : statuses_ok reports p -> correlate_status e p s = Ok p' ->
  statuses_ok (reports ++ [s]) p' /\ same_values p p'.
Proof.
  intros [H0 H1 H2 H3 H4 H5] H. unfold correlate_status in H.
  apply bind_ok in H as (index & Hi%ok_or_ok & H). apply bind_ok in H as (last & Hl%advance_ok & H).
  apply bind_ok in H as (ts & Ht & H). apply bind_ok in H as (seen & Hs & [= <-]).
  destruct (status_targets_ok s ts Ht) as [Hsent Hcov]. apply cover_ok in Hs as (Hn & Hf & ->).
  fold (seen_of p (s_message_ref s, s_command_ref s)) in *.
  set (st := mk_CorrelatedStatus _ _ _ _ _) in *. split; [|done]. split.
  - simpl. apply Forall2_app; [done|]. constructor; [|done]. by split_and!.
  - rewrite covered_snoc, Hcov. apply NoDup_app. split_and!; [done| |].
    + intros x Hx (t & -> & Hin)%list_elem_of_fmap. by apply (Hf t Hin), H2.
    + apply NoDup_fmap; [by intros ? ? [=]|done].
  - intros m c t. rewrite covered_snoc, Hcov, elem_of_app, <-H2. unfold seen_of at 1. cbn [status_coverage].
    rewrite bm_get_insert. destruct (eqb (m, c) _) eqn:E.
    + apply eqb_true in E as [= -> ->]. rewrite elem_of_insert_all. setoid_rewrite list_elem_of_fmap.
      split; [intros [?|?]; [by left|right; by exists t]|]. intros [?|(t' & [= ->] & ?)]; [by left|by right].
    + apply eqb_false in E. fold (seen_of p (m, c)). split; [by left|]. intros [?|(t' & [= -> -> ->] & _)%list_elem_of_fmap]; done.
  - apply Forall_app. split; [done|]. by apply Forall_singleton.
  - simpl. apply Forall_app. split.
    + eapply Forall_impl; [exact H4|]. intros x Hx Hx0. destruct (Hx Hx0) as (n & n' & Hn1 & Hn2 & Hle).
      destruct Hl as [[_ ->]|(_ & -> & Hmax)]; [by exists n, n'|]. exists n. rewrite bm_get_insert.
      destruct (eqb _ _) eqn:E; [|by exists n']. apply eqb_true in E. exists index. split_and!; [done|done|].
      rewrite E in Hn2. apply Hmax in Hn2. lia.
    + apply Forall_singleton. simpl. intros Hne. destruct Hl as [[? _]|(_ & -> & _)]; [done|].
      exists index, index. rewrite bm_get_insert, eqb_refl. done.
  - simpl. apply StronglySorted_app. split_and!; [|done|by repeat constructor].
    intros x y Hx ->%list_elem_of_singleton Hx0 Hy0 i j j' c c' Hlx Hly Hc1 Hc2. simpl in *.
    destruct Hl as [[? _]|(_ & -> & Hmax)]; [done|].
    destruct (proj1 (Forall_forall _ _) H4 x Hx Hx0) as (n & n' & Hn1 & Hn2 & Hle).
    assert (cs_message_id x = s_message_ref s) as Hm.
    { destruct Hlx as (m1 & Hm1 & <- & _), Hly as (m2 & Hm2 & <- & _). congruence. }
    rewrite Hm in *. apply Hmax in Hn2. destruct (decide (j <= j')%nat) as [|Hlt]; [done|].
    enough (index < n) by lia. apply (cn_increasing _ _ Hc i j' j (s_message_ref s) c' c index n); try done; [lia|..];
      by rewrite ?Hc1, ?Hc2.
Qed.
Lemma correlate_command_ok cs p c p' :
  values_ok (cs ≫= response_items) p -> statuses_ok (cs ≫= response_statuses) p -> correlate_command e p c = Ok p' ->
  values_ok ((cs ++ [c]) ≫= response_items) p' /\ statuses_ok ((cs ++ [c]) ≫= response_statuses) p'.
Proof.
  intros Hv Hs H. rewrite !bind_app, !bind_singleton. destruct c; try done; simpl in *; rewrite ?app_nil_r.
  - apply (correlate_status_ok _ _ _ _ Hs) in H as [? ?]. split; [by eapply same_values_ok|done].
  - apply (correlate_results_ok _ _ _ _ Hv) in H as [? ?]. split; [done|by eapply same_statuses_ok].
Qed.
Lemma correlate_loop_ok cs cs' p p' :
  values_ok (cs ≫= response_items) p -> statuses_ok (cs ≫= response_statuses) p ->
  res_for (correlate_command e) cs' p = Ok p' ->
  values_ok ((cs ++ cs') ≫= response_items) p' /\ statuses_ok ((cs ++ cs') ≫= response_statuses) p'.
Proof.
  revert cs p. induction cs' as [|c cs' IH]; intros cs p Hv Hs H; simpl in H.
  - injection H as <-. by rewrite app_nil_r.
  - apply bind_ok in H as (p1 & H1 & H). destruct (correlate_command_ok cs p c p1) as [Hv1 Hs1]; [done..|].
    rewrite (cons_middle c cs cs'), app_assoc. by apply (IH _ p1).
Qed.
Lemma correlate_facts `{QX : QuickXml} `{UC : UuidCrate} `{UT : !UuidText} `{B64 : Base64Standard} m l co : correlate e m l = Ok co ->
  let p := mk_Progress (missing_results co) (co_results co) (co_statuses co) in
  (exists cov last, values_ok (commands m ≫= response_items) (p cov last) /\
                    statuses_ok (commands m ≫= response_statuses) (p cov last)) /\
  (exists first rest, co_statuses co = first :: rest /\ cs_command_id first = 0) /\
  (forall r s, r ∈ co_results co -> s ∈ co_statuses co -> contradicts r s = false) /\
  validate l m = Ok () /\ h_message_id (header m) = response_message_id e.
Proof.
  unfold correlate. intros H. apply bind_ok in H as (? & _ & H). apply bind_ok in H as ([] & Hval & H).
  apply bind_ok in H as (first & _ & H). rewrite reject_then in H. destruct H as [Hid H].
  apply bind_ok in H as (p & Hp & H). rewrite reject_then in H. destruct H as [Hh H].
  rewrite reject_then in H. destruct H as [Hcon [= <-]]. simpl.
  destruct (correlate_loop_ok [] _ _ _ values_start statuses_start Hp) as [Hv Hs]. split_and!.
  - exists (status_coverage p), (last_status p). by destruct p.
  - destruct (statuses p) as [|s rest]; [done|]. exists s, rest. split; [done|lia].
  - intros r s Hr Hs'. rewrite existsb_false_iff in Hcon. specialize (Hcon r Hr). rewrite existsb_false_iff in Hcon. by apply Hcon.
  - destruct (validate l m) as [[]| |]; done.
  - apply orb_false_iff in Hid as [_ Hid]. lia.
Qed.
Lemma map_codec_no_panic {A} f (r : xres A) : no_panic r -> no_panic (map_codec f r).
Proof. by destruct r. Qed.
Lemma status_targets_no_panic s : no_panic (status_targets e s).
Proof.
  unfold status_targets. case_match; [no_panic_walk|]. apply bind_no_panic; [apply request_no_panic|intros]. no_panic_walk.
Qed.
Lemma correlate_command_no_panic p c : no_panic (correlate_command e p c).
Proof.
  destruct c; try done; simpl.
  - unfold correlate_status. apply bind_no_panic; [no_panic_walk|intros index _]. apply bind_no_panic.
    { unfold advance. no_panic_walk. }
    intros last _. apply bind_no_panic; [apply status_targets_no_panic|intros ts _]. apply bind_no_panic; [|done].
    apply loop_no_panic. intros. unfold cover. no_panic_walk.
  - unfold correlate_results. apply bind_no_panic; [apply request_no_panic|intros]. apply bind_no_panic; [no_panic_walk|intros].
    apply bind_no_panic; [no_panic_walk|intros]. apply loop_no_panic. intros. unfold correlate_item. no_panic_walk.
Qed.
Lemma correlate_no_panic `{QX : QuickXml} `{UC : UuidCrate} `{UT : !UuidText} `{B64 : Base64Standard} m l :
  no_panic (correlate e m l).
Proof.
  unfold correlate. apply bind_no_panic; [|intros [] Hv].
  { apply map_codec_no_panic. unfold Expected_validate. no_panic_walk. }
  apply bind_no_panic; [apply map_codec_no_panic; eauto with total|intros _ _].
  apply bind_no_panic.
  { unfold Expected_validate in Hv. destruct (messages e); [|done]. simpl in Hv. unfold reject in Hv.
    by destruct (response_message_id e =? 0). }
  intros first _. apply bind_no_panic; [no_panic_walk|intros _ _].
  apply bind_no_panic; [apply loop_no_panic; intros; apply correlate_command_no_panic|intros p _]. no_panic_walk.
Qed.
End Requests.

(** ** The receipts of an admitted message

    [encode_outbound] reserves room for the answers a message can have: a response that
    correlates with it needs no more commands and no more items than the limits allow. *)
Lemma room_ok z n : checked z = Ok n -> n = z.
Proof. unfold checked, checked_u64. destruct (is_u64 z); simpl; [by intros [= ->]|done]. Qed.
Section Receipts.
Context `{QX : QuickXml} `{UC : UuidCrate} `{UT : !UuidText} `{B64 : Base64Standard} (l : CodecLimits).

(** ** What one message can be asked about *)
(** What statuses can cover of one command; acknowledgements are not acknowledged. *)
Definition coverable (mid : Z) (c : SentCommand) : list (Z * Z * rstr) :=
  if bool_decide (sc_kind c = N_Status) then [] else
  map (fun t => (mid, sc_id c, t)) (if is_empty (sc_targets c) then [[]] else sc_targets c).
Definition all_coverable (sent : SentMessage) : list (Z * Z * rstr) :=
  (sm_id sent, 0, []) :: (sm_commands sent ≫= coverable (sm_id sent)).
(** The values a message asks for. *)
Definition all_references (sent : SentMessage) : list Reference :=
  sm_commands sent ≫= command_references (sm_id sent).
(** Targets that statuses can name. *)
Definition named_targets (sent : SentMessage) : list rstr :=
  sm_commands sent ≫= fun c => if bool_decide (sc_kind c = N_Status) then [] else sc_targets c.

(** A read has targets. *)
Definition reads_something (c : SentCommand) : Prop := sc_kind c = N_Get -> sc_targets c <> [].
(** One command's share of the reserved receipts. *)
Lemma receipts_share mid c n k s : receipts c = Ok (n, k) -> sent_command c = Ok s -> reads_something s ->
  zlen (coverable mid s) + zlen (command_references mid s) <= n /\
  zlen (if bool_decide (sc_kind s = N_Status) then [] else sc_targets s) + zlen (command_references mid s) <= k.
Proof.
  intros Hr Hs Hget. unfold sent_command in Hs. apply bind_ok in Hs as ([kind ts] & Hk & [= <-]).
  unfold coverable, command_references, reads_something in *. cbn [sc_kind sc_targets sc_id fst snd] in *.
  assert (forall its, item_targets its = Ok ts -> zlen ts = zlen its) as Hlen.
  { intros its Hi%res_map_length. unfold zlen. lia. }
  destruct c; try discriminate Hk; simpl in Hr;
    try (apply bind_ok in Hk as (ts' & Ht & [= <- <-]); apply Hlen in Ht);
    try (injection Hk as <- <-);
    try (apply bind_ok in Hr as (n' & Hn%room_ok & Hr)); inversion Hr; subst; simpl;
    rewrite ?zlen_map; try destruct ts'; unfold zlen in *; simpl in *; try lia.
  by destruct Hget.
Qed.

(** The shares of all commands are within the limits. *)
Lemma receipts_total flat out acc : res_for (receipt_step l) flat acc = Ok out -> forall mid cs,
  res_map sent_command flat = Ok cs -> Forall reads_something cs ->
  acc.1 + zlen (cs ≫= coverable mid) + zlen (cs ≫= command_references mid) <= out.1 /\
  acc.2 + zlen (cs ≫= fun c => if bool_decide (sc_kind c = N_Status) then [] else sc_targets c)
    + zlen (cs ≫= command_references mid) <= out.2 /\
  (flat <> [] -> out.1 <= l_commands l /\ out.2 <= l_items l).
Proof.
  revert acc. induction flat as [|c flat IH]; intros [n k] H mid cs Hcs Hget; simpl in H.
  - injection H as <-. injection Hcs as <-. split_and!; unfold zlen; simpl; [lia..|done].
  - apply bind_ok in H as ([n1 k1] & H1 & H). simpl in Hcs. apply bind_ok in Hcs as (s & Hs & Hcs).
    apply bind_ok in Hcs as (cs' & Hcs & [= <-]). inversion Hget as [|? ? Hg Hget']. subst. destruct (IH _ H mid cs' Hcs Hget') as (Hn & Hk & Hb). clear IH. cbn [fst snd] in Hn, Hk.
    unfold receipt_step in H1. apply bind_ok in H1 as ([rn rk] & Hr & H1).
    apply bind_ok in H1 as (n2 & ->%room_ok & H1). apply bind_ok in H1 as (k2 & ->%room_ok & H1).
    apply bind_ok in H1 as ([] & Hb1%reject_ok & H1). apply bind_ok in H1 as ([] & Hb2%reject_ok & [= <- <-]). cbn [fst snd] in *.
    destruct (receipts_share mid c rn rk s Hr Hs Hg) as [Hsn Hsk]. rewrite !bind_cons, !zlen_app. split_and!; [lia..|]. intros _. destruct flat as [|c' flat]; [|by apply Hb].
    injection H as <-. simpl. lia.
Qed.

(** ** Counting the answers *)
(** Distinct things among a list of possible ones. *)
Lemma nodup_count {A} (xs ys : list A) : NoDup xs -> xs ⊆ ys -> zlen xs <= zlen ys.
Proof. intros Hn Hs. pose proof (submseteq_length _ _ (NoDup_submseteq _ _ Hn Hs)). unfold zlen. lia. Qed.
Lemma concat_count {A B} (f : A -> list B) (g : A -> Z) xs : (forall x, x ∈ xs -> g x <= zlen (f x)) ->
  foldr (fun x n => g x + n) 0 xs <= zlen (xs ≫= f).
Proof.
  induction xs as [|x xs IH]; intros Hf; [unfold zlen; simpl; lia|]. rewrite bind_cons, zlen_app. cbn [foldr].
  pose proof (Hf x ltac:(by left)). assert (forall y, y ∈ xs -> g y <= zlen (f y)) as Hxs by (intros; apply Hf; by right).
  specialize (IH Hxs). lia.
Qed.
Lemma sum_ones {A} (xs : list A) : foldr (fun _ n => 1 + n) 0 xs = zlen xs.
Proof. induction xs as [|x xs IH]; [done|]. rewrite zlen_cons. cbn [foldr]. lia. Qed.

(** A status covers something of the message, and what it covers is not an acknowledgement. *)
Definition not_acknowledged (sent : SentMessage) (s : CorrelatedStatus) : Prop :=
  forall c, c ∈ sm_commands sent -> sc_id c = cs_command_id s -> sc_kind c <> N_Status.
Lemma coverage_positive s : 1 <= zlen (coverage s).
Proof. unfold coverage. rewrite zlen_map. destruct (cs_targets s); unfold zlen; simpl; lia. Qed.
Lemma coverage_within sent s : answers_sent [sent] s -> not_acknowledged sent s ->
  coverage s ⊆ all_coverable sent.
Proof.
  intros [(Hc & Hm & Ht)|(i & j & c & (m & Hi & Hid & Hj) & Hcid & Hts & Hempty)] Hack x Hx.
  - unfold coverage in Hx. rewrite Ht, Hc in Hx. simpl in Hx. apply list_elem_of_singleton in Hx as ->.
    simpl in Hm. apply list_elem_of_singleton in Hm as ->. by left.
  - apply list_lookup_singleton_Some in Hi as [_ <-]. right. apply list_elem_of_bind. exists c.
    apply list_elem_of_lookup_2 in Hj. split; [|done]. unfold coverable.
    rewrite bool_decide_eq_false_2 by (by apply Hack). rewrite Hcid, Hid. unfold coverage in Hx.
    destruct (is_empty (cs_targets s)) eqn:Et.
    + destruct (cs_targets s); [|done]. by rewrite Hempty.
    + apply list_elem_of_fmap in Hx as (t & -> & Ht%Hts). apply list_elem_of_fmap. exists t. split; [done|].
      by destruct (sc_targets c); [apply elem_of_nil in Ht|].
Qed.
(** The distinct named targets, with the command they belong to. *)
Definition named (mid : Z) (c : SentCommand) : list (Z * Z * rstr) :=
  if bool_decide (sc_kind c = N_Status) then [] else map (fun t => (mid, sc_id c, t)) (sc_targets c).
Definition targeted (s : CorrelatedStatus) : list (Z * Z * rstr) :=
  map (fun t => (cs_message_id s, cs_command_id s, t)) (cs_targets s).
Lemma targeted_within sent s : answers_sent [sent] s -> not_acknowledged sent s ->
  targeted s ⊆ (sm_commands sent ≫= named (sm_id sent)).
Proof.
  intros [(Hc & Hm & Ht)|(i & j & c & (m & Hi & Hid & Hj) & Hcid & Hts & Hempty)] Hack x Hx; unfold targeted in Hx.
  - rewrite Ht in Hx. by apply elem_of_nil in Hx.
  - apply list_lookup_singleton_Some in Hi as [_ <-]. apply list_elem_of_fmap in Hx as (t & -> & Ht%Hts).
    apply list_elem_of_bind. exists c. apply list_elem_of_lookup_2 in Hj. split; [|done]. unfold named.
    rewrite bool_decide_eq_false_2 by (by apply Hack). apply list_elem_of_fmap. exists t. by rewrite Hcid, Hid.
Qed.
(** Named targets are part of what is covered. *)
Lemma targeted_coverage ss : NoDup (ss ≫= coverage) -> NoDup (ss ≫= targeted).
Proof.
  intros Hn. assert ((ss ≫= targeted) `sublist_of` (ss ≫= coverage)) as Hs; [|by eapply sublist_NoDup].
  clear Hn. induction ss as [|s ss IH]; [done|]. rewrite !bind_cons. apply sublist_app; [|done].
  unfold targeted, coverage. destruct (cs_targets s); simpl; [|done]. apply sublist_nil_l.
Qed.

(** ** The answers of one message *)
Lemma bind_concat {A B} (f : A -> list B) xs : concat (map f xs) = xs ≫= f.
Proof. induction xs as [|x xs IH]; [done|]. rewrite bind_cons. simpl. by rewrite IH. Qed.
Lemma visited_first c cs : c ∈ cs -> c ∈ map visited (traversal cs).
Proof.
  intros Hc. apply list_elem_of_fmap. exists (c, 0, None). split; [done|]. unfold traversal.
  rewrite bind_concat. apply list_elem_of_bind. exists c. split; [destruct c; by left|done].
Qed.
(** The commands of a correlated response: statuses, and results with values. *)
Lemma response_commands e m l' co : correlate e m l' = Ok co ->
  zlen (commands m) <= zlen (commands m ≫= response_statuses) + zlen (commands m ≫= response_items).
Proof.
  intros H. unfold correlate in H. apply bind_ok in H as (? & _ & H). apply bind_ok in H as ([] & Hv & H).
  apply bind_ok in H as (? & _ & H). apply bind_ok in H as (? & _ & H). apply bind_ok in H as (p & Hp & _).
  assert (validate l' m = Ok ()) as Hv' by (by destruct (validate l' m) as [[]| |]).
  apply validate_commands in Hv' as (flat & Hflat%flattened_ok & _ & Hall). destruct Hflat as [-> _].
  assert (forall r, ResultsCommand r ∈ commands m -> r_items r <> []) as Hne.
  { intros r Hr%visited_first. apply (proj1 (Forall_forall _ _) Hall) in Hr as (_ & n & Hn). simpl in Hn.
    do 2 (apply bind_ok in Hn as (? & _ & Hn)). apply bind_ok in Hn as ([] & Hn & _). unfold validate_items in Hn.
    apply bind_ok in Hn as ([] & Hn%reject_ok & _). intros He. by rewrite He in Hn. }
  clear Hall Hv. revert Hp. generalize (mk_Progress (references e) [] [] [] []) as q.
  induction (commands m) as [|c cs IH]; intros q Hp; [unfold zlen; simpl; lia|].
  simpl in Hp. apply bind_ok in Hp as (q1 & Hc & Hp). rewrite !bind_cons, !zlen_app, zlen_cons.
  specialize (IH (fun r Hr => Hne r ltac:(by right)) q1 Hp).
  destruct c; try discriminate Hc; simpl.
  - change (zlen [status]) with 1. change (zlen (@nil (Results * Item))) with 0. lia.
  - rewrite zlen_map. destruct (r_items results) eqn:Er; [by destruct (Hne results ltac:(by left))|].
    rewrite zlen_cons. pose proof (zlen_nonneg l0). change (zlen (@nil Status)) with 0. lia.
Qed.
Lemma sent_reads m sent : validate l m = Ok () -> sent_snapshot l m = Ok sent -> Forall reads_something (sm_commands sent).
Proof.
  intros (flat & Hf & _ & Hv)%validate_commands H. unfold sent_snapshot in H. rewrite Hf in H. simpl in H.
  apply bind_ok in H as (cs & Hcs%res_map_ok & [= <-]). simpl. clear Hf. induction Hcs as [|c s flat cs Hc _ IH]; [done|].
  inversion Hv as [|? ? (_ & n & Hn) Hv']. subst. constructor; [|by apply IH]. intros Hk.
  unfold sent_command in Hc. apply bind_ok in Hc as ([k ts] & Hc & [= <-]). simpl in *. subst k.
  destruct c; simpl in Hc; try (by inversion Hc); apply bind_ok in Hc as (ts' & Ht & [= ->]); try done.
  simpl in Hn. apply bind_ok in Hn as (? & _ & Hn). apply bind_ok in Hn as ([] & Hn & _). unfold validate_items in Hn.
  apply bind_ok in Hn as ([] & Hn%reject_ok & _). apply res_map_length in Ht. by destruct items, ts.
Qed.
Lemma flattened_nonempty m flat : validate l m = Ok () -> flattened l (commands m) = Ok flat -> flat <> [].
Proof.
  intros Hvalid Hflat ->. unfold validate in Hvalid. do 6 (apply bind_ok in Hvalid as (? & _ & Hvalid)).
  unfold validate_body in Hvalid. apply bind_ok in Hvalid as (? & _ & Hvalid). apply bind_ok in Hvalid as (? & He%reject_ok & _).
  apply flattened_ok in Hflat as [Hf _]. destruct (commands m) as [|c cs]; [done|].
  assert (c ∈ map visited (traversal (c :: cs))) as Hin by (apply visited_first; by left).
  rewrite <-Hf in Hin. by apply elem_of_nil in Hin.
Qed.
(** Distinct answers are no more than what can be answered. *)
Lemma count_statuses sent ss : NoDup (ss ≫= coverage) -> Forall (answers_sent [sent]) ss ->
  Forall (not_acknowledged sent) ss -> zlen ss <= zlen (all_coverable sent).
Proof.
  intros Hcov Hans Hack. rewrite Forall_forall in Hans, Hack. etransitivity; [|apply (nodup_count _ _ Hcov)].
  - rewrite <-sum_ones. apply (concat_count coverage (fun _ => 1)). intros s _. apply coverage_positive.
  - intros x (s & Hx & Hin)%list_elem_of_bind. by apply (coverage_within sent s); [apply Hans|apply Hack|].
Qed.
Lemma count_targets sent ss : NoDup (ss ≫= coverage) -> Forall (answers_sent [sent]) ss ->
  Forall (not_acknowledged sent) ss ->
  foldr (fun s n => zlen (cs_targets s) + n) 0 ss <= zlen (named_targets sent).
Proof.
  intros Hcov Hans Hack. rewrite Forall_forall in Hans, Hack.
  etransitivity; [|etransitivity; [apply (nodup_count _ (sm_commands sent ≫= named (sm_id sent)) (targeted_coverage _ Hcov))|]].
  - apply (concat_count targeted (fun s => zlen (cs_targets s))). intros s _. unfold targeted. by rewrite zlen_map.
  - intros x (s & Hx & Hin)%list_elem_of_bind. by apply (targeted_within sent s); [apply Hans|apply Hack|].
  - apply Z.eq_le_incl. unfold named_targets. clear. generalize (sm_id sent) as mid. intros mid.
    induction (sm_commands sent) as [|c cs IH]; [done|].
    rewrite !bind_cons, !zlen_app, IH. f_equal. unfold named. by destruct (bool_decide _); [|rewrite zlen_map].
Qed.
Lemma count_results sent (rs : list CorrelatedItem) : NoDup (map ci_reference rs) ->
  (forall r, r ∈ map ci_reference rs -> requested [sent] r) -> zlen rs <= zlen (all_references sent).
Proof.
  intros Hu Hreq. rewrite <-(zlen_map ci_reference). apply nodup_count; [done|]. intros r Hin.
  destruct (Hreq r Hin) as (i & j & c & (x & Hi & Hid & Hj) & Hk & Hcid & Hu').
  apply list_lookup_singleton_Some in Hi as [_ <-]. apply list_elem_of_bind. exists c.
  split; [|by apply list_elem_of_lookup_2 in Hj]. unfold command_references. rewrite bool_decide_eq_true_2 by done.
  apply list_elem_of_fmap. exists (ref_uri r). split; [|done]. destruct r. simpl in *. by subst.
Qed.
(** A correlated response to one admitted message stays within the limits of its admission. *)
Lemma receipts_fit m wire sent e response l' co :
  encode_outbound m l = Ok wire -> sent_snapshot l m = Ok sent -> messages e = [sent] -> consistent [sent] e ->
  correlate e response l' = Ok co -> Forall (not_acknowledged sent) (co_statuses co) ->
  zlen (commands response) <= l_commands l /\
  zlen (co_results co) + foldr (fun s n => zlen (cs_targets s) + n) 0 (co_statuses co) <= l_items l.
Proof.
  intros Ho Hs Hm Hc Hco Hack. pose proof (response_commands e response l' co Hco) as Hlen.
  destruct (correlate_facts [sent] e Hm Hc response l' co Hco) as ((cov & last & Hv & Hst) & _).
  pose proof (encode_valid l m wire (encode_outbound_valid l m wire Ho)) as Hvalid.
  pose proof (sent_reads m sent Hvalid Hs) as Hreads.
  unfold encode_outbound in Ho. apply bind_ok in Ho as (flat & Hflat & Ho). apply bind_ok in Ho as (out & Hr & _).
  unfold sent_snapshot in Hs. rewrite Hflat in Hs. simpl in Hs. apply bind_ok in Hs as (cs & Hcs & Hsent).
  assert (sm_commands sent = cs) as Hcs' by (by injection Hsent as <-). rewrite Hcs' in Hreads.
  destruct (receipts_total flat out (1, 0) Hr (sm_id sent) cs Hcs Hreads) as (H1 & H2 & H3).
  destruct (H3 (flattened_nonempty m flat Hvalid Hflat)) as [H4 H5].
  cbn [fst snd] in H1, H2. destruct Hst as [Hrep Hcov _ Hans _ _], Hv as [_ Hu Hsplit _ Hcar].
  cbn [statuses results remaining] in *. unfold covered in Hcov. cbn [statuses] in Hcov. rewrite bind_concat in Hcov.
  pose proof (count_statuses sent _ Hcov Hans Hack) as Hns. pose proof (count_targets sent _ Hcov Hans Hack) as Hnt.
  pose proof (count_results sent _ Hu (fun r Hin => proj2 (Hsplit r) (or_introl Hin))) as Hnr.
  unfold all_coverable, all_references, named_targets in *. rewrite zlen_cons, Hcs' in Hns. rewrite Hcs' in Hnt, Hnr.
  apply Forall2_length in Hrep, Hcar. unfold zlen in *. lia.
Qed.
End Receipts.
