(* ===== verification/SyncmlFragment.v ===== *)
(** * SyncML messages: fragments of one object

    Every fragment advances, carries the next slice of the data, and fits; the fragments of a run
    put together are the data. *)
From S2P Require Import Prelude Ordered Text External Xml Declared SyncmlModel SyncmlCodec SyncmlCorrelation.
From S2P Require Import XmlTotal SyncmlTotal SyncmlExpected.

(** ** Splitting at character boundaries *)
Lemma split_at_spec s n a b : split_at s n = Some (a, b) <-> s = a ++ b /\ str_len a = n.
Proof.
  revert n a b. induction s as [|c s IH]; intros n a b; cbn [split_at]; destruct (n =? 0) eqn:E0.
  - apply Z.eqb_eq in E0 as ->. split; [by intros [= <- <-]|]. intros [Ha Hl].
    symmetry in Ha. by apply app_eq_nil in Ha as [-> ->].
  - apply Z.eqb_neq in E0. split; [done|]. intros [Ha Hl]. symmetry in Ha. apply app_eq_nil in Ha as [-> ->]. done.
  - apply Z.eqb_eq in E0 as ->. split; [by intros [= <- <-]|]. intros [Ha ->%str_len_zero]. simpl in Ha. by subst.
  - apply Z.eqb_neq in E0. destruct (n <? 0) eqn:En.
    + split; [done|]. intros [_ Hl]. pose proof (str_len_nonneg a). lia.
    + destruct (split_at s (n - len_utf8 c)) as [[a' b']|] eqn:Es; simpl.
      * apply IH in Es as [-> Hl]. split.
        -- intros [= <- <-]. split; [done|]. rewrite str_len_cons. lia.
        -- intros [Ha Hn]. destruct a as [|x a]; [done|]. injection Ha as <- Ha. rewrite str_len_cons in Hn.
           assert (split_at (a' ++ b') (n - len_utf8 c) = Some (a, b)) as Ha1 by (apply IH; split; [done|lia]).
           assert (split_at (a' ++ b') (n - len_utf8 c) = Some (a', b')) as Ha2 by (apply IH; split; [done|lia]).
           congruence.
      * split; [done|]. intros [Ha Hn]. destruct a as [|x a]; [done|]. injection Ha as <- Ha. rewrite str_len_cons in Hn.
        assert (split_at s (n - len_utf8 c) = Some (a, b)) by (apply IH; split; [done|lia]). congruence.
Qed.
Lemma is_char_boundary_spec s n : is_char_boundary s n = true <-> exists a b, s = a ++ b /\ str_len a = n.
Proof.
  unfold is_char_boundary. destruct (split_at s n) as [[a b]|] eqn:E; simpl.
  - apply split_at_spec in E as [-> <-]. split; [|done]. intros _. by exists a, b.
  - split; [done|]. intros (a & b & H). apply split_at_spec in H. congruence.
Qed.
Lemma boundary_zero s : is_char_boundary s 0 = true.
Proof. apply is_char_boundary_spec. by exists [], s. Qed.
Lemma boundary_end s : is_char_boundary s (str_len s) = true.
Proof. apply is_char_boundary_spec. exists s, []. by rewrite app_nil_r. Qed.
(** Two boundaries cut the text in three. *)
Lemma slice_spec s from to part : slice s from to = Ok part <->
  exists a b, s = a ++ part ++ b /\ str_len a = from /\ str_len a + str_len part = to.
Proof.
  unfold slice. split.
  - intros H. apply bind_ok in H as ([a s'] & H1%or_panic_ok & H). apply bind_ok in H as ([p b] & H2 & [= <-]).
    apply or_panic_ok in H2. simpl in H2.
    apply split_at_spec in H1 as [-> <-]. apply split_at_spec in H2 as [-> Hp]. simpl. exists a, b. split_and!; [done..|lia].
  - intros (a & b & -> & <- & <-). rewrite (proj2 (split_at_spec _ _ a (part ++ b))) by done. simpl.
    replace (str_len a + str_len part - str_len a) with (str_len part) by lia.
    by rewrite (proj2 (split_at_spec _ _ part b)).
Qed.
Lemma slice_ok s from to : is_char_boundary s from = true -> is_char_boundary s to = true -> from <= to ->
  exists part, slice s from to = Ok part.
Proof.
  intros (a & b & -> & <-)%is_char_boundary_spec (c & d & He & <-)%is_char_boundary_spec Hle.
  assert (exists part, c = a ++ part) as [part ->].
  { clear -He Hle. revert c He Hle. induction a as [|x a IH]; intros c He Hle; [by exists c|].
    rewrite str_len_cons in Hle. destruct c as [|y c].
    - pose proof (len_utf8_pos x). pose proof (str_len_nonneg a). change (str_len []) with 0 in Hle. lia.
    - injection He as <- He. rewrite str_len_cons in Hle. destruct (IH c He) as [part ->]; [lia|]. by exists part. }
  rewrite <-app_assoc in He. apply app_inv_head in He as ->. exists part. apply slice_spec. exists a, d.
  by rewrite str_len_app.
Qed.
Lemma floor_boundary_ok s fuel n : 0 <= n -> n <= Z.of_nat fuel ->
  exists m, floor_boundary s fuel n = Ok m /\ is_char_boundary s m = true /\ 0 <= m <= n /\
    forall b, is_char_boundary s b = true -> b <= n -> b <= m.
Proof.
  revert n. induction fuel as [|fuel IH]; intros n Hn Hf; cbn [floor_boundary].
  - assert (n = 0) as -> by lia. rewrite boundary_zero. exists 0. rewrite boundary_zero. split_and!; done || lia.
  - destruct (is_char_boundary s n) eqn:E; [exists n; split_and!; done || lia|].
    destruct (decide (n = 0)) as [->|]; [by rewrite boundary_zero in E|].
    destruct (IH (n - 1)) as (m & Hm & Hb & ? & Hmax); [lia..|]. exists m. split_and!; [done|done|lia|lia|].
    intros b Hbb Hbn. destruct (decide (b = n)) as [->|]; [congruence|]. apply Hmax; [done|lia].
Qed.

(** ** One fragment *)
Section Fragment.
Context `{QX : QuickXml} `{UC : UuidCrate} `{UT : !UuidText} `{B64 : Base64Standard}.
Context (prefix : Message) (c : Command) (i : Item) (data : rstr)
  (Hi : single_item c = Some i) (Hd : i_data i = Some data).

(** The item of the fragment that carries [part], the bytes from [offset] to [end_]. *)
Definition piece_item (offset end_ : Z) (part : rstr) : Item :=
  mk_Item (end_ <? str_len data) (i_source i) (i_target i)
    (Some (set_size (if offset =? 0 then Some (str_len data) else None) (default Meta_default (i_meta i)))) (Some part).
(** The command as it is sent with this item. *)
Definition with_item (x : Item) : Command :=
  match c with
  | Replace id m _ => Replace id (set_size None <$> m) [x]
  | Add id m _ => Add id (set_size None <$> m) [x]
  | _ => c
  end.
Definition piece (offset end_ : Z) (part : rstr) : Message :=
  mk_Message (header prefix) (commands prefix ++ [with_item (piece_item offset end_ part)])
    ((end_ =? str_len data) && final_message prefix).
Lemma single_with_item x : single_item (with_item x) = Some x.
Proof. unfold with_item. revert Hi. by destruct c as [? ? [|? [|? ?]]|? ? [|? [|? ?]]| | | | | | | | |]. Qed.
Lemma build_spec offset end_ m : build prefix c i data offset end_ = Ok m <->
  exists part, slice data offset end_ = Ok part /\ m = piece offset end_ part.
Proof.
  unfold build, piece, piece_item, default.
  assert (forall x, replace_item c x = Ok (with_item x)) as Hr.
  { intros x. unfold with_item. revert Hi. by destruct c as [? ? [|? [|? ?]]|? ? [|? [|? ?]]| | | | | | | | |]. }
  destruct (slice data offset end_) as [part| |]; simpl.
  - rewrite Hr. simpl. split; [intros [= <-]; by exists part|]. by intros (p & [= ->] & ->).
  - split; [done|]. by intros (? & ? & _).
  - split; [done|]. by intros (? & ? & _).
Qed.
Lemma build_ok offset end_ : is_char_boundary data offset = true -> is_char_boundary data end_ = true -> offset <= end_ ->
  exists part, slice data offset end_ = Ok part /\ build prefix c i data offset end_ = Ok (piece offset end_ part).
Proof.
  intros Ho He Hle. destruct (slice_ok data offset end_ Ho He Hle) as [part Hp]. exists part. split; [done|].
  apply build_spec. by exists part.
Qed.

(** *** The search *)
(** A fragment that fits: the next slice of the data, up to [fr_end]. *)
Definition fits (l : CodecLimits) (offset : Z) (f : Fragment) : Prop :=
  offset < fr_end f /\ exists part wire, slice data offset (fr_end f) = Ok part /\
    fr_message f = piece offset (fr_end f) part /\ encode_outbound (fr_message f) l = Ok wire.
(** The pieces that end at [end_] do not fit. *)
Definition too_large (l : CodecLimits) (offset end_ : Z) : Prop :=
  exists part, slice data offset end_ = Ok part /\ encode_outbound (piece offset end_ part) l = Err LimitExceeded.
(** What a search may return. *)
Definition search_result (l : CodecLimits) (offset first : Z) (best : option Fragment) : Prop :=
  match best with Some f => fits l offset f | None => too_large l offset first end.

Lemma encode_outbound_no_panic m l : no_panic (encode_outbound m l).
Proof.
  unfold encode_outbound. apply bind_no_panic; [eauto with total|intros flat _].
  apply bind_no_panic; [|intros _ _; apply encode_no_panic]. apply loop_no_panic. intros acc x. unfold receipt_step, receipts.
  apply bind_no_panic; [destruct x; no_panic_walk|intros]. no_panic_walk.
Qed.
(** [first] is the first boundary after [offset]. Without a result it was tried. *)
Lemma search_spec l offset first fuel low high best :
  is_char_boundary data offset = true -> 0 <= offset -> offset < low ->
  (forall n, is_char_boundary data n = true -> offset < n -> first <= n) ->
  is_char_boundary data first = true -> offset < first ->
  high - low + 1 <= Z.of_nat fuel ->
  match best with Some f => fits l offset f | None => low <= first /\ (first <= high \/ too_large l offset first) end ->
  match search l prefix c i data offset fuel low high best with
  | Ok best => search_result l offset first best
  | Err e => e <> LimitExceeded
  | Panic => False
  end.
Proof.
  intros Ho H0 Hlow Hfirst Hfb Hof. revert low high best Hlow. induction fuel as [|fuel IH]; intros low high best Hlow Hfuel Hbest;
    cbn [search]; destruct (high <? low) eqn:Eh.
  1,3: destruct best as [f|]; [done|]; destruct Hbest as [? [?|?]]; [lia|done].
  - lia.
  - assert (low <= low + (high - low) / 2 <= high) as Hmid.
    { pose proof (Z.div_pos (high - low) 2). pose proof (Z.div_le_upper_bound (high - low) 2 (high - low)). lia. }
    set (mid := low + (high - low) / 2) in *.
    destruct (floor_boundary_ok data (Z.to_nat mid) mid) as (e & -> & He & Hem & Hmax); [lia..|]. simpl.
    destruct (e <=? offset) eqn:Ee.
    + apply IH; [lia..|]. destruct best as [f|]; [done|]. destruct Hbest as [Hl Hh]. split; [|done].
      destruct (decide (first <= mid)) as [Hle|]; [|lia]. pose proof (Hmax first Hfb Hle). lia.
    + destruct (build_ok offset e Ho He ltac:(lia)) as (part & Hp & ->). simpl.
      pose proof (encode_outbound_no_panic (piece offset e part) l) as Hnp.
      destruct (encode_outbound (piece offset e part) l) as [w|er|] eqn:Ew; [| |done].
      * apply IH; [lia..|]. split; [simpl; lia|]. by exists part, w.
      * destruct er; try done. apply IH; [lia..|]. destruct best as [f|]; [done|]. destruct Hbest as [Hl Hh]. split; [done|].
        destruct Hh as [Hh|Hh]; [|by right]. destruct (decide (e = first)) as [->|Hne]; [right; by exists part|].
        left. pose proof (Hfirst e He ltac:(lia)). lia.
Qed.

(** *** The whole decision *)
(** The first character after [offset] ends at [first]. *)
Definition next_boundary (offset first : Z) : Prop :=
  is_char_boundary data first = true /\ offset < first /\
  forall n, is_char_boundary data n = true -> offset < n -> first <= n.
Lemma next_boundary_exists offset : is_char_boundary data offset = true -> offset < str_len data ->
  exists first, next_boundary offset first /\ first <= str_len data.
Proof.
  intros Ho Hl. pose proof Ho as (a & b & Hab & Ha)%is_char_boundary_spec. destruct b as [|x b].
  { rewrite app_nil_r in Hab. subst. lia. }
  pose proof (len_utf8_pos x). exists (offset + len_utf8 x).
  assert (is_char_boundary data (offset + len_utf8 x) = true) as Hx.
  { apply is_char_boundary_spec. exists (a ++ [x]), b. rewrite <-app_assoc. split; [done|].
    rewrite str_len_app, str_len_cons. change (str_len []) with 0. lia. }
  split; [split_and!; [done|lia|]|].
  - intros n Hn Hlt. destruct (slice_ok data offset n Ho Hn ltac:(lia)) as [part (a' & b' & He & Hla & Hlp)%slice_spec].
    assert (split_at data offset = Some (a, x :: b)) as E1 by (by apply split_at_spec).
    assert (split_at data offset = Some (a', part ++ b')) as E2 by (by apply split_at_spec).
    rewrite E1 in E2. injection E2 as -> Hpb. destruct part as [|y part].
    + change (str_len []) with 0 in Hlp. lia.
    + injection Hpb as -> _. rewrite str_len_cons in Hlp. pose proof (str_len_nonneg part). lia.
  - rewrite Hab, str_len_app, str_len_cons. pose proof (str_len_nonneg b). lia.
Qed.
Lemma fragment_rest_spec offset wire : 0 <= offset ->
  match fragment_rest prefix c offset wire with
  | Ok f => fits wire offset f
  | Err LimitExceeded => str_len data <= u32_max -> forall first, next_boundary offset first -> too_large wire offset first
  | Err _ => True
  | Panic => False
  end.
Proof.
  intros H0. unfold fragment_rest. rewrite Hi. simpl. rewrite Hd. simpl. unfold reject.
  destruct ((str_len data <=? offset) || negb (is_char_boundary data offset)) eqn:E; simpl; [done|].
  apply orb_false_iff in E as [El Eb%negb_false_iff]. apply Z.leb_gt in El.
  destruct (u32_max <? str_len data) eqn:Eu; simpl; [intros; lia|].
  destruct (build_ok offset (str_len data) Eb (boundary_end data) ltac:(lia)) as (part & Hp & ->). simpl.
  pose proof (encode_outbound_no_panic (piece offset (str_len data) part) wire) as Hnp.
  destruct (encode_outbound (piece offset (str_len data) part) wire) as [w|er|] eqn:Ew; [| |done].
  { split; [done|]. by exists part, w. }
  destruct er; try done.
  destruct (next_boundary_exists offset Eb El) as (first & (Hf1 & Hf2 & Hf3) & Hfl).
  assert (forall first', next_boundary offset first' -> first' = first) as Huniq.
  { intros f' (Hb' & Ho' & Hf'). pose proof (Hf3 f' Hb' Ho'). pose proof (Hf' first Hf1 Hf2). lia. }
  pose proof (search_spec wire offset first (Z.to_nat (str_len data)) (offset + 1) (str_len data - 1) None Eb H0
    ltac:(lia) Hf3 Hf1 Hf2 ltac:(lia)) as Hs.
  assert (first <= str_len data - 1 \/ too_large wire offset first) as Hstart.
  { destruct (decide (first = str_len data)) as [->|]; [right; by exists part|left; lia]. }
  specialize (Hs ltac:(split; [lia|exact Hstart])).
  destruct (search wire prefix c i data offset _ _ _ None) as [[f|]|er|]; simpl; [done| | |done].
  - intros _ f' Hf'. by rewrite (Huniq f' Hf').
  - by destruct er.
Qed.

Context (peer : Z) (l : CodecLimits).
Definition whole : Message := with_commands prefix (commands prefix ++ [c]).
Definition wire_limits : CodecLimits := with_syncml_bytes l (Z.min (l_syncml_bytes l) peer).
(** The answer of [fragment]: the whole command, or a slice of it that fits. *)
Definition fragment_ok (offset : Z) (f : Fragment) : Prop :=
  (offset = 0 /\ f = mk_Fragment whole (str_len data) /\ exists wire, encode_outbound whole wire_limits = Ok wire) \/
  fits wire_limits offset f.
Definition fragment_error (offset : Z) (e : CodecError) : Prop :=
  e = LimitExceeded -> validate l whole = Err LimitExceeded \/ u32_max < str_len data \/
    forall first, next_boundary offset first -> too_large wire_limits offset first.
Lemma rest_answer offset : 0 <= offset ->
  match fragment_rest prefix c offset wire_limits with
  | Ok f => fragment_ok offset f
  | Err e => fragment_error offset e
  | Panic => False
  end.
Proof.
  intros H0. pose proof (fragment_rest_spec offset wire_limits H0) as H.
  destruct (fragment_rest _ _ _ _) as [f|e|]; [by right| |done]. intros ->. right.
  destruct (Z.lt_ge_cases u32_max (str_len data)); [by left|right]. by apply H.
Qed.
Lemma fragment_answer offset : 0 <= offset ->
  match fragment prefix c offset peer l with
  | Ok f => fragment_ok offset f
  | Err e => fragment_error offset e
  | Panic => False
  end.
Proof.
  intros H0. unfold fragment. fold whole. fold wire_limits.
  pose proof (message_validate_no_panic l whole) as Hv. destruct (validate l whole) as [[]|e|] eqn:Ev; simpl; [| |done].
  2:{ intros ->. by left. }
  destruct (offset =? 0) eqn:E0; [|by apply rest_answer]. apply Z.eqb_eq in E0.
  pose proof (encode_outbound_no_panic whole wire_limits) as Hn.
  destruct (encode_outbound whole wire_limits) as [w|e|] eqn:Ew; [| |done].
  - left. rewrite Hi. simpl. rewrite Hd. split_and!; [done|done|by exists w].
  - destruct e; try done. by apply rest_answer.
Qed.

(** ** Runs *)
(** The data a fragment carries. *)
Definition part_of (f : Fragment) : rstr :=
  let c : option Command := list.last (commands (fr_message f)) in
  let i : option Item := c ≫= single_item in
  match i ≫= i_data with Some part => part | None => [] end.
(** The fragments sent from [offset] on, each asked for where the one before it ended. *)
Inductive fragments : Z -> list Fragment -> Prop :=
| fragments_done : fragments (str_len data) []
| fragments_more offset f fs : fragment prefix c offset peer l = Ok f -> fragments (fr_end f) fs ->
    fragments offset (f :: fs).

Lemma fragment_ok_slice offset f : is_char_boundary data offset = true -> fragment_ok offset f ->
  slice data offset (fr_end f) = Ok (part_of f) /\ (exists wire, encode_outbound (fr_message f) wire_limits = Ok wire) /\
  (offset < fr_end f \/ offset = 0 /\ fr_end f = str_len data).
Proof.
  intros Hb [(-> & -> & w & Hw)|(Hlt & part & w & Hp & Hm & Hw)].
  - unfold part_of, whole. simpl. rewrite last_snoc. simpl. rewrite Hi. simpl. rewrite Hd. simpl.
    split_and!; [|by exists w|by right]. apply slice_spec. exists [], []. rewrite app_nil_r. done.
  - split_and!; [|by exists w|by left]. unfold part_of. rewrite Hm. unfold piece. simpl. rewrite last_snoc. simpl.
    by rewrite single_with_item.
Qed.
Lemma slice_app a part b to : slice (a ++ b) (str_len a) to = Ok part ->
  exists b', b = part ++ b' /\ to = str_len (a ++ part).
Proof.
  intros (a' & b' & He & Hl & Ht)%slice_spec.
  assert (split_at (a ++ b) (str_len a) = Some (a, b)) as E1 by (by apply split_at_spec).
  assert (split_at (a ++ b) (str_len a) = Some (a', part ++ b')) as E2 by (by apply split_at_spec).
  rewrite E1 in E2. injection E2 as <- ->. exists b'. by rewrite str_len_app.
Qed.
Lemma fragments_spec offset fs : data <> [] -> fragments offset fs -> forall a b, data = a ++ b -> str_len a = offset ->
  b = concat (map part_of fs) /\ zlen fs <= str_len data - offset /\
  Forall (fun f => exists wire, encode_outbound (fr_message f) wire_limits = Ok wire) fs.
Proof.
  intros Hne. induction 1 as [|offset f fs Hf Hfs IH]; intros a b Hab Ha.
  - assert (b = []) as ->. { apply str_len_zero. rewrite Hab, str_len_app in Ha. lia. }
    split_and!; [done| |constructor]. change (zlen (@nil Fragment)) with 0. lia.
  - assert (0 <= offset) as H0 by (rewrite <-Ha; apply str_len_nonneg).
    pose proof (fragment_answer offset H0) as Hok. rewrite Hf in Hok.
    assert (is_char_boundary data offset = true) as Hb by (apply is_char_boundary_spec; by exists a, b).
    destruct (fragment_ok_slice offset f Hb Hok) as (Hs & Hw & Hprog). rewrite Hab, <-Ha in Hs.
    destruct (slice_app _ _ _ _ Hs) as (b' & -> & Hend).
    destruct (IH (a ++ part_of f) b') as (Hb' & Hn & Hall); [by rewrite <-app_assoc|done|].
    simpl. split_and!; [by rewrite Hb'| |by constructor]. rewrite zlen_cons.
    assert (str_len data <> 0) by (by intros ?%str_len_zero). pose proof (str_len_nonneg data). lia.
Qed.
(** When every fragment asked for is found, the whole object is sent. *)
Lemma fragments_exist : data <> [] ->
  (forall offset, is_char_boundary data offset = true -> 0 <= offset < str_len data ->
     exists f, fragment prefix c offset peer l = Ok f) ->
  forall n offset, is_char_boundary data offset = true -> 0 <= offset <= str_len data ->
    str_len data - offset <= Z.of_nat n -> exists fs, fragments offset fs.
Proof.
  intros Hne Hall n. assert (str_len data <> 0) by (by intros ?%str_len_zero).
  induction n as [|n IH]; intros offset Hb Ho Hn.
  - assert (offset = str_len data) as -> by lia. exists []. constructor.
  - destruct (decide (offset = str_len data)) as [->|]; [exists []; constructor|].
    destruct (Hall offset Hb ltac:(lia)) as [f Hf]. pose proof (fragment_answer offset ltac:(lia)) as Hok. rewrite Hf in Hok.
    destruct (fragment_ok_slice offset f Hb Hok) as (Hs & _ & Hprog). apply slice_spec in Hs as (a & b & Hd' & Ha & He).
    destruct (IH (fr_end f)) as [fs Hfs].
    + apply is_char_boundary_spec. exists (a ++ part_of f), b. rewrite <-app_assoc, str_len_app. split; [done|lia].
    + assert (str_len data = str_len a + (str_len (part_of f) + str_len b)) by (rewrite Hd' at 1; by rewrite !str_len_app).
      pose proof (str_len_nonneg a). pose proof (str_len_nonneg b).
      pose proof (str_len_nonneg (part_of f)). lia.
    + lia.
    + exists (f :: fs). by apply (fragments_more offset).
Qed.
End Fragment.
