(* ===== verification/XmlTree.v ===== *)
(** * Bounded XML: written documents and the events they show

    A written document is a list of nodes; [show] gives the events a reader of it sees. [pay] is
    what these events cost both sides, and [stream] says that a reader is at the start of them. *)
From S2P Require Import Prelude Ordered Text External Xml.

(** ** Documents *)
(** An element may declare a default namespace. Marks have no bytes: they say where a command or
    an item is counted, and which text was checked. *)
Inductive node : Type :=
| Elem (name : rstr) (xmlns : option rstr) (kids : list node)
| Chars (v : rstr)
| CommandMark | ItemMark
| CheckMark (v : rstr) (max : Z) (empty : bool).
Definition declared (xmlns : option rstr) : list (rstr * rstr) :=
  match xmlns with Some ns => [(lit "xmlns", ns)] | None => [] end.
(** Checked text. *)
Definition text_nodes (v : rstr) (max : Z) : list node := [CheckMark v max true; Chars v].
Definition scalar_nodes (name v : rstr) (max : Z) (empty : bool) : list node :=
  [CheckMark v max empty; Elem name None (text_nodes v max)].

(** Events, and the marks between them. *)
Inductive shown : Type :=
| SStart (ns name : rstr) (xmlns : option rstr)
| SEnd (ns name : rstr)
| SText (v : rstr)
| SRef (c : Z)
| SCommand | SItem
| SCheck (v : rstr) (max : Z) (empty : bool).
(** Text is reported in runs; each escaped character is a reference of its own. *)
Fixpoint runs (v : rstr) : list shown :=
  match v with
  | [] => []
  | c :: v =>
      if escaped c then SRef c :: runs v else
      match runs v with
      | SText t :: rest => SText (c :: t) :: rest
      | rest => SText [c] :: rest
      end
  end.
Fixpoint show (ns : rstr) (n : node) : list shown :=
  match n with
  | Elem name xmlns kids =>
      let inner := match xmlns with Some ns' => ns' | None => ns end in
      SStart inner name xmlns :: (kids ≫= show inner) ++ [SEnd inner name]
  | Chars v => runs v
  | CommandMark => [SCommand]
  | ItemMark => [SItem]
  | CheckMark v max empty => [SCheck v max empty]
  end.
Definition show_all (ns : rstr) (ns' : list node) : list shown := ns' ≫= show ns.
Definition token_of (x : shown) : option Token :=
  match x with
  | SStart ns name _ => Some (TStart (mk_Start ns name []))
  | SEnd ns name => Some (TEnd ns name)
  | SText v => Some (TText v)
  | SRef c => Some (TText [c])
  | SCommand | SItem | SCheck _ _ _ => None
  end.
Definition tokens (xs : list shown) : list Token := omap token_of xs.
Definition visible (xs : list shown) : list shown := List.filter (fun x => given (token_of x)) xs.
Definition command_marks (xs : list shown) : Z :=
  zlen (List.filter (fun x => match x with SCommand => true | _ => false end) xs).
Definition item_marks (xs : list shown) : Z :=
  zlen (List.filter (fun x => match x with SItem => true | _ => false end) xs).

Section Documents.
Context `{QX : QuickXml} (l : CodecLimits).

(** The bytes written for a node. *)
Fixpoint render (n : node) : bytes :=
  match n with
  | Elem name xmlns kids => write_start name (declared xmlns) ++ (kids ≫= render) ++ write_end name
  | Chars v => if is_empty v then [] else write_text v
  | CommandMark | ItemMark | CheckMark _ _ _ => []
  end.
Definition render_all (ns : list node) : bytes := ns ≫= render.

(** What an event costs, with the checks that both sides make of it. *)
Definition pay (b : Budget) (x : shown) : xres Budget :=
  match x with
  | SStart _ name xmlns =>
      b ← Budget_event l b;
      b ← Budget_start l b (zlen (declared xmlns));
      _ ← qname name;
      _ ← match xmlns with
          | Some v =>
              _ ← reject (bool_decide (v = lit "http://www.w3.org/2000/xmlns/") || bool_decide (v = XML)) WrongNamespace;
              text v (l_field_bytes l) true
          | None => Ok ()
          end;
      Ok b
  | SEnd _ _ => b ← Budget_event l b; Budget_end Structure b
  | SText _ => Budget_event l b
  | SRef c => _ ← reject ((b_depth b =? 0) || negb (escaped c)) MalformedXml; Budget_event l b
  | SCheck v max empty => _ ← text v max empty; Ok b
  | SCommand | SItem => Ok b
  end.
Definition pay_all (xs : list shown) (b : Budget) : xres Budget := res_for pay xs b.

(** What a reader of the document reports, event by event. *)
Definition matches (x : shown) (e : Event) : Prop :=
  match x, e with
  | SStart ns name xmlns, EvStart n el attrs =>
      n = name /\ rs_local el = name /\
      (exists raw, rs_namespace el = Bound raw /\ normalized_value raw = inr ns) /\
      match xmlns with
      | None => attrs = []
      | Some v => exists a, attrs = [Some a] /\ ra_key a = lit "xmlns" /\ normalized_value (ra_value a) = inr v
      end
  | SEnd ns name, EvEnd el =>
      rs_local el = name /\ exists raw, rs_namespace el = Bound raw /\ normalized_value raw = inr ns
  | SText v, EvText t => t = v
  | SRef c, EvGeneralRef name r => r = inr (Some c) \/ (r = inr None /\ entity name = Ok [c])
  | _, _ => False
  end.
Definition reads_back (doc : bytes) (xs : list shown) : Prop :=
  (forall k x, visible xs !! k = Some x ->
    exists e, read_event (l_namespace_bindings l) doc k = inr e /\ matches x e) /\
  read_event (l_namespace_bindings l) doc (length (visible xs)) = inr EvEof.

(** ** Reading one event *)
Lemma Budget_event_ok b b' : Budget_event l b = Ok b' -> b_depth b' = b_depth b /\ b_attrs b' = b_attrs b.
Proof. unfold Budget_event. intros H. apply bind_ok in H as (? & _ & H). by apply bind_ok in H as (? & _ & [= <-]). Qed.
Lemma escaped_legal c : escaped c = true -> legal_char c = true.
Proof.
  unfold escaped. intros H. repeat (apply orb_true_iff in H as [H|H]); apply Z.eqb_eq in H as ->; done.
Qed.
Lemma from_xml_ok {A} (r : XmlError + A) a : r = inr a -> from_xml r = Ok a.
Proof. by intros ->. Qed.
Lemma xmlns_attr base v a : ra_key a = lit "xmlns" -> normalized_value (ra_value a) = inr v ->
  reject (bool_decide (v = lit "http://www.w3.org/2000/xmlns/") || bool_decide (v = XML)) WrongNamespace = Ok () ->
  text v (l_field_bytes l) true = Ok () -> 1 <= l_attributes_per_element l ->
  (exists n, checked (base + 1) = Ok n /\ n <= l_attributes l) ->
  res_for (read_attr l base) [Some a] (0, [], []) = Ok (1, [], []).
Proof.
  intros Hk Hv Hr Ht Hone (n & Hn & Hnl). apply reject_ok, orb_false_iff in Hr as [Hr1 Hr2].
  cbn [res_for]. unfold read_attr. simpl ok_or. cbn [mbind res_bind]. rewrite Hk.
  change (qname (lit "xmlns")) with (Ok (E:=CodecError) ()). cbn [mbind res_bind].
  change (0 + 1) with 1. unfold bound, reject. rewrite (proj2 (Z.ltb_ge _ _)) by lia. cbn [mbind res_bind].
  rewrite Hn. cbn [mbind res_bind]. rewrite (proj2 (Z.ltb_ge _ _)) by lia. cbn [mbind res_bind].
  rewrite (from_xml_ok _ _ Hv). cbn [mbind res_bind]. rewrite Ht. cbn [mbind res_bind].
  change (is_xmlns (lit "xmlns")) with true. cbv iota. rewrite Hr1, Hr2. simpl. done.
Qed.
Lemma checked_le z n m : checked z = Ok n -> bound n m = Ok () -> n = z /\ n <= m.
Proof.
  unfold checked, checked_u64, bound, reject. destruct (is_u64 z); simpl; [|done]. intros [= <-].
  destruct (m <? z) eqn:E; [done|]. split; [done|lia].
Qed.
Lemma Budget_start_room b n b' : Budget_start l b n = Ok b' ->
  n <= l_attributes_per_element l /\ exists m, checked (b_attrs b + n) = Ok m /\ m <= l_attributes l.
Proof.
  unfold Budget_start. intros H. do 2 (apply bind_ok in H as (? & _ & H)). apply bind_ok in H as (m & Hm & H).
  do 2 (apply bind_ok in H as (? & _ & H)). apply bind_ok in H as ([] & Hn%reject_ok & H).
  apply bind_ok in H as ([] & Hl%reject_ok & _). split; [lia|]. exists m. split; [done|lia].
Qed.
(** An event that was paid for is read as its token. *)
Lemma read_event_spec doc k b b' x t e st de :
  read_event (l_namespace_bindings l) doc k = inr e -> matches x e -> token_of x = Some t -> pay b x = Ok b' ->
  exists st', forall c i,
    read l (mk_Input doc k None b st de c i) = Ok (t, mk_Input doc (S k) None b' st' de c i).
Proof.
  intros He Hm Ht Hp. unfold read. cbn [in_look]. unfold event_fuel. cbn [read_loop].
  unfold mbind, reader_bind, charge, next_event. cbn [in_budget].
  destruct x as [ns name xmlns|ns name|v|ch| | |]; try discriminate Ht; injection Ht as <-.
  - cbn [pay] in Hp. apply bind_ok in Hp as (b1 & H1 & Hp). apply bind_ok in Hp as (b2 & H2 & Hp).
    apply bind_ok in Hp as ([] & Hq & Hp). apply bind_ok in Hp as ([] & Hx & [= <-]).
    destruct e as [n el attrs| | | | | | | | | |]; try done. destruct Hm as (-> & Hloc & (raw & Hraw & Hns) & Hattrs).
    exists true. intros c i. rewrite H1. cbn. rewrite He. cbn.
    unfold lift. rewrite Hq, Hraw. cbn. rewrite (from_xml_ok _ _ Hns). cbn.
    destruct xmlns as [v|].
    + destruct Hattrs as (a & -> & Hk & Hv). apply bind_ok in Hx as ([] & Hr & Hx).
      destruct (Budget_start_room _ _ _ H2) as (Hn & Hroom).
      pose proof (xmlns_attr (b_attrs b1) v a Hk Hv Hr Hx Hn Hroom) as Hres. cbn [res_for] in Hres. 
      unfold get_attrs. cbn. cbn in Hres. rewrite Hres. cbn. change (zlen (declared (Some v))) with 1 in H2. rewrite H2. cbn. by rewrite Hloc.
    + subst attrs. cbn. change (zlen (declared None)) with 0 in H2. rewrite H2. cbn. by rewrite Hloc.
  - cbn [pay] in Hp. apply bind_ok in Hp as (b1 & H1 & Hp).
    destruct e as [|el| | | | | | | | |]; try done. destruct Hm as (Hloc & raw & Hraw & Hns).
    exists st. intros c i. rewrite H1. cbn. rewrite He. cbn.
    unfold Budget_end in Hp |- *. destruct (b_depth b1 =? 0); [done|]. injection Hp as <-. cbn.
    unfold lift. rewrite Hraw. cbn. rewrite (from_xml_ok _ _ Hns). cbn. by rewrite Hloc.
  - destruct e as [| |t| | | | | | | |]; try done. simpl in Hm. subst t. cbn [pay] in Hp.
    exists (if b_depth b' =? 0 then true else st). intros c i. rewrite Hp. cbn. rewrite He. cbn.
    by destruct (b_depth b' =? 0).
  - cbn [pay] in Hp. apply bind_ok in Hp as ([] & Hz%reject_ok & Hp). apply orb_false_iff in Hz as [Hz Hesc%negb_false_iff].
    pose proof (Budget_event_ok _ _ Hp) as [Hdep _].
    destruct e as [| | | |name r| | | | | |]; try done. exists st. intros c i. rewrite Hp. cbn. rewrite He. cbn.
    rewrite Hdep, Hz. cbn. destruct Hm as [->|[-> Hent]]; cbn.
    + by rewrite (escaped_legal _ Hesc).
    + unfold lift. by rewrite Hent.
Qed.
End Documents.

(** ** Reading a shown document

    [stream s xs]: reading from [s] yields the tokens of [xs], the counters have room for its
    marks and its texts were checked. [reads P m xs a]: on a stream that begins with [xs] and
    goes on with something that satisfies [P], the reader [m] returns [a] and leaves the rest,
    unless its loops are out of fuel. *)
Section Stream.
Context `{QX : QuickXml} (l : CodecLimits).

Definition with_counts (c i : Z) (s : Input) : Input :=
  mk_Input (in_bytes s) (in_position s) (in_look s) (in_budget s) (in_started s) (in_declaration s) c i.
(** Reading does not depend on the counters of commands and items. *)
Fixpoint yields (s : Input) (ts : list Token) : Prop :=
  match ts with
  | [] => True
  | t :: ts => exists s', (forall c i, read l (with_counts c i s) = Ok (t, with_counts c i s')) /\
      in_look s' = None /\ (t = TEof -> b_depth (in_budget s') = 0) /\ yields s' ts
  end.
Definition checked_text (x : shown) : Prop :=
  match x with SCheck v max empty => text v max empty = Ok () | _ => True end.
(** What follows the shown events: the end of the document. *)
Record stream (s : Input) (xs : list shown) : Prop := {
  st_yields : yields s (tokens xs ++ [TEof]);
  st_commands : in_commands s + command_marks xs <= l_commands l;
  st_items : in_items s + item_marks xs <= l_items l;
  st_checked : Forall checked_text xs
}.

Lemma with_counts_same s : with_counts (in_commands s) (in_items s) s = s.
Proof. by destruct s. Qed.
Lemma with_counts_twice c i c' i' s : with_counts c i (with_counts c' i' s) = with_counts c i s.
Proof. done. Qed.
Lemma yields_counts c i s ts : yields s ts -> yields (with_counts c i s) ts.
Proof. destruct ts as [|t ts]; [done|]. intros (s' & H & ?). exists s'. split; [|done]. intros c' i'. apply H. Qed.
Lemma yields_read s t ts : yields s (t :: ts) ->
  exists s', read l s = Ok (t, s') /\ in_look s' = None /\ (t = TEof -> b_depth (in_budget s') = 0) /\
    in_commands s' = in_commands s /\ in_items s' = in_items s /\ yields s' ts.
Proof.
  intros (s' & H & Hl & Hd & Hy). exists (with_counts (in_commands s) (in_items s) s').
  rewrite <-(H (in_commands s) (in_items s)), with_counts_same. split_and!; try done. by apply yields_counts.
Qed.
Lemma yields_look s t ts : in_look s = None -> (t = TEof -> b_depth (in_budget s) = 0) -> yields s ts ->
  yields (set_look (Some t) s) (t :: ts).
Proof. intros Hl Hd Hy. exists s. split_and!; try done. intros c i. destruct s. simpl in *. by subst. Qed.

(** ** Counting marks *)
Lemma command_marks_app xs ys : command_marks (xs ++ ys) = command_marks xs + command_marks ys.
Proof. unfold command_marks. by rewrite List.filter_app, zlen_app. Qed.
Lemma item_marks_app xs ys : item_marks (xs ++ ys) = item_marks xs + item_marks ys.
Proof. unfold item_marks. by rewrite List.filter_app, zlen_app. Qed.
Lemma tokens_app xs ys : tokens (xs ++ ys) = tokens xs ++ tokens ys.
Proof. apply omap_app. Qed.
Lemma marks_cons x xs : command_marks (x :: xs) = command_marks [x] + command_marks xs /\
  item_marks (x :: xs) = item_marks [x] + item_marks xs.
Proof. split; [apply (command_marks_app [x])|apply (item_marks_app [x])]. Qed.
Lemma marks_nonneg xs : 0 <= command_marks xs /\ 0 <= item_marks xs.
Proof. split; apply zlen_nonneg. Qed.

(** A visible event is read and leaves the stream. *)
Lemma stream_read s x xs t : token_of x = Some t -> stream s (x :: xs) ->
  exists s', read l s = Ok (t, s') /\ in_look s' = None /\ stream s' xs.
Proof.
  intros Ht [Hy Hc Hi Hf]. unfold tokens in Hy. cbn [omap list_omap] in Hy. rewrite Ht in Hy.
  destruct (yields_read _ _ _ Hy) as (s' & Hr & Hl & _ & Hcs & His & Hy'). exists s'. split_and!; [done..|].
  assert (command_marks [x] = 0 /\ item_marks [x] = 0) as [Hm1 Hm2] by (by destruct x).
  rewrite (proj1 (marks_cons x xs)) in Hc. rewrite (proj2 (marks_cons x xs)) in Hi.
  split; [done|lia|lia|by inversion Hf].
Qed.
(** A mark that is not counted by the reader is passed over. *)
Lemma stream_skip s x xs : token_of x = None -> stream s (x :: xs) -> stream s xs.
Proof.
  intros Ht [Hy Hc Hi Hf]. unfold tokens in Hy. cbn [omap list_omap] in Hy. rewrite Ht in Hy.
  rewrite (proj1 (marks_cons x xs)) in Hc. rewrite (proj2 (marks_cons x xs)) in Hi.
  pose proof (marks_nonneg [x]). split; [done|lia|lia|by inversion Hf].
Qed.
Lemma stream_check s v max empty xs : stream s (SCheck v max empty :: xs) -> text v max empty = Ok () /\ stream s xs.
Proof. intros H. split; [by destruct H as [_ _ _ H]; inversion H|]. by apply (stream_skip s (SCheck v max empty)). Qed.

(** ** What comes next *)
Definition is_text (t : Token) : bool := match t with TText _ => true | _ => false end.
Definition next (xs : list shown) : Token := hd TEof (tokens xs).
(** The next token is no text, and the start of none of these elements. *)
Definition clear (names : list (rstr * rstr)) (xs : list shown) : Prop :=
  is_text (next xs) = false /\ Forall (fun n => named n.1 n.2 (next xs) = false) names.

(** ** Readers *)
Definition reads {E A} (P : list shown -> Prop) (m : reader E A) (xs : list shown) (a : A) : Prop :=
  forall s rest, P rest -> stream s (xs ++ rest) ->
  m s = Panic \/ exists s', m s = Ok (a, s') /\ stream s' rest.
Definition anything (xs : list shown) : Prop := True.

Lemma reads_weaken {E A} (P Q : list shown -> Prop) (m : reader E A) xs a :
  (forall rest, Q rest -> P rest) -> reads P m xs a -> reads Q m xs a.
Proof. intros Hpq Hm s rest Hq. apply Hm. by apply Hpq. Qed.
Lemma reads_ret {E A} P (a : A) : reads P (mret a : reader E A) [] a.
Proof. intros s rest _ Hs. right. by exists s. Qed.
Lemma reads_lift {E A} P (r : res E A) a : r = Ok a -> reads P (lift r) [] a.
Proof. intros -> s rest _ Hs. right. by exists s. Qed.
Lemma reads_bind {E A B} P Q (m : reader E A) (k : A -> reader E B) xs ys a b :
  reads P m xs a -> reads Q (k a) ys b -> (forall rest, Q rest -> P (ys ++ rest)) -> reads Q (m ≫= k) (xs ++ ys) b.
Proof.
  intros Hm Hk Hpq s rest Hr Hs. rewrite <-app_assoc in Hs. unfold mbind, reader_bind.
  destruct (Hm s (ys ++ rest) (Hpq rest Hr) Hs) as [->|(s' & -> & Hs')]; [by left|]. by apply Hk.
Qed.
(** The second reader takes nothing. *)
Lemma reads_then {E A B} P Q (m : reader E A) (k : A -> reader E B) xs a b :
  reads P m xs a -> reads Q (k a) [] b -> (forall rest, Q rest -> P rest) -> reads Q (m ≫= k) xs b.
Proof. intros Hm Hk Hpq. rewrite <-(app_nil_r xs). by eapply reads_bind. Qed.
(** The first reader takes nothing. *)
Lemma reads_first {E A B} P Q (m : reader E A) (k : A -> reader E B) ys a b :
  reads P m [] a -> reads Q (k a) ys b -> (forall rest, Q rest -> P (ys ++ rest)) -> reads Q (m ≫= k) ys b.
Proof. intros Hm Hk Hpq. by apply (reads_bind P Q m k [] ys a b). Qed.
Lemma reads_pure {E A B} Q (r : res E A) (k : A -> reader E B) ys a b :
  r = Ok a -> reads Q (k a) ys b -> reads Q (lift r ≫= k) ys b.
Proof. intros Hr Hk. by eapply (reads_first (fun _ => True)); [apply reads_lift|..]. Qed.
Lemma reads_skip {E A} P (m : reader E A) x xs a : token_of x = None -> reads P m xs a -> reads P m (x :: xs) a.
Proof. intros Hx Hm s rest Hr Hs. apply Hm; [done|]. by apply (stream_skip s x). Qed.
(** A check made by the writer can be used by the reader. *)
Lemma reads_check {E A} P (m : reader E A) v max empty xs a :
  (text v max empty = Ok () -> reads P m xs a) -> reads P m (SCheck v max empty :: xs) a.
Proof. intros Hm s rest Hr Hs. apply stream_check in Hs as [Ht Hs]. by apply Hm. Qed.

(** ** The primitive readers *)
Lemma significant_spec s x xs t : token_of x = Some t -> is_text t = false -> stream s (x :: xs) ->
  exists s', significant l s = Ok (t, s') /\ in_look s' = None /\ stream s' xs.
Proof.
  intros Ht Hn Hs. destruct (stream_read s x xs t Ht Hs) as (s' & Hr & Hl & Hs'). exists s'.
  split_and!; [|done..]. unfold significant, event_fuel. cbn [significant_loop]. unfold mbind, reader_bind. rewrite Hr.
  by destruct t.
Qed.
Lemma is_spec s ns name xs : is_text (next xs) = false -> stream s xs ->
  exists s', is_ l ns name s = Ok (named ns name (next xs), s') /\ stream s' xs.
Proof.
  intros Hn [Hy Hc Hi Hf].
  assert (tokens xs ++ [TEof] = next xs :: tail (tokens xs ++ [TEof])) as Et.
  { unfold next. by destruct (tokens xs). }
  rewrite Et in Hy. destruct (yields_read _ _ _ Hy) as (s' & Hr & Hl & Hd & Hcs & His & Hy').
  exists (set_look (Some (next xs)) s'). split.
  - unfold is_, significant, event_fuel. cbn [significant_loop]. unfold mbind, reader_bind. rewrite Hr.
    by destruct (next xs).
  - split; [|simpl; lia|simpl; lia|done]. rewrite Et. by apply yields_look.
Qed.
Lemma reads_is ns name b : reads (fun rest => is_text (next rest) = false /\ named ns name (next rest) = b) (is_ l ns name) [] b.
Proof.
  intros s rest [Ht <-] Hs. right. by apply is_spec.
Qed.
Lemma reads_is_not ns name : reads (clear [(ns, name)]) (is_ l ns name) [] false.
Proof.
  eapply reads_weaken; [|apply reads_is]. intros rest [Ht Hf]. inversion Hf. done.
Qed.
(** Looking at what comes next. *)
Lemma is_seen {B} Q (ns name : rstr) (k : bool -> xread B) xs b t v :
  (forall rest, next (xs ++ rest) = t) -> is_text t = false -> named ns name t = v ->
  reads Q (k v) xs b -> reads Q (is_ l ns name ≫= k) xs b.
Proof.
  intros Hn Ht Hv Hk s rest Hr Hs. unfold mbind, reader_bind. specialize (Hn rest).
  destruct (is_spec s ns name (xs ++ rest)) as (s' & -> & Hs'); [by rewrite Hn|done|]. rewrite Hn, Hv. by apply Hk.
Qed.
(** Looking at an element that is there. *)
Lemma is_there {B} Q (ns name : rstr) (k : bool -> xread B) xs b :
  (forall rest, next (xs ++ rest) = TStart (mk_Start ns name [])) ->
  reads Q (k true) xs b -> reads Q (is_ l ns name ≫= k) xs b.
Proof. intros Hn. eapply is_seen; [exact Hn|done|]. simpl. by rewrite !bool_decide_eq_true_2. Qed.
(** Looking at an element of another name. *)
Lemma is_other {B} Q (ns name ns' name' : rstr) (k : bool -> xread B) xs b :
  (forall rest, next (xs ++ rest) = TStart (mk_Start ns name [])) ->
  named ns' name' (TStart (mk_Start ns name [])) = false ->
  reads Q (k false) xs b -> reads Q (is_ l ns' name' ≫= k) xs b.
Proof. intros Hn. by eapply is_seen. Qed.
Lemma reads_start ns name xmlns : reads anything (start l ns name) [SStart ns name xmlns] (mk_Start ns name []).
Proof.
  intros s rest _ Hs. right.
  destruct (significant_spec s (SStart ns name xmlns) rest _ eq_refl eq_refl Hs) as (s' & Hr & _ & Hs'). exists s'.
  unfold start, mbind, reader_bind. rewrite Hr. simpl. by rewrite !bool_decide_eq_true_2.
Qed.
Lemma reads_open ns name xmlns : reads anything (open l ns name) [SStart ns name xmlns] ().
Proof. unfold open. eapply reads_then; [apply reads_start|by apply reads_lift|done]. Qed.
Lemma reads_end ns name : reads anything (end_ l ns name) [SEnd ns name] ().
Proof.
  intros s rest _ Hs. right.
  destruct (significant_spec s (SEnd ns name) rest _ eq_refl eq_refl Hs) as (s' & Hr & _ & Hs'). exists s'.
  unfold end_, mbind, reader_bind. rewrite Hr. unfold lift, reject. simpl. by rewrite !bool_decide_eq_true_2.
Qed.
Lemma reads_command : reads anything (command l) [SCommand] ().
Proof.
  intros s rest _ Hs. right. cbn [app] in Hs. pose proof Hs as [_ Hc _ _]. rewrite (proj1 (marks_cons _ _)) in Hc.
  change (command_marks [SCommand]) with 1 in Hc. pose proof (marks_nonneg rest).
  unfold command, bound, reject. rewrite (proj2 (Z.ltb_ge _ _)) by lia. simpl. eexists. split; [done|].
  apply (stream_skip _ SCommand) in Hs as [Hy _ Hi Hf]; [|done]. split; [|simpl; lia|done|done].
  by apply (yields_counts (in_commands s + 1) (in_items s)) in Hy.
Qed.
Lemma reads_item : reads anything (item l) [SItem] ().
Proof.
  intros s rest _ Hs. right. cbn [app] in Hs. pose proof Hs as [_ _ Hi _]. rewrite (proj2 (marks_cons _ _)) in Hi.
  change (item_marks [SItem]) with 1 in Hi. pose proof (marks_nonneg rest).
  unfold item, bound, reject. rewrite (proj2 (Z.ltb_ge _ _)) by lia. simpl. eexists. split; [done|].
  apply (stream_skip _ SItem) in Hs as [Hy Hc _ Hf]; [|done]. split; [|done|simpl; lia|done].
  by apply (yields_counts (in_commands s) (in_items s + 1)) in Hy.
Qed.
Lemma reads_finish s : stream s [] -> exists s', finish l s = Ok ((), s').
Proof.
  intros [Hy _ _ _]. destruct (yields_read _ _ _ Hy) as (s' & Hr & _ & Hd & _). exists s'.
  unfold finish, significant, event_fuel. cbn [significant_loop]. unfold mbind, reader_bind. rewrite Hr. simpl.
  unfold get_depth, lift. by rewrite (Hd eq_refl).
Qed.

(** *** Text *)
Lemma bind_run {E A B} (m : reader E A) (k : A -> reader E B) s a s' : m s = Ok (a, s') -> (m ≫= k) s = k a s'.
Proof. unfold mbind, reader_bind. by intros ->. Qed.
Lemma bind_lift {E A B} (r : res E A) (k : A -> reader E B) s a : r = Ok a -> (lift r ≫= k) s = k a s.
Proof. intros ->. by apply bind_run. Qed.
Lemma runs_tokens v : exists ts, tokens (runs v) = map TText ts /\ concat ts = v /\ Forall (fun x => token_of x <> None) (runs v).
Proof.
  induction v as [|c v (ts & Ht & Hv & Hf)]; [by exists []|]. cbn [runs]. destruct (escaped c).
  - exists ([c] :: ts). unfold tokens in *. cbn [omap list_omap token_of]. rewrite Ht. simpl. rewrite Hv. split_and!; [done..|by constructor].
  - destruct (runs v) as [|x rest] eqn:E.
    + exists [[c]]. destruct ts; [|done]. simpl in Hv. subst. split_and!; [done..|by repeat constructor].
    + destruct x as [| |t|ch| | |]; try (exists ([c] :: ts); unfold tokens in *; cbn [omap list_omap token_of] in *; rewrite Ht;
        simpl; rewrite Hv; split_and!; [done..|by constructor]).
      unfold tokens in *. cbn [omap list_omap token_of] in *. destruct ts as [|t' ts]; [done|]. injection Ht as <- Ht.
      exists ((c :: t) :: ts). simpl in *. rewrite Ht, <-Hv. split_and!; [done..|]. inversion Hf. by constructor.
Qed.
Lemma checked_small z max : 0 <= z <= max -> max <= u64_max -> checked z = Ok z.
Proof. intros Hz Hm. unfold checked, checked_u64. rewrite (proj2 (is_u64_spec z)) by (unfold in_u64; lia). done. Qed.
Lemma text_len v max empty : text v max empty = Ok () -> str_len v <= max.
Proof. unfold text. intros H. apply bind_ok in H as ([] & H%reject_ok & _). lia. Qed.
Lemma content_loop_reads ns name max empty fuel xs ts acc : max <= u64_max ->
  tokens xs = map TText ts -> Forall (fun x => token_of x <> None) xs -> text (acc ++ concat ts) max empty = Ok () ->
  reads anything (content_loop l ns name max empty fuel acc) (xs ++ [SEnd ns name]) (acc ++ concat ts).
Proof.
  intros Hmax. revert xs ts acc. induction fuel as [|fuel IH]; intros xs ts acc Ht Hf Hx s rest _ Hs; [by left|].
  cbn [content_loop]. destruct xs as [|x xs].
  - destruct ts; [|done]. rewrite app_nil_r in *. simpl in Hs.
    destruct (stream_read s (SEnd ns name) rest (TEnd ns name) eq_refl Hs) as (s' & Hr & _ & Hs'). right. exists s'.
    unfold mbind, reader_bind. rewrite Hr. rewrite !bool_decide_eq_true_2 by done. simpl. unfold lift. by rewrite Hx.
  - inversion Hf as [|? ? Hvis Hf']. subst. destruct (token_of x) as [t|] eqn:Ex; [|done].
    unfold tokens in Ht. cbn [omap list_omap] in Ht. rewrite Ex in Ht. destruct ts as [|t0 ts]; [done|]. injection Ht as -> Ht.
    destruct (stream_read s x (xs ++ [SEnd ns name] ++ rest) _ Ex) as (s' & Hr & _ & Hs').
    { rewrite <-app_assoc in Hs. exact Hs. }
    simpl concat in Hx |- *. rewrite app_assoc in Hx |- *.
    pose proof (text_len _ _ _ Hx) as Hlen. rewrite !str_len_app in Hlen. pose proof (str_len_nonneg (concat ts)).
    pose proof (str_len_nonneg acc). pose proof (str_len_nonneg t0).
    assert ((n ← checked (str_len acc + str_len t0); bound n max) = Ok ()) as Hok.
    { rewrite (checked_small _ max) by lia. simpl. unfold bound, reject. by rewrite (proj2 (Z.ltb_ge _ _)) by lia. }
    rewrite (bind_run _ _ _ _ _ Hr), (bind_lift _ _ _ _ Hok). rewrite app_assoc in Hs'.
    by apply (IH xs ts (acc ++ t0) Ht Hf' Hx s' rest I).
Qed.
Lemma reads_content ns name v max empty : max <= u64_max -> text v max empty = Ok () ->
  reads anything (content l ns name max empty) (runs v ++ [SEnd ns name]) v.
Proof.
  intros Hmax Hx. destruct (runs_tokens v) as (ts & Ht & <- & Hf). unfold content.
  by apply (content_loop_reads ns name max empty (event_fuel l) _ ts []).
Qed.
Lemma show_text ns v max : show_all ns (text_nodes v max) = SCheck v max true :: runs v.
Proof. unfold show_all, text_nodes. cbn [mbind list_bind show app]. by rewrite app_nil_r. Qed.
(** An element with checked text: the reader may ask for more than the writer did. *)
Lemma reads_text_element ns ns' name xmlns v max empty : max <= u64_max -> ns = match xmlns with Some n => n | None => ns' end ->
  (text v max true = Ok () -> text v max empty = Ok ()) ->
  reads anything (scalar l ns name max empty) (show_all ns' [Elem name xmlns (text_nodes v max)]) v.
Proof.
  intros Hmax Hns Hx. unfold show_all. cbn [mbind list_bind show]. rewrite app_nil_r, <-Hns.
  change (list_bind _ _ _ (text_nodes v max)) with (show_all ns (text_nodes v max)).
  change (text_nodes v max ≫= show ns) with (show_all ns (text_nodes v max)). rewrite show_text.
  unfold scalar. eapply (reads_bind anything anything _ _ [SStart ns name xmlns]); [apply reads_open| |done].
  apply reads_check. intros Ht. by apply reads_content; [|apply Hx].
Qed.
(** A scalar the writer checked. *)
Lemma reads_scalar ns name v max empty : max <= u64_max ->
  reads anything (scalar l ns name max empty) (show_all ns (scalar_nodes name v max empty)) v.
Proof.
  intros Hmax. unfold scalar_nodes. change (show_all ns (?a :: ?b)) with (show ns a ++ show_all ns b). cbn [show app].
  apply reads_check. intros Hx. by apply reads_text_element.
Qed.
End Stream.
