(* ===== verification/XmlWrite.v ===== *)
(** * Bounded XML: what the writers write

    [emits d f nodes]: the writer [f], at depth [d] or more, writes the bytes of [nodes], spends
    what a reader of them pays, and counts their marks within the limits. *)
From S2P Require Import Prelude Ordered Text External Xml XmlTree XmlTotal.
#[local] Open Scope xml_scope.

(** ** The start of a document *)
Section Start.
Context `{QX : QuickXml} (l : CodecLimits).

Lemma pay_visible xs b b' : pay_all l xs b = Ok b' -> pay_all l (visible xs) b = Ok b'.
Proof.
  revert b. induction xs as [|x xs IH]; intros b H; [done|]. unfold pay_all in *. cbn [res_for] in H.
  apply bind_ok in H as (b1 & H1 & H). unfold visible. cbn [List.filter]. fold (visible xs).
  destruct (given (token_of x)) eqn:E; [cbn [res_for]; rewrite H1; by apply IH|].
  apply IH. destruct x; try discriminate E; simpl in H1; try (by injection H1 as <-).
  apply bind_ok in H1 as (? & _ & H1). by injection H1 as <-.
Qed.
Lemma tokens_visible xs : tokens (visible xs) = tokens xs.
Proof.
  unfold tokens, visible. induction xs as [|x xs IH]; [done|]. cbn [List.filter].
  destruct (token_of x) as [t|] eqn:E; cbn [given omap list_omap]; rewrite ?E; [|done]. by f_equal.
Qed.
Lemma yields_events doc ys k b b' b2 st de c i :
  (forall j x, ys !! j = Some x -> given (token_of x) = true /\
     exists e, read_event (l_namespace_bindings l) doc (k + j) = inr e /\ matches x e) ->
  read_event (l_namespace_bindings l) doc (k + length ys) = inr EvEof ->
  pay_all l ys b = Ok b' -> b_depth b' = 0 -> Budget_event l b' = Ok b2 ->
  yields l (mk_Input doc k None b st de c i) (tokens ys ++ [TEof]).
Proof.
  intros Hev Heof Hp Hd He. revert k b st Hev Heof Hp. induction ys as [|y ys IH]; intros k b st Hev Heof Hp.
  - injection Hp as ->. exists (mk_Input doc (S k) None b2 st de c i). split_and!; try done.
    + intros c' i'. unfold read. cbn [in_look with_counts]. unfold event_fuel. cbn [read_loop].
      unfold mbind, reader_bind, charge, next_event. cbn. rewrite He. cbn. simpl in Heof. rewrite Nat.add_0_r in Heof.
      by rewrite Heof.
    + intros _. simpl. destruct (Budget_event_ok _ _ _ He) as [-> _]. done.
  - unfold pay_all in Hp. cbn [res_for] in Hp. apply bind_ok in Hp as (b1 & Hy & Hp).
    destruct (Hev 0%nat y eq_refl) as (Ht & e & Hre & Hm). destruct (token_of y) as [t|] eqn:Et; [|done].
    rewrite Nat.add_0_r in Hre.
    destruct (read_event_spec l doc k b b1 y t e st de Hre Hm Et Hy) as (st' & Hread).
    unfold tokens. cbn [omap list_omap]. rewrite Et. cbn [app yields].
    exists (mk_Input doc (S k) None b1 st' de c i). split_and!; try done.
    + intros ->. destruct y; discriminate Et.
    + apply (IH (S k) b1 st'); [|by rewrite Nat.add_succ_comm|done].
      intros j x Hj. rewrite Nat.add_succ_comm. by apply (Hev (S j)).
Qed.
(** A document that reads back as events that were paid for. *)
Lemma stream_start doc max s xs b' b2 : Input_new doc max = Ok s -> reads_back l doc xs ->
  pay_all l xs Budget_new = Ok b' -> b_depth b' = 0 -> Budget_event l b' = Ok b2 ->
  command_marks xs <= l_commands l -> item_marks xs <= l_items l -> stream l s xs.
Proof.
  intros Hs [Hev Heof] Hp Hd He Hc Hi. unfold Input_new in Hs. apply bind_ok in Hs as (? & _ & Hs).
  do 2 (apply bind_ok in Hs as (? & _ & Hs)). injection Hs as <-. split; [|done..|].
  - rewrite <-tokens_visible. eapply yields_events; [|exact Heof|by apply pay_visible|done|done].
    intros j y Hj. split; [|by apply Hev]. apply list_elem_of_lookup_2, list_elem_of_In, List.filter_In in Hj as [_ ?]. done.
  - clear - Hp. revert Hp. generalize Budget_new as b. induction xs as [|x xs IH]; intros b Hp; [constructor|].
    unfold pay_all in Hp. cbn [res_for] in Hp. apply bind_ok in Hp as (b1 & H1 & Hp). constructor; [|by apply (IH b1)].
    destruct x; try done. simpl in *. by apply bind_ok in H1 as ([] & ? & _).
Qed.
End Start.

(** ** Writers *)
Section Emits.
Context `{QX : QuickXml} (l : CodecLimits).

Record emitted (ns : rstr) (nodes : list node) (w w' : Output) : Prop := {
  em_bytes : out_bytes w' = out_bytes w ++ render_all nodes;
  em_pay : pay_all l (show_all ns nodes) (out_budget w) = Ok (out_budget w');
  em_depth : b_depth (out_budget w') = b_depth (out_budget w);
  em_commands : out_commands w' = out_commands w + command_marks (show_all ns nodes);
  em_items : out_items w' = out_items w + item_marks (show_all ns nodes);
  em_command_limit : command_marks (show_all ns nodes) = 0 \/ out_commands w' <= l_commands l;
  em_item_limit : item_marks (show_all ns nodes) = 0 \/ out_items w' <= l_items l
}.
Definition emits (d : Z) (f : xwrite) (nodes : list node) : Prop := forall ns w w',
  d <= b_depth (out_budget w) -> f w = Ok w' -> emitted ns nodes w w'.

Lemma pay_app xs ys b b1 b2 : pay_all l xs b = Ok b1 -> pay_all l ys b1 = Ok b2 -> pay_all l (xs ++ ys) b = Ok b2.
Proof. unfold pay_all. intros Hx Hy. rewrite res_for_app, Hx. done. Qed.
Lemma show_all_app ns xs ys : show_all ns (xs ++ ys) = show_all ns xs ++ show_all ns ys.
Proof. apply bind_app. Qed.
Lemma emits_weaken d d' f nodes : d <= d' -> emits d f nodes -> emits d' f nodes.
Proof. intros Hd Hf ns w w' Hw. apply Hf. lia. Qed.
Lemma emits_then d f g xs ys : emits d f xs -> emits d g ys -> emits d (f;; g) (xs ++ ys).
Proof.
  intros Hf Hg ns w w' Hw H. unfold then_write in H. destruct (f w) as [w1| |] eqn:E; try done.
  destruct (Hf ns w w1 Hw E) as [B1 P1 D1 C1 I1 CL1 IL1]. destruct (Hg ns w1 w') as [B2 P2 D2 C2 I2 CL2 IL2]; [lia|done|].
  pose proof (marks_nonneg (show_all ns xs)). pose proof (marks_nonneg (show_all ns ys)).
  split.
  - rewrite B2, B1. unfold render_all. by rewrite bind_app, app_assoc.
  - rewrite show_all_app. by eapply pay_app.
  - lia.
  - rewrite show_all_app, command_marks_app. lia.
  - rewrite show_all_app, item_marks_app. lia.
  - rewrite show_all_app, command_marks_app. lia.
  - rewrite show_all_app, item_marks_app. lia.
Qed.
Lemma emits_skip d : emits d skip_write [].
Proof.
  intros ns w w' _ [= <-]. assert (command_marks (show_all ns []) = 0 /\ item_marks (show_all ns []) = 0) as [E1 E2] by done.
  split; rewrite ?E1, ?E2; [by rewrite app_nil_r|done|done|lia|lia|by left|by left].
Qed.
Lemma emits_all {A} d (f : A -> xwrite) (g : A -> list node) xs : (forall x, x ∈ xs -> emits d (f x) (g x)) ->
  emits d (write_all f xs) (xs ≫= g).
Proof.
  unfold write_all. induction xs as [|x xs IH]; intros Hf; [apply emits_skip|].
  rewrite bind_cons. intros ns w w' Hw H. cbn [res_for] in H.
  apply (emits_then d (f x) (fun w => res_for (fun w a => f a w) xs w)); [apply Hf; by left|apply IH; intros; apply Hf; by right|done|].
  unfold then_write. by destruct (f x w).
Qed.
Definition opt_nodes {A} (g : A -> list node) (o : option A) : list node := match o with Some a => g a | None => [] end.
Lemma emits_opt {A} d (f : A -> xwrite) g o : (forall a, o = Some a -> emits d (f a) (g a)) -> emits d (write_opt f o) (opt_nodes g o).
Proof. intros Hf. destruct o; [by apply Hf|apply emits_skip]. Qed.
Lemma emits_if d (b : bool) f xs : emits d f xs -> emits d (if b then f else skip_write) (if b then xs else []).
Proof. intros Hf. destruct b; [done|apply emits_skip]. Qed.

(** *** Elements *)
(** The same output but for bytes, budget and bindings. *)
Definition wrote (b : bytes) (budget : Budget) (w w' : Output) : Prop :=
  out_bytes w' = out_bytes w ++ b /\ out_budget w' = budget /\
  out_commands w' = out_commands w /\ out_items w' = out_items w.
Lemma then_ok f g w w' : (f;; g) w = Ok w' <-> exists w1, f w = Ok w1 /\ g w1 = Ok w'.
Proof.
  unfold then_write. destruct (f w) as [w1| |].
  - split; [by exists w1|]. by intros (? & [= <-] & ?).
  - split; [done|]. by intros (? & ? & _).
  - split; [done|]. by intros (? & ? & _).
Qed.
Lemma fail_write_ok r w w' : fail_write r w = Ok w' <-> r = Ok () /\ w' = w.
Proof. unfold fail_write. destruct r as [[]| |]; split; try done; try (by intros [= <-]); by intros [? ?]; subst. Qed.
Lemma sink_ok b w w' : sink b w = Ok w' -> wrote b (out_budget w) w w'.
Proof. unfold sink. intros H. apply bind_ok in H as (? & _ & [= <-]). done. Qed.
Lemma spend_ok f w w' : spend f w = Ok w' -> exists b, f (out_budget w) = Ok b /\ wrote [] b w w'.
Proof. unfold spend. intros H. apply bind_ok in H as (b & Hb & [= <-]). exists b. split; [done|]. split_and!; try done. simpl. by rewrite app_nil_r. Qed.
Lemma wrote_trans b1 b2 k1 k2 w1 w2 w3 : wrote b1 k1 w1 w2 -> wrote b2 k2 w2 w3 -> wrote (b1 ++ b2) k2 w1 w3.
Proof. intros (A1 & B1 & C1 & D1) (A2 & B2 & C2 & D2). split_and!; [by rewrite A2, A1, app_assoc|congruence..]. Qed.
Lemma out_start_ok name xmlns w w' : out_start l name (declared xmlns) w = Ok w' ->
  exists b1 b2, Budget_event l (out_budget w) = Ok b1 /\ Budget_start l b1 (zlen (declared xmlns)) = Ok b2 /\
    (match xmlns with Some v => text v (l_field_bytes l) true = Ok () | None => True end) /\
    wrote (write_start name (declared xmlns)) b2 w w'.
Proof.
  unfold out_start. intros H. apply then_ok in H as (w1 & (b1 & H1 & W1)%spend_ok & H).
  apply then_ok in H as (w2 & (b2 & H2 & W2)%spend_ok & H). apply then_ok in H as (w3 & H3 & H).
  apply then_ok in H as (w4 & [Ht ->]%fail_write_ok & H%sink_ok). exists b1, b2.
  assert (out_budget w1 = b1) as Hb1 by apply W1. rewrite Hb1 in H2. split_and!; [done..| |].
  - destruct xmlns; [|done]. simpl in Ht. by destruct (text _ _ _) as [[]| |].
  - assert (wrote [] b2 w2 w3) as W3.
    { unfold bind_names in H3. apply bind_ok in H3 as (? & _ & [= <-]). destruct W2 as (_ & ? & _).
      split_and!; try done. simpl. by rewrite app_nil_r. }
    assert (out_budget w3 = b2) as Hb3 by apply W3. rewrite Hb3 in H.
    exact (wrote_trans _ _ _ _ _ _ _ W1 (wrote_trans _ _ _ _ _ _ _ W2 (wrote_trans _ _ _ _ _ _ _ W3 H))).
Qed.
Lemma out_end_ok name w w' : out_end l name w = Ok w' ->
  exists b1 b2, Budget_event l (out_budget w) = Ok b1 /\ Budget_end Structure b1 = Ok b2 /\ wrote (write_end name) b2 w w'.
Proof.
  unfold out_end. intros H. apply then_ok in H as (w1 & (b1 & H1 & W1)%spend_ok & H).
  apply then_ok in H as (w2 & (b2 & H2 & W2)%spend_ok & H). apply then_ok in H as (w3 & H3 & H%sink_ok).
  exists b1, b2. assert (out_budget w1 = b1) as Hb1 by apply W1. rewrite Hb1 in H2. split_and!; [done..|].
  assert (wrote [] b2 w2 w3) as W3.
  { unfold unbind_names in H3. destruct (out_bindings w2); [done|]. injection H3 as <-. destruct W2 as (_ & ? & _).
    split_and!; try done. simpl. by rewrite app_nil_r. }
  assert (out_budget w3 = b2) as Hb3 by apply W3. rewrite Hb3 in H.
  exact (wrote_trans _ _ _ _ _ _ _ W1 (wrote_trans _ _ _ _ _ _ _ W2 (wrote_trans _ _ _ _ _ _ _ W3 H))).
Qed.
Lemma Budget_start_depth b n b' : Budget_start l b n = Ok b' -> b_depth b' = b_depth b + 1.
Proof.
  unfold Budget_start. intros H. apply bind_ok in H as (? & _ & H). apply bind_ok in H as (d & Hd & H).
  do 5 (apply bind_ok in H as (? & _ & H)). injection H as <-. simpl.
  unfold checked, checked_u64 in Hd. destruct (is_u64 _); [|done]. by injection Hd as <-.
Qed.
(** Namespaces an element may declare. *)
Definition declarable (v : rstr) : bool :=
  negb (bool_decide (v = lit "http://www.w3.org/2000/xmlns/") || bool_decide (v = XML)).
Lemma emits_element d name xmlns inner kids : 0 <= d -> qname name = Ok () ->
  (match xmlns with Some v => declarable v = true | None => True end) -> emits 1 inner kids ->
  emits d (out_start l name (declared xmlns);; inner;; out_end l name) [Elem name xmlns kids].
Proof.
  intros Hd Hq Hx Hi ns w w' Hw H. apply then_ok in H as (w1 & (b1 & b2 & H1 & H2 & Ht & A1 & B1 & C1 & D1)%out_start_ok & H).
  apply then_ok in H as (w2 & H3 & (b3 & b4 & H4 & H5 & A4 & B4 & C4 & D4)%out_end_ok).
  pose proof (Budget_event_ok _ _ _ H1) as [E1 _]. pose proof (Budget_start_depth _ _ _ H2) as E2.
  set (inner_ns := match xmlns with Some v => v | None => ns end).
  destruct (Hi inner_ns w1 w2) as [B P D C I CL IL]; [rewrite B1; lia|done|].
  pose proof (Budget_event_ok _ _ _ H4) as [E4 _].
  assert (b_depth b4 = b_depth b3 - 1) as E5.
  { unfold Budget_end in H5. apply bind_ok in H5 as (? & _ & [= <-]). done. }
  assert (show_all ns [Elem name xmlns kids] = SStart inner_ns name xmlns :: show_all inner_ns kids ++ [SEnd inner_ns name]) as Es.
  { unfold show_all. cbn [mbind list_bind show]. by rewrite app_nil_r. }
  assert (command_marks (show_all ns [Elem name xmlns kids]) = command_marks (show_all inner_ns kids) /\
    item_marks (show_all ns [Elem name xmlns kids]) = item_marks (show_all inner_ns kids)) as [Ec Ei].
  { rewrite Es. change (SStart inner_ns name xmlns :: ?r) with ([SStart inner_ns name xmlns] ++ r).
    rewrite !command_marks_app, !item_marks_app. split; unfold command_marks, item_marks, zlen; simpl; lia. }
  split; rewrite ?Ec, ?Ei.
  - rewrite A4, B, A1. unfold render_all. cbn [mbind list_bind render]. by rewrite app_nil_r, !app_assoc.
  - rewrite Es. unfold pay_all. cbn [res_for pay]. rewrite H1. cbn [mbind res_bind]. rewrite H2. cbn [mbind res_bind]. rewrite Hq. cbn [mbind res_bind].
    assert ((_ ← match xmlns with
          | Some v =>
              _ ← reject (bool_decide (v = lit "http://www.w3.org/2000/xmlns/") || bool_decide (v = XML)) WrongNamespace;
              text v (l_field_bytes l) true
          | None => Ok ()
          end; Ok b2) = Ok b2) as ->.
    { destruct xmlns as [v|]; [|done]. unfold declarable in Hx. apply negb_true_iff in Hx. rewrite Hx. simpl. by rewrite Ht. }
    cbn [mbind res_bind]. rewrite B1 in P. apply (pay_app _ _ _ _ _ P).
    unfold pay_all. cbn [res_for pay]. rewrite H4. cbn [mbind res_bind]. rewrite H5. cbn [mbind res_bind]. by rewrite B4.
  - rewrite B4, E5, E4, D, B1, E2, E1. lia.
  - lia.
  - lia.
  - lia.
  - lia.
Qed.

(** *** Marks and text *)
Lemma emits_check d v max empty : emits d (fail_write (text v max empty)) [CheckMark v max empty].
Proof.
  intros ns w w' _ [Ht ->]%fail_write_ok.
  assert (command_marks (show_all ns [CheckMark v max empty]) = 0 /\ item_marks (show_all ns [CheckMark v max empty]) = 0) as [E1 E2] by done.
  split; rewrite ?E1, ?E2; [by rewrite app_nil_r| |done|lia|lia|by left|by left].
  unfold pay_all, show_all. simpl. by rewrite Ht.
Qed.
Lemma emits_command d : emits d (out_command l) [CommandMark].
Proof.
  intros ns w w' _ H. unfold out_command in H. apply bind_ok in H as ([] & Hb%reject_ok & [= <-]).
  split; try done; [by rewrite app_nil_r|simpl; unfold item_marks, zlen; simpl; lia|right; simpl; lia|by left].
Qed.
Lemma emits_item d : emits d (out_item l) [ItemMark].
Proof.
  intros ns w w' _ H. unfold out_item in H. apply bind_ok in H as ([] & Hb%reject_ok & [= <-]).
  split; try done; [by rewrite app_nil_r|simpl; unfold command_marks, zlen; simpl; lia|by left|right; simpl; lia].
Qed.
Lemma pay_text_depth xs b b' : Forall (fun x => match x with SText _ | SRef _ => True | _ => False end) xs ->
  pay_all l xs b = Ok b' -> b_depth b' = b_depth b.
Proof.
  intros Hf. revert b. induction Hf as [|x xs Hx Hf IH]; intros b H; [by injection H as ->|].
  unfold pay_all in H. cbn [res_for] in H. apply bind_ok in H as (b1 & H1 & H). rewrite (IH b1 H).
  destruct x; try done; simpl in H1.
  - by apply Budget_event_ok in H1 as [? _].
  - apply bind_ok in H1 as (? & _ & H1). by apply Budget_event_ok in H1 as [? _].
Qed.
Lemma runs_text v : Forall (fun x => match x with SText _ | SRef _ => True | _ => False end) (runs v).
Proof.
  induction v as [|c v IH]; [constructor|]. cbn [runs]. destruct (escaped c); [by constructor|].
  destruct (runs v) as [|x rest]; [by repeat constructor|]. inversion IH. destruct x; try done; by repeat constructor.
Qed.
Lemma runs_marks v : command_marks (runs v) = 0 /\ item_marks (runs v) = 0.
Proof.
  pose proof (runs_text v) as H. induction H as [|x xs Hx _ [IH1 IH2]]; [done|].
  change (x :: xs) with ([x] ++ xs). rewrite command_marks_app, item_marks_app, IH1, IH2. by destruct x.
Qed.
(** The events the writer charges for are the runs that a reader sees. *)
Lemma charge_runs v b run acc : 1 <= b_depth b -> res_for (charge_char l) v (b, run) = Ok acc ->
  match run, runs v with
  | true, SText _ :: rest => pay_all l rest b = Ok acc.1
  | _, xs => pay_all l xs b = Ok acc.1
  end.
Proof.
  revert b run. induction v as [|c v IH]; intros b run Hd H.
  - injection H as <-. by destruct run.
  - cbn [res_for] in H. apply bind_ok in H as ([b1 run1] & H1 & H). unfold charge_char in H1. cbn [runs].
    destruct (escaped c) eqn:Ec.
    + apply bind_ok in H1 as (b2 & H1 & [= <- <-]). pose proof (Budget_event_ok _ _ _ H1) as [Hd1 _].
      specialize (IH b2 false ltac:(lia) H). destruct run; unfold pay_all; cbn [res_for pay]; unfold reject;
        rewrite (proj2 (Z.eqb_neq _ _)), Ec by lia; simpl; rewrite H1; simpl; apply IH.
    + destruct run; simpl in H1.
      * injection H1 as <- <-. specialize (IH b true Hd H). by destruct (runs v) as [|[] ?].
      * apply bind_ok in H1 as (b2 & H1 & [= <- <-]). pose proof (Budget_event_ok _ _ _ H1) as [Hd1 _].
        specialize (IH b2 true ltac:(lia) H). unfold pay_all in *.
        destruct (runs v) as [|[] ?]; cbn [res_for pay]; rewrite H1; cbn [mbind res_bind]; apply IH.
Qed.
Lemma emits_content v max : emits 1 (out_content l v max) (text_nodes v max).
Proof.
  unfold out_content, text_nodes. apply (emits_then 1 _ _ [CheckMark v max true] [Chars v]); [apply emits_check|].
  intros ns w w' Hw H.
  assert (show_all ns [Chars v] = runs v) as Es by (unfold show_all; cbn [mbind list_bind show]; by rewrite app_nil_r).
  assert (render_all [Chars v] = if is_empty v then [] else write_text v) as Er.
  { unfold render_all; cbn [mbind list_bind render]; by rewrite app_nil_r. }
  destruct (runs_marks v) as [M1 M2]. destruct (is_empty v) eqn:Ev.
  - destruct v; [|done]. injection H as <-. split; rewrite ?Es, ?Er; try done; [by rewrite app_nil_r|lia|lia|by left|by left].
  - apply then_ok in H as (w1 & (b & Hb & A1 & B1 & C1 & D1)%spend_ok & (A2 & B2 & C2 & D2)%sink_ok).
    apply bind_ok in Hb as (acc & Hacc & [= <-]). pose proof (charge_runs v _ false acc Hw Hacc) as Hp. simpl in Hp.
    assert (out_budget w' = acc.1) as Hb' by congruence.
    split; rewrite ?Es, ?Er, ?Hb', ?M1, ?M2.
    + rewrite A2, A1. by rewrite app_nil_r.
    + done.
    + by apply (pay_text_depth (runs v)); [apply runs_text|].
    + lia.
    + lia.
    + by left.
    + by left.
Qed.
Lemma emits_scalar d name v max empty : 0 <= d -> qname name = Ok () ->
  emits d (out_scalar l name v max empty) (scalar_nodes name v max empty).
Proof.
  intros Hd Hq. unfold out_scalar, scalar_nodes.
  apply (emits_then d _ _ [CheckMark v max empty] [Elem name None (text_nodes v max)]); [apply emits_check|].
  by apply (emits_element d name None); [| | |apply emits_content].
Qed.
Lemma emits_empty d name : 0 <= d -> qname name = Ok () -> emits d (out_empty l name) [Elem name None []].
Proof.
  intros Hd Hq ns w w' Hw H. apply (emits_element d name None skip_write []); [done..|apply emits_skip|done|].
  unfold out_empty in H. apply then_ok in H as (w1 & H1 & H2). apply then_ok. exists w1. split; [done|]. by apply then_ok; exists w1.
Qed.
End Emits.
