(* ===== verification/SyncmlWire.v ===== *)
(** * SyncML messages: the documents the writers produce

    The element trees of a message, and that each writer emits its tree. *)
From S2P Require Import Prelude Ordered Text External Xml Declared SyncmlModel SyncmlCodec XmlTotal.
From S2P Require Import SyncmlTotal XmlTree XmlWrite.
#[local] Open Scope xml_scope.

Section Wire.
Context `{QX : QuickXml} `{UC : UuidCrate} `{UT : !UuidText} `{B64 : Base64Standard} (l : CodecLimits).

(** ** Trees *)
Definition elem (name : rstr) (kids : list node) : list node := [Elem name None kids].
Definition metinf_nodes (name v : rstr) (max : Z) : list node := [Elem name (Some META) (text_nodes v max)].
Definition number_meta_nodes (e : rstr * option Z) : list node :=
  opt_nodes (fun v => metinf_nodes e.1 (int_to_string v) (l_identifier_bytes l)) e.2.
Definition meta_kids (m : Meta) : list node :=
  opt_nodes (fun v => metinf_nodes (lit "Format") v (l_identifier_bytes l)) (m_format m)
  ++ opt_nodes (fun v => metinf_nodes (lit "Type") v (l_uri_bytes l)) (m_media_type m)
  ++ ([(lit "MaxMsgSize", m_max_message_size m); (lit "MaxObjSize", m_max_object_size m); (lit "Size", m_size m)]
      ≫= number_meta_nodes).
Definition meta_nodes (m : option Meta) : list node := opt_nodes (fun m => elem (lit "Meta") (meta_kids m)) m.
Definition location_nodes (name v : rstr) : list node :=
  elem name (scalar_nodes (lit "LocURI") v (l_uri_bytes l) false).
Definition item_kids (i : Item) : list node :=
  opt_nodes (location_nodes (lit "Target")) (i_target i)
  ++ opt_nodes (location_nodes (lit "Source")) (i_source i)
  ++ meta_nodes (i_meta i)
  ++ opt_nodes (fun v => scalar_nodes (lit "Data") v (l_object_bytes l) true) (i_data i)
  ++ (if more_data i then elem (lit "MoreData") [] else []).
Definition item_nodes (i : Item) : list node := [ItemMark] ++ elem (lit "Item") (item_kids i).
Definition items_nodes (items : list Item) : list node := items ≫= item_nodes.
Definition num_nodes (name : rstr) (n : Z) : list node := scalar_nodes name (int_to_string n) (l_identifier_bytes l) false.
Definition credential_nodes (c : option Credential) : list node :=
  opt_nodes (fun c => elem (lit "Cred")
    (meta_nodes (Some (cr_meta c)) ++ scalar_nodes (lit "Data") (cr_data c) (l_field_bytes l) false)) c.
Definition ref_nodes (name v : rstr) : list node := [ItemMark] ++ scalar_nodes name v (l_uri_bytes l) false.
Definition refs_nodes (s : Status) : list node :=
  (s_target_refs s ≫= ref_nodes (lit "TargetRef")) ++ (s_source_refs s ≫= ref_nodes (lit "SourceRef")).
Definition challenge_kids (c : Challenge) : list node :=
  elem (lit "Meta")
    (metinf_nodes (lit "Format") (lit "b64") (l_identifier_bytes l)
     ++ metinf_nodes (lit "Type") (ch_media_type c) (l_uri_bytes l)
     ++ opt_nodes (fun nonce => metinf_nodes (lit "NextNonce") nonce (l_identifier_bytes l)) (ch_nonce c)).
Definition challenge_nodes (c : Challenge) : list node := elem (lit "Chal") (challenge_kids c).
Definition status_kids (s : Status) : list node :=
  num_nodes (lit "MsgRef") (s_message_ref s)
  ++ num_nodes (lit "CmdRef") (s_command_ref s)
  ++ scalar_nodes (lit "Cmd") (CommandName_as_str (s_command s)) (l_identifier_bytes l) false
  ++ (if is_oma s then refs_nodes s else [])
  ++ credential_nodes (s_credential s)
  ++ opt_nodes challenge_nodes (s_challenge s)
  ++ num_nodes (lit "Data") (s_code s)
  ++ items_nodes (s_items s)
  ++ (if is_oma s then [] else refs_nodes s).
Definition typed_alert_nodes (kind value : rstr) (explicit_format : bool) : list node :=
  [ItemMark] ++ elem (lit "Item")
    (elem (lit "Meta")
       (metinf_nodes (lit "Type") kind (l_uri_bytes l)
        ++ (if explicit_format then metinf_nodes (lit "Format") (lit "chr") (l_identifier_bytes l) else []))
     ++ scalar_nodes (lit "Data") value (l_field_bytes l) false).
Definition alert_kids (a : Alert) : list node :=
  num_nodes (lit "Data") (alert_code a)
  ++ match a with
     | EndOfData items | Generic items => items_nodes items
     | UnenrollmentRequested => items_nodes [unenrollment_item]
     | DeclaredConfiguration summary explicit_format => typed_alert_nodes DECLARED_SUMMARY summary explicit_format
     | LoginAlert status explicit_format => typed_alert_nodes LOGIN_STATUS (LoginStatus_as_str status) explicit_format
     | ClientInitiated | MoreMessages | SessionAbort => []
     end.
Definition results_kids (r : Results) : list node :=
  opt_nodes (num_nodes (lit "MsgRef")) (r_message_ref r)
  ++ opt_nodes (num_nodes (lit "CmdRef")) (r_command_ref r)
  ++ opt_nodes (fun v => scalar_nodes (lit "Cmd") (CommandName_as_str v) (l_identifier_bytes l) false) (r_command r)
  ++ meta_nodes (r_meta r)
  ++ items_nodes (r_items r).
Fixpoint command_nodes (c : Command) : list node :=
  [CommandMark] ++ elem (command_element c)
    (num_nodes (lit "CmdID") (command_id c)
     ++ match c with
        | Atomic _ children | Sequence _ children => children ≫= command_nodes
        | Get _ meta items | Add _ meta items | Replace _ meta items | Delete _ meta items | Exec _ meta items =>
            meta_nodes meta ++ items_nodes items
        | DevInfo _ items => items_nodes items
        | AlertCommand _ alert => alert_kids alert
        | StatusCommand s => status_kids s
        | ResultsCommand r => results_kids r
        end).
Definition header_kids (h : Header) : list node :=
  scalar_nodes (lit "VerDTD") (lit "1.2") (l_identifier_bytes l) false
  ++ scalar_nodes (lit "VerProto") (lit "DM/1.2") (l_identifier_bytes l) false
  ++ num_nodes (lit "SessionID") (h_session_id h)
  ++ num_nodes (lit "MsgID") (h_message_id h)
  ++ location_nodes (lit "Target") (h_target h)
  ++ location_nodes (lit "Source") (h_source h)
  ++ credential_nodes (h_credential h)
  ++ meta_nodes (h_meta h).
Definition body_kids (m : Message) : list node :=
  (commands m ≫= command_nodes) ++ (if final_message m then elem (lit "Final") [] else []).
Definition message_nodes (m : Message) : list node :=
  [Elem (lit "SyncML") (Some NS) (elem (lit "SyncHdr") (header_kids (header m)) ++ elem (lit "SyncBody") (body_kids m))].

(** ** Writers *)
Lemma emits_elem d name inner kids : 0 <= d -> qname name = Ok () -> emits l 1 inner kids ->
  emits l d (write_element l name [] inner) (elem name kids).
Proof. intros. by apply (emits_element l d name None). Qed.
Lemma emits_metinf d name v max : 0 <= d -> qname name = Ok () -> emits l d (write_metinf l name v max) (metinf_nodes name v max).
Proof. intros. apply (emits_element l d name (Some META)); [done..|]. apply emits_content. Qed.
Lemma emits_num d name n : 0 <= d -> qname name = Ok () -> emits l d (write_num l name n) (num_nodes name n).
Proof. intros. by apply emits_scalar. Qed.
#[local] Hint Extern 1 (emits _ _ (_ ;; _)%xml _) => apply emits_then : emits.
#[local] Hint Extern 1 (emits _ _ (write_all _ _) _) => apply emits_all; intros : emits.
#[local] Hint Extern 1 (emits _ _ (write_opt _ _) _) => apply emits_opt; intros : emits.
#[local] Hint Extern 1 (emits _ _ (if _ then _ else skip_write) _) => apply emits_if : emits.
#[local] Hint Extern 1 (emits _ _ (write_element _ _ [] _) _) => apply emits_elem : emits.
#[local] Hint Resolve emits_metinf emits_num emits_scalar emits_empty emits_item emits_command emits_skip : emits.
#[local] Hint Extern 1 (_ <= _) => lia : emits.
#[local] Hint Extern 1 (qname _ = Ok _) => reflexivity : emits.
Ltac emit := eauto 40 with emits.
Lemma emits_meta d m : 0 <= d -> emits l d (write_meta l m) (meta_nodes m).
Proof.
  intros Hd. unfold write_meta, meta_nodes. apply emits_opt. intros a _. apply emits_elem; [done..|].
  unfold meta_kids. do 2 (apply emits_then; [emit|]). apply emits_all. intros [name v] Hin.
  unfold write_number_meta, number_meta_nodes. apply emits_opt. intros n _. simpl.
  apply emits_metinf; [done|]. repeat (apply elem_of_cons in Hin as [[= -> ->]|Hin]; [done|]). by apply elem_of_nil in Hin.
Qed.
#[local] Hint Resolve emits_meta : emits.
Lemma emits_location d name v : 0 <= d -> qname name = Ok () -> emits l d (write_location l name v) (location_nodes name v).
Proof. intros. unfold write_location, location_nodes. emit. Qed.
#[local] Hint Resolve emits_location : emits.
Lemma emits_one_item d i : 0 <= d -> emits l d (write_item l i) (item_nodes i).
Proof.
  intros. unfold write_item, item_nodes. apply emits_then; [emit|]. apply emits_elem; [done..|]. unfold item_kids. emit.
Qed.
#[local] Hint Resolve emits_one_item : emits.
Lemma emits_items d items : 0 <= d -> emits l d (write_items l items) (items_nodes items).
Proof. intros. unfold write_items, items_nodes. emit. Qed.
#[local] Hint Resolve emits_items : emits.
Lemma emits_credential d c : 0 <= d -> emits l d (write_credential l c) (credential_nodes c).
Proof. intros. unfold write_credential, credential_nodes. emit. Qed.
Lemma emits_ref d name v : 0 <= d -> qname name = Ok () -> emits l d (write_ref l name v) (ref_nodes name v).
Proof. intros. unfold write_ref, ref_nodes. emit. Qed.
#[local] Hint Resolve emits_credential emits_ref : emits.
Lemma emits_refs d s : 0 <= d -> emits l d (write_refs l s) (refs_nodes s).
Proof. intros. unfold write_refs, refs_nodes. emit. Qed.
Lemma emits_challenge d c : 0 <= d -> emits l d (write_challenge l c) (challenge_nodes c).
Proof. intros. unfold write_challenge, challenge_nodes, challenge_kids. emit. Qed.
#[local] Hint Resolve emits_refs emits_challenge : emits.
Lemma emits_status d s : 0 <= d -> emits l d (write_status l s) (status_kids s).
Proof.
  intros. unfold write_status, status_kids. do 3 (apply emits_then; [emit|]).
  apply emits_then; [emit|]. do 4 (apply emits_then; [emit|]). destruct (is_oma s); emit.
Qed.
Lemma emits_results d r : 0 <= d -> emits l d (write_results l r) (results_kids r).
Proof. intros. unfold write_results, results_kids. emit. Qed.
Lemma emits_typed d kind value b : 0 <= d -> emits l d (write_typed_alert l kind value b) (typed_alert_nodes kind value b).
Proof. intros. unfold write_typed_alert, typed_alert_nodes. emit. Qed.
#[local] Hint Resolve emits_typed : emits.
Lemma emits_alert d a : 0 <= d -> emits l d (write_alert l a) (alert_kids a).
Proof. intros. unfold write_alert, alert_kids. apply emits_then; [emit|]. destruct a; emit. Qed.
#[local] Hint Resolve emits_status emits_results emits_alert : emits.
Lemma command_element_qname c : qname (command_element c) = Ok ().
Proof. by destruct c. Qed.
Lemma emits_one_command d c : 0 <= d -> emits l d (write_command l c) (command_nodes c).
Proof.
  revert d. induction c as [c Hc|id cs IH|id cs IH] using Command_tree_ind; intros d Hd.
  - destruct c; try discriminate Hc; cbn [write_command command_nodes]; apply emits_then; emit.
  - cbn [write_command command_nodes]. apply emits_then; [emit|]. apply emits_elem; [done..|]. apply emits_then; [emit|].
    apply emits_all. intros c Hc. rewrite Forall_forall in IH. by apply IH.
  - cbn [write_command command_nodes]. apply emits_then; [emit|]. apply emits_elem; [done..|]. apply emits_then; [emit|].
    apply emits_all. intros c Hc. rewrite Forall_forall in IH. by apply IH.
Qed.
Lemma emits_message m : emits l 0 (write_message l m) (message_nodes m).
Proof.
  apply (emits_element l 0 (lit "SyncML") (Some NS)); [done..|]. apply emits_then.
  - unfold write_header. apply emits_elem; [done..|]. unfold header_kids. do 7 (apply emits_then; [emit|]). emit.
  - unfold write_body. apply emits_elem; [done..|]. unfold body_kids. apply emits_then; [|emit].
    apply emits_all. intros c _. by apply emits_one_command.
Qed.
End Wire.
