(* ===== verification/SyncmlRead.v ===== *)
(** * SyncML messages: reading back what was written

    Each reader of the codec, on the events of the tree of a value, returns that value. *)
From S2P Require Import Prelude Ordered Text External Xml Declared SyncmlModel SyncmlCodec XmlTotal.
From S2P Require Import SyncmlTotal XmlTree XmlWrite SyncmlWire.

(** ** What an absent part leaves next *)
(** Nodes that begin, if they show anything, with no start of these elements and no text. *)
Definition begins (ns : rstr) (names : list (rstr * rstr)) (nodes : list node) : Prop :=
  forall rest, clear names rest -> clear names (show_all ns nodes ++ rest).
Lemma begins_nil ns names : begins ns names [].
Proof. by intros rest. Qed.
Lemma begins_app ns names xs ys : begins ns names xs -> begins ns names ys -> begins ns names (xs ++ ys).
Proof. intros Hx Hy rest Hr. rewrite show_all_app, <-app_assoc. by apply Hx, Hy. Qed.
Lemma begins_opt {A} ns names (f : A -> list node) o : (forall a, begins ns names (f a)) -> begins ns names (opt_nodes f o).
Proof. intros Hf. destruct o; [apply Hf|apply begins_nil]. Qed.
Lemma begins_if ns names (b : bool) xs ys : begins ns names xs -> begins ns names ys -> begins ns names (if b then xs else ys).
Proof. by destruct b. Qed.
Lemma begins_bind {A} ns names (f : A -> list node) xs : (forall a, begins ns names (f a)) -> begins ns names (xs ≫= f).
Proof. intros Hf. induction xs as [|x xs IH]; [apply begins_nil|]. rewrite bind_cons. by apply begins_app. Qed.
(** The first token is the start of another element. *)
Lemma begins_head ns names xs : (forall rest, exists ns' name, next (show_all ns xs ++ rest) = TStart (mk_Start ns' name []) /\
  Forall (fun n => named n.1 n.2 (TStart (mk_Start ns' name [])) = false) names) -> begins ns names xs.
Proof. intros H rest _. destruct (H rest) as (ns' & name & He & Hf). unfold clear. by rewrite He. Qed.
Lemma clear_end names ns name rest : clear names (SEnd ns name :: rest).
Proof. split; [done|]. induction names; by constructor. Qed.
Lemma clear_text names rest : clear names rest -> is_text (next rest) = false.
Proof. by intros []. Qed.

Ltac head := solve [apply begins_head; intros ?; eexists _, _; split; [reflexivity|repeat constructor]].
(** Show that nodes begin with none of the named elements. *)
Ltac begin :=
  repeat first
    [ head | apply begins_nil | apply begins_app | apply begins_opt; intros ? | apply begins_if | apply begins_bind; intros ? ].
(** Show that a rest is clear, part by part, up to the first part that shows something. *)
Ltac clear_rest :=
  intros; repeat rewrite <-app_assoc;
  repeat first
    [ solve [split; [reflexivity|repeat constructor]]
    | match goal with
      | |- anything _ => exact I
      | |- clear _ (SEnd _ _ :: _) => apply clear_end
      | |- clear _ ([SEnd _ _] ++ _) => apply clear_end
      | |- clear _ ((_ ++ _) ++ _) => rewrite <-app_assoc
      | |- clear _ (show_all ?ns ?nodes ++ _) => refine ((_ : begins ns _ nodes) _ _); [solve [begin]|]
      | |- clear _ ([] ++ _) => cbn [app]
      | _ => assumption
      end ].

(** One part of a reader, then the rest; one that takes nothing; a check. *)
Ltac step H := refine (reads_bind _ _ _ _ _ _ _ _ _ H _ _); [|solve [clear_rest]].
Ltac skip H := refine (reads_first _ _ _ _ _ _ _ _ H _ _); [|solve [clear_rest]].
Ltac pure := eapply reads_pure; [first [reflexivity|eassumption]|].
Ltac done_reading := apply reads_ret.
(** Look at the element that comes next, past the names it has not. *)
Ltac peek := repeat first [apply is_there; [by intros|]; cbv iota|eapply is_other; [by intros|reflexivity|]; cbv iota].

(** ** Numbers as text *)
Lemma dec_digits_digits fuel z acc : forallb is_ascii_digit acc = true -> forallb is_ascii_digit (dec_digits fuel z acc) = true.
Proof.
  revert z acc. induction fuel as [|fuel IH]; intros z acc Ha; [done|]. cbn [dec_digits]. cbv zeta.
  assert (forallb is_ascii_digit (48 + z mod 10 :: acc) = true) as Hd.
  { cbn [forallb]. rewrite Ha, andb_true_r. pose proof (Z.mod_pos_bound z 10 ltac:(lia)).
    unfold is_ascii_digit. apply andb_true_iff. rewrite !Z.leb_le. lia. }
  destruct (z <? 10); [done|by apply IH].
Qed.
Lemma int_digits n : 0 <= n <= u32_max -> forallb is_ascii_digit (int_to_string n) = true /\ int_to_string n <> [].
Proof.
  intros Hn. unfold int_to_string. rewrite (proj2 (Z.ltb_ge n 0)) by lia. split; [by apply dec_digits_digits|].
  assert (0 <= n < 10 ^ Z.of_nat 20) as Hb by (unfold u32_max in Hn; lia).
  destruct (dec_digits_value 20 n [] 0 Hb ltac:(lia)) as [_ Hl]. intros He. rewrite He in Hl. unfold zlen in Hl. simpl in Hl. lia.
Qed.
Lemma digit_visible c : is_ascii_digit c = true -> is_whitespace c = false.
Proof. unfold is_ascii_digit, is_whitespace. rewrite andb_true_iff, !Z.leb_le. lia. Qed.
Lemma trim_visible v : v <> [] -> Forall (fun c => is_whitespace c = false) v -> is_empty (trim v) = false.
Proof.
  intros Hne Hv. assert (forall w, Forall (fun c => is_whitespace c = false) w -> trim_start w = w) as Ht.
  { intros w Hw. destruct Hw as [|c w Hc Hw]; [done|]. simpl. by rewrite Hc. }
  unfold trim. rewrite (Ht v Hv), (Ht (rev v)) by (by apply Forall_rev). rewrite rev_involutive. by destruct v.
Qed.
(** Text that is not blank passes the stricter check. *)
Lemma text_strict v max : is_empty (trim v) = false -> text v max true = Ok () -> text v max false = Ok ().
Proof. intros Ht. unfold text. by rewrite Ht. Qed.
Lemma int_strict n max : 0 <= n <= u32_max -> text (int_to_string n) max true = Ok () -> text (int_to_string n) max false = Ok ().
Proof.
  intros Hn. destruct (int_digits n Hn) as [Hd Hne]. apply text_strict, trim_visible; [done|].
  apply Forall_forall. intros c Hc. apply digit_visible. rewrite forallb_true_iff in Hd. by apply Hd.
Qed.

Section Read.
Context `{QX : QuickXml} `{UC : UuidCrate} `{UT : !UuidText} `{B64 : Base64Standard} (l : CodecLimits).

(** The limits are [usize]s. *)
Record usize_limits : Prop := {
  ul_identifier : l_identifier_bytes l <= u64_max; ul_uri : l_uri_bytes l <= u64_max;
  ul_field : l_field_bytes l <= u64_max; ul_object : l_object_bytes l <= u64_max;
  ul_syncml : 0 <= l_syncml_bytes l; ul_commands : 0 <= l_commands l; ul_items : 0 <= l_items l
}.
Context (Hl : usize_limits).
#[local] Hint Resolve ul_identifier ul_uri ul_field ul_object : limits.

Lemma show_elem ns name kids : show_all ns (elem name kids) = SStart ns name None :: show_all ns kids ++ [SEnd ns name].
Proof. unfold show_all, elem. cbn [mbind list_bind show]. by rewrite app_nil_r. Qed.


(** ** Small parts *)
Lemma number_ok n (zero : bool) : 0 <= n <= u32_max -> (zero = false -> n <> 0) -> number (int_to_string n) zero = Ok n.
Proof.
  intros Hn Hz. unfold number. assert (parse_unsigned u32_max (int_to_string n) = Some n) as Hp.
  { apply parse_int_to_string; [done|]. unfold u32_max, u64_max. lia. }
  assert (is_empty (int_to_string n) || negb (forallb is_ascii_digit (int_to_string n)) = false) as ->.
  { destruct (int_digits n Hn) as [-> Hne]. by destruct (int_to_string n). }
  simpl. rewrite Hp. simpl. unfold reject. destruct (n =? 0) eqn:E; [|done]. destruct zero; [done|]. exfalso. by apply Hz; [|lia].
Qed.
Lemma reads_num name n (zero : bool) : 0 <= n <= u32_max -> (zero = false -> n <> 0) ->
  reads l anything (num l name zero) (show_all NS (num_nodes l name n)) n.
Proof.
  intros Hn Hz. unfold num. eapply reads_then; [apply reads_scalar, Hl|apply reads_lift, number_ok; done|done].
Qed.
Lemma reads_location name v : reads l anything (location l name) (show_all NS (location_nodes l name v)) v.
Proof.
  unfold location, location_nodes. rewrite show_elem.
  step (reads_open l NS name None). step (reads_scalar l NS (lit "LocURI") v (l_uri_bytes l) false (ul_uri Hl)).
  eapply reads_then; [apply reads_end|done_reading|done].
Qed.
Lemma reads_optional_location name o :
  reads l (clear [(NS, name)]) (optional_location l name) (show_all NS (opt_nodes (location_nodes l name) o)) o.
Proof.
  unfold optional_location. destruct o as [v|]; simpl opt_nodes.
  - apply is_there; [by intros|].
    eapply reads_then; [apply reads_location|done_reading|done].
  - skip (reads_is_not l NS name). done_reading.
Qed.

(** ** Metadata *)
Definition u32 (z : Z) : Prop := 0 <= z <= u32_max.
Definition u32_opt (o : option Z) : Prop := match o with Some z => u32 z | None => True end.
Definition typed_meta (m : option Meta) : Prop :=
  match m with Some m => u32_opt (m_max_message_size m) /\ u32_opt (m_max_object_size m) /\ u32_opt (m_size m) | None => True end.
Lemma validate_meta_ok m credential : validate_meta l (Some m) credential = Ok () ->
  (forall v, m_format m = Some v -> text v (l_identifier_bytes l) false = Ok ()) /\
  (forall v, m_media_type m = Some v -> text v (l_uri_bytes l) false = Ok ()) /\
  m_max_message_size m <> Some 0 /\ m_max_object_size m <> Some 0.
Proof.
  unfold validate_meta. intros H. apply bind_ok in H as ([] & Hf & H). apply bind_ok in H as ([] & Ht & H).
  apply bind_ok in H as ([] & _ & H). apply reject_ok, orb_false_iff in H as [H1 H2]. apply bool_decide_eq_false in H1, H2.
  split_and!; [| |done..].
  - intros v E. rewrite E in Hf. by apply bind_ok in Hf as ([] & ? & _).
  - intros v E. rewrite E in Ht. by apply bind_ok in Ht as ([] & ? & _).
Qed.
Lemma show_metinf ns name v max : show_all ns (metinf_nodes name v max) =
  SStart META name (Some META) :: show_all META (text_nodes v max) ++ [SEnd META name].
Proof. unfold show_all at 1, metinf_nodes. cbn [mbind list_bind show]. by rewrite app_nil_r. Qed.
Lemma reads_metinf ns name v max : max <= u64_max -> (text v max true = Ok () -> text v max false = Ok ()) ->
  reads l anything (metinf l name max) (show_all ns (metinf_nodes name v max)) v.
Proof. intros Hmax Hx. by apply reads_text_element. Qed.
Lemma reads_metinf_number ns name (zero : bool) n : u32 n -> (zero = false -> n <> 0) ->
  reads l anything (metinf_number l name zero) (show_all ns (metinf_nodes name (int_to_string n) (l_identifier_bytes l))) n.
Proof.
  intros Hn Hz. unfold metinf_number. eapply reads_then; [|by apply reads_lift, number_ok|done].
  apply reads_metinf; [apply Hl|by apply int_strict].
Qed.
(** One child of [Meta], not yet set. *)
Ltac meta_child := unfold meta_step; peek.
Lemma reads_format m v : m_format m = None -> text v (l_identifier_bytes l) false = Ok () ->
  reads l anything (meta_step l m) (show_all NS (metinf_nodes (lit "Format") v (l_identifier_bytes l)))
    (Some (mk_Meta (Some v) (m_media_type m) (m_max_message_size m) (m_max_object_size m) (m_size m))).
Proof.
  intros Hm Hv. meta_child. eapply reads_then; [by apply reads_metinf; [apply Hl|]| |done]. rewrite Hm. pure. done_reading.
Qed.
Lemma reads_type m v : m_media_type m = None -> text v (l_uri_bytes l) false = Ok () ->
  reads l anything (meta_step l m) (show_all NS (metinf_nodes (lit "Type") v (l_uri_bytes l)))
    (Some (mk_Meta (m_format m) (Some v) (m_max_message_size m) (m_max_object_size m) (m_size m))).
Proof.
  intros Hm Hv. meta_child. eapply reads_then; [by apply reads_metinf; [apply Hl|]| |done]. rewrite Hm. pure. done_reading.
Qed.
Lemma reads_message_size m n : m_max_message_size m = None -> u32 n -> n <> 0 ->
  reads l anything (meta_step l m) (show_all NS (metinf_nodes (lit "MaxMsgSize") (int_to_string n) (l_identifier_bytes l)))
    (Some (mk_Meta (m_format m) (m_media_type m) (Some n) (m_max_object_size m) (m_size m))).
Proof.
  intros Hm Hn Hz. meta_child. eapply reads_then; [by apply reads_metinf_number| |done]. rewrite Hm. pure. done_reading.
Qed.
Lemma reads_object_size m n : m_max_object_size m = None -> u32 n -> n <> 0 ->
  reads l anything (meta_step l m) (show_all NS (metinf_nodes (lit "MaxObjSize") (int_to_string n) (l_identifier_bytes l)))
    (Some (mk_Meta (m_format m) (m_media_type m) (m_max_message_size m) (Some n) (m_size m))).
Proof.
  intros Hm Hn Hz. meta_child. eapply reads_then; [by apply reads_metinf_number| |done]. rewrite Hm. pure. done_reading.
Qed.
Lemma reads_size m n : m_size m = None -> u32 n ->
  reads l anything (meta_step l m) (show_all NS (metinf_nodes (lit "Size") (int_to_string n) (l_identifier_bytes l)))
    (Some (mk_Meta (m_format m) (m_media_type m) (m_max_message_size m) (m_max_object_size m) (Some n))).
Proof.
  intros Hm Hn. meta_child. eapply reads_then; [by apply reads_metinf_number| |done]. rewrite Hm. pure. done_reading.
Qed.
(** The loop stops at the end of [Meta]. *)
Definition meta_names : list (rstr * rstr) :=
  map (pair META) [lit "Format"; lit "Type"; lit "MaxMsgSize"; lit "Size"; lit "MaxObjSize"].
Lemma meta_loop_end fuel m : reads l (clear meta_names) (meta_loop l fuel m) [] m.
Proof.
  destruct fuel as [|fuel]; [by intros s rest _ _; left|]. cbn [meta_loop].
  apply (reads_first l (clear meta_names) (clear meta_names) _ _ [] None m); [|done_reading|done]. unfold meta_step.
  assert (forall n rest, clear meta_names rest -> n ∈ meta_names -> clear [n] rest) as Hsub.
  { intros n rest [Ht Hf] Hn. split; [done|]. rewrite Forall_forall in Hf. by apply Forall_singleton, Hf. }
  repeat (eapply reads_first; [apply reads_is_not| |intros rest Hr; apply (Hsub _ _ Hr); repeat (first [left; reflexivity|right])]; cbv iota).
  done_reading.
Qed.
(** An optional child, then the rest. *)
Lemma meta_loop_child {A} Q (f : A -> list node) o ys r (set : option A -> Meta) :
  (forall a, o = Some a -> reads l anything (meta_step l (set None)) (show_all NS (f a)) (Some (set (Some a)))) ->
  (forall fuel, reads l Q (meta_loop l fuel (set o)) ys r) ->
  forall fuel, reads l Q (meta_loop l fuel (set None)) (show_all NS (opt_nodes f o) ++ ys) r.
Proof.
  intros Hf Hrest fuel. destruct o as [a|]; [|apply Hrest]. destruct fuel as [|fuel]; [by intros s rest _ _; left|].
  cbn [meta_loop opt_nodes]. eapply reads_bind; [by apply Hf|apply Hrest|done].
Qed.
Lemma reads_meta_kids m fuel : u32_opt (m_max_message_size m) -> u32_opt (m_max_object_size m) -> u32_opt (m_size m) ->
  (forall v, m_format m = Some v -> text v (l_identifier_bytes l) false = Ok ()) ->
  (forall v, m_media_type m = Some v -> text v (l_uri_bytes l) false = Ok ()) ->
  m_max_message_size m <> Some 0 -> m_max_object_size m <> Some 0 ->
  reads l (clear meta_names) (meta_loop l fuel Meta_default) (show_all NS (meta_kids l m)) m.
Proof.
  intros T1 T2 T3 Hf Ht Hm Ho. unfold meta_kids, number_meta_nodes. cbn [mbind list_bind fst snd].
  rewrite app_nil_r, !show_all_app, <-(app_nil_r (show_all NS (opt_nodes _ (m_size m)))).
  revert fuel. change Meta_default with ((fun o => mk_Meta o None None None None) None). apply meta_loop_child.
  { intros v E. apply (reads_format Meta_default); [done|by apply Hf]. }
  change (mk_Meta (m_format m) None None None None) with ((fun o => mk_Meta (m_format m) o None None None) None).
  apply meta_loop_child.
  { intros v E. apply (reads_type (mk_Meta (m_format m) None None None None)); [done|by apply Ht]. }
  change (mk_Meta (m_format m) (m_media_type m) None None None) with
    ((fun o => mk_Meta (m_format m) (m_media_type m) o None None) None).
  apply meta_loop_child.
  { intros n E. apply (reads_message_size (mk_Meta (m_format m) (m_media_type m) None None None)); [done|by rewrite E in T1|congruence]. }
  set (m3 := mk_Meta (m_format m) (m_media_type m) (m_max_message_size m) None None).
  change m3 with ((fun o => mk_Meta (m_format m) (m_media_type m) (m_max_message_size m) o None) None).
  apply meta_loop_child.
  { intros n E. apply (reads_object_size m3); [done|by rewrite E in T2|congruence]. }
  set (m4 := mk_Meta (m_format m) (m_media_type m) (m_max_message_size m) (m_max_object_size m) None).
  change m4 with ((fun o => mk_Meta (m_format m) (m_media_type m) (m_max_message_size m) (m_max_object_size m) o) None).
  apply meta_loop_child.
  { intros n E. apply (reads_size m4); [done|by rewrite E in T3]. }
  intros fuel. destruct m. apply meta_loop_end.
Qed.
(** Metadata the writer may write: what validation accepts. *)
Definition sound_meta (m : option Meta) : Prop := typed_meta m /\ exists credential, validate_meta l m credential = Ok ().
Lemma reads_meta m : sound_meta m -> reads l (clear [(NS, lit "Meta")]) (meta l) (show_all NS (meta_nodes l m)) m.
Proof.
  intros [Ht [credential Hv]]. unfold meta. destruct m as [m|]; cbn [meta_nodes opt_nodes].
  - unfold meta_nodes, opt_nodes. rewrite show_elem. apply is_there; [by intros|]. cbn [negb].
    apply validate_meta_ok in Hv as (Hf & Hm & Hs1 & Hs2). destruct Ht as (T1 & T2 & T3).
    step (reads_open l NS (lit "Meta") None).
    step (reads_meta_kids m (event_fuel l) T1 T2 T3 Hf Hm Hs1 Hs2).
    eapply reads_then; [apply reads_end|done_reading|done].
  - skip (reads_is_not l NS (lit "Meta")). done_reading.
Qed.
End Read.

(** ** Reading back items, statuses, results and alerts *)
Section ReadItems.
Context `{QX : QuickXml} `{UC : UuidCrate} `{UT : !UuidText} `{B64 : Base64Standard} (l : CodecLimits) (Hl : usize_limits l).

(** The last part closes the element. *)
Ltac close := eapply reads_then; [apply reads_end|done_reading|done].

(** ** Items *)
Lemma reads_data o max : max <= u64_max ->
  reads l (clear [(NS, lit "Data")]) (read_data l max) (show_all NS (opt_nodes (fun v => scalar_nodes (lit "Data") v max true) o)) o.
Proof.
  intros Hmax. unfold read_data. destruct o as [v|]; cbn [opt_nodes].
  - apply is_there; [by intros|].
    eapply reads_then; [by apply reads_scalar|done_reading|done].
  - skip (reads_is_not l NS (lit "Data")). done_reading.
Qed.
Lemma reads_more (b : bool) :
  reads l (clear [(NS, lit "MoreData")]) (read_more l) (show_all NS (if b then elem (lit "MoreData") [] else [])) b.
Proof.
  unfold read_more. destruct b.
  - rewrite show_elem. apply is_there; [by intros|]. step (reads_open l NS (lit "MoreData") None). close.
  - skip (reads_is_not l NS (lit "MoreData")). done_reading.
Qed.
Definition sound_item (i : Item) : Prop := sound_meta l (i_meta i).
Lemma show_item i : show_all NS (item_nodes l i) =
  SItem :: SStart NS (lit "Item") None :: show_all NS (item_kids l i) ++ [SEnd NS (lit "Item")].
Proof. unfold item_nodes. rewrite show_all_app, show_elem. done. Qed.
Lemma reads_one_item i : sound_item i -> reads l anything (read_item l) (show_all NS (item_nodes l i)) i.
Proof.
  intros Hm. unfold read_item. rewrite show_item. step (reads_item l). step (reads_open l NS (lit "Item") None).
  unfold item_kids. rewrite !show_all_app, <-!app_assoc.
  step (reads_optional_location l Hl (lit "Target") (i_target i)).
  step (reads_optional_location l Hl (lit "Source") (i_source i)).
  step (reads_meta l Hl (i_meta i) Hm).
  step (reads_data (i_data i) (l_object_bytes l) (ul_object l Hl)).
  step (reads_more (more_data i)).
  eapply reads_then; [apply reads_end| |done]. destruct i. done_reading.
Qed.
Lemma items_loop_reads fuel out its : Forall sound_item its ->
  reads l (clear [(NS, lit "Item")]) (items_loop l fuel out) (show_all NS (items_nodes l its)) (out ++ its).
Proof.
  intros Hits. revert out its Hits. induction fuel as [|fuel IH]; intros out its Hits; [by intros s rest _ _; left|].
  cbn [items_loop]. destruct its as [|i its].
  - skip (reads_is_not l NS (lit "Item")). rewrite app_nil_r. done_reading.
  - inversion Hits. subst. unfold items_nodes. rewrite bind_cons, show_all_app.
    apply is_there; [by intros|]. step (reads_one_item i ltac:(done)). rewrite (cons_middle i out its), app_assoc. by apply IH.
Qed.
Lemma reads_items its : its <> [] -> Forall sound_item its ->
  reads l (clear [(NS, lit "Item")]) (items l) (show_all NS (items_nodes l its)) its.
Proof.
  intros Hne Hits. unfold items. eapply reads_then; [by apply items_loop_reads| |done]. cbn [app].
  eapply reads_pure; [by destruct its|]. done_reading.
Qed.
Lemma reads_items_if its : Forall sound_item its ->
  reads l (clear [(NS, lit "Item")]) (at_item ← is_ l NS (lit "Item"); if (at_item : bool) then items l else mret [])
    (show_all NS (items_nodes l its)) its.
Proof.
  intros Hits. destruct its as [|i its].
  - skip (reads_is_not l NS (lit "Item")). done_reading.
  - apply is_there; [by intros|]. by apply reads_items.
Qed.

(** ** Statuses *)
Lemma refs_loop_reads fuel name out refs : zlen out + zlen refs <= l_items l ->
  reads l (clear [(NS, name)]) (refs_loop l fuel name out) (show_all NS (refs ≫= ref_nodes l name)) (out ++ refs).
Proof.
  revert out refs. induction fuel as [|fuel IH]; intros out refs Hn; [by intros s rest _ _; left|].
  cbn [refs_loop]. destruct refs as [|r refs].
  - skip (reads_is_not l NS name). rewrite app_nil_r. done_reading.
  - rewrite bind_cons, show_all_app. rewrite zlen_cons in Hn. pose proof (zlen_nonneg refs).
    apply is_there; [by intros|]. eapply reads_pure; [unfold bound, reject; by rewrite (proj2 (Z.ltb_ge _ _)) by lia|].
    assert (reads l anything (scalar l NS name (l_uri_bytes l) false) (show_all NS (ref_nodes l name r)) r) as Hr.
    { unfold ref_nodes. rewrite show_all_app. apply reads_skip; [done|]. apply reads_scalar, Hl. }
    step Hr. rewrite (cons_middle r out refs), app_assoc. apply IH. rewrite zlen_app. unfold zlen in *. simpl. lia.
Qed.
Lemma reads_refs name rs : zlen rs <= l_items l ->
  reads l (clear [(NS, name)]) (refs l name) (show_all NS (rs ≫= ref_nodes l name)) rs.
Proof. intros Hn. apply (refs_loop_reads _ name []). done. Qed.
Definition sound_credential (c : option Credential) : Prop := match c with Some c => sound_meta l (Some (cr_meta c)) | None => True end.
Lemma reads_credential c : sound_credential c ->
  reads l (clear [(NS, lit "Cred")]) (read_credential l) (show_all NS (credential_nodes l c)) c.
Proof.
  intros Hc. unfold read_credential. destruct c as [c|].
  - apply is_there; [by intros|]. cbn [negb]. unfold credential_nodes, opt_nodes. rewrite show_elem.
    step (reads_open l NS (lit "Cred") None). rewrite show_all_app, <-app_assoc.
    step (reads_meta l Hl (Some (cr_meta c)) Hc). pure. step (reads_scalar l NS (lit "Data") (cr_data c) (l_field_bytes l) false (ul_field l Hl)).
    eapply reads_then; [apply reads_end| |done]. destruct c. done_reading.
  - skip (reads_is_not l NS (lit "Cred")). done_reading.
Qed.
Definition sound_challenge (c : option Challenge) : Prop :=
  match c with
  | Some c => ch_media_type c ∈ auth_types /\ forall v, ch_nonce c = Some v -> text v (l_identifier_bytes l) false = Ok ()
  | None => True
  end.
Lemma auth_type_strict t max : t ∈ auth_types -> text t max true = Ok () -> text t max false = Ok ().
Proof.
  intros Ht. apply text_strict. unfold auth_types in Ht.
  repeat (apply elem_of_cons in Ht as [->|Ht]; [reflexivity|]). by apply elem_of_nil in Ht.
Qed.
Lemma reads_optional_metinf name o max : max <= u64_max ->
  (forall v, o = Some v -> text v max true = Ok () -> text v max false = Ok ()) ->
  reads l (clear [(META, name)]) (optional l META name max) (show_all NS (opt_nodes (fun v => metinf_nodes name v max) o)) o.
Proof.
  intros Hmax Hx. unfold optional. destruct o as [v|]; cbn [opt_nodes].
  - apply is_there; [by intros|]. eapply reads_then; [apply (reads_metinf l NS); [done|by apply Hx]|done_reading|done].
  - skip (reads_is_not l META name). done_reading.
Qed.
Lemma reads_challenge c : sound_challenge c ->
  reads l (clear [(NS, lit "Chal")]) (read_challenge l) (show_all NS (opt_nodes (challenge_nodes l) c)) c.
Proof.
  intros Hc. unfold read_challenge. destruct c as [c|]; cbn [opt_nodes].
  - destruct Hc as [Ht Hn]. apply is_there; [by intros|]. cbn [negb]. unfold challenge_nodes at 1. rewrite show_elem.
    step (reads_open l NS (lit "Chal") None). unfold challenge_kids. rewrite show_elem. cbn [app].
    step (reads_open l NS (lit "Meta") None). rewrite !show_all_app, <-!app_assoc.
    assert (reads l (clear [(META, lit "Format")]) (optional l META (lit "Format") (l_identifier_bytes l))
      (show_all NS (metinf_nodes (lit "Format") (lit "b64") (l_identifier_bytes l))) (Some (lit "b64"))) as Hformat.
    { apply (reads_optional_metinf (lit "Format") (Some (lit "b64"))); [apply Hl|]. intros v [= <-]. by apply text_strict. }
    step Hformat. pure.
    step (reads_metinf l NS (lit "Type") (ch_media_type c) (l_uri_bytes l) (ul_uri l Hl) (auth_type_strict _ _ Ht)).
    step (reads_optional_metinf (lit "NextNonce") (ch_nonce c) (l_identifier_bytes l) (ul_identifier l Hl) (fun v E _ => Hn v E)).
    step (reads_end l NS (lit "Meta")). eapply reads_then; [apply reads_end| |done]. destruct c. done_reading.
  - skip (reads_is_not l NS (lit "Chal")). done_reading.
Qed.
Lemma CommandName_parse_as_str c : CommandName_parse (CommandName_as_str c) = Ok c.
Proof. by destruct c. Qed.
Definition sound_status (s : Status) : Prop :=
  u32 (s_id s) /\ s_id s <> 0 /\ u32 (s_message_ref s) /\ s_message_ref s <> 0 /\ u32 (s_command_ref s) /\
  100 <= s_code s <= 599 /\ zlen (s_target_refs s) <= l_items l /\ zlen (s_source_refs s) <= l_items l /\
  Forall sound_item (s_items s) /\ sound_credential (s_credential s) /\
  match s_challenge s with Some _ => sound_challenge (s_challenge s) | None => True end.
(** A list of items that may be empty, then the rest. *)
Lemma reads_some_items {B} Q its (k : list Item -> xread B) ys b : Forall sound_item its ->
  reads l Q (k its) ys b -> (forall rest, Q rest -> clear [(NS, lit "Item")] (ys ++ rest)) ->
  reads l Q (at_item ← is_ l NS (lit "Item"); details ← (if (at_item : bool) then items l else mret []); k details)
    (show_all NS (items_nodes l its) ++ ys) b.
Proof.
  intros Hits Hk Hc. destruct its as [|i its].
  - eapply (reads_first l (clear [(NS, lit "Item")])); [apply reads_is_not| |exact Hc]. cbv iota.
    eapply (reads_first l anything); [apply reads_ret|done|done].
  - apply is_there; [by intros|]. by eapply reads_bind; [apply reads_items|..].
Qed.
Lemma show_command c : show_all NS (command_nodes l c) =
  SCommand :: SStart NS (command_element c) None :: show_all NS (num_nodes l (lit "CmdID") (command_id c)) ++
    show_all NS (match c with
        | Atomic _ children | Sequence _ children => children ≫= command_nodes l
        | Get _ meta items | Add _ meta items | Replace _ meta items | Delete _ meta items | Exec _ meta items =>
            meta_nodes l meta ++ items_nodes l items
        | DevInfo _ items => items_nodes l items
        | AlertCommand _ alert => alert_kids l alert
        | StatusCommand s => status_kids l s
        | ResultsCommand r => results_kids l r
        end) ++ [SEnd NS (command_element c)].
Proof.
  assert (command_nodes l c = [CommandMark] ++ elem (command_element c) (num_nodes l (lit "CmdID") (command_id c) ++
    match c with
    | Atomic _ children | Sequence _ children => children ≫= command_nodes l
    | Get _ meta items | Add _ meta items | Replace _ meta items | Delete _ meta items | Exec _ meta items =>
        meta_nodes l meta ++ items_nodes l items
    | DevInfo _ items => items_nodes l items
    | AlertCommand _ alert => alert_kids l alert
    | StatusCommand s => status_kids l s
    | ResultsCommand r => results_kids l r
    end)) as -> by (destruct c; reflexivity).
  by rewrite show_all_app, show_elem, show_all_app, <-app_assoc.
Qed.
(** The start every command shares. *)
Ltac command_head c :=
  rewrite (show_command c); cbn [command_element command_id]; step (reads_command l);
  step (reads_open l NS (command_element c) None).
Ltac num_step name n zero := step (reads_num l Hl name n zero ltac:(assumption) ltac:(first [discriminate|intros _; assumption])).
Lemma reads_trailing s : zlen (s_target_refs s) <= l_items l -> zlen (s_source_refs s) <= l_items l ->
  reads l (clear [(NS, lit "TargetRef"); (NS, lit "SourceRef")])
    (t ← refs l (lit "TargetRef"); s ← refs l (lit "SourceRef"); mret (t, s)) (show_all NS (refs_nodes l s))
    (s_target_refs s, s_source_refs s).
Proof.
  intros Ht Hs. unfold refs_nodes. rewrite show_all_app.
  refine (reads_bind l _ _ _ _ _ _ _ _ (reads_refs (lit "TargetRef") (s_target_refs s) Ht) _ _).
  - eapply reads_then; [apply (reads_refs _ _ Hs)|done_reading|]. intros rest [Hx Hf]. inversion Hf as [|? ? _ Hf']. by split.
  - intros rest [Hx Hf]. inversion Hf. assert (clear [(NS, lit "TargetRef")] rest) as Hc by (split; [done|by constructor]).
    clear_rest.
Qed.
Lemma reads_status s : sound_status s ->
  reads l anything (read_status l) (show_all NS (command_nodes l (StatusCommand s))) s.
Proof.
  intros (H1 & H2 & H3 & H4 & H5 & Hcode & Ht & Hs & Hits & Hcred & Hchal). unfold read_status.
  assert (u32 (s_code s)) as Hcode' by (unfold u32, u32_max; lia). assert (s_code s <> 0) as Hcode0 by lia.
  command_head (StatusCommand s). num_step (lit "CmdID") (s_id s) false.
  unfold status_kids. rewrite !show_all_app, <-!app_assoc.
  num_step (lit "MsgRef") (s_message_ref s) false. num_step (lit "CmdRef") (s_command_ref s) true.
  step (reads_scalar l NS (lit "Cmd") (CommandName_as_str (s_command s)) (l_identifier_bytes l) false (ul_identifier l Hl)).
  eapply reads_pure; [apply CommandName_parse_as_str|].
  destruct (is_oma s) eqn:Eo.
  - refine (reads_first l (clear [(NS, lit "Data")]) _ _ _ _ _ _ (reads_is_not l NS (lit "Data")) _ _).
    2:{ unfold refs_nodes. unfold is_oma in Eo. intros rest Hr. rewrite !show_all_app, <-!app_assoc.
        destruct (s_credential s) as [cr|] eqn:E1; [clear_rest|].
        destruct (s_challenge s) as [ch|] eqn:E2; [clear_rest|done]. }
    unfold refs_nodes. rewrite show_all_app, <-app_assoc.
    step (reads_refs (lit "TargetRef") (s_target_refs s) Ht).
    step (reads_refs (lit "SourceRef") (s_source_refs s) Hs).
    step (reads_credential (s_credential s) Hcred).
    assert (sound_challenge (s_challenge s)) as Hc by (by destruct (s_challenge s)).
    step (reads_challenge (s_challenge s) Hc).
    num_step (lit "Data") (s_code s) false.
    eapply reads_pure; [unfold reject; by rewrite (proj2 (Z.ltb_ge _ _)) by lia|].
    apply reads_some_items; [done| |solve [clear_rest]].
    eapply (reads_first l anything); [apply reads_ret| |done]. eapply reads_then; [apply reads_end| |done]. destruct s. done_reading.
  - assert (s_credential s = None /\ s_challenge s = None) as [Ec Eh].
    { unfold is_oma in Eo. by destruct (s_credential s), (s_challenge s). }
    rewrite Ec, Eh. apply is_there; [by intros|]. cbn [app].
    assert (zlen (@nil rstr) <= l_items l) as H0 by (pose proof (zlen_nonneg (s_target_refs s)); unfold zlen in *; simpl; lia).
    change (show_all NS []) with (@nil shown). change (show_all NS (credential_nodes l None)) with (@nil shown).
    change (show_all NS (opt_nodes (challenge_nodes l) None)) with (@nil shown). cbn [app].
    skip (reads_refs (lit "TargetRef") [] H0). skip (reads_refs (lit "SourceRef") [] H0).
    skip (reads_credential None I). skip (reads_challenge None I).
    num_step (lit "Data") (s_code s) false.
    eapply reads_pure; [unfold reject; by rewrite (proj2 (Z.ltb_ge _ _)) by lia|].
    apply reads_some_items; [done| |unfold refs_nodes; rewrite show_all_app; clear_rest].
    step (reads_trailing s Ht Hs). eapply reads_then; [apply reads_end| |done]. destruct s. simpl in *. subst. done_reading.
Qed.

(** ** Results *)
Lemma reads_optional_num name o : u32_opt o -> o <> Some 0 ->
  reads l (clear [(NS, name)]) (optional_num l name) (show_all NS (opt_nodes (num_nodes l name) o)) o.
Proof.
  intros Ho Hz. unfold optional_num, optional. destruct o as [n|]; cbn [opt_nodes].
  - apply (reads_then l anything _ _ _ _ (Some (int_to_string n)));
      [|eapply reads_pure; [apply number_ok; [done|congruence]|done_reading]|done].
    apply is_there; [by intros|]. eapply reads_then; [apply reads_scalar, Hl|done_reading|done].
  - apply (reads_first l (clear [(NS, name)]) _ _ _ _ None); [|done_reading|done]. skip (reads_is_not l NS name). done_reading.
Qed.
Lemma reads_optional_name o :
  reads l (clear [(NS, lit "Cmd")])
    (name ← optional l NS (lit "Cmd") (l_identifier_bytes l);
     match name with Some s => n ← lift (CommandName_parse s); mret (Some n) | None => mret None end)
    (show_all NS (opt_nodes (fun v => scalar_nodes (lit "Cmd") (CommandName_as_str v) (l_identifier_bytes l) false) o)) o.
Proof.
  unfold optional. destruct o as [c|]; cbn [opt_nodes].
  - apply (reads_then l anything _ _ _ _ (Some (CommandName_as_str c)));
      [|eapply reads_pure; [apply CommandName_parse_as_str|done_reading]|done].
    apply is_there; [by intros|]. eapply reads_then; [apply reads_scalar, Hl|done_reading|done].
  - apply (reads_first l (clear [(NS, lit "Cmd")]) _ _ _ _ None); [|done_reading|done].
    skip (reads_is_not l NS (lit "Cmd")). done_reading.
Qed.
Definition sound_results (r : Results) : Prop :=
  u32 (r_id r) /\ r_id r <> 0 /\ u32_opt (r_message_ref r) /\ r_message_ref r <> Some 0 /\ u32_opt (r_command_ref r) /\
  r_command_ref r <> Some 0 /\ sound_meta l (r_meta r) /\ r_items r <> [] /\ Forall sound_item (r_items r).
(** [reads] does not see how binds are nested. *)
Lemma reads_assoc {E A B C} Q (m : reader E A) (f : A -> reader E B) (g : B -> reader E C) xs c :
  reads l Q ((m ≫= f) ≫= g) xs c -> reads l Q (m ≫= fun a => f a ≫= g) xs c.
Proof.
  intros H s rest Hr Hs. specialize (H s rest Hr Hs). unfold mbind, reader_bind in *. by destruct (m s) as [[a s']| |].
Qed.
Lemma reads_results r : sound_results r -> reads l anything (read_results l) (show_all NS (command_nodes l (ResultsCommand r))) r.
Proof.
  intros (H1 & H2 & H3 & H4 & H5 & H6 & Hm & Hne & Hits). unfold read_results.
  command_head (ResultsCommand r). num_step (lit "CmdID") (r_id r) false.
  unfold results_kids. rewrite !show_all_app, <-!app_assoc.
  step (reads_optional_num (lit "MsgRef") (r_message_ref r) H3 H4).
  step (reads_optional_num (lit "CmdRef") (r_command_ref r) H5 H6).
  apply reads_assoc. step (reads_optional_name (r_command r)).
  step (reads_meta l Hl (r_meta r) Hm). step (reads_items (r_items r) Hne Hits).
  eapply reads_then; [apply reads_end| |done]. destruct r. done_reading.
Qed.
End ReadItems.
