(* ===== verification/SyncmlReadCommands.v ===== *)
(** * SyncML messages: reading back alerts, commands and messages *)
From S2P Require Import Prelude Ordered Text External Xml Declared SyncmlModel SyncmlCodec XmlTotal.
From S2P Require Import SyncmlTotal XmlTree XmlWrite SyncmlWire SyncmlRead.

Section ReadCommands.
Context `{QX : QuickXml} `{UC : UuidCrate} `{UT : !UuidText} `{B64 : Base64Standard} (l : CodecLimits) (Hl : usize_limits l).

Ltac num_step name n zero := step (reads_num l Hl name n zero ltac:(assumption) ltac:(first [discriminate|intros _; assumption])).

(** ** Alerts *)
(** The metadata of a typed alert: the type, then the format. *)
Definition typed_meta_nodes (kind : rstr) (b : bool) : list node :=
  elem (lit "Meta")
    (metinf_nodes (lit "Type") kind (l_uri_bytes l)
     ++ (if b then metinf_nodes (lit "Format") (lit "chr") (l_identifier_bytes l) else [])).
Lemma reads_typed_meta kind (b : bool) : is_empty (trim kind) = false ->
  text kind (l_uri_bytes l) true = Ok () -> (b = true -> text (lit "chr") (l_identifier_bytes l) true = Ok ()) ->
  reads l anything (meta l) (show_all NS (typed_meta_nodes kind b))
    (Some (mk_Meta (if b then Some (lit "chr") else None) (Some kind) None None None)).
Proof.
  intros Hk Ht Hb. unfold meta, typed_meta_nodes. rewrite show_elem. apply is_there; [by intros|]. cbn [negb].
  step (reads_open l NS (lit "Meta") None).
  assert (reads l (clear meta_names) (meta_loop l (event_fuel l) Meta_default)
    (show_all NS (metinf_nodes (lit "Type") kind (l_uri_bytes l)
       ++ (if b then metinf_nodes (lit "Format") (lit "chr") (l_identifier_bytes l) else [])))
    (mk_Meta (if b then Some (lit "chr") else None) (Some kind) None None None)) as Hloop.
  { generalize (event_fuel l) as fuel. rewrite show_all_app.
    apply (meta_loop_child l (clear meta_names) (fun v => metinf_nodes (lit "Type") v (l_uri_bytes l)) (Some kind)
      _ _ (fun o => mk_Meta None o None None None)).
    { intros v E. injection E as <-. apply (reads_type l Hl Meta_default); [done|by apply text_strict]. }
    rewrite <-(app_nil_r (show_all NS (if b then _ else _))).
    replace (if b then metinf_nodes (lit "Format") (lit "chr") (l_identifier_bytes l) else []) with
      (opt_nodes (fun v => metinf_nodes (lit "Format") v (l_identifier_bytes l)) (if b then Some (lit "chr") else None))
      by (by destruct b).
    apply (meta_loop_child l (clear meta_names) (fun v => metinf_nodes (lit "Format") v (l_identifier_bytes l)) _
      _ _ (fun o => mk_Meta o (Some kind) None None None)); [|intros fuel; apply meta_loop_end; done].
    intros v E. destruct b; [|done]. injection E as <-.
    apply (reads_format l Hl (mk_Meta None (Some kind) None None None)); [done|]. by apply text_strict; [|apply Hb]. }
  step Hloop. eapply reads_then; [apply reads_end|done_reading|done].
Qed.
Definition sound_alert (a : Alert) : Prop :=
  match a with
  | EndOfData items => items <> [] /\ Forall (sound_item l) items
  | Generic items => items <> [] /\ Forall (sound_item l) items /\ Forall (fun i => item_media_type i <> Some UNENROLLMENT) items
  | DeclaredConfiguration summary b => (exists v, summaries summary = Ok v)
  | _ => True
  end.
(** The text checks the writer made inside the metadata. *)
Lemma typed_checks {E A} P (m : reader E A) kind b ys a :
  (text kind (l_uri_bytes l) true = Ok () -> (b = true -> text (lit "chr") (l_identifier_bytes l) true = Ok ()) ->
   reads l P m (show_all NS (typed_meta_nodes kind b) ++ ys) a) ->
  reads l P m (show_all NS (typed_meta_nodes kind b) ++ ys) a.
Proof.
  intros H s rest Hr Hs. pose proof Hs as [_ _ _ Hc]. rewrite Forall_app in Hc. destruct Hc as [Hc _].
  rewrite Forall_app in Hc. destruct Hc as [Hc _]. unfold typed_meta_nodes in Hc. rewrite show_elem in Hc.
  apply Forall_cons_1 in Hc as [_ Hc]. apply Forall_app in Hc as [Hc _]. rewrite show_all_app in Hc.
  apply Forall_app in Hc as [Hk Hf].
  apply H; [| |done|done].
  - rewrite show_metinf, show_text in Hk. inversion Hk as [|? ? _ Hk1]. by inversion Hk1.
  - intros ->. rewrite show_metinf, show_text in Hf. inversion Hf as [|? ? _ Hf1]. by inversion Hf1.
Qed.
Lemma reads_typed_alert kind value (b : bool) a : is_empty (trim kind) = false ->
  (let m := mk_Meta (if b then Some (lit "chr") else None) (Some kind) None None None in
   (if bool_decide (m_media_type m = Some LOGIN_STATUS) then
      (if bool_decide (value = lit "user") then Ok (LoginAlert Login_User (given (m_format m)))
       else if bool_decide (value = lit "others") then Ok (LoginAlert Login_Others (given (m_format m)))
       else if bool_decide (value = lit "none") then Ok (LoginAlert Login_None (given (m_format m)))
       else Err Unsupported)
    else if bool_decide (m_media_type m = Some DECLARED_SUMMARY) then
      match summaries value with
      | Ok _ => Ok (DeclaredConfiguration value (given (m_format m)))
      | Err _ => Err InvalidValue
      | Panic => Panic
      end
    else Err Unsupported) = Ok a) ->
  reads l anything (read_login_status l) (show_all NS (typed_alert_nodes l kind value b)) a.
Proof.
  intros Hk Ha. unfold read_login_status, typed_alert_nodes. fold (typed_meta_nodes kind b). rewrite show_all_app, show_elem.
  step (reads_item l). step (reads_open l NS (lit "Item") None). rewrite show_all_app, <-app_assoc.
  apply typed_checks. intros Ht Hf. step (reads_typed_meta kind b Hk Ht Hf). pure. eapply reads_pure; [by destruct b|].
  step (reads_scalar l NS (lit "Data") value (l_field_bytes l) false (ul_field l Hl)).
  eapply reads_then; [apply reads_end|by apply reads_lift|done].
Qed.
Lemma reads_generic its a : its <> [] -> Forall (sound_item l) its ->
  (if existsb (fun i => bool_decide (item_media_type i = Some UNENROLLMENT)) its
   then its = [unenrollment_item] /\ a = UnenrollmentRequested else a = Generic its) ->
  reads l (clear [(NS, lit "Item")]) (read_generic l) (show_all NS (items_nodes l its)) a.
Proof.
  intros Hne Hits Ha. unfold read_generic. destruct its as [|i its]; [done|].
  eapply (is_other l _ NS (lit "Item")); [by intros|reflexivity|]. pure.
  eapply reads_then; [by apply reads_items| |done]. destruct (existsb _ _).
  - destruct Ha as [-> ->]. pure. done_reading.
  - subst a. done_reading.
Qed.
(** The checks of the writer are known to the reader. *)
Lemma reads_checks {E A} P (m : reader E A) xs a : (Forall checked_text xs -> reads l P m xs a) -> reads l P m xs a.
Proof. intros H s rest Hr Hs. pose proof Hs as [_ _ _ Hc]. apply Forall_app in Hc as [Hc _]. by apply H. Qed.
Lemma sound_unenrollment : Forall checked_text (show_all NS (items_nodes l [unenrollment_item])) -> sound_item l unenrollment_item.
Proof.
  intros H. split; [done|]. exists false.
  change (show_all NS (items_nodes l [unenrollment_item])) with
    (show_all NS (item_nodes l unenrollment_item ++ [])) in H. rewrite app_nil_r, show_item in H.
  apply Forall_cons_1 in H as [_ H]. apply Forall_cons_1 in H as [_ H]. apply Forall_app in H as [H _].
  change (item_kids l unenrollment_item) with (elem (lit "Meta")
    ((metinf_nodes (lit "Format") (lit "int") (l_identifier_bytes l) ++ metinf_nodes (lit "Type") UNENROLLMENT (l_uri_bytes l) ++ [])
    ) ++ scalar_nodes (lit "Data") (lit "1") (l_object_bytes l) true ++ []) in H.
  rewrite show_all_app, show_elem in H. apply Forall_app in H as [H _]. apply Forall_cons_1 in H as [_ H].
  apply Forall_app in H as [H _]. rewrite !show_all_app in H. apply Forall_app in H as [Hf H]. apply Forall_app in H as [Ht _].
  rewrite show_metinf, show_text in Hf, Ht. apply Forall_cons_1 in Hf as [_ Hf]. apply Forall_cons_1 in Ht as [_ Ht].
  apply Forall_cons_1 in Hf as [Hf _]. apply Forall_cons_1 in Ht as [Ht _]. simpl in Hf, Ht.
  unfold unenrollment_item, validate_meta. cbn [i_meta m_format m_media_type m_size m_max_message_size m_max_object_size].
  rewrite (text_strict (lit "int") _ ltac:(reflexivity) Hf), (text_strict UNENROLLMENT _ ltac:(reflexivity) Ht). reflexivity.
Qed.
(** The alert the reader dispatches to by its code. *)
Lemma reads_alert_rest a : sound_alert a ->
  reads l (clear [(NS, lit "Item")]) (read_alert_body l (alert_code a))
    (show_all NS (match a with
     | EndOfData items | Generic items => items_nodes l items
     | UnenrollmentRequested => items_nodes l [unenrollment_item]
     | DeclaredConfiguration summary explicit_format => typed_alert_nodes l DECLARED_SUMMARY summary explicit_format
     | LoginAlert status explicit_format => typed_alert_nodes l LOGIN_STATUS (LoginStatus_as_str status) explicit_format
     | ClientInitiated | MoreMessages | SessionAbort => []
     end)) a.
Proof.
  intros Ha. destruct a; unfold read_alert_body; cbn [alert_code]; try (apply reads_ret).
  - destruct Ha as [v Hv]. eapply reads_weaken; [|apply (reads_typed_alert DECLARED_SUMMARY summary explicit_format)]; [done|reflexivity|].
    cbn. rewrite Hv. by destruct explicit_format.
  - apply reads_checks. intros Hc. apply (reads_generic [unenrollment_item]); [done| |by vm_compute].
    constructor; [by apply sound_unenrollment|done].
  - destruct Ha as [Hne Hits]. eapply reads_then; [by apply reads_items|done_reading|done].
  - destruct Ha as (Hne & Hits & Hg). apply reads_generic; [done..|].
    assert (existsb (fun i => bool_decide (item_media_type i = Some UNENROLLMENT)) items = false) as ->; [|done].
    apply existsb_false_iff. intros i Hi. rewrite Forall_forall in Hg. by apply bool_decide_eq_false, Hg.
  - eapply reads_weaken; [|apply (reads_typed_alert LOGIN_STATUS (LoginStatus_as_str status) explicit_format)]; [done|reflexivity|].
    by destruct status, explicit_format.
Qed.
Lemma reads_alert id a : u32 id -> id <> 0 -> sound_alert a ->
  reads l anything (read_alert l) (show_all NS (command_nodes l (AlertCommand id a))) (AlertCommand id a).
Proof.
  intros Hid Hz Ha. unfold read_alert. rewrite show_command. cbn [command_element command_id].
  step (reads_command l). step (reads_open l NS (lit "Alert") None). num_step (lit "CmdID") id false.
  unfold alert_kids. rewrite show_all_app, <-!app_assoc.
  assert (u32 (alert_code a) /\ alert_code a <> 0) as [Hc Hc0] by (by destruct a).
  num_step (lit "Data") (alert_code a) false. step (reads_alert_rest a Ha).
  eapply reads_then; [apply reads_end|done_reading|done].
Qed.

(** ** Simple commands *)
Definition simple_nodes (name : rstr) (id : Z) (m : option Meta) (its : list Item) : list node :=
  [CommandMark] ++ elem name (num_nodes l (lit "CmdID") id ++ meta_nodes l m ++ items_nodes l its).
Lemma reads_simple name id m its : u32 id -> id <> 0 -> sound_meta l m -> its <> [] -> Forall (sound_item l) its ->
  reads l anything (read_simple l name) (show_all NS (simple_nodes name id m its)) (id, m, its).
Proof.
  intros Hid Hz Hm Hne Hits. unfold read_simple, simple_nodes. rewrite show_all_app, show_elem.
  step (reads_command l). step (reads_open l NS name None). rewrite !show_all_app, <-!app_assoc.
  num_step (lit "CmdID") id false. step (reads_meta l Hl m Hm). step (reads_items l Hl its Hne Hits).
  eapply reads_then; [apply reads_end|done_reading|done].
Qed.

(** ** Commands *)
(** What a command must have of its own to be read back. *)
Definition sound_simple (id : Z) (m : option Meta) (its : list Item) : Prop :=
  u32 id /\ id <> 0 /\ sound_meta l m /\ its <> [] /\ Forall (sound_item l) its.
Definition sound_command (c : Command) : Prop :=
  match c with
  | Atomic id _ | Sequence id _ => u32 id /\ id <> 0
  | Add id m its | Get id m its | Delete id m its | Exec id m its => sound_simple id m its
  | Replace id m its => sound_simple id m its /\ existsb (fun i => given (i_target i)) its = true
  | DevInfo id its => sound_simple id None its /\ existsb (fun i => given (i_target i)) its = false
  | StatusCommand s => sound_status l s
  | ResultsCommand r => sound_results l r
  | AlertCommand id a => u32 id /\ id <> 0 /\ sound_alert a
  end.
Definition command_names : list (rstr * rstr) :=
  map (pair NS) [lit "Atomic"; lit "Sequence"; lit "Get"; lit "Status"; lit "Results"; lit "Alert"; lit "Add"; lit "Exec";
    lit "Delete"; lit "Replace"].
Lemma commands_loop_end group fuel out : reads l (clear command_names) (commands_loop l group fuel out) [] out.
Proof.
  destruct fuel as [|fuel]; [by intros s rest _ _; left|]. cbn [commands_loop]. cbv zeta.
  assert (forall n rest, clear command_names rest -> n ∈ command_names -> clear [n] rest) as Hsub.
  { intros n rest [Ht Hf] Hn. split; [done|]. rewrite Forall_forall in Hf. by apply Forall_singleton, Hf. }
  repeat (eapply reads_first; [apply reads_is_not| |intros rest Hr; apply (Hsub _ _ Hr); repeat (first [left; reflexivity|right])]; cbv iota).
  done_reading.
Qed.
Lemma reads_replace id m its : sound_command (Replace id m its) ->
  reads l anything (read_replace l) (show_all NS (command_nodes l (Replace id m its))) (Replace id m its).
Proof.
  intros [(H1 & H2 & H3 & H4 & H5) Ht]. unfold read_replace.
  eapply reads_then; [by apply (reads_simple (lit "Replace") id m its)| |done]. cbv beta iota. rewrite Ht. done_reading.
Qed.
Lemma reads_devinfo id its : sound_command (DevInfo id its) ->
  reads l anything (read_replace l) (show_all NS (command_nodes l (DevInfo id its))) (DevInfo id its).
Proof.
  intros [(H1 & H2 & H3 & H4 & H5) Ht]. unfold read_replace.
  eapply reads_then; [by apply (reads_simple (lit "Replace") id None its)| |done]. cbv beta iota. rewrite Ht. pure. done_reading.
Qed.
(** The continuation of the loop after one command. *)
Definition continues (depth : Z) (levels : nat) (c : Command) : Prop := forall Q ys r out,
  (forall fuel, reads l Q (commands_loop l (read_commands l levels (depth + 1)) fuel (out ++ [c])) ys r) ->
  forall fuel, reads l Q (commands_loop l (read_commands l levels (depth + 1)) fuel out) (show_all NS (command_nodes l c) ++ ys) r.
Ltac branch := cbn [commands_loop]; cbv zeta; peek.
Lemma continues_leaf depth levels c : is_group c = false -> sound_command c -> continues depth levels c.
Proof.
  intros Hg Hc Q ys r out Hnext fuel. destruct fuel as [|fuel]; [by intros s rest _ _; left|].
  destruct c; try discriminate Hg; branch.
  - destruct Hc as (H1 & H2 & H3 & H4 & H5). step (reads_simple (lit "Add") id meta items H1 H2 H3 H4 H5). apply Hnext.
  - step (reads_replace id meta items Hc). apply Hnext.
  - destruct Hc as (H1 & H2 & H3 & H4 & H5). step (reads_simple (lit "Delete") id meta items H1 H2 H3 H4 H5). apply Hnext.
  - destruct Hc as (H1 & H2 & H3 & H4 & H5). step (reads_simple (lit "Exec") id meta items H1 H2 H3 H4 H5). apply Hnext.
  - destruct Hc as (H1 & H2 & H3 & H4 & H5). step (reads_simple (lit "Get") id meta items H1 H2 H3 H4 H5). apply Hnext.
  - step (reads_status l Hl status Hc). apply Hnext.
  - step (reads_results l Hl results Hc). apply Hnext.
  - destruct Hc as (H1 & H2 & H3). step (reads_alert id alert H1 H2 H3). apply Hnext.
  - step (reads_devinfo id items Hc). apply Hnext.
Qed.
Lemma loop_list depth levels cs : Forall (continues depth levels) cs -> forall fuel out,
  reads l (clear command_names) (commands_loop l (read_commands l levels (depth + 1)) fuel out)
    (show_all NS (cs ≫= command_nodes l)) (out ++ cs).
Proof.
  induction 1 as [|c cs Hc _ IH]; intros fuel out.
  - rewrite app_nil_r. apply commands_loop_end.
  - rewrite bind_cons, show_all_app. apply Hc. intros fuel'. rewrite (cons_middle c out cs), app_assoc. apply IH.
Qed.
Lemma reads_commands levels depth cs : depth <= Z.min (l_depth l) 32 ->
  (forall levels', levels = S levels' -> Forall (continues depth levels') cs) ->
  reads l (clear command_names) (read_commands l levels depth) (show_all NS (cs ≫= command_nodes l)) cs.
Proof.
  intros Hd Hcs. destruct levels as [|levels]; cbn [read_commands].
  all: eapply reads_pure; [unfold bound, reject; by rewrite (proj2 (Z.ltb_ge _ _)) by lia|].
  - intros s rest _ _. by left.
  - apply (loop_list depth levels cs). by apply Hcs.
Qed.
Lemma reads_group name (build : Z -> list Command -> Command) group id cs : u32 id -> id <> 0 ->
  reads l (clear command_names) group (show_all NS (cs ≫= command_nodes l)) cs ->
  reads l anything
    (_ ← command l; _ ← open l NS name; id ← num l (lit "CmdID") false; children ← group; _ ← end_ l NS name;
     mret (build id children))
    (SCommand :: SStart NS name None :: show_all NS (num_nodes l (lit "CmdID") id) ++ show_all NS (cs ≫= command_nodes l) ++
       [SEnd NS name]) (build id cs).
Proof.
  intros Hid Hz Hgroup. step (reads_command l). step (reads_open l NS name None). num_step (lit "CmdID") id false.
  step Hgroup. eapply reads_then; [apply reads_end|done_reading|done].
Qed.
Lemma continues_group depth levels id cs (build : Z -> list Command -> Command) :
  (build = Atomic \/ build = Sequence) -> u32 id -> id <> 0 -> depth + 1 <= Z.min (l_depth l) 32 ->
  (forall levels', Forall (continues (depth + 1) levels') cs) -> continues depth levels (build id cs).
Proof.
  intros Hb Hid Hz Hd Hcs Q ys r out Hnext fuel. destruct fuel as [|fuel]; [by intros s rest _ _; left|].
  assert (forall levels', levels = S levels' -> Forall (continues (depth + 1) levels') cs) as Hcs' by (intros; apply Hcs).
  pose proof (reads_commands levels (depth + 1) cs Hd Hcs') as Hgroup.
  destruct Hb as [-> | ->]; branch; rewrite show_command; cbn [command_element command_id].
  - step (reads_group (lit "Atomic") Atomic _ id cs Hid Hz Hgroup). apply Hnext.
  - step (reads_group (lit "Sequence") Sequence _ id cs Hid Hz Hgroup). apply Hnext.
Qed.
Definition good (w : work) : Prop := sound_command (visited w) /\ placed l w.
Lemma visit_head depth group c : exists ws, visit depth group c = (c, depth, group) :: ws.
Proof. destruct c; by eexists. Qed.
(** The children of a group are one level deeper, and all good. *)
Lemma good_children (f : Command -> list work) depth group cs :
  Forall good (concat (map f cs)) -> (forall c, f c = visit (depth + 1) group c) -> cs <> [] ->
  depth + 1 <= Z.min (l_depth l) 32 /\ Forall (fun c => Forall good (visit (depth + 1) group c)) cs.
Proof.
  intros Hg Hf Hne. assert (Forall (fun c => Forall good (visit (depth + 1) group c)) cs) as Hall.
  { clear Hne. induction cs as [|c cs IH]; [constructor|]. simpl in Hg. apply Forall_app in Hg as [Hc Hg].
    rewrite Hf in Hc. constructor; [done|by apply IH]. }
  split; [|done]. destruct cs as [|c cs]; [done|]. inversion Hall as [|? ? Hc _]. subst.
  destruct (visit_head (depth + 1) group c) as [ws Hws]. rewrite Hws in Hc. inversion Hc as [|? ? [_ [Hd _]] _]. done.
Qed.
Lemma continues_good c : forall depth group, Forall good (visit depth group c) -> forall levels, continues depth levels c.
Proof.
  induction c as [c Hc|id cs IH|id cs IH] using Command_tree_ind; intros depth group Hg levels.
  - apply continues_leaf; [done|]. destruct (visit_head depth group c) as [ws Hws]. rewrite Hws in Hg.
    by inversion Hg as [|? ? [Hs _] _].
  - apply Forall_cons_1 in Hg as [[[Hid Hz] [_ [Hne _]]] Hcs].
    destruct (good_children _ depth (Some id) cs Hcs ltac:(done) Hne) as [Hd Hgc].
    apply (continues_group depth levels id cs Atomic); [by left|done..|]. intros levels'.
    rewrite Forall_forall in IH, Hgc |- *. intros c Hc. by apply (IH c Hc (depth + 1) (Some id)), Hgc.
  - apply Forall_cons_1 in Hg as [[[Hid Hz] [_ Hne]] Hcs].
    destruct (good_children _ depth group cs Hcs ltac:(done) Hne) as [Hd Hgc].
    apply (continues_group depth levels id cs Sequence); [by right|done..|]. intros levels'.
    rewrite Forall_forall in IH, Hgc |- *. intros c Hc. by apply (IH c Hc (depth + 1) group), Hgc.
Qed.

(** ** Messages *)
Definition sound_header (h : Header) : Prop :=
  u32 (h_session_id h) /\ h_session_id h <> 0 /\ u32 (h_message_id h) /\ h_message_id h <> 0 /\
  sound_credential l (h_credential h) /\ sound_meta l (h_meta h).
Lemma reads_header h : sound_header h ->
  reads l anything (read_header l) (SStart NS (lit "SyncHdr") None :: show_all NS (header_kids l h) ++ [SEnd NS (lit "SyncHdr")]) h.
Proof.
  intros (H1 & H2 & H3 & H4 & Hc & Hm). unfold read_header, header_kids.
  step (reads_open l NS (lit "SyncHdr") None). rewrite !show_all_app, <-!app_assoc.
  step (reads_scalar l NS (lit "VerDTD") (lit "1.2") (l_identifier_bytes l) false (ul_identifier l Hl)).
  rewrite bool_decide_eq_true_2 by done.
  assert (reads l anything
    (proto ← scalar l NS (lit "VerProto") (l_identifier_bytes l) false;
     lift (reject (negb (bool_decide (proto = lit "DM/1.2"))) Unsupported))
    (show_all NS (scalar_nodes (lit "VerProto") (lit "DM/1.2") (l_identifier_bytes l) false)) ()) as Hproto.
  { eapply reads_then; [apply reads_scalar, Hl|by apply reads_lift|done]. }
  step Hproto.
  num_step (lit "SessionID") (h_session_id h) false. num_step (lit "MsgID") (h_message_id h) false.
  step (reads_location l Hl (lit "Target") (h_target h)). step (reads_location l Hl (lit "Source") (h_source h)).
  step (reads_credential l Hl (h_credential h) Hc). step (reads_meta l Hl (h_meta h) Hm).
  eapply reads_then; [apply reads_end| |done]. destruct h. done_reading.
Qed.
Lemma reads_final (b : bool) :
  reads l (clear [(NS, lit "Final")]) (read_final l) (show_all NS (if b then elem (lit "Final") [] else [])) b.
Proof.
  unfold read_final. destruct b.
  - rewrite show_elem. apply is_there; [by intros|]. step (reads_open l NS (lit "Final") None).
    eapply reads_then; [apply reads_end|done_reading|done].
  - skip (reads_is_not l NS (lit "Final")). done_reading.
Qed.
(** The message without the end of the document. *)
Definition read_parts : xread (Header * list Command * bool) :=
  _ ← open l NS (lit "SyncML");
  h ← read_header l;
  _ ← open l NS (lit "SyncBody");
  cs ← read_commands l 34 0;
  final ← read_final l;
  _ ← end_ l NS (lit "SyncBody");
  _ ← end_ l NS (lit "SyncML");
  mret (h, cs, final).
Lemma read_message_parts s : read_message l s =
  (p ← read_parts; _ ← finish l; mret (mk_Message p.1.1 p.1.2 p.2)) s.
Proof.
  unfold read_message, read_parts, mbind, reader_bind.
  repeat match goal with |- context [match ?x with Ok _ => _ | Err _ => _ | Panic => _ end] => destruct x as [[? ?]| |]; [|done..] end.
  done.
Qed.
Lemma reads_parts m : sound_header (header m) -> Forall good (traversal (commands m)) -> 0 <= l_depth l ->
  reads l anything read_parts (show_all [] (message_nodes l m)) (header m, commands m, final_message m).
Proof.
  intros Hh Hg Hd.
  assert (show_all [] (message_nodes l m) = SStart NS (lit "SyncML") (Some NS) ::
    (SStart NS (lit "SyncHdr") None :: show_all NS (header_kids l (header m)) ++ [SEnd NS (lit "SyncHdr")]) ++
    SStart NS (lit "SyncBody") None :: show_all NS (commands m ≫= command_nodes l) ++
     show_all NS (if final_message m then elem (lit "Final") [] else []) ++ [SEnd NS (lit "SyncBody")] ++
     [SEnd NS (lit "SyncML")]) as ->.
  { unfold message_nodes, show_all at 1. cbn [mbind list_bind show]. rewrite app_nil_r.
    change (_ ≫= show NS) with (show_all NS (elem (lit "SyncHdr") (header_kids l (header m)) ++ elem (lit "SyncBody") (body_kids l m))).
    rewrite show_all_app, !show_elem. unfold body_kids. rewrite show_all_app. f_equal. rewrite <-?app_assoc. simpl.
    by rewrite <-?app_assoc. }
  unfold read_parts. step (reads_open l NS (lit "SyncML") (Some NS)). step (reads_header (header m) Hh).
  step (reads_open l NS (lit "SyncBody") None).
  assert (forall levels', 34%nat = S levels' -> Forall (continues 0 levels') (commands m)) as Hcs.
  { intros levels' _. apply Forall_forall. intros c Hc. apply (continues_good c 0 None).
    unfold traversal in Hg. rewrite Forall_concat, Forall_map in Hg. rewrite Forall_forall in Hg. by apply Hg. }
  assert (0 <= Z.min (l_depth l) 32) as Hd' by lia.
  step (reads_commands 34 0 (commands m) Hd' Hcs). step (reads_final (final_message m)).
  step (reads_end l NS (lit "SyncBody")). eapply reads_then; [apply reads_end|done_reading|done].
Qed.
Lemma read_message_spec m s : sound_header (header m) -> Forall good (traversal (commands m)) -> 0 <= l_depth l ->
  stream l s (show_all [] (message_nodes l m)) ->
  read_message l s = Panic \/ exists s', read_message l s = Ok (m, s').
Proof.
  intros Hh Hg Hd Hs. rewrite <-(app_nil_r (show_all _ _)) in Hs.
  destruct (reads_parts m Hh Hg Hd s [] I Hs) as [Hp|(s' & Hp & Hs')]; rewrite read_message_parts.
  - left. unfold mbind, reader_bind. by rewrite Hp.
  - right. destruct (reads_finish l s' Hs') as [s2 Hf]. exists s2. rewrite (bind_run _ _ _ _ _ Hp), (bind_run _ _ _ _ _ Hf).
    by destruct m.
Qed.
End ReadCommands.
