(* ===== verification/SyncmlRoundtrip.v ===== *)
(** * SyncML messages: decoding what was encoded

    What validation and the types guarantee is what the readers need, so a decoder given the
    bytes of an encoded message returns the message. *)
From S2P Require Import Prelude Ordered Text External Xml Declared SyncmlModel SyncmlCodec SyncmlCorrelation.
From S2P Require Import XmlTotal SyncmlTotal SyncmlExpected XmlTree.
From S2P Require Import XmlWrite SyncmlWire SyncmlRead SyncmlReadCommands.

Section Roundtrip.
Context `{QX : QuickXml} `{UC : UuidCrate} `{UT : !UuidText} `{B64 : Base64Standard} (l : CodecLimits).

(** ** Types *)
(** Identifiers, references and sizes are [u32]s. *)
Definition typed_item (i : Item) : Prop := typed_meta (i_meta i).
Definition typed_credential (c : option Credential) : Prop :=
  match c with Some c => typed_meta (Some (cr_meta c)) | None => True end.
Definition typed_command (c : Command) : Prop :=
  u32 (command_id c) /\
  match c with
  | Atomic _ _ | Sequence _ _ => True
  | Add _ m its | Replace _ m its | Delete _ m its | Exec _ m its | Get _ m its => typed_meta m /\ Forall typed_item its
  | DevInfo _ its => Forall typed_item its
  | StatusCommand s =>
      u32 (s_message_ref s) /\ u32 (s_command_ref s) /\ Forall typed_item (s_items s) /\ typed_credential (s_credential s)
  | ResultsCommand r =>
      u32_opt (r_message_ref r) /\ u32_opt (r_command_ref r) /\ typed_meta (r_meta r) /\ Forall typed_item (r_items r)
  | AlertCommand _ (EndOfData its) | AlertCommand _ (Generic its) => Forall typed_item its
  | AlertCommand _ _ => True
  end.
Definition typed_message (m : Message) : Prop :=
  u32 (h_session_id (header m)) /\ u32 (h_message_id (header m)) /\ typed_credential (h_credential (header m)) /\
  typed_meta (h_meta (header m)) /\ Forall (fun w => typed_command (visited w)) (traversal (commands m)).
(** Two alerts whose encoding the decoder refuses: a generic one with the type of the
    unenrollment request, and an end of data with metadata that validation does not look at. *)
Definition readable (c : Command) : Prop :=
  match c with
  | AlertCommand _ (Generic its) => Forall (fun i => item_media_type i <> Some UNENROLLMENT) its
  | AlertCommand _ (EndOfData its) => Forall (fun i => validate_meta l (i_meta i) false = Ok ()) its
  | _ => True
  end.

(** ** What validation gives *)
Lemma each_ok {E S A} (body : S -> A -> res E S) xs s out x : res_for body xs s = Ok out -> x ∈ xs ->
  exists s1 s2, body s1 x = Ok s2.
Proof.
  revert s. induction xs as [|y xs IH]; intros s H Hx; [by apply elem_of_nil in Hx|]. simpl in H.
  apply bind_ok in H as (s1 & H1 & H). apply elem_of_cons in Hx as [->|Hx]; [by exists s, s1|by eapply IH].
Qed.
Lemma sound_items_of its : Forall typed_item its -> (forall i, i ∈ its -> validate_meta l (i_meta i) false = Ok ()) ->
  Forall (sound_item l) its.
Proof. rewrite !Forall_forall. intros Ht Hv i Hi. split; [by apply Ht|exists false; by apply Hv]. Qed.
Lemma validate_items_ok its get devinfo : validate_items l its get devinfo = Ok () ->
  its <> [] /\ (forall i, i ∈ its -> validate_meta l (i_meta i) false = Ok ()) /\
  (get = false -> existsb (fun i => given (i_target i)) its = false).
Proof.
  unfold validate_items. intros H. apply bind_ok in H as ([] & Hne%reject_ok & H). apply bind_ok in H as ([] & _ & H).
  apply bind_ok in H as (out & Hall & _). split_and!; [by destruct its| |].
  - intros i Hi. destruct (each_ok _ _ _ _ i Hall Hi) as (s1 & s2 & Hv). unfold validate_item in Hv.
    do 4 (apply bind_ok in Hv as (? & _ & Hv)). by apply bind_ok in Hv as ([] & ? & _).
  - intros ->. apply existsb_false_iff. intros i Hi. destruct (each_ok _ _ _ _ i Hall Hi) as (s1 & s2 & Hv).
    unfold validate_item in Hv. apply bind_ok in Hv as (? & _ & Hv). apply bind_ok in Hv as (u & Hu & _).
    by apply bind_ok in Hu as ([] & Ht%reject_ok & _).
Qed.
Lemma validate_mutation_ok c its : validate_mutation l c its = Ok () ->
  its <> [] /\ (forall i, i ∈ its -> validate_meta l (i_meta i) false = Ok ()) /\
  existsb (fun i => given (i_target i)) its = true.
Proof.
  unfold validate_mutation. intros H. apply bind_ok in H as ([] & Hne%reject_ok & H). apply bind_ok in H as ([] & _ & H).
  apply bind_ok in H as (out & Hall & _). split_and!; [by destruct its| |].
  - intros i Hi. destruct (each_ok _ _ _ _ i Hall Hi) as (s1 & s2 & Hv). unfold validate_mutation_item in Hv.
    do 4 (apply bind_ok in Hv as (? & _ & Hv)). by apply bind_ok in Hv as ([] & ? & _).
  - destruct its as [|i its]; [done|]. destruct (each_ok _ _ _ _ i Hall ltac:(by left)) as (s1 & s2 & Hv).
    unfold validate_mutation_item in Hv. apply bind_ok in Hv as (u & Hu%ok_or_ok & _). simpl. by rewrite Hu.
Qed.
Lemma sound_credential_of c : typed_credential c -> validate_credential l c = Ok () -> sound_credential l c.
Proof.
  destruct c as [c|]; [|done]. intros Ht H. unfold validate_credential in H. apply bind_ok in H as ([] & Hm & _).
  split; [done|by exists true].
Qed.
Lemma sound_status_of s n : typed_command (StatusCommand s) -> s_id s <> 0 -> validate_status l s = Ok n -> sound_status l s.
Proof.
  intros (H1 & H2 & H3 & H4 & H5) Hz H. unfold validate_status in H. apply bind_ok in H as ([] & Hcred & H).
  apply bind_ok in H as ([] & Hchal & H). apply bind_ok in H as ([] & Hv%reject_ok & H).
  apply bind_ok in H as ([] & Ht & H). apply bind_ok in H as ([] & Hs & H). apply bind_ok in H as ([] & _ & H).
  apply bind_ok in H as ([] & Hall & _). apply orb_false_iff in Hv as [Hv _]. apply orb_false_iff in Hv as [Hm Hc].
  apply negb_false_iff in Hc. unfold between in Hc. apply andb_true_iff in Hc as [Hc1 Hc2]. simpl in H1.
  assert (forall rs, validate_refs l rs = Ok () -> zlen rs <= l_items l) as Hrefs.
  { intros rs Hr. unfold validate_refs in Hr. apply bind_ok in Hr as ([] & Hb%reject_ok & _). lia. }
  unfold sound_status. split_and!; [done|done|done|lia|done|lia|lia|by apply Hrefs|by apply Hrefs| | |].
  - apply sound_items_of; [done|]. intros i Hi. destruct (each_ok _ _ _ _ i Hall Hi) as ([] & [] & Hd).
    unfold validate_detail in Hd. do 3 (apply bind_ok in Hd as (? & _ & Hd)). by apply bind_ok in Hd as ([] & ? & _).
  - by apply sound_credential_of.
  - destruct (s_challenge s) as [c|]; [|done]. unfold validate_challenge in Hchal.
    apply bind_ok in Hchal as ([] & Hk%reject_ok & Hchal). apply bind_ok in Hchal as ([] & Hn & _).
    apply orb_false_iff in Hk as [_ Hk%negb_false_iff%bool_decide_eq_true]. split; [done|].
    intros v E. rewrite E in Hn. by apply bind_ok in Hn as ([] & ? & _).
Qed.
Lemma sound_simple_of id m its : u32 id -> id <> 0 -> typed_meta m -> validate_meta l m false = Ok () -> its <> [] ->
  Forall typed_item its -> (forall i, i ∈ its -> validate_meta l (i_meta i) false = Ok ()) -> sound_simple l id m its.
Proof.
  intros. assert (sound_meta l m) by (split; [done|by exists false]). assert (Forall (sound_item l) its) by (by apply sound_items_of).
  done.
Qed.
Lemma sound_command_of c n : typed_command c -> readable c -> command_id c <> 0 -> validate_command l c = Ok n -> sound_command l c.
Proof.
  intros [Hid Ht] Hr Hz Hv. destruct c; simpl in Hid, Ht, Hz, Hv; cbn [sound_command]; try done.
  1-4: destruct Ht as [Hm Hits]; apply bind_ok in Hv as ([] & Hvm & Hv); apply bind_ok in Hv as ([] & Hvi & _);
    apply validate_mutation_ok in Hvi as (Hne & Hmeta & Htarget); try (by apply sound_simple_of).
  { by split; [apply sound_simple_of|]. }
  - destruct Ht as [Hm Hits]. apply bind_ok in Hv as ([] & Hvm & Hv). apply bind_ok in Hv as ([] & Hvi & _).
    apply validate_items_ok in Hvi as (Hne & Hmeta & _). by apply sound_simple_of.
  - by eapply sound_status_of.
  - destruct Ht as (H1 & H2 & H3 & H4). apply bind_ok in Hv as ([] & Hrej%reject_ok & Hv).
    apply bind_ok in Hv as ([] & Hvm & Hv). apply bind_ok in Hv as ([] & Hvi & _).
    apply validate_items_ok in Hvi as (Hne & Hmeta & _). apply orb_false_iff in Hrej as [Hrej _].
    apply orb_false_iff in Hrej as [Hr1%bool_decide_eq_false Hr2%bool_decide_eq_false].
    assert (sound_meta l (r_meta results)) as Hsm by (split; [done|by exists false]).
    assert (Forall (sound_item l) (r_items results)) as Hsi by (by apply sound_items_of). done.
  - split_and!; [done|done|]. destruct alert; cbn [sound_alert]; try done; simpl in Hv.
    + do 1 (apply bind_ok in Hv as (? & _ & Hv)). apply bind_ok in Hv as ([] & Hs & _).
      destruct (summaries summary) as [v| |]; try done. by exists v.
    + apply bind_ok in Hv as ([] & Hne%reject_ok & _). split; [by destruct items|].
      apply sound_items_of; [done|]. intros i Hi. exact (proj1 (Forall_forall _ _) Hr i Hi).
    + apply bind_ok in Hv as ([] & Hvi & _). apply validate_items_ok in Hvi as (Hne & Hmeta & _).
      split_and!; [done|by apply sound_items_of|done].
  - apply bind_ok in Hv as ([] & Hvi & _). apply validate_items_ok in Hvi as (Hne & Hmeta & Htarget).
    split; [by apply sound_simple_of|by apply Htarget].
Qed.

(** ** The round trip *)
(** The document that [encode] writes, and what reading it back means: the writer's bytes are
    UTF-8 of legal characters, and the reader reports the written events. *)
Definition document (m : Message) : bytes := render_all (message_nodes l m).
Definition reads_written (m : Message) : Prop :=
  (exists v, from_utf8 (document m) = Some v /\ forallb legal_char v = true) /\
  reads_back l (document m) (show_all [] (message_nodes l m)).
Lemma encode_document m b : encode l m = Ok b -> exists w' b2, b = document m /\
  pay_all l (show_all [] (message_nodes l m)) Budget_new = Ok (out_budget w') /\ b_depth (out_budget w') = 0 /\
  Budget_event l (out_budget w') = Ok b2 /\
  (command_marks (show_all [] (message_nodes l m)) = 0 \/ command_marks (show_all [] (message_nodes l m)) <= l_commands l) /\
  (item_marks (show_all [] (message_nodes l m)) = 0 \/ item_marks (show_all [] (message_nodes l m)) <= l_items l).
Proof.
  intros H. unfold encode in H. apply bind_ok in H as ([] & _ & H). apply bind_ok in H as (w' & Hw & H).
  unfold out_finish in H. apply bind_ok in H as (b2 & Hb2 & H). apply bind_ok in H as ([] & Hd%reject_ok & [= <-]).
  destruct (emits_message l m [] (Output_new (l_syncml_bytes l)) w') as [B P D C I CL IL]; [done|done|].
  simpl in *. exists w', b2. split_and!; try done; lia.
Qed.
Lemma sound_message m : typed_message m -> Forall (fun w => readable (visited w)) (traversal (commands m)) ->
  validate l m = Ok () -> sound_header l (header m) /\ Forall (good l) (traversal (commands m)).
Proof.
  intros (H1 & H2 & H3 & H4 & H5) Hr Hv. pose proof Hv as (flat & Hf & _ & Hall)%validate_commands.
  apply flattened_ok in Hf as (-> & _ & Hp & _). split.
  - unfold validate in Hv. apply bind_ok in Hv as ([] & Hz%reject_ok & Hv). do 2 (apply bind_ok in Hv as (? & _ & Hv)).
    apply bind_ok in Hv as ([] & Hm & Hv). apply bind_ok in Hv as ([] & Hc & _).
    apply orb_false_iff in Hz as [Hz Hz3]. apply orb_false_iff in Hz as [Hz1 Hz2]. unfold sound_header, sound_meta.
    split_and!; [done|lia|done|lia|by apply sound_credential_of|done|by exists false].
  - apply Forall_forall. intros w Hw. rewrite Forall_forall in Hr, H5, Hp. rewrite Forall_forall in Hall.
    destruct (Hall (visited w)) as (Hz & n & Hn); [by apply list_elem_of_fmap_2|].
    split; [|by apply Hp]. by apply (sound_command_of _ n); [apply H5|apply Hr| |].
Qed.
Lemma decode_encode m b : usize_limits l -> 0 <= l_depth l -> typed_message m ->
  Forall (fun w => readable (visited w)) (traversal (commands m)) -> reads_written m ->
  encode l m = Ok b -> decode l b = Ok m.
Proof.
  intros Hl Hd Ht Hr [(v & Hv & Hlegal) Hback] He. pose proof (encode_valid l m b He) as Hvalid.
  pose proof (encode_fits l m b He) as Hfits.
  destruct (encode_document m b He) as (w' & b2 & -> & Hp & Hd0 & Hb2 & Hc & Hi).
  destruct (sound_message m Ht Hr Hvalid) as [Hh Hg].
  pose proof (decode_no_panic l (document m)) as Hnp. unfold decode in Hnp |- *.
  destruct (Input_new (document m) (l_syncml_bytes l)) as [s| |] eqn:Es.
  - assert (stream l s (show_all [] (message_nodes l m))) as Hs.
    { pose proof (ul_commands l Hl). pose proof (ul_items l Hl). eapply stream_start; try done; lia. }
    simpl in Hnp |- *. destruct (read_message_spec l Hl m s Hh Hg Hd Hs) as [E|[s' E]].
    + exfalso. apply Hnp. by rewrite E.
    + rewrite E. simpl. by rewrite Hvalid.
  - exfalso. unfold Input_new, bound, reject in Es. pose proof (ul_syncml l Hl).
    rewrite (proj2 (Z.ltb_ge _ _)) in Es by lia. simpl in Es. rewrite Hv in Es. simpl in Es. by rewrite Hlegal in Es.
  - exfalso. by apply Hnp.
Qed.
End Roundtrip.
