(* ===== verification/XmlExample.v ===== *)
(** * A small XML reader and writer, for closed examples

    An instance of [QuickXml] for documents in ASCII, with elements, attributes in double quotes,
    text and references: enough to evaluate the codecs on concrete messages. *)
From S2P Require Import Prelude Ordered Text External Xml SyncmlModel.

Module XmlExample.
(** ** Writing *)
Definition escape (quot : bool) (c : Z) : rstr :=
  if c =? 38 then lit "&amp;" else if c =? 60 then lit "&lt;" else if c =? 62 then lit "&gt;"
  else if c =? 39 then lit "&apos;" else if c =? 34 then lit "&quot;"
  else if c =? 13 then lit "&#13;" else [c].
Definition start_text (name : rstr) (attrs : list (rstr * rstr)) : rstr :=
  lit "<" ++ name
    ++ (attrs ≫= fun a => lit " " ++ a.1 ++ [61; 34] ++ (a.2 ≫= escape true) ++ [34]) ++ lit ">".

(** ** Reading *)
(** The characters up to the first one that satisfies [stop], and the rest. *)
Fixpoint span (stop : Z -> bool) (s : rstr) : rstr * rstr :=
  match s with
  | [] => ([], [])
  | c :: s' => if stop c then ([], s) else let r := span stop s' in (c :: r.1, r.2)
  end.
Definition is_char (x c : Z) : bool := c =? x.
Fixpoint attributes (fuel : nat) (s : rstr) : list (rstr * rstr) :=
  match fuel, s with
  | S fuel, 32 :: s =>
      let k := span (is_char 61) s in
      match k.2 with
      | 61 :: 34 :: s => let v := span (is_char 34) s in (k.1, v.1) :: attributes fuel (tail v.2)
      | _ => []
      end
  | _, _ => []
  end.
(** The default namespace an element declares, or the one it inherits. *)
Definition default_ns (inherited : rstr) (attrs : list (rstr * rstr)) : rstr :=
  match List.find (fun a => bool_decide (a.1 = lit "xmlns")) attrs with Some a => a.2 | None => inherited end.
Definition resolved (ns name : rstr) : Resolved := mk_Resolved (if is_empty ns then Unbound else Bound ns) name.
Definition raw (a : rstr * rstr) : option RawAttribute := Some (mk_RawAttribute a.1 a.2 (mk_Resolved Unbound a.1)).
Definition reference (name : rstr) : XmlError + option Z :=
  match name with
  | 35 :: digits => match parse_unsigned 1114111 digits with Some n => inr (Some n) | None => inl OtherXmlError end
  | _ => inr None
  end.
(** The events of a document; [stack] holds the default namespaces of the open elements. *)
Fixpoint events (fuel : nat) (stack : list rstr) (s : rstr) : list Event :=
  match fuel with
  | O => []
  | S fuel =>
      match s with
      | [] => []
      | 60 :: 47 :: s =>
          let n := span (is_char 62) s in
          EvEnd (resolved (hd [] stack) n.1) :: events fuel (tail stack) (tail n.2)
      | 60 :: s =>
          let tag := span (is_char 62) s in
          let n := span (is_char 32) tag.1 in
          let attrs := attributes (length tag.1) n.2 in
          let ns := default_ns (hd [] stack) attrs in
          EvStart n.1 (resolved ns n.1) (map raw attrs) :: events fuel (ns :: stack) (tail tag.2)
      | 38 :: s =>
          let n := span (is_char 59) s in
          EvGeneralRef n.1 (reference n.1) :: events fuel stack (tail n.2)
      | _ =>
          let t := span (fun c => (c =? 60) || (c =? 38)) s in
          EvText t.1 :: events fuel stack t.2
      end
  end.

#[export] Instance quick_xml : QuickXml := {|
  read_event _ input n := inr (nth n (events (length input) [] input) EvEof);
  normalized_value v := inr v;
  write_start name attrs := str_bytes (start_text name attrs);
  write_end name := str_bytes (lit "</" ++ name ++ lit ">");
  write_text v := str_bytes (v ≫= escape false)
|}.
(** Base64 texts of four characters stand for three octets. *)
#[export] Instance base64 : Base64Standard := {|
  standard_decode s := if zlen s mod 4 =? 0 then Some (replicate (length s / 4 * 3) 0) else None
|}.
End XmlExample.
