(* ===== verification/SyncmlProperties.v ===== *)
(** * SyncML: the properties of the codec, correlation, fragmentation and declared documents

    Each theorem is followed, at the end of the file, by an application to concrete messages read
    and written by the small XML reader of [XmlExample]. *)
From stdpp Require Import sorting.
From S2P Require Import Prelude Ordered Text External Xml Declared DeclaredSpec SyncmlModel SyncmlCodec.
From S2P Require Import SyncmlCorrelation XmlTotal SyncmlTotal SyncmlExpected.
From S2P Require Import SyncmlCorrelate SyncmlFragment XmlTree XmlWrite SyncmlWire.
From S2P Require Import SyncmlRead SyncmlRoundtrip XmlExample.

Lemma sorted_lookup {A} (R : relation A) xs i j x y : StronglySorted R xs -> xs !! i = Some x -> xs !! j = Some y ->
  (i < j)%nat -> R x y.
Proof.
  intros H Hi Hj Hij. rewrite <-(take_drop j xs) in H. apply (StronglySorted_app_1_elem_of R _ _ x y H).
  - apply list_elem_of_lookup. exists i. by rewrite lookup_take_lt.
  - apply list_elem_of_lookup. exists 0%nat. by rewrite lookup_drop, Nat.add_0_r.
Qed.

Section SyncmlTheorems.
Context `{QX : QuickXml} `{UC : UuidCrate} `{UT : !UuidText} `{B64 : Base64Standard}.
Implicit Types (l : CodecLimits) (m : Message) (e : Expected).

(** ** The codec *)
(** [flattened] returns the commands in the order of a preorder traversal of the groups, exactly when they are no more than the limit, every command may stand where it does, and no atomic group replaces a target it added before. *)
Theorem flattened_is_traversal l cs out : flattened l cs = Ok out <->
  out = map visited (traversal cs) /\ zlen out <= l_commands l /\ Forall (placed l) (traversal cs) /\
  never_readded (traversal cs).
Proof. apply flattened_ok. Qed.

(** C35: Reading any bytes ends, whatever the XML reader reports, with an error or with a valid message: no event budget, nesting or loop can make it panic; and writing any message ends with an error, or with at most the permitted number of bytes. *)
Theorem codec_total l input m :
  ((exists m', decode l input = Ok m' /\ validate l m' = Ok ()) \/ (exists er, decode l input = Err er)) /\
  ((exists wire, encode l m = Ok wire /\ validate l m = Ok () /\ zlen wire <= Z.max 0 (l_syncml_bytes l)) \/
   (exists er, encode l m = Err er)).
Proof.
  split.
  - pose proof (decode_no_panic l input). destruct (decode l input) as [m'|er|] eqn:E; [left|right|done].
    + exists m'. split; [done|by eapply decode_valid].
    + by exists er.
  - pose proof (encode_no_panic l m). destruct (encode l m) as [w|er|] eqn:E; [left|right|done].
    + exists w. split_and!; [done|by eapply encode_valid|by eapply encode_fits].
    + by exists er.
Qed.

(** C7: Decoding the bytes of an encoded message gives the message back: every command, item, status, alert and metadata, nested groups included. The XML reader reports the events that were written, the integers are [u32]s, and two alerts that the decoder refuses are excluded ([readable]). *)
Theorem decode_encoded l m wire : usize_limits l -> 0 <= l_depth l -> typed_message m ->
  Forall (fun w => readable l (visited w)) (traversal (commands m)) -> reads_written l m ->
  encode l m = Ok wire -> decode l wire = Ok m.
Proof. apply decode_encode. Qed.

(** ** Sent messages and their answers *)
(** C28: The expectations of a session always describe the messages recorded in it: message identifiers are distinct, looking up a command finds the command with that identifier in the message with that identifier and nothing else, no lookup is out of range, and the values still expected are the targets of the reads. *)
Theorem expectations_describe_session l response ms e : recorded l response ms e ->
  messages e = ms /\ response_message_id e = response /\ NoDup (map sm_id ms) /\
  (forall mid cid r, request e (mid, cid) = Ok (Some r) <-> exists i j, located ms i j mid r /\ sc_id r = cid) /\
  (forall key, request e key <> Panic) /\
  (forall r, r ∈ references e <-> requested ms r).
Proof.
  intros (Hm & Hc & Hr)%recorded_holds. split_and!; [done|done|apply (cn_unique _ _ Hc)| | |apply (cn_references _ _ Hc)].
  - intros mid cid r. apply (request_ok ms e Hm Hc (mid, cid) (Some r)).
  - intros key H. pose proof (request_no_panic ms e Hm Hc key) as Hn. by rewrite H in Hn.
Qed.

(** C8: A correlated response accounts for every value that was asked for exactly once: it is returned, as the item of the response carries it, or it is reported missing, never both; nothing else is returned, and nothing twice. *)
Theorem values_accounted_once l response ms e m l' co : recorded l response ms e -> correlate e m l' = Ok co ->
  (forall r, requested ms r <-> r ∈ map ci_reference (co_results co) \/ r ∈ missing_results co) /\
  (forall r, r ∈ map ci_reference (co_results co) -> r ∉ missing_results co) /\
  NoDup (map ci_reference (co_results co)) /\ NoDup (missing_results co) /\
  Forall2 carried (commands m ≫= response_items) (co_results co).
Proof.
  intros (Hm & Hc & _)%recorded_holds H.
  apply (correlate_facts ms e Hm Hc) in H as ((cov & last & [H1 H2 H3 H4 H5] & _) & _). simpl in *.
  split_and!; [done|done|done|by apply sorted_nodup|done].
Qed.

(** C24: Every status of a correlated response is about a header, a command or targets of a command that was sent; no command, header or target has two statuses; statuses of one message come in the order of its commands; the first is that of a header; no failure speaks of a value that is returned; and the response has the expected identifier. *)
Theorem statuses_answer_sent l response ms e m l' co : recorded l response ms e -> correlate e m l' = Ok co ->
  Forall2 reported (commands m ≫= response_statuses) (co_statuses co) /\
  Forall (answers_sent ms) (co_statuses co) /\
  NoDup (co_statuses co ≫= coverage) /\
  (forall i j s s', co_statuses co !! i = Some s -> co_statuses co !! j = Some s' -> (i < j)%nat ->
     cs_command_id s <> 0 -> cs_command_id s' <> 0 -> in_order ms s s') /\
  (exists first rest, co_statuses co = first :: rest /\ cs_command_id first = 0) /\
  (forall r s, r ∈ co_results co -> s ∈ co_statuses co -> contradicts r s = false) /\
  h_message_id (header m) = response.
Proof.
  intros (Hm & Hc & <-)%recorded_holds H.
  apply (correlate_facts ms e Hm Hc) in H as ((cov & last & _ & [H1 H2 _ H4 _ H6]) & Hfirst & Hcon & _ & Hid). simpl in *.
  split_and!; [done|done| | |done|done|done].
  - unfold covered in H2. simpl in H2. by rewrite bind_concat in H2.
  - intros i j s s' Hi Hj Hij Hz Hz'. 
    enough (ordered_pair ms s s') by auto. by eapply (sorted_lookup (ordered_pair ms)).
Qed.

(** C37: A response to a message that was admitted ([encode_outbound]) stays within the limits it was admitted under, whatever limits the device and the reader of its answer have: its commands are no more than the permitted commands, and the values it returns and the targets its statuses name are no more than the permitted items; provided it does not acknowledge acknowledgements. *)
Theorem admitted_receipts_fit l l' l'' m wire sent response e answer co :
  encode_outbound m l = Ok wire -> sent_snapshot l m = Ok sent -> recorded l' response [sent] e ->
  correlate e answer l'' = Ok co -> Forall (not_acknowledged sent) (co_statuses co) ->
  zlen (commands answer) <= l_commands l /\
  zlen (co_results co) + foldr (fun s n => zlen (cs_targets s) + n) 0 (co_statuses co) <= l_items l.
Proof.
  intros Hw Hs (Hm & Hc & _)%recorded_holds. by apply (receipts_fit l m wire sent e answer l'' co Hw Hs Hm Hc).
Qed.

(** ** Large objects *)
(** Asking for a fragment of an object's data from an offset gives the whole command when that fits (from the start only), or a message that fits and carries the data from the offset to a later end, marked as unfinished unless it reaches the end of the data and with the whole size in the first one only; it fails for lack of room only when the command is too large to be valid, the data is too large for its size to be sent, or not even one more character fits. It never panics. *)
Theorem fragment_advances l prefix c i data peer offset : single_item c = Some i -> i_data i = Some data -> 0 <= offset ->
  match fragment prefix c offset peer l with
  | Ok f => fragment_ok prefix c i data peer l offset f
  | Err er => fragment_error prefix c i data peer l offset er
  | Panic => False
  end.
Proof. intros Hi Hd. by apply fragment_answer. Qed.

(** Fragments that are asked for where the one before ended carry, put together, exactly the data of the object; they are no more than its bytes and each fits its message; and when room is found for a fragment at every character, the whole object is sent. *)
Theorem object_transferred l prefix c i data peer : single_item c = Some i -> i_data i = Some data -> data <> [] ->
  (forall fs, fragments prefix c data peer l 0 fs ->
     concat (map part_of fs) = data /\ zlen fs <= str_len data /\
     Forall (fun f => exists wire, encode_outbound (fr_message f) (wire_limits peer l) = Ok wire) fs) /\
  ((forall offset, is_char_boundary data offset = true -> 0 <= offset < str_len data ->
      exists f, fragment prefix c offset peer l = Ok f) -> exists fs, fragments prefix c data peer l 0 fs).
Proof.
  intros Hi Hd Hne. split.
  - intros fs Hfs. destruct (fragments_spec prefix c i data Hi Hd peer l 0 fs Hne Hfs [] data) as (H1 & H2 & H3); [done..|].
    split_and!; [done|lia|done].
  - intros Hall. pose proof (str_len_nonneg data).
    apply (fragments_exist prefix c i data Hi Hd peer l Hne Hall (Z.to_nat (str_len data))); [apply boundary_zero|lia..].
Qed.

(** ** Declared documents *)
(** A result that is judged converged reports exactly the desired resources of the document it is compared with, each with status 200 and in the final state of the operation, for the same document; and it is never judged to be in progress. *)
Theorem converged_reports_all desired reported_xml d r operation :
  Document_parse desired = Ok d -> ResultDocument_parse reported_xml = Ok r -> converged r d operation = true ->
  exists success, success_state operation = Some success /\
  rd_identity r = dc_identity d /\ rd_operation r = operation /\ rd_state r = success /\
  (forall key, key ∈ bm_keys (dc_resources d) <->
    exists x, x ∈ rd_resources r /\ rr_identity x = key /\ rr_status x = Some 200 /\ rr_state x = Some success) /\
  (forall operation', in_progress r d operation' = false).
Proof.
  intros Hd%Document_keys Hr%ResultDocument_keys H. destruct (success_state operation) as [success|] eqn:Es.
  - exists success. destruct (converged_reports d r operation success Hd Hr Es H) as (? & ? & ? & ?).
    split_and!; try done. intros operation'. by apply (converged_not_in_progress d r operation).
  - unfold converged in H. by rewrite Es in H.
Qed.
End SyncmlTheorems.

(** * Concrete messages *)
Module SyncmlExamples.
Import XmlExample External.Reference.
Definition limits : CodecLimits := CodecLimits_default.
Definition item_to (target : rstr) (data : option rstr) : Item := mk_Item false None (Some target) None data.
Definition head_of (message : Z) : Header :=
  mk_Header 7 message (lit "urn:device") (lit "https://mdm.example") None None.
(** A read of two values and an atomic group, in answer to the device's header. *)
Definition outbound : Message :=
  mk_Message (head_of 1)
    [StatusCommand (mk_Status 1 3 0 N_SyncHdr [] [] 200 [] None None);
     Get 2 None [item_to (lit "./A") None; item_to (lit "./B") None];
     Atomic 3 [Add 4 None [item_to (lit "./C") (Some (lit "1 < 2"))];
               Replace 5 (Some (mk_Meta (Some (lit "chr")) None None None None)) [item_to (lit "./D") (Some (lit "x"))]]] true.
Definition wire_of (m : Message) : bytes := match encode limits m with Ok b => b | _ => [] end.
Definition sent_of (m : Message) : SentMessage :=
  match sent_snapshot limits m with Ok s => s | _ => mk_SentMessage 0 [] [] 0 [] end.
Definition expected : Expected :=
  match Expected_new (sent_of outbound) 4 limits with Ok e => e | _ => mk_Expected 0 [] [] [] [] [] 0 0 end.
(** The device's answer: one of the two values, and statuses for every command. *)
Definition status_for (id command code : Z) (kind : CommandName) (targets : list rstr) : Command :=
  StatusCommand (mk_Status id 1 command kind targets [] code [] None None).
Definition answer : Message :=
  mk_Message (head_of 4)
    [status_for 1 0 200 N_SyncHdr []; status_for 2 2 200 N_Get [lit "./A"]; status_for 3 2 404 N_Get [lit "./B"];
     status_for 4 3 200 N_Atomic []; status_for 5 4 200 N_Add []; status_for 6 5 200 N_Replace [];
     ResultsCommand (mk_Results 7 (Some 1) (Some 2) (Some N_Get) None
       [mk_Item false (Some (lit "./A")) None None (Some (lit "42"))])] true.
Definition correlated : Correlated :=
  match correlate expected answer limits with Ok co => co | _ => mk_Correlated [] [] [] end.
Lemma expected_recorded : recorded limits 4 [sent_of outbound] expected.
Proof.
  apply recorded_new; [|by vm_compute]. left. exists outbound, (wire_of outbound). by vm_compute.
Qed.
Example correlated_values : co_results correlated = [mk_CorrelatedItem (mk_Reference 1 2 (lit "./A")) (lit "42") true true] /\
  missing_results correlated = [mk_Reference 1 2 (lit "./B")].
Proof. by vm_compute. Qed.

Lemma expectations_describe_session_witness :
  messages expected = [sent_of outbound] /\ request expected (1, 4) = Ok (Some (mk_SentCommand 4 N_Add [lit "./C"])).
Proof.
  destruct (expectations_describe_session limits 4 _ _ expected_recorded) as (H & _ & _ & Hr & _).
  split; [exact H|]. apply Hr. exists 0%nat, 3%nat. split; [|reflexivity].
  exists (sent_of outbound). by vm_compute.
Defined.
Lemma values_accounted_once_witness : correlate expected answer limits = Ok correlated /\
  NoDup (missing_results correlated) /\ mk_Reference 1 2 (lit "./B") ∉ map ci_reference (co_results correlated).
Proof.
  assert (correlate expected answer limits = Ok correlated) as H by (by vm_compute).
  destruct (values_accounted_once limits 4 _ _ answer limits _ expected_recorded H) as (_ & Hd & _ & Hn & _).
  split_and!; [exact H|exact Hn|]. intros Hin. apply (Hd _ Hin). vm_compute. left.
Defined.
Lemma statuses_answer_sent_witness : correlate expected answer limits = Ok correlated /\
  NoDup (co_statuses correlated ≫= coverage) /\ length (co_statuses correlated) = 6%nat.
Proof.
  assert (correlate expected answer limits = Ok correlated) as H by (by vm_compute).
  destruct (statuses_answer_sent limits 4 _ _ answer limits _ expected_recorded H) as (_ & _ & Hn & _).
  split_and!; [exact H|exact Hn|by vm_compute].
Defined.
Lemma admitted_receipts_fit_witness : zlen (commands answer) <= l_commands limits.
Proof.
  apply (admitted_receipts_fit limits limits limits outbound (wire_of outbound) (sent_of outbound) 4 expected answer correlated).
  - by vm_compute.
  - by vm_compute.
  - exact expected_recorded.
  - by vm_compute.
  - repeat constructor; intros c Hc; vm_compute in Hc |- *; set_solver.
Defined.

(** *** Round trip *)
(** Whether an event is the written one; values are not normalised here. *)
Definition matchesb (x : shown) (e : Event) : bool :=
  match x, e with
  | SStart ns name xmlns, EvStart n el attrs =>
      bool_decide (n = name) && bool_decide (rs_local el = name)
      && match rs_namespace el with Bound raw => bool_decide (raw = ns) | _ => false end
      && match xmlns, attrs with
         | None, [] => true
         | Some v, [Some a] => bool_decide (ra_key a = lit "xmlns") && bool_decide (ra_value a = v)
         | _, _ => false
         end
  | SEnd ns name, EvEnd el =>
      bool_decide (rs_local el = name) && match rs_namespace el with Bound raw => bool_decide (raw = ns) | _ => false end
  | SText v, EvText t => bool_decide (t = v)
  | SRef c, EvGeneralRef name (inr (Some c')) => c =? c'
  | SRef c, EvGeneralRef name (inr None) => bool_decide (entity name = Ok [c])
  | _, _ => false
  end.
Lemma matchesb_sound x e : matchesb x e = true -> matches x e.
Proof.
  destruct x, e; simpl; try done; intros H.
  - apply andb_true_iff in H as [H Hx]. apply andb_true_iff in H as [H Hr]. bool_hyps. split_and!; [done|done| |].
    + destruct (rs_namespace element) as [|raw|]; try done. bool_hyps. subst. by exists ns.
    + destruct xmlns as [v|]; destruct attributes0 as [|[a|] [|? ?]]; try done. bool_hyps. exists a.
      split_and!; [done|done|]. simpl. by f_equal.
  - apply andb_true_iff in H as [H Hr]. bool_hyps. split; [done|].
    destruct (rs_namespace element) as [|raw|]; try done. bool_hyps. subst. by exists ns.
  - bool_hyps. by subst.
  - destruct char_ref as [|[c'|]]; try done; bool_hyps; subst; auto.
Qed.
Fixpoint forall2b (xs : list shown) (es : list Event) : bool :=
  match xs, es with
  | [], [] => true
  | x :: xs, e :: es => matchesb x e && forall2b xs es
  | _, _ => false
  end.
Lemma reads_back_by_computation l doc xs :
  forall2b (visible xs) (events (length doc) [] doc) = true -> reads_back l doc xs.
Proof.
  unfold reads_back. simpl. generalize (events (length doc) [] doc) (visible xs). intros es vs.
  revert es. induction vs as [|v vs IH]; intros [|e es] H; simpl in H; try done.
  apply andb_true_iff in H as [Hm%matchesb_sound H]. destruct (IH es H) as [H1 H2]. split; [|done].
  intros [|k] x; simpl; [intros [= <-]; by exists e|]. apply H1.
Qed.
Lemma decode_encoded_witness : decode limits (wire_of outbound) = Ok outbound.
Proof.
  apply (decode_encoded limits outbound (wire_of outbound)).
  - by split.
  - done.
  - unfold typed_message. split_and!; [by vm_compute..|]. cbn -[Z.le u32_max].
    repeat (first [split | constructor]); vm_compute; discriminate.
  - by repeat constructor.
  - split; [exists (match from_utf8 (document limits outbound) with Some v => v | None => [] end)|].
    + split; vm_compute; reflexivity.
    + apply reads_back_by_computation. vm_compute. reflexivity.
  - by vm_compute.
Defined.

(** *** A large object *)
Definition object_text : rstr := concat (replicate 8 (lit "0123456789 ABCDEF")).
Definition object_item : Item := item_to (lit "./Vendor/MSFT/Profile") (Some object_text).
Definition object_command : Command := Replace 2 None [object_item].
Definition envelope : Message := mk_Message (head_of 1) [StatusCommand (mk_Status 1 3 0 N_SyncHdr [] [] 200 [] None None)] true.
(** Room for about a third of the object next to the envelope. *)
Definition peer_bytes : Z := 600.
Definition answer_from (offset : Z) : xres Fragment := fragment envelope object_command offset peer_bytes limits.
Definition fragment_from (offset : Z) : Fragment := match answer_from offset with Ok f => f | _ => mk_Fragment envelope 0 end.
Lemma fragment_advances_witness : answer_from 0 = Ok (fragment_from 0) /\ fr_end (fragment_from 0) = 43 /\
  fragment_ok envelope object_command object_item object_text peer_bytes limits 0 (fragment_from 0).
Proof.
  split; [by vm_compute|]. split; [by vm_compute|].
  pose proof (fragment_advances limits envelope object_command object_item object_text peer_bytes 0 eq_refl eq_refl) as H.
  replace (fragment envelope object_command 0 peer_bytes limits) with (Ok (E:=CodecError) (fragment_from 0)) in H by (by vm_compute).
  apply H. lia.
Defined.
Lemma in_room offset : 0 <= offset < 136 -> exists f, answer_from offset = Ok f.
Proof.
  intros H. assert (forallb (fun n => match answer_from (Z.of_nat n) with Ok _ => true | _ => false end) (seq 0 136) = true) as Hall
    by (by vm_compute).
  rewrite forallb_true_iff in Hall. specialize (Hall (Z.to_nat offset)). rewrite Z2Nat.id in Hall by lia.
  destruct (answer_from offset) as [f| |]; [by exists f|..].
  all: assert (Z.to_nat offset ∈ seq 0 136) as Hin by (apply elem_of_seq; lia); by apply Hall in Hin.
Qed.
Definition three_fragments : list Fragment := [fragment_from 0; fragment_from 43; fragment_from 124].
Lemma object_transferred_witness : concat (map part_of three_fragments) = object_text /\
  exists fs, fragments envelope object_command object_text peer_bytes limits 0 fs.
Proof.
  destruct (object_transferred limits envelope object_command object_item object_text peer_bytes eq_refl eq_refl) as [H1 H2];
    [discriminate|].
  split; [|apply H2; intros offset _ H; apply in_room; replace (str_len object_text) with 136 in H by (by vm_compute); exact H].
  apply (H1 three_fragments).
  repeat (eapply fragments_more; [vm_compute; reflexivity|]). apply fragments_done.
Defined.

(** *** A declared document *)
Definition quoted (s : rstr) : rstr := map (fun c => if c =? 39 then 34 else c) s.
Definition desired_xml : rstr := quoted (lit "<DeclaredConfiguration schema='1.0' context='Device' id='7' checksum='c1' osdefinedscenario='MSFTWifi'><CSP name='./Vendor/MSFT/WiFi'><URI path='Profile/Home/Xml' type='chr'>a</URI><URI path='Profile/Home/Cost' type='int'>1</URI></CSP></DeclaredConfiguration>").
Definition result_xml : rstr := quoted (lit "<DeclaredConfigurationResult schema='1.0' context='Device' id='7' checksum='c1' osdefinedscenario='MSFTWifi' result_checksum='r' operation='Set' state='60'><CSP name='./Vendor/MSFT/WiFi' status='200' state='60'><URI path='Profile/Home/Cost' type='int'></URI><URI path='Profile/Home/Xml' type='chr'></URI></CSP></DeclaredConfigurationResult>").
Definition desired_document : Document :=
  match Document_parse desired_xml with
  | Ok d => d
  | _ => mk_Document (mk_Identity (0 : Uuid) Scope_Device [] []) [] false
  end.
Definition result_document : ResultDocument :=
  match ResultDocument_parse result_xml with
  | Ok r => r
  | _ => mk_ResultDocument (mk_Identity (0 : Uuid) Scope_Device [] []) [] [] 0 []
  end.
Lemma converged_reports_all_witness : converged result_document desired_document (lit "Set") = true /\
  length (dc_resources desired_document) = 2%nat /\ in_progress result_document desired_document (lit "Get") = false.
Proof.
  assert (converged result_document desired_document (lit "Set") = true) as H by (by vm_compute).
  split; [exact H|]. split; [by vm_compute|].
  destruct (converged_reports_all desired_xml result_xml desired_document result_document (lit "Set")) as (success & _ & _ & _ & _ & _ & Hn).
  - by vm_compute.
  - by vm_compute.
  - exact H.
  - apply Hn.
Defined.
End SyncmlExamples.
