(* ===== verification/TrustWire.v ===== *)
(** * Distributed device trust

    [agent-wire]'s [pki.rs]: the approved issuers of one certificate purpose, their
    acknowledgement and the device's own report of what it installed. *)
From S2P Require Import Prelude Ordered Text External.

Definition API_VERSION : Z := 1.
Definition MAX_REVISION : Z := i64_max.
Definition MAX_ISSUERS : Z := 16.
Definition ACTIVE_ISSUERS : Z := 1.
Definition DIGEST_HEX_LENGTH : Z := 64.
Inductive WireError : Type := Wire_InvalidValue.
Notation wres := (res WireError).

Inductive Purpose : Type := Purpose_Windows | Purpose_Apple | Purpose_Agent | Purpose_AgentBootstrap.
#[export] Instance Purpose_eq_dec : EqDecision Purpose.
Proof. solve_decision. Defined.
Inductive Mode : Type := Mode_Prepared | Mode_Active | Mode_VerifyOnly.
#[export] Instance Mode_eq_dec : EqDecision Mode.
Proof. solve_decision. Defined.
Record Issuer : Type := mk_Issuer {
  is_digest : rstr; is_mode : Mode; is_certificate : rstr; is_root : rstr; is_crl : rstr; is_root_crl : rstr;
  is_provisioner : rstr; is_kid : rstr
}.
#[export] Instance Issuer_eq_dec : EqDecision Issuer.
Proof. solve_decision. Defined.

Definition valid_revision (value : Z) : bool := (1 <=? value) && (value <=? MAX_REVISION).
Definition digest_byte (b : Z) : bool := is_ascii_digit b || (97 <=? b) && (b <=? 102).
Definition valid_digest (value : rstr) : bool :=
  (str_len value =? DIGEST_HEX_LENGTH) && forallb digest_byte (str_bytes value).
Definition is_active (g : Issuer) : bool := bool_decide (is_mode g = Mode_Active).
Definition valid_issuers (values : list Issuer) : bool :=
  (1 <=? zlen values) && (zlen values <=? MAX_ISSUERS)
  && (zlen (List.filter is_active values) =? ACTIVE_ISSUERS)
  && forallb (fun g => valid_digest (is_digest g)) values.

Section Wire.
Context `{UC : UuidCrate}.

Record Trust : Type := mk_Trust {
  t_version : Z; t_service_id : Uuid; t_origin : rstr; t_tenant : Uuid; t_purpose : Purpose; t_revision : Z;
  t_issuers : list Issuer
}.
Record Acknowledgement : Type := mk_Acknowledgement {
  ack_operation : Uuid; ack_version : Z; ack_revision : Z; ack_digest : rstr
}.
Definition Trust_validate (t : Trust) : wres () :=
  reject (negb (t_version t =? API_VERSION) || is_nil (t_tenant t) || is_nil (t_service_id t)
          || negb (valid_revision (t_revision t)) || negb (valid_issuers (t_issuers t))) Wire_InvalidValue.
Definition Acknowledgement_validate (a : Acknowledgement) : wres () :=
  reject (negb (ack_version a =? API_VERSION) || is_nil (ack_operation a) || negb (valid_revision (ack_revision a))
          || negb (valid_digest (ack_digest a))) Wire_InvalidValue.

(** ** Observations *)
Inductive ObservationState : Type := Obs_Received | Obs_Applied | Obs_Failed | Obs_Unknown.
Inductive ObservationReason : Type :=
| Reason_Transport | Reason_Validation | Reason_Storage | Reason_Credential | Reason_Installation | Reason_Restart.
Record Observation : Type := mk_Observation {
  ob_operation : Uuid; ob_version : Z; ob_registration : Uuid; ob_generation : Z; ob_sequence : Z;
  ob_target_revision : option Z; ob_target_digest : option rstr; ob_actual_revision : option Z;
  ob_actual_digest : option rstr; ob_state : ObservationState; ob_reason : option ObservationReason;
  ob_observed_at : Z
}.
(** A revision and its digest come together. *)
Definition material (revision : option Z) (digest : option rstr) : bool :=
  match revision, digest with
  | None, None => true
  | Some r, Some d => valid_revision r && ((str_len d =? 64) && forallb digest_byte (str_bytes d))
  | _, _ => false
  end.
Definition inconsistent (o : Observation) : bool :=
  match ob_state o with
  | Obs_Applied =>
      given (ob_reason o) || negb (given (ob_target_revision o))
      || negb (bool_decide (ob_target_revision o = ob_actual_revision o))
      || negb (bool_decide (ob_target_digest o = ob_actual_digest o))
  | Obs_Received => given (ob_reason o) || negb (given (ob_target_revision o))
  | Obs_Failed | Obs_Unknown => negb (given (ob_reason o))
  end.
Definition Observation_validate (o : Observation) : wres () :=
  reject (negb (ob_version o =? API_VERSION) || is_nil (ob_operation o) || is_nil (ob_registration o)
          || negb (valid_revision (ob_generation o)) || negb (valid_revision (ob_sequence o))
          || (ob_observed_at o <? 0)
          || negb (material (ob_target_revision o) (ob_target_digest o))
          || negb (material (ob_actual_revision o) (ob_actual_digest o)) || inconsistent o) Wire_InvalidValue.
End Wire.
