(* ===== verification/Certificates.v ===== *)
(** * Certificates

    Parsed certificates and revocation lists, signatures and path validation are code outside
    the repository ([x509-cert], [ring], [rustls]); then the checks of [crates/certificate]:
    subjects ([apple.rs], [bootstrap.rs], [agent.rs]), leaf profiles, lifetimes and issuance
    profiles ([windows.rs]). *)
From S2P Require Import Prelude Ordered Text External.

(** ** Code outside the repository *)
Inductive Tag : Type := Tag_Utf8String | Tag_PrintableString | Tag_Other.
(** One attribute of a relative distinguished name. *)
Record Ava : Type := mk_Ava { ava_oid : rstr; ava_tag : Tag; ava_value : bytes }.
Inductive Parameters : Type := Params_None | Params_Null | Params_Other (der : bytes).
#[export] Instance Parameters_eq_dec : EqDecision Parameters.
Proof. solve_decision. Defined.
Record Algorithm : Type := mk_Algorithm { alg_oid : rstr; alg_parameters : Parameters }.
#[export] Instance Algorithm_eq_dec : EqDecision Algorithm.
Proof. solve_decision. Defined.
Record BasicConstraints : Type := mk_BasicConstraints { bc_ca : bool; bc_path_len : option Z }.
Inductive Usage : Type := DigitalSignature | KeyCertSign | CrlSign | OtherUsage (bit : Z).
#[export] Instance Usage_eq_dec : EqDecision Usage.
Proof. solve_decision. Defined.
Inductive GeneralName : Type := UniformResourceIdentifier (uri : rstr) | OtherName.
(** The DER sequence of an agent certificate's issuance marker. *)
Record Provisioner : Type := mk_Provisioner { pv_kind : Z; pv_name : bytes; pv_credential : bytes }.

(** [x509-cert]: the parts of parsed values that the program reads. Times are seconds between
    1970 and the end of 9999. The getters of extensions fail on malformed content. *)
Class X509 : Type := {
  Name : Type;
  name_eq_dec :: EqDecision Name;
  name_to_string : Name -> rstr;
  name_rdns : Name -> list (list Ava);
  Certificate : Type;
  certificate_eq_dec :: EqDecision Certificate;
  certificate_from_der : bytes -> option Certificate;
  certificate_to_der : Certificate -> option bytes;
  tbs_to_der : Certificate -> option bytes;
  subject_of : Certificate -> Name;
  issuer_of : Certificate -> Name;
  serial_number : Certificate -> bytes;
  not_before : Certificate -> Z;
  not_after : Certificate -> Z;
  signature_algorithm : Certificate -> Algorithm;
  tbs_signature : Certificate -> Algorithm;
  signature_bits : Certificate -> option bytes;
  PublicKeyInfo : Type;
  public_key_info_eq_dec :: EqDecision PublicKeyInfo;
  key_algorithm : PublicKeyInfo -> Algorithm;
  key_bits : PublicKeyInfo -> option bytes;
  key_to_der : PublicKeyInfo -> option bytes;
  spki_of : Certificate -> PublicKeyInfo;
  basic_constraints : Certificate -> option (option BasicConstraints);
  key_usage : Certificate -> option (option (list Usage));
  ext_key_usage : Certificate -> option (option (list rstr));
  subject_alt_name : Certificate -> option (option (list GeneralName));
  extensions_of : Certificate -> option (list (rstr * bytes));
  provisioner_from_der : bytes -> option Provisioner;
  CertificateList : Type;
  list_from_der : bytes -> option CertificateList;
  list_to_der : CertificateList -> option bytes;
  list_tbs_to_der : CertificateList -> option bytes;
  list_issuer : CertificateList -> Name;
  list_signature_algorithm : CertificateList -> Algorithm;
  list_tbs_signature : CertificateList -> Algorithm;
  list_signature : CertificateList -> option bytes;
  list_this_update : CertificateList -> Z;
  list_next_update : CertificateList -> option Z;
  list_extensions : CertificateList -> option (list (rstr * bytes));
  crl_number_from_der : bytes -> option bytes;
  list_revoked : CertificateList -> option (list bytes);
  not_before_range : forall c, 0 <= not_before c < 253402300800;
  not_after_range : forall c, 0 <= not_after c < 253402300800;
  this_update_range : forall l, 0 <= list_this_update l < 253402300800;
  serial_bytes : forall c, forallb is_byte (serial_number c) = true;
  revoked_bytes : forall l rows r, list_revoked l = Some rows -> r ∈ rows -> forallb is_byte r = true;
  crl_number_bytes : forall d b, crl_number_from_der d = Some b -> forallb is_byte b = true
}.
(** The public key of a certificate. *)
Definition spki_algorithm `{X : X509} (c : Certificate) : Algorithm := key_algorithm (spki_of c).
Definition spki_bits `{X : X509} (c : Certificate) : option bytes := key_bits (spki_of c).
(** [x509-cert]: certificate requests. An attribute has its values, and the value of an
    extension request decodes to extensions. *)
Class CertificateRequests `{X : X509} : Type := {
  Request : Type;
  request_from_der : bytes -> option Request;
  request_to_der : Request -> option bytes;
  request_algorithm : Request -> Algorithm;
  request_key : Request -> PublicKeyInfo;
  request_info_to_der : Request -> option bytes;
  request_signature : Request -> option bytes;
  request_subject : Request -> Name;
  request_attributes : Request -> list (rstr * list bytes);
  extensions_from_der : bytes -> option (list (rstr * bytes));
  constraints_from_der : bytes -> option BasicConstraints;
  usage_from_der : bytes -> option (list Usage);
  ext_usage_from_der : bytes -> option (list rstr)
}.
Arguments CertificateRequests {X}.
(** [ring]: signature verification under a public key. *)
Inductive VerificationAlgorithm : Type :=
| RSA_PKCS1_2048_8192_SHA256 | RSA_PKCS1_2048_8192_SHA384 | ECDSA_P256_SHA256_ASN1 | ECDSA_P384_SHA384_ASN1.
Class Ring : Type := { ring_verify : VerificationAlgorithm -> bytes -> bytes -> bytes -> bool }.
(** [rustls]: a client verifier with one root and its revocation lists. *)
Record ClientVerifier : Type := mk_ClientVerifier { cv_root : bytes; cv_crls : list bytes }.
Class WebPki : Type := {
  root_store_add : bytes -> bool;
  verifier_build : ClientVerifier -> bool;
  verify_client_cert : ClientVerifier -> bytes -> list bytes -> Z -> bool
}.

(** ** Errors *)
Inductive CertError : Type :=
| Ce_Malformed | Ce_CertificateRequest | Ce_Unauthorized | Ce_Conflict | Ce_Expired | Ce_Signing.
Notation ceres := (res CertError).

Definition RSA : rstr := lit "1.2.840.113549.1.1.1".
Definition CLIENT_AUTH : rstr := lit "1.3.6.1.5.5.7.3.2".
Definition COMMON_NAME : rstr := lit "2.5.4.3".
Definition ORGANIZATIONAL_UNIT : rstr := lit "2.5.4.11".
Definition BOOTSTRAP_PURPOSE : rstr := lit "rss-mdm-agent-bootstrap".
Definition AGENT_SUBJECT : rstr := lit "rss-mdm-agent".
Definition text_tag (t : Tag) : bool := match t with Tag_Utf8String | Tag_PrintableString => true | Tag_Other => false end.

Section Certificates.
Context `{X : X509} `{UC : UuidCrate} `{UT : !UuidText}.

(** ** Subjects *)
(** The only attribute of a name that has one. *)
Definition sole_attribute (rdns : list (list Ava)) : option Ava := match rdns with [[a]] => Some a | _ => None end.
Definition lower_hex (b : Z) : bool := is_ascii_hexdigit b && negb (is_ascii_uppercase b).
(** The first 32 characters of an ASCII text and the rest. *)
Definition apple_parse_subject (rdns : list (list Ava)) : ceres (Uuid * Uuid) :=
  a ← ok_or (sole_attribute rdns) Ce_Unauthorized;
  _ ← reject (negb (bool_decide (ava_oid a = COMMON_NAME)) || negb (text_tag (ava_tag a))) Ce_Unauthorized;
  value ← ok_or (from_utf8 (ava_value a)) Ce_CertificateRequest;
  _ ← reject (negb (str_len value =? 64) || negb (forallb lower_hex (str_bytes value))) Ce_Unauthorized;
  enrollment ← ok_or (uuid_parse_str (take 32 value)) Ce_CertificateRequest;
  attempt ← ok_or (uuid_parse_str (drop 32 value)) Ce_CertificateRequest;
  _ ← reject (is_nil enrollment || is_nil attempt) Ce_Unauthorized;
  Ok (enrollment, attempt).
Definition has_oid (oid : rstr) (rdn : list Ava) : bool := existsb (fun v => bool_decide (ava_oid v = oid)) rdn.
Definition bootstrap_parse_subject (rdns : list (list Ava)) : ceres (Uuid * Uuid) :=
  _ ← reject (negb (zlen rdns =? 2)) Ce_Unauthorized;
  ou ← ok_or (List.find (has_oid ORGANIZATIONAL_UNIT) rdns) Ce_Unauthorized;
  _ ← reject (match ou with [v] => negb (bool_decide (ava_value v = str_bytes BOOTSTRAP_PURPOSE)) | _ => true end)
        Ce_Unauthorized;
  apple_parse_subject (List.filter (has_oid COMMON_NAME) rdns).
Definition agent_subject (rdns : list (list Ava)) : bool :=
  match sole_attribute rdns with
  | Some a =>
      bool_decide (ava_oid a = COMMON_NAME) && text_tag (ava_tag a)
      && bool_decide (ava_value a = str_bytes AGENT_SUBJECT)
  | None => false
  end.

(** ** Leaf profiles *)
Definition apple_valid (c : Certificate) (now : Z) : bool := (0 <? now) && (not_before c <=? now) && (now <? not_after c).
Definition agent_algorithm (a : Algorithm) (oid : rstr) : bool :=
  bool_decide (alg_oid a = oid) && match alg_parameters a with Params_Other _ => false | _ => true end.
(** [get::<T>().map_err(malformed)?.is_none_or(bad)]. *)
Definition extension_bad {E A} (e : E) (get : option (option A)) (bad : A -> bool) : res E bool :=
  v ← ok_or get e; Ok (match v with Some v => bad v | None => true end).
(** [a || b?] stops at the first condition that holds. *)
Definition or_else {E} (a b : res E bool) : res E bool := x ← a; if x : bool then Ok true else b.
Definition constraints_bad (c : BasicConstraints) : bool := bc_ca c || given (bc_path_len c).
Definition validate_leaf_profile (c issuer : Certificate) (max_seconds : Z) : ceres () :=
  let start := not_before c in
  let end_ := not_after c in
  bad ← or_else
    (Ok ((start <=? 0) || (end_ <=? start) || (max_seconds <? end_ - start) || (not_after issuer <? end_)
         || negb (bool_decide (issuer_of c = subject_of issuer)) || negb (agent_subject (name_rdns (subject_of c)))
         || negb (agent_algorithm (spki_algorithm c) RSA)))
    (or_else (extension_bad Ce_Malformed (basic_constraints c) constraints_bad)
      (or_else (extension_bad Ce_Malformed (key_usage c) (fun ku => negb (bool_decide (ku = [DigitalSignature]))))
        (extension_bad Ce_Malformed (ext_key_usage c) (fun eku => negb (bool_decide (eku = [CLIENT_AUTH]))))));
  reject bad Ce_Unauthorized.

(** ** Windows *)
Definition VALIDITY_SECONDS : Z := 90 * 86400.
Definition RENEW_SECONDS : Z := 60 * 86400.
Definition EARLY_SKEW_SECONDS : Z := 300.
Definition permits (expiry now : Z) : bool :=
  (0 <? now)
  && match checked_i64 (expiry - now) with
     | Some remaining => (0 <? remaining) && (remaining <=? RENEW_SECONDS + EARLY_SKEW_SECONDS)
     | None => false
     end.
Inductive Lifetime : Type := Lifetime_Production | Lifetime_Development (seconds : Z).
Definition Lifetime_seconds (l : Lifetime) : ceres Z :=
  match l with
  | Lifetime_Production => Ok VALIDITY_SECONDS
  | Lifetime_Development seconds => _ ← reject ((seconds <? 60) || (7 * 86400 <? seconds)) Ce_Malformed; Ok seconds
  end.
Definition valid_at (c : Certificate) (now : Z) : bool := (0 <? now) && (not_before c <=? now) && (now <? not_after c).
Definition leaf_usage (c : Certificate) (now : Z) : ceres () :=
  bc ← ok_or (basic_constraints c) Ce_Malformed; bc ← ok_or bc Ce_Malformed;
  ku ← ok_or (key_usage c) Ce_Malformed; ku ← ok_or ku Ce_Malformed;
  eku ← ok_or (ext_key_usage c) Ce_Malformed; eku ← ok_or eku Ce_Malformed;
  reject (bc_ca bc || negb (bool_decide (DigitalSignature ∈ ku)) || bool_decide (KeyCertSign ∈ ku)
          || negb (bool_decide (CLIENT_AUTH ∈ eku)) || negb (valid_at c now)) Ce_Unauthorized.
Record IssuanceProfile : Type := mk_IssuanceProfile {
  ip_version : Z; ip_registration : Uuid; ip_start : Z; ip_end : Z; ip_spki : bytes; ip_issuer : bytes
}.
(** The checks of [IssuanceProfile::decode], after the generated deserialization. *)
Definition IssuanceProfile_checked (p : IssuanceProfile) : ceres IssuanceProfile :=
  _ ← reject (negb (ip_version p =? 1) || (ip_start p <=? 0) || (ip_end p <=? ip_start p)
              || (90 * 86400 <? ip_end p - ip_start p)) Ce_Malformed;
  Ok p.
End Certificates.

(** ** Certificate requests

    The checks of [crates/certificate] on a signed request: agent ([agent.rs]), Windows
    ([windows.rs]), Apple and bootstrap ([apple.rs], [bootstrap.rs]).  Every accepted request
    is canonical DER signed with the key it asks a certificate for. *)
Definition SHA256_RSA : rstr := lit "1.2.840.113549.1.1.11".
Definition EXTENSION_REQ : rstr := lit "1.2.840.113549.1.9.14".
Definition MAX_CSR : Z := 32768.

Section Requests.
Context `{X : X509} `{RQ : !CertificateRequests} `{R : Ring} `{UC : UuidCrate} `{UT : !UuidText} `{SH : Sha2}.

(** The request is signed with its own key. *)
Definition possession (e : CertError) (r : Request) : ceres () :=
  key ← ok_or (key_bits (request_key r)) e;
  message ← ok_or (request_info_to_der r) Ce_Malformed;
  sig ← ok_or (request_signature r) e;
  reject (negb (ring_verify RSA_PKCS1_2048_8192_SHA256 key message sig)) Ce_Malformed.

(** ** Agent *)
Record VerifiedAgentCsr : Type := mk_VerifiedAgentCsr { csr_der : bytes; csr_spki : bytes; csr_digest : bytes }.
(** One requested extension: unique, and with the value of the profile. *)
Definition agent_extension (seen : list rstr) (e : rstr * bytes) : ceres (list rstr) :=
  _ ← reject (bs_mem e.1 seen) Ce_CertificateRequest;
  bad ←
    (if bool_decide (e.1 = lit "2.5.29.19") then
       bc ← ok_or (constraints_from_der e.2) Ce_Malformed; Ok (bc_ca bc || given (bc_path_len bc))
     else if bool_decide (e.1 = lit "2.5.29.15") then
       ku ← ok_or (usage_from_der e.2) Ce_Malformed; Ok (negb (bool_decide (ku = [DigitalSignature])))
     else if bool_decide (e.1 = lit "2.5.29.37") then
       eku ← ok_or (ext_usage_from_der e.2) Ce_Malformed; Ok (negb (bool_decide (eku = [CLIENT_AUTH])))
     else Ok true);
  _ ← reject bad Ce_CertificateRequest;
  Ok (bs_insert e.1 seen).
Definition agent_attribute (u : ()) (a : rstr * list bytes) : ceres () :=
  _ ← reject (negb (bool_decide (a.1 = EXTENSION_REQ)) || negb (zlen a.2 =? 1)) Ce_CertificateRequest;
  value ← ok_or (head a.2) Ce_CertificateRequest;
  extensions ← ok_or (extensions_from_der value) Ce_Malformed;
  _ ← res_for agent_extension extensions [];
  Ok ().
Definition agent_csr_parse (b : bytes) : ceres VerifiedAgentCsr :=
  _ ← reject (is_empty b || (MAX_CSR <? zlen b)) Ce_CertificateRequest;
  csr ← ok_or (request_from_der b) Ce_Malformed;
  canonical ← ok_or (request_to_der csr) Ce_Malformed;
  _ ← reject (negb (bool_decide (canonical = b)) || negb (agent_algorithm (request_algorithm csr) SHA256_RSA)
              || negb (agent_algorithm (key_algorithm (request_key csr)) RSA)) Ce_CertificateRequest;
  _ ← possession Ce_CertificateRequest csr;
  let subject := name_rdns (request_subject csr) in
  _ ← reject (negb (is_empty subject) && negb (agent_subject subject)) Ce_CertificateRequest;
  _ ← reject (1 <? zlen (request_attributes csr)) Ce_CertificateRequest;
  _ ← res_for agent_attribute (request_attributes csr) ();
  spki ← ok_or (key_to_der (request_key csr)) Ce_Malformed;
  Ok (mk_VerifiedAgentCsr b (sha256 spki) (sha256 b)).
(** [map_err(|_| Error::CertificateRequest)]. *)
Definition request_error {A} (r : ceres A) : ceres A :=
  match r with Ok a => Ok a | Err _ => Err Ce_CertificateRequest | Panic => Panic end.
Definition agent_csr_verify (b : bytes) : ceres VerifiedAgentCsr := request_error (agent_csr_parse b).

(** ** Windows *)
Record WindowsCsr : Type := mk_WindowsCsr { wc_request : Request; wc_der : bytes }.
Definition windows_csr_der (b : bytes) : ceres WindowsCsr :=
  _ ← reject (32768 <? zlen b) Ce_Malformed;
  csr ← ok_or (request_from_der b) Ce_Malformed;
  canonical ← ok_or (request_to_der csr) Ce_Malformed;
  _ ← reject (negb (bool_decide (canonical = b)) || negb (agent_algorithm (request_algorithm csr) SHA256_RSA)
              || negb (agent_algorithm (key_algorithm (request_key csr)) RSA)) Ce_Malformed;
  _ ← possession Ce_Malformed csr;
  Ok (mk_WindowsCsr csr b).
Definition windows_csr_verify (b : bytes) : ceres WindowsCsr := request_error (windows_csr_der b).

(** ** Apple and bootstrap *)
Record AppleCsr : Type := mk_AppleCsr { ac_first : Uuid; ac_attempt : Uuid; ac_spki : bytes; ac_digest : bytes }.
Definition verified_rsa_csr (b : bytes) : ceres Request :=
  _ ← reject (32768 <? zlen b) Ce_CertificateRequest;
  c ← ok_or (request_from_der b) Ce_CertificateRequest;
  canonical ← ok_or (request_to_der c) Ce_CertificateRequest;
  _ ← reject (negb (bool_decide (canonical = b)) || negb (bool_decide (alg_oid (request_algorithm c) = SHA256_RSA))
              || negb (bool_decide (alg_oid (key_algorithm (request_key c)) = RSA))) Ce_CertificateRequest;
  _ ← request_error (possession Ce_CertificateRequest c);
  Ok c.
Definition apple_csr (b : bytes) : ceres AppleCsr :=
  c ← verified_rsa_csr b;
  ids ← apple_parse_subject (name_rdns (request_subject c));
  spki ← ok_or (key_to_der (request_key c)) Ce_CertificateRequest;
  Ok (mk_AppleCsr ids.1 ids.2 (sha256 spki) (sha256 b)).
Definition bootstrap_csr (b : bytes) : ceres AppleCsr :=
  c ← verified_rsa_csr b;
  ids ← bootstrap_parse_subject (name_rdns (request_subject c));
  spki ← ok_or (key_to_der (request_key c)) Ce_Malformed;
  Ok (mk_AppleCsr ids.1 ids.2 (sha256 spki) (sha256 b)).
End Requests.
