(* ===== verification/DeviceTrust.v ===== *)
(** * Device trust

    [device-trust]'s [lib.rs] and [qualification.rs]: approved issuers with their signed
    revocation lists, the checks of a client certificate against them, and the interval in
    which a certificate passes. *)
From S2P Require Import Prelude Ordered Text External TrustWire Certificates.

Inductive TrustError : Type := Tr_Malformed | Tr_Unauthorized | Tr_Revoked | Tr_Conflict | Tr_Expired.
#[export] Instance TrustError_eq_dec : EqDecision TrustError.
Proof. solve_decision. Defined.
Notation dres := (res TrustError).
(** [map_err(invalid)]. *)
Definition invalid {E A} (r : res E A) : dres A :=
  match r with Ok a => Ok a | Err _ => Err Tr_Malformed | Panic => Panic end.

Definition DER_LIMIT : Z := 32768.
Definition CRL_LIMIT : Z := 16 * 1024 * 1024.
Definition CRL_NUMBER : rstr := lit "2.5.29.20".
Definition AGENT_MARKER : rstr := lit "1.3.6.1.4.1.37476.9000.64.1".
Definition URN : rstr := lit "urn:rss-mdm:agent:v1:".
Definition verification_algorithm (oid : rstr) : option VerificationAlgorithm :=
  if bool_decide (oid = lit "1.2.840.113549.1.1.11") then Some RSA_PKCS1_2048_8192_SHA256
  else if bool_decide (oid = lit "1.2.840.113549.1.1.12") then Some RSA_PKCS1_2048_8192_SHA384
  else if bool_decide (oid = lit "1.2.840.10045.4.3.2") then Some ECDSA_P256_SHA256_ASN1
  else if bool_decide (oid = lit "1.2.840.10045.4.3.3") then Some ECDSA_P384_SHA384_ASN1
  else None.
(** [BigUint::from_bytes_be(..).to_str_radix(10)]. *)
Definition serial (b : bytes) : rstr := dec_digits (S (3 * length b)) (of_be_bytes b) [].

Section DeviceTrust.
Context `{X : X509} `{R : Ring} `{W : WebPki} `{UC : UuidCrate} `{UT : !UuidText} `{SH : Sha2}
  `{BS : Base64Standard} `{BU : Base64} `{UR : UrlCrate} `{UO : !UrlOrigin}.

(** ** Material *)
Definition digest (b : bytes) : rstr := hex (sha256 b).
Definition decode (value : rstr) (limit : Z) : dres bytes :=
  _ ← reject ((Z.min (limit * 4) usize_max + 2) / 3 + 4 <? str_len value) Tr_Malformed;
  der ← ok_or (standard_decode value) Tr_Malformed;
  _ ← reject (is_empty der || (limit <? zlen der)) Tr_Malformed;
  Ok der.
Definition signed (issuer : Certificate) (algorithm : Algorithm) (message sig : bytes) : dres () :=
  a ← ok_or (verification_algorithm (alg_oid algorithm)) Tr_Malformed;
  key ← ok_or (spki_bits issuer) Tr_Malformed;
  reject (negb (ring_verify a key message sig)) Tr_Malformed.
Definition ca_shape (c : Certificate) : dres () :=
  bad ← or_else (Ok (not_after c <=? not_before c))
    (or_else (extension_bad Tr_Malformed (basic_constraints c) (fun v => negb (bc_ca v)))
      (extension_bad Tr_Malformed (key_usage c)
         (fun v => negb (bool_decide (KeyCertSign ∈ v)) || negb (bool_decide (CrlSign ∈ v)))));
  reject bad Tr_Malformed.
Definition valid_ca (c : Certificate) (now : Z) : dres () :=
  _ ← ca_shape c;
  reject ((now <=? 0) || (now <? not_before c) || (not_after c <=? now)) Tr_Expired.

(** ** Revocation lists *)
Record Crl : Type := mk_Crl {
  crl_number : Z; crl_this_update : Z; crl_next_update : Z; crl_revoked : list rstr; crl_der : bytes
}.
#[global] Instance Crl_eq_dec : EqDecision Crl.
Proof. solve_decision. Defined.
(** [n * 256 + b] on [u64]s. *)
Definition number_step (n b : Z) : dres Z := or_panic (checked_u64 (n * 256 + b)).
Definition number_of (extensions : list (rstr * bytes)) : dres Z :=
  match List.filter (fun e => bool_decide (e.1 = CRL_NUMBER)) extensions with
  | [e] =>
      number ← ok_or (crl_number_from_der e.2) Tr_Malformed;
      _ ← reject (8 <? zlen number) Tr_Malformed;
      res_for number_step number 0
  | _ => Err Tr_Malformed
  end.
Definition crl (der : bytes) (issuer : Certificate) (now : Z) : dres Crl :=
  _ ← reject (is_empty der || (CRL_LIMIT <? zlen der)) Tr_Malformed;
  l ← ok_or (list_from_der der) Tr_Malformed;
  canonical ← ok_or (list_to_der l) Tr_Malformed;
  _ ← reject (negb (bool_decide (canonical = der)) || negb (bool_decide (list_issuer l = subject_of issuer))
              || negb (bool_decide (list_tbs_signature l = list_signature_algorithm l))) Tr_Unauthorized;
  message ← ok_or (list_tbs_to_der l) Tr_Malformed;
  sig ← ok_or (list_signature l) Tr_Malformed;
  _ ← signed issuer (list_signature_algorithm l) message sig;
  let before := list_this_update l in
  after ← ok_or (list_next_update l) Tr_Malformed;
  _ ← reject ((now <? before) || (after <=? now) || (after <=? before)) Tr_Expired;
  extensions ← ok_or (list_extensions l) Tr_Malformed;
  number ← number_of extensions;
  Ok (mk_Crl number before after (match list_revoked l with Some rows => map serial rows | None => [] end) der).

(** ** Snapshots *)
Record Generation : Type := mk_Generation {
  g_public : Issuer; g_certificate : Certificate; g_root : Certificate; g_crl : Crl; g_root_crl : Crl;
  g_verifier : ClientVerifier
}.
Record Snapshot : Type := mk_Snapshot { sn_trust : Trust; sn_generations : list Generation }.
Definition issuer_revoked (g : Generation) : bool :=
  negb (bool_decide (g_certificate g = g_root g))
  && bool_decide (serial (serial_number (g_certificate g)) ∈ crl_revoked (g_root_crl g)).
Definition bad_marker (purpose : Purpose) (public : Issuer) : bool :=
  (128 <? str_len (is_provisioner public)) || (128 <? str_len (is_kid public))
  || negb (bool_decide (is_mode public = Mode_VerifyOnly)) && is_empty (is_provisioner public)
  || bool_decide (purpose = Purpose_Agent)
     && (negb (bool_decide (is_provisioner public = lit "rss-agent")) || is_empty (is_kid public)).
(** The issuer and its root: shape, validity, names and signatures. *)
Definition check_pair (public : Issuer) (certificate root : Certificate) (now : Z) (restoring : bool) : dres () :=
  _ ← ca_shape certificate;
  _ ← ca_shape root;
  _ ← (if negb restoring && negb (bool_decide (is_mode public = Mode_VerifyOnly)) then
         _ ← valid_ca certificate now; valid_ca root now
       else Ok ());
  _ ← reject (negb (bool_decide (issuer_of certificate = subject_of root))
              || negb (bool_decide (subject_of root = issuer_of root))) Tr_Unauthorized;
  message ← ok_or (tbs_to_der root) Tr_Malformed;
  sig ← ok_or (signature_bits root) Tr_Malformed;
  _ ← signed root (signature_algorithm root) message sig;
  _ ← reject (negb (bool_decide (signature_algorithm certificate = tbs_signature certificate))
              || negb (bool_decide (signature_algorithm root = tbs_signature root))) Tr_Malformed;
  message ← ok_or (tbs_to_der certificate) Tr_Malformed;
  sig ← ok_or (signature_bits certificate) Tr_Malformed;
  signed root (signature_algorithm certificate) message sig.
(** The loop over the issuers: generations so far, digests seen, one list per root. *)
Definition Building : Type := list Generation * list rstr * list (rstr * bytes).
Definition add_generation (purpose : Purpose) (now : Z) (restoring : bool) (acc : Building) (public : Issuer) :
    dres Building :=
  let '(generations, seen, root_lists) := acc in
  _ ← reject (bad_marker purpose public) Tr_Malformed;
  der ← decode (is_certificate public) DER_LIMIT;
  _ ← reject (negb (bool_decide (digest der = is_digest public)) || bs_mem (is_digest public) seen) Tr_Conflict;
  certificate ← ok_or (certificate_from_der der) Tr_Malformed;
  root_der ← decode (is_root public) DER_LIMIT;
  root ← ok_or (certificate_from_der root_der) Tr_Malformed;
  _ ← check_pair public certificate root now restoring;
  issuer_list ← decode (is_crl public) CRL_LIMIT;
  issuer_crl ← crl issuer_list certificate now;
  root_list ← decode (is_root_crl public) CRL_LIMIT;
  root_crl ← crl root_list root now;
  _ ← reject (match bm_get (digest root_der) root_lists with
              | Some previous => negb (bool_decide (previous = crl_der root_crl))
              | None => false
              end) Tr_Conflict;
  _ ← reject (bool_decide (certificate = root) && negb (bool_decide (crl_der issuer_crl = crl_der root_crl)))
        Tr_Conflict;
  _ ← reject (negb (root_store_add root_der)) Tr_Malformed;
  let verifier := mk_ClientVerifier root_der
    (crl_der issuer_crl :: if bool_decide (certificate = root) then [] else [crl_der root_crl]) in
  _ ← reject (negb (verifier_build verifier)) Tr_Malformed;
  Ok (generations ++ [mk_Generation public certificate root issuer_crl root_crl verifier],
      bs_insert (is_digest public) seen, bm_insert (digest root_der) (crl_der root_crl) root_lists).
Definition bad_origin (origin : rstr) (u : Url) : bool :=
  negb (bool_decide (url_scheme u = lit "https")) || negb (given (url_host_str u))
  || negb (bool_decide (url_origin_ascii u = origin)) || negb (is_empty (url_username u)) || given (url_password u).
Definition snapshot (trust : Trust) (purpose : Purpose) (now : Z) (restoring : bool) : dres Snapshot :=
  _ ← invalid (Trust_validate trust);
  _ ← reject (negb (bool_decide (t_purpose trust = purpose))) Tr_Malformed;
  origin ← ok_or (url_parse (t_origin trust)) Tr_Malformed;
  _ ← reject (bad_origin (t_origin trust) origin) Tr_Malformed;
  built ← res_for (add_generation (t_purpose trust) now restoring) (t_issuers trust) ([], [], []);
  _ ← ok_or (head built.1.1) Tr_Malformed;
  Ok (mk_Snapshot trust built.1.1).
Definition DeviceTrust_new (trust : Trust) (purpose : Purpose) (now : Z) : dres Snapshot :=
  snapshot trust purpose now false.
(** The newest of the lists of a trust document. *)
Definition checkpoint_step (checkpoint : Z) (value : rstr) : dres Z :=
  der ← decode value CRL_LIMIT;
  l ← ok_or (list_from_der der) Tr_Malformed;
  Ok (Z.max checkpoint (list_this_update l)).
Definition checkpoint (trust : Trust) : dres Z :=
  res_for checkpoint_step (t_issuers trust ≫= fun g => [is_crl g; is_root_crl g]) 0.
Definition DeviceTrust_restore (trust : Trust) (purpose : Purpose) (now : Z) : dres Snapshot :=
  _ ← invalid (Trust_validate trust);
  at_ ← checkpoint trust;
  _ ← reject ((at_ <=? 0) || (now <? at_)) Tr_Expired;
  snapshot trust purpose at_ true.

(** ** Reading and replacing the snapshot *)
Definition certificate_step (acc : list bytes * list (bool * bytes)) (e : bool * rstr) :
    dres (list bytes * list (bool * bytes)) :=
  der ← decode e.2 DER_LIMIT;
  Ok (if bs_mem der acc.1 then acc else (bs_insert der acc.1, acc.2 ++ [(e.1, der)])).
Definition certificates (s : Snapshot) : dres (list (bool * bytes)) :=
  r ← res_for certificate_step (t_issuers (sn_trust s) ≫= fun g => [(true, is_root g); (false, is_certificate g)])
        ([], []);
  Ok r.2.
Definition active (s : Snapshot) : dres Issuer :=
  g ← ok_or (List.find (fun g => is_active (g_public g)) (sn_generations s)) Tr_Malformed;
  _ ← reject (issuer_revoked g) Tr_Revoked;
  Ok (g_public g).
Definition rebound (old next : Trust) : bool :=
  negb (bool_decide (t_service_id next = t_service_id old))
  || negb (bool_decide (t_origin next = t_origin old))
     && negb (bool_decide (t_purpose next = Purpose_Agent) || bool_decide (t_purpose next = Purpose_AgentBootstrap))
  || negb (bool_decide (t_tenant next = t_tenant old)) || negb (bool_decide (t_purpose next = t_purpose old))
  || (t_revision next <? t_revision old).
Definition approved (t : Trust) : list (rstr * Mode) := map (fun g => (is_digest g, is_mode g)) (t_issuers t).
(** A list never goes back, and one number is one list. *)
Definition list_conflict (a b : Crl) : bool :=
  (crl_number b <? crl_number a) || (crl_this_update b <? crl_this_update a)
  || (crl_number b =? crl_number a) && negb (bool_decide (crl_der b = crl_der a)).
Definition generation_conflict (old : list Generation) (g : Generation) : bool :=
  match List.find (fun p => bool_decide (is_digest (g_public p) = is_digest (g_public g))) old with
  | None => false
  | Some p =>
      negb (bool_decide (is_certificate (g_public g) = is_certificate (g_public p)))
      || negb (bool_decide (is_root (g_public g) = is_root (g_public p)))
      || negb (bool_decide (is_provisioner (g_public g) = is_provisioner (g_public p)))
      || negb (bool_decide (is_kid (g_public g) = is_kid (g_public p)))
      || list_conflict (g_crl p) (g_crl g) || list_conflict (g_root_crl p) (g_root_crl g)
  end.
(** Under the write lock: the next snapshot replaces the old one only when every check passes. *)
Definition update (old : Snapshot) (trust : Trust) (now : Z) : dres Snapshot :=
  _ ← reject (rebound (sn_trust old) trust) Tr_Conflict;
  next ← snapshot trust (t_purpose (sn_trust old)) now false;
  _ ← reject ((t_revision (sn_trust next) =? t_revision (sn_trust old))
              && negb (bool_decide (approved (sn_trust next) = approved (sn_trust old)))) Tr_Conflict;
  _ ← reject (existsb (generation_conflict (sn_generations old)) (sn_generations next)) Tr_Conflict;
  Ok next.

(** A request under the lock: a rejected one leaves the snapshot as it is. *)
Definition serve (s : Snapshot) (request : Trust * Z) : Snapshot :=
  match update s request.1 request.2 with Ok next => next | _ => s end.

(** ** Agent identities *)
Definition marker_matches (p : Provisioner) (public : Issuer) : bool :=
  (pv_kind p =? 1) && bool_decide (pv_name p = str_bytes (is_provisioner public))
  && bool_decide (pv_credential p = str_bytes (is_kid public)).
Definition agent_identity (c : Certificate) (public : Issuer) : dres rstr :=
  _ ← reject (negb (bool_decide (name_to_string (subject_of c) = lit "CN=rss-mdm-agent"))
              || negb (bool_decide (alg_oid (spki_algorithm c) = RSA))) Tr_Unauthorized;
  san ← ok_or (subject_alt_name c) Tr_Malformed;
  san ← ok_or san Tr_Unauthorized;
  identity ← match san with [UniformResourceIdentifier uri] => Ok uri | _ => Err Tr_Unauthorized end;
  remainder ← ok_or (strip_prefix URN identity) Tr_Unauthorized;
  parts ← ok_or (split_once 58 remainder) Tr_Unauthorized;
  tenant ← ok_or (uuid_parse_str parts.1) Tr_Malformed;
  device ← ok_or (b64_decode parts.2) Tr_Malformed;
  device ← ok_or (from_utf8 device) Tr_Malformed;
  _ ← reject (is_nil tenant || is_empty device || (256 <? str_len device) || has_control device
              || negb (bool_decide (URN ++ uuid_to_string tenant ++ lit ":" ++ b64_encode (str_bytes device) = identity)))
        Tr_Unauthorized;
  extensions ← ok_or (extensions_of c) Tr_Unauthorized;
  _ ← reject (negb (bool_decide (NoDup (map fst extensions)))) Tr_Unauthorized;
  marker ← ok_or (List.find (fun e => bool_decide (e.1 = AGENT_MARKER)) extensions) Tr_Unauthorized;
  provisioner ← ok_or (provisioner_from_der marker.2) Tr_Malformed;
  _ ← reject (negb (marker_matches provisioner public)) Tr_Unauthorized;
  Ok identity.
(** The tenant an agent identity must start with. *)
Definition tenant_prefix (trust : Trust) : rstr := URN ++ uuid_to_string (t_tenant trust) ++ lit ":".

(** ** Verification *)
Definition parse_failure {A} (r : ceres A) : dres () :=
  match r with Ok _ => Ok () | Err _ => Err Tr_Unauthorized | Panic => Panic end.
Definition no_alt_name (c : Certificate) : dres bool :=
  san ← ok_or (subject_alt_name c) Tr_Malformed; Ok (given san).
Definition leaf_purpose (trust : Trust) (leaf : Certificate) : dres () :=
  bad ← or_else (extension_bad Tr_Malformed (basic_constraints leaf) constraints_bad)
    (or_else (extension_bad Tr_Malformed (key_usage leaf) (fun v => negb (bool_decide (v = [DigitalSignature]))))
      (extension_bad Tr_Malformed (ext_key_usage leaf) (fun v => negb (bool_decide (v = [CLIENT_AUTH])))));
  _ ← reject bad Tr_Unauthorized;
  match t_purpose trust with
  | Purpose_Windows =>
      let subject := name_to_string (subject_of leaf) in
      id ← ok_or (strip_prefix (lit "CN=") subject ≫= uuid_parse_str) Tr_Unauthorized;
      bad ← or_else (Ok (is_nil id || negb (bool_decide (subject = lit "CN=" ++ uuid_to_string id)))) (no_alt_name leaf);
      reject bad Tr_Unauthorized
  | Purpose_AgentBootstrap =>
      _ ← parse_failure (bootstrap_parse_subject (name_rdns (subject_of leaf)));
      bad ← or_else (Ok ((not_after leaf <=? not_before leaf) || (604800 <? not_after leaf - not_before leaf)))
              (no_alt_name leaf);
      reject bad Tr_Unauthorized
  | Purpose_Apple =>
      _ ← parse_failure (apple_parse_subject (name_rdns (subject_of leaf)));
      bad ← no_alt_name leaf;
      reject bad Tr_Unauthorized
  | Purpose_Agent =>
      san ← ok_or (subject_alt_name leaf) Tr_Malformed;
      san ← ok_or san Tr_Unauthorized;
      match san with
      | [UniformResourceIdentifier uri] =>
          reject (negb (bool_decide (name_to_string (subject_of leaf) = lit "CN=rss-mdm-agent"))
                  || negb (starts_with (tenant_prefix trust) uri)) Tr_Unauthorized
      | _ => Err Tr_Unauthorized
      end
  end.
(** An agent's identity belongs to the tenant of the trust. *)
Definition tenant_identity (trust : Trust) (leaf : Certificate) (public : Issuer) : dres () :=
  if bool_decide (t_purpose trust = Purpose_Agent) then
    identity ← agent_identity leaf public;
    reject (negb (starts_with (tenant_prefix trust) identity)) Tr_Unauthorized
  else Ok ().
Definition find_generation (s : Snapshot) (digest : rstr) : option Generation :=
  List.find (fun g => bool_decide (is_digest (g_public g) = digest)) (sn_generations s).
Definition verify_history (s : Snapshot) (leaf_der : bytes) (issuer : rstr) : dres Issuer :=
  _ ← reject (is_empty leaf_der || (DER_LIMIT <? zlen leaf_der)) Tr_Malformed;
  leaf ← ok_or (certificate_from_der leaf_der) Tr_Malformed;
  _ ← leaf_purpose (sn_trust s) leaf;
  g ← ok_or (find_generation s issuer) Tr_Unauthorized;
  canonical ← ok_or (certificate_to_der leaf) Tr_Malformed;
  _ ← reject (negb (bool_decide (canonical = leaf_der))
              || negb (bool_decide (signature_algorithm leaf = tbs_signature leaf))
              || negb (bool_decide (issuer_of leaf = subject_of (g_certificate g)))
              || (not_after leaf <=? not_before leaf) || (not_before leaf <? not_before (g_certificate g))
              || (not_after (g_certificate g) <? not_after leaf)) Tr_Unauthorized;
  message ← ok_or (tbs_to_der leaf) Tr_Malformed;
  sig ← ok_or (signature_bits leaf) Tr_Malformed;
  _ ← signed (g_certificate g) (signature_algorithm leaf) message sig;
  _ ← tenant_identity (sn_trust s) leaf (g_public g);
  Ok (g_public g).
(** [None]: the loop goes on with the next generation. *)
Definition signed_by (g : Generation) (leaf : Certificate) : dres bool :=
  if negb (bool_decide (issuer_of leaf = subject_of (g_certificate g))) then Ok false else
  message ← ok_or (tbs_to_der leaf) Tr_Malformed;
  sig ← ok_or (signature_bits leaf) Tr_Malformed;
  match signed (g_certificate g) (signature_algorithm leaf) message sig with
  | Ok _ => Ok true
  | Err _ => Ok false
  | Panic => Panic
  end.
Definition stale (g : Generation) (now : Z) : bool :=
  (now <? crl_this_update (g_crl g)) || (crl_next_update (g_crl g) <=? now)
  || (now <? crl_this_update (g_root_crl g)) || (crl_next_update (g_root_crl g) <=? now).
Definition accept (trust : Trust) (g : Generation) (leaf : Certificate) (leaf_der : bytes) (now : Z) : dres Issuer :=
  _ ← tenant_identity trust leaf (g_public g);
  _ ← valid_ca (g_certificate g) now;
  _ ← valid_ca (g_root g) now;
  _ ← reject (stale g now) Tr_Expired;
  _ ← reject (issuer_revoked g || bool_decide (serial (serial_number leaf) ∈ crl_revoked (g_crl g))) Tr_Revoked;
  issuer ← ok_or (certificate_to_der (g_certificate g)) Tr_Malformed;
  _ ← reject (negb (verify_client_cert (g_verifier g) leaf_der [issuer] now)) Tr_Malformed;
  Ok (g_public g).
Fixpoint first_signer (trust : Trust) (gs : list Generation) (leaf : Certificate) (leaf_der : bytes) (now : Z) :
    dres Issuer :=
  match gs with
  | [] => Err Tr_Unauthorized
  | g :: gs =>
      mine ← signed_by g leaf;
      if (mine : bool) then accept trust g leaf leaf_der now else first_signer trust gs leaf leaf_der now
  end.
Definition verify (s : Snapshot) (chain : list bytes) (now : Z) : dres Issuer :=
  _ ← reject (is_empty chain || (4 <? zlen chain) || existsb (fun c => DER_LIMIT <? zlen c) chain || (now <=? 0))
        Tr_Unauthorized;
  leaf_der ← or_panic (head chain);
  leaf ← ok_or (certificate_from_der leaf_der) Tr_Malformed;
  _ ← leaf_purpose (sn_trust s) leaf;
  first_signer (sn_trust s) (sn_generations s) leaf leaf_der now.
(** One listener for several purposes. *)
Definition enrollment_accepts (trusts : list Snapshot) (chain : list bytes) (now : Z) : bool :=
  existsb (fun s => is_ok (verify s chain now)) trusts.

(** ** Qualification *)
Record CertificateWindow : Type := mk_CertificateWindow { cw_start : Z; cw_end : Z }.
Definition signs (g : Generation) (leaf : Certificate) : bool :=
  bool_decide (issuer_of leaf = subject_of (g_certificate g))
  && match tbs_to_der leaf, signature_bits leaf with
     | Some message, Some sig => is_ok (signed (g_certificate g) (signature_algorithm leaf) message sig)
     | _, _ => false
     end.
(** The index of the first generation that signed the leaf. *)
Fixpoint selected (gs : list Generation) (leaf : Certificate) : option nat :=
  match gs with
  | [] => None
  | g :: gs => if signs g leaf then Some O else S <$> selected gs leaf
  end.
Definition time (t : Z) : dres Z := ok_or (checked_i64 t) Tr_Malformed.
Definition narrow_pair (w : Z * Z) (c : Certificate) : dres (Z * Z) :=
  before ← time (not_before c); after ← time (not_after c); Ok (Z.max w.1 before, Z.min w.2 after).
Definition narrow (chosen : nat) (w : Z * Z) (e : nat * Generation) : dres (Z * Z) :=
  let '(i, g) := e in
  let w := (Z.max (Z.max w.1 (crl_this_update (g_crl g))) (crl_this_update (g_root_crl g)),
            Z.min (Z.min w.2 (crl_next_update (g_crl g))) (crl_next_update (g_root_crl g))) in
  if negb (bool_decide (is_mode (g_public g) = Mode_VerifyOnly)) || bool_decide (i = chosen)
  then res_for narrow_pair [g_certificate g; g_root g] w
  else Ok w.
Definition numbered {A} (l : list A) : list (nat * A) := zip (seq 0 (length l)) l.
Definition certificate_window (s : Snapshot) (der : bytes) : dres (option CertificateWindow) :=
  _ ← reject (is_empty der || (DER_LIMIT <? zlen der)) Tr_Malformed;
  leaf ← ok_or (certificate_from_der der) Tr_Malformed;
  match selected (sn_generations s) leaf with
  | None => Ok None
  | Some chosen =>
      before ← time (not_before leaf);
      after ← time (not_after leaf);
      end_ ← ok_or (checked_i64 (after + 1)) Tr_Malformed;
      w ← res_for (narrow chosen) (numbered (sn_generations s)) (Z.max before 1, end_);
      if w.2 <=? w.1 then Ok None
      else match verify s [der] w.1 with
           | Ok _ => Ok (Some (mk_CertificateWindow w.1 w.2))
           | Err _ => Ok None
           | Panic => Panic
           end
  end.
End DeviceTrust.
