(* ===== verification/DeviceTrustSpec.v ===== *)
(** * Device trust: what an accepted document guarantees

    Acceptance separates into what a document is, which does not depend on the time, and the
    periods in which its lists and certificates are current. *)
From S2P Require Import Prelude Ordered Text External TrustWire Certificates DeviceTrust.

(** ** Serial numbers *)
Lemma dec_digits_fuel f f' z acc : 0 <= z < 10 ^ Z.of_nat f -> 0 <= z < 10 ^ Z.of_nat f' -> (0 < f)%nat -> (0 < f')%nat ->
  dec_digits f z acc = dec_digits f' z acc.
Proof.
  revert f' z acc. induction f as [|f IH]; intros f' z acc Hz Hz' Hf Hf'; [lia|]. destruct f' as [|f']; [lia|]. cbn [dec_digits]. cbv zeta.
  destruct (Z.ltb_spec z 10) as [H|H]; [done|]. rewrite Nat2Z.inj_succ, Z.pow_succ_r in Hz, Hz' by lia.
  pose proof (Z.div_pos z 10). pose proof (Z.div_lt_upper_bound z 10 (10 ^ Z.of_nat f)). pose proof (Z.div_lt_upper_bound z 10 (10 ^ Z.of_nat f')).
  apply IH; [lia|lia|destruct f; [simpl in Hz; lia|lia]|destruct f'; [simpl in Hz'; lia|lia]].
Qed.
Lemma of_be_bytes_bound b : forallb is_byte b = true -> 0 <= of_be_bytes b < 10 ^ Z.of_nat (S (3 * length b)).
Proof.
  intros H. assert (0 <= of_be_bytes b < 256 ^ Z.of_nat (length b)) as Hb.
  { induction b as [|x b IH]; [simpl; lia|]. simpl in H. apply andb_true_iff in H as [Hx Hb]. specialize (IH Hb). unfold is_byte in Hx.
    cbn [of_be_bytes length]. rewrite Nat2Z.inj_succ, Z.pow_succ_r by lia. nia. }
  assert (256 ^ Z.of_nat (length b) <= 1000 ^ Z.of_nat (length b)) by (apply Z.pow_le_mono_l; lia).
  assert (10 ^ Z.of_nat (S (3 * length b)) = 10 * 1000 ^ Z.of_nat (length b)) as ->.
  { rewrite Nat2Z.inj_succ, Z.pow_succ_r, Nat2Z.inj_mul, Z.pow_mul_r by lia. done. }
  lia.
Qed.
(** The printed serial number identifies its value, whatever the length of its encoding. *)
Lemma serial_iff a b : forallb is_byte a = true -> forallb is_byte b = true ->
  (serial a = serial b <-> of_be_bytes a = of_be_bytes b).
Proof.
  intros Ha Hb. apply of_be_bytes_bound in Ha, Hb. unfold serial. split; intros H.
  - destruct (dec_digits_value _ _ [] 0 Ha ltac:(lia)) as [H1 _]. destruct (dec_digits_value _ _ [] 0 Hb ltac:(lia)) as [H2 _].
    rewrite H in H1. rewrite H2 in H1. simpl in H1. by injection H1.
  - rewrite H. apply dec_digits_fuel; [by rewrite <-H|done|lia|lia].
Qed.

Section Spec.
Context `{X : X509} `{R : Ring} `{W : WebPki} `{UC : UuidCrate} `{UT : !UuidText} `{SH : Sha2}
  `{BS : Base64Standard} `{BU : Base64} `{UR : UrlCrate} `{UO : !UrlOrigin}.

(** ** Extensions and shapes *)
Lemma or_else_ok {E} (a b : res E bool) : or_else a b = Ok false <-> a = Ok false /\ b = Ok false.
Proof. unfold or_else. destruct a as [[]| |]; simpl; split; try done; by intros []. Qed.
Lemma extension_ok {E A} (e : E) (get : option (option A)) bad :
  extension_bad e get bad = Ok false <-> exists v, get = Some (Some v) /\ bad v = false.
Proof.
  unfold extension_bad. destruct get as [[v|]|]; simpl; split; try done.
  - intros [= H]. by exists v.
  - by intros (v' & [= ->] & ->).
  - by intros (v' & ? & _).
  - by intros (v' & ? & _).
Qed.
Lemma bad_bind_ok {E} (a : res E bool) (e : E) : (bad ← a; reject bad e) = Ok () <-> a = Ok false.
Proof. destruct a as [[]| |]; simpl; done. Qed.
(** The key of [issuer] signed [message]. *)
Definition signs_with (issuer : Certificate) (algorithm : Algorithm) (message sig : bytes) : Prop :=
  exists a key, verification_algorithm (alg_oid algorithm) = Some a /\ spki_bits issuer = Some key /\
    ring_verify a key message sig = true.
Lemma signed_ok issuer algorithm message sig : signed issuer algorithm message sig = Ok () <->
  signs_with issuer algorithm message sig.
Proof.
  unfold signed, signs_with. destruct (verification_algorithm _) as [a|]; simpl; [|split; [done|by intros (? & ? & ? & _)]].
  destruct (spki_bits issuer) as [key|]; simpl; [|split; [done|by intros (? & ? & _ & ? & _)]].
  destruct (ring_verify a key message sig) eqn:E; simpl.
  - split; [|done]. intros _. by exists a, key.
  - split; [done|]. intros (? & ? & [= ->] & [= ->] & ?). congruence.
Qed.
(** A certificate signed by [issuer]. *)
Definition certificate_signed (issuer c : Certificate) : Prop :=
  exists message sig, tbs_to_der c = Some message /\ signature_bits c = Some sig /\
    signs_with issuer (signature_algorithm c) message sig.
Definition ca (c : Certificate) : Prop :=
  not_before c < not_after c /\ (exists v, basic_constraints c = Some (Some v) /\ bc_ca v = true) /\
  exists v, key_usage c = Some (Some v) /\ KeyCertSign ∈ v /\ CrlSign ∈ v.
Definition current (c : Certificate) (t : Z) : Prop := 0 < t /\ not_before c <= t < not_after c.
Lemma ca_shape_ok c : ca_shape c = Ok () <-> ca c.
Proof.
  unfold ca_shape, ca. rewrite bad_bind_ok, !or_else_ok, !extension_ok. split.
  - intros ([= H1%Z.leb_gt] & (v & Hv & Hca) & (u & Hu & Hsign)). split_and!; [done| |].
    + exists v. split; [done|]. by destruct (bc_ca v).
    + exists u. apply orb_false_iff in Hsign as [H2 H3]. bool_hyps. done.
  - intros (H1 & (v & Hv & Hca) & (u & Hu & H2 & H3)). split_and!.
    + f_equal. by apply Z.leb_gt.
    + exists v. by rewrite Hca.
    + exists u. split; [done|]. by rewrite !bool_decide_true.
Qed.
Lemma valid_ca_ok c t : valid_ca c t = Ok () <-> ca c /\ current c t.
Proof.
  unfold valid_ca. rewrite <-ca_shape_ok. destruct (ca_shape c) as [[]| |]; simpl; [|by split; [|intros []]..].
  unfold reject, current. destruct ((t <=? 0) || (t <? not_before c) || (not_after c <=? t)) eqn:E.
  - split; [done|]. intros [_ ?]. lia.
  - split; [|done]. intros _. split; [done|lia].
Qed.

(** ** Lists *)
(** The list of [issuer] with these bytes, whatever the time. *)
Record list_sound (der : bytes) (issuer : Certificate) (c : Crl) : Prop := {
  ls_der : crl_der c = der;
  ls_period : crl_this_update c < crl_next_update c;
  ls_number : 0 <= crl_number c <= u64_max;
  ls_parsed : exists l message sig, list_from_der der = Some l /\ list_to_der l = Some der /\
    list_issuer l = subject_of issuer /\ list_tbs_signature l = list_signature_algorithm l /\
    list_tbs_to_der l = Some message /\ list_signature l = Some sig /\
    signs_with issuer (list_signature_algorithm l) message sig /\
    list_this_update l = crl_this_update c /\ list_next_update l = Some (crl_next_update c) /\
    crl_revoked c = match list_revoked l with Some rows => map serial rows | None => [] end
}.
Definition fresh (c : Crl) (t : Z) : Prop := crl_this_update c <= t < crl_next_update c.
Lemma number_step_bound bs n m : 0 <= n <= u64_max -> forallb is_byte bs = true -> res_for number_step bs n = Ok m ->
  0 <= m <= u64_max.
Proof.
  revert n. induction bs as [|b bs IH]; intros n Hn Hb H; simpl in H; [by injection H as <-|].
  simpl in Hb. apply andb_true_iff in Hb as [Hb Hbs]. apply bind_ok in H as (n' & Hn' & H).
  unfold number_step, checked_u64 in Hn'. destruct (is_u64 (n * 256 + b)) eqn:E; [|done]. injection Hn' as <-.
  apply (IH (n * 256 + b)); [|done|done]. unfold is_u64 in E. lia.
Qed.
Lemma number_of_bound es n : number_of es = Ok n -> 0 <= n <= u64_max.
Proof.
  unfold number_of. destruct (List.filter _ es) as [|e [|? ?]]; try done. intros H.
  apply bind_ok in H as (b & Hb%ok_or_ok & H). apply bind_ok in H as ([] & _ & H).
  apply number_step_bound in H; [done|unfold u64_max; lia|by eapply crl_number_bytes].
Qed.
Lemma crl_ok der issuer t c : crl der issuer t = Ok c -> list_sound der issuer c /\ fresh c t.
Proof.
  unfold crl. intros H. apply bind_ok in H as ([] & _ & H). apply bind_ok in H as (l & Hl%ok_or_ok & H).
  apply bind_ok in H as (canonical & Hc%ok_or_ok & H). apply bind_ok in H as ([] & Hu%reject_ok & H).
  apply bind_ok in H as (message & Hm%ok_or_ok & H). apply bind_ok in H as (sig & Hs%ok_or_ok & H).
  apply bind_ok in H as ([] & Hsig%signed_ok & H). apply bind_ok in H as (after & Ha%ok_or_ok & H).
  apply bind_ok in H as ([] & Ht%reject_ok & H). apply bind_ok in H as (es & _ & H).
  apply bind_ok in H as (n & Hn%number_of_bound & [= <-]).
  apply orb_false_iff in Hu as [Hu Hu3]. apply orb_false_iff in Hu as [Hu1 Hu2]. bool_hyps. subst canonical.
  split; [|unfold fresh; simpl; lia]. split; simpl; [done|lia|done|]. exists l, message, sig. by rewrite Ha.
Qed.
(** The signed list [c] does not name the serial number [b]. *)
Definition not_listed (c : Crl) (b : bytes) : Prop :=
  forall l rows r, list_from_der (crl_der c) = Some l -> list_revoked l = Some rows -> r ∈ rows -> of_be_bytes r <> of_be_bytes b.
Lemma not_revoked_listed der issuer c b : list_sound der issuer c -> forallb is_byte b = true -> serial b ∉ crl_revoked c ->
  not_listed c b.
Proof.
  intros [Hd _ _ (l & m & sg & Hl & _ & _ & _ & _ & _ & _ & _ & _ & Hr)] Hb Hn l' rows r Hl' Hrows Hin E. rewrite Hd, Hl in Hl'.
  injection Hl' as <-. rewrite Hr, Hrows in Hn. apply Hn, elem_of_map. exists r. split; [|done].
  apply serial_iff; [by eapply revoked_bytes|done|done].
Qed.
(** At another time in the period of the list it reads the same. *)
Lemma crl_transfer der issuer t t' c : crl der issuer t = Ok c -> fresh c t' -> crl der issuer t' = Ok c.
Proof.
  unfold crl. intros H Hf. apply bind_ok in H as ([] & -> & H). simpl.
  apply bind_ok in H as (l & -> & H). simpl. apply bind_ok in H as (canonical & -> & H). simpl.
  apply bind_ok in H as ([] & -> & H). simpl. apply bind_ok in H as (message & -> & H). simpl.
  apply bind_ok in H as (sig & -> & H). simpl. apply bind_ok in H as ([] & -> & H). simpl.
  apply bind_ok in H as (after & -> & H). simpl. apply bind_ok in H as ([] & Ht%reject_ok & H).
  apply bind_ok in H as (es & Hes & H). apply bind_ok in H as (n & Hn & [= <-]). unfold fresh in Hf. simpl in Hf.
  unfold reject. replace (_ || _ || _) with false by lia. simpl. rewrite Hes. simpl. by rewrite Hn.
Qed.
(** Success at two times gives the same list. *)
Lemma crl_agree der issuer t t' c c' : crl der issuer t = Ok c -> crl der issuer t' = Ok c' -> c = c'.
Proof.
  intros H H'. pose proof (crl_ok _ _ _ _ H') as [_ Hf]. pose proof (crl_ok _ _ _ _ H) as [Hs _].
  assert (fresh c t') as Hf'.
  { pose proof (crl_ok _ _ _ _ H') as [Hs' _]. destruct (ls_parsed _ _ _ Hs) as (l & m & s & Hl & _ & _ & _ & _ & _ & _ & Ht & Hn & _).
    destruct (ls_parsed _ _ _ Hs') as (l' & m' & s' & Hl' & _ & _ & _ & _ & _ & _ & Ht' & Hn' & _).
    unfold fresh in *. rewrite Hl in Hl'. injection Hl' as <-. rewrite Hn in Hn'. injection Hn' as Hn'. lia. }
  pose proof (crl_transfer _ _ _ _ _ H Hf'). congruence.
Qed.

(** ** Generations *)
(** An issuer of an accepted document, whatever the time. *)
Record sound_generation (purpose : Purpose) (g : Generation) : Prop := {
  sg_marker : bad_marker purpose (g_public g) = false;
  sg_certificate : exists der, decode (is_certificate (g_public g)) DER_LIMIT = Ok der /\
    digest der = is_digest (g_public g) /\ certificate_from_der der = Some (g_certificate g);
  sg_root : exists der, decode (is_root (g_public g)) DER_LIMIT = Ok der /\ certificate_from_der der = Some (g_root g) /\
    cv_root (g_verifier g) = der;
  sg_ca : ca (g_certificate g) /\ ca (g_root g);
  sg_names : issuer_of (g_certificate g) = subject_of (g_root g) /\ subject_of (g_root g) = issuer_of (g_root g);
  sg_signed : certificate_signed (g_root g) (g_certificate g) /\ certificate_signed (g_root g) (g_root g);
  sg_crl : exists der, decode (is_crl (g_public g)) CRL_LIMIT = Ok der /\ list_sound der (g_certificate g) (g_crl g);
  sg_root_crl : exists der, decode (is_root_crl (g_public g)) CRL_LIMIT = Ok der /\ list_sound der (g_root g) (g_root_crl g);
  sg_verifier : cv_crls (g_verifier g) =
    crl_der (g_crl g) :: if bool_decide (g_certificate g = g_root g) then [] else [crl_der (g_root_crl g)]
}.
Definition fresh_generation (g : Generation) (t : Z) : Prop := fresh (g_crl g) t /\ fresh (g_root_crl g) t.
(** The issuers that must be valid when a document is accepted. *)
Definition live_pair (g : Generation) (t : Z) : Prop :=
  is_mode (g_public g) <> Mode_VerifyOnly -> current (g_certificate g) t /\ current (g_root g) t.

Lemma check_pair_ok public certificate root t restoring : check_pair public certificate root t restoring = Ok () ->
  (ca certificate /\ ca root) /\
  (issuer_of certificate = subject_of root /\ subject_of root = issuer_of root) /\
  (certificate_signed root certificate /\ certificate_signed root root) /\
  (restoring = false -> is_mode public <> Mode_VerifyOnly -> current certificate t /\ current root t).
Proof.
  unfold check_pair. intros H. apply bind_ok in H as ([] & H1%ca_shape_ok & H). apply bind_ok in H as ([] & H2%ca_shape_ok & H).
  apply bind_ok in H as ([] & Hlive & H). apply bind_ok in H as ([] & Hn%reject_ok & H).
  apply bind_ok in H as (m & Hm%ok_or_ok & H). apply bind_ok in H as (s & Hs%ok_or_ok & H).
  apply bind_ok in H as ([] & Hroot%signed_ok & H). apply bind_ok in H as ([] & _ & H).
  apply bind_ok in H as (m' & Hm'%ok_or_ok & H). apply bind_ok in H as (s' & Hs'%ok_or_ok & H).
  apply signed_ok in H. apply orb_false_iff in Hn as [Hn1 Hn2]. bool_hyps.
  split_and!; [done|done|done|done|by exists m', s'|by exists m, s|..];
    intros -> Hmode; rewrite bool_decide_false in Hlive by done; simpl in Hlive;
    apply bind_ok in Hlive as ([] & [_ ?]%valid_ca_ok & [_ ?]%valid_ca_ok); done.
Qed.
Lemma check_pair_transfer public certificate root t t' restoring restoring' :
  check_pair public certificate root t restoring = Ok () ->
  (restoring' = false -> is_mode public <> Mode_VerifyOnly -> current certificate t' /\ current root t') ->
  check_pair public certificate root t' restoring' = Ok ().
Proof.
  intros H Hlive. pose proof (check_pair_ok _ _ _ _ _ H) as ((Hc & Hr) & _). unfold check_pair in H |- *.
  apply bind_ok in H as ([] & -> & H). simpl. apply bind_ok in H as ([] & -> & H). simpl.
  apply bind_ok in H as ([] & _ & H).
  assert ((if negb restoring' && negb (bool_decide (is_mode public = Mode_VerifyOnly)) then
             _ ← valid_ca certificate t'; valid_ca root t' else Ok ()) = Ok ()) as ->; [|exact H].
  destruct restoring'; [done|]. simpl. destruct (decide (is_mode public = Mode_VerifyOnly)) as [E|E];
    [by rewrite bool_decide_true by done|]. rewrite bool_decide_false by done. simpl.
  destruct (Hlive eq_refl E) as [H1 H2]. rewrite (proj2 (valid_ca_ok certificate t')) by done. simpl.
  by apply valid_ca_ok.
Qed.

(** One issuer added: its generation, sound and current, with a digest and lists of its own. *)
Record added (purpose : Purpose) (t : Z) (restoring : bool) (acc out : Building) (public : Issuer) (g : Generation) :
    Prop := {
  ad_generations : out.1.1 = acc.1.1 ++ [g];
  ad_public : g_public g = public;
  ad_sound : sound_generation purpose g;
  ad_fresh : fresh_generation g t;
  ad_live : restoring = false -> live_pair g t;
  ad_new : is_digest public ∉ acc.1.2;
  ad_seen : out.1.2 = bs_insert (is_digest public) acc.1.2;
  ad_list : forall der, bm_get (digest (cv_root (g_verifier g))) acc.2 = Some der -> der = crl_der (g_root_crl g);
  ad_lists : out.2 = bm_insert (digest (cv_root (g_verifier g))) (crl_der (g_root_crl g)) acc.2
}.
Lemma add_generation_ok purpose t restoring acc public out : add_generation purpose t restoring acc public = Ok out ->
  exists g, added purpose t restoring acc out public g.
Proof.
  destruct acc as [[gs seen] rl]. unfold add_generation. intros H.
  apply bind_ok in H as ([] & Hmark%reject_ok & H). apply bind_ok in H as (der & Hder & H).
  apply bind_ok in H as ([] & Hdig%reject_ok & H). apply bind_ok in H as (c & Hc%ok_or_ok & H).
  apply bind_ok in H as (rder & Hrder & H). apply bind_ok in H as (root & Hroot%ok_or_ok & H).
  apply bind_ok in H as ([] & (Hca & Hnames & Hsigned & Hlive)%check_pair_ok & H).
  apply bind_ok in H as (il & Hil & H). apply bind_ok in H as (ic & [Hic Hfi]%crl_ok & H).
  apply bind_ok in H as (rl' & Hrl & H). apply bind_ok in H as (rc & [Hrc Hfr]%crl_ok & H).
  apply bind_ok in H as ([] & Hconf%reject_ok & H). do 3 (apply bind_ok in H as ([] & _ & H)). injection H as <-.
  apply orb_false_iff in Hdig as [Hdig Hseen]. bool_hyps.
  eexists. split; simpl; [done|done| |done|done| |done| |done].
  - split; simpl; [done|by exists der|by exists rder|done|done|done|by exists il|by exists rl'|done].
  - intros Hin%bs_mem_iff. congruence.
  - intros d E. simpl in E. rewrite E in Hconf. bool_hyps. done.
Qed.
Lemma add_generation_transfer purpose t t' restoring restoring' acc public out g :
  add_generation purpose t restoring acc public = Ok out -> added purpose t restoring acc out public g ->
  fresh_generation g t' -> (restoring' = false -> live_pair g t') ->
  add_generation purpose t' restoring' acc public = Ok out.
Proof.
  destruct acc as [[gs seen] rl]. unfold add_generation. intros H Hadd [Hf1 Hf2] Hlive.
  apply bind_ok in H as ([] & -> & H). simpl. apply bind_ok in H as (der & -> & H). simpl.
  apply bind_ok in H as ([] & -> & H). simpl. apply bind_ok in H as (c & -> & H). simpl.
  apply bind_ok in H as (rder & -> & H). simpl. apply bind_ok in H as (root & -> & H). simpl.
  apply bind_ok in H as ([] & Hpair & H). apply bind_ok in H as (il & Hil & H). apply bind_ok in H as (ic & Hic & H).
  apply bind_ok in H as (rl' & Hrl & H). apply bind_ok in H as (rc & Hrc & H). pose proof H as H0.
  do 4 (apply bind_ok in H as ([] & _ & H)). injection H as <-.
  pose proof (ad_generations _ _ _ _ _ _ _ Hadd) as Hg. simpl in Hg. apply app_inj_tail in Hg as [_ <-]. simpl in *.
  rewrite (check_pair_transfer _ _ _ _ t' _ restoring' Hpair) by exact Hlive. simpl. rewrite Hil. simpl.
  rewrite (crl_transfer _ _ _ _ _ Hic Hf1). simpl. rewrite Hrl. simpl. by rewrite (crl_transfer _ _ _ _ _ Hrc Hf2).
Qed.
Lemma add_generation_agree purpose t t' restoring restoring' acc public out out' :
  add_generation purpose t restoring acc public = Ok out -> add_generation purpose t' restoring' acc public = Ok out' ->
  out = out'.
Proof.
  destruct acc as [[gs seen] rl]. unfold add_generation. intros H H'.
  apply bind_ok in H as ([] & E & H). rewrite E in H'. simpl in H'. clear E.
  apply bind_ok in H as (der & E & H). rewrite E in H'. simpl in H'. clear E.
  apply bind_ok in H as ([] & E & H). rewrite E in H'. simpl in H'. clear E.
  apply bind_ok in H as (c & E & H). rewrite E in H'. simpl in H'. clear E.
  apply bind_ok in H as (rder & E & H). rewrite E in H'. simpl in H'. clear E.
  apply bind_ok in H as (root & E & H). rewrite E in H'. simpl in H'. clear E.
  apply bind_ok in H as ([] & _ & H). apply bind_ok in H' as ([] & _ & H').
  apply bind_ok in H as (il & E & H). rewrite E in H'. simpl in H'. clear E.
  apply bind_ok in H as (ic & Hic & H). apply bind_ok in H' as (ic' & Hic' & H').
  rewrite <-(crl_agree _ _ _ _ _ _ Hic Hic') in H'. clear ic' Hic'.
  apply bind_ok in H as (rl' & E & H). rewrite E in H'. simpl in H'. clear E.
  apply bind_ok in H as (rc & Hrc & H). apply bind_ok in H' as (rc' & Hrc' & H').
  rewrite <-(crl_agree _ _ _ _ _ _ Hrc Hrc') in H'. clear rc' Hrc'. congruence.
Qed.

(** ** Snapshots *)
Definition building_of (gs : list Generation) (acc out : Building) : Prop := out.1.1 = acc.1.1 ++ gs.
Lemma generations_ok purpose t restoring pubs acc out : res_for (add_generation purpose t restoring) pubs acc = Ok out ->
  exists gs, building_of gs acc out /\ map g_public gs = pubs /\
    Forall (fun g => sound_generation purpose g /\ fresh_generation g t /\ (restoring = false -> live_pair g t)) gs /\
    NoDup (map is_digest pubs) /\ (forall d, d ∈ map is_digest pubs -> d ∉ acc.1.2).
Proof.
  revert acc. induction pubs as [|p pubs IH]; intros acc H; simpl in H.
  - injection H as <-. exists []. unfold building_of. rewrite app_nil_r. split_and!; [done|done|constructor|constructor|].
    by intros ? ?%elem_of_nil.
  - apply bind_ok in H as (acc' & H1 & H). destruct (add_generation_ok _ _ _ _ _ _ H1) as [g []].
    destruct (IH acc' H) as (gs & Hgs & Hp & Hall & Hnd & Hnew). exists (g :: gs). unfold building_of in *. rewrite ad_seen0 in Hnew.
    split_and!.
    + rewrite Hgs, ad_generations0, <-app_assoc. done.
    + simpl. by rewrite Hp, ad_public0.
    + by constructor.
    + simpl. apply NoDup_cons. split; [|done]. intros Hin. apply (Hnew _ Hin), elem_of_bs_insert. by left.
    + intros d [->|Hin]%elem_of_cons; [done|]. intros Hd. apply (Hnew d Hin), elem_of_bs_insert. by right.
Qed.
Lemma generations_transfer purpose t t' restoring restoring' pubs acc out :
  res_for (add_generation purpose t restoring) pubs acc = Ok out ->
  (forall g, g ∈ out.1.1 -> fresh_generation g t' /\ (restoring' = false -> live_pair g t')) ->
  res_for (add_generation purpose t' restoring') pubs acc = Ok out.
Proof.
  revert acc. induction pubs as [|p pubs IH]; intros acc H Hall; simpl in H |- *; [done|].
  apply bind_ok in H as (acc' & H1 & H). destruct (add_generation_ok _ _ _ _ _ _ H1) as [g Hg].
  assert (g ∈ out.1.1) as Hin.
  { destruct (generations_ok _ _ _ _ _ _ H) as (gs & Hgs & _). unfold building_of in Hgs.
    rewrite Hgs, (ad_generations _ _ _ _ _ _ _ Hg). set_solver. }
  destruct (Hall g Hin) as [Hf Hl]. rewrite (add_generation_transfer _ _ t' _ restoring' _ _ _ _ H1 Hg Hf Hl). simpl.
  by apply IH.
Qed.
Lemma generations_agree purpose t t' restoring restoring' pubs acc out out' :
  res_for (add_generation purpose t restoring) pubs acc = Ok out ->
  res_for (add_generation purpose t' restoring') pubs acc = Ok out' -> out = out'.
Proof.
  revert acc. induction pubs as [|p pubs IH]; intros acc H H'; simpl in H, H'; [congruence|].
  apply bind_ok in H as (a & H1 & H). apply bind_ok in H' as (a' & H1' & H').
  rewrite <-(add_generation_agree _ _ _ _ _ _ _ _ _ H1 H1') in H'. by eapply IH.
Qed.
(** An accepted document. *)
Record sound_snapshot (s : Snapshot) : Prop := {
  ss_trust : Trust_validate (sn_trust s) = Ok ();
  ss_generations : map g_public (sn_generations s) = t_issuers (sn_trust s);
  ss_unique : NoDup (map is_digest (t_issuers (sn_trust s)));
  ss_sound : Forall (sound_generation (t_purpose (sn_trust s))) (sn_generations s)
}.
Definition acceptable (s : Snapshot) (t : Z) (restoring : bool) : Prop :=
  forall g, g ∈ sn_generations s -> fresh_generation g t /\ (restoring = false -> live_pair g t).
Lemma snapshot_ok trust purpose t restoring s : snapshot trust purpose t restoring = Ok s ->
  sound_snapshot s /\ sn_trust s = trust /\ t_purpose trust = purpose /\ acceptable s t restoring.
Proof.
  unfold snapshot. intros H. apply bind_ok in H as ([] & Hv & H). apply bind_ok in H as ([] & Hp%reject_ok & H).
  apply bind_ok in H as (u & _ & H). apply bind_ok in H as ([] & _ & H). apply bind_ok in H as (out & Hb & H).
  apply bind_ok in H as (g0 & _ & [= <-]). bool_hyps. destruct (generations_ok _ _ _ _ _ _ Hb) as (gs & Hgs & Hpub & Hall & Hnd & _).
  unfold building_of in Hgs. simpl in Hgs. split_and!; [|done|done|].
  - split; simpl; [by destruct (Trust_validate trust) as [[]| |]|by rewrite Hgs|done|]. rewrite Hgs.
    eapply Forall_impl; [exact Hall|]. by intros g (? & _).
  - intros g. simpl. rewrite Hgs. intros Hg. rewrite Forall_forall in Hall. by apply Hall in Hg as (_ & ? & ?).
Qed.
Lemma snapshot_transfer trust purpose t t' restoring restoring' s : snapshot trust purpose t restoring = Ok s ->
  acceptable s t' restoring' -> snapshot trust purpose t' restoring' = Ok s.
Proof.
  unfold snapshot. intros H Ha. apply bind_ok in H as ([] & -> & H). simpl. apply bind_ok in H as ([] & -> & H). simpl.
  apply bind_ok in H as (u & -> & H). simpl. apply bind_ok in H as ([] & -> & H). simpl.
  apply bind_ok in H as (out & Hb & H). apply bind_ok in H as (g0 & Hg & [= <-]).
  rewrite (generations_transfer _ _ t' _ restoring' _ _ _ Hb Ha). simpl. by rewrite Hg.
Qed.
Lemma snapshot_agree trust purpose purpose' t t' restoring restoring' s s' : snapshot trust purpose t restoring = Ok s ->
  snapshot trust purpose' t' restoring' = Ok s' -> s = s'.
Proof.
  unfold snapshot. intros H H'. do 4 (apply bind_ok in H as (? & _ & H); apply bind_ok in H' as (? & _ & H')).
  apply bind_ok in H as (out & Hb & H). apply bind_ok in H' as (out' & Hb' & H').
  rewrite <-(generations_agree _ _ _ _ _ _ _ _ _ Hb Hb') in H'. apply bind_ok in H as (? & _ & H). apply bind_ok in H' as (? & _ & H').
  congruence.
Qed.
End Spec.
