(* ===== verification/DeviceVerify.v ===== *)
(** * Device trust: which certificates pass, and when

    The first issuer that signed a certificate decides; its conditions separate into those that
    hold at any time and the periods of certificates and lists.  [rustls] is described by the
    class [WebPkiTime]. *)
From S2P Require Import Prelude Ordered Text External TrustWire Certificates DeviceTrust DeviceTrustSpec.

Section Verify.
Context `{X : X509} `{R : Ring} `{W : WebPki} `{UC : UuidCrate} `{UT : !UuidText} `{SH : Sha2}
  `{BS : Base64Standard} `{BU : Base64} `{UR : UrlCrate} `{UO : !UrlOrigin}.

(** ** The deciding issuer *)
Definition signed_leaf (g : Generation) (leaf : Certificate) : Prop :=
  issuer_of leaf = subject_of (g_certificate g) /\ certificate_signed (g_certificate g) leaf.
Lemma signed_total c a m s : exists b, signed c a m s = b /\ b <> Panic.
Proof.
  unfold signed. destruct (verification_algorithm _); simpl; [|by eexists]. destruct (spki_bits _); simpl; [|by eexists].
  destruct (ring_verify _ _ _ _); by eexists.
Qed.
Lemma signs_iff g leaf : signs g leaf = true <-> signed_leaf g leaf.
Proof.
  unfold signs, signed_leaf, certificate_signed. rewrite andb_true_iff, bool_decide_eq_true. apply and_iff_compat_l.
  destruct (tbs_to_der leaf) as [m|]; [|by split; [|intros (? & ? & ? & _)]].
  destruct (signature_bits leaf) as [s|]; [|by split; [|intros (? & ? & _ & ? & _)]].
  destruct (signed _ _ m s) as [[]| |] eqn:E; simpl.
  - apply signed_ok in E. split; [|done]. intros _. by exists m, s.
  - split; [done|]. intros (? & ? & [= <-] & [= <-] & H%signed_ok). congruence.
  - split; [done|]. intros (? & ? & [= <-] & [= <-] & H%signed_ok). congruence.
Qed.
Lemma signed_by_ok g leaf b : signed_by g leaf = Ok b -> b = signs g leaf.
Proof.
  unfold signed_by, signs. destruct (bool_decide _); simpl; [|congruence].
  destruct (tbs_to_der leaf) as [m|]; simpl; [|done]. destruct (signature_bits leaf) as [s|]; simpl; [|done].
  destruct (signed _ _ m s); simpl; congruence.
Qed.
(** Once some issuer has signed the leaf, the leaf encodes and every issuer's answer is known. *)
Lemma signed_by_total g g' leaf : signs g' leaf = true -> signed_by g leaf = Ok (signs g leaf).
Proof.
  unfold signed_by, signs. intros [_ H]%andb_true_iff. destruct (bool_decide _); simpl; [|done].
  destruct (tbs_to_der leaf) as [m|]; simpl; [|done]. destruct (signature_bits leaf) as [s|]; simpl; [|done].
  destruct (signed_total (g_certificate g) (signature_algorithm leaf) m s) as (b & -> & Hb). by destruct b.
Qed.
Lemma selected_ok gs leaf i : selected gs leaf = Some i ->
  exists g, gs !! i = Some g /\ signs g leaf = true /\ forall j g', (j < i)%nat -> gs !! j = Some g' -> signs g' leaf = false.
Proof.
  revert i. induction gs as [|g gs IH]; intros i H; simpl in H; [done|]. destruct (signs g leaf) eqn:E.
  - injection H as <-. exists g. split_and!; [done|done|lia].
  - apply fmap_Some in H as (k & Hk & ->). destruct (IH k Hk) as (g' & Hg' & Hs & Hmin). exists g'. split_and!; [done|done|].
    intros [|j] h Hj Hh; [simpl in Hh; congruence|]. apply (Hmin j h); [lia|done].
Qed.
Lemma selected_none gs leaf : selected gs leaf = None -> forall g, g ∈ gs -> signs g leaf = false.
Proof.
  induction gs as [|g gs IH]; simpl; intros H h Hh; [by apply elem_of_nil in Hh|].
  destruct (signs g leaf) eqn:E; [done|]. apply fmap_None in H. apply elem_of_cons in Hh as [->|Hh]; [done|by apply IH].
Qed.
Lemma first_signer_selected trust gs leaf der t i g : selected gs leaf = Some i -> gs !! i = Some g ->
  first_signer trust gs leaf der t = accept trust g leaf der t.
Proof.
  revert i. induction gs as [|h gs IH]; intros i Hs Hg; simpl in Hs |- *; [done|].
  destruct (selected_ok (h :: gs) leaf i Hs) as (g' & _ & Hs' & _). rewrite (signed_by_total h g' leaf Hs'). simpl.
  destruct (signs h leaf) eqn:E.
  - injection Hs as <-. simpl in Hg. by injection Hg as ->.
  - apply fmap_Some in Hs as (k & Hk & ->). by apply (IH k).
Qed.
Lemma first_signer_ok trust gs leaf der t p : first_signer trust gs leaf der t = Ok p ->
  exists i g, selected gs leaf = Some i /\ gs !! i = Some g /\ accept trust g leaf der t = Ok p.
Proof.
  intros H. destruct (selected gs leaf) as [i|] eqn:E.
  - destruct (selected_ok _ _ _ E) as (g & Hg & _). exists i, g. split_and!; [done|done|].
    by rewrite <-(first_signer_selected trust gs leaf der t i g E Hg).
  - exfalso. assert (forall g, g ∈ gs -> signs g leaf = false) as Hn by by apply selected_none. clear E.
    induction gs as [|g gs IH]; simpl in H; [done|]. apply bind_ok in H as (b & Hb%signed_by_ok & H).
    rewrite Hn in Hb by apply list_elem_of_here. subst b. apply IH; [done|]. intros g' Hg'. by apply Hn, list_elem_of_further.
Qed.

(** A digest names one issuer of an accepted document. *)
Lemma find_generation_in s g : sound_snapshot s -> g ∈ sn_generations s ->
  find_generation s (is_digest (g_public g)) = Some g.
Proof.
  intros [_ Hg Hn _] Hin. unfold find_generation. rewrite <-Hg, map_map in Hn. clear Hg.
  induction (sn_generations s) as [|h gs IH]; [by apply elem_of_nil in Hin|]. simpl in Hn |- *. apply NoDup_cons in Hn as [Hh Hn].
  apply elem_of_cons in Hin as [->|Hin]; [by rewrite bool_decide_true|]. rewrite bool_decide_false; [by apply IH|].
  intros E. apply Hh, elem_of_map. by exists g.
Qed.

(** ** Acceptance by an issuer *)
(** What does not depend on the time. *)
Definition admissible (trust : Trust) (g : Generation) (leaf : Certificate) : Prop :=
  tenant_identity trust leaf (g_public g) = Ok () /\ ca (g_certificate g) /\ ca (g_root g) /\
  issuer_revoked g = false /\ serial (serial_number leaf) ∉ crl_revoked (g_crl g).
Lemma stale_iff g t : stale g t = false <-> fresh_generation g t.
Proof. unfold stale, fresh_generation, fresh. lia. Qed.
Lemma accept_ok trust g leaf der t p : accept trust g leaf der t = Ok p <->
  p = g_public g /\ admissible trust g leaf /\ current (g_certificate g) t /\ current (g_root g) t /\
  fresh_generation g t /\
  exists issuer, certificate_to_der (g_certificate g) = Some issuer /\ verify_client_cert (g_verifier g) der [issuer] t = true.
Proof.
  unfold accept, admissible. split.
  - intros H. apply bind_ok in H as ([] & Ht & H). apply bind_ok in H as ([] & [Hc Hct]%valid_ca_ok & H).
    apply bind_ok in H as ([] & [Hr' Hrt]%valid_ca_ok & H). apply bind_ok in H as ([] & Hs%reject_ok%stale_iff & H).
    apply bind_ok in H as ([] & Hr%reject_ok & H). apply bind_ok in H as (issuer & Hi%ok_or_ok & H).
    apply bind_ok in H as ([] & Hw%reject_ok & [= <-]). apply orb_false_iff in Hr as [Hr1 Hr2]. bool_hyps.
    split; [done|]. split; [done|]. split; [done|]. split; [done|]. split; [done|]. exists issuer. by destruct (verify_client_cert _ _ _ _).
  - intros (-> & (Ht & Hc & Hr & Hi & Hs) & Hct & Hrt & Hf & issuer & Hd & Hw). rewrite Ht. simpl.
    rewrite (proj2 (valid_ca_ok _ _) (conj Hc Hct)). simpl. rewrite (proj2 (valid_ca_ok _ _) (conj Hr Hrt)). simpl.
    rewrite (proj2 (stale_iff g t) Hf). simpl. rewrite Hi, bool_decide_false by done. simpl. rewrite Hd. simpl. by rewrite Hw.
Qed.
(** The conditions on a chain that do not depend on the time, with its leaf and deciding issuer. *)
Record decided (s : Snapshot) (chain : list bytes) (der : bytes) (leaf : Certificate) (i : nat) (g : Generation) : Prop := {
  dc_head : head chain = Some der;
  dc_limits : zlen chain <= 4 /\ forall c, c ∈ chain -> zlen c <= DER_LIMIT;
  dc_leaf : certificate_from_der der = Some leaf;
  dc_purpose : leaf_purpose (sn_trust s) leaf = Ok ();
  dc_selected : selected (sn_generations s) leaf = Some i;
  dc_generation : sn_generations s !! i = Some g
}.
Lemma chain_limits (chain : list bytes) t :
  is_empty chain || (4 <? zlen chain) || existsb (fun c => DER_LIMIT <? zlen c) chain || (t <=? 0) = false <->
  chain <> [] /\ (zlen chain <= 4 /\ forall c, c ∈ chain -> zlen c <= DER_LIMIT) /\ 0 < t.
Proof.
  rewrite !orb_false_iff, existsb_false_iff, Z.ltb_ge, Z.leb_gt. setoid_rewrite Z.ltb_ge. destruct chain; simpl; naive_solver.
Qed.
Lemma verify_ok s chain t p : verify s chain t = Ok p <->
  0 < t /\ exists der leaf i g, decided s chain der leaf i g /\ accept (sn_trust s) g leaf der t = Ok p.
Proof.
  unfold verify. split.
  - intros H. apply bind_ok in H as ([] & (Hne & Hlim & Ht)%reject_ok%chain_limits & H).
    apply bind_ok in H as (der & Hd%or_panic_ok & H). apply bind_ok in H as (leaf & Hl%ok_or_ok & H).
    apply bind_ok in H as ([] & Hp & H). apply first_signer_ok in H as (i & g & Hs & Hg & H). split; [done|].
    by exists der, leaf, i, g.
  - intros (Ht & der & leaf & i & g & [] & H). rewrite (proj2 (chain_limits chain t)).
    + simpl. rewrite dc_head0. simpl. rewrite dc_leaf0. simpl. rewrite dc_purpose0. simpl.
      by rewrite (first_signer_selected _ _ _ _ _ _ _ dc_selected0 dc_generation0).
    + split; [by intros ->|done].
Qed.

(** ** No input makes it panic *)
#[local] Hint Extern 5 (no_panic (Ok _)) => discriminate : total.
Lemma apple_subject_no_panic rdns : no_panic (apple_parse_subject rdns).
Proof. unfold apple_parse_subject. no_panic_walk. Qed.
Lemma bootstrap_subject_no_panic rdns : no_panic (bootstrap_parse_subject rdns).
Proof. unfold bootstrap_parse_subject. no_panic_walk. apply apple_subject_no_panic. Qed.
Lemma parse_failure_no_panic {A} (r : ceres A) : no_panic r -> no_panic (parse_failure r).
Proof. by destruct r. Qed.
Lemma or_else_no_panic {E} (a b : res E bool) : no_panic a -> no_panic b -> no_panic (or_else a b).
Proof. intros Ha Hb. unfold or_else. apply bind_no_panic; [done|]. by intros []. Qed.
Lemma extension_bad_no_panic {E A} (e : E) (get : option (option A)) bad : no_panic (extension_bad e get bad).
Proof. unfold extension_bad. by destruct get as [[]|]. Qed.
#[local] Hint Resolve apple_subject_no_panic bootstrap_subject_no_panic parse_failure_no_panic or_else_no_panic
  extension_bad_no_panic : total.
Lemma no_alt_name_no_panic c : no_panic (no_alt_name c).
Proof. unfold no_alt_name. no_panic_walk. Qed.
#[local] Hint Resolve no_alt_name_no_panic : total.
Lemma leaf_purpose_no_panic trust leaf : no_panic (leaf_purpose trust leaf).
Proof.
  unfold leaf_purpose. apply bind_no_panic.
  { repeat (apply or_else_no_panic; [eauto with total rust|]). eauto with total rust. }
  intros bad _. apply bind_no_panic; [apply reject_no_panic|intros [] _].
  destruct (t_purpose trust); no_panic_walk; (apply or_else_no_panic; [discriminate|eauto with total rust]).
Qed.
Lemma agent_identity_no_panic c public : no_panic (agent_identity c public).
Proof. unfold agent_identity. no_panic_walk. Qed.
Lemma valid_ca_no_panic c t : no_panic (valid_ca c t).
Proof.
  unfold valid_ca, ca_shape. apply bind_no_panic; [|eauto with total rust]. apply bind_no_panic; [|eauto with total rust].
  apply or_else_no_panic; [discriminate|eauto with total rust].
Qed.
#[local] Hint Resolve leaf_purpose_no_panic agent_identity_no_panic valid_ca_no_panic : total.
Lemma accept_no_panic trust g leaf der t : no_panic (accept trust g leaf der t).
Proof. unfold accept, tenant_identity. no_panic_walk. Qed.
Lemma signed_by_no_panic g leaf : no_panic (signed_by g leaf).
Proof.
  unfold signed_by. destruct (negb _); [discriminate|]. do 2 (apply bind_no_panic; [eauto with total rust|intros ? _]).
  destruct (signed_total (g_certificate g) (signature_algorithm leaf) a a0) as (b & -> & Hb). by destruct b.
Qed.
Lemma verify_no_panic s chain t : no_panic (verify s chain t).
Proof.
  unfold verify. destruct chain as [|der chain]; [discriminate|]. apply bind_no_panic; [eauto with total rust|intros _ _].
  apply bind_no_panic; [discriminate|intros d _]. do 2 (apply bind_no_panic; [eauto with total rust|intros ? _]).
  induction (sn_generations s) as [|g gs IH]; simpl; [discriminate|]. apply bind_no_panic; [apply signed_by_no_panic|].
  intros [] _; [apply accept_no_panic|exact IH].
Qed.

(** ** The validity window *)
Definition inside (w : Z * Z) (t : Z) : Prop := w.1 <= t < w.2.
Lemma time_range c : time (not_before c) = Ok (not_before c) /\ time (not_after c) = Ok (not_after c).
Proof.
  assert (forall z, 0 <= z < 253402300800 -> time z = Ok z) as H.
  { intros z Hz. unfold time, checked_i64, is_i64, i64_min, i64_max. replace (_ && _) with true by lia. done. }
  split; apply H; [apply not_before_range|apply not_after_range].
Qed.
Lemma narrow_pair_value w c : narrow_pair w c = Ok (Z.max w.1 (not_before c), Z.min w.2 (not_after c)).
Proof. unfold narrow_pair. by destruct (time_range c) as [-> ->]. Qed.
Lemma narrow_pair_ok cs w : exists w', res_for narrow_pair cs w = Ok w' /\
  forall t, inside w' t <-> inside w t /\ forall c, c ∈ cs -> not_before c <= t < not_after c.
Proof.
  revert w. induction cs as [|c cs IH]; intros w; simpl.
  - exists w. split; [done|]. intros t. split; [|tauto]. intros H. split; [done|]. by intros c ?%elem_of_nil.
  - rewrite narrow_pair_value. simpl. destruct (IH (Z.max w.1 (not_before c), Z.min w.2 (not_after c))) as (w' & -> & Hw). exists w'. split; [done|]. intros t.
    rewrite Hw. unfold inside. simpl. setoid_rewrite elem_of_cons. split.
    + intros [? Hcs]. split; [lia|]. intros d [->|Hd]; [lia|by apply Hcs].
    + intros [? Hcs]. split; [|naive_solver]. specialize (Hcs c (or_introl eq_refl)). lia.
Qed.
(** The bounds one issuer sets. *)
Definition bounded_by (chosen i : nat) (g : Generation) (t : Z) : Prop :=
  fresh_generation g t /\
  (is_mode (g_public g) <> Mode_VerifyOnly \/ i = chosen ->
   not_before (g_certificate g) <= t < not_after (g_certificate g) /\ not_before (g_root g) <= t < not_after (g_root g)).
Lemma narrow_ok chosen w i g : exists w', narrow chosen w (i, g) = Ok w' /\
  forall t, inside w' t <-> inside w t /\ bounded_by chosen i g t.
Proof.
  unfold narrow, bounded_by, fresh_generation, fresh.
  set (w1 := (Z.max _ (crl_this_update (g_root_crl g)), _)).
  assert (forall t, inside w1 t <-> inside w t /\ crl_this_update (g_crl g) <= t < crl_next_update (g_crl g) /\
    crl_this_update (g_root_crl g) <= t < crl_next_update (g_root_crl g)) as H1 by (intros t; unfold inside, w1; simpl; lia).
  destruct (negb _ || _) eqn:E.
  - destruct (narrow_pair_ok [g_certificate g; g_root g] w1) as (w' & Hw' & H2). exists w'. split; [exact Hw'|]. intros t.
    rewrite H2, H1. setoid_rewrite elem_of_cons. setoid_rewrite list_elem_of_singleton.
    apply orb_true_iff in E. rewrite negb_true_iff, bool_decide_eq_false, bool_decide_eq_true in E. naive_solver.
  - exists w1. split; [done|]. intros t. rewrite H1. apply orb_false_iff in E. rewrite negb_false_iff, bool_decide_eq_false, bool_decide_eq_true in E.
    naive_solver.
Qed.
#[local] Arguments narrow : simpl never.
Lemma narrow_all chosen gs k w : exists w', res_for (narrow chosen) (zip (seq k (length gs)) gs) w = Ok w' /\
  forall t, inside w' t <-> inside w t /\ forall i g, gs !! i = Some g -> bounded_by chosen (k + i) g t.
Proof.
  revert k w. induction gs as [|g gs IH]; intros k w; simpl.
  - exists w. split; [done|]. intros t. split; [|tauto]. intros H. split; [done|]. intros i h. by rewrite lookup_nil.
  - destruct (narrow_ok chosen w k g) as (w1 & -> & H1). simpl. destruct (IH (S k) w1) as (w' & -> & H2). exists w'. split; [done|].
    intros t. rewrite H2, H1. split.
    + intros [[? Hb] Hall]. split; [done|]. intros [|i] h Hh; simpl in Hh.
      * injection Hh as <-. by rewrite Nat.add_0_r.
      * rewrite <-Nat.add_succ_comm. by apply Hall.
    + intros [? Hall]. split_and!; [done|by specialize (Hall O g eq_refl); rewrite Nat.add_0_r in Hall|].
      intros i h Hh. rewrite Nat.add_succ_comm. by apply Hall.
Qed.
End Verify.

(** ** What [rustls] checks of the time *)
Definition in_period `{X : X509} (der : bytes) (t : Z) : Prop :=
  forall c, certificate_from_der der = Some c -> not_before c <= t <= not_after c.
Definition in_list_period `{X : X509} (der : bytes) (t : Z) : Prop :=
  forall l n, list_from_der der = Some l -> list_next_update l = Some n -> list_this_update l <= t < n.
(** A leaf passes only in its period; inside the periods of every certificate of the path and of
    every list the answer does not change.  A certificate's encoding parses to it. *)
Class WebPkiTime `{X : X509} `{W : WebPki} : Prop := {
  certificate_decode_encode : forall c der, certificate_to_der c = Some der -> certificate_from_der der = Some c;
  webpki_leaf : forall v leaf path t, verify_client_cert v leaf path t = true -> in_period leaf t;
  webpki_time : forall v leaf path t t', verify_client_cert v leaf path t = true ->
    (forall der, der ∈ leaf :: cv_root v :: path -> in_period der t /\ in_period der t') ->
    (forall der, der ∈ cv_crls v -> in_list_period der t /\ in_list_period der t') ->
    verify_client_cert v leaf path t' = true
}.
Arguments WebPkiTime {X W}.

Section Window.
Context `{X : X509} `{R : Ring} `{W : WebPki} `{UC : UuidCrate} `{UT : !UuidText} `{SH : Sha2}
  `{BS : Base64Standard} `{BU : Base64} `{UR : UrlCrate} `{UO : !UrlOrigin} `{WT : !WebPkiTime}.

(** The times at which everything that decides about [leaf] is current. *)
Definition deciding_times (s : Snapshot) (leaf : Certificate) (chosen : nat) (t : Z) : Prop :=
  0 < t /\ not_before leaf <= t <= not_after leaf /\
  forall i g, sn_generations s !! i = Some g -> bounded_by chosen i g t.
Lemma list_sound_period der issuer c t : list_sound der issuer c -> fresh c t -> in_list_period (crl_der c) t.
Proof.
  intros [Hd _ _ (l & m & sg & Hl & _ & _ & _ & _ & _ & _ & Ht & Hn & _)] Hf l' n Hl' Hn'. rewrite Hd in Hl'. unfold fresh in Hf.
  rewrite Hl in Hl'. injection Hl' as <-. rewrite Hn in Hn'. injection Hn' as <-. lia.
Qed.
(** The interval the program computes is exactly those times. *)
Lemma window_times s leaf k : exists w,
  (before ← time (not_before leaf); after ← time (not_after leaf);
   end_ ← ok_or (checked_i64 (after + 1)) Tr_Malformed;
   res_for (narrow k) (numbered (sn_generations s)) (Z.max before 1, end_)) = Ok w /\
  forall t, inside w t <-> deciding_times s leaf k t.
Proof.
  destruct (narrow_all k (sn_generations s) 0 (Z.max (not_before leaf) 1, not_after leaf + 1)) as (w & Hr & Hw). exists w. split.
  - destruct (time_range leaf) as [-> ->]. simpl.
    assert (ok_or (checked_i64 (not_after leaf + 1)) Tr_Malformed = Ok (not_after leaf + 1)) as ->; [|exact Hr].
    pose proof (not_after_range leaf). unfold checked_i64, is_i64, i64_min, i64_max. by replace (_ && _) with true by lia.
  - intros t. rewrite Hw. unfold inside, deciding_times. simpl. split; intros H; split_and!; try apply H; lia.
Qed.
(** The path check is the same at two such times. *)
Lemma webpki_transfer purpose g leaf der issuer chosen t t' : sound_generation purpose g ->
  certificate_from_der der = Some leaf -> certificate_to_der (g_certificate g) = Some issuer ->
  not_before leaf <= t <= not_after leaf -> not_before leaf <= t' <= not_after leaf ->
  bounded_by chosen chosen g t -> bounded_by chosen chosen g t' ->
  verify_client_cert (g_verifier g) der [issuer] t = true -> verify_client_cert (g_verifier g) der [issuer] t' = true.
Proof.
  intros Hg Hd Hi Hl Hl' [[Hf1 Hf2] Hb] [[Hf1' Hf2'] Hb'] Hv. destruct (Hb (or_intror eq_refl)) as [Hc Hr].
  destruct (Hb' (or_intror eq_refl)) as [Hc' Hr']. apply (webpki_time _ _ _ _ _ Hv).
  - destruct (sg_root _ _ Hg) as (rder & _ & Hroot & Hcv). apply certificate_decode_encode in Hi.
    intros d. rewrite !elem_of_cons, elem_of_nil, Hcv. unfold in_period.
    intros [->|[->|[->|[]]]]; split; intros c E; rewrite E in *; simplify_eq; lia.
  - destruct (sg_crl _ _ Hg) as (d1 & _ & H1). destruct (sg_root_crl _ _ Hg) as (d2 & _ & H2). intros d. rewrite (sg_verifier _ _ Hg).
    intros [->|Hin]%elem_of_cons; [split; by eapply list_sound_period|]. destruct (bool_decide _); [by apply elem_of_nil in Hin|].
    apply list_elem_of_singleton in Hin as ->. split; by eapply list_sound_period.
Qed.
(** A certificate that passes once passes at every such time. *)
Lemma verify_transfer s der leaf i t t' p : sound_snapshot s -> certificate_from_der der = Some leaf ->
  selected (sn_generations s) leaf = Some i -> verify s [der] t = Ok p -> deciding_times s leaf i t ->
  deciding_times s leaf i t' -> verify s [der] t' = Ok p.
Proof.
  intros Hs Hd Hi (Ht & der' & leaf' & i' & g & Hdec & Ha)%verify_ok (_ & Hl & Hall) (Ht' & Hl' & Hall').
  apply verify_ok. split; [done|]. exists der', leaf', i', g. split; [done|]. pose proof Hdec as [[= <-] _ E _ Hi' Hg].
  rewrite E in Hd. injection Hd as ->. rewrite Hi in Hi'. injection Hi' as <-.
  apply accept_ok in Ha as (-> & Hadm & _ & _ & _ & issuer & Hto & Hv). apply accept_ok.
  pose proof (ss_sound _ Hs) as Hss. rewrite Forall_forall in Hss. specialize (Hss g (list_elem_of_lookup_2 _ _ _ Hg)).
  pose proof (Hall' i g Hg) as Hb'. pose proof (Hall i g Hg) as Hb. destruct (Hb') as [Hf' Hc'].
  destruct (Hc' (or_intror eq_refl)) as [? ?]. split_and!; try done.
  exists issuer. split; [done|]. by eapply (webpki_transfer _ g leaf der issuer i t t').
Qed.
(** The document is accepted and the certificate passes only at such times. *)
Lemma live_times trust purpose s der leaf t p : DeviceTrust_new trust purpose t = Ok s ->
  certificate_from_der der = Some leaf -> verify s [der] t = Ok p ->
  exists i, selected (sn_generations s) leaf = Some i /\ deciding_times s leaf i t.
Proof.
  intros Hn Hd (Ht & der' & leaf' & i & g & Hdec & Ha)%verify_ok. pose proof Hdec as [[= <-] _ E _ Hi Hg].
  rewrite E in Hd. injection Hd as ->. apply accept_ok in Ha as (-> & _ & Hc & Hr & _ & issuer & _ & Hv).
  exists i. split; [done|]. split; [done|]. split; [by eapply webpki_leaf|]. intros j h Hh.
  apply snapshot_ok in Hn as (_ & _ & _ & Hacc). destruct (Hacc h (list_elem_of_lookup_2 _ _ _ Hh)) as [Hf Hlive].
  split; [done|]. intros [Hm|Hj].
  - destruct (Hlive eq_refl Hm) as [[_ ?] [_ ?]]. done.
  - subst j. rewrite Hg in Hh. injection Hh as <-. destruct Hc, Hr. done.
Qed.
Lemma deciding_acceptable trust purpose t0 restoring s leaf i t : snapshot trust purpose t0 restoring = Ok s ->
  deciding_times s leaf i t -> DeviceTrust_new trust purpose t = Ok s.
Proof.
  intros Hs (Ht & _ & Hall). apply (snapshot_transfer _ _ _ _ _ _ _ Hs). intros g [j Hj]%list_elem_of_lookup.
  destruct (Hall j g Hj) as [Hf Hb]. split; [done|]. intros _ Hm. destruct (Hb (or_introl Hm)). split; by split.
Qed.
End Window.

(** ** Snapshots in succession

    What replaces what, over one request and over a list of requests, and the checkpoint at
    which a document loads again. *)
Section Forward.
Context `{X : X509} `{R : Ring} `{W : WebPki} `{UC : UuidCrate} `{UT : !UuidText} `{SH : Sha2}
  `{BS : Base64Standard} `{BU : Base64} `{UR : UrlCrate} `{UO : !UrlOrigin}.

(** ** Succession *)
(** Lists only move forward, and one number is one list. *)
Definition list_forward (a b : Crl) : Prop :=
  crl_number a <= crl_number b /\ crl_this_update a <= crl_this_update b /\
  (crl_number a = crl_number b -> crl_der a = crl_der b).
Record kept (a b : Generation) : Prop := {
  kp_certificate : is_certificate (g_public b) = is_certificate (g_public a);
  kp_root : is_root (g_public b) = is_root (g_public a);
  kp_provisioner : is_provisioner (g_public b) = is_provisioner (g_public a);
  kp_kid : is_kid (g_public b) = is_kid (g_public a);
  kp_crl : list_forward (g_crl a) (g_crl b);
  kp_root_crl : list_forward (g_root_crl a) (g_root_crl b)
}.
#[global] Instance list_forward_preorder : PreOrder list_forward.
Proof.
  split; [intros a; split_and!; done|]. intros a b c (H1 & H2 & H3) (H4 & H5 & H6). split_and!; [lia|lia|].
  intros E. rewrite H3 by lia. apply H6. lia.
Qed.
#[global] Instance kept_preorder : PreOrder kept.
Proof.
  split; [by intros a; split|]. intros a b c [] []. split; try congruence; by etrans.
Qed.
(** The same binding, a revision not older, and one revision is one approval. *)
Record succeeds (old next : Trust) : Prop := {
  sc_service : t_service_id next = t_service_id old;
  sc_tenant : t_tenant next = t_tenant old;
  sc_purpose : t_purpose next = t_purpose old;
  sc_revision : t_revision old <= t_revision next;
  sc_approved : t_revision next = t_revision old -> approved next = approved old
}.
#[global] Instance succeeds_preorder : PreOrder succeeds.
Proof.
  split; [by intros a; split|]. intros a b c [] []. split; [congruence..|lia|]. intros E. rewrite sc_approved1 by lia.
  apply sc_approved0. lia.
Qed.
Lemma list_conflict_ok a b : list_conflict a b = false <-> list_forward a b.
Proof.
  unfold list_conflict, list_forward. rewrite !orb_false_iff, !Z.ltb_ge, andb_false_iff, Z.eqb_neq, negb_false_iff, bool_decide_eq_true.
  split; [intros ((? & ?) & [?|?])|intros (? & ? & H)]; split_and?; try done; try lia.
  destruct (decide (crl_number b = crl_number a)) as [E|E]; [right; symmetry; by apply H|by left].
Qed.
Lemma update_ok old trust t next : update old trust t = Ok next ->
  sound_snapshot next /\ sn_trust next = trust /\ succeeds (sn_trust old) trust /\
  forall d a b, find_generation old d = Some a -> find_generation next d = Some b -> kept a b.
Proof.
  unfold update. intros H. apply bind_ok in H as ([] & Hr%reject_ok & H). apply bind_ok in H as (s & Hs & H).
  apply bind_ok in H as ([] & Happ%reject_ok & H). apply bind_ok in H as ([] & Hc%reject_ok & [= ->]).
  apply snapshot_ok in Hs as (Hsound & <- & _). rewrite existsb_false_iff in Hc.
  unfold rebound in Hr. rewrite !orb_false_iff, !negb_false_iff, !bool_decide_eq_true, Z.ltb_ge in Hr.
  destruct Hr as ((((Hr1 & _) & Hr2) & Hr3) & Hr4). split_and!; [done|done| |].
  - split; [done..|]. intros E. apply andb_false_iff in Happ as [Happ|Happ]; [lia|].
    by rewrite negb_false_iff, bool_decide_eq_true in Happ.
  - intros d a b Ha [Hin Hd%bool_decide_eq_true]%List.find_some. apply list_elem_of_In, Hc in Hin. unfold generation_conflict in Hin.
    unfold find_generation in Ha. rewrite Hd, Ha, !orb_false_iff, !negb_false_iff, !bool_decide_eq_true, !list_conflict_ok in Hin.
    destruct Hin as (((((? & ?) & ?) & ?) & ?) & ?). by split.
Qed.
Lemma serve_ok s request : sound_snapshot s ->
  sound_snapshot (serve s request) /\ succeeds (sn_trust s) (sn_trust (serve s request)) /\
  forall d a b, find_generation s d = Some a -> find_generation (serve s request) d = Some b -> kept a b.
Proof.
  intros Hs. unfold serve. destruct (update s request.1 request.2) as [next| |] eqn:E.
  - apply update_ok in E as (H1 & H2 & H3 & H4). rewrite H2. done.
  - split_and!; [done|reflexivity|]. intros d a b -> [= ->]. reflexivity.
  - split_and!; [done|reflexivity|]. intros d a b -> [= ->]. reflexivity.
Qed.
(** The snapshots a listener serves while it answers a list of requests. *)
Fixpoint history (s : Snapshot) (requests : list (Trust * Z)) : list Snapshot :=
  s :: match requests with [] => [] | request :: requests => history (serve s request) requests end.
Definition final (s : Snapshot) (requests : list (Trust * Z)) : Snapshot := foldl serve s requests.

Lemma history_forward s requests : sound_snapshot s ->
  sound_snapshot (final s requests) /\ succeeds (sn_trust s) (sn_trust (final s requests)) /\
  forall d, (forall x, x ∈ history s requests -> exists g, find_generation x d = Some g) ->
    forall a b, find_generation s d = Some a -> find_generation (final s requests) d = Some b -> kept a b.
Proof.
  revert s. induction requests as [|r requests IH]; intros s Hs; simpl.
  - split; [done|]. split; [reflexivity|]. intros d _ a b -> [= ->]. reflexivity.
  - destruct (serve_ok s r Hs) as (H1 & H2 & H3). destruct (IH _ H1) as (H4 & H5 & H6). split; [done|].
    split; [by etrans|]. intros d Hd a b Ha Hb.
    assert (exists g, find_generation (serve s r) d = Some g) as [g Hg].
    { apply Hd, list_elem_of_further. destruct requests; apply list_elem_of_here. }
    transitivity g; [by eapply H3|]. eapply (H6 d); [|done|done]. intros x Hx. by apply Hd, list_elem_of_further.
Qed.
Lemma final_in_history s requests : final s requests ∈ history s requests.
Proof.
  revert s. induction requests as [|r requests IH]; intros s; simpl; [by apply list_elem_of_here|]. apply list_elem_of_further, IH.
Qed.

(** ** Checkpoints *)
Definition this_updates (s : Snapshot) : list Z :=
  sn_generations s ≫= fun g => [crl_this_update (g_crl g); crl_this_update (g_root_crl g)].
Lemma checkpoint_step_sound v der issuer c z : decode v CRL_LIMIT = Ok der -> list_sound der issuer c ->
  checkpoint_step z v = Ok (Z.max z (crl_this_update c)).
Proof.
  intros Hd [_ _ _ (l & m & sg & Hl & _ & _ & _ & _ & _ & _ & Ht & _)]. unfold checkpoint_step. rewrite Hd. simpl. rewrite Hl. simpl.
  by rewrite Ht.
Qed.
Lemma checkpoint_sound purpose gs z : Forall (sound_generation purpose) gs ->
  res_for checkpoint_step (map g_public gs ≫= fun g => [is_crl g; is_root_crl g]) z =
  Ok (foldl Z.max z (gs ≫= fun g => [crl_this_update (g_crl g); crl_this_update (g_root_crl g)])).
Proof.
  intros H. revert z. induction H as [|g gs Hg _ IH]; intros z; [done|]. simpl.
  destruct (sg_crl _ _ Hg) as (d & Hd & H). rewrite (checkpoint_step_sound _ _ _ _ z Hd H). simpl.
  destruct (sg_root_crl _ _ Hg) as (d' & Hd' & H'). rewrite (checkpoint_step_sound _ _ _ _ _ Hd' H'). simpl. apply IH.
Qed.
Lemma foldl_max_bounds l z : z <= foldl Z.max z l /\ (forall x, x ∈ l -> x <= foldl Z.max z l) /\
  (foldl Z.max z l = z \/ foldl Z.max z l ∈ l).
Proof.
  revert z. induction l as [|x l IH]; intros z; simpl.
  - split_and!; [lia|by intros ? ?%elem_of_nil|by left].
  - destruct (IH (Z.max z x)) as (H1 & H2 & H3). split_and!; [lia|intros y [->|Hy]%elem_of_cons; [lia|by apply H2]|].
    destruct H3 as [->|H3]; [|right; by apply list_elem_of_further]. destruct (Z.max_spec z x) as [[_ ->]|[_ ->]]; [right; apply list_elem_of_here|by left].
Qed.
Lemma elem_of_this_updates s x : x ∈ this_updates s <->
  exists g, g ∈ sn_generations s /\ (x = crl_this_update (g_crl g) \/ x = crl_this_update (g_root_crl g)).
Proof.
  unfold this_updates. rewrite list_elem_of_bind. setoid_rewrite elem_of_cons. setoid_rewrite list_elem_of_singleton. naive_solver.
Qed.
End Forward.
