(* ===== verification/DeviceIssuance.v ===== *)
(** * Issued device certificates

    [device-trust]'s [agent.rs], [windows.rs] and [apple.rs]: what a certification authority
    returned is accepted only when it is the certificate that was authorized. *)
From S2P Require Import Prelude Ordered Text External TrustWire Certificates DeviceTrust.

(** [From<Error> for rss_mdm_certificate::Error], applied by [?]. *)
Definition certificate_error (e : TrustError) : CertError :=
  match e with
  | Tr_Malformed => Ce_Malformed
  | Tr_Unauthorized | Tr_Revoked => Ce_Unauthorized
  | Tr_Conflict => Ce_Conflict
  | Tr_Expired => Ce_Expired
  end.
Definition trust_result {A} (r : dres A) : ceres A :=
  match r with Ok a => Ok a | Err e => Err (certificate_error e) | Panic => Panic end.

Definition PROFILE : rstr := lit "rss-mdm.agent.v1".

Section Issuance.
Context `{X : X509} `{RQ : !CertificateRequests} `{R : Ring} `{W : WebPki} `{UC : UuidCrate} `{UT : !UuidText}
  `{SH : Sha2} `{BS : Base64Standard} `{BU : Base64} `{UR : UrlCrate} `{UO : !UrlOrigin}.

(** The certificate of the active issuer. *)
Definition active_der (s : Snapshot) : ceres bytes :=
  g ← trust_result (active s);
  trust_result (decode (is_certificate g) DER_LIMIT).
Definition active_certificate (s : Snapshot) : ceres Certificate :=
  der ← active_der s;
  ok_or (certificate_from_der der) Ce_Malformed.
Definition issuer_fingerprint (s : Snapshot) : bytes :=
  match active_der s with Ok der => sha256 der | _ => replicate 32 0 end.
Definition expires (s : Snapshot) : Z := match active_certificate s with Ok c => not_after c | _ => 0 end.

(** ** Agent *)
Record Metadata : Type := mk_Metadata {
  md_profile : rstr; md_identity : rstr; md_issuer : bytes; md_fingerprint : bytes; md_spki : bytes; md_serial : bytes; md_not_before : Z;
  md_not_after : Z; md_provisioner : rstr
}.
Record IssuedAgentCertificate : Type := mk_IssuedAgentCertificate {
  ia_metadata : Metadata; ia_csr_digest : bytes; ia_chain : list bytes
}.
Record AgentTrust : Type := mk_AgentTrust { at_trust : Snapshot; at_max_seconds : Z }.
Definition AgentTrust_from_trust (s : Snapshot) (max_days : Z) : ceres AgentTrust :=
  g ← trust_result (active s);
  _ ← reject (negb (bool_decide (is_provisioner g = lit "rss-agent")) || is_empty (is_kid g) || (128 <? str_len (is_kid g))
              || negb ((1 <=? max_days) && (max_days <=? 3650))) Ce_Malformed;
  der ← trust_result (decode (is_certificate g) DER_LIMIT);
  _ ← ok_or (certificate_from_der der) Ce_Malformed;
  Ok (mk_AgentTrust s (max_days * 86400)).
Definition permits_window (a : AgentTrust) (start end_ : Z) : bool :=
  match active_certificate (at_trust a) with
  | Ok c =>
      (0 <? start) && valid_at c start && (start <? end_) && (end_ <=? expires (at_trust a))
      && (end_ - start <=? at_max_seconds a)
  | _ => false
  end.
Definition metadata (a : AgentTrust) (der : bytes) (g : Issuer) : ceres Metadata :=
  issuer_bytes ← trust_result (decode (is_certificate g) DER_LIMIT);
  issuer ← ok_or (certificate_from_der issuer_bytes) Ce_Malformed;
  c ← ok_or (certificate_from_der der) Ce_Malformed;
  _ ← validate_leaf_profile c issuer (at_max_seconds a);
  identity ← trust_result (agent_identity c g);
  spki ← ok_or (key_to_der (spki_of c)) Ce_Malformed;
  Ok (mk_Metadata PROFILE identity (sha256 issuer_bytes) (sha256 der) (sha256 spki) (serial_number c) (not_before c) (not_after c)
        (is_provisioner g)).
Definition agent_check (a : AgentTrust) (chain : list bytes) (now : Z) : ceres Metadata :=
  g ← trust_result (verify (at_trust a) chain now);
  der ← or_panic (head chain);
  metadata a der g.
Definition other_request (m : Metadata) (csr : VerifiedAgentCsr) (identity : rstr) (start end_ : Z) : bool :=
  negb (bool_decide (md_identity m = identity)) || negb (bool_decide (md_spki m = csr_spki csr))
  || negb (md_not_before m =? start) || negb (md_not_after m =? end_).
Definition validate_issued_for (a : AgentTrust) (expected_issuer : bytes) (chain : list bytes) (csr : VerifiedAgentCsr)
    (identity : rstr) (start end_ now : Z) : ceres IssuedAgentCertificate :=
  m ← agent_check a chain now;
  _ ← reject (negb (bool_decide (md_issuer m = expected_issuer)) || other_request m csr identity start end_) Ce_Conflict;
  Ok (mk_IssuedAgentCertificate m (csr_digest csr) chain).
Definition validate_issued (a : AgentTrust) (chain : list bytes) (csr : VerifiedAgentCsr) (identity : rstr)
    (start end_ now : Z) : ceres IssuedAgentCertificate :=
  validate_issued_for a (issuer_fingerprint (at_trust a)) chain csr identity start end_ now.
Definition recover_issued_for (a : AgentTrust) (expected_issuer : bytes) (chain : list bytes) (csr : VerifiedAgentCsr)
    (identity : rstr) (start end_ : Z) : ceres IssuedAgentCertificate :=
  _ ← reject (is_empty chain || (4 <? zlen chain) || existsb (fun c => DER_LIMIT <? zlen c) chain) Ce_Malformed;
  der ← or_panic (head chain);
  g ← trust_result (verify_history (at_trust a) der (hex expected_issuer));
  m ← metadata a der g;
  _ ← reject (other_request m csr identity start end_) Ce_Conflict;
  Ok (mk_IssuedAgentCertificate m (csr_digest csr) chain).

(** ** Windows *)
Record WindowsDeviceTrust : Type := mk_WindowsDeviceTrust { wt_trust : Snapshot; wt_lifetime : Lifetime }.
Definition WindowsDeviceTrust_from_trust (s : Snapshot) : ceres WindowsDeviceTrust :=
  _ ← active_certificate s;
  Ok (mk_WindowsDeviceTrust s Lifetime_Production).
Definition with_lifetime (w : WindowsDeviceTrust) (l : Lifetime) : ceres WindowsDeviceTrust :=
  _ ← Lifetime_seconds l;
  Ok (mk_WindowsDeviceTrust (wt_trust w) l).
Definition issuance_end (w : WindowsDeviceTrust) (now : Z) : ceres Z :=
  certificate ← active_certificate (wt_trust w);
  _ ← reject (negb (valid_at certificate now)) Ce_Expired;
  seconds ← Lifetime_seconds (wt_lifetime w);
  end_ ← ok_or (checked_i64 (now + seconds)) Ce_Malformed;
  _ ← reject (not_after certificate <? i64_as_u64 end_) Ce_Expired;
  Ok end_.
Definition profile (w : WindowsDeviceTrust) (csr : WindowsCsr) (registration : Uuid) (now : Z) : ceres IssuanceProfile :=
  end_ ← issuance_end w now;
  spki ← ok_or (key_to_der (request_key (wc_request csr))) Ce_Malformed;
  der ← active_der (wt_trust w);
  Ok (mk_IssuanceProfile 1 registration now end_ (sha256 spki) (sha256 der)).
(** The fingerprint of a leaf that passes now. *)
Definition windows_verify (w : WindowsDeviceTrust) (chain : list bytes) (now : Z) : ceres bytes :=
  _ ← trust_result (verify (wt_trust w) chain now);
  der ← or_panic (head chain);
  certificate ← ok_or (certificate_from_der der) Ce_Unauthorized;
  _ ← match leaf_usage certificate now with Ok u => Ok u | Err _ => Err Ce_Unauthorized | Panic => Panic end;
  Ok (sha256 der).
Definition validate_issued_leaf (w : WindowsDeviceTrust) (p : IssuanceProfile) (csr : WindowsCsr) (chain : list bytes)
    (now : Z) : ceres bytes :=
  checked ← windows_verify w chain now;
  der ← or_panic (head chain);
  leaf ← ok_or (certificate_from_der der) Ce_Malformed;
  bad ← or_else (Ok (negb (ip_version p =? 1)))
    (or_else (g ← trust_result (verify (wt_trust w) chain now);
              der ← trust_result (decode (is_certificate g) DER_LIMIT);
              Ok (negb (bool_decide (ip_issuer p = sha256 der))))
    (or_else (Ok (negb (bool_decide (name_to_string (subject_of leaf) = lit "CN=" ++ uuid_to_string (ip_registration p)))
                  || negb (bool_decide (spki_of leaf = request_key (wc_request csr)))))
    (or_else (spki ← ok_or (key_to_der (request_key (wc_request csr))) Ce_Malformed;
              Ok (negb (bool_decide (ip_spki p = sha256 spki))
                  || negb (not_before leaf =? i64_as_u64 (ip_start p)) || negb (not_after leaf =? i64_as_u64 (ip_end p))))
      (san ← ok_or (subject_alt_name leaf) Ce_Malformed; Ok (given san)))));
  _ ← reject bad Ce_Conflict;
  Ok checked.

(** ** Apple *)
Record CheckedLeaf : Type := mk_CheckedLeaf {
  cl_issuer : bytes; cl_not_before : Z; cl_not_after : Z; cl_fingerprint : bytes; cl_spki : bytes; cl_enrollment : Uuid;
  cl_attempt : Uuid; cl_serial : bytes; cl_certificate : bytes
}.
Definition AppleDeviceTrust_from_trust (s : Snapshot) : ceres Snapshot :=
  der ← active_der s;
  _ ← ok_or (certificate_from_der der) Ce_CertificateRequest;
  Ok s.
Definition apple_verify (s : Snapshot) (chain : list bytes) (now : Z) : ceres CheckedLeaf :=
  g ← trust_result (verify s chain now);
  issuer_der ← trust_result (decode (is_certificate g) DER_LIMIT);
  issuer ← ok_or (certificate_from_der issuer_der) Ce_CertificateRequest;
  der ← or_panic (head chain);
  c ← ok_or (certificate_from_der der) Ce_CertificateRequest;
  ids ← apple_parse_subject (name_rdns (subject_of c));
  bad ← or_else (Ok (negb (apple_valid c now) || (90 * 86400 <? Z.max 0 (not_after c - not_before c))
                     || negb (bool_decide (issuer_of c = subject_of issuer))))
    (or_else (extension_bad Ce_CertificateRequest (basic_constraints c) bc_ca)
    (or_else (extension_bad Ce_CertificateRequest (key_usage c)
                (fun v => negb (bool_decide (DigitalSignature ∈ v)) || bool_decide (KeyCertSign ∈ v)))
    (or_else (extension_bad Ce_CertificateRequest (ext_key_usage c) (fun v => negb (bool_decide (v = [CLIENT_AUTH]))))
      (san ← ok_or (subject_alt_name c) Ce_CertificateRequest; Ok (given san)))));
  _ ← reject bad Ce_Unauthorized;
  spki ← ok_or (key_to_der (spki_of c)) Ce_CertificateRequest;
  Ok (mk_CheckedLeaf (sha256 issuer_der) (not_before c) (not_after c) (sha256 der) (sha256 spki) ids.1 ids.2
        (serial_number c) der).
End Issuance.
