(* ===== verification/DeviceTrustExample.v ===== *)
(** * A certification authority, for closed examples

    One self-signed authority, one device certificate and revocation lists numbered from 1: enough
    to evaluate acceptance, verification and the validity window. *)
From S2P Require Import Prelude Ordered Text External TrustWire Certificates DeviceTrust DeviceVerify DeviceIssuance.

Module DeviceTrustExample.
Import Reference.
Inductive cert : Type := Authority | Device | Program.
#[export] Instance cert_eq_dec : EqDecision cert.
Proof. solve_decision. Defined.
Definition encode (c : cert) : bytes := match c with Authority => [1] | Device => [2] | Program => [12] end.
Definition parse (b : bytes) : option cert :=
  if bool_decide (b = [1]) then Some Authority else if bool_decide (b = [2]) then Some Device
  else if bool_decide (b = [12]) then Some Program else None.
Definition sha256_rsa : Algorithm := mk_Algorithm (lit "1.2.840.113549.1.1.11") Params_Null.
Definition window_of (c : cert) : Z * Z := match c with Authority => (100, 1000) | Device | Program => (200, 800) end.
(** The list numbered [n] has the octet [n + 2], for one-octet numbers. *)
Definition parse_list (b : bytes) : option bool :=
  if bool_decide (b = [3]) then Some false else if bool_decide (b = [4]) then Some true else None.
Definition list_number (second : bool) : Z := if second then 2 else 1.

Definition usage_of (c : cert) : list Usage :=
  match c with Authority => [KeyCertSign; CrlSign] | Device | Program => [DigitalSignature] end.
Definition purposes_of (c : cert) : option (list rstr) :=
  match c with Authority => None | Device | Program => Some [CLIENT_AUTH] end.
Definition names_of (c : cert) : option (list GeneralName) :=
  match c with
  | Authority | Device => None
  | Program => Some [UniformResourceIdentifier (lit "urn:rss-mdm:agent:v1:4:d")]
  end.
Definition rdns_of (n : rstr) : list (list Ava) :=
  if bool_decide (n = lit "CN=rss-mdm-agent") then [[mk_Ava COMMON_NAME Tag_Utf8String (str_bytes AGENT_SUBJECT)]] else [].
#[export] Program Instance x509 : X509 := {|
  Name := rstr; name_to_string n := n; name_rdns := rdns_of;
  Certificate := cert; certificate_from_der := parse; certificate_to_der c := Some (encode c);
  tbs_to_der c := Some (encode c);
  subject_of c := match c with Authority => lit "CN=ca" | Device => lit "CN=7" | Program => lit "CN=rss-mdm-agent" end;
  issuer_of _ := lit "CN=ca"; serial_number c := encode c;
  not_before c := (window_of c).1; not_after c := (window_of c).2;
  signature_algorithm _ := sha256_rsa; tbs_signature _ := sha256_rsa; signature_bits _ := Some [5];
  PublicKeyInfo := unit; key_algorithm _ := mk_Algorithm RSA Params_Null; key_bits _ := Some [6]; key_to_der _ := Some [6];
  spki_of _ := tt;
  basic_constraints c := Some (Some (mk_BasicConstraints (bool_decide (c = Authority)) None));
  key_usage c := Some (Some (usage_of c)); ext_key_usage c := Some (purposes_of c); subject_alt_name c := Some (names_of c);
  extensions_of _ := Some [(AGENT_MARKER, [1])];
  provisioner_from_der _ := Some (mk_Provisioner 1 (str_bytes (lit "rss-agent")) (str_bytes (lit "k")));
  CertificateList := bool; list_from_der := parse_list; list_to_der l := Some [2 + list_number l];
  list_tbs_to_der l := Some [2 + list_number l]; list_issuer _ := lit "CN=ca";
  list_signature_algorithm _ := sha256_rsa; list_tbs_signature _ := sha256_rsa; list_signature _ := Some [5];
  list_this_update l := 140 + 10 * list_number l; list_next_update _ := Some 700;
  list_extensions l := Some [(CRL_NUMBER, [list_number l])];
  crl_number_from_der d := if forallb is_byte d then Some d else None;
  list_revoked _ := Some [[9]]
|}.
Next Obligation. intros []; simpl; lia. Qed.
Next Obligation. intros []; simpl; lia. Qed.
Next Obligation. intros []; simpl; lia. Qed.
Next Obligation. intros []; done. Qed.
Next Obligation. intros l rows r [= <-] H%list_elem_of_singleton. by subst. Qed.
Next Obligation. intros d b H. simpl in H. destruct (forallb is_byte d) eqn:E; [by injection H as <-|done]. Qed.
#[export] Instance ring : Ring := {| ring_verify _ key _ sig := bool_decide (key = [6]) && bool_decide (sig = [5]) |}.
(** The leaf is in its period. *)
Definition path_ok (leaf : bytes) (t : Z) : bool :=
  match parse leaf with Some c => ((window_of c).1 <=? t) && (t <=? (window_of c).2) | None => false end.
#[export] Instance web_pki : WebPki := {|
  root_store_add _ := true; verifier_build _ := true; verify_client_cert _ leaf _ t := path_ok leaf t
|}.
#[export] Program Instance web_pki_time : WebPkiTime (X:=x509) (W:=web_pki).
Next Obligation. intros [] der [= <-]; done. Qed.
Next Obligation.
  intros v leaf path t H c Hc. simpl in *. unfold path_ok in H. rewrite Hc in H. destruct c; simpl in *; lia.
Qed.
Next Obligation.
  intros v leaf path t t' H Hp _. simpl in *. unfold path_ok in *. destruct (parse leaf) as [c|] eqn:E; [|done].
  destruct (Hp leaf ltac:(by apply list_elem_of_here)) as [_ H']. specialize (H' c E). destruct c; simpl in *; lia.
Qed.
#[export] Instance base64_standard : Base64Standard := {| standard_decode s := Some s |}.
#[export] Program Instance base64_url : Base64 := {| b64_encode l := l; b64_decode := Some |}.
Next Obligation. done. Qed.
Next Obligation. done. Qed.
#[export] Instance url_origin : UrlOrigin (UR:=url_crate) := {| url_origin_ascii u := lit "https://" ++ u |}.

Definition issuer (l : rstr) : Issuer :=
  mk_Issuer (digest [1]) Mode_Active [1] [1] l l (lit "rss-agent") (lit "k").
Definition trust_for (purpose : Purpose) (revision : Z) (l : rstr) : Trust :=
  mk_Trust 1 3 (lit "https://mdm.example") 4 purpose revision [issuer l].
Definition trust : Z -> rstr -> Trust := trust_for Purpose_Windows.
Definition certificate_of (c : cert) : Certificate := c.
Definition nothing : Snapshot := mk_Snapshot (trust 1 [3]) [].
Definition accepted (t : Trust) (now : Z) : Snapshot := get nothing (DeviceTrust_new t (t_purpose t) now).
Definition first_snapshot : Snapshot := accepted (trust 1 [3]) 300.
Definition agent_snapshot : Snapshot := accepted (trust_for Purpose_Agent 1 [3]) 300.
Definition one_year : AgentTrust := mk_AgentTrust agent_snapshot (365 * 86400).
(** The request the certificate [Program] answers. *)
Definition agent_csr : VerifiedAgentCsr := mk_VerifiedAgentCsr [7] (sha256 [6]) (sha256 [7]).
Definition agent_name : rstr := lit "urn:rss-mdm:agent:v1:4:d".
(** Requests are their own encoding. *)
#[export] Instance requests : CertificateRequests (X:=x509) := {|
  Request := bytes; request_from_der := Some; request_to_der := Some; request_algorithm _ := sha256_rsa;
  request_key _ := tt; request_info_to_der := Some; request_signature _ := Some [5]; request_subject _ := [];
  request_attributes _ := []; extensions_from_der _ := None; constraints_from_der _ := None; usage_from_der _ := None;
  ext_usage_from_der _ := None
|}.
Definition windows_csr : WindowsCsr := mk_WindowsCsr ([8] : Request) [8].
End DeviceTrustExample.
