(* ===== verification/DeviceTrustProperties.v ===== *)
(** * Device trust: properties

    A verified certificate has an approved, current issuer; the qualification window is exactly
    the time in which a certificate passes; trust moves forward; an accepted document loads again. *)
From S2P Require Import Prelude Ordered Text External TrustWire Certificates DeviceTrust DeviceTrustSpec DeviceVerify DeviceTrustExample.
From S2P Require Import DeviceIssuance.

Section Properties.
Context `{X : X509} `{R : Ring} `{W : WebPki} `{UC : UuidCrate} `{UT : !UuidText} `{SH : Sha2}
  `{BS : Base64Standard} `{BU : Base64} `{UR : UrlCrate} `{UO : !UrlOrigin} `{WT : !WebPkiTime}.

(** The extensions of a client certificate: no authority, signatures only, client authentication only. *)
Definition client_leaf (c : Certificate) : Prop :=
  (exists v, basic_constraints c = Some (Some v) /\ bc_ca v = false /\ bc_path_len v = None) /\
  key_usage c = Some (Some [DigitalSignature]) /\ ext_key_usage c = Some (Some [CLIENT_AUTH]).
Lemma leaf_purpose_client trust leaf : leaf_purpose trust leaf = Ok () -> client_leaf leaf.
Proof.
  unfold leaf_purpose. intros H. apply bind_ok in H as (bad & Hbad & H). apply bind_ok in H as ([] & ->%reject_ok & _).
  apply or_else_ok in Hbad as ((v & Hv & Hv')%extension_ok & (Hk & He)%or_else_ok).
  apply extension_ok in Hk as (k & Hk & Hk'). apply extension_ok in He as (e & He & He'). bool_hyps. subst.
  split_and!; [|done|done]. exists v. unfold constraints_bad in Hv'. destruct (bc_ca v), (bc_path_len v); done.
Qed.
(** An agent's certificate names the tenant of the trust in its only alternative name. *)
Definition names_tenant (trust : Trust) (c : Certificate) : Prop :=
  exists uri, subject_alt_name c = Some (Some [UniformResourceIdentifier uri]) /\ starts_with (tenant_prefix trust) uri = true.
Lemma leaf_purpose_tenant trust leaf : leaf_purpose trust leaf = Ok () -> t_purpose trust = Purpose_Agent -> names_tenant trust leaf.
Proof.
  unfold leaf_purpose. intros H Hp. apply bind_ok in H as (? & _ & H). apply bind_ok in H as ([] & _ & H). rewrite Hp in H.
  apply bind_ok in H as (san & Hs%ok_or_ok & H). apply bind_ok in H as (names & ->%ok_or_ok & H).
  destruct names as [|[uri|] [|? ?]]; try done. apply reject_ok, orb_false_iff in H as [_ H]. exists uri. split; [done|].
  by destruct (starts_with _ uri).
Qed.

(** C21: A certificate chain is verified only for an issuer of the trust document whose approved
    digest is that of its certificate; the issuer's key signed the leaf and the root's key signed
    the issuer; issuer, root and both signed revocation lists are current; neither the leaf nor
    the issuer is on the list of the key above it; the leaf is a client certificate of the
    document's purpose and, for agents, of its tenant. *)
Theorem verify_sound trust purpose at_ restoring s chain now i : snapshot trust purpose at_ restoring = Ok s ->
  verify s chain now = Ok i ->
  exists der leaf g, head chain = Some der /\ certificate_from_der der = Some leaf /\ g_public g = i /\
    (i ∈ t_issuers trust /\ exists c, certificate_from_der c = Some (g_certificate g) /\ digest c = is_digest i) /\
    (issuer_of leaf = subject_of (g_certificate g) /\ issuer_of (g_certificate g) = subject_of (g_root g)) /\
    (certificate_signed (g_certificate g) leaf /\ certificate_signed (g_root g) (g_certificate g)) /\
    (ca (g_certificate g) /\ ca (g_root g) /\ current (g_certificate g) now /\ current (g_root g) now) /\
    (list_sound (crl_der (g_crl g)) (g_certificate g) (g_crl g) /\ fresh (g_crl g) now /\
     not_listed (g_crl g) (serial_number leaf)) /\
    (list_sound (crl_der (g_root_crl g)) (g_root g) (g_root_crl g) /\ fresh (g_root_crl g) now /\
     (g_certificate g <> g_root g -> not_listed (g_root_crl g) (serial_number (g_certificate g)))) /\
    client_leaf leaf /\ leaf_purpose trust leaf = Ok () /\ (purpose = Purpose_Agent -> names_tenant trust leaf).
Proof.
  intros Hs Hv. apply snapshot_ok in Hs as (Hs & Htr & <- & _).
  apply verify_ok in Hv as (_ & der & leaf & k & g & Hdec & Ha). destruct Hdec as [Hhead _ Hleaf Hpurpose Hsel Hg].
  apply accept_ok in Ha as (-> & (_ & Hca & Hcr & Hrev & Hser) & Hc & Hr & [Hf Hfr] & _).
  pose proof (ss_sound _ Hs) as Hall. rewrite Forall_forall in Hall.
  pose proof (Hall g (list_elem_of_lookup_2 _ _ _ Hg)) as [_ (d & _ & Hdig & Hparse) _ _ Hnames Hsigned (d1 & _ & Hl1) (d2 & _ & Hl2) _].
  destruct (selected_ok _ _ _ Hsel) as (g' & Hg' & Hsig%signs_iff & _). rewrite Hg in Hg'. injection Hg' as <-.
  rewrite Htr in *. exists der, leaf, g. destruct Hsig as [Hname Hsig]. split; [done|]. split; [done|]. split; [done|].
  split; [split; [|by exists d]|].
  { rewrite <-Htr, <-(ss_generations _ Hs). apply elem_of_map. exists g. split; [done|]. by eapply list_elem_of_lookup_2. }
  split; [by destruct Hnames|]. split; [by destruct Hsigned|]. split; [done|].
  pose proof (not_revoked_listed _ _ _ _ Hl1 (serial_bytes leaf) Hser) as Hfree.
  pose proof (not_revoked_listed _ _ _ _ Hl2 (serial_bytes (g_certificate g))) as Hfree'.
  pose proof (ls_der _ _ _ Hl1) as ->. split; [done|]. pose proof (ls_der _ _ _ Hl2) as ->. split.
  - split; [done|]. split; [done|]. intros Hne. apply Hfree'. intros Hin. unfold issuer_revoked in Hrev.
    by rewrite (bool_decide_false _ Hne), (bool_decide_true _ Hin) in Hrev.
  - split; [by eapply leaf_purpose_client|]. split; [done|]. by apply leaf_purpose_tenant.
Qed.

Lemma size_ok (der : bytes) : 0 < zlen der <= DER_LIMIT -> reject (is_empty der || (DER_LIMIT <? zlen der)) Tr_Malformed = Ok ().
Proof.
  intros H. destruct der; [unfold zlen in H; simpl in H; lia|]. simpl. unfold reject. by replace (_ <? _) with false by lia.
Qed.
(** C20: The qualification window of a certificate is exactly the time in which it passes: a
    document loaded anew at a time accepts the certificate if and only if the time is in the
    window, and a certificate without a window never passes. A certificate that parses gets an answer. *)
Theorem window_exact trust purpose at_ restoring s der leaf : snapshot trust purpose at_ restoring = Ok s ->
  certificate_from_der der = Some leaf -> 0 < zlen der <= DER_LIMIT ->
  exists o, certificate_window s der = Ok o /\
    forall t, (exists s' i, DeviceTrust_new trust purpose t = Ok s' /\ verify s' [der] t = Ok i) <->
      match o with Some w => cw_start w <= t < cw_end w | None => False end.
Proof.
  intros Hs Hd Hlen. pose proof (snapshot_ok _ _ _ _ _ Hs) as (Hsound & _).
  assert (forall t s' i, DeviceTrust_new trust purpose t = Ok s' -> verify s' [der] t = Ok i ->
    s' = s /\ exists k, selected (sn_generations s) leaf = Some k /\ deciding_times s leaf k t) as Hlive.
  { intros t s' i Hn Hv. pose proof (snapshot_agree _ _ _ _ _ _ _ _ _ Hs Hn) as <-. split; [done|]. by eapply live_times. }
  unfold certificate_window. rewrite size_ok by done. simpl. rewrite Hd. simpl.
  destruct (selected (sn_generations s) leaf) as [k|] eqn:Hsel.
  2: { exists None. split; [done|]. intros t. split; [|done]. intros (s' & i & Hn & Hv). by destruct (Hlive t s' i Hn Hv) as (_ & k & ? & _). }
  destruct (window_times s leaf k) as (w & Hres & Hin). apply bind_ok in Hres as (before & -> & Hres).
  apply bind_ok in Hres as (after & -> & Hres). simpl. apply bind_ok in Hres as (end_ & -> & Hres). simpl.
  rewrite Hres. simpl.
  destruct (w.2 <=? w.1) eqn:Hempty.
  { exists None. split; [done|]. intros t. split; [|done]. intros (s' & i & Hn & Hv). destruct (Hlive t s' i Hn Hv) as (_ & k' & [= <-] & H).
    apply Hin in H. unfold inside in H. lia. }
  assert (inside w w.1) as Hstart by (unfold inside; lia).
  assert (forall t s' i, DeviceTrust_new trust purpose t = Ok s' -> verify s' [der] t = Ok i ->
    inside w t /\ verify s [der] w.1 = Ok i) as Hdown.
  { intros t s' i Hn Hv. destruct (Hlive t s' i Hn Hv) as (-> & k' & [= <-] & H). split; [by apply Hin|].
    eapply verify_transfer; [done|done|done|done|done|by apply Hin]. }
  destruct (verify s [der] w.1) as [i| |] eqn:Hv.
  - eexists. split; [done|]. simpl. intros t. split.
    + intros (s' & i' & Hn & Hv'). by destruct (Hdown t s' i' Hn Hv').
    + intros H. exists s, i. apply Hin in H as Ht. split; [by eapply deciding_acceptable|].
      eapply verify_transfer; [done|done|done|done|by apply Hin|done].
  - exists None. split; [done|]. intros t. split; [|done]. intros (s' & i & Hn & Hv'). by destruct (Hdown t s' i Hn Hv').
  - by destruct (verify_no_panic s [der] w.1).
Qed.

(** C32: Along any requests to replace the trust, a listener keeps its service, tenant and purpose,
    its revision never decreases, and one revision approves one list of issuers; an issuer that
    stays approved keeps its certificate, root, provisioner and key name, and the numbers and times
    of its revocation lists never go back, one number standing for one list. Every snapshot on the
    way is a checked document. *)
Theorem trust_moves_forward s requests : sound_snapshot s ->
  sound_snapshot (final s requests) /\ succeeds (sn_trust s) (sn_trust (final s requests)) /\
  forall d, (forall x, x ∈ history s requests -> exists g, find_generation x d = Some g) ->
    forall a b, find_generation s d = Some a -> find_generation (final s requests) d = Some b -> kept a b.
Proof. apply history_forward. Qed.

(** A trust document that was once accepted can be loaded again at any later time, however
    stale its lists and certificates have become, provided one of its lists is dated; and the
    snapshot is the one that was accepted. *)
Theorem restore_accepted trust purpose now later s : DeviceTrust_new trust purpose now = Ok s -> now <= later ->
  (exists x, x ∈ this_updates s /\ 0 < x) -> DeviceTrust_restore trust purpose later = Ok s.
Proof.
  intros Hs Hl (x & Hx & Hpos). pose proof (snapshot_ok _ _ _ _ _ Hs) as ([Hv Hg _ Hsound] & Ht & _ & Hacc). rewrite Ht in *.
  unfold DeviceTrust_restore, checkpoint. rewrite Hv. simpl. rewrite <-Hg, (checkpoint_sound _ _ 0 Hsound). fold (this_updates s). simpl.
  destruct (foldl_max_bounds (this_updates s) 0) as (_ & Hmax & Hin). pose proof (Hmax x Hx).
  assert (foldl Z.max 0 (this_updates s) <= now) as Hnow.
  { destruct Hin as [?|(g & Hgs & Hc)%elem_of_this_updates]; [lia|]. destruct (Hacc g Hgs) as [[H1 H2] _]. unfold fresh in *. lia. }
  unfold reject. replace (_ || _) with false by lia. simpl. apply (snapshot_transfer _ _ _ _ _ _ _ Hs). intros g Hgs. split; [|done].
  destruct (Hacc g Hgs) as [[H1 H2] _]. unfold fresh_generation, fresh in *.
  pose proof (Hmax _ (proj2 (elem_of_this_updates s _) (ex_intro _ g (conj Hgs (or_introl eq_refl))))).
  pose proof (Hmax _ (proj2 (elem_of_this_updates s _) (ex_intro _ g (conj Hgs (or_intror eq_refl))))). lia.
Qed.
End Properties.

(** ** Issued certificates

    What acceptance of an issued certificate guarantees, and that it can be recovered. *)
Section Issuance.
Context `{X : X509} `{RQ : !CertificateRequests} `{R : Ring} `{W : WebPki} `{UC : UuidCrate} `{UT : !UuidText}
  `{SH : Sha2} `{BS : Base64Standard} `{BU : Base64} `{UR : UrlCrate} `{UO : !UrlOrigin}.

Lemma trust_result_ok {A} (r : dres A) a : trust_result r = Ok a <-> r = Ok a.
Proof. destruct r; simpl; split; congruence. Qed.
(** ** What depends only on the binding and on the named issuer *)
Lemma leaf_purpose_same t t' leaf : t_purpose t = t_purpose t' -> t_tenant t = t_tenant t' ->
  leaf_purpose t leaf = leaf_purpose t' leaf.
Proof. intros Hp Ht. unfold leaf_purpose, tenant_prefix. by rewrite Hp, Ht. Qed.
Definition same_issuer (a b : Issuer) : Prop :=
  is_certificate a = is_certificate b /\ is_provisioner a = is_provisioner b /\ is_kid a = is_kid b.
Lemma agent_identity_same c a b : same_issuer a b -> agent_identity c a = agent_identity c b.
Proof. intros (_ & Hp & Hk). unfold agent_identity, marker_matches. by rewrite Hp, Hk. Qed.
Lemma tenant_identity_same t t' leaf a b : t_purpose t = t_purpose t' -> t_tenant t = t_tenant t' -> same_issuer a b ->
  tenant_identity t leaf a = tenant_identity t' leaf b.
Proof. intros Hp Ht H. unfold tenant_identity, tenant_prefix. by rewrite Hp, Ht, (agent_identity_same _ _ _ H). Qed.
Lemma metadata_same a a' der i j : at_max_seconds a = at_max_seconds a' -> same_issuer i j ->
  metadata a der i = metadata a' der j.
Proof.
  intros Hm H. pose proof H as (Hc & Hp & _). unfold metadata. rewrite Hc, Hm, Hp.
  destruct (trust_result _) as [ib| |]; simpl; [|done..]. destruct (ok_or (certificate_from_der ib) _) as [issuer| |]; simpl; [|done..].
  destruct (ok_or (certificate_from_der der) _) as [c| |]; simpl; [|done..]. by rewrite (agent_identity_same c _ _ H).
Qed.
(** What an accepted agent certificate is. *)
Lemma metadata_ok a der g m : metadata a der g = Ok m -> exists issuer_der issuer c spki,
  decode (is_certificate g) DER_LIMIT = Ok issuer_der /\ certificate_from_der issuer_der = Some issuer /\
  certificate_from_der der = Some c /\ validate_leaf_profile c issuer (at_max_seconds a) = Ok () /\
  agent_identity c g = Ok (md_identity m) /\ key_to_der (spki_of c) = Some spki /\
  m = mk_Metadata PROFILE (md_identity m) (sha256 issuer_der) (sha256 der) (sha256 spki) (serial_number c) (not_before c) (not_after c)
        (is_provisioner g).
Proof.
  unfold metadata. intros H. apply bind_ok in H as (id & Hid%trust_result_ok & H). apply bind_ok in H as (issuer & Hi%ok_or_ok & H).
  apply bind_ok in H as (c & Hc%ok_or_ok & H). apply bind_ok in H as ([] & Hp & H). apply bind_ok in H as (identity & Hn%trust_result_ok & H).
  apply bind_ok in H as (spki & Hs%ok_or_ok & [= <-]). by exists id, issuer, c, spki.
Qed.
Lemma profile_period c issuer max_ : validate_leaf_profile c issuer max_ = Ok () ->
  0 < not_before c < not_after c /\ not_after c - not_before c <= max_ /\ not_after c <= not_after issuer.
Proof.
  unfold validate_leaf_profile. intros H. apply bind_ok in H as (bad & Hb & ->%reject_ok). apply or_else_ok in Hb as [[= Hb] _].
  rewrite !orb_false_iff in Hb. lia.
Qed.

(** ** Recovery *)
(** A leaf in canonical DER, with one signature algorithm, that does not begin before its issuer. *)
Record nested_leaf (der : bytes) (leaf issuer : Certificate) : Prop := {
  nl_some : der <> [];
  nl_canonical : certificate_to_der leaf = Some der;
  nl_algorithm : signature_algorithm leaf = tbs_signature leaf;
  nl_begins : not_before issuer <= not_before leaf
}.
Lemma issued_generation a expected chain csr identity start end_ now c : sound_snapshot (at_trust a) ->
  validate_issued_for a expected chain csr identity start end_ now = Ok c ->
  exists der leaf i g, decided (at_trust a) chain der leaf i g /\ admissible (sn_trust (at_trust a)) g leaf /\
    hex expected = is_digest (g_public g) /\ metadata a der (g_public g) = Ok (ia_metadata c) /\
    other_request (ia_metadata c) csr identity start end_ = false /\
    c = mk_IssuedAgentCertificate (ia_metadata c) (csr_digest csr) chain.
Proof.
  intros Hs H. unfold validate_issued_for, agent_check in H. apply bind_ok in H as (m & Hm & H).
  apply bind_ok in H as ([] & Ho%reject_ok & [= <-]). apply orb_false_iff in Ho as [Hi Ho].
  apply bind_ok in Hm as (p & Hv%trust_result_ok & Hm). apply bind_ok in Hm as (der & Hd%or_panic_ok & Hm).
  apply verify_ok in Hv as (_ & der' & leaf & i & g & Hdec & Ha). pose proof (dc_head _ _ _ _ _ _ Hdec) as Hd'. rewrite Hd in Hd'.
  injection Hd' as <-. apply accept_ok in Ha as (-> & Hadm & _). exists der, leaf, i, g. split_and!; try done.
  pose proof (ss_sound _ Hs) as Hall. rewrite Forall_forall in Hall.
  destruct (sg_certificate _ _ (Hall g (list_elem_of_lookup_2 _ _ _ (dc_generation _ _ _ _ _ _ Hdec)))) as (d & Hdd & Hdig & _).
  apply metadata_ok in Hm as (id & issuer & c & spki & Hid & _ & _ & _ & _ & _ & Hm). rewrite Hdd in Hid. injection Hid as <-.
  rewrite Hm in Hi. simpl in Hi. bool_hyps. by subst expected.
Qed.
Lemma verify_history_complete s der leaf g : sound_snapshot s -> g ∈ sn_generations s -> zlen der <= DER_LIMIT ->
  certificate_from_der der = Some leaf -> leaf_purpose (sn_trust s) leaf = Ok () -> nested_leaf der leaf (g_certificate g) ->
  issuer_of leaf = subject_of (g_certificate g) -> not_before leaf < not_after leaf <= not_after (g_certificate g) ->
  certificate_signed (g_certificate g) leaf -> tenant_identity (sn_trust s) leaf (g_public g) = Ok () ->
  verify_history s der (is_digest (g_public g)) = Ok (g_public g).
Proof.
  intros Hs Hg Hlen Hd Hp [Hne Hcan Halg Hbeg] Hname Hper (m & sg & Hm & Hsg & Hsig) Ht. unfold verify_history.
  assert (reject (is_empty der || (DER_LIMIT <? zlen der)) Tr_Malformed = Ok ()) as ->.
  { destruct der; [done|]. simpl. unfold reject. by replace (_ <? _) with false by lia. }
  simpl. rewrite Hd. simpl. rewrite Hp. simpl. rewrite (find_generation_in s g Hs Hg). simpl. rewrite Hcan. simpl.
  rewrite !bool_decide_true by done. unfold reject at 1. replace (_ || _) with false by lia. simpl. rewrite Hm. simpl. rewrite Hsg. simpl.
  rewrite (proj2 (signed_ok _ _ _ _) Hsig). simpl. by rewrite Ht.
Qed.
(** The issuer of a certificate in a later document that still approves it. *)
Lemma kept_generation purpose purpose' g g' : sound_generation purpose g -> sound_generation purpose' g' -> kept g g' ->
  g_certificate g' = g_certificate g /\ same_issuer (g_public g') (g_public g) /\ is_digest (g_public g') = is_digest (g_public g).
Proof.
  intros Hg Hg' [Hc _ Hp Hk _ _]. destruct (sg_certificate _ _ Hg) as (d & Hd & Hdig & Hparse).
  destruct (sg_certificate _ _ Hg') as (d' & Hd' & Hdig' & Hparse'). rewrite Hc, Hd in Hd'. injection Hd' as <-.
  rewrite Hparse in Hparse'. injection Hparse' as <-. split; [done|]. split; [by split_and!|]. congruence.
Qed.

Lemma verify_history_nested s der leaf g i : verify_history s der (is_digest (g_public g)) = Ok i ->
  find_generation s (is_digest (g_public g)) = Some g -> certificate_from_der der = Some leaf -> nested_leaf der leaf (g_certificate g).
Proof.
  unfold verify_history. intros H Hg Hl. apply bind_ok in H as ([] & Hlen%reject_ok & H). rewrite Hl in H. simpl in H.
  apply bind_ok in H as ([] & _ & H). rewrite Hg in H. simpl in H. apply bind_ok in H as (canonical & Hc%ok_or_ok & H).
  apply bind_ok in H as ([] & Hr%reject_ok & _). rewrite !orb_false_iff, !negb_false_iff, !bool_decide_eq_true in Hr.
  destruct Hr as (((((-> & Halg) & _) & _) & Hbeg%Z.ltb_ge) & _). split; [by intros ->|done|done|done].
Qed.
(** C33: An issued agent certificate can be recovered as the same result at any later time, expired or
    revoked as it may be by then, through every replacement of the trust during which its issuer
    stays approved, exactly when its leaf is canonical DER, names one signature algorithm in both places
    and does not begin before its issuer: recovery checks that, and issuance does not. *)
Theorem issued_recovered a expected chain csr identity start end_ now c requests : sound_snapshot (at_trust a) ->
  validate_issued_for a expected chain csr identity start end_ now = Ok c ->
  (forall x, x ∈ history (at_trust a) requests -> exists g, find_generation x (hex expected) = Some g) ->
  exists der leaf g, head chain = Some der /\ certificate_from_der der = Some leaf /\
    find_generation (at_trust a) (hex expected) = Some g /\
    (recover_issued_for (mk_AgentTrust (final (at_trust a) requests) (at_max_seconds a)) expected chain csr identity start end_ = Ok c <->
     nested_leaf der leaf (g_certificate g)).
Proof.
  intros Hs Hv Hstay. destruct (issued_generation _ _ _ _ _ _ _ _ _ Hs Hv) as (der & leaf & i & g & Hdec & Hadm & Hexp & Hm & Ho & Hc).
  pose proof Hdec as [Hhead [Hlen Hlens] Hleaf Hpurpose Hsel Hg]. apply list_elem_of_lookup_2 in Hg as Hin.
  destruct (history_forward _ requests Hs) as (Hs' & Hsucc & Hkeep). rewrite Hexp in *.
  pose proof (find_generation_in _ g Hs Hin) as Hfind.
  exists der, leaf, g. split; [exact Hhead|]. split; [exact Hleaf|]. split; [exact Hfind|].
  destruct (Hstay _ (final_in_history _ _)) as [g' Hfind']. pose proof Hfind' as Hfound. pose proof (Hkeep _ Hstay _ _ Hfind Hfind') as Hkept.
  apply List.find_some in Hfind' as [Hin'%list_elem_of_In _]. pose proof (ss_sound _ Hs) as H1. pose proof (ss_sound _ Hs') as H2.
  rewrite Forall_forall in H1. rewrite Forall_forall in H2.
  destruct (kept_generation _ _ _ _ (H1 g Hin) (H2 g' Hin') Hkept) as (Hcert & Hsame & Hdig).
  destruct (selected_ok _ _ _ Hsel) as (g0 & Hg0 & [Hname Hsig]%signs_iff & _). rewrite Hg in Hg0. injection Hg0 as <-.
  apply metadata_ok in Hm as Hok. destruct Hok as (id & issuer & c0 & spki & Hid & Hissuer & Hc0 & Hprof & _).
  rewrite Hleaf in Hc0. injection Hc0 as <-. destruct (sg_certificate _ _ (H1 g Hin)) as (d & Hd & _ & Hparse).
  rewrite Hd in Hid. injection Hid as <-. rewrite Hparse in Hissuer. injection Hissuer as <-. apply profile_period in Hprof as Hper.
  unfold recover_issued_for. assert (is_empty chain || (4 <? zlen chain) || existsb (fun c => DER_LIMIT <? zlen c) chain = false) as ->.
  { rewrite !orb_false_iff, existsb_false_iff. setoid_rewrite Z.ltb_ge. by destruct chain. }
  simpl. rewrite Hhead. simpl. rewrite Hexp, <-Hdig. split.
  { intros (i' & Hh%trust_result_ok & _)%bind_ok. rewrite <-Hcert. rewrite <-Hdig in Hfound. by eapply verify_history_nested. }
  intros Hnest. destruct Hsucc as [_ Hten Hpur _ _].
  assert (verify_history (final (at_trust a) requests) der (is_digest (g_public g')) = Ok (g_public g')) as Hh.
  { apply (verify_history_complete _ der leaf g'); [exact Hs'|exact Hin'| |exact Hleaf| | | | | |].
    - apply Hlens. destruct chain; [done|]. injection Hhead as ->. apply list_elem_of_here.
    - by rewrite (leaf_purpose_same _ _ _ Hpur Hten).
    - by rewrite Hcert.
    - by rewrite Hcert.
    - rewrite Hcert. lia.
    - by rewrite Hcert.
    - rewrite (tenant_identity_same _ _ leaf _ (g_public g) Hpur Hten Hsame). apply Hadm. }
  rewrite Hh. simpl. rewrite (metadata_same _ a der _ (g_public g)) by done. rewrite Hm. simpl. rewrite Ho. simpl. by rewrite <-Hc.
Qed.

(** ** Windows *)
(** An issuance profile made from a configured trust is one that its own reader accepts, and its
    certificate ends no later than the issuing certificate. *)
Theorem profile_checked w csr registration now p : profile w csr registration now = Ok p ->
  IssuanceProfile_checked p = Ok p /\ ip_start p = now /\ ip_registration p = registration /\
  exists c, active_certificate (wt_trust w) = Ok c /\ ip_end p <= not_after c /\ not_before c <= now < not_after c.
Proof.
  intros H. unfold profile, issuance_end in H. apply bind_ok in H as (end_ & He & H). apply bind_ok in H as (spki & _ & H).
  apply bind_ok in H as (der & _ & [= <-]). apply bind_ok in He as (c & Hc & He). apply bind_ok in He as ([] & Hv%reject_ok & He).
  apply bind_ok in He as (seconds & Hs & He). apply bind_ok in He as (e & Hadd%ok_or_ok & He). apply bind_ok in He as ([] & Hle%reject_ok & [= ->]).
  apply checked_i64_some in Hadd as [-> Hrange]. unfold valid_at in Hv. unfold in_i64, i64_max in Hrange.
  assert (60 <= seconds <= 7776000) as Hsec.
  { destruct (wt_lifetime w); simpl in Hs; [injection Hs as <-; unfold VALIDITY_SECONDS; lia|]. apply bind_ok in Hs as ([] & Hb%reject_ok & [= <-]). lia. }
  unfold i64_as_u64 in Hle. rewrite Z.mod_small in Hle by lia. split; [|split_and!; [done|done|exists c; split_and!; [done|simpl; lia..]]].
  unfold IssuanceProfile_checked. simpl. unfold reject. by replace (_ || _) with false by lia.
Qed.
End Issuance.

(** ** Witnesses *)
Import Reference DeviceTrustExample.
Lemma first_accepted : DeviceTrust_new (trust 1 [3]) Purpose_Windows 300 = Ok first_snapshot.
Proof. vm_compute. reflexivity. Qed.
Lemma first_sound : sound_snapshot first_snapshot.
Proof. by apply (snapshot_ok _ _ _ _ _ first_accepted). Qed.
Lemma first_verifies : verify first_snapshot [[2]] 300 = Ok (issuer [3]).
Proof. vm_compute. reflexivity. Qed.

Lemma verify_sound_witness : exists der leaf g, head [[2]] = Some der /\ certificate_from_der der = Some leaf /\ g_public g = issuer [3] /\
  issuer_of leaf = subject_of (g_certificate g) /\ fresh (g_crl g) 300.
Proof.
  destruct (verify_sound (trust 1 [3]) Purpose_Windows 300 false first_snapshot [[2]] 300 (issuer [3]) first_accepted first_verifies)
    as (der & leaf & g & H1 & H2 & H3 & _ & [H4 _] & _ & _ & (_ & H5 & _) & _). by exists der, leaf, g.
Defined.
Lemma window_exact_witness : exists o, certificate_window first_snapshot [2] = Ok o /\
  forall t, (exists s' i, DeviceTrust_new (trust 1 [3]) Purpose_Windows t = Ok s' /\ verify s' [[2]] t = Ok i) <->
    match o with Some w => cw_start w <= t < cw_end w | None => False end.
Proof.
  apply (window_exact (trust 1 [3]) Purpose_Windows 300 false first_snapshot [2] (certificate_of Device) first_accepted);
    [reflexivity|split; vm_compute; done].
Defined.
Lemma trust_moves_forward_witness :
  let requests := [(trust 2 [4], 400); (trust 3 [3], 450)] in
  t_revision (sn_trust (final first_snapshot requests)) = 2 /\ succeeds (sn_trust first_snapshot) (sn_trust (final first_snapshot requests)).
Proof.
  split; [vm_compute; reflexivity|]. apply (trust_moves_forward first_snapshot [(trust 2 [4], 400); (trust 3 [3], 450)] first_sound).
Defined.
Lemma restore_accepted_witness : DeviceTrust_restore (trust 1 [3]) Purpose_Windows 5000 = Ok first_snapshot.
Proof.
  apply (restore_accepted (trust 1 [3]) Purpose_Windows 300 5000 first_snapshot first_accepted); [lia|]. exists 150.
  split; [apply list_elem_of_here|lia].
Defined.

Lemma agent_accepted : DeviceTrust_new (trust_for Purpose_Agent 1 [3]) Purpose_Agent 300 = Ok agent_snapshot.
Proof. vm_compute. reflexivity. Qed.
Lemma agent_issued : is_ok (validate_issued_for one_year (sha256 [1]) [[12]] agent_csr agent_name 200 800 300) = true.
Proof. vm_compute. reflexivity. Qed.
Lemma issued_recovered_witness : exists c,
  recover_issued_for (mk_AgentTrust (final agent_snapshot [(trust_for Purpose_Agent 2 [4], 400)]) (365 * 86400)) (sha256 [1])
    [[12]] agent_csr agent_name 200 800 = Ok c.
Proof.
  destruct (validate_issued_for one_year (sha256 [1]) [[12]] agent_csr agent_name 200 800 300) as [c| |] eqn:E;
    [|exfalso; pose proof agent_issued as H; rewrite E in H; done..].
  exists c. destruct (issued_recovered one_year (sha256 [1]) [[12]] agent_csr agent_name 200 800 300 c [(trust_for Purpose_Agent 2 [4], 400)])
    as (der & leaf & g & Hd & Hl & Hg & Hiff).
  - apply (snapshot_ok _ _ _ _ _ agent_accepted).
  - exact E.
  - intros x Hx. simpl in Hx. apply elem_of_cons in Hx as [->|Hx%list_elem_of_singleton]; [|subst x];
      eexists; vm_compute; reflexivity.
  - apply Hiff. injection Hd as <-. change (parse [12] = Some leaf) in Hl. vm_compute in Hl. injection Hl as <-.
    assert (g_certificate g = certificate_of Authority) as ->.
    { assert (g_certificate <$> find_generation agent_snapshot (hex (sha256 [1])) = Some (certificate_of Authority)) as H by (vm_compute; reflexivity).
      change (at_trust one_year) with agent_snapshot in Hg. rewrite Hg in H. by injection H. }
    split; vm_compute; done.
Defined.
Definition windows_trust : WindowsDeviceTrust := mk_WindowsDeviceTrust first_snapshot (Lifetime_Development 60).
Lemma profile_checked_witness : exists p, profile windows_trust windows_csr 7 300 = Ok p /\ IssuanceProfile_checked p = Ok p.
Proof.
  destruct (profile windows_trust windows_csr 7 300) as [p| |] eqn:E;
    [|exfalso; assert (is_ok (profile windows_trust windows_csr 7 300) = true) as H by (vm_compute; reflexivity); rewrite E in H; done..].
  exists p. split; [done|]. apply (profile_checked windows_trust windows_csr 7 300 p E).
Defined.
