(* ===== verification/AgentWire.v ===== *)
(** * The agent's wire: task results and task-signing trust

    [agent-wire]'s [chunks.rs] and the evidence of a process in [tasks.rs]: a result is one
    terminal reference and chunks of its output, put together again by position.  [task_trust.rs]:
    the public keys that sign tasks, their acknowledgement, and which set may follow an installed
    one; the device's observation of its installation has the text of the one in [pki.rs]. *)
From S2P Require Import Prelude Ordered Text External Json TrustWire.

Definition OUTPUT_MAX_BYTES : Z := 16 * 1024 * 1024.
Definition OUTPUT_CHUNK_BYTES : Z := 256 * 1024.
Definition MAX_TASK_DIAGNOSTIC_BYTES : Z := 16 * 1024.
Definition MAX_TASK_DURATION_MS : Z := 604800000.

(** [serde_json::to_vec] and [from_slice] on a [Value]. *)
Class JsonText `{SJ : SerdeJson} : Type := {
  value_to_vec : Json Number -> option bytes;
  value_from_slice : bytes -> option (Json Number)
}.
Arguments JsonText {SJ}.

(** ** Process evidence *)
Inductive OutputQuality : Type := Quality_Complete | Quality_Partial | Quality_Truncated | Quality_Failed.
Inductive TaskFailure : Type :=
| LaunchFailed | TimedOut | TaskCancelled | NonZeroExit | OutputLimit | CaptureFailed.
#[export] Instance TaskFailure_eq_dec : EqDecision TaskFailure.
Proof. solve_decision. Defined.
Record TaskDiagnostics : Type := mk_TaskDiagnostics {
  td_stdout : rstr; td_stderr : rstr; td_duration_ms : Z; td_executed_at : Z; td_failure : option TaskFailure
}.
Definition has_nul (s : rstr) : bool := existsb (Z.eqb 0) s.
Definition TaskDiagnostics_new (stdout stderr : rstr) (duration_ms executed_at : Z) (failure : option TaskFailure) :
    wres TaskDiagnostics :=
  _ ← reject ((MAX_TASK_DIAGNOSTIC_BYTES <? str_len stdout) || (MAX_TASK_DIAGNOSTIC_BYTES <? str_len stderr)
              || has_nul stdout || has_nul stderr || (MAX_TASK_DURATION_MS <? duration_ms) || (executed_at <? 1))
        Wire_InvalidValue;
  Ok (mk_TaskDiagnostics stdout stderr duration_ms executed_at failure).
Definition quality_is_coherent (exit_code : option Z) (quality : OutputQuality) (failure : option TaskFailure) : bool :=
  match quality with
  | Quality_Complete => bool_decide (exit_code = Some 0) && negb (given failure)
  | Quality_Failed => given failure
  | Quality_Truncated => bool_decide (failure = Some OutputLimit)
  | Quality_Partial => true
  end.
Definition failure_is_coherent (exit_code : option Z) (failure : option TaskFailure) : bool :=
  match failure with
  | Some NonZeroExit => match exit_code with Some code => negb (code =? 0) | None => false end
  | Some LaunchFailed => negb (given exit_code)
  | _ => true
  end.

(** ** Manifests and chunks *)
Record OutputManifest : Type := mk_OutputManifest { om_bytes : Z; om_sha256 : bytes }.
#[export] Instance OutputManifest_eq_dec : EqDecision OutputManifest.
Proof. solve_decision. Defined.
Definition OutputManifest_new (n : Z) (sha256 : bytes) : wres OutputManifest :=
  _ ← reject ((n =? 0) || (OUTPUT_MAX_BYTES <? n)) Wire_InvalidValue; Ok (mk_OutputManifest n sha256).
(** [usize::div_ceil]. *)
Definition div_ceil (a b : Z) : Z := (a + (b - 1)) / b.
Definition count (m : OutputManifest) : Z := div_ceil (om_bytes m) OUTPUT_CHUNK_BYTES.
Record OutputChunk : Type := mk_OutputChunk { oc_manifest : OutputManifest; oc_index : Z; oc_data : rstr }.
(** [<[T]>::chunks(n)]. *)
Fixpoint chunks_fuel (fuel n : nat) (l : bytes) : list bytes :=
  match fuel, l with
  | _, [] => []
  | O, _ => []
  | S fuel, _ => take n l :: chunks_fuel fuel n (drop n l)
  end.
Definition chunks (n : nat) (l : bytes) : list bytes := chunks_fuel (length l) n l.
(** [enumerate()]. *)
Definition enumerate {A} (l : list A) : list (Z * A) := zip (map Z.of_nat (seq 0 (length l))) l.
Definition index_as_u16 (i : Z) : Z := i mod 2 ^ 16.

Section Chunks.
Context `{SJ : SerdeJson} `{JT : !JsonText} `{SH : Sha2} `{B64 : Base64}.

Record TaskResult : Type := mk_TaskResult {
  tr_exit_code : option Z; tr_quality : OutputQuality; tr_output : Json Number; tr_diagnostics : TaskDiagnostics;
  tr_collected_at : Z
}.
Definition TaskResult_new (exit_code : option Z) (quality : OutputQuality) (output : Json Number)
    (diagnostics : TaskDiagnostics) (collected_at : Z) : wres TaskResult :=
  let failure := td_failure diagnostics in
  _ ← reject ((collected_at <? td_executed_at diagnostics) || negb (quality_is_coherent exit_code quality failure)
              || negb (failure_is_coherent exit_code failure)) Wire_InvalidValue;
  encoded ← ok_or (value_to_vec output) Wire_InvalidValue;
  _ ← reject (OUTPUT_MAX_BYTES <? zlen encoded) Wire_InvalidValue;
  Ok (mk_TaskResult exit_code quality output diagnostics collected_at).
Definition OutputChunk_new (m : OutputManifest) (index : Z) (b : bytes) : wres OutputChunk :=
  let offset := index * OUTPUT_CHUNK_BYTES in
  _ ← reject ((om_bytes m <=? offset) || negb (zlen b =? Z.min (om_bytes m - offset) OUTPUT_CHUNK_BYTES)) Wire_InvalidValue;
  Ok (mk_OutputChunk m index (b64_encode b)).
(** A chunk read from the wire; its manifest has been read and validated before. *)
Definition OutputChunk_try_from (v : OutputChunk) : wres OutputChunk :=
  _ ← reject (div_ceil OUTPUT_CHUNK_BYTES 3 * 4 <? str_len (oc_data v)) Wire_InvalidValue;
  b ← ok_or (b64_decode (oc_data v)) Wire_InvalidValue;
  _ ← reject (negb (bool_decide (b64_encode b = oc_data v))) Wire_InvalidValue;
  OutputChunk_new (oc_manifest v) (oc_index v) b.
Definition chunk_bytes (c : OutputChunk) : wres bytes := or_panic (b64_decode (oc_data c)).
Definition assemble_step (m : OutputManifest) (acc : bytes) (e : Z * OutputChunk) : wres bytes :=
  _ ← reject (negb (oc_index e.2 =? e.1) || negb (bool_decide (oc_manifest e.2 = m))) Wire_InvalidValue;
  b ← chunk_bytes e.2;
  Ok (acc ++ b).
Definition OutputManifest_assemble (m : OutputManifest) (cs : list OutputChunk) : wres bytes :=
  _ ← reject (negb (zlen cs =? count m)) Wire_InvalidValue;
  b ← res_for (assemble_step m) (enumerate (sort_by oc_index cs)) [];
  _ ← reject (negb (zlen b =? om_bytes m) || negb (bool_decide (sha256 b = om_sha256 m))) Wire_InvalidValue;
  Ok b.

(** ** Terminal references *)
Record ChunkedTaskResult : Type := mk_ChunkedTaskResult {
  ct_exit_code : option Z; ct_quality : OutputQuality; ct_diagnostics : TaskDiagnostics; ct_manifest : OutputManifest;
  ct_collected_at : Z
}.
Definition ChunkedTaskResult_try_from (v : ChunkedTaskResult) : wres ChunkedTaskResult :=
  _ ← TaskResult_new (ct_exit_code v) (ct_quality v) JNull (ct_diagnostics v) (ct_collected_at v);
  Ok v.
Definition ChunkedTaskResult_split (r : TaskResult) : wres (ChunkedTaskResult * list OutputChunk) :=
  b ← ok_or (value_to_vec (tr_output r)) Wire_InvalidValue;
  n ← ok_or (if zlen b <? 2 ^ 32 then Some (zlen b) else None) Wire_InvalidValue;
  manifest ← OutputManifest_new n (sha256 b);
  cs ← res_map (fun e => OutputChunk_new manifest (index_as_u16 e.1) e.2) (enumerate (chunks (Z.to_nat OUTPUT_CHUNK_BYTES) b));
  Ok (mk_ChunkedTaskResult (tr_exit_code r) (tr_quality r) (tr_diagnostics r) manifest (tr_collected_at r), cs).
Definition ChunkedTaskResult_assemble (t : ChunkedTaskResult) (cs : list OutputChunk) : wres TaskResult :=
  b ← OutputManifest_assemble (ct_manifest t) cs;
  output ← ok_or (value_from_slice b) Wire_InvalidValue;
  again ← ok_or (value_to_vec output) Wire_InvalidValue;
  _ ← reject (negb (bool_decide (again = b))) Wire_InvalidValue;
  TaskResult_new (ct_exit_code t) (ct_quality t) output (ct_diagnostics t) (ct_collected_at t).
End Chunks.

(** ** Signing keys *)
Definition SIGNING_API_VERSION : Z := 1.
Definition MAX_KEYS : Z := 16.
Inductive KeyState : Type := Key_Prepared | Key_Active | Key_VerifyOnly.
#[export] Instance KeyState_eq_dec : EqDecision KeyState.
Proof. solve_decision. Defined.
Record PublicKey : Type := mk_PublicKey { pk_id : rstr; pk_public_key : rstr; pk_state : KeyState }.
#[export] Instance PublicKey_eq_dec : EqDecision PublicKey.
Proof. solve_decision. Defined.

Section TaskTrust.
Context `{UC : UuidCrate} `{SH : Sha2} `{B64 : Base64}.

Record SigningTrust : Type := mk_SigningTrust {
  st_version : Z; st_service_id : Uuid; st_tenant : Uuid; st_revision : Z; st_keys : list PublicKey
}.
#[global] Instance SigningTrust_eq_dec : EqDecision SigningTrust.
Proof. solve_decision. Defined.
(** [serde_json::to_vec] of the domain and the set. *)
Class SigningTrustSerde : Type := { signing_trust_to_vec : SigningTrust -> option bytes }.

Definition key_active (k : PublicKey) : bool := bool_decide (pk_state k = Key_Active).
Definition key_byte (b : Z) : bool := is_ascii_alphanumeric b || bool_decide (b ∈ [46; 95; 45]).
Definition check_key (acc : list rstr * list bytes) (k : PublicKey) : wres (list rstr * list bytes) :=
  _ ← reject (is_empty (pk_id k) || (128 <? str_len (pk_id k)) || negb (forallb key_byte (str_bytes (pk_id k)))
              || bs_mem (pk_id k) acc.1) Wire_InvalidValue;
  decoded ← ok_or (b64_decode (pk_public_key k)) Wire_InvalidValue;
  _ ← reject (negb (zlen decoded =? 32) || negb (bool_decide (b64_encode decoded = pk_public_key k))
              || bs_mem decoded acc.2) Wire_InvalidValue;
  Ok (bs_insert (pk_id k) acc.1, bs_insert decoded acc.2).
Definition SigningTrust_validate (t : SigningTrust) : wres () :=
  _ ← reject (negb (st_version t =? SIGNING_API_VERSION) || is_nil (st_tenant t) || is_nil (st_service_id t)
              || negb (valid_revision (st_revision t))
              || negb ((1 <=? zlen (st_keys t)) && (zlen (st_keys t) <=? MAX_KEYS))
              || negb (zlen (List.filter key_active (st_keys t)) =? 1)) Wire_InvalidValue;
  _ ← res_for check_key (st_keys t) ([], []);
  reject (adjacent (fun a b => leb (pk_id b) (pk_id a)) (st_keys t)) Wire_InvalidValue.
Definition signing_installation_digest `{ST : !SigningTrustSerde} (t : SigningTrust) : wres rstr :=
  _ ← SigningTrust_validate t;
  b ← ok_or (signing_trust_to_vec t) Wire_InvalidValue;
  Ok (hex (sha256 b)).

(** ** Succession *)
Definition find_key (keys : list PublicKey) (id : rstr) : option PublicKey :=
  List.find (fun k => bool_decide (pk_id k = id)) keys.
Definition state_follows (previous : KeyState) (next : option KeyState) : bool :=
  match previous, next with
  | Key_Active, Some (Key_Active | Key_VerifyOnly) => true
  | Key_Prepared, (Some (Key_Prepared | Key_Active) | None) => true
  | Key_VerifyOnly, (Some Key_VerifyOnly | None) => true
  | _, _ => false
  end.
Definition check_previous (keys : list PublicKey) (u : ()) (previous : PublicKey) : wres () :=
  let next := find_key keys (pk_id previous) in
  _ ← reject (match next with
              | Some k => negb (bool_decide (pk_public_key k = pk_public_key previous))
              | None => false
              end) Wire_InvalidValue;
  reject (negb (state_follows (pk_state previous) (pk_state <$> next))) Wire_InvalidValue.
Definition unprepared (installed : list PublicKey) (k : PublicKey) : bool :=
  negb (existsb (fun old => bool_decide (pk_id old = pk_id k)) installed) && negb (bool_decide (pk_state k = Key_Prepared)).
Definition validate_successor (t installed : SigningTrust) : wres () :=
  _ ← SigningTrust_validate t;
  _ ← SigningTrust_validate installed;
  _ ← reject (negb (bool_decide (st_tenant t = st_tenant installed))
              || negb (bool_decide (st_service_id t = st_service_id installed)) || (st_revision t <? st_revision installed)
              || (st_revision t =? st_revision installed) && negb (bool_decide (t = installed))) Wire_InvalidValue;
  _ ← res_for (check_previous (st_keys t)) (st_keys installed) ();
  reject (existsb (unprepared (st_keys installed)) (st_keys t)) Wire_InvalidValue.

(** ** Acknowledgements *)
Record SigningAcknowledgement : Type := mk_SigningAcknowledgement {
  sa_operation : Uuid; sa_version : Z; sa_registration : Uuid; sa_generation : Z; sa_revision : Z; sa_digest : rstr
}.
Definition SigningAcknowledgement_validate (a : SigningAcknowledgement) : wres () :=
  reject (is_nil (sa_operation a) || is_nil (sa_registration a) || negb (sa_version a =? SIGNING_API_VERSION)
          || negb (valid_revision (sa_generation a)) || negb (valid_revision (sa_revision a))
          || negb (str_len (sa_digest a) =? 64) || negb (forallb digest_byte (str_bytes (sa_digest a)))) Wire_InvalidValue.
Definition acknowledges `{ST : !SigningTrustSerde} (a : SigningAcknowledgement) (t : SigningTrust) : wres bool :=
  _ ← SigningAcknowledgement_validate a;
  if sa_revision a =? st_revision t then
    d ← signing_installation_digest t; Ok (bool_decide (sa_digest a = d))
  else Ok false.
End TaskTrust.
