(* ===== verification/AgentWireProperties.v ===== *)
(** * The agent's wire: properties

    Output chunks put together in any order give the result that was split, and nothing but
    exactly its chunks is accepted; task-signing keys rotate without a gap. *)
From S2P Require Import Prelude Ordered Text External Json TrustWire AgentWire.

(** ** Lists in pieces *)
Section Pieces.
Context (n : nat) (Hn : (0 < n)%nat).
Lemma chunks_fuel_lookup fuel l i b : (length l <= fuel)%nat ->
  (chunks_fuel fuel n l !! i = Some b <-> (i * n < length l)%nat /\ b = take n (drop (i * n) l)).
Proof.
  revert l i. induction fuel as [|fuel IH]; intros l i Hl.
  - destruct l; [|simpl in Hl; lia]. simpl. rewrite lookup_nil. split; [done|]. lia.
  - destruct l as [|x l]; [simpl; rewrite lookup_nil; split; [done|]; simpl; lia|].
    change (chunks_fuel (S fuel) n (x :: l)) with (take n (x :: l) :: chunks_fuel fuel n (drop n (x :: l))).
    destruct i as [|i].
    + simpl lookup. rewrite Nat.mul_0_l, drop_0. split; [intros [= <-]; simpl; split; [lia|done]|by intros [_ ->]].
    + simpl lookup. rewrite IH by (rewrite length_drop; simpl in *; lia). rewrite length_drop, drop_drop.
      replace (n + i * n)%nat with (S i * n)%nat by lia. split; intros [H ->]; (split; [lia|done]).
Qed.
Lemma chunks_lookup l i b : chunks n l !! i = Some b <-> (i * n < length l)%nat /\ b = take n (drop (i * n) l).
Proof. by apply chunks_fuel_lookup. Qed.
Lemma chunks_fuel_concat fuel l : (length l <= fuel)%nat -> concat (chunks_fuel fuel n l) = l.
Proof.
  revert l. induction fuel as [|fuel IH]; intros l Hl; [by destruct l; [|simpl in Hl; lia]|]. destruct l as [|x l]; [done|].
  change (chunks_fuel (S fuel) n (x :: l)) with (take n (x :: l) :: chunks_fuel fuel n (drop n (x :: l))). simpl concat.
  rewrite IH by (rewrite length_drop; simpl in *; lia). apply take_drop.
Qed.
Lemma concat_chunks l : concat (chunks n l) = l.
Proof. by apply chunks_fuel_concat. Qed.
Lemma length_chunks l : Z.of_nat (length (chunks n l)) = div_ceil (zlen l) (Z.of_nat n).
Proof.
  unfold div_ceil, zlen. set (k := length (chunks n l)).
  assert (forall i, (i < k)%nat <-> (i * n < length l)%nat) as Hk.
  { intros i. unfold k. rewrite <-lookup_lt_is_Some. split.
    - intros [b Hb]. by apply chunks_lookup in Hb as [? _].
    - intros H. eexists. by apply chunks_lookup. }
  apply (Z.div_unique_pos _ _ _ ((Z.of_nat (length l) + (Z.of_nat n - 1)) - Z.of_nat n * Z.of_nat k)); [|lia].
  destruct k as [|k].
  - pose proof (proj2 (Hk 0%nat)). lia.
  - pose proof (proj1 (Hk k) ltac:(lia)). pose proof (proj2 (Hk (S k))). nia.
Qed.
End Pieces.
Lemma enumerate_lookup {A} (l : list A) k i e : zip (map Z.of_nat (seq k (length l))) l !! i = Some e <->
  exists a, l !! i = Some a /\ e = (Z.of_nat (k + i), a).
Proof.
  revert k i. induction l as [|x l IH]; intros k i; simpl; [rewrite lookup_nil; split; [done|by intros (? & ? & _)]|].
  destruct i as [|i]; simpl.
  - rewrite Nat.add_0_r. split; [intros [= <-]; by exists x|by intros (a & [= <-] & ->)].
  - rewrite IH. by rewrite Nat.add_succ_comm.
Qed.
(** Pieces of [n] octets, the last one shorter, are the slices of what they add up to. *)
Lemma concat_slices n total k (bs : list bytes) i b : (0 < n)%nat ->
  (forall j c, bs !! j = Some c -> ((k + j) * n < total)%nat /\ length c = Nat.min (total - (k + j) * n) n) ->
  bs !! i = Some b -> b = take n (drop (i * n) (concat bs)).
Proof.
  intros Hn. revert k i. induction bs as [|c bs IH]; intros k i Hall Hb; [done|]. destruct (Hall 0%nat c eq_refl) as [H0 Hc].
  assert (forall j d, bs !! j = Some d -> ((S k + j) * n < total)%nat /\ length d = Nat.min (total - (S k + j) * n) n) as Hall'.
  { intros j d Hd. replace (S k + j)%nat with (k + S j)%nat by lia. by apply (Hall (S j)). }
  assert (bs = [] \/ length c = n) as Hfull.
  { destruct bs as [|d bs]; [by left|right]. destruct (Hall' 0%nat d eq_refl). lia. }
  destruct i as [|i]; simpl.
  - injection Hb as ->. rewrite drop_0. destruct Hfull as [->|Hlen].
    + simpl. rewrite app_nil_r, take_ge by lia. done.
    + by rewrite take_app_length' by lia.
  - destruct Hfull as [->|Hlen]; [done|]. rewrite drop_app_ge by lia. replace (n + i * n - length c)%nat with (i * n)%nat by lia.
    by apply (IH (S k)).
Qed.

Section Assembly.
Context `{SJ : SerdeJson} `{JT : !JsonText} `{SH : Sha2} `{B64 : Base64}.

(** ** Assembly *)
(** Chunks at the positions from [k] on, and their octets. *)
Fixpoint positioned (m : OutputManifest) (k : Z) (cs : list OutputChunk) (bs : list bytes) : Prop :=
  match cs, bs with
  | [], [] => True
  | c :: cs, b :: bs => oc_index c = k /\ oc_manifest c = m /\ chunk_bytes c = Ok b /\ positioned m (k + 1) cs bs
  | _, _ => False
  end.
Lemma assemble_step_ok m acc k c acc' : assemble_step m acc (k, c) = Ok acc' <->
  oc_index c = k /\ oc_manifest c = m /\ exists b, chunk_bytes c = Ok b /\ acc' = acc ++ b.
Proof.
  unfold assemble_step. simpl. split.
  - intros H. apply bind_ok in H as ([] & Hr%reject_ok & H). apply bind_ok in H as (b & Hb & [= <-]). bool_hyps. eauto.
  - intros (-> & -> & b & Hb & ->). rewrite Z.eqb_refl, bool_decide_true by done. simpl. by rewrite Hb.
Qed.
Lemma assemble_loop m k cs acc b : res_for (assemble_step m) (zip (map Z.of_nat (seq k (length cs))) cs) acc = Ok b <->
  exists bs, positioned m (Z.of_nat k) cs bs /\ b = acc ++ concat bs.
Proof.
  revert k acc. induction cs as [|c cs IH]; intros k acc; cbn [length seq map zip res_for].
  - simpl. split; [intros [= <-]; exists []; by rewrite app_nil_r|]. intros ([|? ?] & H & ->); [simpl; by rewrite app_nil_r|destruct H].
  - change (res_for _ (zip_with _ _ _) acc) with
      (assemble_step m acc (Z.of_nat k, c) ≫= res_for (assemble_step m) (zip (map Z.of_nat (seq (S k) (length cs))) cs)).
    rewrite bind_ok. setoid_rewrite assemble_step_ok. split.
    + intros (acc' & (Hi & Hm & x & Hx & ->) & H). apply IH in H as (bs & Hbs & ->). exists (x :: bs). simpl.
      rewrite <-app_assoc. replace (Z.of_nat k + 1) with (Z.of_nat (S k)) by lia. done.
    + intros ([|x bs] & H & ->); [done|]. simpl in H. destruct H as (Hi & Hm & Hx & H). exists (acc ++ x). split; [by eauto|].
      apply IH. exists bs. split; [by replace (Z.of_nat (S k)) with (Z.of_nat k + 1) by lia|]. by rewrite <-app_assoc.
Qed.
Lemma positioned_lookup m k cs bs i c : positioned m k cs bs -> cs !! i = Some c ->
  oc_index c = k + Z.of_nat i /\ oc_manifest c = m /\ exists b, bs !! i = Some b /\ chunk_bytes c = Ok b.
Proof.
  revert k bs i. induction cs as [|d cs IH]; intros k [|b bs] i H Hc; simpl in H; try done. destruct H as (H1 & H2 & H3 & H4).
  destruct i as [|i]; simpl in Hc.
  - injection Hc as ->. split; [lia|]. split; [done|]. by exists b.
  - destruct (IH (k + 1) bs i H4 Hc) as (? & ? & b' & ? & ?). split; [lia|]. split; [done|]. by exists b'.
Qed.
Lemma positioned_sorted m k cs bs : positioned m k cs bs -> sorted_le oc_index cs /\ NoDup (map oc_index cs) /\
  length cs = length bs.
Proof.
  revert k bs. induction cs as [|c cs IH]; intros k [|b bs] H; simpl in H; try done.
  - split_and!; [constructor|constructor|done].
  - destruct H as (H1 & _ & _ & H4). destruct (IH _ _ H4) as (Hs & Hd & Hl).
    assert (forall x, x ∈ cs -> k < oc_index x) as Hlt.
    { intros x [i Hi]%list_elem_of_lookup. destruct (positioned_lookup _ _ _ _ _ _ H4 Hi) as [? _]. lia. }
    split_and!; [|simpl; apply NoDup_cons; split; [|done]|simpl; lia].
    + constructor; [done|]. apply Forall_forall. intros x Hx. apply leb_le. left. specialize (Hlt x Hx).
      change (Z.compare (oc_index c) (oc_index x) = Lt). apply Z.compare_lt_iff. lia.
    + intros (x & Hx & Hin)%elem_of_map. specialize (Hlt x Hin). lia.
Qed.
Lemma assemble_ok m cs b : OutputManifest_assemble m cs = Ok b <-> exists s bs, s ≡ₚ cs /\ positioned m 0 s bs /\
  b = concat bs /\ zlen s = count m /\ zlen b = om_bytes m /\ sha256 b = om_sha256 m.
Proof.
  unfold OutputManifest_assemble. split.
  - intros H. apply bind_ok in H as ([] & Hc%reject_ok & H). apply bind_ok in H as (x & Hx & H).
    apply bind_ok in H as ([] & Hf%reject_ok & [= ->]). apply orb_false_iff in Hf as [Hf1 Hf2]. bool_hyps.
    apply (assemble_loop m 0) in Hx as (bs & Hbs & ->). exists (sort_by oc_index cs), bs. pose proof (sort_by_perm oc_index cs) as Hp.
    split_and!; [done|done|done| |done|done]. by rewrite (zlen_perm _ _ Hp).
  - intros (s & bs & Hp & Hbs & -> & Hc & Hl & Hsha). rewrite <-(zlen_perm _ _ Hp), Hc, Z.eqb_refl. simpl.
    destruct (positioned_sorted _ _ _ _ Hbs) as (Hs & Hd & _).
    rewrite <-(sort_by_canonical oc_index s cs Hp Hd), (sort_by_id oc_index s Hs).
    unfold enumerate. rewrite (proj2 (assemble_loop m 0 s [] (concat bs))) by (by exists bs). simpl. by rewrite Hl, Z.eqb_refl, bool_decide_true.
Qed.

(** ** Properties *)
Definition piece : nat := Z.to_nat OUTPUT_CHUNK_BYTES.
(** The octets at a position of an output. *)
Definition octets_at (b : bytes) (i : nat) : bytes := take piece (drop (i * piece) b).
Lemma piece_value : Z.of_nat piece = OUTPUT_CHUNK_BYTES.
Proof. unfold piece, OUTPUT_CHUNK_BYTES. lia. Qed.
Lemma piece_pos : (0 < piece)%nat.
Proof. pose proof piece_value. unfold OUTPUT_CHUNK_BYTES in *. lia. Qed.
Lemma piece_fold : Z.to_nat OUTPUT_CHUNK_BYTES = piece.
Proof. unfold piece. reflexivity. Qed.
#[local] Opaque piece.
Lemma chunk_new_ok m i b c : OutputChunk_new m i b = Ok c <-> i * OUTPUT_CHUNK_BYTES < om_bytes m /\
  zlen b = Z.min (om_bytes m - i * OUTPUT_CHUNK_BYTES) OUTPUT_CHUNK_BYTES /\ c = mk_OutputChunk m i (b64_encode b).
Proof.
  unfold OutputChunk_new. split.
  - intros H. apply bind_ok in H as ([] & Hr%reject_ok & [= <-]). bool_hyps. split_and!; [lia|lia|done].
  - intros (H1 & H2 & ->). unfold reject. by replace (_ || _) with false by lia.
Qed.
(** What a chunk read from the wire holds. *)
Lemma chunk_try_from_ok v c : OutputChunk_try_from v = Ok c -> c = v /\ exists b, chunk_bytes c = Ok b /\
  oc_index c * OUTPUT_CHUNK_BYTES < om_bytes (oc_manifest c) /\
  zlen b = Z.min (om_bytes (oc_manifest c) - oc_index c * OUTPUT_CHUNK_BYTES) OUTPUT_CHUNK_BYTES.
Proof.
  unfold OutputChunk_try_from. intros H. apply bind_ok in H as ([] & _ & H). apply bind_ok in H as (b & Hb%ok_or_ok & H).
  apply bind_ok in H as ([] & He%reject_ok & H). bool_hyps. apply chunk_new_ok in H as (H1 & H2 & ->). simpl. rewrite He.
  split; [by destruct v|]. exists b. unfold chunk_bytes. simpl. by rewrite Hb.
Qed.

(** Assembly accepts chunks read from the wire exactly when they are the chunks of one output with
    the manifest's length and hash: every position occurs once and holds the octets of the output at
    that position, whatever the order in which the chunks arrived. *)
Theorem assemble_exact m cs b : (forall c, c ∈ cs -> exists v, OutputChunk_try_from v = Ok c) ->
  OutputManifest_assemble m cs = Ok b ->
  (zlen b = om_bytes m /\ sha256 b = om_sha256 m) /\ (zlen cs = count m /\ NoDup (map oc_index cs)) /\
  (forall c, c ∈ cs -> oc_manifest c = m /\ exists i, oc_index c = Z.of_nat i /\ chunk_bytes c = Ok (octets_at b i)) /\
  (forall i, 0 <= i < count m -> i ∈ map oc_index cs) /\
  forall cs', cs' ≡ₚ cs -> OutputManifest_assemble m cs' = Ok b.
Proof.
  intros Hv H. pose proof H as (s & bs & Hp & Hbs & Hb & Hc & Hl & Hsha)%assemble_ok. destruct (positioned_sorted _ _ _ _ Hbs) as (_ & Hnd & Hlen).
  assert (forall i c, s !! i = Some c -> oc_index c = Z.of_nat i /\ oc_manifest c = m /\ chunk_bytes c = Ok (octets_at b i)) as Hs.
  { intros i c Hi. destruct (positioned_lookup _ _ _ _ _ _ Hbs Hi) as (H1 & H2 & x & Hx & Hcb). split; [lia|]. split; [done|].
    rewrite Hcb. f_equal. unfold octets_at. rewrite Hb. apply (concat_slices piece (Z.to_nat (om_bytes m)) 0 bs i); [apply piece_pos| |done].
    intros j d Hd. destruct (lookup_lt_is_Some_2 s j) as [e He]; [rewrite Hlen; by apply lookup_lt_Some in Hd|].
    destruct (positioned_lookup _ _ _ _ _ _ Hbs He) as (H3 & H4 & y & Hy & Hye). rewrite Hd in Hy. injection Hy as <-.
    destruct (Hv e) as [v Hve]; [rewrite <-Hp; by eapply list_elem_of_lookup_2|].
    apply chunk_try_from_ok in Hve as (_ & z & Hz & H5 & H6). rewrite Hye in Hz. injection Hz as <-. rewrite H4, H3 in H5, H6.
    rewrite <-piece_value in H5, H6. unfold zlen in H6. simpl. lia. }
  split; [done|]. split; [split; [by rewrite <-(zlen_perm _ _ Hp)|by rewrite <-Hp]|]. split.
  - intros c Hcin. rewrite <-Hp in Hcin. apply list_elem_of_lookup in Hcin as [i Hi]. destruct (Hs i c Hi) as (? & ? & ?). eauto.
  - split.
    + intros i Hi. rewrite <-Hp. destruct (lookup_lt_is_Some_2 s (Z.to_nat i)) as [c Hci]; [unfold zlen in Hc; lia|].
      apply elem_of_map. exists c. split; [|by eapply list_elem_of_lookup_2]. destruct (Hs _ _ Hci) as (-> & _). lia.
    + intros cs' Hp'. apply assemble_ok. exists s, bs. split_and!; try done. by rewrite Hp.
Qed.

Lemma split_into_chunks m b : zlen b = om_bytes m -> zlen b <= OUTPUT_MAX_BYTES -> forallb is_byte b = true ->
  exists cs, res_map (fun e => OutputChunk_new m (index_as_u16 e.1) e.2) (enumerate (chunks piece b)) = Ok cs /\
    positioned m 0 cs (chunks piece b).
Proof.
  intros Hm Hmax Hb. unfold enumerate.
  assert (forall i c, chunks piece b !! i = Some c -> Z.of_nat (0 + i) < 2 ^ 16 /\ forallb is_byte c = true /\
    Z.of_nat (0 + i) * OUTPUT_CHUNK_BYTES < om_bytes m /\
    zlen c = Z.min (om_bytes m - Z.of_nat (0 + i) * OUTPUT_CHUNK_BYTES) OUTPUT_CHUNK_BYTES) as Hall.
  { intros i c [Hi ->]%(chunks_lookup _ piece_pos). pose proof piece_value. unfold OUTPUT_MAX_BYTES, OUTPUT_CHUNK_BYTES, zlen in *.
    rewrite length_take, length_drop. split; [nia|]. split; [|split; [nia|lia]].
    apply forallb_true_iff. intros x Hx. rewrite forallb_true_iff in Hb. apply Hb. apply elem_of_take in Hx as (j & Hj & _).
    rewrite lookup_drop in Hj. by eapply list_elem_of_lookup_2. }
  clear Hm Hmax Hb. change 0 with (Z.of_nat 0). revert Hall. generalize 0%nat as k. induction (chunks piece b) as [|c cs IH]; intros k Hall.
  - by exists [].
  - destruct (Hall 0%nat c eq_refl) as (H1 & H2 & H3 & H4). rewrite Nat.add_0_r in H1, H3, H4. cbn [length seq map zip res_map].
    destruct (IH (S k)) as (ds & Hds & Hpos).
    { intros i d Hd. rewrite Nat.add_succ_comm. by apply (Hall (S i)). }
    assert (OutputChunk_new m (index_as_u16 (Z.of_nat k)) c = Ok (mk_OutputChunk m (Z.of_nat k) (b64_encode c))) as Hc.
    { unfold index_as_u16. rewrite Z.mod_small by lia. by apply chunk_new_ok. }
    exists (mk_OutputChunk m (Z.of_nat k) (b64_encode c) :: ds). split.
    + cbn [zip_with res_map fst snd]. rewrite Hc. cbn [mbind res_bind]. by rewrite Hds.
    + cbn [positioned]. split; [done|]. split; [done|]. split.
      * unfold chunk_bytes. simpl. by rewrite b64_decode_encode.
      * by replace (Z.of_nat k + 1) with (Z.of_nat (S k)) by lia.
Qed.

(** C26: Every result with a non-empty output can be sent in chunks, and whatever the order in which the
    chunks arrive, they are put together to that result, when its encoded output reads back as it. *)
Theorem output_reassembled exit_code quality output diagnostics collected_at r b :
  TaskResult_new exit_code quality output diagnostics collected_at = Ok r -> value_to_vec output = Some b -> b <> [] ->
  forallb is_byte b = true -> value_from_slice b = Some output ->
  exists t cs, ChunkedTaskResult_split r = Ok (t, cs) /\ (zlen cs = count (ct_manifest t) /\ zlen cs <= 64) /\
    forall cs', cs' ≡ₚ cs -> ChunkedTaskResult_assemble t cs' = Ok r.
Proof.
  intros Hr Hb Hne Hbytes Hback. pose proof Hr as Hr0. unfold TaskResult_new in Hr0. apply bind_ok in Hr0 as ([] & Hc%reject_ok & Hr0).
  rewrite Hb in Hr0. simpl in Hr0. apply bind_ok in Hr0 as ([] & Hmax%reject_ok & [= <-]). apply Z.ltb_ge in Hmax.
  assert (0 < zlen b) as Hpos by (destruct b; [done|unfold zlen; simpl; lia]).
  destruct (split_into_chunks (mk_OutputManifest (zlen b) (sha256 b)) b eq_refl Hmax Hbytes) as (cs & Hcs & Hp).
  destruct (positioned_sorted _ _ _ _ Hp) as (_ & _ & Hlen).
  assert (zlen cs = count (mk_OutputManifest (zlen b) (sha256 b))) as Hcount.
  { unfold zlen at 1. rewrite Hlen, (length_chunks piece piece_pos), piece_value. done. }
  eexists _, cs. split; [|split].
  - unfold ChunkedTaskResult_split. simpl. rewrite Hb. simpl. assert (zlen b <? 2 ^ 32 = true) as ->; [unfold OUTPUT_MAX_BYTES in Hmax; lia|].
    simpl. unfold OutputManifest_new. unfold reject. replace (_ || _) with false by lia. simpl.
    rewrite piece_fold. by rewrite Hcs.
  - simpl. split; [done|]. rewrite Hcount. unfold count, div_ceil, OUTPUT_CHUNK_BYTES. simpl. unfold OUTPUT_MAX_BYTES in Hmax.
    apply Z.lt_succ_r, Z.div_lt_upper_bound; lia.
  - intros cs' Hperm. unfold ChunkedTaskResult_assemble. simpl.
    rewrite (proj2 (assemble_ok _ cs' b)).
    + simpl. rewrite Hback. simpl. rewrite Hb. simpl. by rewrite bool_decide_true.
    + exists cs, (chunks piece b). split_and!; try done. by rewrite (concat_chunks _ piece_pos).
Qed.
End Assembly.

(** ** Task-signing keys *)
Section Signing.
Context `{UC : UuidCrate} `{SH : Sha2} `{B64 : Base64}.

Definition state_rank (s : KeyState) : Z := match s with Key_Prepared => 0 | Key_Active => 1 | Key_VerifyOnly => 2 end.
(** A key with the identity and the octets of [k]. *)
Definition same_key (k k' : PublicKey) : Prop := pk_id k' = pk_id k /\ pk_public_key k' = pk_public_key k.
Lemma check_key_ok acc k acc' : check_key acc k = Ok acc' -> pk_id k ∉ acc.1 /\ acc'.1 = bs_insert (pk_id k) acc.1.
Proof.
  unfold check_key. intros H. apply bind_ok in H as ([] & Hr%reject_ok & H). apply bind_ok in H as (d & _ & H).
  apply bind_ok in H as ([] & _ & [= <-]). apply orb_false_iff in Hr as [_ Hm]. split; [|done]. intros Hin%bs_mem_iff. congruence.
Qed.
Lemma check_keys_ok keys acc acc' : res_for check_key keys acc = Ok acc' ->
  NoDup (map pk_id keys) /\ forall id, id ∈ map pk_id keys -> id ∉ acc.1.
Proof.
  revert acc. induction keys as [|k keys IH]; intros acc H; simpl in H |- *.
  - split; [constructor|]. by intros ? ?%elem_of_nil.
  - apply bind_ok in H as (acc1 & [Hn Ha]%check_key_ok & H). destruct (IH _ H) as [Hd Hall]. rewrite Ha in Hall. split.
    + apply NoDup_cons. split; [|done]. intros Hin. apply (Hall _ Hin), elem_of_bs_insert. by left.
    + intros id [->|Hin]%elem_of_cons; [done|]. intros Hid. apply (Hall _ Hin), elem_of_bs_insert. by right.
Qed.
(** A valid set has one active key and names each key once. *)
Lemma signing_valid t : SigningTrust_validate t = Ok () -> NoDup (map pk_id (st_keys t)) /\
  exists k, List.filter key_active (st_keys t) = [k].
Proof.
  unfold SigningTrust_validate. intros H. apply bind_ok in H as ([] & Hr%reject_ok & H). apply bind_ok in H as (acc & [Hd _]%check_keys_ok & _).
  split; [done|]. apply orb_false_iff in Hr as [_ Hr]. bool_hyps. destruct (List.filter _ _) as [|k [|? ?]]; [done|by exists k|].
  unfold zlen in *. simpl in *. lia.
Qed.
Lemma find_key_in keys k : NoDup (map pk_id keys) -> k ∈ keys -> find_key keys (pk_id k) = Some k.
Proof.
  unfold find_key. induction keys as [|x keys IH]; intros Hd Hin; [by apply elem_of_nil in Hin|]. simpl in Hd |- *.
  apply NoDup_cons in Hd as [Hx Hd]. apply elem_of_cons in Hin as [->|Hin]; [by rewrite bool_decide_true|].
  rewrite bool_decide_false; [by apply IH|]. intros E. apply Hx, elem_of_map. by exists k.
Qed.
Lemma find_key_some keys id k : find_key keys id = Some k -> k ∈ keys /\ pk_id k = id.
Proof. intros [Hin Hd%bool_decide_eq_true]%List.find_some. split; [by apply list_elem_of_In|done]. Qed.
Lemma check_previous_all keys installed : res_for (check_previous keys) installed () = Ok () ->
  forall k, k ∈ installed -> check_previous keys () k = Ok ().
Proof.
  induction installed as [|x l IH]; intros H k Hk; [by apply elem_of_nil in Hk|]. simpl in H. apply bind_ok in H as ([] & Hx & H).
  apply elem_of_cons in Hk as [->|Hk]; [done|by apply IH].
Qed.
(** One accepted replacement. *)
Record follows (t next : SigningTrust) : Prop := {
  fo_valid : SigningTrust_validate t = Ok () /\ SigningTrust_validate next = Ok ();
  fo_binding : st_tenant next = st_tenant t /\ st_service_id next = st_service_id t;
  fo_revision : st_revision t <= st_revision next /\ (st_revision next = st_revision t -> next = t);
  fo_key : forall k k', k ∈ st_keys t -> k' ∈ st_keys next -> pk_id k' = pk_id k ->
    pk_public_key k' = pk_public_key k /\ state_rank (pk_state k) <= state_rank (pk_state k');
  fo_active : forall k, k ∈ st_keys t -> pk_state k = Key_Active ->
    exists k', k' ∈ st_keys next /\ same_key k k' /\ pk_state k' <> Key_Prepared;
  fo_prepared : forall k', k' ∈ st_keys next -> pk_state k' = Key_Active ->
    exists k, k ∈ st_keys t /\ same_key k k' /\ pk_state k <> Key_VerifyOnly
}.
Lemma successor_follows t next : validate_successor next t = Ok () -> follows t next.
Proof.
  unfold validate_successor. intros H. apply bind_ok in H as ([] & Hv' & H). apply bind_ok in H as ([] & Hv & H).
  apply bind_ok in H as ([] & Hr%reject_ok & H). apply bind_ok in H as ([] & Hp & Hn%reject_ok).
  pose proof (check_previous_all _ _ Hp) as Hall. destruct (signing_valid _ Hv) as [Hd _]. destruct (signing_valid _ Hv') as [Hd' _].
  rewrite existsb_false_iff in Hn. rewrite !orb_false_iff, !negb_false_iff, !bool_decide_eq_true, Z.ltb_ge in Hr.
  destruct Hr as (((Ht & Hs) & Hrev) & Hsame).
  assert (forall k k', k ∈ st_keys t -> find_key (st_keys next) (pk_id k) = Some k' -> pk_public_key k' = pk_public_key k /\
    state_follows (pk_state k) (Some (pk_state k')) = true) as Hpair.
  { intros k k' Hk Hf. specialize (Hall k Hk). unfold check_previous in Hall. rewrite Hf in Hall. apply bind_ok in Hall as ([] & H1%reject_ok & H2%reject_ok).
    simpl in H2. bool_hyps. done. }
  split; [done|done| | | |].
  - split; [lia|]. intros E. rewrite E, Z.eqb_refl in Hsame. simpl in Hsame. by bool_hyps.
  - intros k k' Hk Hk' E. pose proof (find_key_in _ _ Hd' Hk') as Hf. rewrite E in Hf. destruct (Hpair k k' Hk Hf) as [Hpub Hst].
    split; [done|]. by destruct (pk_state k), (pk_state k').
  - intros k Hk Ha. pose proof (Hall k Hk) as Hc. unfold check_previous in Hc. apply bind_ok in Hc as ([] & _ & Hc%reject_ok). rewrite Ha in Hc.
    destruct (find_key (st_keys next) (pk_id k)) as [k'|] eqn:E; [|done]. exists k'. destruct (find_key_some _ _ _ E) as [Hin Hid].
    split; [done|]. destruct (Hpair k k' Hk E) as [Hpub _]. split; [done|]. intros E'. simpl in Hc. by rewrite E' in Hc.
  - intros k' Hk' Ha. specialize (Hn k' Hk'). unfold unprepared in Hn. rewrite Ha in Hn. apply andb_false_iff in Hn as [Hn|Hn]; [|done].
    apply negb_false_iff, existsb_true_iff in Hn as (k & Hk & Hid). bool_hyps. exists k. split; [done|].
    pose proof (find_key_in _ _ Hd' Hk') as Hf. rewrite <-Hid in Hf. destruct (Hpair k k' Hk Hf) as [Hpub Hst]. split; [done|].
    intros E. rewrite E, Ha in Hst. done.
Qed.
(** A device installs sets one after the other, each accepted against the one it has. *)
Definition install (t next : SigningTrust) : wres SigningTrust := _ ← validate_successor next t; Ok next.

(** C25: Along every sequence of accepted key sets the binding is fixed and the revision does not go
    back, one revision being one set; a key identity keeps its octets while it stays, and only
    goes from prepared to active to verify-only. From each set to the next, the signing key stays
    trusted, so tasks signed just before a rotation still verify, and the new signing key was
    already installed. *)
Theorem signing_keys_rotate t news t' : SigningTrust_validate t = Ok () -> res_for install news t = Ok t' ->
  (st_tenant t' = st_tenant t /\ st_service_id t' = st_service_id t) /\
  (st_revision t <= st_revision t' /\ (st_revision t' = st_revision t -> t' = t)) /\
  (forall i a b, (t :: news) !! i = Some a -> (t :: news) !! S i = Some b -> follows a b) /\
  forall id, (forall s, s ∈ t :: news -> id ∈ map pk_id (st_keys s)) ->
    forall k k', k ∈ st_keys t -> k' ∈ st_keys t' -> pk_id k = id -> pk_id k' = id ->
      pk_public_key k' = pk_public_key k /\ state_rank (pk_state k) <= state_rank (pk_state k').
Proof.
  revert t. induction news as [|n news IH]; intros t Hv H; simpl in H.
  - injection H as <-. split; [done|]. split; [split; [lia|done]|]. split; [by intros [|i] a b _ Hb|].
    intros id _ k k' Hk Hk' E E'. destruct (signing_valid _ Hv) as [Hd _]. pose proof (find_key_in _ _ Hd Hk) as Hf.
    rewrite E, <-E', (find_key_in _ _ Hd Hk') in Hf. injection Hf as ->. split; [done|lia].
  - apply bind_ok in H as (n' & Hn & H). unfold install in Hn. apply bind_ok in Hn as ([] & Hn%successor_follows & [= <-]).
    pose proof Hn as [[_ Hvn] [Ht Hs] [Hr Hsame] Hkey Hact Hprep].
    destruct (IH n Hvn H) as ([Ht' Hs'] & [Hr' Hsame'] & Hadj & Hid). split; [split; congruence|]. split; [split; [lia|]|split].
    + intros E. rewrite Hsame' by lia. apply Hsame. lia.
    + intros [|i] a b Ha Hb; simpl in Ha, Hb; [injection Ha as <-; injection Hb as <-; exact Hn|]. by apply (Hadj i).
    + intros id Hall k k' Hk Hk' E E'.
      assert (id ∈ map pk_id (st_keys n)) as (m & Hmid & Hm)%elem_of_map by (apply Hall, list_elem_of_further, list_elem_of_here).
      destruct (Hkey k m Hk Hm) as [H1 H2]; [congruence|].
      destruct (Hid id) with (k := m) (k' := k') as [H3 H4]; try done; [|split; [congruence|lia]].
      intros s Hin. by apply Hall, list_elem_of_further.
Qed.
End Signing.

(** ** Concrete inputs *)
Module WireExample.
Import Reference ReferenceJson.
Instance base64 : Base64.
Proof. refine {| b64_encode l := l; b64_decode := Some |}; done. Defined.
Instance json_text : JsonText := {|
  value_to_vec v := Some (text v); value_from_slice b := if decide (b = text JNull) then Some JNull else None
|}.
Definition diagnostics : TaskDiagnostics := mk_TaskDiagnostics [] [] 10 5 None.
Definition result : TaskResult := mk_TaskResult (Some 0) Quality_Complete JNull diagnostics 6.
Definition null : bytes := lit "null".
Definition manifest : OutputManifest := mk_OutputManifest 4 (sha256 null).
Definition chunk : OutputChunk := mk_OutputChunk manifest 0 null.

Definition key (id octet : Z) (s : KeyState) : PublicKey := mk_PublicKey [id] (repeat octet 32) s.
Definition key_set (revision : Z) (keys : list PublicKey) : SigningTrust := mk_SigningTrust 1 7 9 revision keys.
(** The first key signs and the second is prepared; the second signs; the first is removed. *)
Definition before : SigningTrust := key_set 1 [key 97 65 Key_Active; key 98 66 Key_Prepared].
Definition rotated : SigningTrust := key_set 2 [key 97 65 Key_VerifyOnly; key 98 66 Key_Active].
Definition retired : SigningTrust := key_set 3 [key 98 66 Key_Active].
End WireExample.
Section Witnesses.
Import Reference ReferenceJson WireExample.
Lemma assemble_exact_witness : OutputManifest_assemble manifest [chunk] = Ok null /\ zlen null = om_bytes manifest.
Proof.
  assert (OutputManifest_assemble manifest [chunk] = Ok null) as H by (by vm_compute). split; [done|].
  apply (assemble_exact manifest [chunk] null); [|done]. intros c ->%list_elem_of_singleton. exists chunk. by vm_compute.
Defined.
Lemma output_reassembled_witness : exists t cs, ChunkedTaskResult_split result = Ok (t, cs) /\
  forall cs', cs' ≡ₚ cs -> ChunkedTaskResult_assemble t cs' = Ok result.
Proof.
  assert (TaskResult_new (Some 0) Quality_Complete JNull diagnostics 6 = Ok result) as Hr by reflexivity.
  assert (value_from_slice null = Some JNull) as Hb by reflexivity.
  assert (null <> []) as Hn by done. assert (forallb is_byte null = true) as Hy by reflexivity.
  destruct (output_reassembled _ _ _ _ _ _ null Hr eq_refl Hn Hy Hb) as (t & cs & Hs & _ & Ha). exists t, cs.
  exact (conj Hs Ha).
Defined.
Lemma signing_keys_rotate_witness : res_for install [rotated; retired] before = Ok retired /\ st_revision before <= st_revision retired /\
  follows rotated retired.
Proof.
  assert (res_for install [rotated; retired] before = Ok retired) as H by (by vm_compute). split; [done|].
  destruct (signing_keys_rotate before [rotated; retired] retired) as (_ & [Hr _] & Hf & _); [by vm_compute|done|].
  split; [done|]. by apply (Hf 1%nat).
Defined.
End Witnesses.
