(* ===== verification/NativeProtection.v ===== *)
(** * Protection of stored protocol data

    [native-protection/src/lib.rs]: authenticated encryption of stored bytes under a ring of keys,
    rewriting under the active key, and keyed fingerprints.  HKDF, AES-GCM and HMAC ([ring]) and the
    envelope and context of [rss_data_protection] are parameters; the random nonce is an argument. *)
From S2P Require Import Prelude Ordered Text External.

(** ** Code outside the repository *)
(** [ring::aead] with AES-256-GCM: opening inverts sealing; a 16-byte tag is kept apart. *)
Class AesGcm : Type := {
  GcmKey : Type;
  gcm_key : bytes -> option GcmKey;
  gcm_seal : GcmKey -> bytes -> bytes -> bytes -> option (bytes * bytes);
  gcm_open : GcmKey -> bytes -> bytes -> bytes -> option bytes;
  gcm_seal_length : forall k nonce aad plain c t, gcm_seal k nonce aad plain = Some (c, t) ->
    length c = length plain /\ length t = 16%nat;
  gcm_open_seal : forall k nonce aad plain c t, gcm_seal k nonce aad plain = Some (c, t) ->
    gcm_open k nonce aad (c ++ t) = Some plain
}.
(** [ring::hkdf] with SHA-256: salt, key and label to 32 bytes. *)
Class Hkdf : Type := {
  hkdf : bytes -> bytes -> bytes -> option bytes;
  hkdf_length : forall s k l b, hkdf s k l = Some b -> length b = 32%nat
}.
(** [rss_data_protection]: authenticated coordinates and validated envelopes. *)
Class DataProtection : Type := {
  DerivedAad : Type; Coordinates : Type; CipherAlg : Type; EncryptionMode : Type;
  coordinates_eq_dec :: EqDecision Coordinates;
  alg_eq_dec :: EqDecision CipherAlg;
  mode_eq_dec :: EqDecision EncryptionMode;
  Aes256Gcm : CipherAlg; Randomized : EncryptionMode;
  ENVELOPE_VERSION : Z;
  as_canonical_bytes : DerivedAad -> bytes;
  coordinates : DerivedAad -> Coordinates;
  envelope_valid : CipherAlg -> EncryptionMode -> rstr -> Z -> bytes -> bytes -> bytes -> Coordinates -> bool
}.

Definition MAX_BYTES : Z := 32 * 1024 * 1024.
Definition MAGIC : bytes := lit "MDMNP" ++ [2; 1; 1].
Definition PREFIX : Z := zlen MAGIC + 32 + 12.
Definition TAG : Z := 16.
Definition SALT : bytes := lit "rss-mdm/native-protection/v1".
(** The crate has one opaque error. *)
Inductive ProtectionError : Type := Protection_Failed.
Notation pres := (res ProtectionError).
Definition failing {A} (o : option A) : pres A := ok_or o Protection_Failed.
(** [&s[from..to]] of a slice that is long enough. *)
Definition bytes_at (s : bytes) (from to : Z) : bytes := take (Z.to_nat (to - from)) (drop (Z.to_nat from) s).

Section Protection.
Context `{AG : AesGcm} `{HK : Hkdf} `{HM : Hmac} `{DP : DataProtection}.

Record Envelope : Type := mk_Envelope {
  en_version : Z; en_alg : CipherAlg; en_mode : EncryptionMode; en_kid : rstr; en_key_version : Z;
  en_nonce : bytes; en_ciphertext : bytes; en_tag : bytes; en_aad : Coordinates
}.
(** [CiphertextEnvelope::new]. *)
Definition Envelope_new (alg : CipherAlg) (mode : EncryptionMode) (kid : rstr) (key_version : Z)
    (nonce ciphertext tag : bytes) (aad : Coordinates) : option Envelope :=
  if envelope_valid alg mode kid key_version nonce ciphertext tag aad
  then Some (mk_Envelope ENVELOPE_VERSION alg mode kid key_version nonce ciphertext tag aad) else None.

(** ** One key *)
Record ProtectionKey : Type := mk_ProtectionKey {
  pk_cipher : GcmKey; pk_mac_key : HmacKey; pk_identity : bytes; pk_text : rstr
}.
Definition ProtectionKey_new (key : bytes) : pres ProtectionKey :=
  _ ← reject (negb (zlen key =? 32)) Protection_Failed;
  let derive label := failing (hkdf SALT key label) in
  encryption ← derive (lit "aes256-gcm");
  mac ← derive (lit "native-content-hmac-sha256");
  identity ← derive (lit "key-identity");
  cipher ← failing (gcm_key encryption);
  Ok (mk_ProtectionKey cipher (hmac_key mac) identity (hex identity)).
(** [Aead::seal] of a key; [random] is what the system generator returned. *)
Definition Key_seal (k : ProtectionKey) (random : option bytes) (plain : bytes) (aad : DerivedAad) : pres Envelope :=
  _ ← reject (MAX_BYTES <? zlen plain) Protection_Failed;
  nonce ← failing random;
  sealed ← failing (gcm_seal (pk_cipher k) nonce (as_canonical_bytes aad) plain);
  failing (Envelope_new Aes256Gcm Randomized (pk_text k) 1 nonce sealed.1 sealed.2 (coordinates aad)).
Definition Key_open (k : ProtectionKey) (e : Envelope) (aad : DerivedAad) : pres bytes :=
  _ ← reject (negb (en_version e =? ENVELOPE_VERSION) || negb (bool_decide (en_alg e = Aes256Gcm))
              || negb (bool_decide (en_mode e = Randomized)) || negb (en_key_version e =? 1)
              || negb (bool_decide (en_kid e = pk_text k)) || negb (bool_decide (en_aad e = coordinates aad))
              || negb (zlen (en_nonce e) =? 12) || negb (zlen (en_tag e) =? TAG)
              || (MAX_BYTES <? zlen (en_ciphertext e))) Protection_Failed;
  failing (gcm_open (pk_cipher k) (en_nonce e) (as_canonical_bytes aad) (en_ciphertext e ++ en_tag e)).
Definition Key_seal_bytes (k : ProtectionKey) (random : option bytes) (plain : bytes) (aad : DerivedAad) : pres bytes :=
  e ← Key_seal k random plain aad;
  Ok (MAGIC ++ pk_identity k ++ en_nonce e ++ en_ciphertext e ++ en_tag e).
Definition sealed_length (sealed : bytes) : bool := (PREFIX + TAG <=? zlen sealed) && (zlen sealed <=? PREFIX + MAX_BYTES + TAG).
Definition sealed_identity (sealed : bytes) : bytes := bytes_at sealed (zlen MAGIC) (zlen MAGIC + 32).
Definition Key_open_bytes (k : ProtectionKey) (sealed : bytes) (aad : DerivedAad) : pres bytes :=
  _ ← reject (negb (sealed_length sealed) || negb (bool_decide (bytes_at sealed 0 (zlen MAGIC) = MAGIC))
              || negb (bool_decide (sealed_identity sealed = pk_identity k))) Protection_Failed;
  let tag_start := zlen sealed - TAG in
  e ← failing (Envelope_new Aes256Gcm Randomized (pk_text k) 1 (bytes_at sealed (zlen MAGIC + 32) PREFIX)
                 (bytes_at sealed PREFIX tag_start) (bytes_at sealed tag_start (zlen sealed)) (coordinates aad));
  Key_open k e aad.
(** What a fingerprint signs. *)
Definition mac_input (plain : bytes) (aad : DerivedAad) : bytes :=
  let c := as_canonical_bytes aad in be_bytes 8 (zlen c) ++ c ++ be_bytes 8 (zlen plain) ++ plain.
Definition Key_mac (k : ProtectionKey) (plain : bytes) (aad : DerivedAad) : pres bytes :=
  _ ← reject (MAX_BYTES <? zlen plain) Protection_Failed; Ok (hmac_sign (pk_mac_key k) (mac_input plain aad)).
Definition Key_verify_mac (k : ProtectionKey) (plain : bytes) (aad : DerivedAad) (tag : bytes) : pres () :=
  _ ← reject (MAX_BYTES <? zlen plain) Protection_Failed;
  reject (negb (hmac_verify (pk_mac_key k) (mac_input plain aad) tag)) Protection_Failed.

(** ** The ring *)
Record Protector : Type := mk_Protector {
  active : ProtectionKey; fingerprint : ProtectionKey; historical : list (bytes * ProtectionKey)
}.
Definition add_historical (active : ProtectionKey) (keys : list (bytes * ProtectionKey)) (key_material : bytes) :
    pres (list (bytes * ProtectionKey)) :=
  key ← ProtectionKey_new key_material;
  _ ← reject (bool_decide (pk_identity key = pk_identity active) || bm_contains (pk_identity key) keys) Protection_Failed;
  Ok (bm_insert (pk_identity key) key keys).
Definition with_fingerprint (active : bytes) (historical : list bytes) (fingerprint : bytes) : pres Protector :=
  _ ← reject (15 <? zlen historical) Protection_Failed;
  active ← ProtectionKey_new active;
  keys ← res_for (add_historical active) historical [];
  fingerprint ← ProtectionKey_new fingerprint;
  Ok (mk_Protector active fingerprint keys).
Definition with_history (active : bytes) (historical : list bytes) : pres Protector := with_fingerprint active historical active.
Definition Protector_new (key : bytes) : pres Protector := with_history key [].
Definition ciphertext_prefix (p : Protector) : bytes := MAGIC ++ pk_identity (active p).
Definition seal_bytes (p : Protector) (random : option bytes) (plain : bytes) (aad : DerivedAad) : pres bytes :=
  Key_seal_bytes (active p) random plain aad.
Definition key_for_bytes (p : Protector) (sealed : bytes) : pres ProtectionKey :=
  _ ← reject (negb (sealed_length sealed) || negb (bool_decide (bytes_at sealed 0 (zlen MAGIC) = MAGIC))) Protection_Failed;
  let identity := sealed_identity sealed in
  if bool_decide (identity = pk_identity (active p)) then Ok (active p) else failing (bm_get identity (historical p)).
Definition open_bytes (p : Protector) (sealed : bytes) (aad : DerivedAad) : pres bytes :=
  k ← key_for_bytes p sealed; Key_open_bytes k sealed aad.
Definition rewrap_bytes (p : Protector) (random : option bytes) (sealed : bytes) (aad : DerivedAad) : pres bytes :=
  key ← key_for_bytes p sealed;
  plain ← Key_open_bytes key sealed aad;
  if bool_decide (pk_identity key = pk_identity (active p)) then Ok sealed else Key_seal_bytes (active p) random plain aad.
Definition mac (p : Protector) (plain : bytes) (aad : DerivedAad) : pres bytes := Key_mac (fingerprint p) plain aad.
Definition verify_mac (p : Protector) (plain : bytes) (aad : DerivedAad) (tag : bytes) : pres () :=
  Key_verify_mac (fingerprint p) plain aad tag.
Definition key_for_id (p : Protector) (id : rstr) : pres ProtectionKey :=
  if bool_decide (id = pk_text (active p)) then Ok (active p)
  else failing (List.find (fun k => bool_decide (pk_text k = id)) (map snd (historical p))).
Definition verify_mac_with_key (p : Protector) (id : rstr) (plain : bytes) (aad : DerivedAad) (tag : bytes) : pres () :=
  if bool_decide (id = pk_text (fingerprint p)) then Key_verify_mac (fingerprint p) plain aad tag
  else k ← key_for_id p id; Key_verify_mac k plain aad tag.
(** [Aead] of the ring: envelopes that are not packed name their key by its text. *)
Definition Protector_seal (p : Protector) (random : option bytes) (plain : bytes) (aad : DerivedAad) : pres Envelope :=
  Key_seal (active p) random plain aad.
Definition Protector_open (p : Protector) (e : Envelope) (aad : DerivedAad) : pres bytes :=
  k ← key_for_id p (en_kid e); Key_open k e aad.
End Protection.

(** ** Properties *)
Section ProtectionProperties.
Context `{AG : AesGcm} `{HK : Hkdf} `{HM : Hmac} `{DP : DataProtection}.

(** ** The stored form *)
Lemma bytes_at_app a b c from to : zlen a = from -> from + zlen b = to -> bytes_at (a ++ b ++ c) from to = b.
Proof.
  unfold bytes_at, zlen. intros <- <-. rewrite Nat2Z.id, drop_app_length.
  replace (Z.to_nat _) with (length b) by lia. apply take_app_length.
Qed.
Lemma magic_length : zlen MAGIC = 8.
Proof. reflexivity. Qed.
(** The parts of a stored value, whatever their contents. *)
Definition packed (i n c t : bytes) : bytes := MAGIC ++ i ++ n ++ c ++ t.
Record parts (i n c t : bytes) : Prop := {
  parts_identity : zlen i = 32; parts_nonce : zlen n = 12; parts_tag : zlen t = TAG; parts_size : zlen c <= MAX_BYTES
}.
Section Parts.
Context (i n c t : bytes) (Hp : parts i n c t).
Lemma packed_length : zlen (packed i n c t) = PREFIX + zlen c + TAG.
Proof. destruct Hp. unfold packed, PREFIX. rewrite !zlen_app. lia. Qed.
Lemma packed_magic : bytes_at (packed i n c t) 0 (zlen MAGIC) = MAGIC.
Proof. apply (bytes_at_app [] MAGIC); reflexivity. Qed.
Lemma packed_identity : sealed_identity (packed i n c t) = i.
Proof. destruct Hp. apply bytes_at_app; lia. Qed.
Lemma packed_nonce : bytes_at (packed i n c t) (zlen MAGIC + 32) PREFIX = n.
Proof. destruct Hp. unfold packed. rewrite (app_assoc MAGIC). apply bytes_at_app; [rewrite zlen_app; lia|unfold PREFIX; lia]. Qed.
Lemma packed_ciphertext : bytes_at (packed i n c t) PREFIX (zlen (packed i n c t) - TAG) = c.
Proof.
  rewrite packed_length. destruct Hp. unfold packed. rewrite (app_assoc MAGIC), (app_assoc (MAGIC ++ i)).
  apply bytes_at_app; [unfold PREFIX; rewrite !zlen_app; lia|lia].
Qed.
Lemma packed_tag : bytes_at (packed i n c t) (zlen (packed i n c t) - TAG) (zlen (packed i n c t)) = t.
Proof.
  rewrite packed_length. destruct Hp. unfold packed. rewrite (app_assoc MAGIC), (app_assoc (MAGIC ++ i)), (app_assoc ((MAGIC ++ i) ++ n)).
  rewrite <-(app_nil_r (_ ++ t)), <-app_assoc. apply bytes_at_app; [unfold PREFIX; rewrite !zlen_app; lia|lia].
Qed.
Lemma packed_sealed_length : sealed_length (packed i n c t) = true.
Proof. unfold sealed_length. rewrite packed_length. destruct Hp. pose proof (zlen_nonneg c). lia. Qed.
End Parts.
(** Every byte string with the magic and a permitted length is of that form. *)
Lemma unpack b : sealed_length b = true -> bytes_at b 0 (zlen MAGIC) = MAGIC ->
  exists i n c t, b = packed i n c t /\ parts i n c t.
Proof.
  unfold sealed_length. intros H Hm. apply andb_true_iff in H as [H1%Z.leb_le H2%Z.leb_le].
  change (take 8 b = MAGIC) in Hm. unfold PREFIX, TAG in *. rewrite magic_length in *.
  exists (take 32 (drop 8 b)), (take 12 (drop 40 b)), (take (length b - 68) (drop 52 b)), (drop (length b - 16) b).
  unfold zlen in *. split.
  - unfold packed. rewrite <-Hm at 1. rewrite <-(take_drop 8 b) at 1. f_equal. rewrite <-(take_drop 32 (drop 8 b)) at 1. f_equal.
    rewrite drop_drop. rewrite <-(take_drop 12 (drop (8 + 32) b)) at 1. f_equal. rewrite drop_drop.
    rewrite <-(take_drop (length b - 68) (drop (8 + 32 + 12) b)) at 1. f_equal. rewrite drop_drop. f_equal. lia.
  - split; unfold zlen, TAG; rewrite ?length_take, ?length_drop; lia.
Qed.

(** ** One key *)
Lemma key_new_ok m k : ProtectionKey_new m = Ok k -> zlen (pk_identity k) = 32 /\ pk_text k = hex (pk_identity k).
Proof.
  unfold ProtectionKey_new, failing. intros H. inv_ok. simpl. split; [|done]. unfold zlen. by rewrite (hkdf_length _ _ _ _ E2).
Qed.
(** A nonce of the system generator fills twelve bytes. *)
Definition nonces (random : option bytes) : Prop := forall n, random = Some n -> length n = 12%nat.
Lemma key_seal_bytes_ok k random plain aad b : zlen (pk_identity k) = 32 -> nonces random -> Key_seal_bytes k random plain aad = Ok b ->
  exists n c t, b = packed (pk_identity k) n c t /\ parts (pk_identity k) n c t /\
    gcm_seal (pk_cipher k) n (as_canonical_bytes aad) plain = Some (c, t) /\
    envelope_valid Aes256Gcm Randomized (pk_text k) 1 n c t (coordinates aad) = true.
Proof.
  intros Hi Hr H. unfold Key_seal_bytes, Key_seal, failing, Envelope_new in H. apply bind_ok in H as (e & He & [= <-]).
  apply bind_ok in He as ([] & Hs%reject_ok & He). apply bind_ok in He as (n & Hn%ok_or_ok & He).
  apply bind_ok in He as ([c t] & Hg%ok_or_ok & He). simpl in He. destruct (envelope_valid _ _ _ _ _ _ _ _) eqn:Ev; [|done].
  injection He as <-. destruct (gcm_seal_length _ _ _ _ _ _ Hg) as [Hc Ht]. apply Z.ltb_ge in Hs. exists n, c, t. split_and!; [done| |done|done].
  split; [done|..]; unfold zlen, TAG in *; [by rewrite (Hr _ Hn)|lia|lia].
Qed.
(** Opening a stored value of that form is opening its parts. *)
Lemma key_open_packed k i n c t aad : parts i n c t -> Key_open_bytes k (packed i n c t) aad =
  if bool_decide (i = pk_identity k) && envelope_valid Aes256Gcm Randomized (pk_text k) 1 n c t (coordinates aad)
  then failing (gcm_open (pk_cipher k) n (as_canonical_bytes aad) (c ++ t)) else Err Protection_Failed.
Proof.
  intros Hp. unfold Key_open_bytes. rewrite packed_sealed_length, packed_magic, packed_identity, packed_nonce, packed_ciphertext, packed_tag by done.
  rewrite (bool_decide_true (MAGIC = MAGIC)) by done. destruct (bool_decide (i = pk_identity k)); simpl; [|done].
  unfold Envelope_new. destruct (envelope_valid _ _ _ _ _ _ _ _); simpl; [|done].
  unfold Key_open. simpl. rewrite !Z.eqb_refl, !bool_decide_true by done. destruct Hp as [_ Hn Ht Hs]. rewrite Hn, Ht. simpl.
  by replace (MAX_BYTES <? zlen c) with false by lia.
Qed.
Lemma key_open_sealed k random plain aad b : zlen (pk_identity k) = 32 -> nonces random -> Key_seal_bytes k random plain aad = Ok b ->
  Key_open_bytes k b aad = Ok plain.
Proof.
  intros Hi Hr H. destruct (key_seal_bytes_ok _ _ _ _ _ Hi Hr H) as (n & c & t & -> & Hp & Hs & Hv).
  rewrite key_open_packed, bool_decide_true, Hv by done. simpl. unfold failing. by rewrite (gcm_open_seal _ _ _ _ _ _ Hs).
Qed.

(** ** The ring *)
Definition retains (p : Protector) (k : ProtectionKey) : Prop := k = active p \/ bm_get (pk_identity k) (historical p) = Some k.
Lemma add_historical_all a l keys keys' : res_for (add_historical a) l keys = Ok keys' ->
  (forall i k, bm_get i keys = Some k -> bm_get i keys' = Some k) /\
  (forall m, m ∈ l -> exists k, ProtectionKey_new m = Ok k /\ bm_get (pk_identity k) keys' = Some k) /\
  ((forall i k, bm_get i keys = Some k -> i = pk_identity k /\ i <> pk_identity a /\ zlen i = 32) ->
    forall i k, bm_get i keys' = Some k -> i = pk_identity k /\ i <> pk_identity a /\ zlen i = 32).
Proof.
  revert keys. induction l as [|m l IH]; intros keys H; simpl in H.
  - injection H as <-. split_and!; [done|by intros m ?%elem_of_nil|done].
  - apply bind_ok in H as (keys1 & Ha & H). unfold add_historical in Ha. inv_ok. apply orb_false_iff in E0 as [Hne%bool_decide_eq_false Hnew].
    destruct (IH _ H) as (H1 & H2 & H3).
    assert (forall i k, bm_get i keys = Some k -> bm_get i (bm_insert (pk_identity a0) a0 keys) = Some k) as Hkeep.
    { intros i k Hi. rewrite bm_get_insert. destruct (eqb i (pk_identity a0)) eqn:Ei; [apply eqb_true in Ei as ->|done].
      unfold bm_contains in Hnew. by rewrite Hi in Hnew. }
    split_and!.
    + intros i k Hi. by apply H1, Hkeep.
    + intros x [->|Hx]%elem_of_cons; [|by apply H2]. exists a0. split; [done|]. apply H1. rewrite bm_get_insert.
      by rewrite (proj2 (eqb_eq _ _) eq_refl).
    + intros Hwf. apply H3. intros i k. rewrite bm_get_insert. destruct (eqb i (pk_identity a0)) eqn:Ei; [apply eqb_true in Ei as ->|by apply Hwf].
      intros [= <-]. split_and!; [done|done|]. apply (key_new_ok m). done.
Qed.
Record ring_of (a : bytes) (h : list bytes) (f : bytes) (p : Protector) : Prop := {
  ring_active : ProtectionKey_new a = Ok (active p);
  ring_fingerprint : ProtectionKey_new f = Ok (fingerprint p);
  ring_retains : forall m k, m ∈ a :: h -> ProtectionKey_new m = Ok k -> retains p k;
  ring_wf : forall i k, bm_get i (historical p) = Some k -> i = pk_identity k /\ i <> pk_identity (active p) /\ zlen i = 32
}.
Lemma with_fingerprint_ok a h f p : with_fingerprint a h f = Ok p -> ring_of a h f p.
Proof.
  unfold with_fingerprint. intros H. apply bind_ok in H as ([] & _ & H). apply bind_ok in H as (ka & Ha & H).
  apply bind_ok in H as (keys & Hk & H). apply bind_ok in H as (kf & Hf & [= <-]). destruct (add_historical_all _ _ _ _ Hk) as (_ & H2 & H3).
  split; simpl; [done|done| |by apply H3].
  intros m k [->|Hm]%elem_of_cons Hn; [left; simpl; congruence|]. destruct (H2 m Hm) as (k' & Hk' & Hg). right. simpl. congruence.
Qed.
Section Ring.
Context (a : bytes) (h : list bytes) (f : bytes) (p : Protector) (Hr : ring_of a h f p).
Lemma retained_identity k : retains p k -> zlen (pk_identity k) = 32.
Proof.
  intros [->|Hk]; [by apply (key_new_ok a), (ring_active _ _ _ _ Hr)|]. by apply (ring_wf _ _ _ _ Hr) in Hk as (_ & _ & ?).
Qed.
Lemma key_for_packed k n c t : retains p k -> parts (pk_identity k) n c t ->
  key_for_bytes p (packed (pk_identity k) n c t) = Ok k.
Proof.
  intros Hk Hp. unfold key_for_bytes. rewrite packed_sealed_length, packed_magic, packed_identity by done.
  rewrite (bool_decide_true (MAGIC = MAGIC)) by done. simpl. destruct Hk as [->|Hk]; [by rewrite bool_decide_true|].
  pose proof (ring_wf _ _ _ _ Hr _ _ Hk) as (_ & Hne & _). rewrite bool_decide_false by done. unfold failing. by rewrite Hk.
Qed.
Lemma key_for_ok b k : key_for_bytes p b = Ok k -> retains p k /\ exists n c t, b = packed (pk_identity k) n c t /\ parts (pk_identity k) n c t.
Proof.
  unfold key_for_bytes. intros H. apply bind_ok in H as ([] & Hb%reject_ok & H). apply orb_false_iff in Hb as [Hl Hm].
  apply negb_false_iff in Hl. apply negb_false_iff, bool_decide_eq_true in Hm. destruct (unpack b Hl Hm) as (i & n & c & t & -> & Hp).
  rewrite packed_identity in H by done. destruct (bool_decide _) eqn:Ei.
  - apply bool_decide_eq_true in Ei as ->. injection H as <-. split; [by left|]. by exists n, c, t.
  - unfold failing in H. apply ok_or_ok in H. destruct (ring_wf _ _ _ _ Hr _ _ H) as (-> & _). split; [by right|]. by exists n, c, t.
Qed.
Lemma open_sealed k random plain aad b : retains p k -> nonces random -> Key_seal_bytes k random plain aad = Ok b ->
  key_for_bytes p b = Ok k /\ open_bytes p b aad = Ok plain.
Proof.
  intros Hk Hn H. pose proof (retained_identity k Hk) as Hi. destruct (key_seal_bytes_ok _ _ _ _ _ Hi Hn H) as (n & c & t & Hb & Hp & _).
  assert (key_for_bytes p b = Ok k) as Hf by (rewrite Hb; by apply key_for_packed). split; [done|].
  unfold open_bytes. rewrite Hf. simpl. by apply (key_open_sealed _ random).
Qed.
End Ring.

(** ** Properties *)
(** C22: Stored data survives every rotation that keeps its key: a ring opens what any earlier ring sealed
    as long as the earlier active key is still installed. Rewriting yields the same content under the
    active key, repeats without effect, and then no longer depends on the old key. *)
Theorem stored_data_survives_rotation a h f p random plain aad b a' h' f' p' :
  with_fingerprint a h f = Ok p -> nonces random -> seal_bytes p random plain aad = Ok b ->
  with_fingerprint a' h' f' = Ok p' -> a ∈ a' :: h' ->
  open_bytes p' b aad = Ok plain /\
  forall random' b', nonces random' -> rewrap_bytes p' random' b aad = Ok b' ->
    open_bytes p' b' aad = Ok plain /\ (exists rest, b' = ciphertext_prefix p' ++ rest) /\
    (forall again, rewrap_bytes p' again b' aad = Ok b') /\
    forall a2 h2 f2 p2, with_fingerprint a2 h2 f2 = Ok p2 -> a' ∈ a2 :: h2 -> open_bytes p2 b' aad = Ok plain.
Proof.
  intros Hw%with_fingerprint_ok Hn Hs Hw'%with_fingerprint_ok Hin.
  assert (retains p' (active p)) as Hret by (apply (ring_retains _ _ _ _ Hw' a); [done|apply Hw]).
  destruct (open_sealed _ _ _ _ Hw' _ _ _ _ _ Hret Hn Hs) as [Hk Ho]. split; [done|]. intros random' b' Hn' H.
  assert (exists r2, nonces r2 /\ Key_seal_bytes (active p') r2 plain aad = Ok b') as (r2 & Hn2 & Hs2).
  { unfold rewrap_bytes in H. rewrite Hk in H. simpl in H. unfold open_bytes in Ho. rewrite Hk in Ho. simpl in Ho. rewrite Ho in H. simpl in H.
    destruct (bool_decide _) eqn:Ei; [|by exists random']. injection H as <-. exists random. split; [done|].
    destruct Hret as [<-|Hg]; [done|]. pose proof (ring_wf _ _ _ _ Hw' _ _ Hg) as (_ & Hne & _). by apply bool_decide_eq_true in Ei. }
  assert (retains p' (active p')) as Hself by (by left).
  destruct (open_sealed _ _ _ _ Hw' _ _ _ _ _ Hself Hn2 Hs2) as [Hk2 Ho2]. split_and!; [done|..].
  - destruct (key_seal_bytes_ok _ _ _ _ _ (retained_identity _ _ _ _ Hw' _ Hself) Hn2 Hs2) as (n & c & t & -> & _).
    exists (n ++ c ++ t). unfold ciphertext_prefix, packed. by rewrite <-app_assoc.
  - intros again. unfold rewrap_bytes. rewrite Hk2. simpl. unfold open_bytes in Ho2. rewrite Hk2 in Ho2. simpl in Ho2. rewrite Ho2.
    simpl. by rewrite bool_decide_true.
  - intros a2 h2 f2 p2 Hw2%with_fingerprint_ok Hin2. eapply open_sealed; [done| |done|done].
    apply (ring_retains _ _ _ _ Hw2 a'); [done|apply Hw'].
Qed.

(** A ring opens exactly the authentic values of its installed keys: the stored bytes are the magic,
    the identity of one of them, a nonce, at most 32 MiB of ciphertext and a tag which that key opens
    under the given coordinates. No other key is tried, so a removed key opens nothing. *)
Theorem opened_is_authentic a h f p b aad : with_fingerprint a h f = Ok p ->
  (forall plain, open_bytes p b aad = Ok plain <->
     exists k n c t, retains p k /\ b = packed (pk_identity k) n c t /\ parts (pk_identity k) n c t /\
       envelope_valid Aes256Gcm Randomized (pk_text k) 1 n c t (coordinates aad) = true /\
       gcm_open (pk_cipher k) n (as_canonical_bytes aad) (c ++ t) = Some plain) /\
  ((forall k, retains p k -> sealed_identity b <> pk_identity k) -> open_bytes p b aad = Err Protection_Failed).
Proof.
  intros Hw%with_fingerprint_ok. split.
  - intros plain. unfold open_bytes. split.
    + intros (k & Hk & H)%bind_ok. destruct (key_for_ok _ _ _ _ Hw _ _ Hk) as (Hr & n & c & t & -> & Hp). exists k, n, c, t.
      rewrite key_open_packed, bool_decide_true in H by done. destruct (envelope_valid _ _ _ _ _ _ _ _); [|done]. simpl in H.
      by apply ok_or_ok in H.
    + intros (k & n & c & t & Hr & -> & Hp & Hv & Hg). rewrite (key_for_packed _ _ _ _ Hw) by done. simpl.
      rewrite key_open_packed, bool_decide_true, Hv by done. simpl. unfold failing. by rewrite Hg.
  - intros Hno. unfold open_bytes. destruct (key_for_bytes p b) as [k|[]|] eqn:Ek; simpl; [|done|].
    + destruct (key_for_ok _ _ _ _ Hw _ _ Ek) as (Hr & n & c & t & -> & Hp). destruct (Hno k Hr). by apply packed_identity.
    + unfold key_for_bytes, reject, failing, ok_or in Ek. by repeat case_match.
Qed.

(** A fingerprint recorded by one ring verifies under every ring with the same comparison key, whatever
    became of the encryption keys; and what else it verifies is the same content under the same
    coordinates, unless HMAC has given one value to two different inputs. *)
Theorem fingerprints_compare_content a h f p a' h' p' plain aad tag plain' aad' :
  with_fingerprint a h f = Ok p -> with_fingerprint a' h' f = Ok p' -> mac p plain aad = Ok tag ->
  zlen (as_canonical_bytes aad) < 2 ^ 64 -> zlen (as_canonical_bytes aad') < 2 ^ 64 ->
  verify_mac p' plain aad tag = Ok () /\
  (verify_mac p' plain' aad' tag = Ok () ->
     plain' = plain /\ as_canonical_bytes aad' = as_canonical_bytes aad \/
     mac_input plain' aad' <> mac_input plain aad /\
       hmac_sign (pk_mac_key (fingerprint p)) (mac_input plain' aad') = hmac_sign (pk_mac_key (fingerprint p)) (mac_input plain aad)).
Proof.
  intros Hw%with_fingerprint_ok Hw'%with_fingerprint_ok H Hl Hl'.
  assert (fingerprint p' = fingerprint p) as Hf by (pose proof (ring_fingerprint _ _ _ _ Hw); pose proof (ring_fingerprint _ _ _ _ Hw'); congruence).
  unfold mac, Key_mac in H. apply bind_ok in H as ([] & Hs%reject_ok & [= <-]). unfold verify_mac, Key_verify_mac. rewrite Hf, Hs.
  simpl. split; [by rewrite (proj2 (hmac_verify_iff _ _ _))|]. intros H. apply bind_ok in H as ([] & Hs'%reject_ok & Hv%reject_ok).
  apply negb_false_iff, hmac_verify_iff in Hv. destruct (decide (mac_input plain' aad' = mac_input plain aad)) as [He|]; [left|by right].
  apply Z.ltb_ge in Hs, Hs'. unfold MAX_BYTES in *. unfold mac_input in He. cbv zeta in He. apply app_inj_length in He as [E1 He]; [|by rewrite !length_be_bytes].
  apply (be_bytes_inj 8) in E1; [|split; [apply zlen_nonneg|lia]|split; [apply zlen_nonneg|lia]].
  apply app_inj_length in He as [-> He]; [|unfold zlen in E1; lia]. apply app_inj_length in He as [_ ->]; [done|by rewrite !length_be_bytes].
Qed.
End ProtectionProperties.

(** ** Concrete inputs *)
Module ProtectionExample.
Import Reference.
(** A seal without secrecy: the content and a sum of everything. *)
Definition toy_tag (k nonce aad plain : bytes) : bytes := repeat (foldr Z.add 0 (k ++ nonce ++ aad ++ plain)) 16.
#[export] Program Instance aes_gcm : AesGcm := {|
  gcm_key := Some; gcm_seal k nonce aad plain := Some (plain, toy_tag k nonce aad plain);
  gcm_open k nonce aad sealed :=
    let plain := take (length sealed - 16) sealed in
    if decide (drop (length sealed - 16) sealed = toy_tag k nonce aad plain) then Some plain else None
|}.
Next Obligation. intros k nonce aad plain c t [= <- <-]. split; [done|]. apply (repeat_length _ 16). Qed.
Next Obligation.
  intros k nonce aad plain c t [= <- <-]. cbv zeta.
  assert (length (plain ++ toy_tag k nonce aad plain) - 16 = length plain)%nat as ->.
  { rewrite length_app. unfold toy_tag. rewrite (repeat_length _ 16). lia. }
  rewrite take_app_length, drop_app_length. by rewrite decide_True.
Qed.
#[export] Program Instance toy_hkdf : Hkdf := {| hkdf s k l := Some (repeat (foldr Z.add (hd 0 l) k) 32) |}.
Next Obligation. intros s k l b [= <-]. apply (repeat_length _ 32). Qed.
#[export] Instance data_protection : DataProtection := {|
  DerivedAad := bytes; Coordinates := bytes; CipherAlg := (); EncryptionMode := (); Aes256Gcm := (); Randomized := ();
  ENVELOPE_VERSION := 1; as_canonical_bytes a := a; coordinates a := a; envelope_valid _ _ _ _ n _ t _ := (zlen n =? 12) && (zlen t =? 16)
|}.
Definition key_material (n : Z) : bytes := repeat n 32.
Definition nonce (n : Z) : option bytes := Some (repeat n 12).
(** The ring before a rotation, during it, and when the old key is gone. *)
Definition ring (a : Z) (h : list Z) (f : Z) : pres Protector := with_fingerprint (key_material a) (map key_material h) (key_material f).
Definition opened (a : Z) (h : list Z) (f : Z) (sealed : pres bytes) (aad : DerivedAad) : pres bytes :=
  p ← ring a h f; b ← sealed; open_bytes p b aad.
Definition place : DerivedAad := [7].
Definition sealed : pres bytes := p ← ring 1 [] 1; seal_bytes p (nonce 5) [10; 20; 30] place.
Definition rewrapped : pres bytes := p ← ring 2 [1] 1; b ← sealed; rewrap_bytes p (nonce 6) b place.
End ProtectionExample.
Section ProtectionWitnesses.
Import Reference ProtectionExample.
Definition ring_or (r : pres Protector) (k : ProtectionKey) : Protector := get (mk_Protector k k []) r.
Definition any_key : ProtectionKey := mk_ProtectionKey [] [] [] [].
Definition first_ring : Protector := ring_or (ring 1 [] 1) any_key.
Definition second_ring : Protector := ring_or (ring 2 [1] 1) any_key.
Lemma nonce_ok n : nonces (nonce n).
Proof. intros x [= <-]. reflexivity. Qed.
Lemma stored_data_survives_rotation_witness : open_bytes second_ring (get [] sealed) place = Ok [10; 20; 30] /\ open_bytes second_ring (get [] rewrapped) place = Ok [10; 20; 30] /\ opened 2 [] 1 rewrapped place = Ok [10; 20; 30] /\
  opened 2 [] 1 sealed place = Err Protection_Failed.
Proof.
  destruct (stored_data_survives_rotation (key_material 1) [] (key_material 1) first_ring (nonce 5) [10; 20; 30] place (get [] sealed)
    (key_material 2) [key_material 1] (key_material 1) second_ring) as [Ho Hr]; [reflexivity|apply nonce_ok|reflexivity|reflexivity|by right; left|].
  split; [exact Ho|]. destruct (Hr (nonce 6) (get [] rewrapped) (nonce_ok 6)) as (H1 & _); [reflexivity|].
  split; [exact H1|]. split; reflexivity.
Defined.
Lemma opened_is_authentic_witness : open_bytes first_ring (get [] rewrapped) place = Err Protection_Failed /\ exists k n c t, retains second_ring k /\ get [] sealed = packed (pk_identity k) n c t /\ parts (pk_identity k) n c t.
Proof.
  split; [reflexivity|].
  destruct (opened_is_authentic (key_material 2) [key_material 1] (key_material 1) second_ring (get [] sealed) place) as [Hi _]; [reflexivity|].
  destruct (proj1 (Hi [10; 20; 30])) as (k & n & c & t & H1 & H2 & H3 & _); [reflexivity|]. exists k, n, c, t. exact (conj H1 (conj H2 H3)).
Defined.
Lemma fingerprints_compare_content_witness : verify_mac second_ring [1; 2] place (get [] (mac first_ring [1; 2] place)) = Ok ().
Proof.
  destruct (fingerprints_compare_content (key_material 1) [] (key_material 1) first_ring (key_material 2) [key_material 1] second_ring [1; 2] place
    (get [] (mac first_ring [1; 2] place)) [1; 2] place) as [H _]; [reflexivity|reflexivity|reflexivity|done|done|exact H].
Defined.
End ProtectionWitnesses.
