(* ===== verification/LargeObject.v ===== *)
(** * Large objects: reassembly on the server

    [windows-channel]'s [large_object.rs]: a device returns a value that does not fit in one
    message as fragments in consecutive messages.  [Assembly] holds the one open object and the
    statuses of the reads; it is [&mut] in the code, so every step here also returns the state it
    leaves when it fails. *)
From S2P Require Import Prelude Ordered Text External Xml Declared SyncmlModel SyncmlCodec SyncmlCorrelation.

Inductive Fault : Type := Fault_Invalid | Fault_Size (command : Z) | Fault_Interrupted (reference : Reference).
#[export] Instance Fault_eq_dec : EqDecision Fault.
Proof. solve_decision. Defined.
Notation fres := (res Fault).
Record Partial : Type := mk_Partial {
  p_reference : Reference; p_meta : Meta; p_size : Z; p_next : Z; p_data : rstr
}.
#[export] Instance Partial_eq_dec : EqDecision Partial.
Proof. solve_decision. Defined.
Record Assembly : Type := mk_Assembly { partial : option Partial; a_statuses : list (Z * Z * list rstr * Z) }.
#[export] Instance Assembly_eq_dec : EqDecision Assembly.
Proof. solve_decision. Defined.
Definition Assembly_default : Assembly := mk_Assembly None [].
Record Frame : Type := mk_Frame { f_message : Message; controls : list Command }.
Definition object_metadata (i : Item) (parent : option Meta) : Meta :=
  let either (f : Meta -> option rstr) := match i_meta i ≫= f with Some v => Some v | None => parent ≫= f end in
  mk_Meta (either m_format) (either m_media_type) None None
    (match i_meta i ≫= m_size with Some v => Some v | None => parent ≫= m_size end).
Definition pending (a : Assembly) : option Reference := p_reference <$> partial a.

(** ** The state of one exchange *)
(** [self] and the local variables of [feed_exchange]. *)
Record Local : Type := mk_Local {
  lo_assembly : Assembly; lo_interrupted : list Reference; lo_touched : bool; lo_controls : list Command
}.
Definition asm (A : Type) : Type := Local -> fres A * Local.
#[export] Instance asm_ret : MRet asm := fun A a s => (Ok a, s).
#[export] Instance asm_bind : MBind asm := fun A B k m s =>
  match m s with
  | (Ok a, s) => k a s
  | (Err e, s) => (Err e, s)
  | (Panic, s) => (Panic, s)
  end.
Definition lift {A} (r : fres A) : asm A := fun s => (r, s).
Definition state : asm Local := fun s => (Ok s, s).
Definition modify (f : Local -> Local) : asm () := fun s => (Ok (), f s).
Definition set_partial (p : option Partial) : asm () :=
  modify (fun s => mk_Local (mk_Assembly p (a_statuses (lo_assembly s))) (lo_interrupted s) (lo_touched s) (lo_controls s)).
Definition push_status (st : Z * Z * list rstr * Z) : asm () :=
  modify (fun s => mk_Local (mk_Assembly (partial (lo_assembly s)) (a_statuses (lo_assembly s) ++ [st]))
                     (lo_interrupted s) (lo_touched s) (lo_controls s)).
Definition push_interrupted (r : Reference) : asm () :=
  modify (fun s => mk_Local (lo_assembly s) (lo_interrupted s ++ [r]) (lo_touched s) (lo_controls s)).
Definition touch : asm () := modify (fun s => mk_Local (lo_assembly s) (lo_interrupted s) true (lo_controls s)).
Definition push_control (c : Command) : asm () :=
  modify (fun s => mk_Local (lo_assembly s) (lo_interrupted s) (lo_touched s) (lo_controls s ++ [c])).
Fixpoint asm_map {A B} (f : A -> asm B) (l : list A) : asm (list B) :=
  match l with
  | [] => mret []
  | a :: l => b ← f a; bs ← asm_map f l; mret (b :: bs)
  end.

(** [u32::checked_add(1).ok_or(Fault::Invalid)]. *)
Definition next_message (n : Z) : fres Z := ok_or (if n + 1 <=? u32_max then Some (n + 1) else None) Fault_Invalid.
(** Whether an item of [r] has the address of [reference]. *)
Definition addresses (r : Results) (i : Item) (reference : Reference) : bool :=
  (or_one (r_message_ref r) =? ref_message_id reference) && (or_one (r_command_ref r) =? ref_command_id reference)
  && bool_decide (i_source i = Some (ref_uri reference)).
(** The latest status of the read at [reference] says that its value follows. *)
Definition read_accepted (statuses : list (Z * Z * list rstr * Z)) (reference : Reference) : bool :=
  match List.find (fun '(m, c, uris, _) => (m =? ref_message_id reference) && (c =? ref_command_id reference)
                     && (is_empty uris || bool_decide (ref_uri reference ∈ uris))) (rev statuses) with
  | Some (_, code) => bool_decide (code ∈ [200; 206; 214])
  | None => false
  end.
Definition is_ascii_whitespace (b : Z) : bool := bool_decide (b ∈ [32; 9; 10; 12; 13]).
Definition set_item (i : Item) (data : option rstr) (meta : Meta) (more : bool) : Item :=
  mk_Item more (i_source i) (i_target i) (Some meta) data.
Definition continue_status (raw : Message) (r : Results) (reference : Reference) : Command :=
  StatusCommand (mk_Status 0 (h_message_id (header raw)) (r_id r) N_Results [] [ref_uri reference] 213 [] None None).
Definition get_status (s : Status) : bool := bool_decide (s_command s = N_Get).
Definition has_items (c : Command) : bool :=
  match c with ResultsCommand r => negb (is_empty (r_items r)) | _ => true end.

Section LargeObject.
Context `{B64 : Base64Standard} (raw : Message) (expected : Expected) (l : CodecLimits) (stopped : bool).

(** ** One item *)
(** An open object admits no other item; a stopped exchange drops it instead. *)
Definition meet_partial (r : Results) (i : Item) : asm () :=
  s ← state;
  match partial (lo_assembly s) with
  | Some p =>
      if negb (p_next p =? h_message_id (header raw)) || negb (addresses r i (p_reference p)) then
        if stopped then _ ← push_interrupted (p_reference p); set_partial None
        else lift (Err (Fault_Interrupted (p_reference p)))
      else mret ()
  | None => mret ()
  end.
Definition differs (p : Partial) (reference : Reference) (meta : Meta) : bool :=
  negb (bool_decide (p_reference p = reference)) || given (m_size meta)
  || match m_format meta with
     | Some f => negb (bool_decide (f = match m_format (p_meta p) with Some f => f | None => lit "chr" end))
     | None => false
     end
  || match m_media_type meta with
     | Some t => negb (bool_decide (Some t = m_media_type (p_meta p)))
     | None => false
     end.
Definition check_decoded (r : Results) (meta : Meta) (data : rstr) : fres () :=
  if bool_decide (m_format meta = Some (lit "b64")) then
    decoded ← ok_or (standard_decode (List.filter (fun b => negb (is_ascii_whitespace b)) data)) Fault_Invalid;
    reject (l_decoded_object_bytes l <? zlen decoded) (Fault_Size (r_id r))
  else Ok ().
Definition continue_object (r : Results) (i : Item) (reference : Reference) (meta : Meta) (data : rstr) (p : Partial) :
    asm (list Item) :=
  _ ← lift (reject (differs p reference meta) (Fault_Interrupted (p_reference p)));
  size ← lift (ok_or (checked_u64 (str_len (p_data p) + str_len data)) (Fault_Size (r_id r)));
  _ ← lift (reject (is_empty data || (p_size p <? size) || (l_object_bytes l <? size) || more_data i && (size =? p_size p))
              (Fault_Size (r_id r)));
  let data := p_data p ++ data in
  _ ← set_partial (Some (mk_Partial (p_reference p) (p_meta p) (p_size p) (p_next p) data));
  next ← lift (next_message (h_message_id (header raw)));
  _ ← set_partial (Some (mk_Partial (p_reference p) (p_meta p) (p_size p) next data));
  _ ← touch;
  if more_data i then _ ← push_control (continue_status raw r reference); mret []
  else
    _ ← set_partial None;
    _ ← lift (reject (negb (str_len data =? p_size p)) (Fault_Size (r_id r)));
    _ ← lift (check_decoded r (p_meta p) data);
    mret [set_item i (Some data) (p_meta p) false].
Definition begin_object (r : Results) (i : Item) (reference : Reference) (meta : Meta) (data : rstr) : asm (list Item) :=
  size ← lift (ok_or (m_size meta) Fault_Invalid);
  _ ← lift (reject ((l_object_bytes l <? size) || is_empty data || (size <=? str_len data)) (Fault_Size (r_id r)));
  next ← lift (next_message (h_message_id (header raw)));
  _ ← set_partial (Some (mk_Partial reference meta size next data));
  _ ← touch;
  _ ← push_control (continue_status raw r reference);
  mret [].
(** The items that one received item adds to the output: none, or one complete value. *)
Definition feed_item (r : Results) (i : Item) : asm (list Item) :=
  s ← state;
  if existsb (addresses r i) (lo_interrupted s) then mret [] else
  _ ← meet_partial r i;
  uri ← lift (ok_or (i_source i) Fault_Invalid);
  reference ← lift (match get_reference expected (or_one (r_message_ref r)) (or_one (r_command_ref r)) uri with
                    | Ok reference => Ok reference | Err _ => Err Fault_Invalid | Panic => Panic
                    end);
  let meta := object_metadata i (r_meta r) in
  data ← lift (ok_or (i_data i) Fault_Invalid);
  s ← state;
  if negb (given (partial (lo_assembly s))) && negb (more_data i) then
    _ ← lift (reject (match m_size meta with Some size => negb (size =? str_len data) | None => false end)
                (Fault_Size (r_id r)));
    mret [set_item i (i_data i) meta (more_data i)]
  else
    _ ← lift (reject (negb (read_accepted (a_statuses (lo_assembly s)) reference)) Fault_Invalid);
    match partial (lo_assembly s) with
    | Some p => continue_object r i reference meta data p
    | None => begin_object r i reference meta data
    end.

(** ** One message *)
Definition feed_command (c : Command) : asm Command :=
  match c with
  | StatusCommand s =>
      _ ← (if get_status s then push_status (s_message_ref s, s_command_ref s, s_target_refs s, s_code s) else mret ());
      mret c
  | ResultsCommand r =>
      items ← asm_map (feed_item r) (r_items r);
      mret (ResultsCommand (mk_Results (r_id r) (r_message_ref r) (r_command_ref r) (r_command r) None (concat items)))
  | _ =>
      s ← state;
      match partial (lo_assembly s) with
      | Some p => if stopped then mret c else lift (Err (Fault_Interrupted (p_reference p)))
      | None => mret c
      end
  end.
Definition exchange (required : option Reference) : asm Frame :=
  output ← asm_map feed_command (commands raw);
  s ← state;
  _ ← lift (match required with
            | Some reference => reject (negb stopped && negb (lo_touched s)) (Fault_Interrupted reference)
            | None => Ok ()
            end);
  let output := List.filter has_items output in
  if stopped then
    _ ← set_partial None;
    mret (mk_Frame (with_commands raw output) [])
  else mret (mk_Frame (with_commands raw output) (lo_controls s)).
Definition feed_exchange (a : Assembly) : fres Frame * Assembly :=
  match partial a with
  | Some p =>
      if negb (p_next p =? h_message_id (header raw)) then (Err (Fault_Interrupted (p_reference p)), a)
      else let (r, s) := exchange (Some (p_reference p)) (mk_Local a [] false []) in (r, lo_assembly s)
  | None => let (r, s) := exchange None (mk_Local a [] false []) in (r, lo_assembly s)
  end.
End LargeObject.
Definition feed `{B64 : Base64Standard} (raw : Message) (expected : Expected) (l : CodecLimits) (a : Assembly) :
    fres Frame * Assembly := feed_exchange raw expected l false a.
