(* ===== verification/LargeObjectProperties.v ===== *)
(** * Large objects: what reassembly delivers *)
From S2P Require Import Prelude Ordered Text External Xml Declared SyncmlModel SyncmlCodec SyncmlCorrelation.
From S2P Require Import LargeObject.

(** ** Running a step *)
Section Run.
Context {A B : Type}.
Lemma asm_bind_ok (m : asm A) (k : A -> asm B) s b s' :
  (m ≫= k) s = (Ok b, s') <-> exists a s1, m s = (Ok a, s1) /\ k a s1 = (Ok b, s').
Proof. unfold mbind, asm_bind. destruct (m s) as [[a|e|] s1]; naive_solver. Qed.
Lemma asm_bind_step (m : asm A) (k : A -> asm B) s a s1 : m s = (Ok a, s1) -> (m ≫= k) s = k a s1.
Proof. intros H. unfold mbind, asm_bind. by rewrite H. Qed.
Lemma asm_lift_ok (r : fres A) s a s' : lift r s = (Ok a, s') <-> r = Ok a /\ s' = s.
Proof. unfold lift. naive_solver. Qed.
End Run.
(** Take the first step of a run whose outcome is known. *)
Ltac step_with t := erewrite asm_bind_step by (first [reflexivity | t]).
(** Take apart a run that succeeded. *)
Ltac run_ok H :=
  repeat match type of H with
  | (_ ≫= _) ?s = (Ok _, _) =>
      apply asm_bind_ok in H; let a := fresh "a" in let s1 := fresh "s" in let E := fresh "E" in
      destruct H as (a & s1 & E & H)
  | lift _ ?s = (Ok _, _) => apply asm_lift_ok in H as [H ->]
  | mret _ ?s = (Ok _, _) => injection H as <- <-
  end.
Ltac run_all :=
  repeat match goal with
  | H : (_ ≫= _) _ = (Ok _, _) |- _ => run_ok H
  | H : lift _ _ = (Ok _, _) |- _ => apply asm_lift_ok in H as [H ->]
  | H : lift _ _ = (Ok _, ?s) |- _ => apply asm_lift_ok in H as [H Hs]; try subst s
  | H : state _ = (Ok _, _) |- _ => injection H as <- <-
  | H : modify _ _ = (Ok _, _) |- _ => unfold modify in H; injection H as <- <-
  | H : set_partial _ _ = (Ok _, _) |- _ => unfold set_partial in H
  | H : push_status _ _ = (Ok _, _) |- _ => unfold push_status in H
  | H : push_interrupted _ _ = (Ok _, _) |- _ => unfold push_interrupted in H
  | H : push_control _ _ = (Ok _, _) |- _ => unfold push_control in H
  | H : touch _ = (Ok _, _) |- _ => unfold touch in H
  | H : mret _ _ = (Ok _, _) |- _ => injection H as <- <-
  | H : reject _ _ = Ok ?u |- _ => apply reject_ok in H; try clear u
  | H : ok_or _ _ = Ok _ |- _ => apply ok_or_ok in H
  end.
Lemma asm_map_inv {A B} (f : A -> asm B) (I : Local -> Prop) (Q : A -> B -> Prop) l s bs s' :
  (forall a s b s', a ∈ l -> I s -> f a s = (Ok b, s') -> I s' /\ Q a b) ->
  I s -> asm_map f l s = (Ok bs, s') -> I s' /\ Forall2 Q l bs.
Proof.
  revert s bs. induction l as [|a l IH]; intros s bs Hstep HI H; simpl in H; run_all.
  - split; [done|constructor].
  - apply Hstep in E as [HI1 HQ]; [|by left|done].
    apply IH in E0 as [HI2 HF]; [|intros; eapply Hstep; [by right|done..]|done]. split; [done|]. by constructor.
Qed.

(** ** What the device sent *)
Section Delivery.
Context `{B64 : Base64Standard} (l : CodecLimits).

(** [m] returns [d] for the read at [ref]; the value goes on in the next message when [more]. *)
Definition fragment_of (m : Message) (ref : Reference) (meta : Meta) (d : rstr) (more : bool) : Prop :=
  exists r i, ResultsCommand r ∈ commands m /\ i ∈ r_items r /\ addresses r i ref = true /\
    i_data i = Some d /\ more_data i = more /\ meta = object_metadata i (r_meta r).
(** Of the messages [ms], the newest first, the last ones returned the pieces of an unfinished
    value: [d] so far, of the [size] bytes that the first of them declared. *)
Inductive opened : list Message -> Reference -> Z -> rstr -> Prop :=
| opened_first m ms ref meta size d :
    fragment_of m ref meta d true -> m_size meta = Some size -> 0 < str_len d < size -> size <= l_object_bytes l ->
    opened (m :: ms) ref size d
| opened_more m m' ms ref meta size d e :
    opened (m' :: ms) ref size d -> h_message_id (header m) = h_message_id (header m') + 1 ->
    fragment_of m ref meta e true -> m_size meta = None -> e <> [] -> str_len (d ++ e) < size ->
    opened (m :: m' :: ms) ref size (d ++ e).
(** The newest message completes the value [d] at [ref]. *)
Inductive delivered : list Message -> Reference -> rstr -> Prop :=
| delivered_whole m ms ref meta d :
    fragment_of m ref meta d false -> (forall size, m_size meta = Some size -> size = str_len d) ->
    delivered (m :: ms) ref d
| delivered_last m m' ms ref meta size d e :
    opened (m' :: ms) ref size d -> h_message_id (header m) = h_message_id (header m') + 1 ->
    fragment_of m ref meta e false -> m_size meta = None -> e <> [] -> str_len (d ++ e) = size ->
    delivered (m :: m' :: ms) ref (d ++ e).

(** What an assembly holds after [ms]. *)
Definition holds (ms : list Message) (p : Partial) : Prop :=
  opened ms (p_reference p) (p_size p) (p_data p) /\
  exists m rest, ms = m :: rest /\ p_next p = h_message_id (header m) + 1.
Definition tracked (ms : list Message) (a : Assembly) : Prop := forall p, partial a = Some p -> holds ms p.
(** While [m] is read: the open object is the one from before, or began or went on in [m]. *)
Definition tracking (p0 : option Partial) (m : Message) (ms : list Message) (s : Local) : Prop :=
  forall p, partial (lo_assembly s) = Some p -> holds (m :: ms) p \/ lo_touched s = false /\ p0 = Some p /\ holds ms p.
(** A complete value of the output: for a requested read, as the device sent it. *)
Definition value_delivered (e : Expected) (ms : list Message) (r : Results) (i : Item) : Prop :=
  more_data i = false /\ exists ref d, addresses r i ref = true /\ bs_mem ref (references e) = true /\
    i_data i = Some d /\ delivered ms ref d.
Lemma tracked_tracking m ms a : tracked ms a -> tracking (partial a) m ms (mk_Local a [] false []).
Proof. intros H p Hp. right. split_and!; [done|done|by apply H]. Qed.
Lemma next_message_ok n k : next_message n = Ok k -> k = n + 1.
Proof. unfold next_message. destruct (n + 1 <=? u32_max); naive_solver. Qed.
Lemma addresses_reference e r i uri ref : i_source i = Some uri ->
  get_reference e (or_one (r_message_ref r)) (or_one (r_command_ref r)) uri = Ok ref ->
  addresses r i ref = true /\ bs_mem ref (references e) = true.
Proof.
  unfold get_reference, addresses. intros Hs H. destruct (bs_mem _ _) eqn:Em; [|done]. injection H as <-.
  simpl. by rewrite !Z.eqb_refl, Hs, bool_decide_true.
Qed.

Lemma not_empty {A} (x : list A) : is_empty x = false -> x <> [].
Proof. by destruct x. Qed.
(** *** One item *)
Section Item.
Context (p0 : option Partial) (m : Message) (ms : list Message) (e : Expected) (stopped : bool).
Lemma meet_partial_ok r i s u s' : tracking p0 m ms s -> meet_partial m stopped r i s = (Ok u, s') ->
  tracking p0 m ms s' /\ forall p, partial (lo_assembly s') = Some p ->
    partial (lo_assembly s) = Some p /\ p_next p = h_message_id (header m) /\ addresses r i (p_reference p) = true.
Proof.
  unfold meet_partial. intros HI H. run_all. destruct (partial (lo_assembly s)) as [p|] eqn:Ep.
  - destruct (negb _ || negb _) eqn:Ec.
    + destruct stopped; [|done]. run_all. simpl. split; [by intros q|done].
    + run_all. split; [done|]. intros q Hq. rewrite Ep in Hq. injection Hq as <-. bool_hyps. done.
  - run_all. split; [done|]. intros q Hq. congruence.
Qed.
Lemma differs_false p ref meta : differs p ref meta = false -> p_reference p = ref /\ m_size meta = None.
Proof. unfold differs. intros H. bool_hyps. by destruct (m_size meta). Qed.
Lemma continue_object_ok r i ref meta d p s items s' :
  fragment_of m ref meta d (more_data i) -> addresses r i ref = true -> bs_mem ref (references e) = true ->
  holds ms p \/ holds (m :: ms) p -> p_next p = h_message_id (header m) ->
  continue_object m l r i ref meta d p s = (Ok items, s') -> tracking p0 m ms s' /\ Forall (value_delivered e (m :: ms) r) items.
Proof.
  intros Hf Hadr Hreq Hp Hn H. destruct Hp as [[Ho (m' & rest & -> & Hn')]|[_ (m' & rest & [= <- <-] & Hn')]]; [|lia].
  unfold continue_object in H. run_all. apply differs_false in E as [Er Es]. apply next_message_ok in E3 as ->.
  rewrite Er in Ho. apply checked_u64_some in E0 as [-> _]. rewrite <-str_len_app in E1. rewrite !orb_false_iff in E1.
  destruct E1 as (((Hne%not_empty & Hsz%Z.ltb_ge) & _) & Hm).
  assert (h_message_id (header m) = h_message_id (header m') + 1) as Hid by congruence.
  destruct (more_data i) eqn:Em; run_all.
  - split; [|constructor]. intros q [= <-]. left. split; simpl; [|by exists m, (m' :: rest)].
    rewrite Er. eapply opened_more; try done. simpl in Hm. bool_hyps. lia.
  - split; [by intros q|]. constructor; [|constructor]. split; [done|]. exists ref, (p_data p ++ d).
    split_and!; [done..|]. bool_hyps. by eapply delivered_last.
Qed.
Lemma begin_object_ok r i ref meta d s items s' :
  fragment_of m ref meta d true -> begin_object m l r i ref meta d s = (Ok items, s') ->
  tracking p0 m ms s' /\ Forall (value_delivered e (m :: ms) r) items.
Proof.
  intros Hf H. unfold begin_object in H. run_all. apply next_message_ok in E1 as ->. rewrite !orb_false_iff in E0.
  destruct E0 as ((Hl & Hne%not_empty) & Hsz). bool_hyps. split; [|constructor]. intros q [= <-]. left.
  split; [|by exists m, ms]. simpl. eapply opened_first; try done.
  assert (str_len d <> 0) by (by rewrite str_len_zero). pose proof (str_len_nonneg d). lia.
Qed.
Lemma feed_item_ok r i s items s' : ResultsCommand r ∈ commands m -> i ∈ r_items r -> tracking p0 m ms s ->
  feed_item m e l stopped r i s = (Ok items, s') -> tracking p0 m ms s' /\ Forall (value_delivered e (m :: ms) r) items.
Proof.
  intros Hr Hi HI H. unfold feed_item in H. run_all. destruct (existsb _ _); [run_all; by split|]. run_all.
  apply meet_partial_ok in E as [HI1 Hp]; [|done].
  destruct (get_reference _ _ _ _) as [ref| |] eqn:Eg; try done. injection E1 as ->.
  destruct (addresses_reference _ _ _ _ _ E0 Eg) as [Hadr Hreq].
  assert (fragment_of m a1 (object_metadata i (r_meta r)) a2 (more_data i)) as Hf by (by exists r, i).
  destruct (partial _) as [p|] eqn:Ep; simpl in H.
  - run_all. destruct (Hp p eq_refl) as (_ & Hn & _). eapply continue_object_ok; try done.
    destruct (HI1 p Ep) as [|(_ & _ & ?)]; auto.
  - destruct (more_data i) eqn:Em; simpl in H; run_all; [by eapply begin_object_ok|].
    split; [done|]. constructor; [|constructor]. split; [done|]. exists a1, a2. split_and!; [done..|].
    eapply delivered_whole; [done|]. intros size Hs. simpl in Hs. rewrite Hs in E. by bool_hyps.
Qed.
(** What a command of the output is. *)
Definition command_delivered (c c' : Command) : Prop :=
  match c' with
  | ResultsCommand r' => exists r, c = ResultsCommand r /\ r_message_ref r' = r_message_ref r /\
      r_command_ref r' = r_command_ref r /\ Forall (value_delivered e (m :: ms) r) (r_items r')
  | _ => c' = c
  end.
Lemma feed_command_ok c s c' s' : c ∈ commands m -> tracking p0 m ms s ->
  feed_command m e l stopped c s = (Ok c', s') -> tracking p0 m ms s' /\ command_delivered c c'.
Proof.
  intros Hc HI H. destruct c as [| | | | | | |st|r| |]; simpl in H; run_all;
    try (destruct (partial (lo_assembly s)); [destruct stopped|]; run_all; by split).
  - destruct (get_status st); run_all; by split.
  - apply (asm_map_inv _ (tracking p0 m ms) (fun _ => Forall (value_delivered e (m :: ms) r))) in E as [HI' HF]; [|..|done].
    + split; [done|]. exists r. split_and!; [done..|]. simpl. apply Forall_concat. clear -HF. induction HF; by constructor.
    + intros i s1 items s2 Hi. by apply feed_item_ok.
Qed.
End Item.

(** *** One message *)
Lemma feed_exchange_ok m ms e stopped a f a' : tracked ms a -> feed_exchange m e l stopped a = (Ok f, a') ->
  tracked (m :: ms) a' /\
  forall r i, ResultsCommand r ∈ commands (f_message f) -> i ∈ r_items r -> value_delivered e (m :: ms) r i.
Proof.
  intros Ht H.
  assert (exists s', exchange m e l stopped (p_reference <$> partial a) (mk_Local a [] false []) = (Ok f, s') /\ a' = lo_assembly s')
    as (s' & Hx & ->).
  { unfold feed_exchange in H. destruct (partial a) as [p|]; simpl.
    - destruct (negb _); [done|]. destruct (exchange _ _ _ _ _ _) as [r s'] eqn:E. injection H as -> <-. by exists s'.
    - destruct (exchange _ _ _ _ _ _) as [r s'] eqn:E. injection H as -> <-. by exists s'. }
  clear H. unfold exchange in Hx. run_all.
  apply (asm_map_inv _ (tracking (partial a) m ms) (command_delivered m ms e)) in E as [HI HF];
    [|intros c s1 c' s2 Hc; by apply feed_command_ok|by apply tracked_tracking].
  assert (forall r' i, ResultsCommand r' ∈ List.filter has_items a0 -> i ∈ r_items r' -> value_delivered e (m :: ms) r' i) as Hv.
  { intros r' i Hr Hi. apply list_elem_of_In, filter_In in Hr as [Hr _]. apply list_elem_of_In in Hr.
    apply list_elem_of_lookup in Hr as [k Hk]. destruct (Forall2_lookup_r _ _ _ _ _ HF Hk) as (c & _ & r & -> & Hm & Hcr & Hall).
    rewrite Forall_forall in Hall. destruct (Hall i Hi) as (Hmore & ref & d & Hadr & Hrest). split; [done|]. exists ref, d.
    split; [|done]. unfold addresses in *. by rewrite Hm, Hcr. }
  destruct stopped; run_all; (split; [|exact Hv]).
  - by intros p.
  - intros p Hp. destruct (HI p Hp) as [Hh|(Htouch & H0 & _)]; [done|]. rewrite H0 in E1. simpl in E1.
    by rewrite Htouch in E1.
Qed.
End Delivery.

(** ** A value in pieces *)
#[local] Arguments object_metadata : simpl never.
Section Pieces.
Context `{B64 : Base64Standard} (l : CodecLimits).

Definition status_entry (s : Status) : Z * Z * list rstr * Z := (s_message_ref s, s_command_ref s, s_target_refs s, s_code s).
Definition read_statuses (sts : list Status) : list (Z * Z * list rstr * Z) := map status_entry (List.filter get_status sts).
(** [m] is the device's message with the number [n]: statuses, and one piece of the value at [ref]. *)
Record carries (ref : Reference) (n : Z) (meta : Meta) (d : rstr) (more : bool) (m : Message) (sts : list Status)
    (r : Results) (i : Item) : Prop := {
  ca_number : h_message_id (header m) = n;
  ca_commands : commands m = map StatusCommand sts ++ [ResultsCommand r];
  ca_items : r_items r = [i];
  ca_address : addresses r i ref = true;
  ca_data : i_data i = Some d;
  ca_more : more_data i = more;
  ca_meta : object_metadata i (r_meta r) = meta
}.
Lemma addresses_get r i ref e : addresses r i ref = true -> bs_mem ref (references e) = true ->
  exists uri, i_source i = Some uri /\ get_reference e (or_one (r_message_ref r)) (or_one (r_command_ref r)) uri = Ok ref.
Proof.
  unfold addresses, get_reference. intros H Hm. bool_hyps. exists (ref_uri ref). split; [done|].
  replace (mk_Reference _ _ _) with ref by (destruct ref; simpl in *; congruence). by rewrite Hm.
Qed.
(** The statuses of a message are read before its value. *)
Definition with_statuses (s : Local) (sts : list Status) : Local :=
  mk_Local (mk_Assembly (partial (lo_assembly s)) (a_statuses (lo_assembly s) ++ read_statuses sts)) (lo_interrupted s)
    (lo_touched s) (lo_controls s).
Lemma feed_statuses m e stopped sts s : asm_map (feed_command m e l stopped) (map StatusCommand sts) s =
  (Ok (map StatusCommand sts), with_statuses s sts).
Proof.
  revert s. induction sts as [|st sts IH]; intros s; simpl.
  - unfold with_statuses, read_statuses. simpl. rewrite app_nil_r. by destruct s as [[] ? ? ?].
  - unfold with_statuses, read_statuses in *. simpl. unfold mbind, asm_bind, mret, asm_ret, push_status, modify.
    destruct (get_status st); simpl; rewrite IH; simpl; by rewrite <-?app_assoc.
Qed.
Lemma asm_map_app {A B} (f : A -> asm B) l1 l2 s :
  asm_map f (l1 ++ l2) s = (x ← asm_map f l1; y ← asm_map f l2; mret (x ++ y)) s.
Proof.
  revert s. induction l1 as [|a l1 IH]; intros s; simpl.
  - unfold mbind, asm_bind, mret, asm_ret. by destruct (asm_map f l2 s) as [[] ?].
  - unfold mbind, asm_bind, mret, asm_ret in *. destruct (f a s) as [[b|x|] s1]; [|done|done]. rewrite IH.
    destruct (asm_map f l1 s1) as [[bs|x|] s2]; [|done|done]. by destruct (asm_map f l2 s2) as [[] ?].
Qed.
Lemma filter_statuses sts cs : List.filter has_items (map StatusCommand sts ++ cs) = map StatusCommand sts ++ List.filter has_items cs.
Proof. rewrite List.filter_app. f_equal. induction sts as [|st sts IH]; simpl; [done|]. by rewrite IH. Qed.
(** The state an item is read in, and what it becomes. *)
Lemma exchange_one m e ref n meta d more sts r i a s' items : carries ref n meta d more m sts r i ->
  feed_item m e l false r i (with_statuses (mk_Local a [] false []) sts) = (Ok items, s') -> lo_touched s' = true \/ partial a = None ->
  exchange m e l false (p_reference <$> partial a) (mk_Local a [] false []) =
    (Ok (mk_Frame (with_commands m (map StatusCommand sts ++ (if is_empty items then [] else
       [ResultsCommand (mk_Results (r_id r) (r_message_ref r) (r_command_ref r) (r_command r) None items)]))) (lo_controls s')), s').
Proof.
  intros Hc Hi Ht. unfold exchange. unfold mbind at 1, asm_bind at 1. rewrite (ca_commands _ _ _ _ _ _ _ _ _ Hc), asm_map_app.
  unfold mbind, asm_bind. rewrite feed_statuses. simpl. rewrite (ca_items _ _ _ _ _ _ _ _ _ Hc). simpl.
  unfold mbind, asm_bind, mret, asm_ret, lift, state. rewrite Hi. rewrite filter_statuses.
  replace (concat [items]) with items by (simpl; by rewrite app_nil_r).
  destruct (partial a) as [p|]; simpl; [destruct Ht as [->|]; [simpl|done]|]; by destruct items.
Qed.
Lemma exchange_feed m e a : (forall p, partial a = Some p -> p_next p = h_message_id (header m)) ->
  feed m e l a = let (r, s) := exchange m e l false (p_reference <$> partial a) (mk_Local a [] false []) in (r, lo_assembly s).
Proof.
  intros Hn. unfold feed, feed_exchange. destruct (partial a) as [p|]; [|done]. by rewrite (Hn p eq_refl), Z.eqb_refl.
Qed.
Lemma read_accepted_app sts sts' ref : read_accepted sts ref = true ->
  (forall m c uris code, (m, c, uris, code) ∈ sts' -> code ∈ [200; 206; 214]) -> read_accepted (sts ++ sts') ref = true.
Proof.
  unfold read_accepted. intros H Hall. rewrite rev_app_distr.
  assert (forall e, e ∈ rev sts' -> bool_decide (e.2 ∈ [200; 206; 214]) = true) as Hr.
  { intros [[[m c] uris] code] Hin. apply bool_decide_eq_true. rewrite list_elem_of_In, <-in_rev, <-list_elem_of_In in Hin. by eapply Hall. }
  induction (rev sts') as [|[[[m c] uris] code] es IH]; [done|]. simpl.
  destruct (_ && _); [by apply (Hr (m, c, uris, code)), list_elem_of_here|]. apply IH. intros e He. by apply Hr, list_elem_of_further.
Qed.

Section Step.
Context (ref : Reference) (m : Message) (e : Expected) (sts : list Status) (r : Results) (i : Item) (a : Assembly)
  (n : Z) (meta : Meta) (d : rstr) (more : bool).
Context (Hc : carries ref n meta d more m sts r i) (Hreq : bs_mem ref (references e) = true) (Hn : n + 1 <= u32_max)
  (Hd : d <> []) (Hacc : read_accepted (a_statuses a ++ read_statuses sts) ref = true).
Lemma next_number : next_message n = Ok (n + 1).
Proof. unfold next_message. by rewrite (proj2 (Z.leb_le _ _) Hn). Qed.
Lemma is_empty_piece : is_empty d = false.
Proof. by destruct d. Qed.
(** A piece of an object is read as its beginning or as its continuation. *)
Lemma feed_item_object p0 s : s = with_statuses (mk_Local a [] false []) sts -> partial a = p0 ->
  match p0 with Some p => p_next p = n /\ p_reference p = ref | None => more = true end ->
  feed_item m e l false r i s =
    match p0 with
    | Some p => continue_object m l r i ref meta d p s
    | None => begin_object m l r i ref meta d s
    end.
Proof.
  intros -> Hp0 Hp. destruct Hc as [Hn' _ _ Hadr Hdata Hm Hmeta]. destruct (addresses_get _ _ _ _ Hadr Hreq) as (uri & Hu & Hg).
  unfold feed_item. step_with idtac. cbn [with_statuses lo_interrupted existsb].
  step_with ltac:(unfold meet_partial; step_with idtac; simpl; rewrite Hp0; destruct p0 as [p|]; [|reflexivity];
    destruct Hp as [-> ->]; rewrite Hn', Z.eqb_refl, Hadr; reflexivity).
  rewrite Hu. step_with idtac. rewrite Hg. step_with idtac. rewrite Hdata, Hmeta. step_with idtac. step_with idtac.
  cbn [with_statuses lo_assembly partial a_statuses]. rewrite Hp0, Hm, Hacc.
  destruct p0 as [p|]; [|rewrite Hp]; cbn [negb given andb]; by step_with idtac.
Qed.
(** The first piece opens the object. *)
Lemma feed_first size : partial a = None -> more = true -> m_size meta = Some size -> size <= l_object_bytes l -> str_len d < size ->
  feed m e l a = (Ok (mk_Frame (with_commands m (map StatusCommand sts)) [continue_status m r ref]),
                  mk_Assembly (Some (mk_Partial ref meta size (n + 1) d)) (a_statuses a ++ read_statuses sts)).
Proof.
  intros Hp Hmore Hs Hl Hlt. rewrite exchange_feed by (by rewrite Hp).
  rewrite (exchange_one m e ref n meta d more sts r i a (mk_Local (mk_Assembly (Some (mk_Partial ref meta size (n + 1) d))
    (a_statuses a ++ read_statuses sts)) [] true [continue_status m r ref]) []); [|done| |by right].
  - simpl. by rewrite app_nil_r.
  - rewrite (feed_item_object None _ eq_refl Hp Hmore). unfold begin_object. rewrite Hs. step_with idtac.
    rewrite is_empty_piece. replace (_ <? size) with false by lia. replace (size <=? _) with false by lia. step_with idtac.
    rewrite (ca_number _ _ _ _ _ _ _ _ _ Hc), next_number. by repeat step_with idtac.
Qed.
(** A further piece continues it. *)
Lemma feed_more meta0 size d0 : partial a = Some (mk_Partial ref meta0 size n d0) -> more = true ->
  differs (mk_Partial ref meta0 size n d0) ref meta = false -> size <= l_object_bytes l -> size <= u32_max ->
  str_len (d0 ++ d) < size ->
  feed m e l a = (Ok (mk_Frame (with_commands m (map StatusCommand sts)) [continue_status m r ref]),
                  mk_Assembly (Some (mk_Partial ref meta0 size (n + 1) (d0 ++ d))) (a_statuses a ++ read_statuses sts)).
Proof.
  intros Hp Hmore Hdiff Hl Hu Hlt. pose proof (str_len_nonneg (d0 ++ d)). rewrite exchange_feed by (rewrite Hp; intros p [= <-]; by rewrite (ca_number _ _ _ _ _ _ _ _ _ Hc)).
  rewrite (exchange_one m e ref n meta d more sts r i a (mk_Local (mk_Assembly (Some (mk_Partial ref meta0 size (n + 1) (d0 ++ d)))
    (a_statuses a ++ read_statuses sts)) [] true [continue_status m r ref]) []); [|done| |by left].
  - simpl. by rewrite app_nil_r.
  - rewrite (feed_item_object _ _ eq_refl Hp) by done. unfold continue_object. rewrite Hdiff. step_with idtac. simpl p_data. rewrite <-str_len_app.
    rewrite (proj2 (checked_u64_some _ _)) by (split; [done|unfold in_u64, u64_max, u32_max in *; lia]). step_with idtac.
    rewrite is_empty_piece, (ca_more _ _ _ _ _ _ _ _ _ Hc), Hmore. simpl p_size. replace (size <? _) with false by lia.
    replace (l_object_bytes l <? _) with false by lia. replace (_ =? size) with false by lia. do 2 step_with idtac.
    rewrite (ca_number _ _ _ _ _ _ _ _ _ Hc), next_number. by repeat step_with idtac.
Qed.
(** The last piece completes it. *)
Lemma feed_last meta0 size d0 : partial a = Some (mk_Partial ref meta0 size n d0) -> more = false ->
  differs (mk_Partial ref meta0 size n d0) ref meta = false -> size <= l_object_bytes l -> size <= u32_max ->
  str_len (d0 ++ d) = size -> check_decoded l r meta0 (d0 ++ d) = Ok () ->
  feed m e l a = (Ok (mk_Frame (with_commands m (map StatusCommand sts ++ [ResultsCommand (mk_Results (r_id r) (r_message_ref r)
                    (r_command_ref r) (r_command r) None [set_item i (Some (d0 ++ d)) meta0 false])])) []),
                  mk_Assembly None (a_statuses a ++ read_statuses sts)).
Proof.
  intros Hp Hmore Hdiff Hl Hu Hlen Hdec. pose proof (str_len_nonneg (d0 ++ d)).
  rewrite exchange_feed by (rewrite Hp; intros p [= <-]; by rewrite (ca_number _ _ _ _ _ _ _ _ _ Hc)).
  rewrite (exchange_one m e ref n meta d more sts r i a (mk_Local (mk_Assembly None
    (a_statuses a ++ read_statuses sts)) [] true []) [set_item i (Some (d0 ++ d)) meta0 false]); [done|done| |by left].
  rewrite (feed_item_object _ _ eq_refl Hp) by done. unfold continue_object. rewrite Hdiff. step_with idtac. simpl p_data. rewrite <-str_len_app.
  rewrite (proj2 (checked_u64_some _ _)) by (split; [done|unfold in_u64, u64_max, u32_max in *; lia]). step_with idtac.
  rewrite is_empty_piece, (ca_more _ _ _ _ _ _ _ _ _ Hc), Hmore. simpl p_size. simpl p_meta. rewrite Hlen. replace (size <? _) with false by lia.
  replace (l_object_bytes l <? _) with false by lia. do 2 step_with idtac.
  rewrite (ca_number _ _ _ _ _ _ _ _ _ Hc), next_number. do 3 step_with idtac. step_with idtac. rewrite Z.eqb_refl. step_with idtac.
  rewrite Hdec. by repeat step_with idtac.
Qed.
End Step.

(** *** All messages of a value *)
(** Exchanges one after the other, each with what was asked for before it and whether it was stopped. *)
Fixpoint feed_all (ms : list (Message * Expected * bool)) (a : Assembly) : fres (list Frame) * Assembly :=
  match ms with
  | [] => (Ok [], a)
  | (m, e, stopped) :: ms =>
      match feed_exchange m e l stopped a with
      | (Ok f, a) => match feed_all ms a with (Ok fs, a) => (Ok (f :: fs), a) | r => r end
      | (Err x, a) => (Err x, a)
      | (Panic, a) => (Panic, a)
      end
  end.
(** A message of the device, and what the server had asked for when it came. *)
Record Piece : Type := mk_Piece {
  pc_message : Message; pc_expected : Expected; pc_statuses : list Status; pc_results : Results; pc_item : Item; pc_meta : Meta
}.
Definition received (x : Piece) : Message * Expected * bool := (pc_message x, pc_expected x, false).
Lemma feed_received x a : feed_exchange (pc_message x) (pc_expected x) l false a = feed (pc_message x) (pc_expected x) l a.
Proof. done. Qed.
Record sends (ref : Reference) (n : Z) (d : rstr) (more : bool) (x : Piece) : Prop := {
  se_carries : carries ref n (pc_meta x) d more (pc_message x) (pc_statuses x) (pc_results x) (pc_item x);
  se_requested : bs_mem ref (references (pc_expected x)) = true;
  se_number : n + 1 <= u32_max;
  se_data : d <> []
}.
(** A later piece declares no size and contradicts neither format nor type; the reads go on. *)
Record goes_on (ref : Reference) (meta0 : Meta) (x : Piece) : Prop := {
  go_same : forall size n d, differs (mk_Partial ref meta0 size n d) ref (pc_meta x) = false;
  go_statuses : forall st, st ∈ pc_statuses x -> get_status st = true -> s_code st ∈ [200; 206; 214]
}.
Inductive continues (ref : Reference) (meta0 : Meta) : Z -> list rstr -> list Piece -> Prop :=
| continues_last n d x : sends ref n d false x -> goes_on ref meta0 x -> continues ref meta0 n [d] [x]
| continues_more n d ds x xs : sends ref n d true x -> goes_on ref meta0 x -> continues ref meta0 (n + 1) ds xs ->
    continues ref meta0 n (d :: ds) (x :: xs).
Definition interim (ref : Reference) (x : Piece) : Frame :=
  mk_Frame (with_commands (pc_message x) (map StatusCommand (pc_statuses x))) [continue_status (pc_message x) (pc_results x) ref].
Definition final (data : rstr) (meta : Meta) (x : Piece) : Frame :=
  let r := pc_results x in
  mk_Frame (with_commands (pc_message x) (map StatusCommand (pc_statuses x) ++ [ResultsCommand (mk_Results (r_id r)
    (r_message_ref r) (r_command_ref r) (r_command r) None [set_item (pc_item x) (Some data) meta false])])) [].
Lemma accepted_goes_on ref meta0 x sts : goes_on ref meta0 x -> read_accepted sts ref = true ->
  read_accepted (sts ++ read_statuses (pc_statuses x)) ref = true.
Proof.
  intros Hg Ha. apply read_accepted_app; [done|]. intros m c uris code (st & [= <- <- <- <-] & Hin)%elem_of_map.
  apply list_elem_of_In, filter_In in Hin as [Hin Hgs]. apply (go_statuses _ _ _ Hg); [by apply list_elem_of_In|done].
Qed.
(** A whole value decodes: only [b64] values are checked. *)
Definition decodable (meta : Meta) (data : rstr) : Prop := forall r, check_decoded l r meta data = Ok ().
Lemma continue_all ref meta0 data ds n xs d0 a : continues ref meta0 n ds xs -> data = d0 ++ concat ds ->
  str_len data <= l_object_bytes l -> str_len data <= u32_max -> decodable meta0 data ->
  partial a = Some (mk_Partial ref meta0 (str_len data) n d0) -> read_accepted (a_statuses a) ref = true ->
  exists init x a', xs = init ++ [x] /\
    feed_all (map received xs) a = (Ok (map (interim ref) init ++ [final data meta0 x]), a') /\ partial a' = None.
Proof.
  intros Hxs. revert d0 a. induction Hxs as [n d x Hs Hg|n d ds x xs Hs Hg Hxs IH]; intros d0 a -> Hl Hu Hdec Hp Ha;
    destruct Hs as [Hc Hreq Hn Hd]; pose proof (accepted_goes_on _ _ _ _ Hg Ha) as Ha'.
  - simpl in *. rewrite app_nil_r in *. exists [], x, (mk_Assembly None (a_statuses a ++ read_statuses (pc_statuses x))). split; [done|]. split; [|done]. simpl.
    rewrite feed_received. by rewrite (feed_last ref _ _ _ _ _ a n (pc_meta x) d false Hc Hreq Hn Hd Ha' _ _ d0 Hp eq_refl (go_same _ _ _ Hg _ _ _) Hl Hu eq_refl (Hdec _)).
  - simpl concat in *. destruct (IH (d0 ++ d) (mk_Assembly (Some (mk_Partial ref meta0 (str_len (d0 ++ d ++ concat ds)) (n + 1) (d0 ++ d)))
      (a_statuses a ++ read_statuses (pc_statuses x)))) as (init & y & a' & -> & Hf & Hn'); [by rewrite app_assoc|done..|].
    exists (x :: init), y, a'. split; [done|]. split; [|done]. simpl.
    rewrite feed_received, (feed_more ref _ _ _ _ _ a n (pc_meta x) d true Hc Hreq Hn Hd Ha' _ _ d0 Hp eq_refl (go_same _ _ _ Hg _ _ _) Hl Hu).
    + by rewrite Hf.
    + rewrite app_assoc, (str_len_app (d0 ++ d)). assert (0 < str_len (concat ds)); [|lia].
      assert (concat ds <> []) as Hne.
      { destruct Hxs as [? e ? [_ _ _ He]|? e ? ? ? [_ _ _ He]]; by destruct e. }
      pose proof (str_len_nonneg (concat ds)). assert (str_len (concat ds) <> 0) by (by rewrite str_len_zero). lia.
Qed.

Lemma feed_all_delivered ms sent a fs a' : tracked l sent a -> feed_all ms a = (Ok fs, a') ->
  tracked l (rev (map (fun x => x.1.1) ms) ++ sent) a' /\
  forall k f r i, fs !! k = Some f -> ResultsCommand r ∈ commands (f_message f) -> i ∈ r_items r ->
    exists e, (ms !! k ≫= fun x => Some x.1.2) = Some e /\
      value_delivered l e (rev (map (fun x => x.1.1) (take (S k) ms)) ++ sent) r i.
Proof.
  revert sent a fs. induction ms as [|[[m e] stopped] ms IH]; intros sent a fs Ht H; simpl in H.
  - injection H as <- <-. split; [done|]. by intros k f r i Hf.
  - destruct (feed_exchange m e l stopped a) as [[f| |] a1] eqn:Ef; try done. destruct (feed_all ms a1) as [[gs| |] a2] eqn:Eg; try done.
    injection H as <- <-. destruct (feed_exchange_ok _ _ sent _ _ _ _ _ Ht Ef) as [Ht1 Hv]. destruct (IH _ _ _ Ht1 Eg) as [Ht2 Hall]. simpl.
    rewrite <-app_assoc. split; [done|]. intros [|k] g r i Hg Hr Hi; simpl in Hg |- *.
    + injection Hg as <-. exists e. split; [done|]. by apply Hv.
    + rewrite <-app_assoc. by apply (Hall k g).
Qed.
(** C16: Whatever the device sends, and whether or not exchanges are stopped, every value in the output of
    an exchange answers a requested read and is what the device sent: one complete item of that message,
    of the length it declares, or the pieces from consecutive messages up to that one, one per message,
    in order, adding up to exactly the length that the first of them declared. *)
Theorem assembled_values_sent ms fs a' : feed_all ms Assembly_default = (Ok fs, a') ->
  (forall k f r i, fs !! k = Some f -> ResultsCommand r ∈ commands (f_message f) -> i ∈ r_items r ->
    exists e, (ms !! k ≫= fun x => Some x.1.2) = Some e /\
      value_delivered l e (rev (map (fun x => x.1.1) (take (S k) ms))) r i) /\
  forall p, partial a' = Some p -> opened l (rev (map (fun x => x.1.1) ms)) (p_reference p) (p_size p) (p_data p).
Proof.
  intros H. destruct (feed_all_delivered ms [] Assembly_default fs a' ltac:(by intros ?) H) as [Ht Hv]. rewrite app_nil_r in Ht. split.
  - intros k f r i Hf Hr Hi. destruct (Hv k f r i Hf Hr Hi) as (e & He & Hd). rewrite app_nil_r in Hd. by exists e.
  - intros p Hp. exact (proj1 (Ht p Hp)).
Qed.

(** C23: A device that returns a value in two or more pieces, one per message, the first with the length
    of the whole, gets it through: every message but the last is acknowledged by status 213 and shows
    no value, the last delivers the whole value with the object_metadata of the first, and nothing stays open. *)
Theorem object_reassembled ref n meta data d ds x xs a :
  partial a = None -> data = d ++ concat ds ->
  sends ref n d true x -> pc_meta x = meta -> m_size meta = Some (str_len data) ->
  read_accepted (a_statuses a ++ read_statuses (pc_statuses x)) ref = true ->
  continues ref meta (n + 1) ds xs ->
  str_len data <= l_object_bytes l -> str_len data <= u32_max -> decodable meta data ->
  exists init last a', x :: xs = init ++ [last] /\
    feed_all (map received (x :: xs)) a = (Ok (map (interim ref) init ++ [final data meta last]), a') /\ partial a' = None.
Proof.
  intros Hp -> Hs <- Hsize Ha Hxs Hl Hu Hdec. destruct Hs as [Hc Hreq Hn Hd].
  destruct (continue_all ref (pc_meta x) _ ds (n + 1) xs d (mk_Assembly (Some (mk_Partial ref (pc_meta x) (str_len (d ++ concat ds)) (n + 1) d))
      (a_statuses a ++ read_statuses (pc_statuses x))) Hxs eq_refl) as (init & y & a' & -> & Hf & Hn'); try done.
  exists (x :: init), y, a'. split; [done|]. split; [|done]. simpl.
  rewrite feed_received, (feed_first ref _ _ _ _ _ a n (pc_meta x) d true Hc Hreq Hn Hd Ha _ Hp eq_refl Hsize Hl).
  - simpl in Hf. by rewrite Hf.
  - rewrite str_len_app. assert (concat ds <> []) as Hne by (destruct Hxs as [? e ? [_ _ _ He]|? e ? ? ? [_ _ _ He]]; by destruct e).
    pose proof (str_len_nonneg (concat ds)). assert (str_len (concat ds) <> 0) by (by rewrite str_len_zero). lia.
Qed.
End Pieces.

(** A device's answer of a value of five characters in three messages. *)
Module LargeObjectExample.
#[local] Instance no_base64 : Base64Standard := {| standard_decode := fun _ => None |}.
Definition limits : CodecLimits := CodecLimits_default.
Definition place : Reference := mk_Reference 1 2 (lit "./A").
Definition asked (n : Z) : Expected := mk_Expected n [] [] [] [place] [] 0 0.
Definition text_of (size : option Z) : Meta := mk_Meta (match size with Some _ => Some (lit "chr") | None => None end) None None None size.
Definition item (size : option Z) (d : rstr) (more : bool) : Item := mk_Item more (Some (lit "./A")) None (Some (text_of size)) (Some d).
Definition values (i : Item) : Results := mk_Results 3 (Some 1) (Some 2) None None [i].
Definition accepted (n code : Z) : Status := mk_Status 2 1 2 N_Get [lit "./A"] [] code [] None None.
Definition message (n : Z) (sts : list Status) (i : Item) : Message :=
  mk_Message (mk_Header 7 n (lit "urn:device") (lit "https://mdm.example") None None)
    (map StatusCommand sts ++ [ResultsCommand (values i)]) false.
Definition piece (n : Z) (sts : list Status) (size : option Z) (d : rstr) (more : bool) : Piece :=
  let i := item size d more in mk_Piece (message n sts i) (asked n) sts (values i) i (text_of size).
Definition first : Piece := piece 4 [accepted 4 200] (Some 5) (lit "ab") true.
Definition rest : list Piece := [piece 5 [] None (lit "cd") true; piece 6 [] None (lit "e") false].
Definition frames : list Frame := get [] (feed_all limits (map received (first :: rest)) Assembly_default).1.
Definition values_in (c : Command) : list (option rstr) := match c with ResultsCommand r => map i_data (r_items r) | _ => [] end.
(** The frame of the last message has the value. *)
Definition last_value : list (option rstr) := match last frames with Some f => concat (map values_in (commands (f_message f))) | None => [] end.
Lemma sends_piece n sts size d more : n <? u32_max = true -> d <> [] -> sends place n d more (piece n sts size d more).
Proof. intros Hn%Z.ltb_lt Hd. split; [|reflexivity|lia|done]. split; try reflexivity. simpl. by destruct size. Qed.
Lemma goes_on_piece meta n d more : goes_on place meta (piece n [] None d more).
Proof. split; [by intros|]. by intros st ?%elem_of_nil. Qed.
Lemma rest_continues : continues place (text_of (Some 5)) 5 [lit "cd"; lit "e"] rest.
Proof.
  apply continues_more; [by apply sends_piece|apply goes_on_piece|].
  apply continues_last; [by apply sends_piece|apply goes_on_piece].
Qed.
Lemma object_reassembled_witness : (exists init last a', first :: rest = init ++ [last] /\
    feed_all limits (map received (first :: rest)) Assembly_default =
      (Ok (map (interim place) init ++ [final (lit "abcde") (text_of (Some 5)) last]), a') /\ partial a' = None) /\
  last_value = [Some (lit "abcde")].
Proof.
  split; [|by vm_compute].
  apply (object_reassembled limits place 4 (text_of (Some 5)) (lit "abcde") (lit "ab") [lit "cd"; lit "e"] first rest Assembly_default);
    [done|done|by apply sends_piece|done|done|by vm_compute|exact rest_continues|by vm_compute..|].
  intros r. reflexivity.
Defined.
Lemma assembled_values_sent_witness : exists f r i, frames !! 2%nat = Some f /\ ResultsCommand r ∈ commands (f_message f) /\ i ∈ r_items r /\
  exists e, value_delivered limits e (map pc_message (rev (first :: rest))) r i.
Proof.
  destruct (assembled_values_sent limits (map received (first :: rest)) frames (mk_Assembly None [(1, 2, [lit "./A"], 200)]))
    as [Hv _]; [by vm_compute|].
  eexists _, _, _. split; [by vm_compute|]. split; [apply list_elem_of_here|]. split; [apply list_elem_of_here|].
  edestruct (Hv 2%nat) as (e & _ & He); [by vm_compute|apply list_elem_of_here|apply list_elem_of_here|]. exists e. exact He.
Defined.
End LargeObjectExample.
