(* ===== verification/ManagementSession.v ===== *)
(** * Management sessions of a Windows device

    [windows-channel]'s [management.rs], [management/session.rs], [transcript.rs] and the digest and
    coordinates of [protection.rs], and [manage_on] of [execution-service]: a session is a row and its
    stored messages, encrypted; every request reads them again to know what was asked and which object
    is open.  One registration and one session at a time; the rows of other sessions and audit facts
    are outside, and what the tables of commands and collections answer is a record of functions. *)
From S2P Require Import Prelude Ordered Text External Xml Declared SyncmlModel SyncmlCodec SyncmlCorrelation.
From S2P Require Import NativeProtection LargeObject.

(** ** Code outside the repository *)
(** [md5], and the encoder of the standard base64 alphabet. *)
Class Md5 : Type := { md5 : bytes -> bytes }.
Class StandardEncoder : Type := { standard_encode : bytes -> rstr }.
(** [ProtectionContext::new(tenant, owner, purpose, 1)] and [derive], and the text of a message's
    coordinates ([serde_json::to_string]). *)
Class SessionContext `{UC : UuidCrate} `{RC : RequestContext} `{DP : DataProtection} : Type := {
  derive_context : TenantId -> rstr -> rstr -> Z -> option DerivedAad;
  binding_to_string : Uuid * Z * Uuid * rstr * Z -> option rstr
}.

Inductive SessionError : Type := Se_Malformed | Se_Conflict | Se_Unauthorized | Se_Protocol.
#[export] Instance SessionError_eq_dec : EqDecision SessionError.
Proof. solve_decision. Defined.
Notation sres := (res SessionError).
Definition or_else {E A} (r : res E A) (e : SessionError) : sres A :=
  match r with Ok a => Ok a | Err _ => Err e | Panic => Panic end.

(** ** Stored rows *)
Inductive PackageState : Type := Pk_Partial | Pk_Complete | Pk_Aborted.
#[export] Instance PackageState_eq_dec : EqDecision PackageState.
Proof. solve_decision. Defined.
Inductive SessionState : Type := St_Challenge | St_Collecting | St_Complete | St_Superseded.
#[export] Instance SessionState_eq_dec : EqDecision SessionState.
Proof. solve_decision. Defined.
Record MessageRow : Type := mk_MessageRow {
  mr_id : Z; mr_digest : rstr; mr_response : bytes; mr_request : bytes; mr_package : PackageState; mr_authenticated : bool
}.
(** What the registration knows of the two passwords. *)
Record Secrets : Type := mk_Secrets { client_password : rstr; server_password : rstr }.

(** ** Limits the peer declares ([transcript.rs]) *)
Definition with_peer_limits (l : CodecLimits) (syncml object : Z) : CodecLimits :=
  let l := with_syncml_bytes l syncml in
  mk_CodecLimits (l_discovery_bytes l) (l_xcep_bytes l) (l_wstep_bytes l) (l_syncml_bytes l) (l_depth l) (l_elements l)
    (l_events l) (l_attributes_per_element l) (l_attributes l) (l_namespace_bindings l) (l_session_messages l)
    (l_session_commands l) (l_session_items l) (l_commands l) (l_items l) (l_identifier_bytes l) (l_uri_bytes l)
    (l_field_bytes l) object (l_decoded_object_bytes l) (l_binary_bytes l).
Definition negotiate (l : CodecLimits) (m : Message) : CodecLimits :=
  match h_meta (header m) with
  | None => l
  | Some meta =>
      with_peer_limits l
        (match m_max_message_size meta with Some n => Z.min (l_syncml_bytes CodecLimits_default) n | None => l_syncml_bytes l end)
        (match m_max_object_size meta with Some n => Z.min (l_object_bytes CodecLimits_default) n | None => l_object_bytes l end)
  end.
Record History : Type := mk_History { hi_expected : option Expected; hi_assembly : Assembly; hi_limits : CodecLimits }.
Definition History_initial (raw : Message) : History := mk_History None Assembly_default (negotiate CodecLimits_default raw).

(** ** Kinds of commands *)
Definition is_status_or_results (c : Command) : bool :=
  match c with StatusCommand _ | ResultsCommand _ => true | _ => false end.
Definition is_alert_or_devinfo (c : Command) : bool := match c with AlertCommand _ _ | DevInfo _ _ => true | _ => false end.
Definition is_results (c : Command) : bool := match c with ResultsCommand _ => true | _ => false end.
Definition is_abort (c : Command) : bool := match c with AlertCommand _ SessionAbort => true | _ => false end.
Definition header_status (c : Command) : option Status :=
  match c with StatusCommand s => if bool_decide (s_command s = N_SyncHdr) then Some s else None | _ => None end.
Definition header_statuses (m : Message) : list Status := omap header_status (commands m).
Definition without (p : Command -> bool) (m : Message) : Message :=
  with_commands m (List.filter (fun c => negb (p c)) (commands m)).
Definition with_final (m : Message) (final : bool) : Message := mk_Message (header m) (commands m) final.
(** The values that are complete in their message. *)
Definition complete_values (c : Command) : Command :=
  match c with
  | ResultsCommand r => ResultsCommand (mk_Results (r_id r) (r_message_ref r) (r_command_ref r) (r_command r) (r_meta r)
                          (List.filter (fun i => negb (more_data i)) (r_items r)))
  | _ => c
  end.
(** A peer that answers a command with status 214 ends the exchange. *)
Definition stops (co : Correlated) : bool :=
  existsb (fun s => negb (cs_command_id s =? 0) && (cs_code s =? 214)) (co_statuses co).
(** *** Ranges of a command of the server ([windows-mdm]'s [receipt.rs]) *)
Inductive FrameContinuation : Type := Frame_Wait | Frame_Continue | Frame_Abort.
Definition has_terminal (status : option Z) : bool := match status with Some s => terminal_status s | None => false end.
Definition frame_continuation (status : option Z) (admitted : bool) (end_ total : Z) : FrameContinuation :=
  if has_terminal status && (end_ <? total) then Frame_Abort
  else if (end_ =? total) || negb (bool_decide (status = Some 213)) then Frame_Wait
  else if admitted then Frame_Continue else Frame_Abort.
(** The refusal of an object: a status or an alert, and the end of the session. *)
Definition interruption (raw : Message) (fault : Fault) : list Command :=
  match fault with
  | Fault_Size command => [StatusCommand (mk_Status 0 (h_message_id (header raw)) command N_Results [] [] 424 [] None None);
                           AlertCommand 0 SessionAbort]
  | Fault_Interrupted reference =>
      [AlertCommand 0 (EndOfData [mk_Item false (Some (ref_uri reference)) None None None]); AlertCommand 0 SessionAbort]
  | Fault_Invalid => []
  end.

Section Session.
Context `{QX : QuickXml} `{UC : UuidCrate} `{UT : !UuidText} `{B64 : Base64Standard} `{MD : Md5} `{SE : StandardEncoder}
  `{AG : AesGcm} `{HM : Hmac} `{DP : DataProtection} `{RC : RequestContext} `{SC : !SessionContext}.

(** ** The rows of one session *)
Record SessionRow : Type := mk_SessionRow {
  sr_generation : Z; sr_credential : Uuid; sr_state : SessionState; sr_last_message : Z; sr_client_authenticated : bool;
  sr_nonce : bytes; sr_expires_at : Z; sr_login_user : bool
}.
Record Store : Type := mk_Store { st_session : option SessionRow; st_messages : list MessageRow }.
(** The authenticated device, the session and the keys a request is served with. *)
Record Principal : Type := mk_Principal {
  pr_tenant : TenantId; pr_registration : Uuid; pr_generation : Z; pr_credential : Uuid
}.

(** ** Encryption and digests ([protection.rs]) *)
Definition native_aad (p : Principal) (purpose : rstr) (session id : Z) : sres DerivedAad :=
  owner ← ok_or (binding_to_string (pr_registration p, pr_generation p, pr_credential p, int_to_string session, id)) Se_Malformed;
  ok_or (derive_context (pr_tenant p) owner purpose 1) Se_Malformed.
Definition INCOMING : rstr := lit "windows.management.incoming".
Definition RESPONSE : rstr := lit "windows.management.response".
Definition message_digest (key : Protector) (p : Principal) (raw : Message) (b : bytes) : sres rstr :=
  aad ← native_aad p INCOMING (h_session_id (header raw)) (h_message_id (header raw));
  tag ← or_else (mac key b aad) Se_Protocol;
  Ok (hex tag).
Definition sealed_part (key : Protector) (random : option bytes) (p : Principal) (purpose : rstr) (session id : Z) (b : bytes) : sres bytes :=
  aad ← native_aad p purpose session id; or_else (seal_bytes key random b aad) Se_Protocol.
Definition opened_part (key : Protector) (p : Principal) (purpose : rstr) (session id : Z) (cipher : bytes) : sres bytes :=
  aad ← native_aad p purpose session id; or_else (open_bytes key cipher aad) Se_Protocol.
Definition digest (name password : rstr) (nonce : bytes) : rstr :=
  let inner := standard_encode (md5 (str_bytes (name ++ lit ":" ++ password))) in
  standard_encode (md5 (str_bytes inner ++ [58] ++ nonce)).

(** ** Reading the transcript again ([transcript.rs]) *)
(** The checks on a stored message and the session it belongs to. *)
Definition stored_in (id session : Z) (m : Message) : sres () :=
  reject (negb (h_message_id (header m) =? id) || negb (h_session_id (header m) =? session)) Se_Protocol.
Definition load_row (key : Protector) (p : Principal) (raw : Message) (h : History) (e : Z * MessageRow) : sres History :=
  let '(index, row) := e in
  let id := mr_id row in
  let session := h_session_id (header raw) in
  _ ← reject (negb (id =? index + 1)) Se_Protocol;
  plain ← opened_part key p INCOMING session id (mr_request row);
  incoming ← or_else (decode CodecLimits_default plain) Se_Protocol;
  _ ← stored_in id session incoming;
  plain ← opened_part key p RESPONSE session id (mr_response row);
  r ← or_else (decode_request plain CodecLimits_default) Se_Protocol;
  let '(outgoing, sent) := r in
  _ ← stored_in id session outgoing;
  _ ← reject (negb (bool_decide (h_source (header incoming) = h_source (header raw)))
              || negb (bool_decide (h_target (header incoming) = h_target (header raw)))
              || negb (bool_decide (h_target (header outgoing) = h_source (header raw)))
              || negb (bool_decide (h_source (header outgoing) = h_target (header raw)))) Se_Protocol;
  assembly ← match hi_expected h with
             | Some expected =>
                 if bool_decide (mr_package row = Pk_Aborted) then Ok (hi_assembly h)
                 else let (r, a) := feed incoming expected CodecLimits_default (hi_assembly h) in
                      _ ← or_else r Se_Protocol; Ok a
             | None => Ok (hi_assembly h)
             end;
  let limits := negotiate (hi_limits h) incoming in
  expected ← or_else match hi_expected h with
                     | Some expected => record_sent CodecLimits_default expected sent
                     | None => Expected_new sent (h_message_id (header raw)) CodecLimits_default
                     end Se_Protocol;
  Ok (mk_History (Some expected) assembly limits).
Definition load (key : Protector) (p : Principal) (rows : list MessageRow) (raw : Message) : sres History :=
  let rows := take (Z.to_nat (l_session_messages CodecLimits_default + 1)) (sort_by mr_id rows) in
  _ ← reject ((l_session_messages CodecLimits_default <? zlen rows) || negb (zlen rows + 1 =? h_message_id (header raw))) Se_Protocol;
  h ← res_for (load_row key p raw) (zip (map Z.of_nat (seq 0 (length rows))) rows)
        (mk_History None Assembly_default CodecLimits_default);
  Ok (mk_History (hi_expected h) (hi_assembly h) (negotiate (hi_limits h) raw)).

(** ** Which message a request may be ([management.rs]) *)
Inductive Decision : Type :=
| Limited (delay : Z) | Replay (reply : bytes) (package : PackageState) | Continue (row : option SessionRow).
Definition verify_session_identity (p : Principal) (now : Z) (row : SessionRow) : sres () :=
  reject (negb (now <? sr_expires_at row) || negb (sr_generation row =? pr_generation p)
          || negb (bool_decide (sr_credential row = pr_credential p))) Se_Unauthorized.
(** [delay] is the ingress' answer to an authenticated request: [Some] to slow it down. *)
Definition session_decision (key : Protector) (p : Principal) (now : Z) (delay : option Z) (s : Store) (raw : Message)
    (digest : rstr) : sres Decision :=
  let id := h_message_id (header raw) in
  match st_session s with
  | Some row =>
      _ ← verify_session_identity p now row;
      match (if id <=? sr_last_message row then List.find (fun m => mr_id m =? id) (st_messages s) else None) with
      | Some old =>
          _ ← reject (negb (bool_decide (mr_digest old = digest))) Se_Conflict;
          plain ← opened_part key p RESPONSE (h_session_id (header raw)) id (mr_response old);
          match delay with
          | Some delay => if mr_authenticated old then Ok (Limited delay) else Ok (Replay plain (mr_package old))
          | None => Ok (Replay plain (mr_package old))
          end
      | None =>
          _ ← reject (negb (bool_decide (sr_state row ∈ [St_Challenge; St_Collecting])) || negb (sr_last_message row + 1 =? id)
                      || (l_session_messages CodecLimits_default <? id)) Se_Conflict;
          Ok (Continue (Some row))
      end
  | None =>
      _ ← reject (negb (id =? 1) || existsb is_status_or_results (commands raw)) Se_Conflict;
      Ok (Continue None)
  end.

(** ** Authentication of the two sides *)
Definition authenticate_client (p : Principal) (secrets : Secrets) (credential : option Credential) (before : bool) : sres bool :=
  match credential with
  | Some c =>
      _ ← reject (negb (bool_decide (m_media_type (cr_meta c) = Some (lit "syncml:auth-basic")))
                  || match m_format (cr_meta c) with Some f => negb (bool_decide (f = lit "b64")) | None => false end) Se_Unauthorized;
      _ ← reject (negb (bool_decide (cr_data c = standard_encode (str_bytes
            (uuid_to_string (pr_registration p) ++ lit ":" ++ client_password secrets))))) Se_Unauthorized;
      Ok true
  | None => Ok before
  end.
Record ServerAuthentication : Type := mk_ServerAuthentication { sv_nonce : bytes; sv_next_nonce : bytes; sv_authenticated : bool }.
(** The device's answer to the server's credential, in the status of the header. *)
Definition answered_statuses (collecting : bool) (m : Message) : Message :=
  mk_Message (header m) (List.filter (fun c => match c with
    | StatusCommand s => negb collecting || bool_decide (s_command s = N_SyncHdr)
    | _ => false
    end) (commands m)) true.
Definition server_accepted (collecting : bool) (code : Z) : sres bool :=
  if code =? 212 then Ok true
  else if (code =? 200) && collecting then Ok true
  else if (code =? 401) || (code =? 407) then Ok false
  else Err Se_Unauthorized.
(** A challenge brings the next nonce; without acceptance it is used at once. *)
Definition settle_nonce (nonce : bytes) (status : Status) (authenticated : bool) : sres ServerAuthentication :=
  match s_challenge status with
  | Some challenge =>
      _ ← reject (negb (bool_decide (ch_media_type challenge = lit "syncml:auth-md5"))) Se_Unauthorized;
      text ← ok_or (ch_nonce challenge) Se_Malformed;
      next ← ok_or (standard_decode text) Se_Malformed;
      _ ← reject (negb ((16 <=? zlen next) && (zlen next <=? 64)) || bool_decide (next = nonce)) Se_Malformed;
      Ok (mk_ServerAuthentication (if authenticated then nonce else next) next authenticated)
  | None => _ ← reject (negb authenticated) Se_Unauthorized; Ok (mk_ServerAuthentication nonce nonce authenticated)
  end.
Definition authenticate_server (stored : option SessionRow) (history : option Expected) (m : Message) (nonce : bytes) :
    sres ServerAuthentication :=
  match stored with
  | None => Ok (mk_ServerAuthentication nonce nonce false)
  | Some row =>
      expected ← ok_or history Se_Conflict;
      let collecting := bool_decide (sr_state row = St_Collecting) in
      _ ← or_else (correlate expected (answered_statuses collecting m) CodecLimits_default) Se_Conflict;
      status ← ok_or (head (header_statuses m)) Se_Conflict;
      authenticated ← server_accepted collecting (s_code status);
      settle_nonce nonce status authenticated
  end.
Definition advertised_nonce (s : ServerAuthentication) (m : Message) : option bytes :=
  if sv_authenticated s && existsb (fun s => given (s_challenge s)) (header_statuses m)
  then Some (sv_next_nonce s) else None.
(** The opening commands, which a session has once and before anything else. *)
Definition opening_commands (init : list Command) : bool :=
  match init with
  | [AlertCommand _ _; DevInfo _ _]
  | [AlertCommand _ ClientInitiated; AlertCommand _ (LoginAlert _ _); DevInfo _ _]
  | [AlertCommand _ (LoginAlert _ _); AlertCommand _ ClientInitiated; DevInfo _ _] => true
  | _ => false
  end.
Definition later_command (c : Command) : bool :=
  match c with
  | AlertCommand _ (DeclaredConfiguration _ _) | AlertCommand _ (Generic _) | AlertCommand _ SessionAbort
  | AlertCommand _ MoreMessages | AlertCommand _ (EndOfData _) => true
  | _ => false
  end.
Definition initialization (m : Message) (authenticated_before : bool) : sres (list Command) :=
  let initial := List.filter (fun c => negb (is_status_or_results c)) (commands m) in
  let init := List.filter (fun c => negb (initialization_companion c)) initial in
  _ ← reject (negb authenticated_before && negb (opening_commands init)
              || authenticated_before && existsb (fun c => negb (later_command c)) initial) Se_Malformed;
  Ok initial.

(** ** The reply's envelope *)
Definition acknowledge (m : Message) (id : Z) (c : Command) : sres Command :=
  kind ← match c with AlertCommand _ _ => Ok N_Alert | DevInfo _ _ => Ok N_Replace | _ => Err Se_Malformed end;
  Ok (StatusCommand (mk_Status id (h_message_id (header m)) (command_id c) kind [] []
        (match c with AlertCommand _ (Generic _) => 415 | _ => 200 end) [] None None)).
Definition management_response (provider : rstr) (m : Message) (secrets : Secrets) (authenticated : bool) (nonce : bytes)
    (initial : list Command) : sres Message :=
  let first := StatusCommand (mk_Status 1 (h_message_id (header m)) 0 N_SyncHdr [] [] (if authenticated then 212 else 401) []
                 (if authenticated then None else Some (mk_Challenge (lit "syncml:auth-basic") None)) None) in
  rest ← (if authenticated then
            res_map (fun e => acknowledge m (Z.of_nat e.1 + 2) e.2) (SyncmlCorrelation.enumerate initial)
          else Ok []);
  Ok (mk_Message
        (mk_Header (h_session_id (header m)) (h_message_id (header m)) (h_source (header m)) (h_target (header m))
           (Some (mk_Credential (mk_Meta (Some (lit "b64")) (Some (lit "syncml:auth-md5")) None None None)
                    (digest provider (server_password secrets) nonce))) None)
        (first :: rest) true).

(** ** The device's message ([prepare]) *)
(** What the session makes of an authenticated message. *)
Record Exchange : Type := mk_Exchange {
  ex_stopped : bool; ex_input : Message; ex_controls : list Command; ex_continuing : list Reference;
  ex_package : PackageState; ex_assembly : Assembly
}.
(** The reads whose values go on in a later message. *)
Definition continued_reads (expected : Expected) (acc : list Reference) (c : Command) : sres (list Reference) :=
  match c with
  | ResultsCommand r =>
      more ← res_map (fun i =>
        uri ← ok_or (i_source i) Se_Malformed;
        or_else (get_reference expected (or_one (r_message_ref r)) (or_one (r_command_ref r)) uri) Se_Conflict)
        (List.filter more_data (r_items r));
      Ok (acc ++ more)
  | _ => Ok acc
  end.
(** The assembled message, or the refusal of the object. *)
Definition assemble_input (raw input : Message) (expected : Expected) (stopped : bool) (package : PackageState) (a : Assembly) :
    sres (Message * list Command * PackageState) * Assembly :=
  match feed_exchange input expected CodecLimits_default stopped a with
  | (Ok f, a) => (Ok (f_message f, controls f, if given (pending a) then Pk_Partial else package), a)
  | (Err Fault_Invalid, a) => (Err Se_Conflict, a)
  | (Err fault, a) => (Ok (with_final (without is_results raw) false, interruption raw fault, Pk_Aborted), a)
  | (Panic, a) => (Panic, a)
  end.
Definition is_more (c : Command) : bool := match c with StatusCommand s => s_code s =? 213 | _ => false end.
Definition read_exchange (raw : Message) (expected : Expected) (package : PackageState) (a : Assembly) : sres Exchange :=
  continuing ← res_for (continued_reads expected) (commands raw) (match pending a with Some r => [r] | None => [] end);
  let receipt_input := without is_alert_or_devinfo raw in
  let complete_input :=
    with_commands receipt_input (List.filter has_items (map complete_values (commands receipt_input))) in
  receipt ← or_else (correlate expected complete_input CodecLimits_default) Se_Conflict;
  let stopped := stops receipt in
  let (r, a) := assemble_input raw (if stopped then receipt_input else raw) expected stopped package a in
  out ← r;
  let package := if existsb is_abort (commands raw) then Pk_Aborted else out.2 in
  let input := without is_alert_or_devinfo (with_final out.1.1 (final_message out.1.1 && bool_decide (package = Pk_Complete))) in
  correlated ← or_else (correlate expected input CodecLimits_default) Se_Conflict;
  let stopped := stopped || stops correlated in
  Ok (mk_Exchange stopped input
        (if stopped then List.filter (fun c => negb (is_more c)) out.1.2 else out.1.2)
        (if stopped then [] else continuing) package a).
(** A message of a device that is not authenticated changes nothing. *)
Definition challenged (raw : Message) (package : PackageState) (a : Assembly) : Exchange :=
  mk_Exchange false raw [] (match pending a with Some r => [r] | None => [] end) package a.
Definition declared_summaries (m : Message) : sres (list Summary) :=
  res_for (fun acc c => match c with
    | AlertCommand _ (DeclaredConfiguration summary _) => s ← or_else (summaries summary) Se_Malformed; Ok (acc ++ s)
    | _ => Ok acc
    end) (commands m) [].
Definition says_user (c : Command) : bool := match c with AlertCommand _ (LoginAlert Login_User _) => true | _ => false end.
Record Prepared : Type := mk_Prepared {
  pp_exchange : Exchange; pp_history : option Expected; pp_limits : CodecLimits; pp_response : Message;
  pp_summaries : list Summary; pp_digest : rstr; pp_client_authenticated : bool; pp_authenticated : bool;
  pp_server : ServerAuthentication; pp_login_user : bool; pp_stored : option SessionRow
}.
Inductive Reception : Type :=
| Rc_Limited (delay : Z) | Rc_Replay (reply : bytes) (package : PackageState) | Rc_Prepared (prepared : Prepared).
(** The registration: its passwords, the nonce of its next session, and the provider's name. *)
Record Registration : Type := mk_Registration { rg_secrets : Secrets; rg_server_nonce : bytes; rg_provider : rstr }.
Definition prepare_session (key : Protector) (p : Principal) (rg : Registration) (delay : option Z) (s : Store) (raw : Message)
    (digest : rstr) (stored : option SessionRow) : sres Reception :=
  let before := match stored with Some row => sr_client_authenticated row | None => false end in
  client ← authenticate_client p (rg_secrets rg) (h_credential (header raw)) before;
  let nonce := match stored with Some row => sr_nonce row | None => rg_server_nonce rg end in
  history ← match stored with Some _ => load key p (st_messages s) raw | None => Ok (History_initial raw) end;
  server ← authenticate_server stored (hi_expected history) raw nonce;
  initial ← initialization raw before;
  let authenticated := client && sv_authenticated server in
  match (if authenticated then delay else None) with
  | Some delay => Ok (Rc_Limited delay)
  | None =>
      response ← management_response (rg_provider rg) raw (rg_secrets rg) client (sv_nonce server) initial;
      let package := if final_message raw then Pk_Complete else Pk_Partial in
      exchange ← (if authenticated then
                    expected ← ok_or (hi_expected history) Se_Conflict;
                    read_exchange raw expected package (hi_assembly history)
                  else Ok (challenged raw package (hi_assembly history)));
      declared ← (if authenticated then declared_summaries raw else Ok []);
      Ok (Rc_Prepared (mk_Prepared exchange (hi_expected history) (hi_limits history) response declared digest client authenticated
            server (match stored with Some row => sr_login_user row | None => existsb says_user (commands raw) end) stored))
  end.
Definition prepare (key : Protector) (p : Principal) (rg : Registration) (now : Z) (delay : option Z) (s : Store) (raw : Message)
    (b : bytes) : sres Reception :=
  digest ← message_digest key p raw b;
  decision ← session_decision key p now delay s raw digest;
  match decision with
  | Limited delay => Ok (Rc_Limited delay)
  | Replay reply package => Ok (Rc_Replay reply package)
  | Continue stored => prepare_session key p rg delay s raw digest stored
  end.

(** ** The reply ([save]) *)
(** [package], [pending] and [complete] are what became of the message when it was served, and
    [response] the bytes of the reply. *)
Definition next_state (prepared : Prepared) (package : PackageState) (pending complete : bool) : SessionState :=
  if ex_stopped (pp_exchange prepared) || bool_decide (package = Pk_Aborted) then St_Complete
  else if pp_authenticated prepared then
    if complete && negb pending && bool_decide (package = Pk_Complete) then St_Complete else St_Collecting
  else St_Challenge.
Definition save (key : Protector) (p : Principal) (rg : Registration) (now : Z) (random : option bytes * option bytes) (s : Store)
    (raw : Message) (b : bytes) (prepared : Prepared) (response : bytes) (package : PackageState) (pending complete : bool) :
    sres (Store * Registration) :=
  let session := h_session_id (header raw) in
  let id := h_message_id (header raw) in
  reply ← sealed_part key random.1 p RESPONSE session id response;
  incoming ← sealed_part key random.2 p INCOMING session id b;
  let state := next_state prepared package pending complete in
  let nonce := sv_nonce (pp_server prepared) in
  let row :=
    match pp_stored prepared with
    | None => mk_SessionRow (pr_generation p) (pr_credential p) state id (pp_client_authenticated prepared) nonce (now + 15 * 60)
                (pp_login_user prepared)
    | Some row => mk_SessionRow (sr_generation row) (sr_credential row) state id (pp_client_authenticated prepared) nonce
                    (sr_expires_at row) (sr_login_user row)
    end in
  let rg := match advertised_nonce (pp_server prepared) raw with
            | Some nonce => mk_Registration (rg_secrets rg) nonce (rg_provider rg)
            | None => rg
            end in
  Ok (mk_Store (Some row) (st_messages s ++ [mk_MessageRow id (pp_digest prepared) reply incoming package (pp_authenticated prepared)]), rg).

(** ** Serving a prepared message ([execution-service], [manage_on]) *)
Record Served : Type := mk_Served { ou_response : bytes; ou_package : PackageState; ou_pending : bool; ou_complete : bool }.
Inductive Continuation : Type := Cont_None | Cont_Waiting | Cont_Sent | Cont_Abort.
(** The last range that was sent of a command of the server, with the device's receipt for it. *)
Record OpenFrame : Type := mk_OpenFrame {
  of_eligible : sres bool; of_status : option Z; of_accepted : bool; of_end : Z; of_total : Z; of_command : sres Command
}.
(** What the tables of commands, collections and materials answer during one request: which reads are
    still wanted, what the receivers of reports leave of a message, and what there is to send; the
    functions that extend the reply return it with whether something stays pending. *)
Record Effects : Type := mk_Effects {
  result_eligible : Reference -> sres bool;
  receive_native : PackageState -> Message -> Expected -> sres Message;
  outgoing_on : sres bool;
  receive_trust : Message -> Expected -> sres Message;
  collects : sres bool;
  receive_collections : Message -> Expected -> sres Message;
  send_collections : Message -> sres (Message * bool);
  open_frame : sres (option OpenFrame);
  send_native : bool -> CodecLimits -> list Summary -> Message -> sres (Message * bool)
}.
(** *** Reports *)
(** [None] for a message that is not authenticated. *)
Definition receive_on (ef : Effects) (package : option PackageState) (m : Message) (history : option Expected) : sres Message :=
  match package with
  | None => Ok m
  | Some package => expected ← ok_or history Se_Protocol; receive_native ef package m expected
  end.
(** [WindowsSession::receive]: what is pending of the collections, which is never anything. *)
Definition received_by (authenticated : bool) (receive : Message -> Expected -> sres Message) (m : Message) (history : option Expected) : sres Message :=
  if authenticated then expected ← ok_or history Se_Conflict; receive m expected else Ok m.
Definition session_receive (ef : Effects) (authenticated : bool) (m : Message) (history : option Expected) : sres bool :=
  input ← received_by authenticated (receive_trust ef) m history;
  collects ← collects ef;
  if negb collects then Ok false
  else filtered ← received_by authenticated (receive_collections ef) input history;
       _ ← reject (existsb is_results (commands filtered)) (if authenticated then Se_Conflict else Se_Unauthorized);
       Ok false.
(** *** What is sent *)
Definition session_send (ef : Effects) (authenticated stopped : bool) (response : Message) : sres (Message * bool) :=
  if negb authenticated || stopped then Ok (response, false) else send_collections ef response.
Definition send_on (ef : Effects) (enabled user : bool) (l : CodecLimits) (declared : list Summary) (response : Message) : sres (Message * bool) :=
  if negb enabled || (l_session_messages l <=? h_message_id (header response)) then Ok (response, false)
  else send_native ef user l declared response.
(** The next range follows only on a receipt 213 for the last one, while the request is eligible. *)
Definition continue_on (ef : Effects) (response : Message) (l : CodecLimits) : sres (Message * Continuation) :=
  open ← open_frame ef;
  match open with
  | None => Ok (response, Cont_None)
  | Some f =>
      if l_session_messages l <=? h_message_id (header response) then Ok (response, Cont_Abort) else
      eligible ← of_eligible f;
      if negb eligible then Ok (response, Cont_Abort) else
      if l_object_bytes l <? of_total f then Ok (response, Cont_Abort) else
      match frame_continuation (of_status f) (of_accepted f) (of_end f) (of_total f) with
      | Frame_Wait => Ok (response, Cont_Waiting)
      | Frame_Abort => Ok (response, Cont_Abort)
      | Frame_Continue =>
          command ← of_command f;
          match fragment response command (of_end f) (l_syncml_bytes l) l with
          | Ok frame => Ok (fr_message frame, Cont_Sent)
          | Err LimitExceeded => Ok (response, Cont_Waiting)
          | Err _ => Ok (response, Cont_Abort)
          | Panic => Panic
          end
      end
  end.
(** An open object goes on only while all its reads are still wanted. *)
Definition still_eligible (ef : Effects) (ok : bool) (r : Reference) : sres bool := if ok then result_eligible ef r else Ok false.
Definition drop_objects (x : Exchange) (ok : bool) : Exchange :=
  if ok then x
  else mk_Exchange (ex_stopped x) (with_final (without is_results (ex_input x)) false) [AlertCommand 0 SessionAbort]
         (ex_continuing x) Pk_Aborted (ex_assembly x).
Definition admit_continuing (ef : Effects) (x : Exchange) : sres Exchange :=
  ok ← res_for (still_eligible ef) (ex_continuing x) true; Ok (drop_objects x ok).
(** The statuses that stay in a reply which cannot carry the others. *)
Definition answers_results (id : Z) (c : Command) : bool := match c with ResultsCommand r => r_id r =? id | _ => false end.
Definition refuses_results (id : Z) (c : Command) : bool :=
  match c with StatusCommand s => bool_decide (s_command s = N_Results) && (s_command_ref s =? id) | _ => false end.
Definition retained_ack (input : Message) (controls : list Command) (c : Command) : bool :=
  match c with
  | StatusCommand s =>
      match s_command s with
      | N_SyncHdr | N_Alert | N_Replace => true
      | N_Results => existsb (answers_results (s_command_ref s)) (commands input)
                     && negb (existsb (refuses_results (s_command_ref s)) controls)
      | _ => false
      end
  | _ => false
  end.
Definition retain_received_acks (response input : Message) (controls : list Command) : Message :=
  with_commands response (List.filter (retained_ack input controls) (commands response)).
(** A control gets the number after the largest one. *)
Definition next_command_id (m : Message) : sres Z :=
  let id := foldl Z.max 0 (map command_id (commands m)) + 1 in ok_or (if id <=? u32_max then Some id else None) Se_Conflict.
Definition numbered_control (id : Z) (c : Command) : sres Command :=
  match c with
  | StatusCommand s => Ok (StatusCommand (mk_Status id (s_message_ref s) (s_command_ref s) (s_command s) (s_target_refs s)
                             (s_source_refs s) (s_code s) (s_items s) (s_challenge s) (s_credential s)))
  | AlertCommand _ alert => Ok (AlertCommand id alert)
  | _ => Err Se_Malformed
  end.
Definition place_control (response : Message) (c : Command) : sres Message :=
  id ← next_command_id response; c ← numbered_control id c; Ok (with_commands response (commands response ++ [c])).
(** The end of the reply: what stays of it, the controls, and whether it is final. *)
Definition close_reply (l : CodecLimits) (raw input : Message) (stopped : bool) (controls : list Command) (package : PackageState)
    (continuation : Continuation) (response : Message) : sres (Message * PackageState) :=
  let sent := match continuation with Cont_Sent => true | _ => false end in
  let waiting := match continuation with Cont_Waiting => true | _ => false end in
  let response := if negb (bool_decide (package = Pk_Complete)) && negb sent
                  then with_final (retain_received_acks response input controls) false else response in
  let response := if waiting then with_final response false else response in
  let more := negb stopped && (bool_decide (package = Pk_Partial) || waiting) && negb sent in
  let last := l_session_messages l <=? h_message_id (header raw) in
  let controls := if more then controls ++ [AlertCommand 0 (if last then SessionAbort else MoreMessages)] else controls in
  response ← res_for place_control controls response;
  Ok (if stopped then with_final response true else response, if more && last then Pk_Aborted else package).
Definition continue_reply (ef : Effects) (l : CodecLimits) (stopped outgoing : bool) (x : Exchange) (response : Message) :
    sres (Message * Continuation) :=
  let goes_on := negb stopped && outgoing && negb (bool_decide (ex_package x = Pk_Aborted)) in
  if goes_on && is_empty (ex_controls x)
  then continue_on ef (retain_received_acks response (ex_input x) (ex_controls x)) l
  else Ok (response, if goes_on then Cont_Waiting else Cont_None).
Definition manage_on (ef : Effects) (raw : Message) (prepared : Prepared) : sres Served :=
  let authenticated := pp_authenticated prepared in
  let stopped := ex_stopped (pp_exchange prepared) in
  let l := pp_limits prepared in
  x ← admit_continuing ef (pp_exchange prepared);
  filtered ← receive_on ef (if authenticated then Some (ex_package x) else None) (ex_input x) (pp_history prepared);
  outgoing ← (if authenticated then outgoing_on ef else Ok false);
  let dispatch := authenticated && negb stopped && bool_decide (ex_package x = Pk_Complete) && negb outgoing
                  && is_empty (ex_controls x) in
  collections ← session_receive ef authenticated filtered (pp_history prepared);
  _ ← or_else (encode_outbound (pp_response prepared) l) Se_Malformed;
  sent ← (if dispatch then session_send ef authenticated stopped (pp_response prepared) else Ok (pp_response prepared, false));
  continuation ← continue_reply ef l stopped outgoing x sent.1;
  let aborted := match continuation.2 with Cont_Abort => true | _ => false end in
  let controls := if aborted then ex_controls x ++ [AlertCommand 0 SessionAbort] else ex_controls x in
  commands ← send_on ef dispatch (authenticated && pp_login_user prepared) l (pp_summaries prepared) continuation.1;
  reply ← close_reply l raw (ex_input x) stopped controls (if aborted then Pk_Aborted else ex_package x) continuation.2 commands.1;
  bytes ← or_else (encode_outbound reply.1 l) Se_Malformed;
  Ok (mk_Served bytes reply.2 (sent.2 || collections || commands.2 || outgoing) true).

(** ** One request *)
Inductive ManagementReply : Type := Rp_Response (b : bytes) | Rp_Limited (delay : Z).
Definition manage (key : Protector) (p : Principal) (rg : Registration) (now : Z) (delay : option Z) (random : option bytes * option bytes)
    (ef : Effects) (s : Store) (raw : Message) (b : bytes) : sres (ManagementReply * (Store * Registration)) :=
  r ← prepare key p rg now delay s raw b;
  match r with
  | Rc_Limited delay => Ok (Rp_Limited delay, (s, rg))
  | Rc_Replay reply _ => Ok (Rp_Response reply, (s, rg))
  | Rc_Prepared prepared =>
      o ← manage_on ef raw prepared;
      st ← save key p rg now random s raw b prepared (ou_response o) (ou_package o) (ou_pending o) (ou_complete o);
      Ok (Rp_Response (ou_response o), st)
  end.
End Session.
