(* ===== verification/ManagementProperties.v ===== *)
(** * Management sessions: properties *)
From S2P Require Import Prelude Ordered Text External Xml Declared SyncmlModel SyncmlCodec SyncmlCorrelation XmlExample.
From S2P Require Import XmlTotal SyncmlTotal SyncmlFragment NativeProtection LargeObject LargeObjectProperties ManagementSession.

Lemma error_ok {E A} (r : res E A) e a : or_else r e = Ok a <-> r = Ok a.
Proof. destruct r; simpl; naive_solver. Qed.

Section Sessions.
Context `{QX : QuickXml} `{UC : UuidCrate} `{UT : !UuidText} `{B64 : Base64Standard} `{MD : Md5} `{SE : StandardEncoder}
  `{AG : AesGcm} `{HK : Hkdf} `{HM : Hmac} `{DP : DataProtection} `{RC : RequestContext} `{SC : !SessionContext}.
(** One device, one session, and the key ring of the server. *)
Context (p : Principal) (sid : Z) (key : Protector) (ka : bytes) (kh : list bytes) (kf : bytes) (Hkey : ring_of ka kh kf key).

(** ** The messages a session has taken *)
Record Entry : Type := mk_Entry { lg_raw : Message; lg_bytes : bytes; lg_prepared : Prepared; lg_outcome : Served }.
Definition lg_authenticated (e : Entry) : bool := pp_authenticated (lg_prepared e).
Definition lg_package (e : Entry) : PackageState := ou_package (lg_outcome e).
Inductive run : Store -> Registration -> list Entry -> Prop :=
| run_start rg : run (mk_Store None []) rg []
| run_message s rg log now delay random ef raw b prepared o s' rg' :
    run s rg log -> decode CodecLimits_default b = Ok raw -> h_session_id (header raw) = sid -> nonces random.1 -> nonces random.2 ->
    prepare key p rg now delay s raw b = Ok (Rc_Prepared prepared) ->
    manage_on ef raw prepared = Ok o -> save key p rg now random s raw b prepared (ou_response o) (ou_package o) (ou_pending o) (ou_complete o) = Ok (s', rg') ->
    run s' rg' (log ++ [mk_Entry raw b prepared o]).

(** How a row keeps an entry. *)
Record keeps (n : Z) (row : MessageRow) (e : Entry) : Prop := {
  kp_row : mr_id row = n;
  kp_number : h_message_id (header (lg_raw e)) = n;
  kp_session : h_session_id (header (lg_raw e)) = sid;
  kp_response : opened_part key p RESPONSE sid n (mr_response row) = Ok (ou_response (lg_outcome e));
  kp_request : opened_part key p INCOMING sid n (mr_request row) = Ok (lg_bytes e);
  kp_digest : message_digest key p (lg_raw e) (lg_bytes e) = Ok (mr_digest row);
  kp_package : mr_package row = lg_package e;
  kp_authenticated : mr_authenticated row = lg_authenticated e
}.
(** The session row after the messages [log]. *)
Definition follows_log (row : SessionRow) (log : list Entry) : Prop :=
  exists init e, log = init ++ [e] /\ sr_last_message row = zlen log /\ sr_generation row = pr_generation p /\
    sr_credential row = pr_credential p /\ sr_client_authenticated row = pp_client_authenticated (lg_prepared e) /\
    sr_state row = next_state (lg_prepared e) (lg_package e) (ou_pending (lg_outcome e)) (ou_complete (lg_outcome e)).
Definition stored_log (s : Store) (log : list Entry) : Prop :=
  length (st_messages s) = length log /\
  (forall i row e, st_messages s !! i = Some row -> log !! i = Some e -> keeps (Z.of_nat i + 1) row e) /\
  match st_session s with Some row => follows_log row log | None => log = [] end.

Lemma sealed_opened random purpose n b c : nonces random -> sealed_part key random p purpose sid n b = Ok c ->
  opened_part key p purpose sid n c = Ok b.
Proof.
  intros Hn H. unfold sealed_part, opened_part in *. apply bind_ok in H as (aad & -> & H). simpl. apply error_ok in H. apply error_ok.
  eapply open_sealed; [done|by left|done|done].
Qed.
(** Only the next message of an open session is taken up. *)
Lemma decision_continue now delay s raw d log stored : stored_log s log ->
  session_decision key p now delay s raw d = Ok (Continue stored) ->
  stored = st_session s /\ h_message_id (header raw) = zlen log + 1 /\
  match stored with
  | Some row => (sr_state row = St_Challenge \/ sr_state row = St_Collecting) /\ sr_generation row = pr_generation p /\
      sr_credential row = pr_credential p /\ h_message_id (header raw) <= l_session_messages CodecLimits_default
  | None => existsb is_status_or_results (commands raw) = false
  end.
Proof.
  intros (_ & _ & Hs) H. unfold session_decision in H. destruct (st_session s) as [row|].
  - apply bind_ok in H as ([] & Hv%reject_ok & H). rewrite !orb_false_iff in Hv. destruct Hv as ((_ & Hg) & Hc).
    apply negb_false_iff, Z.eqb_eq in Hg. apply negb_false_iff, bool_decide_eq_true in Hc.
    destruct (if h_message_id _ <=? _ then _ else _).
    + apply bind_ok in H as ([] & _ & H). apply bind_ok in H as (plain & _ & H). destruct delay; [destruct (mr_authenticated _)|]; done.
    + apply bind_ok in H as ([] & Hr%reject_ok & [= <-]). rewrite !orb_false_iff in Hr. destruct Hr as ((Hst & Hid) & Hm).
      apply negb_false_iff, bool_decide_eq_true in Hst. apply negb_false_iff, Z.eqb_eq in Hid. apply Z.ltb_ge in Hm.
      destruct Hs as (init & e & _ & Hl & _). split; [done|]. split; [lia|]. split_and!; [|done|done|done].
      apply elem_of_cons in Hst as [|[|?%elem_of_nil]%elem_of_cons]; auto. done.
  - apply bind_ok in H as ([] & Hr%reject_ok & [= <-]). apply orb_false_iff in Hr as [Hid Hc].
    apply negb_false_iff, Z.eqb_eq in Hid. subst log. done.
Qed.
(** What a prepared message went through. *)
Definition before_of (stored : option SessionRow) : bool :=
  match stored with Some row => sr_client_authenticated row | None => false end.
Definition nonce_of (rg : Registration) (stored : option SessionRow) : bytes :=
  match stored with Some row => sr_nonce row | None => rg_server_nonce rg end.
Record prepared_from (rg : Registration) (s : Store) (raw : Message) (prepared : Prepared) (h : History) : Prop := {
  pf_client : authenticate_client p (rg_secrets rg) (h_credential (header raw)) (before_of (pp_stored prepared)) = Ok (pp_client_authenticated prepared);
  pf_history : match pp_stored prepared with Some _ => load key p (st_messages s) raw | None => Ok (History_initial raw) end = Ok h;
  pf_expected : pp_history prepared = hi_expected h;
  pf_limits : pp_limits prepared = hi_limits h;
  pf_server : authenticate_server (pp_stored prepared) (hi_expected h) raw (nonce_of rg (pp_stored prepared)) = Ok (pp_server prepared);
  pf_unheard : pp_authenticated prepared = false -> pp_summaries prepared = [];
  pf_authenticated : pp_authenticated prepared = pp_client_authenticated prepared && sv_authenticated (pp_server prepared);
  pf_response : exists initial, initialization raw (before_of (pp_stored prepared)) = Ok initial /\
    management_response (rg_provider rg) raw (rg_secrets rg) (pp_client_authenticated prepared) (sv_nonce (pp_server prepared)) initial =
      Ok (pp_response prepared);
  pf_exchange : let package := if final_message raw then Pk_Complete else Pk_Partial in
    if pp_authenticated prepared
    then exists expected, hi_expected h = Some expected /\ read_exchange raw expected package (hi_assembly h) = Ok (pp_exchange prepared)
    else pp_exchange prepared = challenged raw package (hi_assembly h)
}.
Lemma prepare_session_ok rg delay s raw d stored prepared : prepare_session key p rg delay s raw d stored = Ok (Rc_Prepared prepared) ->
  pp_stored prepared = stored /\ pp_digest prepared = d /\ exists h, prepared_from rg s raw prepared h.
Proof.
  unfold prepare_session. intros H. apply bind_ok in H as (client & Hc & H). apply bind_ok in H as (h & Hh & H).
  apply bind_ok in H as (server & Hs & H). apply bind_ok in H as (initial & Hi & H). cbv zeta in H.
  destruct (if client && sv_authenticated server then delay else None); [done|]. apply bind_ok in H as (response & Hr & H).
  apply bind_ok in H as (exchange & He & H). apply bind_ok in H as (declared & Hdc & [= <-]). simpl. split_and!; [done|done|].
  exists h. split; simpl; [exact Hc|exact Hh|done|done|exact Hs|intros Ha; rewrite Ha in Hdc; congruence|done|by exists initial|].
  destruct (client && sv_authenticated server); [|congruence]. apply bind_ok in He as (expected & Hx & He). apply ok_or_ok in Hx. by exists expected.
Qed.
Lemma prepare_ok rg now delay s raw b prepared : prepare key p rg now delay s raw b = Ok (Rc_Prepared prepared) ->
  message_digest key p raw b = Ok (pp_digest prepared) /\
  session_decision key p now delay s raw (pp_digest prepared) = Ok (Continue (pp_stored prepared)) /\ exists h, prepared_from rg s raw prepared h.
Proof.
  unfold prepare. intros H. apply bind_ok in H as (d & Hd & H). apply bind_ok in H as (dec & He & H). destruct dec; try done.
  apply prepare_session_ok in H as (<- & <- & h & Hf). split_and!; [done|done|by exists h].
Qed.
Lemma save_ok rg now random s raw b prepared response package pending complete s' rg' :
  save key p rg now random s raw b prepared response package pending complete = Ok (s', rg') ->
  exists reply incoming row, sealed_part key random.1 p RESPONSE (h_session_id (header raw)) (h_message_id (header raw)) response = Ok reply /\
    sealed_part key random.2 p INCOMING (h_session_id (header raw)) (h_message_id (header raw)) b = Ok incoming /\
    s' = mk_Store (Some row) (st_messages s ++ [mk_MessageRow (h_message_id (header raw)) (pp_digest prepared) reply incoming package (pp_authenticated prepared)]) /\
    sr_last_message row = h_message_id (header raw) /\ sr_client_authenticated row = pp_client_authenticated prepared /\
    sr_state row = next_state prepared package pending complete /\ sr_nonce row = sv_nonce (pp_server prepared) /\
    rg_secrets rg' = rg_secrets rg /\
    match pp_stored prepared with
    | Some old => sr_generation row = sr_generation old /\ sr_credential row = sr_credential old
    | None => sr_generation row = pr_generation p /\ sr_credential row = pr_credential p
    end.
Proof.
  unfold save. cbv zeta. intros H. apply bind_ok in H as (reply & Hr & H). apply bind_ok in H as (incoming & Hi & [= <- <-]).
  eexists reply, incoming, _. split; [done|]. split; [done|]. split; [reflexivity|].
  destruct (pp_stored prepared); simpl; split_and!; try done; by destruct (advertised_nonce _ _).
Qed.
Lemma run_stored s rg log : run s rg log -> stored_log s log.
Proof.
  induction 1 as [rg|s rg log now delay random ef raw b prepared o s' rg' Hrun IH _ Hsid Hn1 Hn2 Hp _ Hs]; [by split_and!|].
  apply prepare_ok in Hp as (Hd & Hdec & h & Hf). destruct (decision_continue _ _ _ _ _ _ _ IH Hdec) as (Hst & Hid & Hrow).
  apply save_ok in Hs as (reply & incoming & row & Hr & Hi & -> & Hl & Hca & Hstate & _ & _ & Hgen). rewrite Hsid in Hr, Hi.
  destruct IH as (Hlen & Hkeep & Hsess). unfold stored_log. simpl. split; [|split].
  - rewrite !length_app. simpl. lia.
  - intros i r e Hir Hie. apply lookup_app_Some in Hir as [Hir|[Hge Hir]].
    + rewrite lookup_app_l in Hie by (apply lookup_lt_Some in Hir; lia). by apply Hkeep.
    + apply list_lookup_singleton_Some in Hir as [Hi0 <-]. rewrite lookup_app_r in Hie by lia.
      replace (i - length log)%nat with 0%nat in Hie by lia. injection Hie as <-.
      assert (h_message_id (header raw) = Z.of_nat i + 1) as Hnum by (unfold zlen in Hid; lia).
      split; simpl; try done; rewrite <-Hnum; [eapply sealed_opened; [exact Hn1|exact Hr]|eapply sealed_opened; [exact Hn2|exact Hi]].
  - exists log, (mk_Entry raw b prepared o). rewrite zlen_app. change (zlen [_]) with 1. split_and!; [done|lia|..|done|done].
    + destruct (pp_stored prepared); [destruct Hgen as [-> _]; by destruct Hrow as (_ & ? & _)|by destruct Hgen].
    + destruct (pp_stored prepared); [destruct Hgen as [_ ->]; by destruct Hrow as (_ & _ & ? & _)|by destruct Hgen].
Qed.

(** ** The end of a reply *)
(** A control with its number. *)
Definition renumbered (n : Z) (c d : Command) : Prop :=
  match c with
  | AlertCommand _ a => d = AlertCommand n a
  | StatusCommand s => d = StatusCommand (mk_Status n (s_message_ref s) (s_command_ref s) (s_command s) (s_target_refs s) (s_source_refs s)
                             (s_code s) (s_items s) (s_challenge s) (s_credential s))
  | _ => False
  end.
Definition top_id (cs : list Command) : Z := foldl Z.max 0 (map command_id cs).
(** [placed] are the [controls], in order, under the numbers after the largest of [kept]. *)
Definition numbered_after (kept controls placed : list Command) : Prop :=
  length placed = length controls /\ forall k c, controls !! k = Some c ->
    exists d, placed !! k = Some d /\ renumbered (top_id kept + 1 + Z.of_nat k) c d.
Definition acknowledgement (c : Command) : bool := match c with StatusCommand _ => true | _ => false end.
(** What a reply holds when the server sends nothing of its own. *)
Definition envelope (c : Command) : bool :=
  match c with StatusCommand _ | AlertCommand _ SessionAbort | AlertCommand _ MoreMessages => true | _ => false end.
Lemma top_id_snoc cs d : top_id (cs ++ [d]) = Z.max (top_id cs) (command_id d).
Proof. unfold top_id. by rewrite map_app, foldl_app. Qed.
Lemma place_control_ok m c m' : place_control m c = Ok m' -> exists d, renumbered (top_id (commands m) + 1) c d /\
  command_id d = top_id (commands m) + 1 /\ m' = with_commands m (commands m ++ [d]).
Proof.
  unfold place_control, next_command_id. fold (top_id (commands m)). intros H. apply bind_ok in H as (id & Hid%ok_or_ok & H).
  apply bind_ok in H as (d & Hd & [= <-]). exists d. destruct (_ <=? u32_max); [|done]. injection Hid as <-.
  destruct c; simpl in Hd; try done; injection Hd as <-; split_and!; reflexivity.
Qed.
Lemma place_controls_ok cs m m' : res_for place_control cs m = Ok m' -> exists placed, m' = with_commands m (commands m ++ placed) /\
  numbered_after (commands m) cs placed.
Proof.
  revert m. induction cs as [|c cs IH]; intros m H; simpl in H.
  - injection H as <-. exists []. split; [rewrite app_nil_r; by destruct m|by split].
  - apply bind_ok in H as (m1 & Hc & H). apply place_control_ok in Hc as (d & Hd & Hn & ->). destruct (IH _ H) as (ds & -> & Hlen & Hds). simpl in *.
    exists (d :: ds). rewrite <-app_assoc. split; [done|]. split; [by simpl; rewrite Hlen|]. intros [|k] c' Hk.
    + injection Hk as <-. exists d. split; [done|]. by rewrite Z.add_0_r.
    + destruct (Hds k c' Hk) as (d' & Hd' & Hr). exists d'. split; [done|]. rewrite top_id_snoc, Hn in Hr.
      replace (top_id (commands m) + 1 + Z.of_nat (S k)) with (Z.max (top_id (commands m)) (top_id (commands m) + 1) + 1 + Z.of_nat k) by lia. done.
Qed.
Lemma renumbered_envelope n c d : renumbered n c d -> envelope c = true -> envelope d = true.
Proof. destruct c as [| | | | | | | |?|? []|]; simpl; intros H He; try done; by rewrite H. Qed.
Lemma numbered_envelope kept cs placed : numbered_after kept cs placed -> forallb envelope cs = true -> forallb envelope placed = true.
Proof.
  intros [Hlen H] Hcs. apply forallb_forall. intros d [k Hk]%list_elem_of_In%list_elem_of_lookup.
  destruct (lookup_lt_is_Some_2 cs k) as [c Hc]; [apply lookup_lt_Some in Hk; lia|]. destruct (H k c Hc) as (d' & Hd' & Hr).
  assert (d' = d) as -> by congruence. apply (renumbered_envelope _ _ _ Hr). rewrite forallb_forall in Hcs.
  by apply Hcs, list_elem_of_In, list_elem_of_lookup_2 with k.
Qed.
Lemma forallb_filter {A} (f g : A -> bool) l : forallb f l = true -> forallb f (List.filter g l) = true.
Proof. rewrite !forallb_forall. intros H x [Hx _]%filter_In. by apply H. Qed.

(** What stays of the reply, and the controls at its end. *)
Definition kept_reply (input : Message) (controls : list Command) (package : PackageState) (continuation : Continuation) (response : Message) : Message :=
  let sent := match continuation with Cont_Sent => true | _ => false end in
  let waiting := match continuation with Cont_Waiting => true | _ => false end in
  let response := if negb (bool_decide (package = Pk_Complete)) && negb sent
                  then with_final (retain_received_acks response input controls) false else response in
  if waiting then with_final response false else response.
Definition goes_on (stopped : bool) (package : PackageState) (continuation : Continuation) : bool :=
  negb stopped && (bool_decide (package = Pk_Partial) || match continuation with Cont_Waiting => true | _ => false end)
  && negb match continuation with Cont_Sent => true | _ => false end.
Definition final_control (last : bool) : Command := AlertCommand 0 (if last then SessionAbort else MoreMessages).
Lemma close_reply_ok l raw input stopped controls package continuation response m pk :
  close_reply l raw input stopped controls package continuation response = Ok (m, pk) ->
  let kept := kept_reply input controls package continuation response in
  let more := goes_on stopped package continuation in
  let last := l_session_messages l <=? h_message_id (header raw) in
  exists placed, commands m = commands kept ++ placed /\
    numbered_after (commands kept) (controls ++ if more then [final_control last] else []) placed /\
    final_message m = stopped || final_message kept /\ header m = header kept /\ pk = if more && last then Pk_Aborted else package.
Proof.
  unfold close_reply. cbv zeta. intros H. apply bind_ok in H as (m' & Hp & [= <- <-]). apply place_controls_ok in Hp as (placed & -> & Hn).
  exists placed. fold (kept_reply input controls package continuation response) (goes_on stopped package continuation) in *.
  split_and!; [by destruct stopped| |by destruct stopped..|done].
  by destruct (goes_on _ _ _); [|rewrite app_nil_r].
Qed.
(** A message that is not authenticated or whose package did not end makes the server send nothing new. *)
Lemma admit_continuing_ok ef x0 x : admit_continuing ef x0 = Ok x ->
  x = x0 \/ x = drop_objects x0 false /\ exists r, r ∈ ex_continuing x0 /\ result_eligible ef r = Ok false.
Proof.
  unfold admit_continuing. intros H. apply bind_ok in H as ([|] & Hr & [= <-]); [by left|right]. split; [done|].
  assert (forall rs ok b, res_for (still_eligible ef) rs ok = Ok b -> b = false -> ok = true -> exists r, r ∈ rs /\ result_eligible ef r = Ok false) as Haux.
  { clear. intros rs. induction rs as [|r rs IH]; intros ok b H Hb Hok; simpl in H; [congruence|]. apply bind_ok in H as (ok' & Hr & H).
    rewrite Hok in Hr. simpl in Hr. destruct ok'; [|by exists r; split; [left|]]. destruct (IH _ _ H Hb eq_refl) as (r' & ? & ?). exists r'. by split; [right|]. }
  by eapply Haux.
Qed.
Definition quiet (prepared : Prepared) : Prop := pp_authenticated prepared = false \/ ex_package (pp_exchange prepared) <> Pk_Complete.
Definition aborts (c : Continuation) : bool := match c with Cont_Abort => true | _ => false end.
Lemma manage_on_quiet ef raw prepared o : manage_on ef raw prepared = Ok o -> quiet prepared ->
  exists x outgoing c m, admit_continuing ef (pp_exchange prepared) = Ok x /\ (pp_authenticated prepared = false -> outgoing = false) /\
    continue_reply ef (pp_limits prepared) (ex_stopped (pp_exchange prepared)) outgoing x (pp_response prepared) = Ok c /\
    close_reply (pp_limits prepared) raw (ex_input x) (ex_stopped (pp_exchange prepared))
      (if aborts c.2 then ex_controls x ++ [AlertCommand 0 SessionAbort] else ex_controls x) (if aborts c.2 then Pk_Aborted else ex_package x) c.2 c.1 =
      Ok (m, ou_package o) /\
    encode_outbound m (pp_limits prepared) = Ok (ou_response o).
Proof.
  unfold manage_on. cbv zeta. intros H Hq. apply bind_ok in H as (x & Hx & H). apply bind_ok in H as (filtered & _ & H).
  apply bind_ok in H as (outgoing & Hout & H).
  match type of H with context [if ?d then session_send _ _ _ _ else _] => assert (d = false) as Hd end.
  { destruct Hq as [->|Hpk]; [done|]. rewrite (bool_decide_false (ex_package x = Pk_Complete)).
    - by rewrite andb_false_r, !andb_false_l.
    - apply admit_continuing_ok in Hx as [->|[-> _]]; done. }
  rewrite Hd in H. apply bind_ok in H as (collections & _ & H). apply bind_ok in H as (u & _ & H). apply bind_ok in H as (sent & [= <-] & H).
  apply bind_ok in H as (c & Hc & H). apply bind_ok in H as (cmds & Hcm & H). apply bind_ok in H as ([m pk] & Hr & H).
  apply bind_ok in H as (b & Hb%error_ok & [= <-]). simpl in *. unfold send_on in Hcm. simpl in Hcm. injection Hcm as <-.
  exists x, outgoing, c, m. split_and!; [done| |done|exact Hr|done]. intros Ha. rewrite Ha in Hout. congruence.
Qed.
Lemma management_response_statuses provider m secrets authenticated nonce initial r :
  management_response provider m secrets authenticated nonce initial = Ok r -> forallb acknowledgement (commands r) = true.
Proof.
  unfold management_response. cbv zeta. intros H. apply bind_ok in H as (rest & Hr & [= <-]). simpl. destruct authenticated; [|by injection Hr as <-].
  apply res_map_ok in Hr. clear -Hr. induction Hr as [|e c es cs Hc _ IH]; [done|]. simpl. rewrite IH, andb_true_r.
  unfold acknowledge in Hc. by apply bind_ok in Hc as (k & _ & [= <-]).
Qed.
(** ** Authentication *)
(** The credential of the device's account. *)
Definition presents (secrets : Secrets) (c : Credential) : Prop :=
  m_media_type (cr_meta c) = Some (lit "syncml:auth-basic") /\ (m_format (cr_meta c) = None \/ m_format (cr_meta c) = Some (lit "b64")) /\
  cr_data c = standard_encode (str_bytes (uuid_to_string (pr_registration p) ++ lit ":" ++ client_password secrets)).
Lemma authenticate_client_ok secrets credential before : authenticate_client p secrets credential before = Ok true ->
  match credential with Some c => presents secrets c | None => before = true end.
Proof.
  destruct credential as [c|]; simpl; intros H; [|by injection H]. apply bind_ok in H as ([] & Hm%reject_ok & H).
  apply bind_ok in H as ([] & Hd%reject_ok & _). apply orb_false_iff in Hm as [Hm Hf]. apply negb_false_iff, bool_decide_eq_true in Hm, Hd.
  split; [done|]. split; [|done]. destruct (m_format (cr_meta c)); [right|by left]. apply negb_false_iff, bool_decide_eq_true in Hf. congruence.
Qed.
Lemma authenticate_server_ok stored history m nonce sv : authenticate_server stored history m nonce = Ok sv -> sv_authenticated sv = true ->
  exists row st, stored = Some row /\ head (header_statuses m) = Some st /\ (s_code st = 212 \/ s_code st = 200 /\ sr_state row = St_Collecting).
Proof.
  unfold authenticate_server. destruct stored as [row|]; [|by intros [= <-]]. intros H Ha. apply bind_ok in H as (expected & _ & H). cbv zeta in H.
  apply bind_ok in H as (co & _ & H). apply bind_ok in H as (st & Hst%ok_or_ok & H). apply bind_ok in H as (ok & Hok & H).
  assert (sv_authenticated sv = ok) as Heq.
  { unfold settle_nonce in H. destruct (s_challenge st); [|apply bind_ok in H as (_ & _ & [= <-]); done].
    do 4 (apply bind_ok in H as (? & _ & H)). by injection H as <-. }
  exists row, st. split; [done|]. split; [done|]. rewrite <-Heq, Ha in Hok. unfold server_accepted in Hok.
  destruct (Z.eqb_spec (s_code st) 212); [by left|]. destruct (Z.eqb_spec (s_code st) 200); simpl in Hok; [|by destruct (_ || _)].
  destruct (decide (sr_state row = St_Collecting)) as [Hc|Hc]; [by right|]. rewrite bool_decide_false in Hok by done. by destruct (_ || _).
Qed.
Definition client_known (log : list Entry) : bool := match last log with Some e => pp_client_authenticated (lg_prepared e) | None => false end.
(** Nothing of a message counts: it has no summaries and stops nothing; what is done with it is the
    same whatever the receivers of reports, the tables of commands and the senders hold; and its reply
    is the envelope alone. *)
Record unheard (raw : Message) (prepared : Prepared) (o : Served) : Prop := {
  uh_summaries : pp_summaries prepared = [];
  uh_exchange : ex_controls (pp_exchange prepared) = [] /\ ex_stopped (pp_exchange prepared) = false;
  uh_effects : forall ef ef', (forall r, result_eligible ef r = result_eligible ef' r) -> collects ef = collects ef' ->
    manage_on ef raw prepared = manage_on ef' raw prepared;
  uh_reply : exists m, encode_outbound m (pp_limits prepared) = Ok (ou_response o) /\ forallb envelope (commands m) = true
}.
Lemma admit_continuing_ext ef ef' x : (forall r, result_eligible ef r = result_eligible ef' r) -> admit_continuing ef x = admit_continuing ef' x.
Proof.
  intros Hef. unfold admit_continuing.
  assert (forall rs ok, res_for (still_eligible ef) rs ok = res_for (still_eligible ef') rs ok) as ->; [|done].
  induction rs as [|r rs IH]; intros ok; [done|]. simpl. assert (still_eligible ef ok r = still_eligible ef' ok r) as -> by (destruct ok; simpl; auto).
  by destruct (still_eligible ef' ok r); simpl.
Qed.
Lemma unheard_effects ef ef' raw prepared : pp_authenticated prepared = false ->
  (forall r, result_eligible ef r = result_eligible ef' r) -> collects ef = collects ef' -> manage_on ef raw prepared = manage_on ef' raw prepared.
Proof.
  intros Ha Hef Hco. unfold manage_on, session_receive. rewrite Ha, (admit_continuing_ext _ _ _ Hef), Hco. simpl.
  destruct (admit_continuing ef' _) as [x| |]; [|done..]. simpl. unfold continue_reply, send_on. rewrite andb_false_r. simpl. done.
Qed.
Lemma unheard_reply ef raw prepared o : pp_authenticated prepared = false -> ex_controls (pp_exchange prepared) = [] ->
  forallb acknowledgement (commands (pp_response prepared)) = true -> manage_on ef raw prepared = Ok o ->
  exists m, encode_outbound m (pp_limits prepared) = Ok (ou_response o) /\ forallb envelope (commands m) = true.
Proof.
  intros Ha Hec Hack H. destruct (manage_on_quiet _ _ _ _ H (or_introl Ha)) as (x & outgoing & c & m & Hx & Hout & Hc & Hm & He).
  exists m. split; [done|]. rewrite (Hout Ha) in Hc. unfold continue_reply in Hc. rewrite andb_false_r in Hc. injection Hc as <-. simpl in Hm.
  apply close_reply_ok in Hm as (placed & -> & Hn & _). rewrite forallb_app. apply andb_true_iff. split.
  - assert (forallb envelope (commands (pp_response prepared)) = true) as Hr.
    { rewrite forallb_forall in Hack |- *. intros d Hd. specialize (Hack d Hd). by destruct d. }
    unfold kept_reply. destruct (_ && _); simpl; [by apply forallb_filter|done].
  - apply (numbered_envelope _ _ _ Hn). rewrite forallb_app. apply andb_true_iff. split.
    + apply admit_continuing_ok in Hx as [->|[-> _]]; [by rewrite Hec|done].
    + destruct (goes_on _ _ _); [|done]. by destruct (_ <=? _).
Qed.
(** What taking up a message after [log] establishes of the two sides. *)
Record taken (secrets : Secrets) (log : list Entry) (e : Entry) : Prop := {
  tk_client : authenticate_client p secrets (h_credential (header (lg_raw e))) (client_known log) = Ok (pp_client_authenticated (lg_prepared e));
  tk_both : lg_authenticated e = true -> pp_client_authenticated (lg_prepared e) = true /\
    exists x st, last log = Some x /\ head (header_statuses (lg_raw e)) = Some st /\ (s_code st = 212 \/ s_code st = 200 /\ lg_authenticated x = true);
  tk_unheard : lg_authenticated e = false -> unheard (lg_raw e) (lg_prepared e) (lg_outcome e)
}.
Lemma run_taken s rg log : run s rg log -> forall i e, log !! i = Some e -> taken (rg_secrets rg) (take i log) e.
Proof.
  induction 1 as [rg|s rg log now delay random ef raw b prepared o s' rg' Hrun IH _ Hsid Hn1 Hn2 Hp Ho Hs]; intros i e He; [done|].
  apply save_ok in Hs as (_ & _ & _ & _ & _ & _ & _ & _ & _ & _ & Hsec & _). rewrite Hsec.
  apply lookup_app_Some in He as [He|[Hge He]].
  { rewrite take_app_le by (apply lookup_lt_Some in He; lia). by apply IH. }
  apply list_lookup_singleton_Some in He as [Hi <-]. assert (i = length log) as -> by lia. rewrite take_app_length.
  pose proof (run_stored _ _ _ Hrun) as Hst. apply prepare_ok in Hp as (_ & Hdec & h & [Hc _ _ _ Hsv Hu Ha (initial & _ & Hr) Hx]).
  destruct (decision_continue _ _ _ _ _ _ _ Hst Hdec) as (Hstored & _ & _). destruct Hst as (_ & _ & Hsess).
  split; simpl.
  - rewrite Hstored in Hc. unfold before_of in Hc. unfold client_known. destruct (st_session s); [|by subst log].
    destruct Hsess as (init & x & -> & _ & _ & _ & Hcl & _). by rewrite last_snoc, <-Hcl.
  - unfold lg_authenticated. simpl. rewrite Ha. intros [Hcl Hsa]%andb_true_iff. split; [done|].
    destruct (authenticate_server_ok _ _ _ _ _ Hsv Hsa) as (row & st & Hrow & Hh & Hcode). rewrite Hstored in Hrow. rewrite Hrow in Hsess.
    destruct Hsess as (init & x & -> & _ & _ & _ & _ & Hstate). exists x, st. rewrite last_snoc. split_and!; [done|done|].
    destruct Hcode as [?|[? Hcol]]; [by left|right]. split; [done|]. unfold lg_authenticated. rewrite Hcol in Hstate. revert Hstate. unfold next_state.
    by destruct (ex_stopped _ || _), (pp_authenticated (lg_prepared x)).
  - intros Hfalse. change (pp_authenticated prepared = false) in Hfalse. cbv zeta in Hx. rewrite Hfalse in Hx.
    split; [exact (Hu Hfalse)|by rewrite Hx|intros; by apply unheard_effects|].
    eapply unheard_reply; [done|by rewrite Hx|by eapply management_response_statuses|exact Ho].
Qed.
Lemma last_before {A} (l : list A) i e : l !! S i = Some e -> last (take (S i) l) = l !! i.
Proof.
  intros He%lookup_lt_Some. rewrite last_lookup, length_take, Nat.min_l by lia. simpl. by rewrite lookup_take_lt by lia.
Qed.
(** C14: The two sides authenticate each other before anything of a message counts: the device showed the
    password of its account in this session, and accepted the server's digest by a status 212 in a
    message after the first, since when every message was authenticated. Of a message that is not,
    nothing is heard: no receiver of reports and no sender has any part in serving it (what is done is
    the same whatever they would answer; only which reads are still wanted and whether anything is
    collected is asked), it has no summaries and stops nothing, and the reply carries
    no command of the server's own, only statuses and at most the alerts that end or continue the
    session. *)
Theorem session_authentication s rg log i e : run s rg log -> log !! i = Some e ->
  if lg_authenticated e
  then (exists j f c, (j <= i)%nat /\ log !! j = Some f /\ h_credential (header (lg_raw f)) = Some c /\ presents (rg_secrets rg) c) /\
    exists j f st, (0 < j <= i)%nat /\ log !! j = Some f /\ head (header_statuses (lg_raw f)) = Some st /\ s_code st = 212 /\
      forall k x, (j <= k <= i)%nat -> log !! k = Some x -> lg_authenticated x = true
  else unheard (lg_raw e) (lg_prepared e) (lg_outcome e).
Proof.
  intros Hrun He. pose proof (run_taken _ _ _ Hrun) as Ht.
  destruct (lg_authenticated e) eqn:Ha; [|exact (tk_unheard _ _ _ (Ht i e He) Ha)]. split.
  - destruct (tk_both _ _ _ (Ht i e He) Ha) as [Hc _]. clear Ha. revert e He Hc. induction i as [|i IH]; intros e He Hc.
  all: pose proof (authenticate_client_ok _ _ _ (eq_trans (tk_client _ _ _ (Ht _ e He)) (f_equal Ok Hc))) as Hok.
  all: destruct (h_credential (header (lg_raw e))) as [c|] eqn:Ec; [by eexists _, e, c|].
    + done.
    + unfold client_known in Hok. rewrite (last_before _ _ _ He) in Hok. destruct (log !! i) as [x|] eqn:Ex; [|done].
      destruct (IH x eq_refl Hok) as (j & f & c & Hj & ?). exists j, f, c. split; [lia|done].
  - revert e He Ha. induction i as [|i IH]; intros e He Ha; destruct (tk_both _ _ _ (Ht _ e He) Ha) as (_ & x & st & Hx & Hh & Hcode); [done|].
    rewrite (last_before _ _ _ He) in Hx. destruct Hcode as [Hcode|[_ Hprev]].
    + exists (S i), e, st. split_and!; [lia|lia|done|done|done|]. intros k y Hk Hy. by replace k with (S i) in Hy by lia; simplify_eq.
    + destruct (IH x Hx Hprev) as (j & f & st' & Hj & Hf & Hst' & Hc' & Hall). exists j, f, st'. split_and!; [lia|lia|done|done|done|].
      intros k y Hk Hy. destruct (decide (k = S i)) as [->|Hne]; [by simplify_eq|]. apply (Hall k y); [lia|done].
Qed.
(** ** Recovery *)
(** The expectation of the same replies, for the response number [n]. *)
Definition retarget (n : Z) (e : Expected) : Expected :=
  mk_Expected n (messages e) (message_ids e) (requests e) (references e) (order e) (ex_items e) (max_uri_bytes e).
Definition aimed (n : Z) (h : History) : History := mk_History (retarget n <$> hi_expected h) (hi_assembly h) (hi_limits h).
Lemma record_commands_retarget n i sent cs e :
  foldl (record_command i sent) (retarget n e) cs = retarget n (foldl (record_command i sent) e cs).
Proof. revert e. induction cs as [|c cs IH]; intros e; [done|]. simpl. by rewrite <-IH. Qed.
Lemma record_sent_retarget l n e sent e' : n <> 0 -> record_sent l e sent = Ok e' -> record_sent l (retarget n e) sent = Ok (retarget n e').
Proof.
  intros Hn H. unfold record_sent in *. apply bind_ok in H as (r & Hr & [= <-]).
  assert (record_checks l (retarget n e) sent = record_checks l e sent) as Heq.
  { unfold record_checks in *. change (response_message_id (retarget n e)) with n. rewrite (proj2 (Z.eqb_neq _ _) Hn).
    destruct (response_message_id e =? 0); [done|reflexivity]. }
  rewrite Heq, Hr. cbn -[foldl]. f_equal. pose proof (record_commands_retarget n (length (messages e)) sent (enumerate (sm_commands sent))
    (mk_Expected (response_message_id e) (messages e) (bs_insert (sm_id sent) (message_ids e)) (requests e) (references e)
      (bm_insert (sm_id sent, 0) (zlen (order e)) (order e)) (ex_items e) (max_uri_bytes e))) as Hf.
  unfold retarget in Hf at 1. simpl in Hf. cbn. rewrite Hf. done.
Qed.
Definition same_parties (m m' : Message) : Prop := h_source (header m) = h_source (header m') /\ h_target (header m) = h_target (header m').
Lemma same_parties_dec m m' : {same_parties m m'} + {~ same_parties m m'}.
Proof. unfold same_parties. apply (decide _). Defined.
Lemma decode_request_no_panic b : no_panic (decode_request b CodecLimits_default).
Proof.
  assert (forall items, no_panic (item_targets items)) as Ht.
  { intros items. apply res_map_no_panic. intros i _. by destruct (i_target i). }
  unfold decode_request, sent_snapshot. apply bind_no_panic; [apply decode_no_panic|intros m _].
  apply bind_no_panic; [|done]. apply bind_no_panic; [apply flattened_no_panic|intros flat _]. apply bind_no_panic; [|done].
  apply res_map_no_panic. intros c _. apply bind_no_panic; [|done]. destruct c; try done; (apply bind_no_panic; [apply Ht|done]).
Qed.
Lemma load_row_aimed raw raw' h x h' : same_parties raw raw' -> h_session_id (header raw) = h_session_id (header raw') ->
  h_message_id (header raw') <> 0 -> load_row key p raw h x = Ok h' ->
  load_row key p raw' (aimed (h_message_id (header raw')) h) x = Ok (aimed (h_message_id (header raw')) h').
Proof.
  intros [Hs Ht] Hid Hn H. destruct x as [i row]. unfold load_row in *. cbv zeta in *. rewrite <-Hid, <-Hs, <-Ht.
  apply bind_ok in H as (u & -> & H). simpl. apply bind_ok in H as (plain & -> & H). simpl. apply bind_ok in H as (m & -> & H). simpl.
  apply bind_ok in H as (u1 & -> & H). simpl. apply bind_ok in H as (plain' & -> & H). simpl. apply bind_ok in H as ([out sent] & -> & H). simpl.
  apply bind_ok in H as (u2 & -> & H). simpl. apply bind_ok in H as (u3 & -> & H). simpl. apply bind_ok in H as (a & Ha & H).
  destruct (hi_expected h) as [ex|]; simpl in *.
  - change (feed m (retarget (h_message_id (header raw')) ex)) with (feed m ex). rewrite Ha. simpl.
    apply bind_ok in H as (ex' & Hx%error_ok & [= <-]). by rewrite (record_sent_retarget _ _ _ _ _ Hn Hx).
  - injection Ha as <-. simpl. apply bind_ok in H as (ex' & Hx%error_ok & [= <-]).
    pose proof (record_sent_retarget _ _ _ _ _ Hn Hx) as Hr. unfold retarget in Hr at 1. simpl in Hr. unfold Expected_new. by rewrite Hr.
Qed.
Lemma load_rows_aimed raw raw' xs h h' : same_parties raw raw' -> h_session_id (header raw) = h_session_id (header raw') ->
  h_message_id (header raw') <> 0 -> res_for (load_row key p raw) xs h = Ok h' ->
  res_for (load_row key p raw') xs (aimed (h_message_id (header raw')) h) = Ok (aimed (h_message_id (header raw')) h').
Proof.
  intros Hp Hs Hn. revert h. induction xs as [|x xs IH]; intros h H; simpl in *; [by injection H as ->|].
  apply bind_ok in H as (h1 & H1 & H). rewrite (load_row_aimed _ _ _ _ _ Hp Hs Hn H1). simpl. by apply IH.
Qed.
(** The rows of a run are in order, so that [load] reads them as they are. *)
Definition numbered_rows (rows : list MessageRow) : list (Z * MessageRow) := zip (map Z.of_nat (seq 0 (length rows))) rows.
Definition nothing_yet : History := mk_History None Assembly_default CodecLimits_default.
Lemma sorted_rows k rows : (forall i row, rows !! i = Some row -> mr_id row = k + Z.of_nat i) -> sorted_le mr_id rows.
Proof.
  revert k. induction rows as [|row rows IH]; intros k H; [constructor|]. constructor.
  - apply (IH (k + 1)). intros i r Hi. rewrite (H (S i) r Hi). lia.
  - apply Forall_forall. intros r [i Hi]%list_elem_of_lookup. rewrite (H 0%nat row eq_refl), (H (S i) r Hi). apply Z.leb_le. lia.
Qed.
Lemma load_numbered s log raw : stored_log s log -> h_message_id (header raw) = zlen log + 1 -> zlen log <= l_session_messages CodecLimits_default ->
  load key p (st_messages s) raw = h ← res_for (load_row key p raw) (numbered_rows (st_messages s)) nothing_yet;
    Ok (mk_History (hi_expected h) (hi_assembly h) (negotiate (hi_limits h) raw)).
Proof.
  intros (Hlen & Hk & _) Hid Hmax. unfold zlen in Hid, Hmax. unfold load. rewrite sort_by_id.
  - rewrite take_ge by lia. unfold zlen. rewrite Hlen, Hid.
    rewrite (proj2 (Z.ltb_ge _ _)), Z.eqb_refl by done. simpl. unfold numbered_rows. by rewrite Hlen.
  - apply (sorted_rows 1). intros i row Hi. destruct (lookup_lt_is_Some_2 log i) as [e He]; [apply lookup_lt_Some in Hi; lia|].
    rewrite (kp_row _ _ _ (Hk i row e Hi He)). lia.
Qed.
Lemma numbered_app rows row : numbered_rows (rows ++ [row]) = numbered_rows rows ++ [(zlen rows, row)].
Proof.
  unfold numbered_rows, zlen. rewrite length_app, seq_app, map_app. simpl. by rewrite zip_with_app by (rewrite length_map, length_seq; done).
Qed.
(** Serving a message keeps its package or ends it. *)
Lemma manage_on_package ef raw prepared o : manage_on ef raw prepared = Ok o ->
  ou_package o = Pk_Aborted \/ ou_package o = ex_package (pp_exchange prepared).
Proof.
  unfold manage_on. cbv zeta. intros H. apply bind_ok in H as (x & Hx & H).
  assert (ex_package x = Pk_Aborted \/ ex_package x = ex_package (pp_exchange prepared)) as Hpk.
  { apply bind_ok in Hx as ([|] & _ & [= <-]); auto. }
  do 5 (apply bind_ok in H as (? & _ & H)). apply bind_ok in H as (c & _ & H). apply bind_ok in H as (cmds & _ & H).
  apply bind_ok in H as (r & Hr & H). apply bind_ok in H as (b & _ & [= <-]). simpl.
  unfold close_reply in Hr. cbv zeta in Hr. apply bind_ok in Hr as (m & _ & [= <-]). simpl. destruct (_ && (_ <=? _)); [by left|].
  destruct c.2; auto.
Qed.
(** A message that ended nothing was fed to the assembly as it came. *)
Lemma read_exchange_feed raw expected package a x : read_exchange raw expected package a = Ok x -> ex_stopped x = false ->
  ex_package x <> Pk_Aborted -> exists f, feed raw expected CodecLimits_default a = (Ok f, ex_assembly x).
Proof.
  unfold read_exchange. cbv zeta. intros H Hs Hp. apply bind_ok in H as (continuing & _ & H). apply bind_ok in H as (receipt & _ & H).
  destruct (assemble_input _ _ _ _ _ _) as [r a'] eqn:Ea. apply bind_ok in H as (out & Hr & H). subst r. apply bind_ok in H as (co & _ & [= <-]).
  simpl in *. apply orb_false_iff in Hs as [Hs _]. rewrite Hs in Ea. unfold assemble_input in Ea. unfold feed.
  destruct (feed_exchange raw expected _ false a) as [[f|fault|] a1]; [exists f; congruence| |done].
  destruct fault; [congruence|..]; assert (out.2 = Pk_Aborted) as Ho by (by simplify_eq); rewrite Ho in Hp; by destruct (existsb _ _).
Qed.
Lemma run_last s rg log e : run s rg (log ++ [e]) -> exists s0 rg0 now delay ef row, run s0 rg0 log /\
  decode CodecLimits_default (lg_bytes e) = Ok (lg_raw e) /\ h_session_id (header (lg_raw e)) = sid /\
  prepare key p rg0 now delay s0 (lg_raw e) (lg_bytes e) = Ok (Rc_Prepared (lg_prepared e)) /\
  manage_on ef (lg_raw e) (lg_prepared e) = Ok (lg_outcome e) /\ st_messages s = st_messages s0 ++ [row].
Proof.
  remember (log ++ [e]) as l eqn:El. intros H. destruct H as [rg|s0 rg0 log0 now delay random ef raw b prepared o s' rg' Hrun Hd Hs _ _ Hp Ho Hsave].
  { by destruct log. }
  apply app_inj_tail in El as [-> <-]. apply save_ok in Hsave as (reply & incoming & r & _ & _ & -> & _).
  eexists s0, rg0, now, delay, ef, _. simpl. split_and!; [done..|reflexivity].
Qed.
(** The state [h] that the messages before [e] left, from which [e] was prepared. *)
Record left_to (h : History) (e : Entry) : Prop := {
  lt_expected : pp_history (lg_prepared e) = hi_expected h;
  lt_limits : pp_limits (lg_prepared e) = negotiate (hi_limits h) (lg_raw e);
  lt_assembly : match hi_expected h with
    | Some ex =>
        if lg_authenticated e
        then exists f, feed (lg_raw e) ex CodecLimits_default (hi_assembly h) = (Ok f, ex_assembly (pp_exchange (lg_prepared e)))
        else hi_assembly h = ex_assembly (pp_exchange (lg_prepared e))
    | None => hi_assembly h = ex_assembly (pp_exchange (lg_prepared e))
    end
}.
(** What reading the transcript again makes of the open object after [e]: what it was, except that a
    message that was answered with a challenge counts now although it did not then. *)
Definition object_after (e : Entry) : sres Assembly :=
  let a := ex_assembly (pp_exchange (lg_prepared e)) in
  match pp_history (lg_prepared e) with
  | Some ex =>
      if lg_authenticated e then Ok a
      else match feed (lg_raw e) ex CodecLimits_default a with (Ok _, a) => Ok a | (Err _, _) => Err Se_Protocol | (Panic, _) => Panic end
  | None => Ok a
  end.
(** What may be answered to the messages so far, in the message [n]. *)
Definition expectation_after (e : Entry) (n : Z) (sent : SentMessage) : cres Expected :=
  match pp_history (lg_prepared e) with
  | Some ex => record_sent CodecLimits_default (retarget n ex) sent
  | None => Expected_new sent n CodecLimits_default
  end.
(** The stored reply is of this session and the other party's, and so is the message it answered. *)
Definition between (e : Entry) (reply raw : Message) : bool :=
  bool_decide (h_source (header (lg_raw e)) = h_source (header raw)) && bool_decide (h_target (header (lg_raw e)) = h_target (header raw))
  && bool_decide (h_target (header reply) = h_source (header raw)) && bool_decide (h_source (header reply) = h_target (header raw)).
(** The state for the message [raw] that follows [e]. *)
Definition resumed (e : Entry) (raw : Message) : sres History :=
  r ← or_else (decode_request (ou_response (lg_outcome e)) CodecLimits_default) Se_Protocol;
  _ ← stored_in (h_message_id (header (lg_raw e))) sid r.1;
  _ ← reject (negb (between e r.1 raw)) Se_Protocol;
  object ← object_after e;
  expected ← or_else (expectation_after e (h_message_id (header raw)) r.2) Se_Protocol;
  Ok (mk_History (Some expected) object (negotiate (pp_limits (lg_prepared e)) raw)).
Lemma stored_in_ok id session m : h_message_id (header m) = id -> h_session_id (header m) = session -> stored_in id session m = Ok ().
Proof. unfold stored_in. intros -> ->. by rewrite !Z.eqb_refl. Qed.
(** The row of [e] read after the rows before it. *)
Lemma load_row_last k row e raw h : keeps (k + 1) row e -> decode CodecLimits_default (lg_bytes e) = Ok (lg_raw e) ->
  lg_package e <> Pk_Aborted -> left_to h e -> h_session_id (header raw) = sid ->
  (h' ← load_row key p raw (aimed (h_message_id (header raw)) h) (k, row);
   Ok (mk_History (hi_expected h') (hi_assembly h') (negotiate (hi_limits h') raw))) = resumed e raw.
Proof.
  intros [Hid Hnum Hses Hres Hreq _ Hpk _] Hdec Hab [Hx Hl Ha] Hsid.
  unfold load_row. cbv zeta. rewrite Hid, Hsid, Z.eqb_refl, Hreq. simpl. rewrite Hdec. simpl. rewrite (stored_in_ok _ _ _ Hnum Hses). simpl.
  rewrite Hres. simpl. unfold resumed. destruct (decode_request _ _) as [[reply sent]|er|]; simpl; [|done..]. rewrite Hnum.
  destruct (stored_in _ _ _) as [u| |]; simpl; [|done..]. unfold between. rewrite !negb_andb.
  destruct (reject _ _) as [u'| |]; simpl; [|done..]. rewrite Hpk, (bool_decide_false (lg_package e = Pk_Aborted)) by done.
  unfold object_after, expectation_after. rewrite Hx, Hl. destruct (hi_expected h) as [ex|]; simpl in *.
  - change (feed (lg_raw e) (retarget (h_message_id (header raw)) ex)) with (feed (lg_raw e) ex). destruct (lg_authenticated e).
    + destruct Ha as (f & ->). simpl. by destruct (record_sent _ _ _).
    + rewrite Ha. destruct (feed _ _ _ _) as [[f|er|] a]; simpl; [|done..]. by destruct (record_sent _ _ _).
  - rewrite Ha. by destruct (Expected_new _ _ _).
Qed.
(** The messages before the last left what it was prepared from. *)
Lemma load_left s0 log e rg0 now delay : run s0 rg0 log -> h_session_id (header (lg_raw e)) = sid ->
  prepare key p rg0 now delay s0 (lg_raw e) (lg_bytes e) = Ok (Rc_Prepared (lg_prepared e)) ->
  ex_stopped (pp_exchange (lg_prepared e)) = false -> ex_package (pp_exchange (lg_prepared e)) <> Pk_Aborted ->
  exists h, res_for (load_row key p (lg_raw e)) (numbered_rows (st_messages s0)) nothing_yet = Ok h /\ left_to h e.
Proof.
  intros Hrun Hsid Hp Hst Hpk. pose proof (run_stored _ _ _ Hrun) as Hs0. apply prepare_ok in Hp as (_ & Hdec & h & [_ Hh Hx Hl Hsv _ Hau _ Hex]).
  destruct (decision_continue _ _ _ _ _ _ _ Hs0 Hdec) as (Hstored & Hid & Hrow). cbv zeta in Hex. destruct (pp_stored (lg_prepared e)) as [row|] eqn:Er.
  - destruct Hrow as (_ & _ & _ & Hmax). rewrite (load_numbered s0 log) in Hh by (done || lia).
    apply bind_ok in Hh as (h0 & -> & [= <-]). exists h0. split; [done|]. simpl in *. split; [done|done|]. unfold lg_authenticated.
    destruct (pp_authenticated (lg_prepared e)).
    + destruct Hex as (ex & Hxx & Hre). rewrite Hxx. by eapply read_exchange_feed.
    + rewrite Hex. by destruct (hi_expected h0).
  - injection Hh as <-. destruct Hs0 as (Hlen & _ & Hf). rewrite <-Hstored in Hf. subst log. destruct (st_messages s0); [|done].
    exists nothing_yet. split; [done|]. split; [done|done|]. simpl. injection Hsv as Hsv. rewrite <-Hsv, andb_false_r in Hau. rewrite Hau in Hex. by rewrite Hex.
Qed.
(** A message from others than the parties of the session cannot continue it. *)
Lemma load_row_strangers raw raw' h x h' : ~ same_parties raw raw' -> h_session_id (header raw) = h_session_id (header raw') ->
  load_row key p raw h x = Ok h' -> load_row key p raw' h x = Err Se_Protocol.
Proof.
  intros Hne Hid H. destruct x as [i row]. unfold load_row in *. cbv zeta in *. rewrite <-Hid.
  apply bind_ok in H as (u & -> & H). simpl. apply bind_ok in H as (plain & -> & H). simpl. apply bind_ok in H as (m & -> & H). simpl.
  apply bind_ok in H as (u1 & -> & H). simpl. apply bind_ok in H as (plain' & -> & H). simpl. apply bind_ok in H as ([out sent] & -> & H). simpl.
  apply bind_ok in H as (u2 & -> & H). simpl. apply bind_ok in H as (u3 & Hr & _). destruct u3. apply reject_ok in Hr. rewrite !orb_false_iff in Hr.
  destruct Hr as (((Hs & Ht) & _) & _). apply negb_false_iff, bool_decide_eq_true in Hs, Ht.
  destruct (decide (h_source (header m) = h_source (header raw'))) as [Hs'|Hs']; [|by rewrite (bool_decide_false _ Hs')].
  destruct (decide (h_target (header m) = h_target (header raw'))) as [Ht'|Ht']; [|by rewrite (bool_decide_false _ Ht'), orb_true_r].
  destruct Hne. split; congruence.
Qed.
Lemma resumed_strangers e raw : ~ same_parties (lg_raw e) raw -> resumed e raw = Err Se_Protocol.
Proof.
  intros Hne. unfold resumed. pose proof (decode_request_no_panic (ou_response (lg_outcome e))) as Hnp.
  destruct (decode_request _ _) as [[reply sent]|er|]; simpl; [|done..]. unfold stored_in, reject.
  destruct (_ || _); simpl; [done|]. assert (between e reply raw = false) as ->; [|done]. unfold between.
  destruct (decide (h_source (header (lg_raw e)) = h_source (header raw))) as [Hs|Hs]; [|by rewrite (bool_decide_false _ Hs)].
  destruct (decide (h_target (header (lg_raw e)) = h_target (header raw))) as [Ht|Ht]; [|by rewrite (bool_decide_false _ Ht), andb_false_r].
  by destruct Hne.
Qed.
(** The session is open: the last message ended nothing. *)
Lemma open_session s rg log e row : run s rg (log ++ [e]) -> st_session s = Some row -> sr_state row = St_Challenge \/ sr_state row = St_Collecting ->
  ex_stopped (pp_exchange (lg_prepared e)) = false /\ lg_package e <> Pk_Aborted.
Proof.
  intros Hrun Hrow Hopen. destruct (run_stored _ _ _ Hrun) as (_ & _ & Hs). rewrite Hrow in Hs.
  destruct Hs as (i & x & Hl & _ & _ & _ & _ & Hstate). apply app_inj_tail in Hl as [_ <-].
  rewrite Hstate in Hopen. unfold next_state in Hopen. destruct (ex_stopped _); simpl in Hopen; [by destruct Hopen|].
  split; [done|]. intros Hab. rewrite bool_decide_true in Hopen by done. by destruct Hopen.
Qed.
Lemma last_row s rg log e s0 rg0 r : run s rg (log ++ [e]) -> run s0 rg0 log -> st_messages s = st_messages s0 ++ [r] ->
  keeps (zlen (st_messages s0) + 1) r e.
Proof.
  intros Hrun Hrun0 Hrows. destruct (run_stored _ _ _ Hrun) as (_ & Hk & _). destruct (run_stored _ _ _ Hrun0) as (Hlen & _).
  apply (Hk (length (st_messages s0))); [by rewrite Hrows, lookup_app_r, Nat.sub_diag by lia|].
  rewrite lookup_app_r by lia. by replace (length (st_messages s0) - length log)%nat with 0%nat by lia.
Qed.
(** C13: A request starts from where the last one ended. When the next message of an open session is taken
    up, reading all the stored messages again gives what the last message alone determines: the
    expectation it was served with, extended with the answers to its own reply as that reply reads
    back, its limits, and the very assembly it left, with the open object; the earlier rows, of which
    only the bytes are kept, come out as they did before. It fails exactly when the stored reply of the
    last message cannot be read back or is not of this session, when the new message is from other
    parties, or when nothing may be expected after the reply. One thing is not as it was: a message
    of an open session that was not authenticated is fed to the assembly now, although it was not when
    it was served, and reading also fails when the assembly refuses it. *)
Theorem session_resumes s rg log e now delay raw d row :
  run s rg (log ++ [e]) -> session_decision key p now delay s raw d = Ok (Continue (Some row)) -> h_session_id (header raw) = sid ->
  load key p (st_messages s) raw = resumed e raw.
Proof.
  intros Hrun Hdec Hsid. pose proof (run_stored _ _ _ Hrun) as Hst.
  destruct (decision_continue _ _ _ _ _ _ _ Hst Hdec) as (Hrow & Hid & Hopen & _ & _ & Hmax).
  rewrite (load_numbered s _ raw Hst Hid) by lia. destruct (run_last _ _ _ _ Hrun) as (s0 & rg0 & now0 & delay0 & ef & r & Hrun0 & Hd & Hse & Hp & Ho & Hrows).
  destruct (open_session _ _ _ _ _ Hrun (eq_sym Hrow) Hopen) as [Hns Hna].
  assert (ex_package (pp_exchange (lg_prepared e)) <> Pk_Aborted) as Hna' by (destruct (manage_on_package _ _ _ _ Ho) as [|Heq]; [done|by rewrite <-Heq]).
  destruct (load_left _ _ _ _ _ _ Hrun0 Hse Hp Hns Hna') as (h & Hh & Hleft). pose proof (last_row _ _ _ _ _ _ _ Hrun Hrun0 Hrows) as Hkr.
  assert (h_message_id (header raw) <> 0) as Hn by (rewrite Hid; unfold zlen; lia).
  rewrite Hrows, numbered_app, res_for_app. destruct (same_parties_dec (lg_raw e) raw) as [Hpar|Hpar].
  - change nothing_yet with (aimed (h_message_id (header raw)) nothing_yet).
    rewrite (load_rows_aimed (lg_raw e) raw _ _ _ Hpar ltac:(congruence) Hn Hh). cbn [res_for]. rewrite <-(load_row_last _ _ _ _ _ Hkr Hd Hna Hleft Hsid).
    change (Ok ?x ≫= ?f) with (f x). cbv beta. by destruct (load_row _ _ _ _ _).
  - rewrite (resumed_strangers _ _ Hpar). destruct (numbered_rows (st_messages s0)) as [|x xs] eqn:Exs.
    + injection Hh as <-. cbn [res_for]. change (Ok ?x ≫= ?f) with (f x). cbv beta.
      pose proof (load_row_last _ _ _ _ _ Hkr Hd Hna Hleft Hsid) as Hlast. rewrite (resumed_strangers _ _ Hpar) in Hlast.
      change (aimed (h_message_id (header raw)) nothing_yet) with nothing_yet in Hlast. by destruct (load_row _ _ _ _ _).
    + simpl in Hh. apply bind_ok in Hh as (h1 & Hx & _). simpl. by rewrite (load_row_strangers _ _ _ _ _ Hpar ltac:(congruence) Hx).
Qed.
(** ** Unfinished packages *)
(** Without its end a package of a device is taken as unfinished, unless the device aborted it or its
    object had to be refused. *)
Definition device_aborts (raw : Message) : bool := existsb is_abort (commands raw).
Definition interrupted (x : Exchange) : Prop := last (ex_controls x) = Some (AlertCommand 0 SessionAbort).
Definition left_open (raw : Message) (x : Exchange) : Prop :=
  ex_package x = Pk_Partial \/ ex_package x = Pk_Aborted /\ (ex_stopped x = true \/ device_aborts raw = true \/ interrupted x).
Lemma interruption_last raw fault : fault <> Fault_Invalid -> last (interruption raw fault) = Some (AlertCommand 0 SessionAbort).
Proof. by destruct fault. Qed.
Lemma read_exchange_unfinished raw expected a x : read_exchange raw expected Pk_Partial a = Ok x -> left_open raw x.
Proof.
  unfold read_exchange. cbv zeta. intros H. apply bind_ok in H as (continuing & _ & H). apply bind_ok in H as (receipt & _ & H).
  destruct (assemble_input _ _ _ _ _ _) as [r a'] eqn:Ea. apply bind_ok in H as (out & Hr & H). subst r. apply bind_ok in H as (co & _ & [= <-]).
  unfold left_open, interrupted, device_aborts. simpl. destruct (existsb is_abort (commands raw)); [right; by auto|].
  unfold assemble_input in Ea. destruct (feed_exchange _ _ _ _ _) as [[f|fault|] a1]; [|destruct (decide (fault = Fault_Invalid)) as [->|Hf]|]; [| done | |done].
  - left. injection Ea as <- _. simpl. by destruct (given _).
  - right. assert (out = (with_final (without is_results raw) false, interruption raw fault, Pk_Aborted)) as -> by (by destruct fault; simplify_eq).
    simpl. split; [done|]. destruct (_ || _); [by left|right; right]. by apply interruption_last.
Qed.
Lemma prepared_unfinished key' rg now delay s raw b prepared : prepare key' p rg now delay s raw b = Ok (Rc_Prepared prepared) ->
  final_message raw = false -> left_open raw (pp_exchange prepared) /\ forallb acknowledgement (commands (pp_response prepared)) = true.
Proof.
  intros H Hf. unfold prepare in H. apply bind_ok in H as (d & _ & H). apply bind_ok in H as (dec & _ & H). destruct dec as [| |stored]; try done.
  unfold prepare_session in H. apply bind_ok in H as (client & _ & H). apply bind_ok in H as (h & _ & H).
  apply bind_ok in H as (server & _ & H). apply bind_ok in H as (initial & _ & H). cbv zeta in H. rewrite Hf in H.
  destruct (if client && sv_authenticated server then delay else None); [done|]. apply bind_ok in H as (response & Hr & H).
  apply bind_ok in H as (exchange & He & H). apply bind_ok in H as (declared & _ & [= <-]). simpl.
  split; [|by eapply management_response_statuses]. destruct (client && sv_authenticated server).
  - apply bind_ok in He as (expected & _ & He). by eapply read_exchange_unfinished.
  - injection He as <-. by left.
Qed.
(** The reply holds the next range of the server's command: the device answered the last one with 213,
    the command is still wanted, and the data goes on where that range ended. *)
Definition next_piece (ef : Effects) (prepared : Prepared) (m : Message) : Prop :=
  exists f command frame, open_frame ef = Ok (Some f) /\ of_eligible f = Ok true /\ of_status f = Some 213 /\ of_accepted f = true /\
    of_end f <> of_total f /\ of_command f = Ok command /\
    fragment (retain_received_acks (pp_response prepared) (ex_input (pp_exchange prepared)) []) command (of_end f)
      (l_syncml_bytes (pp_limits prepared)) (pp_limits prepared) = Ok frame /\
    m = fr_message frame /\
    forall i data, single_item command = Some i -> i_data i = Some data -> 0 < of_end f ->
      of_end f < fr_end frame /\ exists part, slice data (of_end f) (fr_end frame) = Ok part /\
        m = piece (retain_received_acks (pp_response prepared) (ex_input (pp_exchange prepared)) []) command i data (of_end f) (fr_end frame) part.
Lemma continue_on_sent ef prepared m : continue_on ef (retain_received_acks (pp_response prepared) (ex_input (pp_exchange prepared)) [])
    (pp_limits prepared) = Ok (m, Cont_Sent) -> next_piece ef prepared m.
Proof.
  unfold continue_on. intros H. apply bind_ok in H as ([f|] & Hf & H); [|done]. destruct (_ <=? _); [done|].
  apply bind_ok in H as (eligible & He & H). destruct eligible; simpl in H; [|done]. destruct (_ <? _); [done|].
  destruct (frame_continuation _ _ _ _) eqn:Hc; [done| |done]. apply bind_ok in H as (command & Hcmd & H).
  destruct (fragment _ _ _ _ _) as [frame|[]|] eqn:Hfr; try done. injection H as <-. unfold frame_continuation in Hc.
  destruct (has_terminal _ && _); [done|]. destruct (Z.eqb_spec (of_end f) (of_total f)); [done|].
  destruct (decide (of_status f = Some 213)) as [Hst|]; [|by rewrite bool_decide_false in Hc].
  rewrite bool_decide_true in Hc by done. destruct (of_accepted f) eqn:Hacc; [|done].
  exists f, command, frame. split_and!; [done..|]. intros i data Hi Hd Hpos.
  pose proof (fragment_answer (retain_received_acks (pp_response prepared) (ex_input (pp_exchange prepared)) []) command i data Hi Hd
    (l_syncml_bytes (pp_limits prepared)) (pp_limits prepared) (of_end f) ltac:(lia)) as Ha.
  rewrite Hfr in Ha. destruct Ha as [[? _]|(Hlt & part & wire & Hp & Hm & _)]; [lia|]. split; [done|]. by exists part.
Qed.
Lemma continue_on_kept ef m l m' c : continue_on ef m l = Ok (m', c) -> c <> Cont_Sent -> m' = m.
Proof.
  unfold continue_on. intros H Hc. apply bind_ok in H as ([f|] & _ & H); [|congruence]. destruct (_ <=? _); [congruence|].
  apply bind_ok in H as (eligible & _ & H). destruct (negb eligible); [congruence|]. destruct (_ <? _); [congruence|].
  destruct (frame_continuation _ _ _ _); [congruence| |congruence]. apply bind_ok in H as (command & _ & H).
  destruct (fragment _ _ _ _ _) as [frame|[]|]; congruence.
Qed.
(** Why a package is aborted although the device did not end it. *)
Definition abort_reason (ef : Effects) (raw : Message) (prepared : Prepared) : Prop :=
  l_session_messages (pp_limits prepared) <= h_message_id (header raw) \/
  (exists r, r ∈ ex_continuing (pp_exchange prepared) /\ result_eligible ef r = Ok false) \/
  interrupted (pp_exchange prepared) \/
  (exists m, continue_on ef (retain_received_acks (pp_response prepared) (ex_input (pp_exchange prepared)) []) (pp_limits prepared) = Ok (m, Cont_Abort)).
Lemma kept_acknowledgements input controls package c response : package <> Pk_Complete -> c <> Cont_Sent ->
  forallb acknowledgement (commands response) = true ->
  forallb acknowledgement (commands (kept_reply input controls package c response)) = true /\
  final_message (kept_reply input controls package c response) = false.
Proof.
  intros Hp Hc Ha. unfold kept_reply. rewrite bool_decide_false by done. destruct c; simpl; [| |done|]; (split; [by apply forallb_filter|done]).
Qed.
(** The three ends of the reply to an unfinished package of an exchange that is not stopped. *)
Definition ended (controls : list Command) (m : Message) : Prop :=
  exists kept placed, commands m = kept ++ placed /\ numbered_after kept controls placed /\ forallb acknowledgement kept = true /\ final_message m = false.
Lemma close_piece l raw input m1 m pk : close_reply l raw input false [] Pk_Partial Cont_Sent m1 = Ok (m, pk) -> m = m1 /\ pk = Pk_Partial.
Proof. unfold close_reply. simpl. by intros [= <- <-]. Qed.
Lemma close_more l raw input controls c r m pk : c = Cont_None \/ c = Cont_Waiting -> forallb acknowledgement (commands r) = true ->
  close_reply l raw input false controls Pk_Partial c r = Ok (m, pk) ->
  ended (controls ++ [final_control (l_session_messages l <=? h_message_id (header raw))]) m /\
  pk = if l_session_messages l <=? h_message_id (header raw) then Pk_Aborted else Pk_Partial.
Proof.
  intros Hc Ha H. apply close_reply_ok in H as (placed & Hm & Hn & Hf & _ & Hpk).
  destruct (kept_acknowledgements input controls Pk_Partial c r) as [Hk Hkf]; [done|by destruct Hc as [->| ->]|done|].
  rewrite Hkf in Hf. by destruct Hc as [->| ->]; (split; [eexists _, placed|]).
Qed.
Lemma close_abort l raw input controls c r m pk : c = Cont_None \/ c = Cont_Abort -> forallb acknowledgement (commands r) = true ->
  close_reply l raw input false controls Pk_Aborted c r = Ok (m, pk) -> ended controls m /\ pk = Pk_Aborted.
Proof.
  intros Hc Ha H. apply close_reply_ok in H as (placed & Hm & Hn & Hf & _ & Hpk).
  destruct (kept_acknowledgements input controls Pk_Aborted c r) as [Hk Hkf]; [done|by destruct Hc as [->| ->]|done|].
  rewrite Hkf in Hf. destruct Hc as [->| ->]; simpl in Hn, Hpk; rewrite app_nil_r in Hn; (split; [by eexists _, placed|done]).
Qed.
Lemma continue_reply_cases ef prepared outgoing r c : let x := pp_exchange prepared in
  ex_package x = Pk_Partial -> forallb acknowledgement (commands (pp_response prepared)) = true ->
  continue_reply ef (pp_limits prepared) false outgoing x (pp_response prepared) = Ok (r, c) ->
  ((c = Cont_None \/ c = Cont_Waiting) /\ forallb acknowledgement (commands r) = true) \/
  ex_controls x = [] /\ ((c = Cont_Sent /\ next_piece ef prepared r) \/
    (c = Cont_Abort /\ forallb acknowledgement (commands r) = true /\
     exists m, continue_on ef (retain_received_acks (pp_response prepared) (ex_input x) []) (pp_limits prepared) = Ok (m, Cont_Abort))).
Proof.
  intros x Hp Ha. unfold continue_reply. cbv zeta. rewrite Hp. simpl. rewrite andb_true_r. destruct (ex_controls x) as [|k ks] eqn:Ek; simpl.
  - rewrite andb_true_r. destruct outgoing; [|by intros [= <- <-]; auto]. intros H. assert (c = Cont_Sent \/ c <> Cont_Sent) as [->|Hc] by (destruct c; auto).
    { right. split; [done|left]. split; [done|]. by apply continue_on_sent. }
    pose proof (continue_on_kept _ _ _ _ _ H Hc) as Hr. rewrite Hr in H |- *.
    assert (forallb acknowledgement (commands (retain_received_acks (pp_response prepared) (ex_input x) [])) = true) as Hka by (by apply forallb_filter).
    destruct c; [by auto|by auto|done|]. right. split; [done|right]. split_and!; [done|done|by eexists].
  - rewrite andb_false_r. intros [= <- <-]. destruct outgoing; auto.
Qed.
(** C30: A package that did not end goes on or the session ends. When a message of a device came without
    the end of its package, the reply, unless the exchange is stopped (and then it is final), does one
    of four things. It is the reply's acknowledgements with the next piece of the server's own command,
    after the device answered the last piece with 213, from exactly where that piece ended; or it is
    not final and asks for more messages, while the session admits another one, and the package stays
    unfinished; or it is not final and ends the session, because no more messages are admitted, an
    object's read is no longer wanted, its object had to be refused, or the server's command cannot go
    on, and the package is aborted; or the device itself ended the session. Only acknowledgements come
    before the controls, which follow in order under the numbers after the largest one. *)
Theorem unfinished_package_continues rg now delay s raw b ef prepared o :
  prepare key p rg now delay s raw b = Ok (Rc_Prepared prepared) -> final_message raw = false -> manage_on ef raw prepared = Ok o ->
  exists m, encode_outbound m (pp_limits prepared) = Ok (ou_response o) /\
    if ex_stopped (pp_exchange prepared) then final_message m = true
    else
      (next_piece ef prepared m /\ ou_package o = Pk_Partial) \/
      (ended (ex_controls (pp_exchange prepared) ++ [AlertCommand 0 MoreMessages]) m /\ ou_package o = Pk_Partial /\
       h_message_id (header raw) < l_session_messages (pp_limits prepared)) \/
      (exists controls, ended (controls ++ [AlertCommand 0 SessionAbort]) m /\ ou_package o = Pk_Aborted /\ abort_reason ef raw prepared) \/
      (ended (ex_controls (pp_exchange prepared)) m /\ ou_package o = Pk_Aborted /\ device_aborts raw = true).
Proof.
  intros Hp Hfin H. destruct (prepared_unfinished _ _ _ _ _ _ _ _ Hp Hfin) as [Hun Hack]. clear Hp Hfin.
  assert (quiet prepared) as Hq by (right; by destruct Hun as [->|[-> _]]).
  destruct (manage_on_quiet _ _ _ _ H Hq) as (x & outgoing & [r c] & m & Hx & _ & Hc & Hm & He). simpl in Hm. exists m. split; [done|]. clear H Hq He.
  destruct (ex_stopped (pp_exchange prepared)) eqn:Hst.
  { by apply close_reply_ok in Hm as (_ & _ & _ & -> & _). }
  apply admit_continuing_ok in Hx as [->|[-> Hr]].
  2:{ unfold continue_reply in Hc. simpl in Hc. rewrite !andb_false_r in Hc. simpl in Hc. injection Hc as <- <-. simpl in Hm.
    apply close_abort in Hm as [Hend ->]; [|by left|done]. right; right; left. exists []. split; [exact Hend|]. split; [done|]. right; by left. }
  destruct Hun as [Hpk|[Hpk Hwhy]]; rewrite Hpk in Hm.
  - destruct (continue_reply_cases _ _ _ _ _ Hpk Hack Hc) as [[Hcs Har]|[Hnone [[-> Hpiece]|(-> & Har & Hcont)]]].
    + assert (aborts c = false) as Hab by (by destruct Hcs as [->| ->]). rewrite Hab in Hm. apply close_more in Hm as [Hend ->]; [|done|done].
      destruct (Z.leb_spec (l_session_messages (pp_limits prepared)) (h_message_id (header raw))) as [Hl|Hl].
      * right; right; left. eexists. split; [exact Hend|]. split; [done|by left].
      * right; left. by split.
    + rewrite Hnone in Hm. apply close_piece in Hm as [-> ->]. by left.
    + apply close_abort in Hm as [Hend ->]; [|by right|done]. right; right; left. eexists. split; [exact Hend|]. split; [done|]. by do 3 right.
  - unfold continue_reply in Hc. rewrite Hpk in Hc. simpl in Hc. rewrite !andb_false_r in Hc. simpl in Hc. injection Hc as <- <-. simpl in Hm.
    apply close_abort in Hm as [Hend ->]; [|by left|done]. right; right. destruct Hwhy as [?|[Hda|Hint]]; [congruence|by right|left].
    apply last_Some in Hint as [l' Hl]. exists l'. rewrite <-Hl. split; [exact Hend|]. split; [done|]. right; right; left. unfold interrupted. by rewrite Hl, last_snoc.
Qed.
End Sessions.

(** ** A session of three messages *)
Module SessionExample.
Import Reference XmlExample ProtectionExample.
#[local] Existing Instance uuid_crate.
#[local] Instance toy_md5 : Md5 := {| md5 b := [65 + foldr Z.add 0 b mod 26] |}.
#[local] Instance toy_encoder : StandardEncoder := {| standard_encode b := b ++ repeat 65 (Z.to_nat (- zlen b mod 4)) |}.
#[local] Instance session_context : SessionContext := {|
  derive_context t owner purpose _ := Some (tenant_octets t ++ str_bytes owner ++ str_bytes purpose);
  binding_to_string b := Some (int_to_string b.1.1.1.1 ++ lit ":" ++ int_to_string b.1.1.1.2 ++ lit ":" ++ b.1.2 ++ lit ":" ++ int_to_string b.2)
|}.
Definition limits : CodecLimits := CodecLimits_default.
Definition device : Principal := mk_Principal (Tenant 1 eq_refl) 5 1 9.
Definition ring_of_server : Protector := first_ring.
Lemma server_ring : ring_of (key_material 1) [] (key_material 1) ring_of_server.
Proof. apply with_fingerprint_ok. reflexivity. Qed.
Definition account : Registration := mk_Registration (mk_Secrets (lit "open") (lit "sesame")) (repeat 0 16) (lit "mdm").
Definition from_device (id : Z) (c : option Credential) : Header := mk_Header 7 id (lit "https://mdm.example") (lit "urn:device") c None.
Definition basic : Meta := mk_Meta (Some (lit "b64")) (Some (lit "syncml:auth-basic")) None None None.
Definition password : Credential := mk_Credential basic (standard_encode (str_bytes (uuid_to_string (pr_registration device) ++ lit ":open"))).
Definition info (node : rstr) : Item := mk_Item false (Some (lit "./DevInfo/" ++ node)) None None (Some (lit "x")).
Definition first_message : Message := mk_Message (from_device 1 (Some password))
  [AlertCommand 1 ClientInitiated; DevInfo 2 (map info [lit "DevId"; lit "Man"; lit "Mod"; lit "DmV"; lit "Lang"])] true.
(** The device accepts the server's digest in its second message, and once more. *)
Definition accepted (id : Z) : Message := mk_Message (from_device id None)
  [StatusCommand (mk_Status 1 (id - 1) 0 N_SyncHdr [] [] 212 [] None None)] true.
(** Another opening under the first number. *)
Definition other : Message := mk_Message (from_device 1 None) [AlertCommand 1 ClientInitiated] true.
Definition wire (m : Message) : bytes := get [] (encode limits m).
(** Nothing to send, a collection that goes on. *)
Definition effects : Effects :=
  mk_Effects (fun _ => Ok true) (fun _ m _ => Ok m) (Ok false) (fun m _ => Ok m) (Ok true) (fun m _ => Ok m)
    (fun m => Ok (m, true)) (Ok None) (fun _ _ _ m => Ok (m, false)).

(** *** The turns *)
Definition random (n : Z) : option bytes * option bytes := (nonce n, nonce (n + 1)).
Definition state : Type := Store * Registration.
Definition begin : state := (mk_Store None [], account).
Definition no_prepared : Prepared :=
  mk_Prepared (challenged other Pk_Partial Assembly_default) None limits other [] [] false false (mk_ServerAuthentication [] [] false) false None.
Definition prepared_at (now : Z) (st : state) (m : Message) : Prepared :=
  match prepare ring_of_server device st.2 now None st.1 m (wire m) with Ok (Rc_Prepared x) => x | _ => no_prepared end.
Definition entry_at (now : Z) (st : state) (m : Message) : Entry :=
  let x := prepared_at now st m in mk_Entry m (wire m) x (get (mk_Served [] Pk_Partial false false) (manage_on effects m x)).
Definition turn (now n : Z) (st : state) (m : Message) : state :=
  let e := entry_at now st m in let o := lg_outcome e in
  get begin (save ring_of_server device st.2 now (random n) st.1 m (wire m) (lg_prepared e) (ou_response o) (ou_package o) (ou_pending o) (ou_complete o)).
Definition is_ok {E A} (r : res E A) : bool := match r with Ok _ => true | _ => false end.
Definition is_prepared (r : sres Reception) : bool := match r with Ok (Rc_Prepared _) => true | _ => false end.
Definition goes_through (now n : Z) (st : state) (m : Message) : bool :=
  let e := entry_at now st m in let o := lg_outcome e in
  is_prepared (prepare ring_of_server device st.2 now None st.1 m (wire m))
  && is_ok (manage_on effects m (lg_prepared e))
  && is_ok (save ring_of_server device st.2 now (random n) st.1 m (wire m) (lg_prepared e) (ou_response o) (ou_package o) (ou_pending o) (ou_complete o)).
#[local] Notation device_session := (run device 7 ring_of_server).
Lemma get_ok {E A} (d : A) (r : res E A) : is_ok r = true -> r = Ok (get d r).
Proof. by destruct r. Qed.
Lemma prepared_ok now st m : is_prepared (prepare ring_of_server device st.2 now None st.1 m (wire m)) = true ->
  prepare ring_of_server device st.2 now None st.1 m (wire m) = Ok (Rc_Prepared (prepared_at now st m)).
Proof. unfold prepared_at. generalize (prepare ring_of_server device st.2 now None st.1 m (wire m)). by intros [[]| |]. Qed.
Lemma turn_taken now n st m log : device_session st.1 st.2 log -> h_session_id (header m) = 7 ->
  decode CodecLimits_default (wire m) = Ok m -> goes_through now n st m = true ->
  device_session (turn now n st m).1 (turn now n st m).2 (log ++ [entry_at now st m]).
Proof.
  intros Hrun Hs Hd Hg. unfold goes_through in Hg. cbv zeta in Hg. rewrite !andb_true_iff in Hg. destruct Hg as ((Hp & Ho) & Hsave).
  eapply (run_message device 7 ring_of_server st.1 st.2 log now None (random n) effects m (wire m) (prepared_at now st m));
    [exact Hrun|exact Hd|exact Hs|apply nonce_ok|apply nonce_ok|exact (prepared_ok _ _ _ Hp)|exact (get_ok _ _ Ho)|].
  rewrite <-surjective_pairing. exact (get_ok _ _ Hsave).
Qed.
Definition one : state := turn 0 1 begin first_message.
Definition first_entry : Entry := entry_at 0 begin first_message.
Definition two : state := turn 1 3 one (accepted 2).
Definition second_entry : Entry := entry_at 1 one (accepted 2).
Lemma two_taken : device_session two.1 two.2 ([first_entry] ++ [second_entry]).
Proof.
  apply turn_taken; [|done|vm_compute; reflexivity..]. apply (turn_taken 0 1 begin first_message []); [apply run_start|done|vm_compute; reflexivity..].
Qed.

Lemma session_authentication_witness : (exists m, encode_outbound m limits = Ok (ou_response (lg_outcome first_entry)) /\
    forallb envelope (commands m) = true) /\
  exists c st, h_credential (header first_message) = Some c /\ presents device (mk_Secrets (lit "open") (lit "sesame")) c /\
    head (header_statuses (accepted 2)) = Some st /\ s_code st = 212.
Proof.
  assert (lg_authenticated second_entry = true) as Ha by (vm_compute; reflexivity).
  assert (lg_authenticated first_entry = false) as Hf by (vm_compute; reflexivity).
  pose proof (session_authentication device 7 ring_of_server _ _ _ server_ring two.1 two.2 _ 1 second_entry two_taken eq_refl) as H.
  pose proof (session_authentication device 7 ring_of_server _ _ _ server_ring two.1 two.2 _ 0 first_entry two_taken eq_refl) as Hu.
  rewrite Hf in Hu. split.
  { destruct (uh_reply _ _ _ Hu) as (m & Hm & Henv). exists m. split; [|exact Henv].
    assert (pp_limits (lg_prepared first_entry) = limits) as Hl by (vm_compute; reflexivity). rewrite Hl in Hm. exact Hm. }
  rewrite Ha in H. destruct H as [(j & g & c & Hj & Hg & Hc & Hp) (j' & g' & st & Hj' & Hg' & Hst & H212 & _)].
  assert (rg_secrets two.2 = mk_Secrets (lit "open") (lit "sesame")) as Hsec by (vm_compute; reflexivity). rewrite Hsec in Hp. clear Ha Hsec Hf Hu.
  assert (j' = 1%nat) as -> by (clear -Hj'; lia). injection Hg' as <-. exists c, st. split; [|exact (conj Hp (conj Hst H212))].
  destruct j as [|[|j]]; [injection Hg as <-; exact Hc|injection Hg as <-; discriminate Hc|exfalso; clear -Hj; lia].
Defined.
Definition row_of (st : state) : SessionRow := match st_session st.1 with Some row => row | None => mk_SessionRow 0 0 St_Complete 0 false [] 0 false end.
Lemma session_resumes_witness : is_ok (load ring_of_server device (st_messages two.1) (accepted 3)) = true /\
  load ring_of_server device (st_messages two.1) (accepted 3) = resumed 7 second_entry (accepted 3).
Proof.
  split; [vm_compute; reflexivity|].
  apply (session_resumes device 7 ring_of_server _ _ _ server_ring two.1 two.2 [first_entry] second_entry 2 None (accepted 3) [] (row_of two) two_taken);
    [vm_compute; reflexivity|reflexivity].
Defined.
(** A package that goes on: the device sends its opening in two messages. *)
Definition partial_opening : Message := mk_Message (header first_message) (commands first_message) false.
Lemma unfinished_package_continues_witness : exists m, encode_outbound m limits = Ok (ou_response (lg_outcome (entry_at 0 begin partial_opening))) /\
  ended [AlertCommand 0 MoreMessages] m.
Proof.
  destruct (unfinished_package_continues device ring_of_server begin.2 0 None begin.1 partial_opening (wire partial_opening) effects
    (prepared_at 0 begin partial_opening) (lg_outcome (entry_at 0 begin partial_opening))) as (m & He & H);
    [apply prepared_ok; vm_compute; reflexivity|reflexivity|vm_compute; reflexivity|].
  assert (pp_limits (prepared_at 0 begin partial_opening) = limits /\ ex_stopped (pp_exchange (prepared_at 0 begin partial_opening)) = false /\
    ex_controls (pp_exchange (prepared_at 0 begin partial_opening)) = [] /\
    ou_package (lg_outcome (entry_at 0 begin partial_opening)) = Pk_Partial) as (Hl & Hs & Hc & Hp) by (split_and!; vm_compute; reflexivity).
  rewrite Hs, Hc, Hp in H. rewrite Hl in He. exists m. split; [exact He|].
  destruct H as [[(f & _ & _ & Hf & _) _]|[[Hm _]|[(cs & _ & Ha & _)|(_ & Ha & _)]]]; [discriminate Hf|exact Hm|discriminate Ha|discriminate Ha].
Defined.
End SessionExample.
