(* ===== verification/Resource.v ===== *)
(** * Resources: immutable versions and their lifecycle

    [crates/resource/src/lib.rs]: a version freezes up to 64 variants of one kind and is identified by
    a digest of its canonical encoding; a resource is the aggregate of its versions, at most one of
    them active.  The definitions of the kinds (software, scripts, collections, profiles) are an
    interface: what a version asks of them.  The theorems are at the end. *)
From S2P Require Import Prelude Ordered Text External Json Release ReleaseSpec.

Inductive SoftwareValidationKind : Type :=
| V_Source | V_Identity | V_Artifact | V_Dependency | V_Bundle | V_Command | V_Detection | V_Target | V_Budget.
Inductive ResourceError : Type :=
| Rs_InvalidInput | Rs_SoftwareValidation (kind : SoftwareValidationKind) | Rs_InvalidDigest | Rs_IdentityConflict
| Rs_TenantMismatch | Rs_KindMismatch | Rs_DuplicateVariant | Rs_MissingVariant | Rs_MissingVersion | Rs_InvalidTransition
| Rs_IncompleteReferences | Rs_Referenced | Rs_StaleTime.
Notation rres := (res ResourceError).

(** ** Identities, digests and artifacts *)
Definition resource_id_byte (b : Z) : bool := is_ascii_alphanumeric b || bool_decide (b ∈ lit "._-/").
Definition Id_new (value : rstr) : rres rstr :=
  _ ← reject (is_empty value || (128 <? str_len value) || negb (forallb resource_id_byte (str_bytes value))
              || existsb (fun s => is_empty s || bool_decide (s = lit ".") || bool_decide (s = lit "..")) (split 47 value)) Rs_InvalidInput;
  Ok value.
Definition ResourceDigest_parse (s : rstr) : rres Digest :=
  _ ← reject (negb (str_len s =? 64) || negb (forallb is_ascii_hexdigit (str_bytes s))) Rs_InvalidDigest;
  res_map (fun i => ok_or (from_str_radix_16 (take 2 (drop (2 * i) (str_bytes s)))) Rs_InvalidDigest) (seq 0 32).
Inductive Kind : Type := K_Software | K_Script | K_Configuration | K_NativeCollection | K_AgentCollection | K_TelemetryProfile.
#[export] Instance Kind_eq_dec : EqDecision Kind.
Proof. solve_decision. Defined.
Inductive Platform : Type := P_Windows | P_MacOS.
#[export] Instance Platform_eq_dec : EqDecision Platform.
Proof. solve_decision. Defined.
Inductive Architecture : Type := A_X86_64 | A_Aarch64.
#[export] Instance Architecture_eq_dec : EqDecision Architecture.
Proof. solve_decision. Defined.
Record ResourceArtifact : Type := mk_ResourceArtifact { ra_reference : rstr; ra_length : Z; ra_digest : Digest }.
#[export] Instance ResourceArtifact_eq_dec : EqDecision ResourceArtifact.
Proof. solve_decision. Defined.
Definition ResourceArtifact_new (reference : rstr) (length : Z) (digest : Digest) : rres ResourceArtifact :=
  _ ← reject ((length =? 0) || (i64_max <? length)) Rs_InvalidInput; Ok (mk_ResourceArtifact reference length digest).

(** ** What a version asks of a definition *)
Class Definitions : Type := {
  SoftwareDefinition : Type; ScriptDefinition : Type; NativeCollectionDefinition : Type;
  AgentCollectionDefinition : Type; TelemetryProfile : Type;
  software_eq_dec :: EqDecision SoftwareDefinition;
  script_eq_dec :: EqDecision ScriptDefinition;
  native_eq_dec :: EqDecision NativeCollectionDefinition;
  agent_eq_dec :: EqDecision AgentCollectionDefinition;
  telemetry_eq_dec :: EqDecision TelemetryProfile;
  software_canonical : SoftwareDefinition -> bytes;
  software_primary : SoftwareDefinition -> ResourceArtifact;
  software_validate_target : SoftwareDefinition -> Platform -> Architecture -> rres ();
  software_artifacts : SoftwareDefinition -> list (Z * bytes);
  software_dependencies : SoftwareDefinition -> list ((rstr * rstr) * bytes);
  script_canonical : ScriptDefinition -> bytes;
  script_validate_platform : ScriptDefinition -> Platform -> rres ();
  native_canonical : NativeCollectionDefinition -> bytes;
  native_validate_platform : NativeCollectionDefinition -> Platform -> rres ();
  agent_canonical : AgentCollectionDefinition -> bytes;
  agent_validate_platform : AgentCollectionDefinition -> Platform -> rres ();
  telemetry_canonical : TelemetryProfile -> bytes;
  telemetry_validate_target : TelemetryProfile -> Platform -> Architecture -> rres ();
  telemetry_template : TelemetryProfile -> rstr
}.

Section Resource.
Context `{RC : RequestContext} `{CT : Contract} `{SH : Sha2} `{SJ : SerdeJson} `{DF : Definitions}.

Definition Digest_verify (d : Digest) (b : bytes) : rres () := reject (negb (bool_decide (d = sha256 b))) Rs_InvalidDigest.
Definition ResourceArtifact_verify (a : ResourceArtifact) (b : bytes) : rres () :=
  _ ← reject (negb (zlen b =? ra_length a)) Rs_InvalidDigest; Digest_verify (ra_digest a) b.

(** ** Variants *)
Inductive Declaration : Type :=
| D_Software (definition : SoftwareDefinition)
| D_Script (artifact : ResourceArtifact) (definition : ScriptDefinition)
| D_NativeCollection (artifact : ResourceArtifact) (definition : NativeCollectionDefinition)
| D_AgentCollection (artifact : ResourceArtifact) (definition : AgentCollectionDefinition)
| D_TelemetryProfile (artifact : ResourceArtifact) (definition : TelemetryProfile)
| D_Configuration (artifact : ResourceArtifact).
#[export] Instance Declaration_eq_dec : EqDecision Declaration.
Proof. solve_decision. Defined.
Definition Declaration_kind (d : Declaration) : Kind :=
  match d with
  | D_Software _ => K_Software | D_Script _ _ => K_Script | D_NativeCollection _ _ => K_NativeCollection
  | D_AgentCollection _ _ => K_AgentCollection | D_TelemetryProfile _ _ => K_TelemetryProfile
  | D_Configuration _ => K_Configuration
  end.
Definition Declaration_artifact (d : Declaration) : ResourceArtifact :=
  match d with
  | D_Software definition => software_primary definition
  | D_Script a _ | D_NativeCollection a _ | D_AgentCollection a _ | D_TelemetryProfile a _ | D_Configuration a => a
  end.
Record Variant : Type := mk_Variant {
  va_platform : Platform; va_architecture : Architecture; va_key : rstr; va_declaration : Declaration
}.
#[export] Instance Variant_eq_dec : EqDecision Variant.
Proof. solve_decision. Defined.
Definition platform_tag (p : Platform) : Z := match p with P_Windows => 1 | P_MacOS => 2 end.
Definition architecture_tag (a : Architecture) : Z := match a with A_X86_64 => 1 | A_Aarch64 => 2 end.
(** The derived order of platforms and architectures is that of their tags. *)
Definition coordinates_of (p : Platform) (a : Architecture) (key : rstr) : Z * Z * rstr := (platform_tag p, architecture_tag a, key).
Definition va_coordinates (v : Variant) : Z * Z * rstr := coordinates_of (va_platform v) (va_architecture v) (va_key v).

(** ** Versions *)
Record Version : Type := mk_Version {
  ve_tenant : TenantId; ve_resource : rstr; ve_label : rstr; ve_kind : Kind; ve_variants : list Variant; ve_digest : Digest
}.
#[export] Instance Version_eq_dec : EqDecision Version.
Proof. solve_decision. Defined.
(** *** The canonical encoding *)
Definition put_id (id : rstr) : bytes := be_bytes 4 (zlen (str_bytes id)) ++ str_bytes id.
Definition put_definition (b : bytes) : bytes := be_bytes 4 (zlen b) ++ b.
Definition domain_of (k : Kind) : bytes :=
  match k with
  | K_Software => lit "rss-mdm-resource-software-v1"
  | K_TelemetryProfile => lit "rss-mdm-resource-telemetry-profile-v1"
  | K_Script => lit "rss-mdm-resource-script-v1"
  | K_AgentCollection => lit "rss-mdm-resource-agent-collection-v1"
  | K_NativeCollection => lit "rss-mdm-resource-native-collection-v1"
  | K_Configuration => lit "rss-mdm-resource-native-configuration-v1"
  end ++ [0].
Definition kind_tag (k : Kind) : Z :=
  match k with
  | K_Software => 1 | K_Script => 2 | K_Configuration => 3 | K_NativeCollection => 4 | K_AgentCollection => 5
  | K_TelemetryProfile => 6
  end.
(** The encoding of the definition, where the kind has one. *)
Definition Declaration_canonical (d : Declaration) : option bytes :=
  match d with
  | D_Software definition => Some (software_canonical definition)
  | D_Script _ definition => Some (script_canonical definition)
  | D_NativeCollection _ definition => Some (native_canonical definition)
  | D_AgentCollection _ definition => Some (agent_canonical definition)
  | D_TelemetryProfile _ definition => Some (telemetry_canonical definition)
  | D_Configuration _ => None
  end.
Definition definition_bytes (d : Declaration) : bytes :=
  match Declaration_canonical d with Some b => put_definition b | None => [] end.
Definition variant_bytes (v : Variant) : bytes :=
  let a := Declaration_artifact (va_declaration v) in
  [platform_tag (va_platform v)] ++ [architecture_tag (va_architecture v)] ++ put_id (va_key v) ++ put_id (ra_reference a)
  ++ be_bytes 8 (ra_length a) ++ ra_digest a ++ definition_bytes (va_declaration v).
Definition Version_canonical (tenant : TenantId) (resource label : rstr) (kind : Kind) (variants : list Variant) : bytes :=
  domain_of kind ++ tenant_octets tenant ++ put_id resource ++ put_id label ++ [kind_tag kind]
  ++ be_bytes 4 (zlen variants) ++ concat (map variant_bytes variants).

(** *** Construction *)
(** What the software variants of a version add up to. *)
Record Totals : Type := mk_Totals {
  to_artifacts : list (Z * bytes); to_bytes : Z; to_dependencies : list ((rstr * rstr) * bytes)
}.
Definition add_dependency (ds : list ((rstr * rstr) * bytes)) (d : (rstr * rstr) * bytes) : rres (list ((rstr * rstr) * bytes)) :=
  _ ← reject (match bm_get d.1 ds with Some old => negb (bool_decide (old = d.2)) | None => false end) Rs_InvalidInput;
  Ok (bm_insert d.1 d.2 ds).
Definition check_software (resource : rstr) (v : Variant) (d : SoftwareDefinition) (t : Totals) : rres Totals :=
  _ ← software_validate_target d (va_platform v) (va_architecture v);
  size ← ok_or (checked_u64 (to_bytes t + zlen (software_canonical d))) Rs_InvalidInput;
  let artifacts := foldl (fun s a => bs_insert a s) (to_artifacts t) (software_artifacts d) in
  dependencies ← res_for add_dependency (software_dependencies d) (to_dependencies t);
  _ ← reject ((8 * 1024 * 1024 <? size) || (128 <? zlen artifacts) || (32 <? zlen dependencies)) Rs_InvalidInput;
  _ ← reject (existsb (fun d => bool_decide (d.1.1 = resource)) (software_dependencies d)) Rs_InvalidInput;
  Ok (mk_Totals artifacts size dependencies).
(** A native query has the same definition for both architectures. *)
Definition is_twin (v other : Variant) : bool :=
  bool_decide (va_platform other = va_platform v) && negb (bool_decide (va_architecture other = va_architecture v))
  && bool_decide (va_declaration other = va_declaration v).
Definition check_variant (resource : rstr) (variants : list Variant) (t : Totals) (v : Variant) : rres Totals :=
  match va_declaration v with
  | D_Software d => check_software resource v d t
  | D_TelemetryProfile a d =>
      _ ← telemetry_validate_target d (va_platform v) (va_architecture v);
      _ ← reject (bool_decide (telemetry_template d = resource)) Rs_InvalidInput;
      _ ← ResourceArtifact_verify a (telemetry_canonical d);
      Ok t
  | D_Script _ d => _ ← script_validate_platform d (va_platform v); Ok t
  | D_AgentCollection a d =>
      _ ← agent_validate_platform d (va_platform v);
      _ ← ResourceArtifact_verify a (agent_canonical d);
      Ok t
  | D_NativeCollection a d =>
      _ ← native_validate_platform d (va_platform v);
      _ ← reject (negb (existsb (is_twin v) variants)) Rs_InvalidInput;
      let b := native_canonical d in
      _ ← reject (negb (ra_length a =? zlen b) || negb (bool_decide (ra_digest a = sha256 b))) Rs_InvalidDigest;
      Ok t
  | D_Configuration _ => Ok t
  end.
Definition Version_new (tenant : TenantId) (resource label : rstr) (kind : Kind) (variants : list Variant) : rres Version :=
  _ ← reject (is_empty variants || (64 <? zlen variants)) Rs_InvalidInput;
  _ ← reject (existsb (fun v => negb (bool_decide (Declaration_kind (va_declaration v) = kind))) variants) Rs_KindMismatch;
  _ ← res_for (check_variant resource variants) variants (mk_Totals [] 0 []);
  let variants := sort_by va_coordinates variants in
  _ ← reject (adjacent (fun a b => eqb (va_coordinates a) (va_coordinates b)) variants) Rs_DuplicateVariant;
  let b := Version_canonical tenant resource label kind variants in
  _ ← reject (8 * 1024 * 1024 <? zlen b) Rs_InvalidInput;
  Ok (mk_Version tenant resource label kind variants (sha256 b)).
Definition Version_resolve (v : Version) (p : Platform) (a : Architecture) (key : rstr) : rres Variant :=
  ok_or (List.find (fun x => bool_decide (va_platform x = p) && bool_decide (va_architecture x = a) && bool_decide (va_key x = key))
           (ve_variants v)) Rs_MissingVariant.

(** ** The aggregate *)
Inductive State : Type := Frozen | Active | Deprecated | Archived.
#[export] Instance State_eq_dec : EqDecision State.
Proof. solve_decision. Defined.
Record Entry : Type := mk_Entry { en_version : Version; en_state : State }.
Record BlueprintOrigin : Type := mk_BlueprintOrigin { bo_blueprint : rstr; bo_version : rstr; bo_digest : Digest }.
Record Resource : Type := mk_Resource {
  rs_presentation : list (rstr * Json Number); rs_origin : option BlueprintOrigin; rs_tenant : TenantId; rs_key : rstr;
  rs_kind : Kind; rs_versions : list (rstr * Entry); rs_changed_at : option Timepoint
}.
Record StoredVersion : Type := mk_StoredVersion { sv_version : Version; sv_state : State }.
Record ResourceSnapshot : Type := mk_ResourceSnapshot {
  sn_presentation : list (rstr * Json Number); sn_origin : option BlueprintOrigin; sn_tenant : TenantId; sn_key : rstr;
  sn_kind : Kind; sn_changed_at : option Timepoint; sn_versions : list StoredVersion
}.
Definition Resource_new (tenant : TenantId) (key : rstr) (kind : Kind) : Resource := mk_Resource [] None tenant key kind [] None.
Definition with_versions (r : Resource) (versions : list (rstr * Entry)) (at_ : option Timepoint) : Resource :=
  mk_Resource (rs_presentation r) (rs_origin r) (rs_tenant r) (rs_key r) (rs_kind r) versions at_.
Definition with_origin (r : Resource) (origin : option BlueprintOrigin) : Resource :=
  mk_Resource (rs_presentation r) origin (rs_tenant r) (rs_key r) (rs_kind r) (rs_versions r) (rs_changed_at r).
Definition set_presentation (r : Resource) (value : list (rstr * Json Number)) : rres Resource :=
  _ ← reject (negb (presentation_valid value 65536)) Rs_InvalidInput;
  Ok (mk_Resource value (rs_origin r) (rs_tenant r) (rs_key r) (rs_kind r) (rs_versions r) (rs_changed_at r)).
Definition origin_text (s : rstr) : bool := negb (is_empty s) && (str_len s <=? 128).
Definition origin_names (o : BlueprintOrigin) : bool := origin_text (bo_blueprint o) && origin_text (bo_version o).
Definition set_origin (r : Resource) (origin : BlueprintOrigin) : rres Resource :=
  _ ← reject (given (rs_origin r) || negb (is_empty (rs_versions r)) || negb (origin_names origin)) Rs_InvalidInput;
  Ok (with_origin r (Some origin)).
Definition snapshot (r : Resource) : ResourceSnapshot :=
  mk_ResourceSnapshot (rs_presentation r) (rs_origin r) (rs_tenant r) (rs_key r) (rs_kind r) (rs_changed_at r)
    (map (fun e => mk_StoredVersion (en_version e.2) (en_state e.2)) (rs_versions r)).
(** *** Restoration *)
Definition restore_version (r : Resource) (item : StoredVersion) : rres Resource :=
  let v := sv_version item in
  _ ← reject (negb (bool_decide (ve_tenant v = rs_tenant r))) Rs_TenantMismatch;
  _ ← reject (negb (bool_decide (ve_resource v = rs_key r)) || bm_contains (ve_label v) (rs_versions r)) Rs_IdentityConflict;
  _ ← reject (negb (bool_decide (ve_kind v = rs_kind r))) Rs_KindMismatch;
  Ok (with_versions r (bm_insert (ve_label v) (mk_Entry v (sv_state item)) (rs_versions r)) (rs_changed_at r)).
Definition has_digest (versions : list (rstr * Entry)) (d : Digest) : bool :=
  existsb (fun e => bool_decide (ve_digest (en_version e.2) = d)) versions.
Definition restore_origin (r : Resource) (origin : option BlueprintOrigin) : rres Resource :=
  match origin with
  | Some o =>
      _ ← reject (negb (origin_names o) || negb (is_empty (rs_versions r)) && negb (has_digest (rs_versions r) (bo_digest o))) Rs_InvalidInput;
      Ok (with_origin r (Some o))
  | None => Ok r
  end.
Definition count_active (states : list State) : nat := length (List.filter (fun s => bool_decide (s = Active)) states).
Definition restore (s : ResourceSnapshot) : rres Resource :=
  _ ← reject (xorb (is_empty (sn_versions s)) (negb (given (sn_changed_at s)))
              || (1 <? Z.of_nat (count_active (map sv_state (sn_versions s))))) Rs_InvalidInput;
  r ← res_for restore_version (sn_versions s) (Resource_new (sn_tenant s) (sn_key s) (sn_kind s));
  r ← restore_origin r (sn_origin s);
  r ← set_presentation r (sn_presentation s);
  Ok (with_versions r (rs_versions r) (sn_changed_at s)).
(** *** Changes *)
Definition check_time (r : Resource) (at_ : Timepoint) : rres () :=
  reject (match rs_changed_at r with Some old => ltb at_ old | None => false end) Rs_StaleTime.
Definition version_state (r : Resource) (label : rstr) : rres State :=
  ok_or (en_state <$> bm_get label (rs_versions r)) Rs_MissingVersion.
Definition version_of (r : Resource) (label : rstr) : rres Version :=
  ok_or (en_version <$> bm_get label (rs_versions r)) Rs_MissingVersion.
(** The flag is [false] for an exact replay. *)
Definition insert_version (r : Resource) (v : Version) (at_ : Timepoint) : rres (bool * Resource) :=
  _ ← check_time r at_;
  _ ← reject (negb (bool_decide (ve_tenant v = rs_tenant r))) Rs_TenantMismatch;
  _ ← reject (negb (bool_decide (ve_resource v = rs_key r))) Rs_IdentityConflict;
  _ ← reject (negb (bool_decide (ve_kind v = rs_kind r))) Rs_KindMismatch;
  match bm_get (ve_label v) (rs_versions r) with
  | Some old => if bool_decide (en_version old = v) then Ok (false, r) else Err Rs_IdentityConflict
  | None => Ok (true, with_versions r (bm_insert (ve_label v) (mk_Entry v Frozen) (rs_versions r)) (Some at_))
  end.
Definition activate_entry (label : rstr) (e : rstr * Entry) : rstr * Entry :=
  (e.1, if bool_decide (e.1 = label) then mk_Entry (en_version e.2) Active
        else if bool_decide (en_state e.2 = Active) then mk_Entry (en_version e.2) Deprecated else e.2).
Definition activate (r : Resource) (label : rstr) (at_ : Timepoint) : rres Resource :=
  _ ← check_time r at_;
  s ← version_state r label;
  _ ← reject (bool_decide (s = Archived)) Rs_InvalidTransition;
  Ok (with_versions r (map (activate_entry label) (rs_versions r)) (Some at_)).
(** [get_mut(label)] of the map. *)
Definition set_state (r : Resource) (label : rstr) (s : State) (at_ : Timepoint) : rres Resource :=
  e ← ok_or (bm_get label (rs_versions r)) Rs_MissingVersion;
  Ok (with_versions r (bm_insert label (mk_Entry (en_version e) s) (rs_versions r)) (Some at_)).
Definition deprecate (r : Resource) (label : rstr) (at_ : Timepoint) : rres Resource :=
  _ ← check_time r at_;
  s ← version_state r label;
  _ ← reject (negb (bool_decide (s = Active)) && negb (bool_decide (s = Deprecated))) Rs_InvalidTransition;
  set_state r label Deprecated at_.
Record References : Type := mk_References {
  re_tenant : TenantId; re_resource : rstr; re_version : rstr; re_complete : bool; re_count : Z
}.
Definition archive (r : Resource) (label : rstr) (refs : References) (at_ : Timepoint) : rres Resource :=
  _ ← check_time r at_;
  _ ← version_state r label;
  _ ← reject (negb (bool_decide (re_tenant refs = rs_tenant r))) Rs_TenantMismatch;
  _ ← reject (negb (bool_decide (re_resource refs = rs_key r)) || negb (bool_decide (re_version refs = label))) Rs_IdentityConflict;
  _ ← reject (negb (re_complete refs)) Rs_IncompleteReferences;
  _ ← reject (negb (re_count refs =? 0)) Rs_Referenced;
  set_state r label Archived at_.
End Resource.

(** ** The encoding identifies the content *)
#[local] Opaque be_bytes.
Section Encoding.
Context `{RC : RequestContext} `{CT : Contract} `{SH : Sha2} `{SJ : SerdeJson} `{DF : Definitions}.

Definition length_max : Z := 2 ^ 32 - 1.
Definition u32 (n : Z) : Prop := 0 <= n <= length_max.
Lemma u32_codec : prefix_free u32 (be_bytes 4).
Proof.
  apply (fixed_prefix_free _ _ 4); [intros; apply length_be_bytes|].
  unfold u32, length_max. intros a b Ha Hb. apply be_bytes_inj; change (256 ^ Z.of_nat 4) with (2 ^ 32); lia.
Qed.
Lemma put_definition_codec : prefix_free (fun b : bytes => zlen b <= length_max) put_definition.
Proof.
  intros a b t t' Ha Hb H. unfold put_definition in H. rewrite <-!app_assoc in H.
  apply u32_codec in H as [Hlen H]; [|split; [apply zlen_nonneg|done]..]. apply app_inj_length in H as [-> ->]; [done|]. unfold zlen in Hlen. lia.
Qed.
Definition id_wf (s : rstr) : Prop := valid_str s = true /\ zlen (str_bytes s) <= length_max.
Lemma put_id_codec : prefix_free id_wf put_id.
Proof.
  intros a b t t' [Ha Ha'] [Hb Hb'] H. apply (put_definition_codec (str_bytes a) (str_bytes b)) in H as [H ->]; [|done..].
  split; [by apply str_bytes_inj|done].
Qed.
Lemma byte_codec (a b : Z) t t' : [a] ++ t = [b] ++ t' -> a = b /\ t = t'.
Proof. intros H. by injection H. Qed.
Definition artifact_ok (a : ResourceArtifact) : Prop := id_wf (ra_reference a) /\ in_u64 (ra_length a) /\ length (ra_digest a) = 32%nat.
(** What the encoding tells of a variant: all but how its definition is held in memory. *)
Record VariantView : Type := mk_VariantView {
  co_coordinates : Platform * Architecture * rstr; co_artifact : ResourceArtifact; co_definition : option bytes
}.
Definition content (v : Variant) : VariantView :=
  mk_VariantView (va_platform v, va_architecture v, va_key v) (Declaration_artifact (va_declaration v)) (Declaration_canonical (va_declaration v)).
Definition content_bytes (c : VariantView) : bytes :=
  [platform_tag (co_coordinates c).1.1] ++ [architecture_tag (co_coordinates c).1.2] ++ put_id (co_coordinates c).2
  ++ put_id (ra_reference (co_artifact c)) ++ be_bytes 8 (ra_length (co_artifact c)) ++ ra_digest (co_artifact c)
  ++ match co_definition c with Some b => put_definition b | None => [] end.
Lemma content_variant_bytes v : content_bytes (content v) = variant_bytes v.
Proof. done. Qed.
(** The content of a variant of a kind, its parts as their constructors make them. *)
Definition content_ok (k : Kind) (c : VariantView) : Prop :=
  given (co_definition c) = negb (bool_decide (k = K_Configuration)) /\ id_wf (co_coordinates c).2 /\ artifact_ok (co_artifact c) /\
  forall b, co_definition c = Some b -> zlen b <= length_max.
Lemma variant_content_codec k : prefix_free (content_ok k) content_bytes.
Proof.
  intros [[[p a] key] art d] [[[p' a'] key'] art' d'] t t' (Hk & Hid & (Hr & Hl & Hg) & Hb) (Hk' & Hid' & (Hr' & Hl' & Hg') & Hb') H.
  unfold content_bytes in H. cbn [co_coordinates co_artifact co_definition fst snd] in *. rewrite <-!app_assoc in H.
  apply byte_codec in H as [Hp H]. apply byte_codec in H as [Hq H].
  apply put_id_codec in H as [-> H]; [|done..]. apply put_id_codec in H as [Href H]; [|done..].
  apply number_codec in H as [Hlen H]; [|done..]. apply app_inj_length in H as [Hdig H]; [|congruence].
  assert (art = art') as -> by (destruct art, art'; simpl in *; congruence).
  assert (p = p' /\ a = a') as [-> ->] by (by destruct p, p', a, a').
  destruct d as [b|], d' as [b'|]; simpl in Hk, Hk'; [|congruence..|done].
  apply put_definition_codec in H as [-> ->]; [done|by apply Hb|by apply Hb'].
Qed.
(** No domain is shorter than 27 bytes, and that many tell them apart. *)
Lemma domain_of_head k k' : take 27 (domain_of k) = take 27 (domain_of k') -> k = k'.
Proof. destruct k, k'; intros H; try done; vm_compute in H; discriminate H. Qed.
Lemma domain_of_inj k k' t t' : domain_of k ++ t = domain_of k' ++ t' -> k = k' /\ t = t'.
Proof.
  intros H. assert (k = k') as <-.
  { apply domain_of_head. apply (f_equal (take 27)) in H. rewrite !take_app_le in H; [done|destruct k'; vm_compute; lia|destruct k; vm_compute; lia]. }
  by apply app_inv_head in H.
Qed.
Lemma zlen_concat {A} (l : list (list A)) x : x ∈ l -> zlen x <= zlen (concat l).
Proof.
  induction l as [|y l IH]; [by intros ?%elem_of_nil|]. simpl. rewrite zlen_app.
  pose proof (zlen_nonneg y). pose proof (zlen_nonneg (concat l)). intros [->|Hx]%elem_of_cons; [lia|]. specialize (IH Hx). lia.
Qed.
(** *** What [Version_new] accepts *)
Record version_ok (v : Version) : Prop := {
  vo_count : 0 < zlen (ve_variants v) <= 64;
  vo_kind : forall x, x ∈ ve_variants v -> Declaration_kind (va_declaration x) = ve_kind v;
  vo_sorted : sorted (map va_coordinates (ve_variants v));
  vo_size : zlen (Version_canonical (ve_tenant v) (ve_resource v) (ve_label v) (ve_kind v) (ve_variants v)) <= 8 * 1024 * 1024;
  vo_digest : ve_digest v = sha256 (Version_canonical (ve_tenant v) (ve_resource v) (ve_label v) (ve_kind v) (ve_variants v))
}.
Lemma Version_new_ok t r lab k vs v : Version_new t r lab k vs = Ok v -> version_ok v /\ ve_variants v = sort_by va_coordinates vs /\
  NoDup (map va_coordinates vs) /\ ve_tenant v = t /\ ve_resource v = r /\ ve_label v = lab /\ ve_kind v = k.
Proof.
  unfold Version_new. intros H. apply bind_ok in H as ([] & Hn%reject_ok & H). apply bind_ok in H as ([] & Hk%reject_ok & H).
  apply bind_ok in H as (T & _ & H). cbv zeta in H. apply bind_ok in H as ([] & Ha%reject_ok & H). apply bind_ok in H as ([] & Hz%reject_ok & [= <-]).
  apply orb_false_iff in Hn as [Hne Hmax]. apply Z.ltb_ge in Hmax, Hz. pose proof (sort_by_perm va_coordinates vs) as Hp.
  split; [split; simpl|].
  - replace (zlen (sort_by va_coordinates vs)) with (zlen vs) by (unfold zlen; by rewrite Hp). destruct vs; [done|]. rewrite zlen_cons in *. pose proof (zlen_nonneg vs). lia.
  - intros x Hx. rewrite Hp in Hx. pose proof (proj1 (existsb_false_iff _ _) Hk x Hx) as E. by apply negb_false_iff, bool_decide_eq_true in E.
  - apply sorted_le_strict; [apply sort_by_sorted|done].
  - exact Hz.
  - done.
  - split_and!; [done|by apply sort_by_adjacent|done..].
Qed.
(** Well-formed parts: what the constructors of identities, digests and artifacts guarantee. *)
Definition parts_ok (v : Version) : Prop :=
  id_wf (ve_resource v) /\ id_wf (ve_label v) /\
  forall x, x ∈ ve_variants v -> id_wf (va_key x) /\ artifact_ok (Declaration_artifact (va_declaration x)).
Lemma Declaration_canonical_given d : given (Declaration_canonical d) = negb (bool_decide (Declaration_kind d = K_Configuration)).
Proof. by destruct d. Qed.
Lemma contents_ok v : version_ok v -> parts_ok v -> forall c, c ∈ map content (ve_variants v) -> content_ok (ve_kind v) c.
Proof.
  intros Hv (_ & _ & Hp) c (x & <- & Hx)%elem_of_map. destruct (Hp x Hx) as [Hk Ha]. split_and!; [|done|done|].
  { simpl. rewrite Declaration_canonical_given. by rewrite (vo_kind _ Hv x Hx). }
  intros b Hb. simpl in Hb. pose proof (vo_size _ Hv) as Hs. unfold Version_canonical in Hs. rewrite !zlen_app in Hs.
  pose proof (zlen_concat (map variant_bytes (ve_variants v)) (variant_bytes x) ltac:(by apply list_elem_of_fmap_2)) as Hc.
  unfold variant_bytes in Hc at 1. unfold definition_bytes in Hc at 1. rewrite Hb in Hc. unfold put_definition in Hc. rewrite !zlen_app in Hc. unfold length_max.
  repeat match type of Hs with context [zlen ?b] => lazymatch goal with H : 0 <= zlen b |- _ => fail | _ => pose proof (zlen_nonneg b) end end.
  repeat match type of Hc with context [zlen ?b] => lazymatch goal with H : 0 <= zlen b |- _ => fail | _ => pose proof (zlen_nonneg b) end end.
  lia.
Qed.
(** Everything a version consists of, up to how the definitions are held. *)
Definition same_content (v v' : Version) : Prop :=
  ve_tenant v = ve_tenant v' /\ ve_resource v = ve_resource v' /\ ve_label v = ve_label v' /\ ve_kind v = ve_kind v' /\
  map content (ve_variants v) = map content (ve_variants v').
Lemma canonical_inj v v' : version_ok v -> version_ok v' -> parts_ok v -> parts_ok v' ->
  Version_canonical (ve_tenant v) (ve_resource v) (ve_label v) (ve_kind v) (ve_variants v) =
  Version_canonical (ve_tenant v') (ve_resource v') (ve_label v') (ve_kind v') (ve_variants v') -> same_content v v'.
Proof.
  intros Hv Hv' Hp Hp' H. pose proof (contents_ok v Hv Hp) as Hx. pose proof (contents_ok v' Hv' Hp') as Hx'.
  destruct Hp as (Hr & Hl & _), Hp' as (Hr' & Hl' & _). pose proof (vo_count _ Hv) as Hc. pose proof (vo_count _ Hv') as Hc'. unfold Version_canonical in H.
  apply domain_of_inj in H as [Hk H]. apply app_inj_length in H as [Ht H]; [|by rewrite !tenant_octets_length]. apply (inj tenant_octets) in Ht.
  apply put_id_codec in H as [Er H]; [|done..]. apply put_id_codec in H as [El H]; [|done..]. apply byte_codec in H as [_ H].
  apply u32_codec in H as [Hn H]; [|unfold u32, length_max; lia..]. change variant_bytes with (fun x => content_bytes (content x)) in H.
  rewrite <-(map_map content content_bytes (ve_variants v)), <-(map_map content content_bytes (ve_variants v')) in H.
  rewrite <-(app_nil_r (concat (map content_bytes (map content (ve_variants v))))), <-(app_nil_r (concat (map content_bytes (map content (ve_variants v'))))) in H.
  apply (list_codec (content_ok (ve_kind v))) in H as [Hvs _]; [|apply variant_content_codec|done|by rewrite Hk|unfold zlen in Hn; rewrite !length_map; lia].
  by split_and!.
Qed.
Lemma coordinates_inj p a k p' a' k' : coordinates_of p a k = coordinates_of p' a' k' <-> p = p' /\ a = a' /\ k = k'.
Proof. unfold coordinates_of. split; [|by intros (-> & -> & ->)]. intros H. destruct p, p', a, a'; simpl in H; by simplify_eq. Qed.
Lemma find_unique {A K} (key : A -> K) (f : A -> bool) l x : NoDup (map key l) -> (forall a b, f a = true -> f b = true -> key a = key b) ->
  List.find f l = Some x <-> x ∈ l /\ f x = true.
Proof.
  intros Hnd Hf. split; [intros H; apply find_some in H as [? ?]; split; [by apply list_elem_of_In|done]|]. intros [Hx Hfx].
  destruct (List.find f l) as [y|] eqn:E; [|apply list_elem_of_In in Hx; pose proof (find_none _ _ E x Hx); congruence].
  apply find_some in E as [Hy Hfy]. f_equal. apply list_elem_of_In in Hy. pose proof (Hf x y Hfx Hfy) as Hk.
  apply list_elem_of_lookup in Hx as [i Hi], Hy as [j Hj]. assert (i = j) as ->; [|congruence].
  eapply NoDup_lookup; [exact Hnd| |]; rewrite list_lookup_fmap; [by rewrite Hi|by rewrite Hj, Hk].
Qed.
(** C12: A version is canonical: however its variants are listed they make one version; it selects exactly
    the variant with the coordinates asked for, which no other variant has; and two versions with one
    digest are the same content, or exhibit a collision of the hash. *)
Theorem version_identified t r lab k vs v : Version_new t r lab k vs = Ok v ->
  (forall vs' v', vs ≡ₚ vs' -> Version_new t r lab k vs' = Ok v' -> v' = v) /\
  (forall p a key x, Version_resolve v p a key = Ok x <-> x ∈ vs /\ va_platform x = p /\ va_architecture x = a /\ va_key x = key) /\
  forall t' r' lab' k' vs' v', Version_new t' r' lab' k' vs' = Ok v' -> parts_ok v -> parts_ok v' -> ve_digest v = ve_digest v' ->
    same_content v v' \/ exists b b', b <> b' /\ sha256 b = sha256 b' /\ sha256 b = ve_digest v.
Proof.
  intros H. destruct (Version_new_ok _ _ _ _ _ _ H) as (Hv & Hvs & Hnd & Ht & Hr & Hl & Hk). split_and!.
  - intros vs' v' Hp H'. destruct (Version_new_ok _ _ _ _ _ _ H') as (Hv' & Hvs' & _ & Ht' & Hr' & Hl' & Hk').
    pose proof (sort_by_canonical va_coordinates vs vs' Hp Hnd) as Hs. pose proof (vo_digest _ Hv) as Hd. pose proof (vo_digest _ Hv') as Hd'.
    destruct v, v'. simpl in *. congruence.
  - intros p a key x. unfold Version_resolve. rewrite ok_or_ok, (find_unique va_coordinates).
    + rewrite Hvs, sort_by_perm, !andb_true_iff, !bool_decide_eq_true. tauto.
    + rewrite Hvs. by rewrite sort_by_perm.
    + intros y z Hy Hz. apply coordinates_inj. rewrite !andb_true_iff, !bool_decide_eq_true in Hy, Hz. naive_solver.
  - intros t' r' lab' k' vs' v' H' Hpv Hpv' Hdig. destruct (Version_new_ok _ _ _ _ _ _ H') as (Hv' & _).
    destruct (decide (Version_canonical (ve_tenant v) (ve_resource v) (ve_label v) (ve_kind v) (ve_variants v) =
      Version_canonical (ve_tenant v') (ve_resource v') (ve_label v') (ve_kind v') (ve_variants v'))) as [Heq|Hne]; [left; by apply canonical_inj|right].
    eexists _, _. split; [exact Hne|]. rewrite <-(vo_digest _ Hv), <-(vo_digest _ Hv'). done.
Qed.
End Encoding.
#[local] Opaque presentation_valid.

(** ** The aggregate and its histories *)
Section History.
Context `{RC : RequestContext} `{CT : Contract} `{SH : Sha2} `{SJ : SerdeJson} `{DF : Definitions}.

Definition states (m : list (rstr * Entry)) : list State := map (fun e => en_state e.2) m.
#[local] Arguments count_active : simpl never.
#[local] Arguments states : simpl never.
(** What every entry has in common with its resource. *)
Definition entry_ok (tenant : TenantId) (key : rstr) (kind : Kind) (l : rstr) (e : Entry) : Prop :=
  ve_label (en_version e) = l /\ ve_tenant (en_version e) = tenant /\ ve_resource (en_version e) = key /\ ve_kind (en_version e) = kind.
Record resource_ok (r : Resource) : Prop := {
  rk_wf : bm_wf (rs_versions r);
  rk_entries : forall l e, (l, e) ∈ rs_versions r -> entry_ok (rs_tenant r) (rs_key r) (rs_kind r) l e;
  rk_active : (count_active (states (rs_versions r)) <= 1)%nat;
  rk_changed : rs_versions r = [] <-> rs_changed_at r = None;
  rk_presentation : rs_presentation r = [] \/ presentation_valid (rs_presentation r) 65536 = true;
  rk_origin : forall o, rs_origin r = Some o -> origin_names o = true
}.
(** *** Counting the active versions *)
Lemma count_active_cons s l : count_active (s :: l) = ((if bool_decide (s = Active) then 1 else 0) + count_active l)%nat.
Proof. unfold count_active. simpl. by destruct (bool_decide (s = Active)). Qed.
Lemma count_active_perm l l' : l ≡ₚ l' -> count_active l = count_active l'.
Proof. induction 1; rewrite ?count_active_cons; lia. Qed.
Lemma count_active_none l : Active ∉ l -> count_active l = 0%nat.
Proof.
  induction l as [|s l IH]; [done|]. intros [Hs Hl]%not_elem_of_cons. rewrite count_active_cons, bool_decide_eq_false_2, IH; done.
Qed.
Lemma count_states k e m : count_active (states ((k, e) :: m)) = ((if bool_decide (en_state e = Active) then 1 else 0) + count_active (states m))%nat.
Proof. apply count_active_cons. Qed.
Lemma count_insert k e m : en_state e <> Active -> (count_active (states (bm_insert k e m)) <= count_active (states m))%nat.
Proof.
  intros He. induction m as [|[k' e'] m IH]; simpl; [by rewrite count_states, bool_decide_eq_false_2|].
  destruct (cmp k k'); rewrite !count_states, ?(bool_decide_eq_false_2 (en_state e = Active)) by done; lia.
Qed.
Lemma count_activate label m : bm_wf m -> (count_active (states (map (activate_entry label) m)) <= 1)%nat.
Proof.
  unfold bm_wf, bm_keys, sorted. induction m as [|[k e] m IH]; simpl; [intros _; change (0 <= 1)%nat; lia|]. inversion 1 as [|? ? Hm Hk]; subst.
  unfold activate_entry at 1. rewrite count_states. simpl. destruct (decide (k = label)) as [->|Hne].
  - rewrite (count_active_none (states _)); [case_bool_decide; lia|]. intros Ha. unfold states in Ha. rewrite map_map in Ha.
    apply elem_of_map in Ha as ([k' e'] & Hs & Hin). simpl in Hs. rewrite List.Forall_forall in Hk.
    assert (k' <> label) as Hn.
    { intros ->. apply (lt_irrefl label), Hk, in_map_iff. exists (label, e'). split; [done|by apply list_elem_of_In]. }
    rewrite (bool_decide_eq_false_2 _ Hn) in Hs. by destruct (bool_decide_reflect (en_state e' = Active)).
  - rewrite (bool_decide_eq_false_2 _ Hne). replace (bool_decide _) with false; [by apply IH|].
    destruct (bool_decide_reflect (en_state e = Active)) as [E|E]; simpl; [done|by rewrite bool_decide_eq_false_2].
Qed.
Lemma activate_keys label m : bm_keys (map (activate_entry label) m) = bm_keys m.
Proof. unfold bm_keys. rewrite map_map. by apply map_ext. Qed.
Lemma get_activate label k m : bm_get k (map (activate_entry label) m) = (fun e => (activate_entry label (k, e)).2) <$> bm_get k m.
Proof.
  induction m as [|[k' e] m IH]; [done|]. simpl. destruct (eqb k k') eqn:E; [|done]. apply eqb_true in E as ->. done.
Qed.
(** *** Operations *)
Inductive Operation : Type :=
| Op_Presentation (value : list (rstr * Json Number)) | Op_Origin (origin : BlueprintOrigin)
| Op_Insert (v : Version) (at_ : Timepoint) | Op_Activate (label : rstr) (at_ : Timepoint)
| Op_Deprecate (label : rstr) (at_ : Timepoint) | Op_Archive (label : rstr) (refs : References) (at_ : Timepoint).
Definition apply_op (r : Resource) (op : Operation) : rres Resource :=
  match op with
  | Op_Presentation value => set_presentation r value
  | Op_Origin origin => set_origin r origin
  | Op_Insert v at_ => p ← insert_version r v at_; Ok p.2
  | Op_Activate label at_ => activate r label at_
  | Op_Deprecate label at_ => deprecate r label at_
  | Op_Archive label refs at_ => archive r label refs at_
  end.
(** An operation that is refused leaves the resource as it was. *)
Definition run (ops : list Operation) (r : Resource) : Resource := foldl (fun r op => get r (apply_op r op)) r ops.

(** *** What a lifecycle change is *)
Definition leads_to (s s' : State) : Prop := (s = Archived -> s' = Archived) /\ (s' = Frozen -> s = Frozen).
(** Every version of [r] is in [r'] with the same content, and nothing became archived but through
    [archived]. *)
Definition evolves (archived : rstr -> Prop) (r r' : Resource) : Prop :=
  rs_tenant r' = rs_tenant r /\ rs_key r' = rs_key r /\ rs_kind r' = rs_kind r /\
  (forall o, rs_origin r = Some o -> rs_origin r' = Some o) /\
  (forall t, rs_changed_at r = Some t -> exists t', rs_changed_at r' = Some t' /\ leb t t' = true) /\
  (forall l e, bm_get l (rs_versions r) = Some e -> exists e', bm_get l (rs_versions r') = Some e' /\
     en_version e' = en_version e /\ leads_to (en_state e) (en_state e') /\
     (en_state e' = Archived -> en_state e = Archived \/ archived l)) /\
  (forall l e', bm_get l (rs_versions r') = Some e' -> bm_get l (rs_versions r) = None -> en_state e' = Archived -> archived l).
Lemma evolves_refl P r : evolves P r r.
Proof.
  split_and!; try done; [|intros l e He; by eexists; split_and!; eauto|naive_solver].
  intros t Ht. exists t. split; [done|]. apply leb_le. by right.
Qed.
Lemma evolves_trans P r1 r2 r3 : evolves P r1 r2 -> evolves P r2 r3 -> evolves P r1 r3.
Proof.
  intros (T & K & D & O & C & V & N) (T' & K' & D' & O' & C' & V' & N'). split_and!; [congruence..|naive_solver| | |].
  - intros t (t' & Ht & Hl)%C. destruct (C' t' Ht) as (t'' & Ht' & Hl'). exists t''. split; [done|by eapply leb_trans].
  - intros l e (e' & He & Hv & [La Lf] & Ha)%V. destruct (V' l e' He) as (e'' & He' & Hv' & [La' Lf'] & Ha').
    exists e''. split_and!; [done|congruence|split; naive_solver|naive_solver].
  - intros l e' He Hn Ha. destruct (bm_get l (rs_versions r2)) as [e2|] eqn:E2; [|by eapply N'].
    destruct (V' l e2 E2) as (e3 & He3 & _ & _ & Ha3). rewrite He in He3. injection He3 as <-.
    destruct (Ha3 Ha) as [?|?]; [by eapply N|done].
Qed.
Lemma evolves_weaken (P Q : rstr -> Prop) r r' : (forall l, P l -> Q l) -> evolves P r r' -> evolves Q r r'.
Proof.
  intros HPQ (T & K & D & O & C & V & N). split_and!; [done..| |eauto].
  intros l e (e' & ? & ? & ? & Ha)%V. exists e'. split_and!; [done..|]. intros ?%Ha. naive_solver.
Qed.
Lemma check_time_ok r at_ : check_time r at_ = Ok () <-> (forall t, rs_changed_at r = Some t -> leb t at_ = true).
Proof.
  unfold check_time. rewrite reject_ok. destruct (rs_changed_at r) as [old|]; [|split; [by intros _ ?|done]].
  rewrite ltb_ge. split; [|intros H E; specialize (H old eq_refl); apply leb_le in H as [H| ->]; [by apply (lt_asym at_ old)|by apply (lt_irrefl at_)]].
  intros Hn t [= <-]. destruct (leb old at_) eqn:E; [done|]. by apply leb_gt in E.
Qed.
(** *** Every operation keeps the aggregate *)
Lemma presentation_ok value : presentation_valid value 65536 = true <-> negb (presentation_valid value 65536) = false.
Proof. by rewrite negb_false_iff. Qed.
Lemma set_state_ok r l s at_ r' : set_state r l s at_ = Ok r' ->
  exists e, bm_get l (rs_versions r) = Some e /\ r' = with_versions r (bm_insert l (mk_Entry (en_version e) s) (rs_versions r)) (Some at_).
Proof. unfold set_state. intros (e & He%ok_or_ok & [= <-])%bind_ok. by exists e. Qed.
(** A map with the entries of [r], up to their states. *)
Lemma versions_kept r m at_ : resource_ok r -> bm_wf m -> (forall l e, (l, e) ∈ m -> entry_ok (rs_tenant r) (rs_key r) (rs_kind r) l e) ->
  (count_active (states m) <= 1)%nat -> m <> [] -> resource_ok (with_versions r m (Some at_)).
Proof. intros Hr Hm He Hc Hn. split; simpl; [done..| |apply Hr|apply Hr]. by split. Qed.
Lemma entry_get r l e : resource_ok r -> bm_get l (rs_versions r) = Some e -> entry_ok (rs_tenant r) (rs_key r) (rs_kind r) l e.
Proof. intros Hr H. by apply Hr, bm_get_elem. Qed.
Lemma bm_insert_nonempty {K V} `{Ord K} (k : K) (v : V) m : bm_insert k v m <> [].
Proof. destruct m as [|[k' v'] m]; simpl; [done|by destruct (cmp k k')]. Qed.
Lemma insert_kept r l e at_ : resource_ok r -> entry_ok (rs_tenant r) (rs_key r) (rs_kind r) l e -> en_state e <> Active ->
  resource_ok (with_versions r (bm_insert l e (rs_versions r)) (Some at_)).
Proof.
  intros Hr He Hs. apply versions_kept; [done|by apply bm_insert_wf, Hr| | |apply bm_insert_nonempty].
  - intros l' e' Hin. apply (bm_elem_get _ _ _ (bm_insert_wf _ _ _ (rk_wf _ Hr))) in Hin. rewrite bm_get_insert in Hin.
    destruct (eqb l' l) eqn:E; [apply eqb_true in E as ->; by injection Hin as <-|by apply entry_get].
  - pose proof (count_insert l e (rs_versions r) Hs). pose proof (rk_active _ Hr). lia.
Qed.
Lemma insert_evolves P r l e at_ : check_time r at_ = Ok () ->
  match bm_get l (rs_versions r) with
  | Some old => en_version e = en_version old /\ leads_to (en_state old) (en_state e)
  | None => True
  end -> (en_state e = Archived -> P l) -> evolves P r (with_versions r (bm_insert l e (rs_versions r)) (Some at_)).
Proof.
  intros Ht He Ha. split_and!; simpl; try done.
  - intros t Hc. exists at_. split; [done|]. by apply (proj1 (check_time_ok r at_) Ht).
  - intros k old Hk. rewrite bm_get_insert. destruct (eqb k l) eqn:E; [|by eexists; split_and!; eauto].
    apply eqb_true in E as ->. rewrite Hk in He. exists e. destruct He. split_and!; eauto.
  - intros k e'. rewrite bm_get_insert. destruct (eqb k l) eqn:E; [|congruence]. apply eqb_true in E as ->. by intros [= <-] _.
Qed.
Definition archives (op : Operation) (r : Resource) (l : rstr) : Prop :=
  exists refs at_, op = Op_Archive l refs at_ /\ re_tenant refs = rs_tenant r /\ re_resource refs = rs_key r /\ re_version refs = l /\
    re_complete refs = true /\ re_count refs = 0.
Lemma activate_kept r label at_ r' : resource_ok r -> activate r label at_ = Ok r' -> resource_ok r' /\ evolves (fun _ => False) r r'.
Proof.
  unfold activate. intros Hr ([] & Ht & (s & Hs & ([] & Hn%reject_ok & [= <-])%bind_ok)%bind_ok)%bind_ok.
  unfold version_state in Hs. apply ok_or_ok in Hs. destruct (bm_get label (rs_versions r)) as [e0|] eqn:E0; [injection Hs as <-|done].
  apply bool_decide_eq_false in Hn. split.
  - apply versions_kept; [done| | |by apply count_activate, Hr|].
    + unfold bm_wf. rewrite activate_keys. apply Hr.
    + intros l e ([l' e'] & [= <- <-] & Hin)%elem_of_map. simpl. pose proof (rk_entries _ Hr _ _ Hin) as He. unfold entry_ok in *.
      by destruct (bool_decide (l' = label)), (bool_decide (en_state e' = Active)).
    + intros Hm%map_eq_nil. by rewrite Hm in E0.
  - split_and!; simpl; try done.
    + intros t Hc. exists at_. split; [done|]. by apply (proj1 (check_time_ok r at_) Ht).
    + intros l e He. rewrite get_activate, He. simpl. eexists. split; [done|].
      destruct (bool_decide_reflect (l = label)) as [->|_]; [rewrite E0 in He; injection He as ->; split_and!; [done|by split|done]|].
      destruct (bool_decide_reflect (en_state e = Active)) as [Ea|_]; [|by split_and!; auto; split].
      split_and!; [done|split; by rewrite ?Ea|by rewrite Ea].
    + intros l e'. rewrite get_activate. by intros (e & He & _)%fmap_Some ?%eq_sym; rewrite He in *.
Qed.
Lemma apply_op_kept op r r' : resource_ok r -> apply_op r op = Ok r' -> resource_ok r' /\ evolves (archives op r) r r'.
Proof.
  intros Hr. destruct op as [value|origin|v at_|label at_|label at_|label refs at_]; simpl.
  - intros ([] & Hp%reject_ok & [= <-])%bind_ok. apply presentation_ok in Hp. split; [split; simpl; [apply Hr..|by right|apply Hr]|apply (evolves_refl _ r)].
  - intros ([] & Hp%reject_ok & [= <-])%bind_ok. rewrite !orb_false_iff, !negb_false_iff in Hp. destruct Hp as [[Hg _] Hn]. split.
    + split; simpl; [apply Hr..|]. by intros o [= <-].
    + split_and!; simpl; [done..| | | |]; [intros o Ho; by rewrite Ho in Hg|apply (evolves_refl (archives (Op_Origin origin) r) r)..].
  - intros ([b r1] & H & [= <-])%bind_ok. unfold insert_version in H. simpl.
    apply bind_ok in H as ([] & Ht & ([] & Htn%reject_ok & ([] & Hk%reject_ok & ([] & Hd%reject_ok & H)%bind_ok)%bind_ok)%bind_ok).
    rewrite negb_false_iff, bool_decide_eq_true in Htn, Hk, Hd.
    destruct (bm_get (ve_label v) (rs_versions r)) as [old|] eqn:E.
    + destruct (bool_decide (en_version old = v)); [|done]. injection H as _ <-. by split; [|apply evolves_refl].
    + injection H as _ <-. split; [by apply insert_kept|]. apply insert_evolves; [done|by rewrite E|done].
  - intros H%(activate_kept _ _ _ _ Hr). destruct H as [? He]. split; [done|]. by eapply evolves_weaken, He.
  - unfold deprecate. intros ([] & Ht & (s & Hs & ([] & Hn%reject_ok & (e & He & ->)%set_state_ok)%bind_ok)%bind_ok)%bind_ok.
    unfold version_state in Hs. rewrite ok_or_ok, He in Hs. injection Hs as <-. rewrite andb_false_iff, !negb_false_iff, !bool_decide_eq_true in Hn.
    split; [apply insert_kept; [done|by apply (entry_get _ _ e)|done]|]. apply insert_evolves; [done| |done].
    rewrite He. split; [done|]. split; [|done]. intros E. rewrite E in Hn. by destruct Hn.
  - unfold archive. intros ([] & Ht & (s & Hs & ([] & H1%reject_ok & ([] & H2%reject_ok & ([] & H3%reject_ok & ([] & H4%reject_ok & (e & He & ->)%set_state_ok)%bind_ok)%bind_ok)%bind_ok)%bind_ok)%bind_ok)%bind_ok.
    apply orb_false_iff in H2 as [H2%negb_false_iff%bool_decide_eq_true H2'%negb_false_iff%bool_decide_eq_true].
    apply negb_false_iff, bool_decide_eq_true in H1. apply negb_false_iff in H3. apply negb_false_iff, Z.eqb_eq in H4.
    split; [apply insert_kept; [done|by apply (entry_get _ _ e)|done]|]. apply insert_evolves; [done| |].
    + rewrite He. split; [done|]. by split.
    + intros _. by exists refs, at_.
Qed.
Lemma resource_new_ok tenant key kind : resource_ok (Resource_new tenant key kind).
Proof. split; simpl; [constructor|by intros ? ? ?%elem_of_nil|unfold count_active; simpl; lia|done|by left|done]. Qed.
Definition archived_by (ops : list Operation) (tenant : TenantId) (key l : rstr) : Prop :=
  exists refs at_, Op_Archive l refs at_ ∈ ops /\ re_tenant refs = tenant /\ re_resource refs = key /\ re_version refs = l /\
    re_complete refs = true /\ re_count refs = 0.
Lemma run_kept ops r : resource_ok r -> resource_ok (run ops r) /\ evolves (archived_by ops (rs_tenant r) (rs_key r)) r (run ops r).
Proof.
  revert r. induction ops as [|op ops IH]; intros r0 Hr0; [split; [done|apply evolves_refl]|]. unfold run. simpl. fold (run ops (get r0 (apply_op r0 op))).
  assert (resource_ok (get r0 (apply_op r0 op)) /\ evolves (archives op r0) r0 (get r0 (apply_op r0 op))) as [Hr1 He1].
  { destruct (apply_op r0 op) as [r1| |] eqn:E; simpl; [by apply apply_op_kept|by split; [|apply evolves_refl]..]. }
  destruct (IH _ Hr1) as [Hr2 He2]. split; [done|]. pose proof He1 as (T & K & _). rewrite T, K in He2.
  eapply evolves_trans; (eapply evolves_weaken; [|eassumption]); simpl.
  - intros l (refs & at_ & -> & ?). exists refs, at_. split; [left|done].
  - intros l (refs & at_ & ? & ?). exists refs, at_. split; [by right|done].
Qed.
(** C10: Over any sequence of operations, those refused included, the aggregate stays consistent: its
    versions are its own and at most one is active, a version once inserted keeps its content for ever
    and is never frozen again, time does not run back, an archived version stays so, and none is
    archived but by an operation that carries complete evidence, for that version, of no references. *)
Theorem resource_history tenant key kind ops ops' :
  let r := run ops (Resource_new tenant key kind) in let r' := run (ops ++ ops') (Resource_new tenant key kind) in
  resource_ok r /\ evolves (archived_by ops' tenant key) r r'.
Proof.
  intros r r'. destruct (run_kept ops _ (resource_new_ok tenant key kind)) as [Hr (T & K & _)]. split; [exact Hr|].
  destruct (run_kept ops' r Hr) as [_ He]. subst r r'. unfold run. rewrite foldl_app. rewrite T, K in He. exact He.
Qed.

(** *** Storage *)
Definition keyed (s : StoredVersion) : rstr * Entry := (ve_label (sv_version s), mk_Entry (sv_version s) (sv_state s)).
Definition item_ok (r : Resource) (s : StoredVersion) : Prop :=
  ve_tenant (sv_version s) = rs_tenant r /\ ve_resource (sv_version s) = rs_key r /\ ve_kind (sv_version s) = rs_kind r.
Lemma restore_version_ok r s r' : restore_version r s = Ok r' <-> item_ok r s /\ (keyed s).1 ∉ bm_keys (rs_versions r) /\
  r' = with_versions r (bm_insert (keyed s).1 (keyed s).2 (rs_versions r)) (rs_changed_at r).
Proof.
  rewrite <-bm_get_none. unfold restore_version, item_ok, bm_contains. simpl. split.
  - intros ([] & H1%reject_ok & ([] & H2%reject_ok & ([] & H3%reject_ok & [= <-])%bind_ok)%bind_ok)%bind_ok.
    apply orb_false_iff in H2 as [H2 Hn]. rewrite negb_false_iff, bool_decide_eq_true in H1, H2, H3.
    split_and!; [done..| |done]. by destruct (bm_get _ _).
  - intros ((H1 & H2 & H3) & Hn & ->). rewrite Hn. rewrite !bool_decide_eq_true_2 by done. done.
Qed.
Lemma bm_insert_new_perm {V} (k : rstr) (v : V) m : k ∉ bm_keys m -> bm_insert k v m ≡ₚ (k, v) :: m.
Proof.
  induction m as [|[k' v'] m IH]; [done|]. unfold bm_keys. simpl. intros [Hk Hm]%not_elem_of_cons.
  destruct (cmp k k') eqn:E; [by apply cmp_eq in E|done|]. rewrite IH by done. constructor.
Qed.
Lemma bm_keys_perm {V} (m m' : list (rstr * V)) : m ≡ₚ m' -> bm_keys m ≡ₚ bm_keys m'.
Proof. apply Permutation_map. Qed.
Lemma wf_sorted_le {V} (m : list (rstr * V)) : bm_wf m -> sorted_le fst m.
Proof.
  unfold bm_wf, sorted, sorted_le, bm_keys. induction m as [|e m IH]; [constructor|]. simpl. inversion 1 as [|? ? Hm Hk]; subst.
  constructor; [by apply IH|]. apply Forall_forall. intros x Hx. rewrite Forall_forall in Hk. apply leb_le. left. by apply Hk, list_elem_of_fmap_2.
Qed.
(** The loop of [restore] takes exactly the versions of the resource, each label once. *)
Lemma restore_fold l r r' : bm_wf (rs_versions r) -> res_for restore_version l r = Ok r' <->
  (forall s, s ∈ l -> item_ok r s) /\ NoDup (bm_keys (map keyed l ++ rs_versions r)) /\
  r' = with_versions r (rs_versions r') (rs_changed_at r) /\ bm_wf (rs_versions r') /\ rs_versions r' ≡ₚ map keyed l ++ rs_versions r.
Proof.
  revert r. induction l as [|s l IH]; intros r Hwf; simpl.
  - split.
    + intros [= <-]. split_and!; [by intros s ?%elem_of_nil|by apply sorted_nodup|by destruct r|done..].
    + intros (_ & _ & Hr' & Hwf' & Hp). f_equal. rewrite Hr'. destruct r as [p o t k kd m c]. unfold with_versions. simpl in *. f_equal.
      pose proof (sort_by_canonical fst _ _ Hp (sorted_nodup _ Hwf')) as H. rewrite !sort_by_id in H; [done|by apply wf_sorted_le..].
  - rewrite bind_ok. setoid_rewrite restore_version_ok. split.
    + intros (r1 & (Hi & Hn & ->) & H). apply IH in H as (Hl & Hnd & Hr' & Hwf' & Hp); [|by apply bm_insert_wf]. simpl in *.
      rewrite (bm_insert_new_perm _ _ _ Hn) in Hp. rewrite <-Permutation_middle in Hp.
      split_and!; [intros x [->|Hx]%elem_of_cons; [done|by apply Hl]| |done..].
      rewrite <-(bm_keys_perm _ _ Hp). by apply sorted_nodup.
    + intros (Hl & Hnd & Hr' & Hwf' & Hp).
      assert ((keyed s).1 ∉ bm_keys (rs_versions r)) as Hn.
      { unfold bm_keys in *. simpl in Hnd. rewrite map_app in Hnd. apply NoDup_cons in Hnd as [Hs _]. intros Hk. apply Hs, elem_of_app. by right. }
      eexists. split; [split_and!; [apply Hl; left|exact Hn|done]|]. apply IH; [by apply bm_insert_wf|].
      assert (map keyed l ++ bm_insert (keyed s).1 (keyed s).2 (rs_versions r) ≡ₚ keyed s :: map keyed l ++ rs_versions r) as Hq.
      { rewrite (bm_insert_new_perm _ _ _ Hn), <-Permutation_middle. by destruct (keyed s). }
      simpl. split_and!; [intros x Hx; apply Hl; by right|by rewrite (bm_keys_perm _ _ Hq)|done|done|by rewrite Hq].
Qed.
Definition stored (e : rstr * Entry) : StoredVersion := mk_StoredVersion (en_version e.2) (en_state e.2).
Lemma stored_keyed l : map stored (map keyed l) = l.
Proof. rewrite map_map. induction l as [|[v s] l IH]; simpl; [done|]. by rewrite IH. Qed.
Lemma keyed_stored r : resource_ok r -> map keyed (map stored (rs_versions r)) = rs_versions r.
Proof.
  intros Hr. rewrite map_map. pose proof (rk_entries _ Hr) as He. revert He. induction (rs_versions r) as [|[l [v s]] m IH]; intros He; [done|]. simpl.
  destruct (He l (mk_Entry v s)) as [Hl _]; [left|]. simpl in Hl. unfold keyed at 1. simpl. rewrite Hl, IH; [done|]. intros l' e' Hin. apply He. by right.
Qed.
Lemma states_stored m : map sv_state (map stored m) = states m.
Proof. by rewrite map_map. Qed.
Lemma is_empty_nil {A} (l : list A) : is_empty l = true <-> l = [].
Proof. by destruct l. Qed.
Lemma restore_origin_ok r o r' : rs_origin r = None -> restore_origin r o = Ok r' <->
  r' = with_origin r o /\ forall x, o = Some x -> origin_names x = true /\ (rs_versions r = [] \/ has_digest (rs_versions r) (bo_digest x) = true).
Proof.
  intros Hr. unfold restore_origin. destruct o as [o|].
  - assert (forall u, reject (negb (origin_names o) || negb (is_empty (rs_versions r)) && negb (has_digest (rs_versions r) (bo_digest o))) Rs_InvalidInput = Ok u <->
      origin_names o = true /\ (rs_versions r = [] \/ has_digest (rs_versions r) (bo_digest o) = true)) as Hj.
    { intros u. by rewrite reject_ok, orb_false_iff, negb_false_iff, andb_false_iff, !negb_false_iff, is_empty_nil. }
    rewrite bind_ok. split.
    + intros (u & Hu%Hj & [= <-]). split; [done|]. by intros x [= <-].
    + intros [-> H]. exists (). split; [apply Hj, H|]; done.
  - split; [intros [= <-]; split; [by destruct r; simpl in *; subst|done]|]. intros [-> _]. f_equal. destruct r. simpl in *. by subst.
Qed.
Lemma restore_ok s r : restore s = Ok r <->
  (sn_versions s = [] <-> sn_changed_at s = None) /\ (count_active (map sv_state (sn_versions s)) <= 1)%nat /\
  (forall x, x ∈ sn_versions s -> item_ok (Resource_new (sn_tenant s) (sn_key s) (sn_kind s)) x) /\
  bm_wf (rs_versions r) /\ rs_versions r ≡ₚ map keyed (sn_versions s) /\
  (forall x, sn_origin s = Some x -> origin_names x = true /\ (rs_versions r = [] \/ has_digest (rs_versions r) (bo_digest x) = true)) /\
  presentation_valid (sn_presentation s) 65536 = true /\
  r = mk_Resource (sn_presentation s) (sn_origin s) (sn_tenant s) (sn_key s) (sn_kind s) (rs_versions r) (sn_changed_at s).
Proof.
  unfold restore. rewrite bind_ok. split.
  - intros ([] & H1%reject_ok & H). apply orb_false_iff in H1 as [H1 Hc%Z.ltb_ge].
    apply bind_ok in H as (r1 & H2 & (r2 & H3 & (r3 & H4 & [= <-])%bind_ok)%bind_ok).
    apply (restore_fold _ (Resource_new _ _ _)) in H2 as (Hi & _ & E & Hwf & Hp); [|constructor]. simpl in E, Hp. rewrite app_nil_r in Hp.
    apply restore_origin_ok in H3 as [-> Ho]; [|by rewrite E]. apply bind_ok in H4 as ([] & Hv%reject_ok & [= <-]). simpl.
    apply presentation_ok in Hv. split_and!; [|lia|done..|by rewrite E].
    destruct (sn_versions s), (sn_changed_at s); try done; by split.
  - intros (Hc & Ha & Hi & Hwf & Hp & Ho & Hv & Hr). exists (). split.
    { rewrite reject_ok, orb_false_iff. split; [|apply Z.ltb_ge; lia]. destruct (sn_versions s), (sn_changed_at s); simpl; try done; destruct Hc as [H1 H2]; [by specialize (H1 eq_refl)|by specialize (H2 eq_refl)]. }
    rewrite bind_ok. exists (with_versions (Resource_new (sn_tenant s) (sn_key s) (sn_kind s)) (rs_versions r) None). split.
    { apply restore_fold; [constructor|]. simpl. rewrite app_nil_r. split_and!; [done| |done..]. rewrite <-(bm_keys_perm _ _ Hp). by apply sorted_nodup. }
    rewrite bind_ok. eexists. split; [apply restore_origin_ok; [done|split; [done|exact Ho]]|]. simpl. unfold set_presentation. rewrite Hv. simpl. f_equal. symmetry. exact Hr.
Qed.
Lemma has_digest_perm m m' d : m ≡ₚ m' -> has_digest m d = has_digest m' d.
Proof. intros H. apply eq_true_iff_eq. unfold has_digest. rewrite !existsb_true_iff. by setoid_rewrite H. Qed.
(** C11: What a snapshot restores to: exactly the aggregate it was taken of, provided its presentation
    passes the bounds and, where versions exist, its origin is that of one of them; and whatever the
    storage holds, what is restored is consistent and has the content of the snapshot. *)
Theorem restore_exact r s :
  (resource_ok r -> forall r', restore (snapshot r) = Ok r' <-> r' = r /\ presentation_valid (rs_presentation r) 65536 = true /\
     forall o, rs_origin r = Some o -> rs_versions r = [] \/ has_digest (rs_versions r) (bo_digest o) = true) /\
  (restore s = Ok r -> resource_ok r /\ snapshot r = mk_ResourceSnapshot (sn_presentation s) (sn_origin s) (sn_tenant s) (sn_key s) (sn_kind s)
     (sn_changed_at s) (sn_versions (snapshot r)) /\ sn_versions (snapshot r) ≡ₚ sn_versions s).
Proof.
  split.
  - intros Hr r'. rewrite restore_ok. unfold snapshot. simpl. fold stored. rewrite keyed_stored, states_stored by done. split.
    + intros (_ & _ & _ & Hwf & Hp & Ho & Hv & E). assert (rs_versions r' = rs_versions r) as Hm.
      { pose proof (sort_by_canonical fst _ _ Hp (sorted_nodup _ Hwf)) as H. rewrite !sort_by_id in H; [done|apply wf_sorted_le, Hr|by apply wf_sorted_le]. }
      split_and!; [rewrite E, Hm; by destruct r|done|]. intros o [_ H]%Ho. by rewrite Hm in H.
    + intros (-> & Hv & Ho). pose proof (rk_changed _ Hr) as Hc. split_and!; [|apply Hr| |apply Hr|done| |done|by destruct r].
      * rewrite <-Hc. split; [by intros H%map_eq_nil|by intros ->].
      * intros x ([l e] & <- & Hin)%elem_of_map. by destruct (rk_entries _ Hr _ _ Hin) as (_ & ? & ? & ?).
      * intros o E. split; [by eapply Hr|by apply Ho].
  - intros (Hc & Ha & Hi & Hwf & Hp & Ho & Hv & E)%restore_ok. assert (sn_versions (snapshot r) ≡ₚ sn_versions s) as Hs.
    { simpl. fold stored. rewrite Hp. by rewrite stored_keyed. }
    split_and!; [|by rewrite E|done]. split; [done| | | | |].
    + intros l e Hin. rewrite Hp in Hin. apply elem_of_map in Hin as (x & [= <- <-] & Hx). destruct (Hi x Hx) as (H1 & H2 & H3). rewrite E. by split_and!.
    + rewrite <-states_stored. change (map stored (rs_versions r)) with (sn_versions (snapshot r)). by rewrite (count_active_perm _ _ (Permutation_map sv_state Hs)).
    + rewrite E. simpl. rewrite <-Hc. split; intros H.
      * rewrite H in Hp. apply Permutation_nil, map_eq_nil in Hp. done.
      * rewrite H in Hp. symmetry in Hp. by apply Permutation_nil in Hp.
    + rewrite E. by right.
    + rewrite E. intros o H. by apply Ho.
Qed.
End History.

(** ** Prerequisites of a collection *)
Section Applicability.
Record Applicability : Type := mk_Applicability {
  ap_minimum_os_version : option rstr; ap_minimum_build : option Z; ap_editions : list rstr; ap_enrollments : list rstr;
  ap_tools : list (rstr * rstr); ap_capabilities : list rstr
}.
Record CollectionEnvironment : Type := mk_CollectionEnvironment {
  ce_os_version : option rstr; ce_build : option Z; ce_edition : option rstr; ce_tools : list (rstr * rstr)
}.
Definition numeric_part (part : rstr) : option Z :=
  if is_empty part || negb (forallb is_ascii_digit (str_bytes part)) then None else parse_unsigned (2 ^ 32 - 1) part.
(** Up to four numbers, the rest of [[u32; 4]] zero. *)
Definition numeric (value : rstr) : option (list Z) :=
  if is_empty value || (64 <? str_len value) || (4 <? zlen (split 46 value)) then None
  else parts ← mapM numeric_part (split 46 value); Some (parts ++ repeat 0 (4 - length parts)).
Definition applicability_token (value : rstr) : bool :=
  negb (is_empty value) && (str_len value <=? 128)
  && forallb (fun b => is_ascii_alphanumeric b || bool_decide (b ∈ lit "_-.")) (str_bytes value).
(** [is_some_and] and [is_none_or]. *)
Definition is_some_and {A} (o : option A) (p : A -> bool) : bool := match o with Some a => p a | None => false end.
Definition is_none_or {A} (o : option A) (p : A -> bool) : bool := match o with Some a => p a | None => true end.
Definition Environment_validate (e : CollectionEnvironment) : rres () :=
  reject (is_some_and (ce_os_version e) (fun v => negb (given (numeric v))) || is_some_and (ce_edition e) (fun v => negb (applicability_token v))
          || (16 <? zlen (ce_tools e)) || existsb (fun kv => negb (applicability_token kv.1) || negb (given (numeric kv.2))) (ce_tools e)) Rs_InvalidInput.
Definition Applicability_validate (a : Applicability) : rres () :=
  _ ← Environment_validate (mk_CollectionEnvironment (ap_minimum_os_version a) (ap_minimum_build a) None (ap_tools a));
  res_for (fun _ set => reject ((32 <? zlen set) || existsb (fun v => negb (applicability_token v)) set) Rs_InvalidInput)
    [ap_editions a; ap_enrollments a; ap_capabilities a] ().
Definition at_least (fact requirement : rstr) : bool := leb (numeric requirement) (numeric fact).
Definition Applicability_allows (a : Applicability) (facts : CollectionEnvironment) (enrollment : rstr) (capabilities : list rstr) : bool :=
  is_ok (Applicability_validate a) && is_ok (Environment_validate facts)
  && is_none_or (ap_minimum_os_version a) (fun v => is_some_and (ce_os_version facts) (fun f => at_least f v))
  && is_none_or (ap_minimum_build a) (fun v => is_some_and (ce_build facts) (fun f => v <=? f))
  && (is_empty (ap_editions a) || is_some_and (ce_edition facts) (fun f => bs_mem f (ap_editions a)))
  && (is_empty (ap_enrollments a) || bs_mem enrollment (ap_enrollments a))
  && forallb (fun tv => is_some_and (bm_get tv.1 (ce_tools facts)) (fun f => at_least f tv.2)) (ap_tools a)
  && bs_subset (ap_capabilities a) capabilities.
(** *** The range of a template *)
Inductive TemplateScope : Type :=
| Sc_Device | Sc_User (identity : rstr) | Sc_Source (identity : rstr) | Sc_Volume (identity : rstr) | Sc_Prefix (path : rstr).
Definition uuid_byte (i : nat) (b : Z) : bool :=
  if bool_decide (i ∈ [8; 13; 18; 23]%nat) then b =? 45 else is_ascii_digit b || (97 <=? b) && (b <=? 102).
Definition validate_executable (s : TemplateScope) : rres () :=
  match s with
  | Sc_Device => Ok ()
  | Sc_User identity =>
      reject (negb ((str_len identity =? 36) && forallb (fun ib => uuid_byte ib.1 ib.2) (imap pair (str_bytes identity))
                    && negb (bool_decide (identity = lit "00000000-0000-0000-0000-000000000000")))) Rs_InvalidInput
  | _ => Err Rs_InvalidInput
  end.

(** What is known of the device in [e] is known in [e'], at least as good. *)
Definition no_worse (e e' : CollectionEnvironment) : Prop :=
  (forall f, ce_os_version e = Some f -> exists f', ce_os_version e' = Some f' /\ at_least f' f = true) /\
  (forall f, ce_build e = Some f -> exists f', ce_build e' = Some f' /\ f <= f') /\
  (forall f, ce_edition e = Some f -> ce_edition e' = Some f) /\
  (forall t f, bm_get t (ce_tools e) = Some f -> exists f', bm_get t (ce_tools e') = Some f' /\ at_least f' f = true).
Lemma is_some_and_iff {A} (o : option A) p : is_some_and o p = true <-> exists a, o = Some a /\ p a = true.
Proof. destruct o; simpl; naive_solver. Qed.
Lemma is_none_or_iff {A} (o : option A) p : is_none_or o p = true <-> forall a, o = Some a -> p a = true.
Proof. destruct o; simpl; naive_solver. Qed.
Lemma at_least_trans a b c : at_least b a = true -> at_least c b = true -> at_least c a = true.
Proof. unfold at_least. eapply leb_trans. Qed.
Lemma at_least_numeric f v : at_least f v = true -> given (numeric v) = true -> exists n m, numeric v = Some n /\ numeric f = Some m /\ leb n m = true.
Proof.
  unfold at_least. destruct (numeric v) as [n|]; [|done]. intros H _. exists n. destruct (numeric f) as [m|]; [|done]. exists m. by split_and!.
Qed.
Lemma Environment_validate_ok e : is_ok (Environment_validate e) = true ->
  (forall v, ce_os_version e = Some v -> given (numeric v) = true) /\ (forall t v, (t, v) ∈ ce_tools e -> given (numeric v) = true).
Proof.
  unfold Environment_validate. destruct (_ || existsb _ _) eqn:E; [done|]. intros _. apply orb_false_iff in E as [[[E _]%orb_false_iff _]%orb_false_iff Et]. split.
  - intros v Hv. rewrite Hv in E. simpl in E. by apply negb_false_iff.
  - intros t v Hin. apply (proj1 (existsb_false_iff _ _) Et), orb_false_iff in Hin as [_ Hin]. by apply negb_false_iff.
Qed.
Lemma Applicability_validate_ok a : is_ok (Applicability_validate a) = true ->
  (forall v, ap_minimum_os_version a = Some v -> given (numeric v) = true) /\ (forall t v, (t, v) ∈ ap_tools a -> given (numeric v) = true).
Proof.
  unfold Applicability_validate. intros H. apply (Environment_validate_ok (mk_CollectionEnvironment (ap_minimum_os_version a) (ap_minimum_build a) None (ap_tools a))).
  by destruct (Environment_validate _).
Qed.
Lemma allows_iff a facts enrollment capabilities : Applicability_allows a facts enrollment capabilities = true <->
  is_ok (Applicability_validate a) = true /\ is_ok (Environment_validate facts) = true /\
  (forall v, ap_minimum_os_version a = Some v -> exists f, ce_os_version facts = Some f /\ at_least f v = true) /\
  (forall v, ap_minimum_build a = Some v -> exists f, ce_build facts = Some f /\ v <= f) /\
  (ap_editions a = [] \/ exists e, ce_edition facts = Some e /\ e ∈ ap_editions a) /\
  (ap_enrollments a = [] \/ enrollment ∈ ap_enrollments a) /\
  (forall t v, (t, v) ∈ ap_tools a -> exists f, bm_get t (ce_tools facts) = Some f /\ at_least f v = true) /\
  forall c, c ∈ ap_capabilities a -> c ∈ capabilities.
Proof.
  unfold Applicability_allows. rewrite !andb_true_iff, !orb_true_iff, !is_none_or_iff, bs_subset_iff, forallb_true_iff, !is_empty_nil, bs_mem_iff, is_some_and_iff.
  setoid_rewrite is_some_and_iff. setoid_rewrite bs_mem_iff. setoid_rewrite Z.leb_le. split.
  - intros [[[[[[[Ha Hf] Hos] Hb] He] Hen] Ht] Hc]. split_and!; try done. intros t v Hin. by apply (Ht (t, v)).
  - intros (Ha & Hf & Hos & Hb & He & Hen & Ht & Hc). split_and!; try done. intros [t v] Hin. by apply Ht.
Qed.
(** Evidence decides: what is allowed stays allowed on more capabilities and no worse evidence; no
    declared requirement is met by evidence that is absent; and a version requirement is met by a
    number-wise comparison of well-formed versions only. *)
Theorem applicability_by_evidence a facts enrollment capabilities : Applicability_allows a facts enrollment capabilities = true ->
  (forall facts' capabilities', no_worse facts facts' -> Environment_validate facts' = Ok () ->
     (forall c, c ∈ capabilities -> c ∈ capabilities') -> Applicability_allows a facts' enrollment capabilities' = true) /\
  (forall v, ap_minimum_os_version a = Some v -> exists f n m, ce_os_version facts = Some f /\ numeric v = Some n /\ numeric f = Some m /\ leb n m = true) /\
  (forall v, ap_minimum_build a = Some v -> exists f, ce_build facts = Some f /\ v <= f) /\
  (forall t v, (t, v) ∈ ap_tools a -> exists f n m, bm_get t (ce_tools facts) = Some f /\ numeric v = Some n /\ numeric f = Some m /\ leb n m = true) /\
  (ap_editions a <> [] -> exists e, ce_edition facts = Some e /\ e ∈ ap_editions a) /\
  (ap_enrollments a <> [] -> enrollment ∈ ap_enrollments a) /\
  (forall c, c ∈ ap_capabilities a -> c ∈ capabilities).
Proof.
  rewrite allows_iff. intros (Ha & Hf & Hos & Hb & He & Hen & Ht & Hc). destruct (Applicability_validate_ok a Ha) as [Hav Hat]. split_and!.
  - intros facts' caps' (Nos & Nb & Ne & Nt) Hok Hcaps. rewrite allows_iff, Hok. split_and!; [done..| | | |done| |by auto].
    + intros v (f & (f' & -> & Hf')%Nos & Hv)%Hos. exists f'. split; [done|]. by eapply at_least_trans.
    + intros v (f & (f' & -> & Hf')%Nb & Hv)%Hb. exists f'. split; [done|]. lia.
    + destruct He as [He|(e & ->%Ne & He)]; [by left|right; by exists e].
    + intros t v (f & (f' & -> & Hf')%Nt & Hv)%Ht. exists f'. split; [done|]. by eapply at_least_trans.
  - intros v Hv. destruct (Hos v Hv) as (f & Hf' & Hn). destruct (at_least_numeric _ _ Hn (Hav v Hv)) as (n & m & ?). by exists f, n, m.
  - done.
  - intros t v Hin. destruct (Ht _ _ Hin) as (f & Hf' & Hn). destruct (at_least_numeric _ _ Hn (Hat t v Hin)) as (n & m & ?). by exists f, n, m.
  - intros Hne. by destruct He.
  - intros Hne. by destruct Hen.
  - done.
Qed.
End Applicability.

(** ** Identities and digests *)
(** [Id::new] admits ASCII only, so an identity is a text of as many bytes as characters. *)
Lemma Id_new_wf value id : valid_str value = true -> Id_new value = Ok id -> id_wf id.
Proof.
  unfold Id_new. intros Hv ([] & Hc%reject_ok & [= <-])%bind_ok. rewrite !orb_false_iff in Hc. destruct Hc as [[[_ Hn%Z.ltb_ge] _] _].
  split; [done|]. unfold str_len in Hn. unfold length_max. lia.
Qed.
Lemma ResourceDigest_parse_length s d : ResourceDigest_parse s = Ok d -> length d = 32%nat.
Proof. unfold ResourceDigest_parse. intros ([] & _ & H)%bind_ok. by apply res_map_length in H. Qed.

(** ** Closed examples *)
Module ResourceExample.
Import Reference ReferenceJson.
(** Definitions that are their own encoding; the software names one artifact. *)
#[export] Program Instance toy_definitions : Definitions := {|
  SoftwareDefinition := bytes; ScriptDefinition := bytes; NativeCollectionDefinition := bytes;
  AgentCollectionDefinition := bytes; TelemetryProfile := bytes;
  software_canonical d := d; software_primary d := mk_ResourceArtifact (lit "pkg") 1 (sha256 d);
  software_validate_target _ _ _ := Ok (); software_artifacts d := [(1, sha256 d)]; software_dependencies _ := [];
  script_canonical d := d; script_validate_platform _ _ := Ok ();
  native_canonical d := d; native_validate_platform _ _ := Ok ();
  agent_canonical d := d; agent_validate_platform _ _ := Ok ();
  telemetry_canonical d := d; telemetry_validate_target _ _ _ := Ok (); telemetry_template _ := lit "base"
|}.
Definition variant (p : Platform) (content : bytes) : Variant := mk_Variant p A_X86_64 (lit "main") (D_Software content).
Definition two : list Variant := [variant P_MacOS (lit "dmg"); variant P_Windows (lit "msi")].
Definition frozen (label : rstr) (vs : list Variant) : Version :=
  get (mk_Version tenant_a (lit "editor") label K_Software [] []) (Version_new tenant_a (lit "editor") label K_Software vs).
Definition v1 : Version := frozen (lit "1.0") two.
Definition v2 : Version := frozen (lit "2.0") [variant P_Windows (lit "msi")].
Definition at_ (s : Z) (H : is_i64 s = true) : time := Time s H.
Definition none_left : References := mk_References tenant_a (lit "editor") (lit "1.0") true 0.
Definition history : list Operation :=
  [Op_Insert v1 (at_ 10 eq_refl); Op_Insert v2 (at_ 20 eq_refl); Op_Activate (lit "1.0") (at_ 30 eq_refl); Op_Activate (lit "2.0") (at_ 40 eq_refl);
   Op_Archive (lit "1.0") none_left (at_ 50 eq_refl); Op_Activate (lit "1.0") (at_ 60 eq_refl)].
Definition editor : Resource := run history (Resource_new tenant_a (lit "editor") K_Software).

(** The two variants in either order are one version, which resolves to the Windows one. *)
Lemma version_identified_witness :
  Version_new tenant_a (lit "editor") (lit "1.0") K_Software two = Ok v1 /\
  Version_resolve v1 P_Windows A_X86_64 (lit "main") = Ok (variant P_Windows (lit "msi")).
Proof.
  assert (Version_new tenant_a (lit "editor") (lit "1.0") K_Software two = Ok v1) as H by (apply is_ok_get; vm_compute; reflexivity).
  split; [exact H|]. apply (version_identified _ _ _ _ _ _ H). split_and!; [right; left|reflexivity|reflexivity|reflexivity].
Defined.
(** The second version took the place of the first, which was then archived, and stays so. *)
Example editor_states : states (rs_versions editor) = [Archived; Active].
Proof. vm_compute. reflexivity. Qed.
Lemma restore_exact_witness : restore (snapshot editor) = Ok editor.
Proof.
  assert (resource_ok editor) as Hr by apply run_kept, resource_new_ok.
  apply (proj1 (restore_exact editor (snapshot editor)) Hr editor).
  split; [reflexivity|]. split; [vm_compute; reflexivity|]. intros o H. vm_compute in H. discriminate H.
Defined.
(** Version 10.10 meets a requirement of 10.9. *)
Definition needs : Applicability :=
  mk_Applicability (Some (lit "10.9")) (Some 22631) [] [] [(lit "osquery", lit "5.9")] [lit "inventory"].
Definition endpoint : CollectionEnvironment :=
  mk_CollectionEnvironment (Some (lit "10.10")) (Some 22631) None [(lit "osquery", lit "5.23.1")].
Example endpoint_allowed : Applicability_allows needs endpoint (lit "primary") [lit "inventory"] = true.
Proof. vm_compute. reflexivity. Qed.
End ResourceExample.
